(* ===== verification/_CoqProject ===== *)
-Q . S2P
Prelude.v
JsMap.v
Addresses.v
Amount.v
Token.v
Route.v
Config.v
BaseStrategy.v
Strategies.v
Samples.v
StrategyFacts.v
FactoryFacts.v
Bytes.v
Messages.v
AddressEq.v
BlockTag.v
Store.v
ActionTracker.v
TrackerSamples.v
TrackerFacts.v
SyncFacts.v
InventoryFacts.v
ContextFacts.v
ErrorGraph.v
Gas.v
InventoryRebalancer.v
RouteRelations.v
InventorySamples.v
Triples.v
RebalanceFacts.v
CycleFacts.v
Rebalancer.v
RebalancerFacts.v
Orchestrator.v
Monitor.v
JsNumber.v
ContextFactory.v
Service.v
Lifecycle.v
DaemonFacts.v
OrchestratorFacts.v
Progress.v
WiringFacts.v
ServiceFacts.v
LiFiBridge.v
LiFiFacts.v
Metadata.v
MetadataFacts.v
MetadataBuilder.v
BuilderFacts.v
Relayer.v
RelayerFacts.v
RpcErrors.v
SmartProvider.v
SmartProviderFacts.v
LogReads.v
LogReadsFacts.v
LogReader.v
LogReaderFacts.v
WarpTokens.v
WarpTokensFacts.v
WarpCore.v
WarpCoreFacts.v
KeyFunder.v
KeyFunderFacts.v
ConfigJson.v
IsmArtifacts.v
IsmArtifactsFacts.v
IsmConfigFacts.v
IsmRecipientFacts.v
IsmWriters.v
IsmWriterFacts.v
IsmUpdateFacts.v
HookArtifacts.v
FeeArtifacts.v
WarpArtifacts.v
DeployWriters.v
DeployLaws.v
DeployFacts.v
DeploySamples.v
