(* ===== verification/Prelude.v ===== *)
(** * A verification of Hyperlane's warp routes, their rebalancer, the relayer and the RPC layer

    Hyperlane connects chains by messages; a warp route keeps tokens of one asset locked on
    several chains, and the rebalancer (src/typescript/rebalancer) moves that collateral so
    that every chain can pay out. A cycle of the rebalancer reads the balances of the routers,
    synchronizes its tracker of what is in flight, asks a strategy which routes to move, and
    has them executed. The relayer (src/typescript/relayer) takes a dispatched message to its
    destination with the metadata its security module asks for. WarpCore makes and checks the
    transfers of users, and the key funder (src/typescript/keyfunder) keeps the keys of services
    funded. The core of a chain and the warp routes on it, with the security modules, hooks and fees
    they refer to, are configured, deployed and updated through artifacts (src/typescript/provider-sdk
    and deploy-sdk). Chains are read through the SDK (src/typescript/sdk), whose providers ask several endpoints and whose readers page through
    event logs. This development models the parts that decide: amounts and scales, balances,
    configuration, strategies, the tracker, the execution of routes, the formats of messages and
    metadata, the relaying of messages, the transfers of a warp route, the deployment of
    security modules, warp routes and cores, and what a request or a read of logs ends with.
    File names below are relative to src/typescript.

    ** Parts and how they interact

    - [Prelude]: exceptions as the sum [result], stateful code as [eff] (a state that survives
      a throw), big integer division, the stable sort of arrays, and the lemmas and tactics on
      them. [JsMap]: Map and plain objects as insertion-ordered association lists.
    - [Addresses], [Bytes], [Messages]: utils/src/addresses.ts, strings.ts and messages.ts.
      Packing and parsing of messages, warp route bodies and hook metadata; the tracker reads
      amounts with [parseWarpRouteMessage].
    - [Amount]: sdk/src/utils/decimals.ts and utils/src/amount.ts, the exact conversions
      between local units of a token and canonical units of a message. [Token]:
      rebalancer/src/utils/balanceUtils.ts and tokenUtils.ts on top of them.
    - [Route], [Config]: rebalancer/src/interfaces/IStrategy.ts, utils/bridgeUtils.ts and
      config/types.ts: the data and the checks of a configuration.
    - [BaseStrategy], [Strategies]: rebalancer/src/strategy. [BaseStrategy] has the shared
      method getRebalancingRoutes (validate, reserve, simulate, categorize, match, filter),
      [Strategies] the modules [Weighted], [MinAmount], [CollateralDeficit], [Composite] and
      [StrategyFactory], one per class.
    - [BlockTag]: rebalancer/src/utils/blockTag.ts. [Store]: tracking/types.ts and the
      in-memory store. [ActionTracker]: tracking/ActionTracker.ts, every operation as a
      program over the three stores, and tracking/InflightContextAdapter.ts, which turns the
      tracker's entities into the context a strategy takes.
    - [Gas]: rebalancer/src/utils/gasEstimation.ts, the costs of a transfer. [ErrorGraph]: the
      search for a recoverable cause in a possibly cyclic error. [InventoryRebalancer]:
      rebalancer/src/core/InventoryRebalancer.ts, which executes inventory routes: its state is
      the tracker, the inventory balances and what the cycle has consumed of them.
    - [Triples]: weakest preconditions for [eff], used on the inventory rebalancer.
    - [AddressEq]: utils/src/addresses.ts, which strings are addresses of which protocol and when
      two are equal. [Rebalancer]: rebalancer/src/core/Rebalancer.ts, which executes movable
      collateral routes through the bridges of the routers and records them in the tracker.
    - [Orchestrator]: rebalancer/src/core/RebalancerOrchestrator.ts, one cycle over the shared
      tracker: synchronization, balances, context, strategy, both rebalancers. [Monitor]:
      rebalancer/src/monitor/Monitor.ts, the event of a poll, and polling until stopped.
    - [ContextFactory]: rebalancer/src/factories/RebalancerContextFactory.ts and
      config/RebalancerConfig.ts, which build the strategy, the rebalancers, the monitor and the
      orchestrator from a configuration. [Service]: rebalancer/src/core/RebalancerService.ts, its
      initialization, manual rebalances and the daemon. [JsNumber]: Number(s) and BigInt(s).
    - [LiFiBridge]: rebalancer/src/bridges/LiFiBridge.ts, quotes, checked execution and status of
      bridge transfers, and the lock on parallel executions as a step relation.
    - [RouteRelations], [Lifecycle]: the interfaces that carry relations between states from
      the operations of the tracker to the rebalancers, the cycle and the daemon.
    - [Metadata]: relayer/src/metadata, the packing and parsing of metadata by kind of module.
      [MetadataBuilder]: its building, with one definition per builder class and [build] on top.
      [Relayer]: relayer/src/core, the whitelist, one message from dispatch to delivery
      ([relayMessage]), all messages of a transaction, and the backlog over starts, stops and
      restarts ([relayer_step], on shared arrays).
    - [RpcErrors]: the classification and combination of provider errors in
      sdk/src/providers/SmartProvider and sdk/src/rpc/evm/utils.ts. Also awaiting with
      exceptions of any value, and retryAsync of utils/src/async.ts. [SmartProvider]:
      SmartProvider.ts, one request over several providers.
    - [LogReads]: getLogsFromRpc and the bisection of sdk/src/rpc/evm/utils.ts, the split
      requests of HyperlaneJsonRpcProvider.ts, the pages of block-explorer/etherscan.ts.
      [LogReader]: sdk/src/rpc/evm/EvmEventLogsReader.ts, strategies with fallback and caches,
      over the interface [LogStrategy].
    - [WarpTokens]: sdk/src/token/TokenStandard.ts, TokenMetadata.ts, TokenConnection.ts, Token.ts
      and the factories of sdk/src/token/adapters: what a token of a warp route is, which tokens
      are the same asset, how they are connected, and which adapter a token gets. [WarpCore]:
      sdk/src/warp/WarpCore.ts, from a configuration to quotes, transactions, limits and the
      checks before a transfer; it asks adapters and chains through the class [WarpWorld].
    - [JsNumber] also has numbers that are not integers, as doubles. [KeyFunder]: keyfunder/src, its
      configuration and core/KeyFunder.ts, which keeps the balances of keys on all chains at once:
      a program of calls ([prog]) for each chain, and the steps of their interleaving.
    - [ConfigJson]: utils/src/config.ts, normalization and comparison of configurations.
      [IsmArtifacts]: provider-sdk/src/artifact.ts and ism.ts, trees of security modules that are
      new, deployed or known by address, their merging with what a chain has, their conversions and
      checks. [IsmWriters]: deploy-sdk/src/ism and deployOrUpdateIsm of core/core-writer.ts, which
      read, deploy and update them through the class [RawIsmManager] of what a protocol does.
    - [HookArtifacts], [FeeArtifacts], [WarpArtifacts]: provider-sdk/src/hook.ts, fee.ts (with the
      arithmetic of basis points), warp.ts, mailbox.ts and core.ts: what is asked for, conversions, what
      has to be deployed anew, and the differences of routers. [DeployWriters]: deploy-sdk/src/warp and
      core, which read, deploy and update routes and mailboxes with what they refer to.

    ** What the theorems show

    - [StrategyFacts], [FactoryFacts]: every route any strategy returns is safe to execute;
      a weighted strategy brings chains below their band exactly to target and never
      overshoots; minimum-amount and collateral-deficit strategies never draw a chain below
      its minimum or zero; composite strategies run in sequence; a validated configuration
      yields executable routes, and where it does not.
    - [Amount], [Token]: conversions are least, aligned and exact; scale checks are sound and
      complete; the balances of a route are the canonical supplies of its tokens.
    - [TrackerFacts]: an invariant of all runs of the tracker, by induction on the runs of
      [step]. [SyncFacts], [InventoryFacts]: what each synchronization and query does to the
      statuses, exactly. [ContextFacts]: the balances a strategy projects, in terms of the
      tracker's entities.
    - [Messages], [BlockTag]: round trips, totality, and safety of confirmed blocks.
    - [Gas], [ErrorGraph]: bounds on transfer costs; the search ends and is exact.
      [RebalanceFacts]: bridge plans spread their target and a cycle never spends more
      inventory than there is. [CycleFacts]: a cycle works on one intent, and a deposit is
      recorded with exactly what it delivers.
    - [AddressEq]: equality of addresses. [RebalancerFacts]: every movable route is settled.
      [OrchestratorFacts]: what a cycle decides on, when it throws, and what it accounts for.
      [Progress]: a cycle whose synchronizations succeed completes what is delivered.
    - [WiringFacts]: a service that starts can execute what its strategy proposes, and which
      configurations escape that. [DaemonFacts], [ServiceFacts]: after any calls on
      a service the tracker is well formed, has lost nothing, and claims no delivery without
      evidence; polls never end a daemon; and what a manual rebalance leaves behind.
    - [LiFiFacts]: only a route that matches the request is executed; parallel executions are
      serialized, by induction on the runs of [lock_step].
    - [MetadataFacts]: packed metadata parses back. [BuilderFacts]: what the multisig builder
      reports and when it has metadata; what any build packs decodes along its tree of modules.
      [RelayerFacts]: the ways relaying a message ends, and that a relayer loses no message, by
      induction on the runs of [relayer_step].
    - [SmartProviderFacts]: a transaction is submitted once, every other request ends within
      bounds, and the combined error does not depend on the order of failures.
      [LogReadsFacts]: reads of logs are complete or throw, in a bounded number of requests,
      and the bisection is exact. [LogReaderFacts]: the reader refines the logs of the chain,
      against the interface [truthful], which each strategy is shown to meet.
    - [WarpTokensFacts]: equality of tokens is an equivalence that being the same asset respects;
      identifiers of connections read back. [WarpCoreFacts]: what holds of a transfer that passes
      every check, what its transactions approve and move, that a destination that covers a
      transfer can pay it, and the most that can be transferred.
    - [KeyFunderFacts]: every transfer of the key funder is justified by the answers before it, and
      a run that returns has looked after every key, by a weakest precondition for [prog] and
      induction on the steps of all chains.
    - [IsmArtifactsFacts]: a merge asks for what is expected and reuses what serves, by induction on
      trees. [IsmConfigFacts]: configurations read back. [IsmRecipientFacts]: whom rate limits protect.
      [IsmWriterFacts]: what is deployed is what was asked for and is stable. [IsmUpdateFacts]: applying
      a configuration, submitted, refines having it, against the promises [IsmChainLaws].
    - [FeeArtifacts]: basis points read back through floating point. [WarpArtifacts]: applying a
      difference of routers converges. [DeployLaws]: the promises of protocols, and what the writers of
      modules leave alone. [DeployFacts]: what settling a hook or a fee leaves; a route and a core that
      are deployed, or updated, are what their configuration asks for.

    [Samples] and [TrackerSamples] hold the concrete inputs of the witnesses, which apply each
    theorem that has hypotheses.

    ** Conventions

    Integers are exact: [bigint] is [Z], and a [number] that counts blocks, milliseconds or
    domains is taken in the range where it is exact. A [throw] is a value of [result]; error
    messages are kept where code reads them or where they are short. Code outside the
    repository is a class: [BigNumberJs] (bignumber.js and the unit parser), [AddressLibs]
    (checksums of addresses, with [AddressLaws]), [Ethers] with the
    laws of its codecs in [EthersLaws], [Signatures] and [AbiCoder] (signatures and ABI values),
    the [Registry] a service is built from, the [LiFiSdk], and [World], [Chains], [Routers],
    [Adapters], [RelayerWorld] and [RelayerCore], which answer every call of the tracker, of the
    two rebalancers, of the monitor and of the relayer to the outside by the number of calls made
    before, so that nothing relates two answers; [ChainsLaws] says that reported amounts are not negative and
    that WarpCore lets no more be sent than the balance it was asked about (of fees that are not
    negative, [WarpCoreFacts.max_transfer_exact] shows it).
    The SDK's providers have the class [Json] for JSON.parse, [Backends] for what a provider
    answers and when, and [LogSource], [LogNode], [ExplorerApi] and [DeploymentApi] for what is
    read from; errors there are the [Value]s of [RpcErrors], since the code tells them apart by
    their fields. Time is in milliseconds and passes while a request waits; a reply that comes
    at the very moment of a timeout is late. WarpCore's surroundings are the classes [BigNumberDiv]
    (quotients of bignumber.js, exact by [BigNumberDivLaws] up to twenty decimals), [AddressCodecs]
    and [WarpWorld], whose calls are programs over any state; a theorem about them names what was
    answered. A connection of a token holds the data of the other token, and not its connections.
    The calls of the key funder are data: its theorems hold for every sequence of answers.
    What a protocol reads and writes of security modules is the class [RawIsmManager], over any state;
    [IsmChainLaws] states what the interfaces of its readers and writers promise, and
    [DeploySamples.IsmSample] has a chain in memory that keeps these promises. Hooks, fees, routes and mailboxes
    have [RawHookManager], [RawFeeManager], [RawWarpManager] and [RawMailboxManager], with the
    promises [HookLaws], [FeeLaws], [RouteLaws] and [MailboxLaws] of [DeployLaws], which also name what
    each part of a chain has ([part_at]); [DeploySamples.DeploySample] has a chain that keeps them.
    A protocol may have no hooks of routes, or no fees, and then leaves those of a route as they are; it may
    remove or keep what is not configured; and [RouteLaws] promises that what is written is what a route then
    has only for [proper] addresses, spelled as the chain spells them and not empty.
    Numbers of [FeeArtifacts] are doubles that are finite and zero or normal.
    Plain objects are assumed to list their keys in insertion order (chain names are not
    integer-like). Strings are byte strings: case conversion is that of ASCII.

    Recursion is structural with few exceptions. Four are well founded, so no fuel is needed: the
    matching loop of [BaseStrategy], on the number of surpluses and deficits left, each turn
    exhausting one of them; the search of [ErrorGraph], on the number of error objects not
    yet seen; the loop of getLogsFromRpc, on the blocks left, the width of a chunk and the
    retries left; and the bisection for a deployment block, on the width of its interval.
    [LogReads.block_chunks] and [LogReads.query_batches] have the number of blocks and of chunks
    as fuel (their specifications show that it is enough). Two have the length of a string as fuel, [Metadata.chunk_loop] and
    [Metadata.Multisig.decode_signatures], each turn consuming some of it (the round trips show
    that it is enough); the search of ccipread.ts and the depth of the metadata builder have
    the bounds the code gives them. [IsmWriters.read_ism] follows references on a chain, which could
    be circular: its fuel is how deep, and what was deployed as a tree needs its depth
    ([IsmWriterFacts.deployed_module_is_stable]). The operations of the tracker are modelled one after another, as the rebalancer
    awaits them, but for the three synchronizations RebalancerOrchestrator starts under
    Promise.all: they are jobs ([Prelude.job], a call cut at its awaits, one step for each read
    and each entity handled), whose steps [World] interleaves in any order. At the first rejection
    the cycle goes on and the others are left running in [pendingSyncs]: they take as many steps
    as [World] lets them at the start of each cycle, after its synchronization, and before and
    after the movable routes are executed (not within the execution of routes, which is one
    stage), until they end, if ever. Bridge movements or log queries started together run in the
    order they are started.

    ** Not modelled

    Logging and metrics; the zod schemas (their outputs are the types); the transport of RPC,
    explorer and bridge APIs; the rest of the monorepo: the Solidity contracts, the Rust
    agents, the SDK's deployment, configuration and adapter classes, what each protocol
    does behind the interfaces of artifacts, the CLI, the infrastructure scripts, the widgets,
    and the other services. The manifest lists each with its reason. *)
From stdpp Require Import base tactics list gmap strings pretty.
From Stdlib Require Import ZArith Lia Sorted.

#[local] Open Scope Z_scope.

(** ** Exceptions and fallible code *)

(** What a JavaScript [throw] can raise in the modelled code. *)
Inductive exn : Type :=
| Error (msg : string)
| TypeError (msg : string)
| RangeError (msg : string)
| SyntaxError (msg : string).

Inductive result (A : Type) : Type :=
| Ok (a : A)
| Throw (e : exn).
Arguments Ok {A} _.
Arguments Throw {A} _.

#[export] Instance exn_eq_dec : EqDecision exn.
Proof. solve_decision. Defined.

#[export] Instance result_eq_dec {A} `{EqDecision A} : EqDecision (result A).
Proof. solve_decision. Defined.

#[export] Instance result_ret : MRet result := fun _ a => Ok a.
#[export] Instance result_bind : MBind result := fun _ _ f m =>
  match m with Ok a => f a | Throw e => Throw e end.
#[export] Instance result_fmap : FMap result := fun _ _ f m =>
  match m with Ok a => Ok (f a) | Throw e => Throw e end.

Definition is_ok {A} (r : result A) : bool :=
  match r with Ok _ => true | Throw _ => false end.

(** [assert(cond, msg)] of utils/src/validation.ts. *)
Definition js_assert (cond : bool) (msg : string) : result unit :=
  if cond then Ok () else Throw (Error msg).

(** ** Stateful code: a state that survives a [throw], as JavaScript objects do *)

Definition eff (S A : Type) : Type := S -> S * result A.

#[export] Instance eff_ret {S} : MRet (eff S) := fun _ a s => (s, Ok a).
#[export] Instance eff_bind {S} : MBind (eff S) := fun _ _ f m s =>
  match m s with
  | (s', Ok a) => f a s'
  | (s', Throw e) => (s', Throw e)
  end.

Definition get {S} : eff S S := fun s => (s, Ok s).
Definition gets {S A} (f : S -> A) : eff S A := fun s => (s, Ok (f s)).
Definition modify {S} (f : S -> S) : eff S unit := fun s => (f s, Ok ()).
Definition throw {S A} (e : exn) : eff S A := fun s => (s, Throw e).
Definition lift {S A} (r : result A) : eff S A := fun s => (s, r).

(** [try { m } catch (e) { h e }]: the handler starts in the state the body left. *)
Definition try_catch {S A} (m : eff S A) (h : exn -> eff S A) : eff S A := fun s =>
  match m s with
  | (s', Ok a) => (s', Ok a)
  | (s', Throw e) => h e s'
  end.

(** One member of [Promise.allSettled]: its outcome, thrown or not, is a value. *)
Definition settled {S A} (m : eff S A) : eff S (result A) := fun s => (fst (m s), Ok (snd (m s))).

(** [for (const x of xs) await f(x)]. *)
Fixpoint for_each {S A} (f : A -> eff S unit) (xs : list A) : eff S unit :=
  match xs with
  | [] => mret ()
  | x :: xs' => f x ≫= fun _ => for_each f xs'
  end.

(** ** Promises that run beside each other *)

(** A call that has been started and not awaited to its end: each step runs the code from one
    await to the next. *)
Inductive job (S : Type) : Type :=
| Ended (r : result unit)
| Awaits (step : S -> S * job S).
#[global] Arguments Ended {S} r.
#[global] Arguments Awaits {S} step.

(** [const x = await m; k(x)]. *)
Definition await {S A} (m : eff S A) (k : A -> job S) : job S := Awaits (fun s =>
  match m s with
  | (s', Ok a) => (s', k a)
  | (s', Throw e) => (s', Ended (Throw e))
  end).

(** [for (const x of xs) await f(x)], and then [k]. *)
Fixpoint await_each {S A} (f : A -> eff S unit) (xs : list A) (k : job S) : job S :=
  match xs with
  | [] => k
  | x :: xs' => await (f x) (fun _ => await_each f xs' k)
  end.

(** What a job does when nothing else runs. *)
Fixpoint to_end {S} (j : job S) (s : S) : S * result unit :=
  match j with
  | Ended r => (s, r)
  | Awaits step => let (s', j') := step s in to_end j' s'
  end.

(** The first rejection among jobs. *)
Fixpoint rejection {S} (jobs : list (job S)) : option exn :=
  match jobs with
  | [] => None
  | Ended (Throw e) :: _ => Some e
  | _ :: rest => rejection rest
  end.

Definition is_pending {S} (j : job S) : bool := match j with Awaits _ => true | Ended _ => false end.

(** [await Promise.all([j1, j2, j3])] from its turn [k] on: [turn] says which of the jobs that
    have not ended goes on. It settles at the first rejection, with the jobs that are pending
    then, or when all have ended. *)
Section promise_all.
Context {S : Type} (turn : nat -> nat).

Fixpoint promise_all (j1 : job S) : job S -> job S -> nat -> S -> S * (list (job S) * result unit) :=
  fix second (j2 : job S) : job S -> nat -> S -> S * (list (job S) * result unit) :=
    fix third (j3 : job S) (k : nat) (s : S) : S * (list (job S) * result unit) :=
      let go1 := match j1 with
                 | Awaits step => Some (fun s => let (s', j') := step s in promise_all j' j2 j3 (Datatypes.S k) s')
                 | Ended _ => None
                 end in
      let go2 := match j2 with
                 | Awaits step => Some (fun s => let (s', j') := step s in second j' j3 (Datatypes.S k) s')
                 | Ended _ => None
                 end in
      let go3 := match j3 with
                 | Awaits step => Some (fun s => let (s', j') := step s in third j' (Datatypes.S k) s')
                 | Ended _ => None
                 end in
      match rejection [j1; j2; j3] with
      | Some e => (s, (filter (fun j => is_pending j = true) [j1; j2; j3], Throw e))
      | None =>
          match omap id [go1; go2; go3] with
          | [] => (s, ([], Ok ()))
          | go :: rest => default go ((go :: rest) !! turn k) s
          end
      end.
End promise_all.

(** ** Big integer helpers *)

(** [xs.reduce((sum, x) => sum + f(x), 0n)]. *)
Definition sum_by {A} (f : A -> Z) (xs : list A) : Z :=
  foldl (fun acc x => acc + f x) 0 xs.
#[global] Arguments sum_by : simpl never.

(** [a / b] on [bigint]: truncates towards zero and throws on a zero divisor. *)
Definition bigint_div (a b : Z) : result Z :=
  if b =? 0 then Throw (RangeError "Division by zero") else Ok (Z.quot a b).

(** [xs.filter(f)] for a test that may throw. *)
Fixpoint filterM {A} (f : A -> result bool) (xs : list A) : result (list A) :=
  match xs with
  | [] => Ok []
  | x :: xs' =>
      b ← f x;
      rest ← filterM f xs';
      Ok (if (b : bool) then x :: rest else rest)
  end.

(** ** [Array.prototype.sort] *)

(** A stable insertion sort driven only by the sign of [cmp x y < 0], as the sort of
    V8 is: for a comparator whose test [cmp x y < 0] is a strict weak order every
    stable sort that looks at this test alone returns the same list. *)
Fixpoint js_insert {A} (cmp : A -> A -> Z) (x : A) (l : list A) : list A :=
  match l with
  | [] => [x]
  | y :: l' => if cmp x y <? 0 then x :: y :: l' else y :: js_insert cmp x l'
  end.

Definition js_sort {A} (cmp : A -> A -> Z) (l : list A) : list A :=
  foldl (fun acc x => js_insert cmp x acc) [] l.

(** ** Texts *)

Lemma append_cons x (a b : string) : String x a +:+ b = String x (a +:+ b).
Proof. done. Qed.

Lemma append_nil_r (a : string) : a +:+ EmptyString = a.
Proof. induction a as [|x a IH]; [done|]. by rewrite append_cons, IH. Qed.

Lemma app_string_assoc (a b c : string) : (a +:+ b) +:+ c = a +:+ (b +:+ c).
Proof. induction a as [|x a IH]; [done|]. by rewrite !append_cons, IH. Qed.

Lemma length_app_string (a b : string) :
  String.length (a +:+ b) = (String.length a + String.length b)%nat.
Proof. induction a as [|x a IH]; [done|]. rewrite append_cons. cbn. by rewrite IH. Qed.

(** ** Facts on [result] and [eff] *)

Lemma result_bind_ok {A B} (m : result A) (f : A -> result B) b :
  (m ≫= f) = Ok b <-> exists a, m = Ok a /\ f a = Ok b.
Proof. destruct m; cbn; naive_solver. Qed.

Lemma result_fmap_ok {A B} (m : result A) (f : A -> B) b :
  (f <$> m) = Ok b <-> exists a, m = Ok a /\ f a = b.
Proof. destruct m; cbn; naive_solver. Qed.

Lemma js_assert_ok cond msg : js_assert cond msg = Ok () <-> cond = true.
Proof. destruct cond; cbn; naive_solver. Qed.

Lemma js_assert_true {A} cond msg (k : unit -> result A) :
  cond = true -> (js_assert cond msg ≫= k) = k ().
Proof. by intros ->. Qed.

Lemma mapM_result_length {A B} (f : A -> result B) l k :
  mapM f l = Ok k -> length k = length l.
Proof.
  revert k; induction l as [|x l IH]; intros k; [by intros [= <-]|].
  cbn. destruct (f x) as [y|]; [cbn|done].
  destruct (mapM f l) as [k'|] eqn:E; cbn; [|done].
  intros [= <-]. cbn. by rewrite (IH k').
Qed.

Lemma mapM_result_app {A B} (f : A -> result B) l1 l2 :
  mapM f (l1 ++ l2) = (k1 ← mapM f l1; k2 ← mapM f l2; mret (k1 ++ k2)).
Proof.
  induction l1 as [|x l1 IH]; cbn.
  - by destruct (mapM f l2).
  - destruct (f x); [|done]. cbn. rewrite IH.
    destruct (mapM f l1); [|done]. cbn. by destruct (mapM f l2).
Qed.

Lemma mapM_result_ok_inv {A B} (f : A -> result B) l k :
  mapM f l = Ok k <-> Forall2 (fun x y => f x = Ok y) l k.
Proof.
  split.
  - revert k; induction l as [|x l IH]; intros k; cbn; [intros [= <-]; constructor|].
    destruct (f x) as [y|] eqn:Hx; [|done]. cbn.
    destruct (mapM f l) as [k'|] eqn:E; [|done]. intros [= <-].
    constructor; [done|]. by apply IH.
  - induction 1 as [|x y l k Hx _ IH]; cbn; [done|]. by rewrite Hx; cbn; rewrite IH.
Qed.

Lemma mapM_result_total {A B} (f : A -> result B) l :
  (forall x, x ∈ l -> exists y, f x = Ok y) -> exists k, mapM f l = Ok k.
Proof.
  induction l as [|x l IH]; intros H; cbn; [eauto|].
  destruct (H x ltac:(set_solver)) as [y ->]. cbn.
  destruct IH as [k Hk]; [set_solver|]. rewrite Hk. cbn. eauto.
Qed.

Lemma filterM_elem {A} (f : A -> result bool) xs ys x :
  filterM f xs = Ok ys -> x ∈ ys -> x ∈ xs /\ f x = Ok true.
Proof.
  revert ys; induction xs as [|y xs IH]; intros ys; cbn; [intros [= <-]; set_solver|].
  destruct (f y) as [b|] eqn:Hy; [cbn|done].
  destruct (filterM f xs) as [rest|] eqn:E; [cbn|done].
  intros [= <-] Hx. destruct b; [apply elem_of_cons in Hx as [->|Hx]|];
    [set_solver| |]; destruct (IH _ eq_refl Hx); set_solver.
Qed.

Lemma filterM_sublist {A} (f : A -> result bool) xs ys :
  filterM f xs = Ok ys -> ys `sublist_of` xs.
Proof.
  revert ys; induction xs as [|y xs IH]; intros ys; cbn; [by intros [= <-]|].
  destruct (f y) as [b|] eqn:Hy; [cbn|done].
  destruct (filterM f xs) as [rest|] eqn:E; [cbn|done].
  intros [= <-]. destruct b; constructor; by apply IH.
Qed.

Lemma filterM_true {A} (f : A -> result bool) xs :
  (forall x, x ∈ xs -> f x = Ok true) -> filterM f xs = Ok xs.
Proof.
  induction xs as [|x xs IH]; intros H; cbn; [done|].
  rewrite H by set_solver. cbn. rewrite IH by set_solver. done.
Qed.

Lemma filterM_total {A} (f : A -> result bool) xs :
  (forall x, x ∈ xs -> exists b, f x = Ok b) -> exists ys, filterM f xs = Ok ys.
Proof.
  induction xs as [|x xs IH]; intros H; cbn; [eauto|].
  destruct (H x ltac:(set_solver)) as [b ->]. cbn.
  destruct IH as [ys ->]; [set_solver|]. cbn. eauto.
Qed.

Lemma eff_bind_run {S A B} (m : eff S A) (f : A -> eff S B) s :
  (m ≫= f) s = match m s with (s', Ok a) => f a s' | (s', Throw e) => (s', Throw e) end.
Proof. done. Qed.

(** Runs one step of a stateful program whose first command is known to succeed. *)
Lemma eff_bind_ok {S A B} (m : eff S A) (f : A -> eff S B) s s' a :
  m s = (s', Ok a) -> (m ≫= f) s = f a s'.
Proof. intros H. by rewrite eff_bind_run, H. Qed.

Lemma eff_bind_inv {S A B} (m : eff S A) (f : A -> eff S B) s s'' b :
  (m ≫= f) s = (s'', Ok b) -> exists s' a, m s = (s', Ok a) /\ f a s' = (s'', Ok b).
Proof. rewrite eff_bind_run. destruct (m s) as [s' [a|e]]; naive_solver. Qed.

(** Runs the plumbing of a stateful program, leaving its own operations alone. *)
Ltac run_eff :=
  cbv beta iota delta [mbind eff_bind mret eff_ret get gets modify throw lift try_catch].

(** A relation on states kept by [m], whether it returns or throws. *)
Definition preserves {S A} (R : S -> S -> Prop) (m : eff S A) : Prop :=
  forall s, R s (m s).1.

Section preserves.
Context {S : Type} (R : S -> S -> Prop) `{!PreOrder R}.

Lemma preserves_ret {A} (a : A) : preserves R (mret a : eff S A).
Proof. intros s; cbn; reflexivity. Qed.

Lemma preserves_gets {A} (f : S -> A) : preserves R (gets f).
Proof. intros s; cbn; reflexivity. Qed.

Lemma preserves_throw {A} (e : exn) : preserves R (throw e : eff S A).
Proof. intros s; cbn; reflexivity. Qed.

Lemma preserves_lift {A} (r : result A) : preserves R (lift r : eff S A).
Proof. intros s; cbn; reflexivity. Qed.

Lemma preserves_bind {A B} (m : eff S A) (f : A -> eff S B) :
  preserves R m -> (forall a, preserves R (f a)) -> preserves R (m ≫= f).
Proof.
  intros Hm Hf s. rewrite eff_bind_run. specialize (Hm s).
  destruct (m s) as [s' [a|e]]; cbn in *; [|done].
  etrans; [exact Hm | apply Hf].
Qed.

Lemma preserves_try_catch {A} (m : eff S A) (h : exn -> eff S A) :
  preserves R m -> (forall e, preserves R (h e)) -> preserves R (try_catch m h).
Proof.
  intros Hm Hh s. unfold try_catch. specialize (Hm s).
  destruct (m s) as [s' [a|e]]; cbn in *; [done|].
  etrans; [exact Hm | apply Hh].
Qed.

Lemma preserves_settled {A} (m : eff S A) : preserves R m -> preserves R (settled m).
Proof. intros Hm s. apply Hm. Qed.

Lemma preserves_mapM {A B} (f : A -> eff S B) xs :
  (forall x, x ∈ xs -> preserves R (f x)) -> preserves R (mapM f xs).
Proof.
  induction xs as [|x xs IH]; intros Hf; cbn; [apply preserves_ret|].
  apply preserves_bind; [apply Hf; set_solver|intros y].
  apply preserves_bind; [apply IH; set_solver|intros ys]. apply preserves_ret.
Qed.

Lemma preserves_for_each {A} (f : A -> eff S unit) xs :
  (forall x, x ∈ xs -> preserves R (f x)) -> preserves R (for_each f xs).
Proof.
  induction xs as [|x xs IH]; intros Hf; cbn; [apply preserves_ret|].
  apply preserves_bind; [apply Hf; set_solver|intros []; apply IH; set_solver].
Qed.

End preserves.

(** A loop whose body always returns, by an invariant on the items already done. *)
Lemma for_each_ok_ind {S A} (P : list A -> S -> Prop) (f : A -> eff S unit) xs s :
  P [] s ->
  (forall before x rest s, xs = before ++ x :: rest -> P before s ->
     exists s', f x s = (s', Ok ()) /\ P (before ++ [x]) s') ->
  exists s', for_each f xs s = (s', Ok ()) /\ P xs s'.
Proof.
  intros H0 Hstep.
  enough (forall before rest s, xs = before ++ rest -> P before s ->
    exists s', for_each f rest s = (s', Ok ()) /\ P xs s') as H by (by eapply (H [])).
  intros before rest. revert before. induction rest as [|x rest IH]; intros before s' Hxs HP.
  - exists s'. rewrite app_nil_r in Hxs. by subst.
  - destruct (Hstep before x rest s' Hxs HP) as (s1 & Hf & HP1).
    destruct (IH (before ++ [x]) s1) as (s2 & Hl & HP2); [by rewrite <- app_assoc|done|].
    exists s2. split; [|done]. cbn. by rewrite (eff_bind_ok _ _ _ _ _ Hf).
Qed.

(** ** Facts on jobs *)

Section jobs.
Context {S : Type}.

Lemma job_induction (P : job S -> Prop) :
  (forall j, (forall step s, j = Awaits step -> P (snd (step s))) -> P j) -> forall j, P j.
Proof.
  intros HP. fix IH 1. intros [r|step]; apply HP; [intros step s Hj; discriminate Hj|]. intros step' s Hj.
  assert (P (snd (step s))) as Hs by (destruct (step s) as [s' j']; exact (IH j')).
  by injection Hj as <-.
Qed.

Lemma default_lookup_elem {A} (x : A) l i : default x ((x :: l) !! i) ∈ x :: l.
Proof.
  destruct ((x :: l) !! i) as [y|] eqn:E; cbn; [by eapply list_elem_of_lookup_2|apply elem_of_cons; by left].
Qed.

(** The ways one turn of [promise_all] can go. *)
Lemma promise_all_turn turn j1 j2 j3 k (s : S) :
  let all := @promise_all S turn in
  (exists e, all j1 j2 j3 k s =
     (s, (filter (fun j => is_pending j = true) [j1; j2; j3], Throw e))) \/
  (Forall (eq (Ended (Ok ()))) [j1; j2; j3] /\ all j1 j2 j3 k s = (s, ([], Ok ()))) \/
  (exists step, j1 = Awaits step /\
     all j1 j2 j3 k s = all (snd (step s)) j2 j3 (Datatypes.S k) (fst (step s))) \/
  (exists step, j2 = Awaits step /\
     all j1 j2 j3 k s = all j1 (snd (step s)) j3 (Datatypes.S k) (fst (step s))) \/
  (exists step, j3 = Awaits step /\
     all j1 j2 j3 k s = all j1 j2 (snd (step s)) (Datatypes.S k) (fst (step s))).
Proof.
  cbv zeta. destruct (rejection [j1; j2; j3]) as [e|] eqn:Hrej.
  { left. exists e. destruct j1, j2, j3; cbn [promise_all]; by rewrite Hrej. }
  right.
  destruct j1 as [r1|step1], j2 as [r2|step2], j3 as [r3|step3]; cbn [promise_all];
    rewrite Hrej; cbn [omap list_omap id];
    [left; destruct r1 as [[]|], r2 as [[]|], r3 as [[]|]; try discriminate Hrej;
     (split; [by rewrite !Forall_cons|done])|right..];
    (match goal with |- context [default ?x ((?x :: ?l) !! turn k)] =>
       pose proof (default_lookup_elem x l (turn k)) as Hgo; revert Hgo;
       generalize (default x ((x :: l) !! turn k)); intros go Hgo end);
    repeat (apply elem_of_cons in Hgo as [->|Hgo]); try (by apply not_elem_of_nil in Hgo);
    first [ left; eexists; split; [reflexivity|]; match goal with |- context [snd (?st s)] => by destruct (st s) end
          | right; left; eexists; split; [reflexivity|]; match goal with |- context [snd (?st s)] => by destruct (st s) end
          | right; right; eexists; split; [reflexivity|]; match goal with |- context [snd (?st s)] => by destruct (st s) end ].
Qed.

(** Alone, a job is the program it was started from. *)
Lemma to_end_await {A} (m : eff S A) (k : A -> job S) s :
  to_end (await m k) s = (m ≫= fun a => to_end (k a)) s.
Proof. cbn. rewrite eff_bind_run. by destruct (m s) as [s' [a|e]]. Qed.

Lemma to_end_await_each {A} (f : A -> eff S unit) xs k s :
  to_end (await_each f xs k) s = (for_each f xs ≫= fun _ => to_end k) s.
Proof.
  revert s. induction xs as [|x xs IH]; intros s; [done|]. cbn [await_each for_each].
  rewrite to_end_await, !eff_bind_run. destruct (f x s) as [s' [[]|e]]; [apply IH|done].
Qed.

(** Each step of the job keeps [R], from any good state that [R] leads to; whoever else moves the
    state in between only has to keep [R]. *)
Context (G : S -> Prop) (R : S -> S -> Prop) `{!PreOrder R}.

Fixpoint job_ok (s : S) (j : job S) : Prop :=
  match j with
  | Ended _ => True
  | Awaits step => forall s', R s s' -> G s' ->
      R s' (fst (step s')) /\ let (t, j') := step s' in job_ok t j'
  end.

Lemma job_ok_step s step : job_ok s (Awaits step) -> G s ->
  R s (fst (step s)) /\ job_ok (fst (step s)) (snd (step s)).
Proof. intros Hj Hs. specialize (Hj s ltac:(reflexivity) Hs). by destruct (step s). Qed.

Lemma job_ok_mono s s' j : R s s' -> job_ok s j -> job_ok s' j.
Proof.
  intros HR. destruct j as [r|step]; [done|]. intros Hj s1 H1 HG. apply Hj; [by etrans|done].
Qed.

Lemma await_ok {A} (m : eff S A) (k : A -> job S) s :
  (forall s', R s s' -> G s' ->
     R s' (fst (m s')) /\ forall a, snd (m s') = Ok a -> job_ok (fst (m s')) (k a)) ->
  job_ok s (await m k).
Proof.
  intros Hm s' HR HG. destruct (Hm s' HR HG) as [Hr Hk].
  destruct (m s') as [t [a|e]]; cbn in *; [|done]. split; [done|by apply Hk].
Qed.

Lemma await_each_ok {A} (f : A -> eff S unit) xs k s :
  (forall x s', x ∈ xs -> R s s' -> G s' -> R s' (fst (f x s'))) -> job_ok s k ->
  job_ok s (await_each f xs k).
Proof.
  intros Hf Hk. enough (forall s', R s s' -> job_ok s' (await_each f xs k)) as Hall
    by (apply Hall; reflexivity).
  induction xs as [|x xs IH]; intros s' Hs'; cbn [await_each]; [by eapply job_ok_mono|].
  apply await_ok. intros s1 H1 HG. pose proof (Hf x s1 ltac:(set_solver) ltac:(by etrans) HG) as Hr.
  split; [done|]. intros [] _. apply IH; [intros; apply Hf; [set_solver|done..]|].
  etrans; [exact Hs'|]. by etrans.
Qed.

Context (G_kept : forall s s', R s s' -> G s -> G s') (turn : nat -> nat).

(** Whatever turns they take, the three keep [R], and so does what is left of them. *)
Lemma promise_all_ok j1 j2 j3 k s :
  G s -> job_ok s j1 -> job_ok s j2 -> job_ok s j3 ->
  let '(s', (left_over, _)) := promise_all turn j1 j2 j3 k s in
  R s s' /\ Forall (job_ok s') left_over.
Proof.
  revert j2 j3 k s. induction j1 as [j1 IH1] using job_induction; intros j2;
    induction j2 as [j2 IH2] using job_induction; intros j3;
    induction j3 as [j3 IH3] using job_induction; intros k s HG H1 H2 H3.
  assert (forall step j', job_ok s (Awaits step) -> snd (step s) = j' ->
    R s (fst (step s)) /\ G (fst (step s)) /\ job_ok (fst (step s)) j') as Hstep.
  { intros step j' Hj <-. destruct (job_ok_step _ _ Hj HG) as [Hr Hj']. split_and!; [done|by eapply G_kept|done]. }
  destruct (promise_all_turn turn j1 j2 j3 k s) as
    [[e ->]|[[_ ->]|[(step & -> & ->)|[(step & -> & ->)|(step & -> & ->)]]]].
  - split; [reflexivity|]. apply Forall_forall. intros j [_ Hj]%list_elem_of_filter. set_solver.
  - by split.
  - destruct (Hstep step _ H1 eq_refl) as (Hr & HG' & Hj').
    specialize (IH1 step s eq_refl j2 j3 (Datatypes.S k) _ HG' Hj'
      (job_ok_mono _ _ _ Hr H2) (job_ok_mono _ _ _ Hr H3)).
    destruct (promise_all _ _ _ _ _ _) as [s' [left_over r]]. split; [by etrans; [|apply IH1]|apply IH1].
  - destruct (Hstep step _ H2 eq_refl) as (Hr & HG' & Hj').
    specialize (IH2 step s eq_refl j3 (Datatypes.S k) _ HG'
      (job_ok_mono _ _ _ Hr H1) Hj' (job_ok_mono _ _ _ Hr H3)).
    destruct (promise_all _ _ _ _ _ _) as [s' [left_over r]]. split; [by etrans; [|apply IH2]|apply IH2].
  - destruct (Hstep step _ H3 eq_refl) as (Hr & HG' & Hj').
    specialize (IH3 step s eq_refl (Datatypes.S k) _ HG'
      (job_ok_mono _ _ _ Hr H1) (job_ok_mono _ _ _ Hr H2) Hj').
    destruct (promise_all _ _ _ _ _ _) as [s' [left_over r]]. split; [by etrans; [|apply IH3]|apply IH3].
Qed.

(** *** Where a job ends *)

Context (Q : S -> Prop).

(** If the job is not rejected, [Q] holds when it ends, whatever moves the state between its steps. *)
Fixpoint ends_in (s : S) (j : job S) : Prop :=
  match j with
  | Ended (Ok _) => Q s
  | Ended (Throw _) => True
  | Awaits step => forall s', R s s' -> G s' -> let (t, j') := step s' in ends_in t j'
  end.

Context (Q_kept : forall s s', R s s' -> G s -> Q s -> Q s').

Lemma ends_in_mono s s' j : R s s' -> G s -> ends_in s j -> ends_in s' j.
Proof.
  intros HR HG. destruct j as [[[]|e]|step]; [by eapply Q_kept|done|].
  intros Hj s1 H1 HG1. apply Hj; [by etrans|done].
Qed.

Lemma ends_in_already s j : G s -> Q s -> job_ok s j -> ends_in s j.
Proof.
  revert s. induction j as [j IH] using job_induction. intros s HG HQ Hj.
  destruct j as [[[]|e]|step]; [done|done|]. intros s' HR HG'.
  specialize (Hj s' HR HG'). specialize (IH step s' eq_refl).
  destruct (step s') as [t j']. destruct Hj as [Ht Hj']. apply IH; [by eapply G_kept| |done].
  eapply Q_kept; [exact Ht|done|]. by eapply Q_kept.
Qed.

Lemma await_ends {A} (m : eff S A) (k : A -> job S) s :
  (forall s' a, R s s' -> G s' -> snd (m s') = Ok a -> ends_in (fst (m s')) (k a)) ->
  ends_in s (await m k).
Proof.
  intros Hm s' HR HG. specialize (Hm s'). destruct (m s') as [t [a|e]]; [by apply Hm|done].
Qed.

(** A loop before what brings [Q] about. *)
Lemma await_each_then {A} (f : A -> eff S unit) xs k s :
  G s -> (forall y s', y ∈ xs -> R s s' -> G s' -> R s' (fst (f y s'))) ->
  (forall s', R s s' -> G s' -> ends_in s' k) -> ends_in s (await_each f xs k).
Proof.
  intros HG Hf Hk. enough (forall s', R s s' -> G s' -> ends_in s' (await_each f xs k)) as Hall
    by (by apply Hall).
  induction xs as [|y xs IH]; intros s' HR HG'; cbn [await_each]; [by apply Hk|].
  apply await_ends. intros s1 [] H1 HG1 _.
  assert (R s s1) as Hs1 by (by etrans).
  pose proof (Hf y s1 ltac:(set_solver) Hs1 HG1) as Hy.
  apply IH; [intros; apply Hf; [set_solver|done..]|by etrans|by eapply G_kept].
Qed.

(** A loop one of whose items brings [Q] about. *)
Lemma await_each_ends {A} (f : A -> eff S unit) xs x k s :
  x ∈ xs -> G s ->
  (forall y s', y ∈ xs -> R s s' -> G s' -> R s' (fst (f y s'))) ->
  (forall s', R s s' -> G s' -> snd (f x s') = Ok () -> Q (fst (f x s'))) ->
  job_ok s k -> ends_in s (await_each f xs k).
Proof.
  intros Hx HG Hf HQ Hk.
  enough (forall s', R s s' -> G s' -> ends_in s' (await_each f xs k)) as Hall
    by (by apply Hall).
  induction xs as [|y xs IH]; [set_solver|]. intros s' HR HG'. cbn [await_each].
  apply await_ends. intros s1 [] H1 HG1 Hok.
  assert (R s s1) as Hs1 by (by etrans).
  pose proof (Hf y s1 ltac:(set_solver) Hs1 HG1) as Hy.
  assert (R s (fst (f y s1))) as Hs2 by (by etrans).
  assert (G (fst (f y s1))) as HG2 by (by eapply G_kept).
  apply elem_of_cons in Hx as [->|Hx].
  - apply ends_in_already; [done|by apply HQ|]. eapply job_ok_mono; [exact Hs2|].
    apply await_each_ok; [intros; apply Hf; [set_solver|done..]|done].
  - apply IH; [done|intros; apply Hf; [set_solver|done..]|done|done].
Qed.

Lemma promise_all_ends j1 j2 j3 k s s' running :
  G s -> job_ok s j1 -> job_ok s j2 -> job_ok s j3 -> ends_in s j1 ->
  promise_all turn j1 j2 j3 k s = (s', (running, Ok ())) -> Q s'.
Proof.
  revert j2 j3 k s. induction j1 as [j1 IH1] using job_induction; intros j2;
    induction j2 as [j2 IH2] using job_induction; intros j3;
    induction j3 as [j3 IH3] using job_induction; intros k s HG H1 H2 H3 HE.
  destruct (promise_all_turn turn j1 j2 j3 k s) as
    [[e ->]|[[Hend ->]|[(step & -> & ->)|[(step & -> & ->)|(step & -> & ->)]]]].
  - done.
  - intros [= <-]. apply Forall_cons in Hend as [<- _]. exact HE.
  - destruct (job_ok_step _ _ H1 HG) as [Hr Hj']. pose proof (HE s ltac:(reflexivity) HG) as HE'.
    apply (IH1 step s eq_refl); [by eapply G_kept|done|by eapply job_ok_mono..|].
    by destruct (step s).
  - destruct (job_ok_step _ _ H2 HG) as [Hr Hj'].
    apply (IH2 step s eq_refl); [by eapply G_kept|by eapply job_ok_mono|done|by eapply job_ok_mono|].
    by eapply ends_in_mono.
  - destruct (job_ok_step _ _ H3 HG) as [Hr Hj'].
    apply (IH3 step s eq_refl); [by eapply G_kept|by eapply job_ok_mono..|done|].
    by eapply ends_in_mono.
Qed.

End jobs.

(** ** Facts on sums *)

Lemma foldl_add_acc {A} (f : A -> Z) xs a :
  foldl (fun acc x => acc + f x) a xs = a + sum_by f xs.
Proof.
  unfold sum_by. revert a; induction xs as [|x xs IH]; intros a; simpl; [lia|].
  rewrite IH, (IH (0 + f x)). lia.
Qed.

Lemma sum_by_nil {A} (f : A -> Z) : sum_by f [] = 0.
Proof. done. Qed.

Lemma sum_by_cons {A} (f : A -> Z) x xs : sum_by f (x :: xs) = f x + sum_by f xs.
Proof. unfold sum_by at 1; simpl. by rewrite foldl_add_acc. Qed.

Lemma sum_by_app {A} (f : A -> Z) xs ys : sum_by f (xs ++ ys) = sum_by f xs + sum_by f ys.
Proof.
  induction xs as [|x xs IH]; [done|].
  rewrite <- app_comm_cons, !sum_by_cons, IH. lia.
Qed.

Lemma sum_by_perm {A} (f : A -> Z) xs ys : xs ≡ₚ ys -> sum_by f xs = sum_by f ys.
Proof. induction 1; rewrite ?sum_by_cons; lia. Qed.

Lemma sum_by_ext {A} (f g : A -> Z) xs :
  (forall x, x ∈ xs -> f x = g x) -> sum_by f xs = sum_by g xs.
Proof.
  induction xs as [|x xs IH]; intros H; [done|].
  rewrite !sum_by_cons, IH, H; set_solver.
Qed.

Lemma sum_by_le {A} (f g : A -> Z) xs :
  (forall x, x ∈ xs -> f x <= g x) -> sum_by f xs <= sum_by g xs.
Proof.
  induction xs as [|x xs IH]; intros H; [done|]. rewrite !sum_by_cons.
  pose proof (H x ltac:(set_solver)).
  assert (sum_by f xs <= sum_by g xs) by (apply IH; set_solver). lia.
Qed.

Lemma sum_by_sublist {A} (f : A -> Z) xs ys :
  Forall (fun x => 0 <= f x) xs -> ys `sublist_of` xs -> sum_by f ys <= sum_by f xs.
Proof.
  intros Hf. induction 1 as [|x xs ys _ IH|x xs ys _ IH]; [done|..];
    apply Forall_cons in Hf as [Hx Hf]; specialize (IH Hf); rewrite ?sum_by_cons; lia.
Qed.

Lemma sum_by_nonneg {A} (f : A -> Z) xs : Forall (fun x => 0 <= f x) xs -> 0 <= sum_by f xs.
Proof. induction 1; rewrite ?sum_by_nil, ?sum_by_cons; lia. Qed.

Lemma sum_by_elem_le {A} (f : A -> Z) xs x :
  Forall (fun x => 0 <= f x) xs -> x ∈ xs -> f x <= sum_by f xs.
Proof.
  induction 1 as [|y ys Hy Hys IH]; [set_solver|]. rewrite sum_by_cons.
  intros [->|Hx]%elem_of_cons; [|specialize (IH Hx); lia].
  pose proof (sum_by_nonneg f ys Hys). lia.
Qed.

Lemma sum_by_add {A} (f g : A -> Z) xs :
  sum_by (fun x => f x + g x) xs = sum_by f xs + sum_by g xs.
Proof. induction xs as [|x xs IH]; [done|]. rewrite !sum_by_cons, IH. lia. Qed.

Lemma sum_by_mul {A} (f : A -> Z) k xs : sum_by (fun x => f x * k) xs = sum_by f xs * k.
Proof. induction xs as [|x xs IH]; [done|]. rewrite !sum_by_cons, IH. lia. Qed.

Lemma sum_by_fmap {A B} (g : A -> B) (f : B -> Z) xs :
  sum_by f (g <$> xs) = sum_by (fun x => f (g x)) xs.
Proof. induction xs as [|x xs IH]; [done|]. by rewrite fmap_cons, !sum_by_cons, IH. Qed.

(** ** Facts on the sort *)

Lemma js_insert_perm {A} (cmp : A -> A -> Z) x l : js_insert cmp x l ≡ₚ x :: l.
Proof.
  induction l as [|y l IH]; cbn; [done|].
  destruct (cmp x y <? 0); [done|]. rewrite IH. apply Permutation_swap.
Qed.

Lemma js_sort_perm {A} (cmp : A -> A -> Z) l : js_sort cmp l ≡ₚ l.
Proof.
  unfold js_sort.
  enough (forall acc, foldl (fun acc x => js_insert cmp x acc) acc l ≡ₚ acc ++ l) as H
    by apply (H []).
  induction l as [|x l IH]; intros acc; cbn; [by rewrite app_nil_r|].
  rewrite IH, js_insert_perm. apply Permutation_middle.
Qed.

(** A comparator whose test [cmp x y < 0] is a strict weak order. *)
Record weak_order_cmp {A} (cmp : A -> A -> Z) : Prop := {
  cmp_asym : forall x y, cmp x y < 0 -> ~ cmp y x < 0;
  cmp_ntrans : forall x y z, ~ cmp y x < 0 -> ~ cmp z y < 0 -> ~ cmp z x < 0
}.

Lemma js_insert_sorted {A} (cmp : A -> A -> Z) x l :
  weak_order_cmp cmp ->
  StronglySorted (fun a b => ~ cmp b a < 0) l ->
  StronglySorted (fun a b => ~ cmp b a < 0) (js_insert cmp x l).
Proof.
  intros Hc. induction 1 as [|y l Hl IH Hy]; cbn; [repeat constructor|].
  destruct (Z.ltb_spec (cmp x y) 0) as [Hlt|Hge].
  - constructor; [by constructor|]. constructor; [by apply Hc|].
    eapply Forall_impl; [exact Hy|]. intros z Hz.
    eapply (cmp_ntrans cmp Hc x y z); [by apply Hc|done].
  - constructor; [done|]. rewrite js_insert_perm. constructor; [lia|done].
Qed.

Lemma js_sort_sorted {A} (cmp : A -> A -> Z) l :
  weak_order_cmp cmp -> StronglySorted (fun a b => ~ cmp b a < 0) (js_sort cmp l).
Proof.
  intros Hc. unfold js_sort.
  enough (forall acc, StronglySorted (fun a b => ~ cmp b a < 0) acc ->
    StronglySorted (fun a b => ~ cmp b a < 0) (foldl (fun acc x => js_insert cmp x acc) acc l))
    as H by (apply H; constructor).
  induction l as [|x l IH]; intros acc Hacc; cbn; [done|].
  apply IH. by apply js_insert_sorted.
Qed.
