(* ===== verification/JsMap.v ===== *)
(** JavaScript [Map] objects and plain objects used as maps, whose iteration order is
    the insertion order: association lists with one binding per key. *)
From stdpp Require Import base tactics gmap list strings.
From S2P Require Import Prelude.

(** ** Operations *)

Section operations.
Context {K : Type} `{EqDecision K} {V : Type}.
Implicit Types m : list (K * V).

(** [m.get(k)] / [o[k]]. *)
Fixpoint map_get (k : K) m : option V :=
  match m with
  | [] => None
  | (k', v) :: m' => if decide (k' = k) then Some v else map_get k m'
  end.

(** [m.set(k, v)] / [o[k] = v]: an existing key keeps its place, a new one goes last. *)
Fixpoint map_set (k : K) (v : V) m : list (K * V) :=
  match m with
  | [] => [(k, v)]
  | (k', v') :: m' => if decide (k' = k) then (k', v) :: m' else (k', v') :: map_set k v m'
  end.

(** [m.delete(k)]. *)
Fixpoint map_delete (k : K) m : list (K * V) :=
  match m with
  | [] => []
  | (k', v') :: m' => if decide (k' = k) then m' else (k', v') :: map_delete k m'
  end.

Definition map_has (k : K) m : bool :=
  match map_get k m with Some _ => true | None => false end.

(** [Array.from(m.keys())] / [Object.keys(o)]. *)
Definition map_keys m : list K := m.*1.

(** [Array.from(m.values())] / [Object.values(o)]. *)
Definition map_values m : list V := m.*2.

(** One binding per key: what every [Map] satisfies. *)
Definition map_wf m : Prop := NoDup (map_keys m).

End operations.

(** [new Set(xs)] as the list of its elements in insertion order. *)
Section set.
Context {K : Type} `{EqDecision K}.

Definition set_add (x : K) (xs : list K) : list K :=
  if decide (x ∈ xs) then xs else xs ++ [x].

Definition set_of (xs : list K) : list K := foldl (fun acc x => set_add x acc) [] xs.

End set.

(** ** Facts *)

Section facts.
Context {K : Type} `{EqDecision K} {V : Type}.
Implicit Types (m : list (K * V)) (k : K) (v : V).

Lemma map_get_set_eq k v m : map_get k (map_set k v m) = Some v.
Proof.
  induction m as [|[k' v'] m IH]; cbn; [by rewrite decide_True|].
  by case_decide; cbn; [rewrite decide_True|rewrite decide_False].
Qed.

Lemma map_get_set_ne k k' v m : k <> k' -> map_get k' (map_set k v m) = map_get k' m.
Proof.
  intros Hne. induction m as [|[k1 v1] m IH]; cbn; [by rewrite decide_False|].
  case_decide; subst; cbn; [by rewrite !decide_False by congruence|by rewrite IH].
Qed.

Lemma map_get_set k k' v m :
  map_get k' (map_set k v m) = if decide (k = k') then Some v else map_get k' m.
Proof. case_decide; subst; [apply map_get_set_eq|by apply map_get_set_ne]. Qed.

Lemma map_get_elem k v m : map_get k m = Some v -> (k, v) ∈ m.
Proof.
  induction m as [|[k' v'] m IH]; cbn; [done|].
  case_decide; [intros [= ->]; subst; set_solver|set_solver].
Qed.

Lemma map_get_None k m : map_get k m = None <-> k ∉ map_keys m.
Proof.
  unfold map_keys. induction m as [|[k' v'] m IH]; cbn; [set_solver|].
  case_decide; set_solver.
Qed.

Lemma map_elem_get k v m : map_wf m -> (k, v) ∈ m -> map_get k m = Some v.
Proof.
  unfold map_wf, map_keys. induction m as [|[k' v'] m IH]; cbn; [set_solver|].
  intros [Hk' Hm]%NoDup_cons [[= -> ->]|Hin]%elem_of_cons; [by rewrite decide_True|].
  rewrite decide_False; [by apply IH|]. intros ->. apply Hk'.
  apply list_elem_of_fmap. by exists (k, v).
Qed.

Lemma map_has_true k m : map_has k m = true <-> k ∈ map_keys m.
Proof.
  unfold map_has. destruct (map_get k m) eqn:E.
  - apply map_get_elem in E. split; [|done]. intros _.
    apply list_elem_of_fmap. by exists (k, v).
  - apply map_get_None in E. naive_solver.
Qed.

Lemma map_keys_set k v m :
  map_keys (map_set k v m) = if decide (k ∈ map_keys m) then map_keys m else map_keys m ++ [k].
Proof.
  unfold map_keys. induction m as [|[k' v'] m IH]; cbn; [by rewrite decide_False by set_solver|].
  destruct (decide (k' = k)) as [->|Hne]; cbn; [by rewrite decide_True by set_solver|].
  rewrite IH. destruct (decide (k ∈ m.*1)).
  - by rewrite decide_True by set_solver.
  - by rewrite decide_False by set_solver.
Qed.

Lemma map_wf_nil : map_wf (V:=V) ([] : list (K * V)).
Proof. constructor. Qed.

Lemma map_wf_set k v m : map_wf m -> map_wf (map_set k v m).
Proof.
  unfold map_wf. rewrite map_keys_set. intros Hm. case_decide; [done|].
  apply NoDup_app. split_and!; [done|set_solver|apply NoDup_singleton].
Qed.

Lemma map_keys_delete_sub k m : map_keys (map_delete k m) ⊆ map_keys m.
Proof.
  unfold map_keys. induction m as [|[k' v'] m IH]; cbn; [done|].
  case_decide; set_solver.
Qed.

Lemma map_wf_delete k m : map_wf m -> map_wf (map_delete k m).
Proof.
  unfold map_wf. induction m as [|[k' v'] m IH]; cbn; [done|].
  intros [Hk' Hm]%NoDup_cons. case_decide; [done|]. cbn. apply NoDup_cons.
  split; [|by apply IH]. pose proof (map_keys_delete_sub k m). set_solver.
Qed.

Lemma map_get_delete_eq k m : map_wf m -> map_get k (map_delete k m) = None.
Proof.
  unfold map_wf. induction m as [|[k' v'] m IH]; cbn; [done|].
  intros [Hk' Hm]%NoDup_cons. case_decide as Heq.
  - subst. by apply map_get_None.
  - cbn. rewrite decide_False by done. by apply IH.
Qed.

Lemma map_get_delete_ne k k' m : k <> k' -> map_get k' (map_delete k m) = map_get k' m.
Proof.
  intros Hne. induction m as [|[k1 v1] m IH]; cbn; [done|].
  case_decide; cbn; [subst; by rewrite decide_False by congruence|by rewrite IH].
Qed.

Lemma map_set_new k v m : map_get k m = None -> map_set k v m = m ++ [(k, v)].
Proof.
  induction m as [|[k' v'] m IH]; cbn; [done|]. case_decide; [done|].
  intros Hk. by rewrite IH.
Qed.

(** The bindings after a [set], as a split of the list around the key. *)
Lemma map_set_split k v v0 m :
  map_get k m = Some v0 ->
  exists m1 m2, m = m1 ++ (k, v0) :: m2 /\ k ∉ map_keys m1 /\
    map_set k v m = m1 ++ (k, v) :: m2.
Proof.
  induction m as [|[k' v'] m IH]; cbn; [done|].
  destruct (decide (k' = k)) as [->|Hne].
  - intros [= ->]. exists [], m. repeat split. set_solver.
  - intros H. destruct (IH H) as (m1 & m2 & -> & Hk & ->).
    exists ((k', v') :: m1), m2. repeat split. cbn. set_solver.
Qed.

Lemma elem_of_map_values v m : v ∈ map_values m <-> exists k, (k, v) ∈ m.
Proof.
  unfold map_values. rewrite list_elem_of_fmap. split.
  - intros ([k ?] & -> & ?). eauto.
  - intros [k ?]. by exists (k, v).
Qed.

Lemma elem_of_map_values_get v m :
  map_wf m -> v ∈ map_values m <-> exists k, map_get k m = Some v.
Proof.
  intros Hm. rewrite elem_of_map_values. split; intros [k ?]; exists k.
  - by apply map_elem_get.
  - by apply map_get_elem.
Qed.

End facts.

Section set_facts.
Context {K : Type} `{EqDecision K}.

Lemma elem_of_set_add (x y : K) xs : y ∈ set_add x xs <-> y = x \/ y ∈ xs.
Proof. unfold set_add. case_decide; set_solver. Qed.

Lemma NoDup_set_add (x : K) xs : NoDup xs -> NoDup (set_add x xs).
Proof.
  intros H. unfold set_add. case_decide; [done|]. apply NoDup_app.
  split_and!; [done|set_solver|apply NoDup_singleton].
Qed.

Lemma set_of_facts (xs : list K) :
  NoDup (set_of xs) /\ forall y, y ∈ set_of xs <-> y ∈ xs.
Proof.
  unfold set_of.
  enough (forall acc, NoDup acc ->
    NoDup (foldl (fun acc x => set_add x acc) acc xs) /\
    forall y, y ∈ foldl (fun acc x => set_add x acc) acc xs <-> y ∈ acc \/ y ∈ xs) as H.
  { destruct (H [] NoDup_nil_2) as [H1 H2]. split; [done|].
    intros y. rewrite H2. set_solver. }
  induction xs as [|x xs IH]; intros acc Hacc; cbn.
  - split; [done|]. set_solver.
  - destruct (IH _ (NoDup_set_add x acc Hacc)) as [H1 H2]. split; [done|].
    intros y. rewrite H2, elem_of_set_add. set_solver.
Qed.

Lemma NoDup_set_of (xs : list K) : NoDup (set_of xs).
Proof. apply set_of_facts. Qed.

Lemma elem_of_set_of (xs : list K) y : y ∈ set_of xs <-> y ∈ xs.
Proof. apply set_of_facts. Qed.

End set_facts.

Create HintDb jsmap.
#[export] Hint Resolve map_wf_nil map_wf_set map_wf_delete NoDup_set_of : jsmap.
