(* ===== verification/Addresses.v ===== *)
(** Address formats of utils/src/addresses.ts that the modelled code tests: the regular
    expressions, as character classes and lengths. *)
From stdpp Require Import base tactics list strings.
From Stdlib Require Import String Ascii Lia.
From S2P Require Import Prelude.

Definition ascii_between (lo hi c : ascii) : bool :=
  (nat_of_ascii lo <=? nat_of_ascii c)%nat && (nat_of_ascii c <=? nat_of_ascii hi)%nat.

Definition is_digit (c : ascii) : bool := ascii_between "0" "9" c.

(** [[a-fA-F0-9]]. *)
Definition is_hex_digit (c : ascii) : bool :=
  is_digit c || ascii_between "a" "f" c || ascii_between "A" "F" c.

(** [[1-9A-HJ-NP-Za-km-z]]. *)
Definition is_base58_digit (c : ascii) : bool :=
  ascii_between "1" "9" c || ascii_between "A" "H" c || ascii_between "J" "N" c ||
  ascii_between "P" "Z" c || ascii_between "a" "k" c || ascii_between "m" "z" c.

Fixpoint string_all (p : ascii -> bool) (s : string) : bool :=
  match s with
  | EmptyString => true
  | String c s' => p c && string_all p s'
  end.

(** [/^0x[a-fA-F0-9]{40}$/]. *)
Definition isAddressEvm (address : string) : bool :=
  match address with
  | String "0" (String "x" digits) => string_all is_hex_digit digits && (String.length digits =? 40)%nat
  | _ => false
  end.

(** [/^[1-9A-HJ-NP-Za-km-z]{32,44}$/], as config/types.ts writes it. *)
Definition is_solana_base58 (address : string) : bool :=
  string_all is_base58_digit address &&
  (32 <=? String.length address)%nat && (String.length address <=? 44)%nat.

(** ** Zero addresses *)

(** [/^0*$/], [/^(0x)?0*$/]. *)
Definition all_zeros (address : string) : bool := string_all (Ascii.eqb "0") address.
Definition optional_0x_zeros (address : string) : bool :=
  match address with
  | String "0" (String "x" digits) => all_zeros digits
  | _ => all_zeros address
  end.

(** [/^1+$/]. *)
Definition some_ones (address : string) : bool :=
  (0 <? String.length address)%nat && string_all (Ascii.eqb "1") address.

(** [/^[a-z]{1,10}?1[0]+$/]: what follows at most [n] lowercase letters. *)
Fixpoint cosmos_zeros (n : nat) (address : string) : bool :=
  match address with
  | String "1" zeros => (0 <? String.length zeros)%nat && all_zeros zeros
  | String c rest =>
      match n with
      | S n' => ascii_between "a" "z" c && cosmos_zeros n' rest
      | O => false
      end
  | EmptyString => false
  end.
Definition isZeroishCosmos (address : string) : bool :=
  match address with
  | String c rest => ascii_between "a" "z" c && cosmos_zeros 9 rest
  | EmptyString => false
  end.

Definition ALEO_ZERO : string := "aleo1qqqqqqqqqqqqqqqqqqqqqqqqqqqqqqqqqqqqqqqqqqqqqqqqqqqq3ljyzc".
Definition TRON_ZERO : string := "T9yD14Nj9j7xAB4dbGeiX9h8unkKHxuWwb".

(** [[a-z0-9_]]. *)
Definition is_program_char (c : ascii) : bool :=
  ascii_between "a" "z" c || is_digit c || Ascii.eqb "_" c.

(** [/^(?:[a-z0-9_]+\.aleo\/)?aleo1q..$/]. *)
Definition isZeroishAleo (address : string) : bool :=
  let tail := String.append ".aleo/" ALEO_ZERO in
  let n := (String.length address - String.length tail)%nat in
  String.eqb address ALEO_ZERO ||
  (0 <? n)%nat && string_all is_program_char (String.substring 0 n address) &&
  String.eqb (String.substring n (String.length tail) address) tail.

Definition isZeroishAddress (address : string) : bool :=
  optional_0x_zeros address || some_ones address || isZeroishCosmos address ||
  isZeroishAleo address || String.eqb address TRON_ZERO.
