(* ===== verification/Amount.v ===== *)
(** Amounts and scales: the conversions of utils/src/amount.ts that the rebalancer uses
    and the whole of sdk/src/utils/decimals.ts. The arithmetic libraries the source
    calls (bignumber.js and the unit parser of ethers) are the class [BigNumberJs]. *)
From stdpp Require Import base tactics list gmap strings pretty.
From Stdlib Require Import ZArith QArith Qround Lia String Ascii.
From S2P Require Import Prelude JsMap.

#[local] Open Scope Z_scope.

(** ** Numeric values of configuration files *)

(** [string | number]; a number is the decimal it prints as. *)
Inductive Numberish : Type :=
| NStr (s : string)
| NNum (q : Q).

(** bignumber.js and [parseUnits] of ethers. *)
Class BigNumberJs : Type := {
  (** the exact value of [BigNumber(v)], [None] for NaN *)
  bn_value : Numberish -> option Q;
  (** [BigNumber(v).toString(10)] *)
  bn_to_string : Numberish -> string;
  (** [parseUnits(s, decimals)] *)
  parse_units : string -> Z -> result Z
}.

(** [BigNumber(a).lt(b)]: comparisons with NaN are false. *)
Definition bn_lt (a b : option Q) : bool :=
  match a, b with
  | Some x, Some y => negb (Qle_bool y x)
  | _, _ => false
  end.

(** [!value]. *)
Definition falsy (v : Numberish) : bool :=
  match v with
  | NStr s => bool_decide (s = EmptyString)
  | NNum q => Qeq_bool q 0%Q
  end.

(** ** String helpers of the language *)

Definition is_space (c : ascii) : bool :=
  let n := nat_of_ascii c in
  (n =? 32)%nat || ((9 <=? n)%nat && (n <=? 13)%nat).

Fixpoint trim_start (s : string) : string :=
  match s with
  | String c s' => if is_space c then trim_start s' else s
  | EmptyString => EmptyString
  end.

Fixpoint trim_end (s : string) : string :=
  match s with
  | EmptyString => EmptyString
  | String c s' =>
      match trim_end s' with
      | EmptyString => if is_space c then EmptyString else String c EmptyString
      | s'' => String c s''
      end
  end.

Definition js_trim (s : string) : string := trim_end (trim_start s).

(** [s.split(c)] for a one-character separator. *)
Fixpoint js_split (c : ascii) (s : string) : list string :=
  match s with
  | EmptyString => [EmptyString]
  | String c' s' =>
      if Ascii.eqb c' c then EmptyString :: js_split c s'
      else match js_split c s' with
           | [] => [String c' EmptyString]
           | w :: ws => String c' w :: ws
           end
  end.

(** ** utils/src/amount.ts *)

Definition DEFAULT_TOKEN_DECIMALS : Z := 18.

Section amount.
Context `{BigNumberJs}.

Definition toWei (value : Numberish) (decimals : option Z) : result Z :=
  let decimals := default DEFAULT_TOKEN_DECIMALS decimals in
  if falsy value then Ok 0
  else
    let valueString := js_trim (bn_to_string value) in
    match js_split "."%char valueString with
    | [_] => parse_units valueString decimals
    | [whole; fraction] =>
        let trimmedFraction := substring 0 (Z.to_nat decimals) fraction in
        parse_units (whole +:+ "." +:+ trimmedFraction) decimals
    | _ => Throw (Error ("Cannot convert " +:+ valueString +:+ " to wei"))
    end.

End amount.

Definition DEFAULT_GAS_LIMIT_BUFFER_PERCENT : Z := 10.

(** [BigNumber] of ethers divides rounding towards zero. *)
Definition addBufferToGasLimit (estimatedGas : Z) : Z :=
  Z.quot (estimatedGas * (100 + DEFAULT_GAS_LIMIT_BUFFER_PERCENT)) 100.

(** ** sdk/src/utils/decimals.ts *)

Record NormalizedScale : Type := { numerator : Z; denominator : Z }.

(** The scale variants the token schema produces (numbers are integers there). *)
Inductive ScaleInput : Type :=
| ScaleNumber (n : Z)
| ScaleNumbers (n d : Z)
| ScaleBigints (n d : Z).

Definition DEFAULT_SCALE : NormalizedScale := {| numerator := 1; denominator := 1 |}.

Record ScaleAlignment : Type := { localAmount : Z; messageAmount : Z }.

Definition normalizeScale (scale : option ScaleInput) : NormalizedScale :=
  match scale with
  | None => DEFAULT_SCALE
  | Some (ScaleNumber n) => {| numerator := n; denominator := 1 |}
  | Some (ScaleNumbers n d) => {| numerator := n; denominator := d |}
  | Some (ScaleBigints n d) => {| numerator := n; denominator := d |}
  end.

Definition assertValidScale (scale : NormalizedScale) : result unit :=
  js_assert ((0 <? numerator scale) && (0 <? denominator scale))
    ("Scale must be positive, got " +:+ pretty (numerator scale)
      +:+ "/" +:+ pretty (denominator scale)).

Definition ceilDiv (num den : Z) : result Z :=
  _ ← js_assert (0 <? den) "Denominator must be positive";
  _ ← js_assert (0 <=? num) "Numerator must be non-negative";
  if num =? 0 then Ok 0 else Ok (Z.quot (num + den - 1) den).

Definition messageAmountFromLocal (local : Z) (scale : option ScaleInput) : result Z :=
  _ ← js_assert (0 <=? local) "Local amount must be non-negative";
  let normalized := normalizeScale scale in
  _ ← assertValidScale normalized;
  Ok (Z.quot (local * numerator normalized) (denominator normalized)).

Definition localAmountFromMessage (message : Z) (scale : option ScaleInput) : result Z :=
  _ ← js_assert (0 <=? message) "Message amount must be non-negative";
  let normalized := normalizeScale scale in
  _ ← assertValidScale normalized;
  Ok (Z.quot (message * denominator normalized) (numerator normalized)).

Definition minLocalAmountForMessage (message : Z) (scale : option ScaleInput) : result Z :=
  _ ← js_assert (0 <=? message) "Message amount must be non-negative";
  let normalized := normalizeScale scale in
  _ ← assertValidScale normalized;
  ceilDiv (message * denominator normalized) (numerator normalized).

Definition alignLocalAmountToMessage (local : Z) (scale : option ScaleInput)
    : result ScaleAlignment :=
  _ ← js_assert (0 <=? local) "Local amount must be non-negative";
  message ← messageAmountFromLocal local scale;
  if message =? 0 then Ok {| localAmount := 0; messageAmount := 0 |}
  else
    aligned ← minLocalAmountForMessage message scale;
    Ok {| localAmount := aligned; messageAmount := message |}.

Definition scalesEqual (a b : option ScaleInput) : bool :=
  let na := normalizeScale a in
  let nb := normalizeScale b in
  numerator na * denominator nb =? numerator nb * denominator na.

(** The two fields of a token's metadata that [verifyScale] reads. *)
Record ScaledToken : Type := { st_decimals : option Z; st_scale : option ScaleInput }.

(** [10n ** BigInt(decimals)]. *)
Definition pow10 (decimals : Z) : result Z :=
  if decimals <? 0 then Throw (RangeError "Exponent must be non-negative")
  else Ok (10 ^ decimals).

Definition areDecimalsUniform (values : list (Z * option ScaleInput)) : bool :=
  match values with
  | [] => true
  | first :: rest => forallb (fun d => fst d =? fst first) rest
  end.

(** The loop over the entries after the reference one. *)
Fixpoint verifyScale_loop (refEffective refDenominator : Z)
    (entries : list (Z * option ScaleInput)) : result bool :=
  match entries with
  | [] => Ok true
  | (decimals, scale) :: rest =>
      let norm := normalizeScale scale in
      p ← pow10 decimals;
      let effective := numerator norm * p in
      if refEffective * denominator norm =? effective * refDenominator
      then verifyScale_loop refEffective refDenominator rest
      else Ok false
  end.

Definition verifyScale (configMap : list (string * ScaledToken)) : result bool :=
  entries ← mapM (fun '(chain, config) =>
    match st_decimals config with
    | Some d => Ok (d, st_scale config)
    | None => Throw (Error ("Decimals must be defined for token config on chain " +:+ chain))
    end) configMap;
  match entries with
  | [] | [_] => Ok true
  | (refDecimals, refScale) :: rest =>
      if areDecimalsUniform entries then
        Ok (forallb (fun e => scalesEqual refScale (snd e)) entries)
      else
        let refNorm := normalizeScale refScale in
        p ← pow10 refDecimals;
        verifyScale_loop (numerator refNorm * p) (denominator refNorm) rest
  end.

(** ** Facts *)

Definition valid_scale (scale : option ScaleInput) : Prop :=
  0 < numerator (normalizeScale scale) /\ 0 < denominator (normalizeScale scale).

#[export] Instance valid_scale_dec scale : Decision (valid_scale scale).
Proof. unfold valid_scale. apply _. Defined.

Lemma assertValidScale_ok scale :
  assertValidScale (normalizeScale scale) = Ok () <-> valid_scale scale.
Proof. unfold assertValidScale, valid_scale. rewrite js_assert_ok. lia. Qed.

Lemma messageAmountFromLocal_ok x scale y :
  messageAmountFromLocal x scale = Ok y <->
  0 <= x /\ valid_scale scale /\
  y = x * numerator (normalizeScale scale) / denominator (normalizeScale scale).
Proof.
  unfold messageAmountFromLocal. rewrite result_bind_ok. split.
  - intros ([] & H1%js_assert_ok & H2). apply result_bind_ok in H2 as ([] & H2 & H3).
    apply assertValidScale_ok in H2 as Hv. destruct Hv. injection H3 as <-.
    split_and!; [lia|done|]. rewrite Z.quot_div_nonneg by nia. done.
  - intros (Hx & Hv & ->). exists (). split; [apply js_assert_ok; lia|].
    apply result_bind_ok. exists (). split; [by apply assertValidScale_ok|].
    destruct Hv. rewrite Z.quot_div_nonneg by nia. done.
Qed.

Lemma minLocalAmountForMessage_ok x scale y :
  minLocalAmountForMessage x scale = Ok y <->
  0 <= x /\ valid_scale scale /\
  y = (x * denominator (normalizeScale scale) + numerator (normalizeScale scale) - 1)
        / numerator (normalizeScale scale).
Proof.
  assert (forall n d, 0 < n -> 0 < d -> 0 <= x ->
    ceilDiv (x * d) n = Ok ((x * d + n - 1) / n)) as Hceil.
  { intros n d Hn Hd Hx. unfold ceilDiv.
    rewrite js_assert_true by lia. rewrite js_assert_true by nia.
    destruct (Z.eqb_spec (x * d) 0) as [->|Hne].
    - rewrite Z.div_small by lia. done.
    - rewrite Z.quot_div_nonneg by nia. done. }
  unfold minLocalAmountForMessage. rewrite result_bind_ok. split.
  - intros ([] & H1%js_assert_ok & H2). apply result_bind_ok in H2 as ([] & H2 & H3).
    apply assertValidScale_ok in H2 as Hv. destruct Hv as [Hn Hd].
    rewrite Hceil in H3 by lia. injection H3 as <-. split_and!; [lia|done|done].
  - intros (Hx & Hv & ->). exists (). split; [apply js_assert_ok; lia|].
    apply result_bind_ok. exists (). split; [by apply assertValidScale_ok|].
    destruct Hv. by rewrite Hceil.
Qed.

(** The Galois connection between the two conversions, on plain quotients. *)
Lemma ceil_floor_galois l m n d :
  0 < n -> 0 < d -> (m * d + n - 1) / n <= l <-> m <= l * n / d.
Proof.
  intros Hn Hd. split; intros H.
  - apply Z.div_le_lower_bound; [lia|].
    pose proof (Z.div_mod (m * d + n - 1) n ltac:(lia)).
    pose proof (Z.mod_pos_bound (m * d + n - 1) n Hn). nia.
  - enough ((m * d + n - 1) / n < l + 1) by lia.
    apply Z.div_lt_upper_bound; [lia|].
    pose proof (Z.mul_div_le (l * n) d Hd). nia.
Qed.

Lemma minLocal_adjoint m scale lmin l y :
  minLocalAmountForMessage m scale = Ok lmin ->
  messageAmountFromLocal l scale = Ok y ->
  lmin <= l <-> m <= y.
Proof.
  intros (Hm & [Hn Hd] & ->)%minLocalAmountForMessage_ok (Hl & _ & ->)%messageAmountFromLocal_ok.
  by apply ceil_floor_galois.
Qed.

(** Sending the least local amount for [m] delivers at least [m]. *)
Lemma minLocal_delivers m scale lmin :
  minLocalAmountForMessage m scale = Ok lmin ->
  0 <= lmin /\ exists y, messageAmountFromLocal lmin scale = Ok y /\ m <= y.
Proof.
  intros H. pose proof H as (Hm & [Hn Hd] & Heq)%minLocalAmountForMessage_ok.
  assert (0 <= lmin) as Hl by (rewrite Heq; apply Z.div_pos; nia).
  split; [done|].
  exists (lmin * numerator (normalizeScale scale) / denominator (normalizeScale scale)).
  assert (messageAmountFromLocal lmin scale
    = Ok (lmin * numerator (normalizeScale scale) / denominator (normalizeScale scale))) as Hy
    by (apply messageAmountFromLocal_ok; done).
  split; [done|]. by apply (minLocal_adjoint m scale lmin lmin _ H Hy).
Qed.

(** Scaling up loses nothing beyond what the floor of the message amount loses. *)
Lemma messageAmountFromLocal_mono x y scale a b :
  messageAmountFromLocal x scale = Ok a -> messageAmountFromLocal y scale = Ok b ->
  x <= y -> a <= b.
Proof.
  intros (Hx & [Hn Hd] & ->)%messageAmountFromLocal_ok (Hy & _ & ->)%messageAmountFromLocal_ok.
  intros Hle. apply Z.div_le_mono; [lia|nia].
Qed.

Lemma minLocalAmountForMessage_total m scale :
  0 <= m -> valid_scale scale -> exists lmin, minLocalAmountForMessage m scale = Ok lmin.
Proof. intros Hm Hv. eexists. by apply minLocalAmountForMessage_ok. Qed.

Lemma alignLocalAmountToMessage_eq l scale y :
  messageAmountFromLocal l scale = Ok y ->
  alignLocalAmountToMessage l scale =
    if y =? 0 then Ok {| localAmount := 0; messageAmount := 0 |}
    else aligned ← minLocalAmountForMessage y scale;
         Ok {| localAmount := aligned; messageAmount := y |}.
Proof.
  intros Hy. pose proof Hy as (Hl & _ & _)%messageAmountFromLocal_ok.
  unfold alignLocalAmountToMessage. rewrite js_assert_true by lia. by rewrite Hy.
Qed.

(** For a valid scale and a non-negative message amount [minLocalAmountForMessage]
    returns, and what it returns is the least local amount that converts to at least the
    message amount asked for; every conversion outside these bounds throws. *)
Theorem minLocalAmountForMessage_least m scale :
  (0 <= m /\ valid_scale scale ->
   exists lmin, minLocalAmountForMessage m scale = Ok lmin /\ 0 <= lmin /\
     (forall l y, messageAmountFromLocal l scale = Ok y -> (lmin <= l <-> m <= y))) /\
  (~ (0 <= m /\ valid_scale scale) ->
   is_ok (minLocalAmountForMessage m scale) = false).
Proof.
  split.
  - intros [Hm Hv]. destruct (minLocalAmountForMessage_total m scale Hm Hv) as [lmin H].
    exists lmin. split_and!; [done|by eapply minLocal_delivers|].
    intros l y. by apply minLocal_adjoint.
  - intros Hn. destruct (minLocalAmountForMessage m scale) eqn:E; [|done].
    apply minLocalAmountForMessage_ok in E. tauto.
Qed.

(** [alignLocalAmountToMessage] succeeds on every non-negative amount and valid scale;
    the aligned amount never exceeds the given one, converts to exactly the reported
    message amount, is the least amount that does, and aligning twice changes nothing. *)
Theorem alignLocalAmountToMessage_spec l scale :
  0 <= l -> valid_scale scale ->
  exists al, alignLocalAmountToMessage l scale = Ok al /\
    0 <= localAmount al <= l /\
    messageAmountFromLocal l scale = Ok (messageAmount al) /\
    messageAmountFromLocal (localAmount al) scale = Ok (messageAmount al) /\
    (forall l', messageAmountFromLocal l' scale = Ok (messageAmount al) ->
       localAmount al <= l') /\
    alignLocalAmountToMessage (localAmount al) scale = Ok al.
Proof.
  intros Hl Hv.
  set (y := l * numerator (normalizeScale scale) / denominator (normalizeScale scale)).
  assert (messageAmountFromLocal l scale = Ok y) as Hy by (by apply messageAmountFromLocal_ok).
  rewrite (alignLocalAmountToMessage_eq _ _ _ Hy). destruct (Z.eqb_spec y 0) as [Hy0|Hy0].
  - eexists; split; [done|]. cbn [localAmount messageAmount].
    assert (messageAmountFromLocal 0 scale = Ok 0) as H0.
    { apply messageAmountFromLocal_ok. split_and!; [lia|done|].
      destruct Hv. by rewrite Z.mul_0_l, Z.div_0_l by lia. }
    split_and!; [lia|lia|congruence|done| |by rewrite (alignLocalAmountToMessage_eq _ _ _ H0)].
    by intros l' (? & _ & _)%messageAmountFromLocal_ok.
  - assert (0 <= y) as Hy1 by (destruct Hv; apply Z.div_pos; nia).
    destruct (minLocalAmountForMessage_total y scale Hy1 Hv) as [lm Hlm].
    destruct (minLocal_delivers _ _ _ Hlm) as (Hlm0 & y' & Hy' & Hyy').
    assert (lm <= l) as Hlml by (by apply (minLocal_adjoint y scale lm l y Hlm Hy)).
    assert (y' = y) as -> by (pose proof (messageAmountFromLocal_mono _ _ _ _ _ Hy' Hy); lia).
    rewrite Hlm. eexists; split; [done|]. cbn [localAmount messageAmount].
    split_and!; [done|done|done|done| |].
    + intros l' Hl'. by apply (minLocal_adjoint y scale lm l' y Hlm Hl').
    + rewrite (alignLocalAmountToMessage_eq _ _ _ Hy'), (proj2 (Z.eqb_neq _ _) Hy0).
      by rewrite Hlm.
Qed.

Lemma alignLocalAmountToMessage_spec_witness :
  exists al, alignLocalAmountToMessage 1234 (Some (ScaleNumbers 1 1000)) = Ok al /\
    0 <= localAmount al <= 1234 /\
    messageAmountFromLocal 1234 (Some (ScaleNumbers 1 1000)) = Ok (messageAmount al) /\
    messageAmountFromLocal (localAmount al) (Some (ScaleNumbers 1 1000)) = Ok (messageAmount al) /\
    (forall l', messageAmountFromLocal l' (Some (ScaleNumbers 1 1000)) = Ok (messageAmount al) ->
       localAmount al <= l') /\
    alignLocalAmountToMessage (localAmount al) (Some (ScaleNumbers 1 1000)) = Ok al.
Proof.
  apply (alignLocalAmountToMessage_spec 1234 (Some (ScaleNumbers 1 1000))).
  - lia.
  - vm_compute. split; reflexivity.
Defined.

(** Two tokens agree on the value of a message when their scales, taken per whole token,
    are the same ratio. *)
Definition scales_consistent (a b : Z * option ScaleInput) : Prop :=
  numerator (normalizeScale (snd a)) * 10 ^ fst a * denominator (normalizeScale (snd b)) =
  numerator (normalizeScale (snd b)) * 10 ^ fst b * denominator (normalizeScale (snd a)).

Lemma verifyScale_loop_true eff den entries :
  (forall e, e ∈ entries -> 0 <= fst e) ->
  verifyScale_loop eff den entries = Ok true <->
  Forall (fun e => eff * denominator (normalizeScale (snd e)) =
    numerator (normalizeScale (snd e)) * 10 ^ fst e * den) entries.
Proof.
  induction entries as [|[d sc] entries IH]; intros Hd; cbn; [split; [constructor|done]|].
  unfold pow10. destruct (Z.ltb_spec d 0) as [Hneg|_].
  { specialize (Hd (d, sc) ltac:(set_solver)). cbn in Hd. lia. }
  cbn. rewrite Forall_cons. cbn. specialize (IH ltac:(set_solver)).
  destruct (Z.eqb_spec (eff * denominator (normalizeScale sc))
    (numerator (normalizeScale sc) * 10 ^ d * den)); [rewrite IH; tauto|].
  split; [done|tauto].
Qed.

Definition entry_of (c : string * ScaledToken) : option (Z * option ScaleInput) :=
  d ← st_decimals (snd c); Some (d, st_scale (snd c)).

Lemma scales_consistent_uniform a b :
  0 <= fst a -> fst a = fst b -> scales_consistent a b <-> scalesEqual (snd a) (snd b) = true.
Proof.
  intros Ha Hab. unfold scales_consistent, scalesEqual. rewrite <- Hab, Z.eqb_eq.
  assert (0 < 10 ^ fst a) by (by apply Z.pow_pos_nonneg). nia.
Qed.

Lemma areDecimalsUniform_true e es :
  areDecimalsUniform (e :: es) = true <-> Forall (fun e' => fst e' = fst e) es.
Proof.
  cbn. rewrite forallb_forall, Forall_forall.
  split; intros H x Hx.
  - apply Z.eqb_eq, H. by apply list_elem_of_In.
  - apply Z.eqb_eq, H. by apply list_elem_of_In.
Qed.

Lemma verifyScale_entries configMap entries :
  Forall2 (fun c e => entry_of c = Some e) configMap entries ->
  verifyScale configMap =
    match entries with
    | [] | [_] => Ok true
    | (refDecimals, refScale) :: rest =>
        if areDecimalsUniform entries then
          Ok (forallb (fun e => scalesEqual refScale (snd e)) entries)
        else
          p ← pow10 refDecimals;
          verifyScale_loop (numerator (normalizeScale refScale) * p)
            (denominator (normalizeScale refScale)) rest
    end.
Proof.
  intros H. unfold verifyScale.
  assert (mapM (fun '(chain, config) =>
    match st_decimals config with
    | Some d => Ok (d, st_scale config)
    | None => Throw (Error ("Decimals must be defined for token config on chain " +:+ chain))
    end) configMap = Ok entries) as ->; [|done].
  apply mapM_result_ok_inv. eapply Forall2_impl; [exact H|].
  intros [chain [[d|] sc]] e; unfold entry_of; cbn; congruence.
Qed.

(** [verifyScale] accepts a route's token map exactly when every chain is consistent
    with the first one: one whole token has the same message value on both. *)
Theorem verifyScale_sound_complete configMap ref entries :
  Forall2 (fun c e => entry_of c = Some e) configMap (ref :: entries) ->
  Forall (fun e => 0 <= fst e) (ref :: entries) ->
  verifyScale configMap = Ok true <-> Forall (fun e => scales_consistent ref e) entries.
Proof.
  intros Hent Hdec. rewrite (verifyScale_entries _ _ Hent).
  inversion Hdec as [|? ? Hr He]; subst. destruct ref as [rd rs]. cbn [fst] in Hr.
  destruct entries as [|e es]; [split; [constructor|done]|].
  cbv iota beta. generalize dependent (e :: es). intros entries Hent Hdec He.
  destruct (areDecimalsUniform ((rd, rs) :: entries)) eqn:Hu.
  - apply areDecimalsUniform_true in Hu. cbn [forallb snd].
    assert (scalesEqual rs rs = true) as -> by apply Z.eqb_refl.
    transitivity (forallb (fun e => scalesEqual rs (snd e)) entries = true);
      [by split; [intros [= ->]|cbn; intros ->]|].
    rewrite forallb_forall, Forall_forall. rewrite Forall_forall in Hu.
    split; intros H x Hx.
    + apply scales_consistent_uniform; [done|by symmetry; apply Hu|].
      apply (H x). by apply list_elem_of_In.
    + apply list_elem_of_In in Hx. apply (scales_consistent_uniform (rd, rs) x);
        [done|by symmetry; apply Hu|by apply H].
  - unfold pow10. rewrite (proj2 (Z.ltb_ge rd 0)) by done. cbn.
    apply verifyScale_loop_true. by apply Forall_forall.
Qed.

Lemma verifyScale_sound_complete_witness :
  verifyScale [("a", {| st_decimals := Some 18; st_scale := None |});
               ("b", {| st_decimals := Some 6; st_scale := Some (ScaleNumber 1000000000000) |})]
    = Ok true <->
  Forall (fun e => scales_consistent (18, None) e) [(6, Some (ScaleNumber 1000000000000))].
Proof.
  apply (verifyScale_sound_complete _ (18, None) [(6, Some (ScaleNumber 1000000000000))]).
  - repeat constructor.
  - repeat constructor; cbn; lia.
Defined.
