(* ===== verification/Token.v ===== *)
(** Tokens as the rebalancer sees them: the standards of sdk/src/token/TokenStandard.ts,
    rebalancer/src/utils/tokenUtils.ts and rebalancer/src/utils/balanceUtils.ts. *)
From stdpp Require Import base tactics list gmap strings.
From Stdlib Require Import ZArith Lia.
From S2P Require Import Prelude JsMap Amount.

#[local] Open Scope Z_scope.

(** ** Token standards *)

Inductive TokenStandard : Type :=
| ERC20 | ERC721 | EvmNative | EvmHypNative | EvmHypCollateral | EvmHypOwnerCollateral
| EvmHypRebaseCollateral | EvmHypCollateralFiat | EvmHypSynthetic
| EvmHypSyntheticRebase | EvmHypXERC20 | EvmHypXERC20Lockbox | EvmHypVSXERC20
| EvmHypVSXERC20Lockbox | EvmM0PortalLite | EvmM0Portal | EvmHypEverclearCollateral
| EvmHypEverclearEth | EvmHypCrossCollateralRouter | EvmAtomicLocalRebalancingBridge
| SealevelSpl | SealevelSpl2022 | SealevelNative | SealevelHypNative
| SealevelHypCollateral | SealevelHypSynthetic | SealevelHypCrossCollateral
| CosmosIcs20 | CosmosIcs721 | CosmosNative | CosmosIbc | CW20 | CWNative | CW721
| CwHypNative | CwHypCollateral | CwHypSynthetic | CosmNativeHypCollateral
| CosmNativeHypSynthetic | StarknetNative | StarknetHypNative | StarknetHypCollateral
| StarknetHypSynthetic | RadixNative | RadixHypCollateral | RadixHypSynthetic
| AleoNative | AleoHypNative | AleoHypCollateral | AleoHypSynthetic | TRC20 | TRC721
| TronNative | TronHypNative | TronHypCollateral | TronHypOwnerCollateral
| TronHypRebaseCollateral | TronHypCollateralFiat | TronHypSynthetic
| TronHypSyntheticRebase | TronHypXERC20 | TronHypXERC20Lockbox | TronHypVSXERC20
| TronHypVSXERC20Lockbox | TronM0PortalLite | TronHypEverclearCollateral
| TronHypEverclearEth | TronHypCrossCollateralRouter | TronAtomicLocalRebalancingBridge.

#[export] Instance TokenStandard_eq_dec : EqDecision TokenStandard.
Proof. solve_decision. Defined.

(** The string value of each member. *)
Definition standard_value (s : TokenStandard) : string :=
  match s with
  | ERC20 => "ERC20"
  | ERC721 => "ERC721"
  | EvmNative => "EvmNative"
  | EvmHypNative => "EvmHypNative"
  | EvmHypCollateral => "EvmHypCollateral"
  | EvmHypOwnerCollateral => "EvmHypOwnerCollateral"
  | EvmHypRebaseCollateral => "EvmHypRebaseCollateral"
  | EvmHypCollateralFiat => "EvmHypCollateralFiat"
  | EvmHypSynthetic => "EvmHypSynthetic"
  | EvmHypSyntheticRebase => "EvmHypSyntheticRebase"
  | EvmHypXERC20 => "EvmHypXERC20"
  | EvmHypXERC20Lockbox => "EvmHypXERC20Lockbox"
  | EvmHypVSXERC20 => "EvmHypVSXERC20"
  | EvmHypVSXERC20Lockbox => "EvmHypVSXERC20Lockbox"
  | EvmM0PortalLite => "EvmM0PortalLite"
  | EvmM0Portal => "EvmM0Portal"
  | EvmHypEverclearCollateral => "EvmHypEverclearCollateral"
  | EvmHypEverclearEth => "EvmHypEverclearEth"
  | EvmHypCrossCollateralRouter => "EvmHypCrossCollateralRouter"
  | EvmAtomicLocalRebalancingBridge => "EvmAtomicLocalRebalancingBridge"
  | SealevelSpl => "SealevelSpl"
  | SealevelSpl2022 => "SealevelSpl2022"
  | SealevelNative => "SealevelNative"
  | SealevelHypNative => "SealevelHypNative"
  | SealevelHypCollateral => "SealevelHypCollateral"
  | SealevelHypSynthetic => "SealevelHypSynthetic"
  | SealevelHypCrossCollateral => "SealevelHypCrossCollateral"
  | CosmosIcs20 => "CosmosIcs20"
  | CosmosIcs721 => "CosmosIcs721"
  | CosmosNative => "CosmosNative"
  | CosmosIbc => "CosmosIbc"
  | CW20 => "CW20"
  | CWNative => "CWNative"
  | CW721 => "CW721"
  | CwHypNative => "CwHypNative"
  | CwHypCollateral => "CwHypCollateral"
  | CwHypSynthetic => "CwHypSynthetic"
  | CosmNativeHypCollateral => "CosmosNativeHypCollateral"
  | CosmNativeHypSynthetic => "CosmosNativeHypSynthetic"
  | StarknetNative => "StarknetNative"
  | StarknetHypNative => "StarknetHypNative"
  | StarknetHypCollateral => "StarknetHypCollateral"
  | StarknetHypSynthetic => "StarknetHypSynthetic"
  | RadixNative => "RadixNative"
  | RadixHypCollateral => "RadixHypCollateral"
  | RadixHypSynthetic => "RadixHypSynthetic"
  | AleoNative => "AleoNative"
  | AleoHypNative => "AleoHypNative"
  | AleoHypCollateral => "AleoHypCollateral"
  | AleoHypSynthetic => "AleoHypSynthetic"
  | TRC20 => "TRC20"
  | TRC721 => "TRC721"
  | TronNative => "TronNative"
  | TronHypNative => "TronHypNative"
  | TronHypCollateral => "TronHypCollateral"
  | TronHypOwnerCollateral => "TronHypOwnerCollateral"
  | TronHypRebaseCollateral => "TronHypRebaseCollateral"
  | TronHypCollateralFiat => "TronHypCollateralFiat"
  | TronHypSynthetic => "TronHypSynthetic"
  | TronHypSyntheticRebase => "TronHypSyntheticRebase"
  | TronHypXERC20 => "TronHypXERC20"
  | TronHypXERC20Lockbox => "TronHypXERC20Lockbox"
  | TronHypVSXERC20 => "TronHypVSXERC20"
  | TronHypVSXERC20Lockbox => "TronHypVSXERC20Lockbox"
  | TronM0PortalLite => "TronM0PortalLite"
  | TronHypEverclearCollateral => "TronHypEverclearCollateral"
  | TronHypEverclearEth => "TronHypEverclearEth"
  | TronHypCrossCollateralRouter => "TronHypCrossCollateralRouter"
  | TronAtomicLocalRebalancingBridge => "TronAtomicLocalRebalancingBridge"
  end.

Definition TOKEN_COLLATERALIZED_STANDARDS : list TokenStandard :=
  [EvmHypCollateral; EvmHypOwnerCollateral; EvmHypRebaseCollateral; EvmHypNative;
   SealevelHypCollateral; SealevelHypNative; CwHypCollateral; CwHypNative;
   CosmNativeHypCollateral; EvmHypXERC20Lockbox; EvmHypVSXERC20Lockbox; AleoHypNative;
   AleoHypCollateral; TronHypNative; TronHypCollateral; TronHypOwnerCollateral;
   TronHypRebaseCollateral; TronHypXERC20Lockbox; TronHypVSXERC20Lockbox;
   RadixHypCollateral; StarknetHypCollateral; StarknetHypNative;
   EvmHypCrossCollateralRouter; TronHypCrossCollateralRouter;
   SealevelHypCrossCollateral].

Definition TOKEN_HYP_STANDARDS : list TokenStandard :=
  [EvmHypNative; EvmHypCollateral; EvmHypCollateralFiat; EvmHypOwnerCollateral;
   EvmHypRebaseCollateral; EvmHypSynthetic; EvmHypSyntheticRebase; EvmHypXERC20;
   EvmHypXERC20Lockbox; EvmHypVSXERC20; EvmHypVSXERC20Lockbox; EvmM0PortalLite; EvmM0Portal;
   EvmHypCrossCollateralRouter; SealevelHypNative; SealevelHypCollateral; SealevelHypSynthetic;
   SealevelHypCrossCollateral; CwHypNative; CwHypCollateral; CwHypSynthetic;
   CosmNativeHypCollateral; CosmNativeHypSynthetic; StarknetHypNative; StarknetHypCollateral;
   StarknetHypSynthetic; RadixHypCollateral; RadixHypSynthetic; AleoHypNative;
   AleoHypCollateral; AleoHypSynthetic; TronHypNative; TronHypCollateral;
   TronHypOwnerCollateral; TronHypRebaseCollateral; TronHypCollateralFiat; TronHypSynthetic;
   TronHypSyntheticRebase; TronHypXERC20; TronHypXERC20Lockbox; TronHypVSXERC20;
   TronHypVSXERC20Lockbox; TronM0PortalLite; TronHypCrossCollateralRouter;
   TronHypEverclearCollateral; TronHypEverclearEth].

(** ** Protocols (utils/src/types.ts) *)

Inductive ProtocolType : Type :=
| PEthereum | PSealevel | PCosmos | PCosmosNative | PStarknet | PRadix | PAleo | PTron
| PUnknown.

#[export] Instance ProtocolType_eq_dec : EqDecision ProtocolType.
Proof. solve_decision. Defined.

Definition isEVMLike (protocol : ProtocolType) : bool :=
  bool_decide (protocol = PEthereum) || bool_decide (protocol = PTron).

Definition PROTOCOL_TO_HYP_NATIVE_STANDARD (p : ProtocolType) : option TokenStandard :=
  match p with
  | PEthereum => Some EvmHypNative
  | PCosmos => Some CwHypNative
  | PSealevel => Some SealevelHypNative
  | PStarknet => Some StarknetHypNative
  | PRadix => Some RadixHypCollateral
  | PCosmosNative => Some CosmNativeHypCollateral
  | PAleo => Some AleoHypNative
  | PTron => Some TronHypNative
  | PUnknown => None
  end.

(** The fields of [Token] the rebalancer reads. *)
Record Token : Type := {
  tok_chainName : string;
  tok_standard : TokenStandard;
  tok_decimals : Z;
  tok_scale : option ScaleInput;
  tok_addressOrDenom : string;
  tok_collateralAddressOrDenom : option string
}.

Definition isCollateralized (token : Token) : bool :=
  bool_decide (tok_standard token ∈ TOKEN_COLLATERALIZED_STANDARDS).

(** ** tokenUtils.ts *)

Definition REBALANCEABLE_TOKEN_COLLATERALIZED_STANDARDS : list TokenStandard :=
  [EvmHypCollateral; EvmHypNative; SealevelHypCollateral; SealevelHypNative;
   TronHypCollateral; TronHypNative].

Definition REBALANCER_NATIVE_STANDARDS : list TokenStandard :=
  omap PROTOCOL_TO_HYP_NATIVE_STANDARD [PEthereum; PSealevel; PTron].

Definition isNativeTokenStandard (standard : TokenStandard) : bool :=
  bool_decide (standard ∈ REBALANCER_NATIVE_STANDARDS).

Definition isCollateralizedTokenEligibleForRebalancing (token : Token) : bool :=
  isCollateralized token &&
  bool_decide (tok_standard token ∈ REBALANCEABLE_TOKEN_COLLATERALIZED_STANDARDS).

(** [getNativeTokenAddress] may throw: it is the caller's function. *)
Definition getExternalBridgeTokenAddress {Bridge : Type} (token : Token)
    (externalBridgeType : Bridge) (getNativeTokenAddress : Bridge -> result string)
    : result string :=
  if isNativeTokenStandard (tok_standard token) then getNativeTokenAddress externalBridgeType
  else
    match tok_collateralAddressOrDenom token with
    | Some (String _ _ as addr) => Ok addr
    | _ =>
        _ ← js_assert
          (negb (bool_decide
            (tok_standard token ∈ REBALANCEABLE_TOKEN_COLLATERALIZED_STANDARDS)))
          ("Missing collateralAddressOrDenom for collateralized token on "
             +:+ tok_chainName token +:+ " (" +:+ standard_value (tok_standard token) +:+ ")");
        Ok (tok_addressOrDenom token)
    end.

(** ** balanceUtils.ts *)

(** [Token | IToken | NormalizedScale]. *)
Inductive TokenOrScale : Type :=
| OfToken (token : Token)
| OfScale (scale : NormalizedScale).

Definition getTokenScale (token : Token) : NormalizedScale := normalizeScale (tok_scale token).

Definition isIdentityScale (token : Token) : bool := scalesEqual (tok_scale token) None.

Definition getScaleInput (ts : TokenOrScale) : option ScaleInput :=
  match ts with
  | OfScale s => Some (ScaleBigints (numerator s) (denominator s))
  | OfToken token => tok_scale token
  end.

Definition normalizeToCanonical (local : Z) (ts : TokenOrScale) : result Z :=
  messageAmountFromLocal local (getScaleInput ts).

Definition denormalizeToLocal (canonical : Z) (ts : TokenOrScale) : result Z :=
  minLocalAmountForMessage canonical (getScaleInput ts).

Definition alignLocalToCanonical (local : Z) (ts : TokenOrScale) : result ScaleAlignment :=
  alignLocalAmountToMessage local (getScaleInput ts).

Definition normalizeConfiguredAmount `{BigNumberJs} (amount : Numberish) (token : Token)
    : result Z :=
  w ← toWei amount (Some (tok_decimals token));
  normalizeToCanonical w (OfToken token).

(** An entry of [MonitorEvent.tokensInfo]. *)
Record TokenInfo : Type := { ti_token : Token; ti_bridgedSupply : option Z }.

(** One turn of the loop of [getRawBalances]. *)
Definition getRawBalances_step (chains : list string) (balances : gmap string Z)
    (info : TokenInfo) : result (gmap string Z) :=
  let token := ti_token info in
  if negb (bool_decide (tok_chainName token ∈ set_of chains)) then Ok balances
  else if negb (isCollateralizedTokenEligibleForRebalancing token) then Ok balances
  else
    match ti_bridgedSupply info with
    | None =>
        Throw (Error ("bridgedSupply should not be undefined for collateralized token "
                 +:+ tok_addressOrDenom token))
    | Some bridgedSupply =>
        normalizedBalance ← normalizeToCanonical bridgedSupply (OfToken token);
        Ok (<[tok_chainName token := normalizedBalance]> balances)
    end.

Fixpoint getRawBalances_loop (chains : list string) (balances : gmap string Z)
    (infos : list TokenInfo) : result (gmap string Z) :=
  match infos with
  | [] => Ok balances
  | info :: rest =>
      balances' ← getRawBalances_step chains balances info;
      getRawBalances_loop chains balances' rest
  end.

Definition getRawBalances (chains : list string) (tokensInfo : list TokenInfo)
    : result (gmap string Z) :=
  getRawBalances_loop chains ∅ tokensInfo.

(** ** Facts *)

Lemma normalizeToCanonical_nonneg x ts y : normalizeToCanonical x ts = Ok y -> 0 <= y.
Proof.
  intros (Hx & [Hn Hd] & ->)%messageAmountFromLocal_ok. apply Z.div_pos; nia.
Qed.

(** The tokens [getRawBalances] counts. *)
Definition counted (chains : list string) (info : TokenInfo) : bool :=
  bool_decide (tok_chainName (ti_token info) ∈ chains) &&
  isCollateralizedTokenEligibleForRebalancing (ti_token info).

(** The last counted entry of a chain. *)
Definition last_counted (chains : list string) (c : string) (infos : list TokenInfo)
    : option TokenInfo :=
  last (filter (fun i => counted chains i = true /\ tok_chainName (ti_token i) = c) infos).

Definition canonical_supply (info : TokenInfo) : result Z :=
  match ti_bridgedSupply info with
  | None => Throw (Error ("bridgedSupply should not be undefined for collateralized token "
              +:+ tok_addressOrDenom (ti_token info)))
  | Some s => normalizeToCanonical s (OfToken (ti_token info))
  end.

Lemma getRawBalances_step_eq chains balances info :
  getRawBalances_step chains balances info =
    if counted chains info then
      b ← canonical_supply info; Ok (<[tok_chainName (ti_token info) := b]> balances)
    else Ok balances.
Proof.
  unfold getRawBalances_step, counted, canonical_supply.
  rewrite (bool_decide_ext _ _ (elem_of_set_of chains (tok_chainName (ti_token info)))).
  case_bool_decide; [cbn|done].
  destruct (isCollateralizedTokenEligibleForRebalancing _); [cbn|done].
  by destruct (ti_bridgedSupply info).
Qed.

Lemma getRawBalances_loop_ok chains balances infos balances' :
  getRawBalances_loop chains balances infos = Ok balances' <->
  Forall (fun i => counted chains i = true -> is_ok (canonical_supply i) = true) infos /\
  balances' = foldl (fun acc i =>
    match counted chains i, canonical_supply i with
    | true, Ok b => <[tok_chainName (ti_token i) := b]> acc
    | _, _ => acc
    end) balances infos.
Proof.
  revert balances. induction infos as [|i infos IH]; intros balances; cbn.
  { split; [intros [= ->]; split; [constructor|done]|by intros [_ ->]]. }
  rewrite getRawBalances_step_eq, Forall_cons.
  destruct (counted chains i); cbn; [|rewrite IH; naive_solver].
  destruct (canonical_supply i) as [b|e]; cbn; [rewrite IH; naive_solver|].
  split; [done|]. intros [[H _] _]. by specialize (H eq_refl).
Qed.

Lemma last_counted_snoc chains c infos i :
  last_counted chains c (infos ++ [i]) =
    if decide (counted chains i = true /\ tok_chainName (ti_token i) = c) then Some i
    else last_counted chains c infos.
Proof.
  unfold last_counted. rewrite filter_app, filter_cons, filter_nil.
  case_decide; [by rewrite last_snoc|by rewrite app_nil_r].
Qed.

(** [getRawBalances] succeeds exactly when every counted token (configured chain,
    eligible standard) has a bridged supply that converts; the balance of a chain is then
    the canonical supply of its last counted token, a chain without one has no entry, and
    no balance is negative. *)
Theorem getRawBalances_spec chains infos :
  (is_ok (getRawBalances chains infos) = true <->
     Forall (fun i => counted chains i = true -> is_ok (canonical_supply i) = true) infos) /\
  (forall balances, getRawBalances chains infos = Ok balances -> forall c,
     Ok <$> (balances !! c) = canonical_supply <$> last_counted chains c infos /\
     (forall b, balances !! c = Some b -> c ∈ chains /\ 0 <= b)).
Proof.
  unfold getRawBalances. split.
  { destruct (getRawBalances_loop chains ∅ infos) as [bs|e] eqn:E; cbn.
    - apply getRawBalances_loop_ok in E. tauto.
    - split; [done|]. intros H. exfalso.
      enough (exists bs, getRawBalances_loop chains ∅ infos = Ok bs) as [? ?] by congruence.
      eexists. by apply getRawBalances_loop_ok. }
  intros balances [Hok ->]%getRawBalances_loop_ok c.
  induction infos as [|i infos IH] using rev_ind.
  { split; [done|]. intros b. cbn. by rewrite lookup_empty. }
  apply Forall_app in Hok as [Hok [Hi _]%Forall_cons]. specialize (IH Hok).
  rewrite foldl_snoc, last_counted_snoc. cbn.
  destruct (counted chains i) eqn:Hc; [|rewrite decide_False by naive_solver; exact IH].
  destruct (canonical_supply i) as [b|e] eqn:Hb; [|by specialize (Hi eq_refl)].
  destruct (decide (tok_chainName (ti_token i) = c)) as [<-|Hne].
  - rewrite decide_True, lookup_insert_eq by done. cbn. split; [by rewrite Hb|].
    intros b' [= <-]. split; [unfold counted in Hc; case_bool_decide; naive_solver|].
    unfold canonical_supply in Hb. destruct (ti_bridgedSupply i); [|done].
    by eapply normalizeToCanonical_nonneg.
  - rewrite decide_False, lookup_insert_ne by naive_solver. exact IH.
Qed.
