(* ===== verification/Route.v ===== *)
(** Routes, inflight context and bridge configurations:
    rebalancer/src/interfaces/IStrategy.ts and rebalancer/src/utils/bridgeUtils.ts. *)
From stdpp Require Import base tactics list gmap strings.
From Stdlib Require Import ZArith Lia.
From S2P Require Import Prelude JsMap Amount.

#[local] Open Scope Z_scope.

(** ** Enumerations of config/types.ts and tracking/types.ts *)

Inductive ExecutionType : Type := MovableCollateral | Inventory.
Inductive ExternalBridgeType : Type := LiFi.
Inductive ExecutionMethod : Type := movable_collateral | inventory.

#[export] Instance ExecutionType_eq_dec : EqDecision ExecutionType.
Proof. solve_decision. Defined.
#[export] Instance ExternalBridgeType_eq_dec : EqDecision ExternalBridgeType.
Proof. solve_decision. Defined.
#[export] Instance ExecutionMethod_eq_dec : EqDecision ExecutionMethod.
Proof. solve_decision. Defined.

(** ** Routes *)

(** [Route], [RouteWithContext] and the bridge fields a route may carry at run time. *)
Record Route : Type := {
  r_origin : string;
  r_destination : string;
  r_amount : Z;
  r_executionMethod : option ExecutionMethod;
  r_deliveredAmount : option Z;
  r_awaitingDeliveryAmount : option Z;
  r_bridge : option string;
  r_externalBridge : option ExternalBridgeType
}.

(** The member of the [StrategyRoute] union, with the field only it has. The field is
    optional because [createStrategyRoute] copies it from a merged configuration. *)
Inductive RouteExecution : Type :=
| ByMovableCollateral (bridge : option string)
| ByInventory (externalBridge : option ExternalBridgeType).

#[export] Instance RouteExecution_eq_dec : EqDecision RouteExecution.
Proof. solve_decision. Defined.

Record StrategyRoute : Type := {
  sr_origin : string;
  sr_destination : string;
  sr_amount : Z;
  sr_execution : RouteExecution
}.

#[export] Instance StrategyRoute_eq_dec : EqDecision StrategyRoute.
Proof. solve_decision. Defined.

Definition isMovableCollateralRoute (r : StrategyRoute) : bool :=
  match sr_execution r with ByMovableCollateral _ => true | ByInventory _ => false end.

Definition isInventoryRoute (r : StrategyRoute) : bool :=
  match sr_execution r with ByInventory _ => true | ByMovableCollateral _ => false end.

(** A strategy route seen as a [Route]. *)
Definition as_route (r : StrategyRoute) : Route := {|
  r_origin := sr_origin r;
  r_destination := sr_destination r;
  r_amount := sr_amount r;
  r_executionMethod := None;
  r_deliveredAmount := None;
  r_awaitingDeliveryAmount := None;
  r_bridge := match sr_execution r with ByMovableCollateral b => b | _ => None end;
  r_externalBridge := match sr_execution r with ByInventory b => b | _ => None end
|}.

Record InflightContext : Type := {
  pendingRebalances : list Route;
  pendingTransfers : list Route;
  proposedRebalances : option (list StrategyRoute)
}.

(** ** Bridge configurations *)

Record BridgeConfig : Type := {
  bc_executionType : ExecutionType;
  bc_bridge : option string;
  bc_externalBridge : option ExternalBridgeType;
  bc_bridgeMinAcceptedAmount : option Numberish
}.

(** [Partial<BridgeConfig>]. *)
Record BridgeOverride : Type := {
  bo_executionType : option ExecutionType;
  bo_bridge : option string;
  bo_externalBridge : option ExternalBridgeType;
  bo_bridgeMinAcceptedAmount : option Numberish
}.

Record BridgeConfigWithOverride : Type := {
  base_config : BridgeConfig;
  override : option (list (string * BridgeOverride))
}.

Definition isMovableCollateralConfig (config : BridgeConfig) : bool :=
  bool_decide (bc_executionType config = MovableCollateral).

Definition isInventoryConfig (config : BridgeConfig) : bool :=
  bool_decide (bc_executionType config = Inventory).

(** [{ ...base, ...override }]. *)
Definition merge_override (base : BridgeConfig) (o : option BridgeOverride) : BridgeConfig :=
  match o with
  | None => base
  | Some o => {|
      bc_executionType := default (bc_executionType base) (bo_executionType o);
      bc_bridge := match bo_bridge o with Some b => Some b | None => bc_bridge base end;
      bc_externalBridge :=
        match bo_externalBridge o with Some b => Some b | None => bc_externalBridge base end;
      bc_bridgeMinAcceptedAmount :=
        match bo_bridgeMinAcceptedAmount o with
        | Some a => Some a
        | None => bc_bridgeMinAcceptedAmount base
        end
    |}
  end.

Definition getBridgeConfig (bridges : list (string * BridgeConfigWithOverride))
    (fromChain toChain : string) : result BridgeConfig :=
  match map_get fromChain bridges with
  | None => Throw (TypeError "Cannot read properties of undefined (reading 'override')")
  | Some fromConfig =>
      let routeSpecificOverrides := o ← override fromConfig; map_get toChain o in
      Ok (merge_override (base_config fromConfig) routeSpecificOverrides)
  end.

Definition createStrategyRoute (bridgeConfig : BridgeConfig) (origin destination : string)
    (amount : Z) : StrategyRoute := {|
  sr_origin := origin;
  sr_destination := destination;
  sr_amount := amount;
  sr_execution :=
    match bc_executionType bridgeConfig with
    | Inventory => ByInventory (bc_externalBridge bridgeConfig)
    | MovableCollateral => ByMovableCollateral (bc_bridge bridgeConfig)
    end
|}.

(** ** Facts *)

(** The route carries what its execution needs: a non-empty bridge address, or an
    external bridge. *)
Definition route_executable (r : StrategyRoute) : bool :=
  match sr_execution r with
  | ByMovableCollateral (Some (String _ _)) => true
  | ByMovableCollateral _ => false
  | ByInventory o => bool_decide (is_Some o)
  end.

Definition config_executable (c : BridgeConfig) : bool :=
  match bc_executionType c with
  | MovableCollateral => match bc_bridge c with Some (String _ _) => true | _ => false end
  | Inventory => bool_decide (is_Some (bc_externalBridge c))
  end.

Lemma createStrategyRoute_executable c o d a :
  route_executable (createStrategyRoute c o d a) = config_executable c.
Proof.
  unfold route_executable, config_executable; cbn.
  destruct (bc_executionType c); [|done]. by destruct (bc_bridge c) as [[]|].
Qed.

Lemma getBridgeConfig_ok bridges o d :
  o ∈ map_keys bridges -> exists c, getBridgeConfig bridges o d = Ok c.
Proof.
  intros Ho%map_has_true. unfold getBridgeConfig, map_has in *.
  destruct (map_get o bridges); [eauto|done].
Qed.
