(* ===== verification/Config.v ===== *)
(** The rebalancer configuration, rebalancer/src/config/types.ts: the data the schemas
    produce, the refinement that reports issues, and the helpers over strategy lists.
    The zod schemas themselves (field types, defaults) are the types below. *)
From stdpp Require Import base tactics list gmap strings.
From Stdlib Require Import ZArith Lia.
From S2P Require Import Prelude JsMap Addresses Amount Token Route.

#[local] Open Scope Z_scope.

(** ** Data *)

Inductive RebalancerMinAmountType : Type := Absolute | Relative.
#[export] Instance RebalancerMinAmountType_eq_dec : EqDecision RebalancerMinAmountType.
Proof. solve_decision. Defined.

(** [RebalancerBaseChainConfigSchema]; an override is a partial bridge configuration. *)
Record BaseChainConfig : Type := {
  cc_bridge : option string;
  cc_executionType : option ExecutionType;
  cc_externalBridge : option ExternalBridgeType;
  cc_bridgeMinAcceptedAmount : option Numberish;
  cc_override : option (list (string * BridgeOverride))
}.

Record WeightedChainConfig : Type := { weight : Z; tolerance : Z }.
Record MinAmountChainConfig : Type := {
  ma_min : Numberish; ma_target : Numberish; ma_type : RebalancerMinAmountType
}.

(** [StrategyConfigSchema], a union discriminated by [rebalanceStrategy]. *)
Inductive StrategyConfig : Type :=
| WeightedStrategySchema (chains : list (string * (BaseChainConfig * WeightedChainConfig)))
| MinAmountStrategySchema (chains : list (string * (BaseChainConfig * MinAmountChainConfig)))
| CollateralDeficitStrategySchema (chains : list (string * (BaseChainConfig * Numberish))).

(** [Object.entries(strategy.chains)], at the base configuration of each chain. *)
Definition base_entries {A} (chains : list (string * (BaseChainConfig * A)))
    : list (string * BaseChainConfig) :=
  (fun '(c, (b, _)) => (c, b)) <$> chains.

Definition strategy_chains (s : StrategyConfig) : list (string * BaseChainConfig) :=
  match s with
  | WeightedStrategySchema chains => base_entries chains
  | MinAmountStrategySchema chains => base_entries chains
  | CollateralDeficitStrategySchema chains => base_entries chains
  end.

Definition is_collateral_deficit (s : StrategyConfig) : bool :=
  match s with CollateralDeficitStrategySchema _ => true | _ => false end.

Record InventorySignerConfig : Type := { is_address : string; is_key : option string }.

(** The parsed configuration, before the last refinement. *)
Record RebalancerConfigInput : Type := {
  rc_strategy : list StrategyConfig;
  rc_inventorySigners : option (list (ProtocolType * InventorySignerConfig));
  rc_lifiIntegrator : option string
}.

Definition DEFAULT_INTENT_TTL_S : Z := 604800.
Definition DEFAULT_INTENT_TTL_MS : Z := DEFAULT_INTENT_TTL_S * 1000.
Definition DEFAULT_MOVEMENT_STALENESS_MS : Z := 30 * 60 * 1000.

(** ** Issues *)

(** One constructor per [ctx.addIssue] of the refinement, with what its path names. *)
Inductive Issue : Type :=
| CollateralDeficitNotFirst
| OverrideUnknownChain (strategyIndex : nat) (chain override : string)
| OverrideSelfReference (strategyIndex : nat) (chain : string)
| MixedMinAmountTypes (strategyIndex : nat)
| MissingBridge (strategyIndex : nat) (chain : string)
| MissingExternalBridge (strategyIndex : nat) (chain : string)
| OverrideMissingBridge (strategyIndex : nat) (chain destination : string)
| OverrideMissingExternalBridge (strategyIndex : nat) (chain destination : string)
| MissingInventorySigners
| BadSignerAddress (protocol : ProtocolType)
| MissingLifi
| LifiNotConfigured (strategyIndex : nat) (chain : string) (destination : option string).

#[export] Instance Issue_eq_dec : EqDecision Issue.
Proof. solve_decision. Defined.

(** Truthiness of an optional string. *)
Definition truthy (s : option string) : bool :=
  match s with Some (String _ _) => true | _ => false end.

(** [{ ...chainConfig, ...destinationOverride }], at the fields the checks read. *)
Definition merged_chain_config (c : BaseChainConfig) (o : BridgeOverride) : BaseChainConfig := {|
  cc_bridge := match bo_bridge o with Some b => Some b | None => cc_bridge c end;
  cc_executionType :=
    match bo_executionType o with Some t => Some t | None => cc_executionType c end;
  cc_externalBridge :=
    match bo_externalBridge o with Some b => Some b | None => cc_externalBridge c end;
  cc_bridgeMinAcceptedAmount :=
    match bo_bridgeMinAcceptedAmount o with
    | Some a => Some a
    | None => cc_bridgeMinAcceptedAmount c
    end;
  cc_override := cc_override c
|}.

Definition execution_type (c : BaseChainConfig) : ExecutionType :=
  default MovableCollateral (cc_executionType c).

Definition lacks_bridge (c : BaseChainConfig) : bool :=
  bool_decide (execution_type c = MovableCollateral) && negb (truthy (cc_bridge c)).
Definition lacks_externalBridge (c : BaseChainConfig) : bool :=
  bool_decide (execution_type c = Inventory) && bool_decide (cc_externalBridge c = None).

Definition when (b : bool) (i : Issue) : list Issue := if b then [i] else [].

Definition overrides (c : BaseChainConfig) : list (string * BridgeOverride) :=
  default [] (cc_override c).

(** "Check each chain's overrides". *)
Definition override_key_issues (i : nat) (chainNames : list string)
    (entry : string * BaseChainConfig) : list Issue :=
  let '(chainName, chainConfig) := entry in
  concat ((fun '(overrideChainName, _) =>
    when (negb (bool_decide (overrideChainName ∈ chainNames)))
      (OverrideUnknownChain i chainName overrideChainName) ++
    when (bool_decide (chainName = overrideChainName)) (OverrideSelfReference i chainName))
    <$> overrides chainConfig).

(** "All chains must use the same minAmount type." *)
Definition min_amount_issues (i : nat) (s : StrategyConfig) : list Issue :=
  match s with
  | MinAmountStrategySchema chains =>
      when (1 <? length (set_of ((fun '(_, (_, m)) => ma_type m) <$> chains)))%nat
        (MixedMinAmountTypes i)
  | _ => []
  end.

(** "Validate bridge requirement based on executionType", overrides included. *)
Definition bridge_issues (i : nat) (entry : string * BaseChainConfig) : list Issue :=
  let '(chainName, chainConfig) := entry in
  when (lacks_bridge chainConfig) (MissingBridge i chainName) ++
  when (lacks_externalBridge chainConfig) (MissingExternalBridge i chainName) ++
  concat ((fun '(destination, o) =>
    let mergedConfig := merged_chain_config chainConfig o in
    when (lacks_bridge mergedConfig) (OverrideMissingBridge i chainName destination) ++
    when (lacks_externalBridge mergedConfig)
      (OverrideMissingExternalBridge i chainName destination))
    <$> overrides chainConfig).

Definition strategy_issues (i : nat) (s : StrategyConfig) : list Issue :=
  let entries := strategy_chains s in
  concat (override_key_issues i (entries.*1) <$> entries) ++
  min_amount_issues i s ++
  concat (bridge_issues i <$> entries).

(** ** Helpers over strategy lists *)

Definition getStrategyChainNames (strategies : list StrategyConfig) : list string :=
  set_of (concat ((fun s => (strategy_chains s).*1) <$> strategies)).

Definition getStrategyChainConfig (strategies : list StrategyConfig) (chainName : string)
    : option BaseChainConfig :=
  head (omap (fun s => map_get chainName (strategy_chains s)) strategies).

Definition getAllBridges (strategies : list StrategyConfig) : list string :=
  set_of (concat ((fun s => concat ((fun '(_, chainConfig) =>
    (if truthy (cc_bridge chainConfig) then option_list (cc_bridge chainConfig) else []) ++
    concat ((fun '(_, o) =>
      if truthy (bo_bridge o) then option_list (bo_bridge o) else []) <$> overrides chainConfig))
    <$> strategy_chains s)) <$> strategies)).

Definition getChainExecutionType (strategies : list StrategyConfig) (chainName : string)
    : ExecutionType :=
  default MovableCollateral
    (getStrategyChainConfig strategies chainName ≫= cc_executionType).

Definition getOverrideExecutionType (o : BridgeOverride) : option ExecutionType :=
  bo_executionType o.

(** The execution type of an override, falling back on its chain's. *)
Definition overrides_to_inventory (c : BaseChainConfig) (o : BridgeOverride) : bool :=
  bool_decide (default (execution_type c) (getOverrideExecutionType o) = Inventory).

Definition getInventoryChainNames (strategies : list StrategyConfig) : list string :=
  set_of (concat ((fun s =>
    (filter (fun e => cc_executionType (snd e) = Some Inventory) (strategy_chains s)).*1 ++
    concat ((fun '(_, chainConfig) =>
      (filter (fun e => overrides_to_inventory chainConfig (snd e) = true)
         (overrides chainConfig)).*1) <$> strategy_chains s))
    <$> strategies)).

Definition getInventoryOriginChainNames (strategies : list StrategyConfig) : list string :=
  set_of (concat ((fun s => concat ((fun '(originChainName, chainConfig) =>
    if existsb (fun e => overrides_to_inventory chainConfig (snd e)) (overrides chainConfig)
    then [originChainName] else []) <$> strategy_chains s)) <$> strategies)).

Definition hasInventoryChains (strategies : list StrategyConfig) : bool :=
  (0 <? length (getInventoryChainNames strategies))%nat.

(** ** The refinement *)

Definition signer_issues (entry : ProtocolType * InventorySignerConfig) : list Issue :=
  let '(protocol, signerConfig) := entry in
  match protocol with
  | PEthereum | PTron =>
      when (negb (isAddressEvm (is_address signerConfig))) (BadSignerAddress protocol)
  | PSealevel =>
      when (negb (is_solana_base58 (is_address signerConfig))) (BadSignerAddress protocol)
  | _ => []
  end.

Definition inventory_issues (config : RebalancerConfigInput) : list Issue :=
  if hasInventoryChains (rc_strategy config) then
    when (match rc_inventorySigners config with Some (_ :: _) => false | _ => true end)
      MissingInventorySigners ++
    concat (signer_issues <$> default [] (rc_inventorySigners config)) ++
    when (negb (truthy (rc_lifiIntegrator config))) MissingLifi
  else [].

Definition lifi_issue (config : RebalancerConfigInput) (b : option ExternalBridgeType)
    (i : Issue) : list Issue :=
  when (bool_decide (b = Some LiFi) && negb (truthy (rc_lifiIntegrator config))) i.

Definition lifi_issues (config : RebalancerConfigInput) (i : nat)
    (entry : string * BaseChainConfig) : list Issue :=
  let '(chainName, chainConfig) := entry in
  lifi_issue config (cc_externalBridge chainConfig) (LifiNotConfigured i chainName None) ++
  concat ((fun '(destination, o) =>
    lifi_issue config (cc_externalBridge (merged_chain_config chainConfig o))
      (LifiNotConfigured i chainName (Some destination))) <$> overrides chainConfig).

(** The issues in the order the refinement adds them; the schema accepts a configuration
    when there are none. *)
Definition config_issues (config : RebalancerConfigInput) : list Issue :=
  let strategies := rc_strategy config in
  when ((1 <? length strategies)%nat && existsb is_collateral_deficit strategies &&
        negb (match strategies with s :: _ => is_collateral_deficit s | [] => false end))
    CollateralDeficitNotFirst ++
  concat (imap strategy_issues strategies) ++
  inventory_issues config ++
  concat (imap (fun i s => concat (lifi_issues config i <$> strategy_chains s)) strategies).
