(* ===== verification/BaseStrategy.v ===== *)
(** The base rebalancing strategy, rebalancer/src/strategy/BaseStrategy.ts: validation,
    simulation of inflight operations, deficit scaling, greedy matching and filtering.
    The abstract method [getCategorizedBalances] is an argument. Logging and metrics are
    left out: they return nothing the strategy reads. *)
From stdpp Require Import base tactics list gmap strings.
From Stdlib Require Import ZArith Lia Sorted.
From Equations Require Import Equations.
From S2P Require Import Prelude JsMap Amount Token Route.

#[local] Open Scope Z_scope.

(** ** Data *)

Record Delta : Type := { d_chain : string; d_amount : Z }.

#[export] Instance Delta_eq_dec : EqDecision Delta.
Proof. solve_decision. Defined.

Record BaseStrategy : Type := {
  chains : list string;
  bridgeConfigs : list (string * BridgeConfigWithOverride);
  tokensByChainName : option (list (string * Token))
}.

(** The constructor's check. *)
Definition make_BaseStrategy (chains : list string)
    (bridgeConfigs : list (string * BridgeConfigWithOverride))
    (tokensByChainName : option (list (string * Token))) : result BaseStrategy :=
  if (length chains <? 2)%nat then Throw (Error "At least two chains must be configured")
  else Ok (Build_BaseStrategy chains bridgeConfigs tokensByChainName).

(** ** Balances *)

(** [o[k] ?? 0n]. *)
Definition balance_or_0 (m : gmap string Z) (c : string) : Z := default 0 (m !! c).

Fixpoint validateRawBalances_loop (chains : list string) (rawBalances : gmap string Z)
    : result unit :=
  match chains with
  | [] => Ok ()
  | chain :: rest =>
      match rawBalances !! chain with
      | None => Throw (Error ("Raw balance for chain " +:+ chain +:+ " not found"))
      | Some balance =>
          if balance <? 0
          then Throw (Error ("Raw balance for chain " +:+ chain +:+ " is negative"))
          else validateRawBalances_loop rest rawBalances
      end
  end.

Definition validateRawBalances (chains : list string) (rawBalances : gmap string Z)
    : result unit :=
  if negb (length chains =? size rawBalances)%nat
  then Throw (Error "Config chains do not match raw balances chains length")
  else validateRawBalances_loop chains rawBalances.

Definition reserveCollateral (rawBalances : gmap string Z) (pendingTransfers : list Route)
    : gmap string Z :=
  foldl (fun reserved transfer =>
    let destBalance := balance_or_0 reserved (r_destination transfer) in
    <[r_destination transfer := destBalance - r_amount transfer]> reserved)
    rawBalances pendingTransfers.

(** One pending rebalance of [simulatePendingRebalances]. *)
Definition simulatePending_step (simulated : gmap string Z) (rebalance : Route)
    : gmap string Z :=
  if bool_decide (r_executionMethod rebalance = Some inventory) then
    let total := r_amount rebalance in
    let delivered := default 0 (r_deliveredAmount rebalance) in
    let awaiting := default 0 (r_awaitingDeliveryAmount rebalance) in
    let destinationAdjustment := total - delivered - awaiting in
    let simulated :=
      if 0 <? destinationAdjustment then
        <[r_destination rebalance :=
            balance_or_0 simulated (r_destination rebalance) + destinationAdjustment]> simulated
      else simulated in
    let originAdjustment := total - delivered in
    if 0 <? originAdjustment then
      <[r_origin rebalance :=
          balance_or_0 simulated (r_origin rebalance) - originAdjustment]> simulated
    else simulated
  else
    <[r_destination rebalance :=
        balance_or_0 simulated (r_destination rebalance) + r_amount rebalance]> simulated.

Definition simulatePendingRebalances (rawBalances : gmap string Z)
    (pendingRebalances : list Route) : gmap string Z :=
  foldl simulatePending_step rawBalances pendingRebalances.

(** One proposed rebalance: both sides move, since nothing is on chain yet. *)
Definition simulateProposed_step (simulated : gmap string Z) (rebalance : Route)
    : gmap string Z :=
  let simulated :=
    <[r_origin rebalance :=
        balance_or_0 simulated (r_origin rebalance) - r_amount rebalance]> simulated in
  <[r_destination rebalance :=
      balance_or_0 simulated (r_destination rebalance) + r_amount rebalance]> simulated.

Definition simulateProposedRebalances (rawBalances : gmap string Z)
    (proposedRebalances : list Route) : gmap string Z :=
  foldl simulateProposed_step rawBalances proposedRebalances.

(** ** Matching surpluses and deficits *)

(** Deficits are scaled down in proportion when the surpluses do not cover them. *)
Definition scaleDeficits (totalSurplus totalDeficit : Z) (deficits : list Delta)
    : result (list Delta) :=
  if totalSurplus <? totalDeficit then
    mapM (fun deficit =>
      newAmount ← bigint_div (d_amount deficit * totalSurplus) totalDeficit;
      Ok {| d_chain := d_chain deficit; d_amount := newAmount |}) deficits
  else Ok deficits.

(** [(a, b) => (a.amount > b.amount ? -1 : 1)]. *)
Definition by_amount_desc (a b : Delta) : Z := if d_amount b <? d_amount a then -1 else 1.

(** What remains of a list after its head gave or received an amount. *)
Definition shift_if_done (d : Delta) (transferAmount : Z) (rest : list Delta) : list Delta :=
  if d_amount d - transferAmount <=? 0 then rest
  else {| d_chain := d_chain d; d_amount := d_amount d - transferAmount |} :: rest.

(** The route pushed in one turn of the loop, when its amount is positive. *)
Definition emit_route (bridges : list (string * BridgeConfigWithOverride))
    (surplus deficit : Delta) (transferAmount : Z) : result (list StrategyRoute) :=
  if 0 <? transferAmount then
    bridgeConfig ← getBridgeConfig bridges (d_chain surplus) (d_chain deficit);
    Ok [createStrategyRoute bridgeConfig (d_chain surplus) (d_chain deficit) transferAmount]
  else Ok [].

Definition transfer_amount (surplus deficit : Delta) : Z :=
  if d_amount deficit <? d_amount surplus then d_amount deficit else d_amount surplus.

(** Each turn removes the surplus or the deficit it works on. *)
Lemma shift_progress surplus deficit ss ds :
  (length (shift_if_done surplus (transfer_amount surplus deficit) ss) +
   length (shift_if_done deficit (transfer_amount surplus deficit) ds) <
   length (surplus :: ss) + length (deficit :: ds))%nat.
Proof.
  unfold shift_if_done, transfer_amount.
  destruct (Z.ltb_spec (d_amount deficit) (d_amount surplus));
    repeat case_match; cbn; lia.
Qed.

(** [while (deficits.length > 0 && surpluses.length > 0)]. *)
Equations? matchLoop (bridges : list (string * BridgeConfigWithOverride))
    (surpluses deficits : list Delta) : result (list StrategyRoute)
    by wf (length surpluses + length deficits)%nat lt :=
  matchLoop bridges [] _ := Ok [];
  matchLoop bridges (_ :: _) [] := Ok [];
  matchLoop bridges (surplus :: ss) (deficit :: ds) :=
    let transferAmount := transfer_amount surplus deficit in
    routes ← emit_route bridges surplus deficit transferAmount;
    rest ← matchLoop bridges (shift_if_done surplus transferAmount ss)
                             (shift_if_done deficit transferAmount ds);
    Ok (routes ++ rest).
Proof. apply shift_progress. Qed.

(** ** Filtering *)

Section strategy.
Context `{BigNumberJs} (self : BaseStrategy).

(** The test of [filterRoutes] on one route. *)
Definition keep_route (actualBalances : gmap string Z) (route : StrategyRoute)
    : result bool :=
  let balance := balance_or_0 actualBalances (sr_origin route) in
  if balance <? sr_amount route then Ok false
  else
    match tokensByChainName self ≫= map_get (sr_origin route) with
    | None => Ok true
    | Some token =>
        bridgeConfig ← getBridgeConfig (bridgeConfigs self)
                         (sr_origin route) (sr_destination route);
        match bc_bridgeMinAcceptedAmount bridgeConfig with
        | None => Ok true
        | Some configured =>
            minAmount ← normalizeConfiguredAmount configured token;
            Ok (negb (sr_amount route <? minAmount))
        end
    end.

Definition filterRoutes (routes : list StrategyRoute) (actualBalances : gmap string Z)
    : result (list StrategyRoute) :=
  filterM (keep_route actualBalances) routes.

(** ** The main method *)

(** Both strategies share the steps after the surpluses have been ordered. *)
Definition proposeRoutes (surpluses deficits : list Delta) (actualBalances : gmap string Z)
    : result (list StrategyRoute) :=
  routes ← matchLoop (bridgeConfigs self) surpluses deficits;
  filterRoutes routes actualBalances.

Definition getRebalancingRoutes
    (getCategorizedBalances :
       gmap string Z -> list Route -> list StrategyRoute -> result (list Delta * list Delta))
    (rawBalances : gmap string Z) (inflightContext : option InflightContext)
    : result (list StrategyRoute) :=
  let pendingRebalances :=
    default [] (pendingRebalances <$> inflightContext) in
  let pendingTransfers :=
    default [] (pendingTransfers <$> inflightContext) in
  let proposedRebalances :=
    default [] (inflightContext ≫= proposedRebalances) in
  _ ← validateRawBalances (chains self) rawBalances;
  let effectiveBalances := reserveCollateral rawBalances pendingTransfers in
  '(surpluses, deficits) ←
    getCategorizedBalances effectiveBalances pendingRebalances proposedRebalances;
  let totalSurplus := sum_by d_amount surpluses in
  let totalDeficit := sum_by d_amount deficits in
  deficits ← scaleDeficits totalSurplus totalDeficit deficits;
  proposeRoutes (js_sort by_amount_desc surpluses) (js_sort by_amount_desc deficits)
    rawBalances.

End strategy.

(** ** Facts on matching *)

(** What a list of deltas holds for one chain, and what routes move for one chain. *)
Definition delta_of (c : string) (ds : list Delta) : Z :=
  sum_by (fun d => if decide (d_chain d = c) then d_amount d else 0) ds.
Definition flow_out (c : string) (routes : list StrategyRoute) : Z :=
  sum_by (fun r => if decide (sr_origin r = c) then sr_amount r else 0) routes.
Definition flow_in (c : string) (routes : list StrategyRoute) : Z :=
  sum_by (fun r => if decide (sr_destination r = c) then sr_amount r else 0) routes.
Definition total_flow (routes : list StrategyRoute) : Z := sum_by sr_amount routes.

Notation nonneg ds := (Forall (fun d => 0 <= d_amount d) ds).

Lemma transfer_amount_min s d : transfer_amount s d = Z.min (d_amount s) (d_amount d).
Proof. unfold transfer_amount. destruct (Z.ltb_spec (d_amount d) (d_amount s)); lia. Qed.

Lemma shift_if_done_nonneg s t ss :
  nonneg ss -> nonneg (shift_if_done s t ss).
Proof.
  intros H. unfold shift_if_done. destruct (Z.leb_spec (d_amount s - t) 0); [done|].
  constructor; [cbn; lia|done].
Qed.

Lemma shift_if_done_total s t ss :
  t <= d_amount s ->
  sum_by d_amount (shift_if_done s t ss) = d_amount s - t + sum_by d_amount ss.
Proof.
  intros H. unfold shift_if_done. destruct (Z.leb_spec (d_amount s - t) 0); [lia|].
  rewrite sum_by_cons. cbn. lia.
Qed.

Lemma shift_if_done_delta_of c s t ss :
  t <= d_amount s ->
  delta_of c (s :: ss) =
    (if decide (d_chain s = c) then t else 0) + delta_of c (shift_if_done s t ss).
Proof.
  intros H. unfold delta_of, shift_if_done. rewrite sum_by_cons.
  destruct (Z.leb_spec (d_amount s - t) 0); [case_decide; lia|].
  rewrite sum_by_cons. cbn. case_decide; lia.
Qed.

Lemma emit_route_flows bridges s d t routes c :
  0 <= t -> emit_route bridges s d t = Ok routes ->
  flow_out c routes = (if decide (d_chain s = c) then t else 0) /\
  flow_in c routes = (if decide (d_chain d = c) then t else 0) /\
  total_flow routes = t /\ (length routes <= 1)%nat.
Proof.
  intros Ht. unfold emit_route. destruct (Z.ltb_spec 0 t).
  - intros (cfg & _ & [= <-])%result_bind_ok. unfold flow_out, flow_in, total_flow.
    rewrite !sum_by_cons, !sum_by_nil. cbn. repeat case_decide; split_and!; lia.
  - intros [= <-]. assert (t = 0) as -> by lia.
    repeat case_decide; split_and!; cbn; (done || lia).
Qed.

Lemma flow_out_app c r1 r2 : flow_out c (r1 ++ r2) = flow_out c r1 + flow_out c r2.
Proof. apply sum_by_app. Qed.
Lemma flow_in_app c r1 r2 : flow_in c (r1 ++ r2) = flow_in c r1 + flow_in c r2.
Proof. apply sum_by_app. Qed.
Lemma total_flow_app r1 r2 : total_flow (r1 ++ r2) = total_flow r1 + total_flow r2.
Proof. apply sum_by_app. Qed.

(** The equation of one turn, and its inversion. *)
Lemma matchLoop_cons_ok bridges s d ss ds routes :
  matchLoop bridges (s :: ss) (d :: ds) = Ok routes ->
  let t := transfer_amount s d in
  exists r1 r2, emit_route bridges s d t = Ok r1 /\
    matchLoop bridges (shift_if_done s t ss) (shift_if_done d t ds) = Ok r2 /\
    routes = r1 ++ r2.
Proof.
  simp matchLoop. cbn zeta. intros (r1 & H1 & (r2 & H2 & [= <-])%result_bind_ok)%result_bind_ok.
  by exists r1, r2.
Qed.

(** Induction on the turns of the loop. *)
Lemma matchLoop_ind (P : list Delta -> list Delta -> Prop) :
  (forall ds, P [] ds) -> (forall s ss, P (s :: ss) []) ->
  (forall s ss d ds, let t := transfer_amount s d in
     P (shift_if_done s t ss) (shift_if_done d t ds) -> P (s :: ss) (d :: ds)) ->
  forall ss ds, P ss ds.
Proof.
  intros H1 H2 H3 ss ds.
  remember (length ss + length ds)%nat as n eqn:Hn. revert ss ds Hn.
  induction (lt_wf n) as [n _ IH]; intros [|s ss] [|d ds] Hn; [done..|].
  apply H3. eapply IH; [|done]. subst n. apply shift_progress.
Qed.

Lemma delta_of_nonneg c ds : nonneg ds -> 0 <= delta_of c ds.
Proof.
  intros H. apply sum_by_nonneg. eapply Forall_impl; [exact H|].
  intros d Hd. cbn in *. case_decide; lia.
Qed.

Lemma delta_of_total_zero c ds : nonneg ds -> sum_by d_amount ds <= 0 -> delta_of c ds = 0.
Proof.
  unfold delta_of. induction 1 as [|d ds Hd Hds IH]; [done|].
  rewrite !sum_by_cons. pose proof (sum_by_nonneg d_amount ds Hds).
  intros. rewrite IH by lia. case_decide; lia.
Qed.

(** The conservation laws of the greedy matching, chain by chain and in total. *)
Lemma matchLoop_flows bridges ss ds routes :
  nonneg ss -> nonneg ds -> matchLoop bridges ss ds = Ok routes ->
  (forall c, 0 <= flow_out c routes <= delta_of c ss) /\
  (forall c, 0 <= flow_in c routes <= delta_of c ds) /\
  total_flow routes = Z.min (sum_by d_amount ss) (sum_by d_amount ds) /\
  (sum_by d_amount ds <= sum_by d_amount ss -> forall c, flow_in c routes = delta_of c ds) /\
  (sum_by d_amount ss <= sum_by d_amount ds -> forall c, flow_out c routes = delta_of c ss).
Proof.
  revert routes. pattern ss, ds. apply matchLoop_ind; clear ss ds.
  - intros ds routes _ Hds H. simp matchLoop in H. injection H as <-.
    pose proof (sum_by_nonneg d_amount ds Hds).
    change (total_flow []) with 0. change (sum_by d_amount []) with 0.
    split_and!; [done|intros c|lia|intros Hle c|done];
      change (flow_in c []) with 0; pose proof (delta_of_nonneg c ds Hds); [lia|].
    by rewrite delta_of_total_zero.
  - intros s ss routes Hss _ H. simp matchLoop in H. injection H as <-.
    pose proof (sum_by_nonneg d_amount _ Hss).
    change (total_flow []) with 0. change (sum_by d_amount []) with 0.
    split_and!; [intros c|done|lia|done|intros Hle c];
      change (flow_out c []) with 0; pose proof (delta_of_nonneg c _ Hss); [lia|].
    by rewrite delta_of_total_zero.
  - intros s ss d ds t IH routes [Hs Hss]%Forall_cons [Hd Hds]%Forall_cons Hr.
    apply matchLoop_cons_ok in Hr as (r1 & r2 & Hr1 & Hr2 & ->). fold t in Hr1, Hr2.
    assert (0 <= t <= d_amount s /\ t <= d_amount d) as (? & ?)
      by (subst t; rewrite transfer_amount_min; lia).
    specialize (IH _ (shift_if_done_nonneg s t ss Hss) (shift_if_done_nonneg d t ds Hds) Hr2)
      as (IH1 & IH2 & IH3 & IH4 & IH5).
    rewrite !shift_if_done_total in IH3, IH4, IH5 by lia.
    rewrite !sum_by_cons, total_flow_app.
    pose proof (fun c => emit_route_flows bridges s d t r1 c ltac:(lia) Hr1) as He.
    destruct (He "") as (_ & _ & He3 & _).
    split_and!; [intros c|intros c|lia|intros Hle c|intros Hle c];
      rewrite ?flow_out_app, ?flow_in_app; destruct (He c) as (Ho & Hi & _);
      rewrite ?Ho, ?Hi, (shift_if_done_delta_of c _ t) by lia.
    + specialize (IH1 c). repeat case_decide; lia.
    + specialize (IH2 c). repeat case_decide; lia.
    + rewrite IH4 by lia. done.
    + rewrite IH5 by lia. done.
Qed.

(** Every route moves a positive amount from a surplus chain to a deficit chain, using the
    bridge configured for that pair; there are fewer routes than deltas. *)
Lemma matchLoop_routes bridges ss ds routes :
  matchLoop bridges ss ds = Ok routes ->
  Forall (fun r => 0 < sr_amount r /\ sr_origin r ∈ d_chain <$> ss /\
    sr_destination r ∈ d_chain <$> ds /\
    exists cfg, getBridgeConfig bridges (sr_origin r) (sr_destination r) = Ok cfg /\
      r = createStrategyRoute cfg (sr_origin r) (sr_destination r) (sr_amount r)) routes /\
  (length routes <= pred (length ss + length ds))%nat.
Proof.
  assert (forall s t rest c, c ∈ d_chain <$> shift_if_done s t rest ->
    c ∈ d_chain <$> (s :: rest)) as Hsub.
  { intros s t rest c. unfold shift_if_done. case_match; set_solver. }
  revert routes. pattern ss, ds. apply matchLoop_ind; clear ss ds.
  - intros ds routes H. simp matchLoop in H. injection H as <-. cbn. split; [constructor|lia].
  - intros s ss routes H. simp matchLoop in H. injection H as <-. cbn. split; [constructor|lia].
  - intros s ss d ds t IH routes Hr.
    apply matchLoop_cons_ok in Hr as (r1 & r2 & Hr1 & Hr2 & ->). fold t in Hr1, Hr2.
    destruct (IH _ Hr2) as [IH1 IH2].
    assert (Forall (fun r => 0 < sr_amount r /\ sr_origin r = d_chain s /\
        sr_destination r = d_chain d /\
        exists cfg, getBridgeConfig bridges (sr_origin r) (sr_destination r) = Ok cfg /\
          r = createStrategyRoute cfg (sr_origin r) (sr_destination r) (sr_amount r)) r1 /\
      (length r1 <= 1)%nat) as [H1 Hlen].
    { unfold emit_route in Hr1. destruct (Z.ltb_spec 0 t); [|injection Hr1 as <-; split; [constructor|cbn; lia]].
      apply result_bind_ok in Hr1 as (cfg & Hcfg & [= <-]). split; [|done].
      repeat constructor; cbn; eauto. }
    split.
    + apply Forall_app. split.
      * eapply Forall_impl; [exact H1|]. cbn. intros r (? & -> & -> & ?).
        split_and!; [done|set_solver|set_solver|done].
      * eapply Forall_impl; [exact IH1|]. cbn. intros r (? & ? & ? & ?).
        split_and!; [done|by eapply Hsub|by eapply Hsub|done].
    + rewrite length_app. pose proof (shift_progress s d ss ds) as Hp. fold t in Hp.
      cbn [length] in *. lia.
Qed.

(** The loop throws only when a surplus chain has no bridge configuration. *)
Lemma matchLoop_total bridges ss ds :
  Forall (fun s => d_chain s ∈ map_keys bridges) ss ->
  exists routes, matchLoop bridges ss ds = Ok routes.
Proof.
  pattern ss, ds. apply matchLoop_ind; clear ss ds.
  - intros ds _. simp matchLoop. eauto.
  - intros s ss _. simp matchLoop. eauto.
  - intros s ss d ds t IH [Hs Hss]%Forall_cons.
    simp matchLoop. fold t. cbn zeta.
    assert (exists r1, emit_route bridges s d t = Ok r1) as [r1 ->].
    { unfold emit_route. case_match; [|eauto].
      destruct (getBridgeConfig_ok bridges (d_chain s) (d_chain d) Hs) as [cfg ->].
      cbn. eauto. }
    destruct IH as [r2 Hr2].
    { unfold shift_if_done. case_match; [done|by constructor]. }
    cbn. rewrite Hr2. cbn. eauto.
Qed.

(** ** Facts on scaling *)

Lemma scaleDeficits_ok ts td ds ds' :
  0 <= ts -> nonneg ds -> td = sum_by d_amount ds -> scaleDeficits ts td ds = Ok ds' ->
  nonneg ds' /\ d_chain <$> ds' = d_chain <$> ds /\
  (forall c, delta_of c ds' <= delta_of c ds) /\
  sum_by d_amount ds' <= ts /\
  (td <= ts -> ds' = ds).
Proof.
  intros Hts Hds -> H. unfold scaleDeficits in H.
  destruct (Z.ltb_spec ts (sum_by d_amount ds)) as [Hlt|Hge].
  2:{ injection H as <-. split_and!; done || lia. }
  set (td := sum_by d_amount ds) in *.
  assert (0 < td) as Htd by lia.
  apply mapM_result_ok_inv in H.
  assert (Forall2 (fun d d' => d_chain d' = d_chain d /\
    d_amount d' = d_amount d * ts / td /\ 0 <= d_amount d) ds ds') as HF.
  { clear Hlt. clearbody td. revert Hds. induction H as [|d d' ds ds' Hd _ IH]; [constructor|].
    intros [Hd0 Hds]%Forall_cons. constructor; [|by apply IH].
    unfold bigint_div in Hd. rewrite (proj2 (Z.eqb_neq td 0)) in Hd by lia.
    injection Hd as <-. cbn. rewrite Z.quot_div_nonneg by nia. done. }
  clear H.
  assert (forall x, 0 <= x -> 0 <= x * ts / td <= x) as Hsc.
  { intros x Hx. split; [apply Z.div_pos; nia|]. apply Z.div_le_upper_bound; nia. }
  split_and!; [| | | |lia].
  - clear Hds Hlt. clearbody td. induction HF as [|d d' ds ds' (_ & Ha & Hd)]; constructor;
      [|done]. rewrite Ha. by apply Hsc.
  - clear Hds Hlt. clearbody td. induction HF as [|d d' ds ds' (Ha & _)]; [done|].
    by rewrite !fmap_cons, Ha, IHHF.
  - intros c. clear Hds Hlt. clearbody td. unfold delta_of.
    induction HF as [|d d' ds ds' (Hc & Ha & Hd)]; [done|].
    rewrite !sum_by_cons, Hc, Ha. case_decide; pose proof (Hsc _ Hd); lia.
  - enough (sum_by d_amount ds' * td <= td * ts) by nia.
    replace (td * ts) with (sum_by (fun d => d_amount d * ts) ds)
      by (rewrite sum_by_mul; subst td; lia).
    clear Hds Hlt. clearbody td.
    induction HF as [|d d' ds ds' (_ & Ha & Hd)]; [by rewrite !sum_by_nil|].
    rewrite !sum_by_cons, Ha. pose proof (Z.mul_div_le (d_amount d * ts) td Htd). nia.
Qed.

Lemma scaleDeficits_total ts td ds :
  0 <= ts -> exists ds', scaleDeficits ts td ds = Ok ds'.
Proof.
  intros Hts. unfold scaleDeficits. destruct (Z.ltb_spec ts td); [|eauto].
  apply mapM_result_total. intros d _. unfold bigint_div.
  rewrite (proj2 (Z.eqb_neq td 0)) by lia. cbn. eauto.
Qed.

(** ** Facts on simulated balances *)

(** Case analysis on which chain a balance is read at. *)
Ltac chain_cases :=
  repeat case_decide;
  repeat match goal with E : _ = ?c |- _ => is_var c; rewrite E in * end;
  first [lia | congruence].

Lemma balance_or_0_insert m c v c' :
  balance_or_0 (<[c:=v]> m) c' = if decide (c = c') then v else balance_or_0 m c'.
Proof. unfold balance_or_0. rewrite lookup_insert. by case_decide. Qed.

Lemma reserveCollateral_balance m ts c :
  balance_or_0 (reserveCollateral m ts) c =
    balance_or_0 m c - sum_by (fun t => if decide (r_destination t = c) then r_amount t else 0) ts.
Proof.
  unfold reserveCollateral. revert m. induction ts as [|t ts IH]; intros m; cbn; [rewrite sum_by_nil; lia|].
  rewrite IH, sum_by_cons, balance_or_0_insert. case_decide; subst; lia.
Qed.

(** What one pending rebalance will still change on chain [c]. *)
Definition pending_effect (c : string) (r : Route) : Z :=
  if bool_decide (r_executionMethod r = Some inventory) then
    (if decide (r_destination r = c)
     then Z.max 0 (r_amount r - default 0 (r_deliveredAmount r)
                     - default 0 (r_awaitingDeliveryAmount r)) else 0) -
    (if decide (r_origin r = c)
     then Z.max 0 (r_amount r - default 0 (r_deliveredAmount r)) else 0)
  else if decide (r_destination r = c) then r_amount r else 0.

Lemma simulatePending_step_balance m r c :
  balance_or_0 (simulatePending_step m r) c = balance_or_0 m c + pending_effect c r.
Proof.
  unfold simulatePending_step, pending_effect. case_bool_decide.
  - destruct (Z.ltb_spec 0 (r_amount r - default 0 (r_deliveredAmount r)
      - default 0 (r_awaitingDeliveryAmount r)));
    destruct (Z.ltb_spec 0 (r_amount r - default 0 (r_deliveredAmount r)));
    rewrite ?balance_or_0_insert; chain_cases.
  - rewrite balance_or_0_insert. chain_cases.
Qed.

Lemma simulatePendingRebalances_balance m rs c :
  balance_or_0 (simulatePendingRebalances m rs) c =
    balance_or_0 m c + sum_by (pending_effect c) rs.
Proof.
  unfold simulatePendingRebalances. revert m. induction rs as [|r rs IH]; intros m; cbn; [rewrite sum_by_nil; lia|].
  rewrite IH, sum_by_cons, simulatePending_step_balance. lia.
Qed.

Definition proposed_effect (c : string) (r : Route) : Z :=
  (if decide (r_destination r = c) then r_amount r else 0) -
  (if decide (r_origin r = c) then r_amount r else 0).

Lemma simulateProposedRebalances_balance m rs c :
  balance_or_0 (simulateProposedRebalances m rs) c =
    balance_or_0 m c + sum_by (proposed_effect c) rs.
Proof.
  unfold simulateProposedRebalances. revert m. induction rs as [|r rs IH]; intros m; cbn; [rewrite sum_by_nil; lia|].
  rewrite IH, sum_by_cons. unfold simulateProposed_step, proposed_effect.
  rewrite !balance_or_0_insert. chain_cases.
Qed.

(** Chains that had a balance keep one. *)
Lemma simulated_dom m pending proposed transfers c :
  is_Some (m !! c) ->
  is_Some (simulateProposedRebalances (simulatePendingRebalances
    (reserveCollateral m transfers) pending) proposed !! c).
Proof.
  assert (forall {A} (f : gmap string Z -> A -> gmap string Z) l (m : gmap string Z),
    (forall m a, is_Some (m !! c) -> is_Some (f m a !! c)) ->
    is_Some (m !! c) -> is_Some (foldl f m l !! c)) as Hfold.
  { intros A f l. induction l as [|a l IH]; intros m' Hf Hm; cbn; [done|].
    apply IH; [done|by apply Hf]. }
  assert (forall k v (m : gmap string Z), is_Some (m !! c) -> is_Some (<[k:=v]> m !! c)) as Hins.
  { intros k v m' Hm. rewrite lookup_insert. case_decide; eauto. }
  intros Hm. repeat apply Hfold; try done; intros; unfold simulateProposed_step,
    simulatePending_step; repeat case_match; auto.
Qed.

(** ** Validation *)

Lemma validateRawBalances_loop_ok chains m :
  validateRawBalances_loop chains m = Ok () <->
  Forall (fun c => exists b, m !! c = Some b /\ 0 <= b) chains.
Proof.
  induction chains as [|c chains IH]; cbn; [by split; [constructor|]|].
  rewrite Forall_cons. destruct (m !! c) as [b|]; [|naive_solver].
  destruct (Z.ltb_spec b 0); [split; [done|]; intros [(? & [= <-] & ?) _]; lia|].
  rewrite IH. naive_solver.
Qed.

(** Validation passes exactly when the balances are defined on the configured chains and
    nowhere else, and none is negative. *)
Lemma validateRawBalances_ok chains m :
  NoDup chains ->
  validateRawBalances chains m = Ok () <->
  dom m = list_to_set chains /\ forall c b, m !! c = Some b -> 0 <= b.
Proof.
  intros Hnd. unfold validateRawBalances.
  assert (size (list_to_set chains : gset string) = length chains) as Hsz
    by by apply size_list_to_set.
  destruct (Nat.eqb_spec (length chains) (size m)) as [Hlen|Hlen]; cbn.
  - rewrite validateRawBalances_loop_ok, Forall_forall. split.
    + intros H. assert (list_to_set chains ⊆ dom m) as Hsub.
      { intros c Hc%elem_of_list_to_set. apply elem_of_dom.
        destruct (H c Hc) as (b & -> & _). eauto. }
      assert (dom m = list_to_set chains) as Hdom.
      { symmetry. apply set_subseteq_size_eq; [done|]. rewrite size_dom. lia. }
      split; [done|]. intros c b Hb.
      assert (c ∈ chains) as Hc.
      { apply (elem_of_list_to_set (C:=gset string)). rewrite <- Hdom. by apply elem_of_dom. }
      destruct (H c Hc) as (b' & Hb' & ?). congruence.
    + intros [Hdom Hb] c Hc.
      assert (c ∈ dom m) as [b Hcb]%elem_of_dom by (rewrite Hdom; by apply elem_of_list_to_set).
      eauto.
  - split; [done|]. intros [Hdom _]. rewrite <- size_dom, Hdom in Hlen. lia.
Qed.

(** ** What a concrete strategy promises to the base class *)

(** A configured chain is in at most one of the two lists, at most once. *)
Record categorized (chains : list string) (surpluses deficits : list Delta) : Prop := {
  cat_chains : forall c, c ∈ (d_chain <$> surpluses) ++ (d_chain <$> deficits) -> c ∈ chains;
  cat_NoDup : NoDup ((d_chain <$> surpluses) ++ (d_chain <$> deficits))
}.

Notation categorizer :=
  (gmap string Z -> list Route -> list StrategyRoute -> result (list Delta * list Delta)).

(** [pre] is what a strategy asks of the balances and inflight routes it is given to
    promise that no amount is negative. *)
Class Categorizer (self : BaseStrategy) (getCategorizedBalances : categorizer)
    (pre : gmap string Z -> list Route -> list StrategyRoute -> Prop) : Prop := {
  categorizer_shape balances pending proposed surpluses deficits :
    getCategorizedBalances balances pending proposed = Ok (surpluses, deficits) ->
    categorized (chains self) surpluses deficits;
  categorizer_nonneg balances pending proposed surpluses deficits :
    pre balances pending proposed ->
    getCategorizedBalances balances pending proposed = Ok (surpluses, deficits) ->
    nonneg surpluses /\ nonneg deficits
}.

(** The precondition at the arguments [getRebalancingRoutes] computes. *)
Definition admissible (pre : gmap string Z -> list Route -> list StrategyRoute -> Prop)
    (raw : gmap string Z) (ctx : option InflightContext) : Prop :=
  pre (reserveCollateral raw (default [] (pendingTransfers <$> ctx)))
      (default [] (pendingRebalances <$> ctx))
      (default [] (ctx ≫= proposedRebalances)).

(** A route a strategy may return: it moves a positive amount the origin really has
    between two distinct configured chains, along the configured bridge, and reaches the
    bridge's minimum. *)
Record route_safe `{BigNumberJs} (self : BaseStrategy) (raw : gmap string Z)
    (r : StrategyRoute) : Prop := {
  rs_positive : 0 < sr_amount r;
  rs_covered : sr_amount r <= balance_or_0 raw (sr_origin r);
  rs_distinct : sr_origin r <> sr_destination r;
  rs_origin : sr_origin r ∈ chains self;
  rs_destination : sr_destination r ∈ chains self;
  rs_bridge : exists cfg,
    getBridgeConfig (bridgeConfigs self) (sr_origin r) (sr_destination r) = Ok cfg /\
    r = createStrategyRoute cfg (sr_origin r) (sr_destination r) (sr_amount r);
  rs_minimum : forall token cfg a,
    tokensByChainName self ≫= map_get (sr_origin r) = Some token ->
    getBridgeConfig (bridgeConfigs self) (sr_origin r) (sr_destination r) = Ok cfg ->
    bc_bridgeMinAcceptedAmount cfg = Some a ->
    exists m, normalizeConfiguredAmount a token = Ok m /\ m <= sr_amount r
}.

Section safety.
Context `{BigNumberJs} (self : BaseStrategy).

Lemma keep_route_true raw r :
  keep_route self raw r = Ok true ->
  sr_amount r <= balance_or_0 raw (sr_origin r) /\
  (forall token cfg a, tokensByChainName self ≫= map_get (sr_origin r) = Some token ->
     getBridgeConfig (bridgeConfigs self) (sr_origin r) (sr_destination r) = Ok cfg ->
     bc_bridgeMinAcceptedAmount cfg = Some a ->
     exists m, normalizeConfiguredAmount a token = Ok m /\ m <= sr_amount r).
Proof.
  unfold keep_route. destruct (Z.ltb_spec (balance_or_0 raw (sr_origin r)) (sr_amount r));
    [done|]. intros Hk. split; [done|]. intros token cfg a Htok Hcfg Ha.
  rewrite Htok, Hcfg in Hk. cbn in Hk. rewrite Ha in Hk.
  apply result_bind_ok in Hk as (m & Hm & [= Hk]). exists m. split; [done|]. lia.
Qed.

Lemma proposeRoutes_safe ss ds raw routes :
  categorized (chains self) ss ds -> proposeRoutes self ss ds raw = Ok routes ->
  Forall (route_safe self raw) routes /\ (length routes < length (chains self) \/ routes = [])%nat.
Proof.
  intros [Hch Hnd] (matched & Hm & Hf)%result_bind_ok.
  apply matchLoop_routes in Hm as [Hr Hlen]. split.
  - rewrite Forall_forall in Hr |- *. intros r Hin.
    apply (filterM_elem _ _ _ _ Hf) in Hin as [Hin Hk].
    apply keep_route_true in Hk as [Hbal Hmin].
    destruct (Hr r Hin) as (? & Ho & Hd & ?). constructor; try done.
    + intros Heq. apply NoDup_app in Hnd as (_ & Hdis & _).
      apply (Hdis _ Ho). by rewrite Heq.
    + apply Hch. set_solver.
    + apply Hch. set_solver.
  - apply filterM_sublist, sublist_length in Hf.
    assert (length ss + length ds <= length (chains self))%nat as Hle.
    { rewrite <- (length_fmap d_chain ss), <- (length_fmap d_chain ds), <- length_app.
      apply submseteq_length, NoDup_submseteq; [done|]. exact Hch. }
    destruct routes; [by right|left]. cbn in *. lia.
Qed.

Lemma categorized_perm cs ss ss' ds ds' :
  d_chain <$> ss' ≡ₚ d_chain <$> ss -> d_chain <$> ds' ≡ₚ d_chain <$> ds ->
  categorized cs ss ds -> categorized cs ss' ds'.
Proof. intros Hs Hd [Hc Hn]. constructor; [intros c|]; rewrite Hs, Hd; [apply Hc|done]. Qed.

End safety.

Lemma scaleDeficits_chains ts td ds ds' :
  scaleDeficits ts td ds = Ok ds' -> d_chain <$> ds' = d_chain <$> ds.
Proof.
  unfold scaleDeficits. destruct (ts <? td); [|by intros [= ->]].
  intros H%mapM_result_ok_inv. induction H as [|d d' ds ds' Hd _ IH]; [done|].
  apply result_bind_ok in Hd as (? & _ & [= <-]). by rewrite !fmap_cons, IH.
Qed.

Section facts.
Context `{BigNumberJs} (self : BaseStrategy) (cat : categorizer)
  (pre : gmap string Z -> list Route -> list StrategyRoute -> Prop) `{!Categorizer self cat pre}.

(** The categorized balances and the matched routes behind a successful call. *)
Lemma getRebalancingRoutes_ok_inv raw ctx routes :
  getRebalancingRoutes self cat raw ctx = Ok routes ->
  exists surpluses deficits scaled matched,
    validateRawBalances (chains self) raw = Ok () /\
    cat (reserveCollateral raw (default [] (pendingTransfers <$> ctx)))
        (default [] (pendingRebalances <$> ctx))
        (default [] (ctx ≫= proposedRebalances)) = Ok (surpluses, deficits) /\
    scaleDeficits (sum_by d_amount surpluses) (sum_by d_amount deficits) deficits = Ok scaled /\
    matchLoop (bridgeConfigs self) (js_sort by_amount_desc surpluses)
      (js_sort by_amount_desc scaled) = Ok matched /\
    filterRoutes self matched raw = Ok routes.
Proof.
  unfold getRebalancingRoutes, proposeRoutes.
  intros ([] & Hv & ([ss ds] & Hc & (sc & Hs & (m & Hm & Hf)%result_bind_ok)%result_bind_ok)
    %result_bind_ok)%result_bind_ok.
  by exists ss, ds, sc, m.
Qed.

Lemma js_sort_nonneg ds : nonneg ds -> nonneg (js_sort by_amount_desc ds).
Proof. by rewrite js_sort_perm. Qed.

Lemma getRebalancingRoutes_safe raw ctx routes :
  getRebalancingRoutes self cat raw ctx = Ok routes ->
  Forall (route_safe self raw) routes /\ (length routes < length (chains self) \/ routes = [])%nat.
Proof using Categorizer0.
  intros (ss & ds & sc & m & _ & Hcat & Hsc & Hm & Hf)%getRebalancingRoutes_ok_inv.
  eapply (proposeRoutes_safe self (js_sort by_amount_desc ss) (js_sort by_amount_desc sc)).
  - eapply categorized_perm; [..|exact (categorizer_shape _ _ _ _ _ Hcat)].
    + by rewrite js_sort_perm.
    + rewrite js_sort_perm. by rewrite (scaleDeficits_chains _ _ _ _ Hsc).
  - unfold proposeRoutes. by rewrite Hm.
Qed.

Lemma js_sort_delta_of c ds : delta_of c (js_sort by_amount_desc ds) = delta_of c ds.
Proof. apply sum_by_perm, js_sort_perm. Qed.

Lemma js_sort_total ds : sum_by d_amount (js_sort by_amount_desc ds) = sum_by d_amount ds.
Proof. apply sum_by_perm, js_sort_perm. Qed.

Lemma js_sort_chains ds c :
  c ∈ d_chain <$> js_sort by_amount_desc ds <-> c ∈ d_chain <$> ds.
Proof. by rewrite js_sort_perm. Qed.

Lemma flow_sublist (P : StrategyRoute -> Prop) `{forall r, Decision (P r)} r1 r2 :
  Forall (fun r => 0 <= sr_amount r) r2 -> r1 `sublist_of` r2 ->
  sum_by (fun r => if decide (P r) then sr_amount r else 0) r1 <=
  sum_by (fun r => if decide (P r) then sr_amount r else 0) r2.
Proof.
  intros Hr. apply sum_by_sublist. eapply Forall_impl; [exact Hr|].
  intros r Hr'. cbn in *. case_decide; lia.
Qed.

(** The matched routes, seen from the categorized balances. *)
Lemma getRebalancingRoutes_matched raw ctx routes :
  admissible pre raw ctx ->
  getRebalancingRoutes self cat raw ctx = Ok routes ->
  exists surpluses deficits matched,
    cat (reserveCollateral raw (default [] (pendingTransfers <$> ctx)))
        (default [] (pendingRebalances <$> ctx))
        (default [] (ctx ≫= proposedRebalances)) = Ok (surpluses, deficits) /\
    filterRoutes self matched raw = Ok routes /\
    Forall (fun r => 0 < sr_amount r /\ sr_origin r ∈ d_chain <$> surpluses /\
      sr_destination r ∈ d_chain <$> deficits /\
      exists cfg, getBridgeConfig (bridgeConfigs self) (sr_origin r) (sr_destination r) = Ok cfg /\
        r = createStrategyRoute cfg (sr_origin r) (sr_destination r) (sr_amount r)) matched /\
    (length matched <= pred (length surpluses + length deficits))%nat /\
    (forall c, flow_out c matched <= delta_of c surpluses /\
               flow_in c matched <= delta_of c deficits) /\
    total_flow matched <= sum_by d_amount surpluses /\
    (sum_by d_amount deficits <= sum_by d_amount surpluses ->
     total_flow matched = sum_by d_amount deficits /\
     forall c, flow_in c matched = delta_of c deficits).
Proof using Categorizer0.
  intros Hpre (ss & ds & sc & m & _ & Hcat & Hsc & Hm & Hf)%getRebalancingRoutes_ok_inv.
  destruct (categorizer_nonneg _ _ _ _ _ Hpre Hcat) as [Hss Hds].
  pose proof (scaleDeficits_ok _ _ _ _ (sum_by_nonneg _ _ Hss) Hds eq_refl Hsc)
    as (Hsc0 & Hscc & Hscd & Hsct & Hsce).
  pose proof (matchLoop_flows _ _ _ _ (js_sort_nonneg _ Hss) (js_sort_nonneg _ Hsc0) Hm)
    as (Ho & Hi & Ht & Hie & _).
  pose proof (matchLoop_routes _ _ _ _ Hm) as [Hr Hlen].
  exists ss, ds, m. rewrite !js_sort_total in Ht, Hie.
  assert (length (js_sort by_amount_desc ss) = length ss) as Hl1
    by apply Permutation_length, js_sort_perm.
  assert (length (js_sort by_amount_desc sc) = length ds) as Hl2.
  { rewrite (Permutation_length (js_sort_perm _ _)).
    rewrite <- (length_fmap d_chain), Hscc. apply length_fmap. }
  split_and!; [done|done| |lia| |lia|].
  - eapply Forall_impl; [exact Hr|]. intros r (? & Hor & Hde & ?).
    rewrite js_sort_chains in Hor, Hde. rewrite Hscc in Hde. done.
  - intros c. specialize (Ho c). specialize (Hi c). specialize (Hscd c).
    rewrite js_sort_delta_of in Ho, Hi. lia.
  - intros Hle. rewrite (Hsce Hle) in *. split; [lia|]. intros c.
    rewrite Hie by lia. apply js_sort_delta_of.
Qed.

End facts.
