(* ===== verification/Strategies.v ===== *)
(** The concrete strategies of rebalancer/src/strategy: [WeightedStrategy],
    [MinAmountStrategy], [CollateralDeficitStrategy], [CompositeStrategy] and
    [StrategyFactory]. Error messages that print amounts are abbreviated. *)
From stdpp Require Import base tactics list gmap strings pretty.
From Stdlib Require Import ZArith QArith Qround Lia Sorted.
From S2P Require Import Prelude JsMap Addresses Amount Token Route Config BaseStrategy.

#[local] Open Scope Z_scope.

(** [config[c]] of an object whose keys are the strategy's chains. *)
Definition config_of {A} (config : list (string * A)) (c : string) : result A :=
  match map_get c config with
  | Some a => Ok a
  | None => Throw (TypeError "Cannot read properties of undefined")
  end.

(** [balances[c]] used as an operand of [bigint] arithmetic. *)
Definition bigint_at (balances : gmap string Z) (c : string) : result Z :=
  match balances !! c with
  | Some b => Ok b
  | None => Throw (TypeError "Cannot mix BigInt and other types, use explicit conversions")
  end.

(** [this.chains.reduce((sum, chain) => sum + balances[chain], 0n)]. *)
Definition total_balance (chains : list string) (balances : gmap string Z) : result Z :=
  bs ← mapM (bigint_at balances) chains; Ok (sum_by id bs).

(** Pushes the delta of each chain on the list it belongs to, in order. *)
Inductive Category : Type := Surplus (amount : Z) | Deficit (amount : Z) | Balanced.

Fixpoint categorize (f : string -> result Category) (cs : list string)
    : result (list Delta * list Delta) :=
  match cs with
  | [] => Ok ([], [])
  | c :: cs' =>
      k ← f c;
      '(surpluses, deficits) ← categorize f cs';
      Ok match k with
         | Surplus a => ({| d_chain := c; d_amount := a |} :: surpluses, deficits)
         | Deficit a => (surpluses, {| d_chain := c; d_amount := a |} :: deficits)
         | Balanced => (surpluses, deficits)
         end
  end.

(** Both simulations, in the order every strategy runs them. *)
Definition simulate (rawBalances : gmap string Z) (pending : list Route)
    (proposed : list Route) : gmap string Z :=
  simulateProposedRebalances (simulatePendingRebalances rawBalances pending) proposed.

(** The [IStrategy] interface. *)
Record IStrategy : Type := {
  name : string;
  is_getRebalancingRoutes :
    gmap string Z -> option InflightContext -> result (list StrategyRoute)
}.

(** ** WeightedStrategy *)

Module Weighted.

Record WeightedStrategy : Type := {
  base : BaseStrategy;
  config : list (string * WeightedChainConfig);
  totalWeight : Z
}.

(** The constructor's loop over the chains. *)
Fixpoint sum_weights (config : list (string * WeightedChainConfig)) (totalWeight : Z)
    : result Z :=
  match config with
  | [] => Ok totalWeight
  | (chain, c) :: rest =>
      if weight c <? 0 then
        Throw (Error ("Weight (" +:+ pretty (weight c) +:+ ") must not be negative for "
                 +:+ chain))
      else if (tolerance c <? 0) || (100 <? tolerance c) then
        Throw (Error ("Tolerance (" +:+ pretty (tolerance c)
                 +:+ ") must be between 0 and 100 for " +:+ chain))
      else sum_weights rest (totalWeight + weight c)
  end.

Definition make (config : list (string * WeightedChainConfig))
    (bridgeConfigs : list (string * BridgeConfigWithOverride))
    (tokensByChainName : option (list (string * Token))) : result WeightedStrategy :=
  base ← make_BaseStrategy (map_keys config) bridgeConfigs tokensByChainName;
  totalWeight ← sum_weights config 0;
  if totalWeight <=? 0
  then Throw (Error "The total weight for all chains must be greater than 0")
  else Ok {| base := base; config := config; totalWeight := totalWeight |}.

(** One chain of [getCategorizedBalances]. *)
Definition categorize_chain (self : WeightedStrategy) (total : Z) (balances : gmap string Z)
    (chain : string) : result Category :=
  c ← config_of (config self) chain;
  target ← bigint_div (total * weight c) (totalWeight self);
  toleranceAmount ← bigint_div (target * tolerance c) 100;
  balance ← bigint_at balances chain;
  Ok (if balance <? target - toleranceAmount then Deficit (target - balance)
      else if target <? balance then Surplus (balance - target)
      else Balanced).

Definition getCategorizedBalances (self : WeightedStrategy) (rawBalances : gmap string Z)
    (pendingRebalances : list Route) (proposedRebalances : list StrategyRoute)
    : result (list Delta * list Delta) :=
  let simulatedBalances :=
    simulate rawBalances pendingRebalances (as_route <$> proposedRebalances) in
  total ← total_balance (chains (base self)) simulatedBalances;
  categorize (categorize_chain self total simulatedBalances) (chains (base self)).

End Weighted.

(** ** MinAmountStrategy *)

Module MinAmount.

Section min_amount.
Context `{BigNumberJs}.

Record MinAmountStrategy : Type := {
  base : BaseStrategy;
  config : list (string * MinAmountChainConfig)
}.

Definition getTokenByChainName (tokens : list (string * Token)) (chain : string)
    : result Token :=
  match map_get chain tokens with
  | Some t => Ok t
  | None => Throw (Error ("Token not found for chain " +:+ chain))
  end.

(** The canonical targets added up by [validateAmounts]. *)
Fixpoint total_targets (tokens : list (string * Token))
    (config : list (string * MinAmountChainConfig)) (acc : Z) : result Z :=
  match config with
  | [] => Ok acc
  | (chain, c) :: rest =>
      token ← getTokenByChainName tokens chain;
      t ← normalizeConfiguredAmount (ma_target c) token;
      total_targets tokens rest (acc + t)
  end.

Definition validateAmounts (totalCollateral : Z) (minAmountType : RebalancerMinAmountType)
    (tokens : list (string * Token)) (config : list (string * MinAmountChainConfig))
    : result unit :=
  match minAmountType, config with
  | Absolute, (chain0, _) :: _ =>
      _ ← getTokenByChainName tokens chain0;
      totalTargets ← total_targets tokens config 0;
      if totalCollateral <? totalTargets
      then Throw (Error "Consider reducing the targets as the sum is greater than sum of collaterals")
      else Ok ()
  | _, _ => Ok ()
  end.

(** The constructor's range checks. *)
Fixpoint check_ranges (config : list (string * MinAmountChainConfig)) : result unit :=
  match config with
  | [] => Ok ()
  | (chain, c) :: rest =>
      let zero := Some (inject_Z 0) in
      if bn_lt (bn_value (ma_target c)) (bn_value (ma_min c)) then
        Throw (Error ("Target must be greater than or equal to min for chain " +:+ chain))
      else if bn_lt (bn_value (ma_min c)) zero then
        Throw (Error ("Minimum amount cannot be negative for chain " +:+ chain))
      else if bn_lt (bn_value (ma_target c)) zero then
        Throw (Error ("Target amount cannot be negative for chain " +:+ chain))
      else check_ranges rest
  end.

Definition make (config : list (string * MinAmountChainConfig))
    (tokensByChainName : list (string * Token)) (initialTotalCollateral : Z)
    (bridgeConfigs : list (string * BridgeConfigWithOverride)) : result MinAmountStrategy :=
  base ← make_BaseStrategy (map_keys config) bridgeConfigs (Some tokensByChainName);
  minAmountType ←
    match config with
    | (_, c) :: _ => Ok (ma_type c)
    | [] => Throw (TypeError "Cannot read properties of undefined (reading 'minAmount')")
    end;
  _ ← validateAmounts initialTotalCollateral minAmountType tokensByChainName config;
  _ ← check_ranges config;
  Ok {| base := base; config := config |}.

(** [BigInt(BigNumber(total.toString()).times(v).toFixed(0, BigNumber.ROUND_FLOOR))]. *)
Definition times_floor (total : Z) (v : Numberish) : result Z :=
  match bn_value v with
  | Some q => Ok (Qfloor (inject_Z total * q))
  | None => Throw (SyntaxError "Cannot convert NaN to a BigInt")
  end.

(** The minimum and the target of one chain. *)
Definition chain_amounts (self : MinAmountStrategy) (totalCollateral : Z) (chain : string)
    (c : MinAmountChainConfig) : result (Z * Z) :=
  match ma_type c with
  | Absolute =>
      token ← getTokenByChainName (default [] (tokensByChainName (base self))) chain;
      minAmount ← normalizeConfiguredAmount (ma_min c) token;
      targetAmount ← normalizeConfiguredAmount (ma_target c) token;
      Ok (minAmount, targetAmount)
  | Relative =>
      minAmount ← times_floor totalCollateral (ma_min c);
      targetAmount ← times_floor totalCollateral (ma_target c);
      Ok (minAmount, targetAmount)
  end.

Definition categorize_chain (self : MinAmountStrategy) (totalCollateral : Z)
    (balances : gmap string Z) (chain : string) : result Category :=
  c ← config_of (config self) chain;
  '(minAmount, targetAmount) ← chain_amounts self totalCollateral chain c;
  balance ← bigint_at balances chain;
  Ok (if balance <? minAmount then Deficit (targetAmount - balance)
      else let surplus := balance - minAmount in
           if 0 <? surplus then Surplus surplus else Balanced).

Definition getCategorizedBalances (self : MinAmountStrategy) (rawBalances : gmap string Z)
    (pendingRebalances : list Route) (proposedRebalances : list StrategyRoute)
    : result (list Delta * list Delta) :=
  let simulatedBalances :=
    simulate rawBalances pendingRebalances (as_route <$> proposedRebalances) in
  totalCollateral ← total_balance (chains (base self)) simulatedBalances;
  categorize (categorize_chain self totalCollateral simulatedBalances) (chains (base self)).

End min_amount.
End MinAmount.

(** ** CollateralDeficitStrategy *)

Module CollateralDeficit.

Section collateral_deficit.
Context `{BigNumberJs}.

Record CollateralDeficitStrategy : Type := {
  base : BaseStrategy;
  config : list (string * Numberish)
}.

Definition make (config : list (string * Numberish)) (tokensByChainName : list (string * Token))
    (bridgeConfigs : list (string * BridgeConfigWithOverride))
    : result CollateralDeficitStrategy :=
  base ← make_BaseStrategy (map_keys config) bridgeConfigs (Some tokensByChainName);
  Ok {| base := base; config := config |}.

(** The test of [filterByConfiguredBridges] on one pending rebalance. *)
Definition uses_configured_bridge (self : CollateralDeficitStrategy) (rebalance : Route)
    : result bool :=
  bridgeConfig ← getBridgeConfig (bridgeConfigs (base self))
                   (r_origin rebalance) (r_destination rebalance);
  Ok match r_bridge rebalance, r_externalBridge rebalance with
     | Some (String _ _) as b, _ =>
         isMovableCollateralConfig bridgeConfig && bool_decide (bc_bridge bridgeConfig = b)
     | _, Some _ as b =>
         isInventoryConfig bridgeConfig && bool_decide (bc_externalBridge bridgeConfig = b)
     | _, None => true
     end.

Definition filterByConfiguredBridges (self : CollateralDeficitStrategy)
    (pendingRebalances : list Route) : result (list Route) :=
  filterM (uses_configured_bridge self) pendingRebalances.

Definition categorize_chain (self : CollateralDeficitStrategy) (balances : gmap string Z)
    (chain : string) : result Category :=
  token ← MinAmount.getTokenByChainName (default [] (tokensByChainName (base self))) chain;
  buffer ← config_of (config self) chain;
  bufferWei ← normalizeConfiguredAmount buffer token;
  Ok match balances !! chain with
     | None => Balanced
     | Some balance =>
         if balance <? 0 then Deficit (- balance + bufferWei)
         else if 0 <? balance then Surplus balance
         else Balanced
     end.

Definition getCategorizedBalances (self : CollateralDeficitStrategy)
    (rawBalances : gmap string Z) (pendingRebalances : list Route)
    (proposedRebalances : list StrategyRoute) : result (list Delta * list Delta) :=
  filteredPending ← filterByConfiguredBridges self pendingRebalances;
  filteredProposed ← filterByConfiguredBridges self (as_route <$> proposedRebalances);
  let simulatedBalances := simulate rawBalances filteredPending filteredProposed in
  categorize (categorize_chain self simulatedBalances) (chains (base self)).

(** [Map<ChainName, Set<ChainName>>], in insertion order. *)
Definition buildTransferOriginMap (pendingTransfers : list Route) (deficitChains : list string)
    : list (string * list string) :=
  foldl (fun originMap transfer =>
    if bool_decide (r_destination transfer ∈ deficitChains) then
      let origins := default [] (map_get (r_destination transfer) originMap) in
      map_set (r_destination transfer) (set_add (r_origin transfer) origins) originMap
    else originMap) [] pendingTransfers.

Definition allOriginChains (transferOriginMap : list (string * list string)) : list string :=
  set_of (concat (map_values transferOriginMap)).

(** The comparator of [sortSurplusesWithOriginPreference]. *)
Definition by_origin_then_amount (origins : list string) (a b : Delta) : Z :=
  let aIsOrigin := bool_decide (d_chain a ∈ origins) in
  let bIsOrigin := bool_decide (d_chain b ∈ origins) in
  if aIsOrigin && negb bIsOrigin then -1
  else if negb aIsOrigin && bIsOrigin then 1
  else by_amount_desc a b.

Definition sortSurplusesWithOriginPreference (surpluses : list Delta)
    (transferOriginMap : list (string * list string)) : list Delta :=
  js_sort (by_origin_then_amount (allOriginChains transferOriginMap)) surpluses.

(** The override of the main method. Proposed rebalances are not passed on. *)
Definition getRebalancingRoutes (self : CollateralDeficitStrategy)
    (rawBalances : gmap string Z) (inflightContext : option InflightContext)
    : result (list StrategyRoute) :=
  let pendingRebalances := default [] (pendingRebalances <$> inflightContext) in
  let pendingTransfers := default [] (pendingTransfers <$> inflightContext) in
  _ ← validateRawBalances (chains (base self)) rawBalances;
  let effectiveBalances := reserveCollateral rawBalances pendingTransfers in
  '(surpluses, deficits) ← getCategorizedBalances self effectiveBalances pendingRebalances [];
  let totalSurplus := sum_by d_amount surpluses in
  let totalDeficit := sum_by d_amount deficits in
  deficits ← scaleDeficits totalSurplus totalDeficit deficits;
  let deficitChains := set_of (d_chain <$> deficits) in
  let transferOriginMap := buildTransferOriginMap pendingTransfers deficitChains in
  proposeRoutes (base self) (sortSurplusesWithOriginPreference surpluses transferOriginMap)
    (js_sort by_amount_desc deficits) rawBalances.

End collateral_deficit.
End CollateralDeficit.

(** ** CompositeStrategy *)

Module Composite.

(** The loop over the sub-strategies; [accumulated] are the routes of the earlier ones. *)
Fixpoint run (strategies : list IStrategy) (rawBalances : gmap string Z)
    (inflightContext : option InflightContext) (accumulated : list StrategyRoute)
    : result (list StrategyRoute) :=
  match strategies with
  | [] => Ok accumulated
  | strategy :: rest =>
      let contextForStrategy := {|
        pendingTransfers := default [] (pendingTransfers <$> inflightContext);
        pendingRebalances := default [] (pendingRebalances <$> inflightContext);
        proposedRebalances := Some accumulated
      |} in
      routes ← is_getRebalancingRoutes strategy rawBalances (Some contextForStrategy);
      run rest rawBalances inflightContext (accumulated ++ routes)
  end.

Definition make (strategies : list IStrategy) : result IStrategy :=
  if (length strategies <? 2)%nat
  then Throw (Error "CompositeStrategy requires at least 2 sub-strategies")
  else Ok {|
    name := "composite";
    is_getRebalancingRoutes := fun raw ctx => run strategies raw ctx []
  |}.

End Composite.

(** ** StrategyFactory *)

Module StrategyFactory.

(** One entry of [extractBridgeConfigs]: only the field of the chain's own execution
    type is copied. *)
Definition extractBridgeConfig (config : BaseChainConfig) : BridgeConfigWithOverride :=
  let minAccepted :=
    default (NNum 0) (cc_bridgeMinAcceptedAmount config) in
  {|
    base_config :=
      match execution_type config with
      | Inventory => {|
          bc_executionType := Inventory;
          bc_bridge := None;
          bc_externalBridge := cc_externalBridge config;
          bc_bridgeMinAcceptedAmount := Some minAccepted
        |}
      | MovableCollateral => {|
          bc_executionType := MovableCollateral;
          bc_bridge := cc_bridge config;
          bc_externalBridge := None;
          bc_bridgeMinAcceptedAmount := Some minAccepted
        |}
      end;
    override := cc_override config
  |}.

Definition extractBridgeConfigs (strategyConfig : StrategyConfig)
    : list (string * BridgeConfigWithOverride) :=
  (fun '(chain, config) => (chain, extractBridgeConfig config))
    <$> strategy_chains strategyConfig.

Section factory.
Context `{BigNumberJs}.

(** The strategy-specific half of each chain's configuration. *)
Definition own_entries {A} (chains : list (string * (BaseChainConfig * A)))
    : list (string * A) := (fun '(c, (_, a)) => (c, a)) <$> chains.

Definition createSingleStrategy (strategyConfig : StrategyConfig)
    (tokensByChainName : list (string * Token)) (initialTotalCollateral : Z)
    : result IStrategy :=
  let bridgeConfigs := extractBridgeConfigs strategyConfig in
  match strategyConfig with
  | WeightedStrategySchema chains =>
      s ← Weighted.make (own_entries chains) bridgeConfigs (Some tokensByChainName);
      Ok {| name := "weighted";
            is_getRebalancingRoutes :=
              getRebalancingRoutes (Weighted.base s) (Weighted.getCategorizedBalances s) |}
  | MinAmountStrategySchema chains =>
      s ← MinAmount.make (own_entries chains) tokensByChainName initialTotalCollateral
            bridgeConfigs;
      Ok {| name := "minAmount";
            is_getRebalancingRoutes :=
              getRebalancingRoutes (MinAmount.base s) (MinAmount.getCategorizedBalances s) |}
  | CollateralDeficitStrategySchema chains =>
      s ← CollateralDeficit.make (own_entries chains) tokensByChainName bridgeConfigs;
      Ok {| name := "collateralDeficit";
            is_getRebalancingRoutes := CollateralDeficit.getRebalancingRoutes s |}
  end.

Definition createStrategy (strategyConfigs : list StrategyConfig)
    (tokensByChainName : list (string * Token)) (initialTotalCollateral : Z)
    : result IStrategy :=
  match strategyConfigs with
  | [] => Throw (Error "At least one strategy must be configured")
  | [strategyConfig] =>
      createSingleStrategy strategyConfig tokensByChainName initialTotalCollateral
  | _ =>
      subStrategies ← mapM (fun config =>
        createSingleStrategy config tokensByChainName initialTotalCollateral) strategyConfigs;
      Composite.make subStrategies
  end.

End factory.
End StrategyFactory.
