(* ===== verification/Samples.v ===== *)
(** Concrete inputs shared by the examples of the strategy files: a number library for whole
    numbers, three chains with their tokens, and small configurations. *)
From stdpp Require Import base tactics list gmap strings pretty.
From Stdlib Require Import ZArith QArith Qround String Ascii.
From S2P Require Import Prelude JsMap Amount Token Route Config BaseStrategy Strategies.

#[local] Open Scope Z_scope.

(** ** Numbers *)

(** Decimal digits, most significant first. *)
Fixpoint parse_digits (s : string) (acc : Z) : option Z :=
  match s with
  | EmptyString => Some acc
  | String c s' =>
      let n := Z.of_nat (nat_of_ascii c) - 48 in
      if (0 <=? n) && (n <=? 9) then parse_digits s' (acc * 10 + n) else None
  end.

(** The number library at whole numbers; anything else is NaN or rejected. *)
Definition whole_numbers : BigNumberJs := {|
  bn_value := fun v =>
    match v with
    | NNum q => Some q
    | NStr s => inject_Z <$> parse_digits s 0
    end;
  bn_to_string := fun v =>
    match v with
    | NNum q => pretty (Qfloor q)
    | NStr s => s
    end;
  parse_units := fun s decimals =>
    match parse_digits s 0 with
    | Some n => Ok (n * 10 ^ decimals)
    | None => Throw (Error "invalid decimal value")
    end
|}.

(** ** Tokens and chains *)

Definition sample_token (chain : string) : Token := {|
  tok_chainName := chain;
  tok_standard := EvmHypCollateral;
  tok_decimals := 0;
  tok_scale := None;
  tok_addressOrDenom := "0x01";
  tok_collateralAddressOrDenom := Some "0x02"
|}.

Definition sample_tokens : list (string * Token) :=
  [("a", sample_token "a"); ("b", sample_token "b"); ("c", sample_token "c")].

Definition sample_chain : BaseChainConfig := {|
  cc_bridge := Some "0xbridge";
  cc_executionType := None;
  cc_externalBridge := None;
  cc_bridgeMinAcceptedAmount := None;
  cc_override := None
|}.

Definition sample_bridge : BridgeConfigWithOverride :=
  StrategyFactory.extractBridgeConfig sample_chain.

Definition sample_bridges : list (string * BridgeConfigWithOverride) :=
  [("a", sample_bridge); ("b", sample_bridge); ("c", sample_bridge)].

Definition sample_weights : list (string * WeightedChainConfig) :=
  [("a", {| weight := 1; tolerance := 5 |}); ("b", {| weight := 1; tolerance := 5 |});
   ("c", {| weight := 2; tolerance := 0 |})].

Definition sample_minimums : list (string * MinAmountChainConfig) :=
  [("a", {| ma_min := NNum 20; ma_target := NNum 30; ma_type := Absolute |});
   ("b", {| ma_min := NNum 50; ma_target := NNum 60; ma_type := Absolute |})].

Definition sample_buffers : list (string * Numberish) :=
  [("a", NNum 5); ("b", NNum 5)].

Definition sample_strategies : list StrategyConfig :=
  [WeightedStrategySchema ((fun '(c, w) => (c, (sample_chain, w))) <$> sample_weights)].

Definition balances_of (l : list (string * Z)) : gmap string Z := list_to_map l.

(** A transfer or rebalance with nothing but its ends and its amount. *)
Definition plain_route (o d : string) (a : Z) : Route := {|
  r_origin := o; r_destination := d; r_amount := a; r_executionMethod := None;
  r_deliveredAmount := None; r_awaitingDeliveryAmount := None; r_bridge := None;
  r_externalBridge := None
|}.

(** The successful result of a computation known to succeed. *)
Definition the_ok {A} (r : result A) (H : is_ok r = true) : A :=
  match r as r' return is_ok r' = true -> A with
  | Ok a => fun _ => a
  | Throw _ => fun H => match Bool.diff_false_true H with end
  end H.

Lemma the_ok_eq {A} (r : result A) H : r = Ok (the_ok r H).
Proof. by destruct r. Qed.
