(* ===== verification/StrategyFacts.v ===== *)
(** Correctness of the concrete strategies: what each one promises to the base class, what
    its routes do to the balances, and the safety of everything [createStrategy] builds. *)
From stdpp Require Import base tactics list gmap strings pretty.
From Stdlib Require Import ZArith QArith Qround Lia Sorted.
From S2P Require Import Prelude JsMap Addresses Amount Token Route Config BaseStrategy.
From S2P Require Import Strategies Samples.

#[local] Open Scope Z_scope.

(** ** Categorizing chain by chain *)

(** What [f] contributes for one chain to each list. *)
Definition surplus_at (f : string -> result Category) (c : string) : Z :=
  match f c with Ok (Surplus a) => a | _ => 0 end.
Definition deficit_at (f : string -> result Category) (c : string) : Z :=
  match f c with Ok (Deficit a) => a | _ => 0 end.

Lemma categorize_cons_ok f c cs ss ds :
  categorize f (c :: cs) = Ok (ss, ds) ->
  exists k ss' ds', f c = Ok k /\ categorize f cs = Ok (ss', ds') /\
    ss = match k with Surplus a => [{| d_chain := c; d_amount := a |}] | _ => [] end ++ ss' /\
    ds = match k with Deficit a => [{| d_chain := c; d_amount := a |}] | _ => [] end ++ ds'.
Proof.
  cbn [categorize]. intros (k & Hk & ([ss' ds'] & Hr & [= Hs])%result_bind_ok)%result_bind_ok.
  exists k, ss', ds'. by destruct k; simplify_eq.
Qed.

(** The elements of both lists, and their sums. *)
Lemma categorize_spec f cs ss ds :
  categorize f cs = Ok (ss, ds) ->
  Forall (fun s => d_chain s ∈ cs /\ f (d_chain s) = Ok (Surplus (d_amount s))) ss /\
  Forall (fun d => d_chain d ∈ cs /\ f (d_chain d) = Ok (Deficit (d_amount d))) ds /\
  sum_by d_amount ss = sum_by (surplus_at f) cs /\
  sum_by d_amount ds = sum_by (deficit_at f) cs /\
  Forall (fun c => exists k, f c = Ok k) cs.
Proof.
  revert ss ds; induction cs as [|c cs IH]; intros ss ds.
  - intros [= <- <-]. repeat split; constructor.
  - intros (k & ss' & ds' & Hk & Hr & -> & ->)%categorize_cons_ok.
    destruct (IH _ _ Hr) as (H1 & H2 & H3 & H4 & H5).
    assert (surplus_at f c = match k with Surplus a => a | _ => 0 end /\
      deficit_at f c = match k with Deficit a => a | _ => 0 end) as [Es Ed]
      by (unfold surplus_at, deficit_at; by rewrite Hk).
    rewrite !sum_by_app, !sum_by_cons, H3, H4, Es, Ed.
    assert (forall (P : Delta -> Prop) l, Forall (fun s => d_chain s ∈ cs /\ P s) l ->
      Forall (fun s => d_chain s ∈ c :: cs /\ P s) l) as Hw.
    { intros P l Hl. eapply Forall_impl; [exact Hl|]. cbn. set_solver. }
    split_and!; [| | | |constructor; [eauto|done]];
      destruct k; cbn [app]; rewrite ?sum_by_cons, ?sum_by_nil; cbn [d_amount]; try lia;
      try (constructor; [cbn; split; [set_solver|done]|]); by apply Hw.
Qed.

Lemma categorize_NoDup f cs ss ds :
  NoDup cs -> categorize f cs = Ok (ss, ds) -> categorized cs ss ds.
Proof.
  intros Hnd H. constructor.
  - apply categorize_spec in H as (H1 & H2 & _). rewrite Forall_forall in H1, H2.
    intros c [(s & -> & Hs)%list_elem_of_fmap|(d & -> & Hd)%list_elem_of_fmap]%elem_of_app;
      [by apply H1|by apply H2].
  - revert ss ds H. induction Hnd as [|c cs Hc Hnd IH]; intros ss ds.
    + intros [= <- <-]. constructor.
    + intros (k & ss' & ds' & Hk & Hr & -> & ->)%categorize_cons_ok.
      specialize (IH _ _ Hr). apply categorize_spec in Hr as (H1 & H2 & _).
      rewrite Forall_forall in H1, H2.
      assert (c ∉ (d_chain <$> ss') ++ (d_chain <$> ds')) as Hn.
      { intros [(s & -> & Hs)%list_elem_of_fmap|(d & -> & Hd)%list_elem_of_fmap]%elem_of_app;
          apply Hc; [by apply H1|by apply H2]. }
      destruct k; cbn [app fmap list_fmap d_chain]; [by constructor| |done].
      rewrite <- Permutation_middle. by constructor.
Qed.

(** Read at one chain, the lists are what [f] says of it. *)
Lemma categorize_delta_of f cs ss ds c :
  NoDup cs -> c ∈ cs -> categorize f cs = Ok (ss, ds) ->
  delta_of c ss = surplus_at f c /\ delta_of c ds = deficit_at f c.
Proof.
  intros Hnd. revert ss ds. induction Hnd as [|c' cs Hc Hnd IH]; intros ss ds; [set_solver|].
  intros Hin (k & ss' & ds' & Hk & Hr & -> & ->)%categorize_cons_ok.
  unfold delta_of. rewrite !sum_by_app. fold (delta_of c ss') (delta_of c ds').
  destruct (decide (c = c')) as [->|Hne].
  - assert (delta_of c' ss' = 0 /\ delta_of c' ds' = 0) as [-> ->].
    { apply categorize_spec in Hr as (H1 & H2 & _). unfold delta_of.
      rewrite Forall_forall in H1, H2.
      split; (rewrite (sum_by_ext _ (fun _ => 0 * 0)); [rewrite sum_by_mul; lia|]);
        intros s Hs; (rewrite decide_False; [done|]); intros <-; apply Hc;
        [by apply H1|by apply H2]. }
    unfold surplus_at, deficit_at. rewrite Hk.
    destruct k; rewrite ?sum_by_cons, ?sum_by_nil; cbn; rewrite ?decide_True by done; lia.
  - destruct (IH ss' ds' ltac:(set_solver) Hr) as [-> ->].
    destruct k; rewrite ?sum_by_cons, ?sum_by_nil; cbn; rewrite ?decide_False by done; lia.
Qed.

Lemma categorize_total f cs :
  (forall c, c ∈ cs -> exists k, f c = Ok k) -> exists ss ds, categorize f cs = Ok (ss, ds).
Proof.
  induction cs as [|c cs IH]; intros Hf; cbn; [eauto|].
  destruct (Hf c ltac:(set_solver)) as [k ->]. cbn.
  destruct IH as (ss & ds & ->); [set_solver|]. cbn. destruct k; eauto.
Qed.

Lemma delta_of_absent c ds : c ∉ d_chain <$> ds -> delta_of c ds = 0.
Proof.
  intros H. unfold delta_of. rewrite (sum_by_ext _ (fun _ => 0 * 0)); [rewrite sum_by_mul; lia|].
  intros d Hd. rewrite decide_False; [done|]. intros <-. apply H.
  apply list_elem_of_fmap. eauto.
Qed.

(** ** Executing proposed routes *)

(** The simulated effect of returned routes is their net flow. *)
Lemma proposed_effect_flow c routes :
  sum_by (proposed_effect c) (as_route <$> routes) = flow_in c routes - flow_out c routes.
Proof.
  rewrite sum_by_fmap. unfold flow_in, flow_out, proposed_effect. cbn.
  induction routes as [|r routes IH]; [done|]. rewrite !sum_by_cons, IH. lia.
Qed.

Lemma executed_balance m routes c :
  balance_or_0 (simulateProposedRebalances m (as_route <$> routes)) c =
    balance_or_0 m c + flow_in c routes - flow_out c routes.
Proof. rewrite simulateProposedRebalances_balance, proposed_effect_flow. lia. Qed.

Lemma flow_out_filtered self `{BigNumberJs} raw routes matched c :
  Forall (fun r => 0 < sr_amount r) matched -> filterRoutes self matched raw = Ok routes ->
  0 <= flow_out c routes <= flow_out c matched /\ 0 <= flow_in c routes <= flow_in c matched.
Proof.
  intros Hp Hf%filterM_sublist.
  assert (Forall (fun r => 0 <= sr_amount r) matched) as Hnn
    by (eapply Forall_impl; [exact Hp|]; cbn; lia).
  assert (Forall (fun r => 0 <= sr_amount r) routes) as Hnn'.
  { rewrite Forall_forall in *. intros r Hr. apply Hnn. eapply elem_of_submseteq; [exact Hr|]. by apply sublist_submseteq. }
  split; (split; [apply sum_by_nonneg; eapply Forall_impl; [exact Hnn'|];
    intros r Hr; cbn in *; case_decide; lia|]); by apply flow_sublist.
Qed.

(** The net effect of a successful call on each chain is bounded by its delta. *)
Lemma getRebalancingRoutes_bounds `{BigNumberJs} self cat pre `{!Categorizer self cat pre}
    raw ctx routes :
  admissible pre raw ctx -> getRebalancingRoutes self cat raw ctx = Ok routes ->
  exists surpluses deficits,
    cat (reserveCollateral raw (default [] (pendingTransfers <$> ctx)))
        (default [] (pendingRebalances <$> ctx))
        (default [] (ctx ≫= proposedRebalances)) = Ok (surpluses, deficits) /\
    forall c, 0 <= flow_out c routes <= delta_of c surpluses /\
              0 <= flow_in c routes <= delta_of c deficits.
Proof.
  intros Hpre Hr.
  destruct (getRebalancingRoutes_matched self cat pre raw ctx routes Hpre Hr)
    as (ss & ds & m & Hcat & Hf & Hm & _ & Hfl & _).
  exists ss, ds. split; [done|]. intros c.
  assert (Forall (fun r => 0 < sr_amount r) m) as Hp by (eapply Forall_impl; [exact Hm|]; naive_solver).
  pose proof (flow_out_filtered self raw routes m c Hp Hf). specialize (Hfl c). lia.
Qed.

(** A chain's outgoing flow covers each of its routes. *)
Lemma flow_out_elem routes r :
  Forall (fun r => 0 <= sr_amount r) routes -> r ∈ routes ->
  sr_amount r <= flow_out (sr_origin r) routes.
Proof.
  intros Hr Hin. unfold flow_out.
  set (f := fun r' : StrategyRoute =>
    if decide (sr_origin r' = sr_origin r) then sr_amount r' else 0).
  assert (f r = sr_amount r) as <-.
  { subst f. cbv beta. by case_decide. }
  apply (sum_by_elem_le f); [|done].
  eapply Forall_impl; [exact Hr|]. intros r' ?. subst f. cbn in *. case_decide; lia.
Qed.

(** When surpluses cover deficits, the raw balances cover the surpluses and no bridge asks
    for a minimum, a call succeeds and meets every deficit exactly. *)
Lemma getRebalancingRoutes_exact `{BigNumberJs} self cat pre `{!Categorizer self cat pre}
    raw surpluses deficits :
  chains self ⊆ map_keys (bridgeConfigs self) ->
  (forall o d cfg a tokens token, tokensByChainName self = Some tokens ->
     map_get o tokens = Some token -> getBridgeConfig (bridgeConfigs self) o d = Ok cfg ->
     bc_bridgeMinAcceptedAmount cfg = Some a -> normalizeConfiguredAmount a token = Ok 0) ->
  validateRawBalances (chains self) raw = Ok () ->
  pre raw [] [] -> cat raw [] [] = Ok (surpluses, deficits) ->
  sum_by d_amount deficits <= sum_by d_amount surpluses ->
  (forall c, delta_of c surpluses <= balance_or_0 raw c) ->
  exists routes, getRebalancingRoutes self cat raw None = Ok routes /\
    forall c, flow_in c routes = delta_of c deficits /\
              0 <= flow_out c routes <= delta_of c surpluses.
Proof.
  intros Hbr Hmin Hv Hpre Hcat Hle Hcov.
  destruct (categorizer_nonneg _ _ _ _ _ Hpre Hcat) as [Hss Hds].
  destruct (categorizer_shape _ _ _ _ _ Hcat) as [Hch _].
  destruct (matchLoop_total (bridgeConfigs self) (js_sort by_amount_desc surpluses)
    (js_sort by_amount_desc deficits)) as [m Hm].
  { rewrite js_sort_perm, Forall_forall. intros x Hx. apply Hbr, Hch.
    apply elem_of_app; left. apply list_elem_of_fmap. eauto. }
  pose proof (matchLoop_flows _ _ _ _ (js_sort_nonneg _ Hss) (js_sort_nonneg _ Hds) Hm)
    as (Ho & Hi & _ & Hie & _).
  pose proof (matchLoop_routes _ _ _ _ Hm) as [Hr _].
  assert (filterRoutes self m raw = Ok m) as Hf.
  { apply filterM_true. intros r Hin. rewrite Forall_forall in Hr.
    assert (sr_amount r <= flow_out (sr_origin r) m) as Hfl.
    { apply flow_out_elem; [|done]. apply Forall_forall. intros r' Hr'.
      destruct (Hr r' Hr'); lia. }
    specialize (Ho (sr_origin r)). rewrite js_sort_delta_of in Ho.
    specialize (Hcov (sr_origin r)). unfold keep_route.
    rewrite (proj2 (Z.ltb_ge _ _)) by lia.
    destruct (Hr r Hin) as (Hpos & _ & _ & bc & Hbc & _).
    destruct (tokensByChainName self) as [tokens|] eqn:Et; [cbn|done].
    destruct (map_get (sr_origin r) tokens) as [token|] eqn:Etok; [|done].
    rewrite Hbc. cbn. destruct (bc_bridgeMinAcceptedAmount bc) as [a|] eqn:Ea; [|done].
    rewrite (Hmin _ _ _ _ _ _ eq_refl Etok Hbc Ea). cbn.
    by rewrite (proj2 (Z.ltb_ge (sr_amount r) 0)) by lia. }
  exists m. split.
  - unfold getRebalancingRoutes. cbn. rewrite Hv. cbn. rewrite Hcat. cbn.
    unfold scaleDeficits. rewrite (proj2 (Z.ltb_ge _ _)) by lia. cbn.
    unfold proposeRoutes. rewrite Hm. cbn. by rewrite Hf.
  - intros c. specialize (Ho c). rewrite js_sort_delta_of in Ho.
    rewrite Hie by (rewrite !js_sort_total; done). by rewrite js_sort_delta_of.
Qed.

(** The balances a strategy reasons on: raw balances less what pending transfers reserve,
    after every pending and proposed rebalance. *)
Definition projected (raw : gmap string Z) (ctx : option InflightContext) : gmap string Z :=
  simulate (reserveCollateral raw (default [] (pendingTransfers <$> ctx)))
    (default [] (pendingRebalances <$> ctx))
    (as_route <$> default [] (ctx ≫= proposedRebalances)).

Lemma total_balance_ok cs m T :
  total_balance cs m = Ok T ->
  T = sum_by (balance_or_0 m) cs /\ Forall (fun c => m !! c = Some (balance_or_0 m c)) cs.
Proof.
  intros (bs & Hbs & [= <-])%result_bind_ok.
  apply mapM_result_ok_inv in Hbs. induction Hbs as [|c b cs bs Hb _ [IH1 IH2]]; [done|].
  unfold bigint_at in Hb. destruct (m !! c) as [b'|] eqn:E; [|done]. injection Hb as ->.
  rewrite !sum_by_cons, IH1. unfold balance_or_0 at 2. rewrite E. split; [done|].
  constructor; [by unfold balance_or_0; rewrite E|done].
Qed.

Lemma total_balance_total cs m :
  Forall (fun c => is_Some (m !! c)) cs -> exists T, total_balance cs m = Ok T.
Proof.
  intros H. unfold total_balance.
  destruct (mapM_result_total (bigint_at m) cs) as [bs ->].
  - rewrite Forall_forall in H. intros c Hc. destruct (H c Hc) as [b Hb].
    unfold bigint_at. rewrite Hb. eauto.
  - cbn. eauto.
Qed.

Lemma config_of_ok {A} (config : list (string * A)) c a :
  config_of config c = Ok a <-> map_get c config = Some a.
Proof. unfold config_of. destruct (map_get c config); naive_solver. Qed.

Lemma bigint_at_ok m c b : bigint_at m c = Ok b <-> m !! c = Some b.
Proof. unfold bigint_at. destruct (m !! c); naive_solver. Qed.

Lemma bigint_div_ok a b q : bigint_div a b = Ok q <-> b <> 0 /\ q = Z.quot a b.
Proof.
  unfold bigint_div. destruct (Z.eqb_spec b 0); split; [done|naive_solver|by intros [= <-]|].
  by intros [_ ->].
Qed.

(** ** WeightedStrategy *)

Module WeightedFacts.
Import Weighted.

(** What the constructor establishes, for a configuration object (one entry per chain). *)
Record wf (s : WeightedStrategy) : Prop := {
  wf_chains : chains (base s) = map_keys (config s);
  wf_keys : NoDup (chains (base s));
  wf_total : totalWeight s = sum_by (fun e => weight (snd e)) (config s);
  wf_positive : 0 < totalWeight s;
  wf_entries : Forall (fun e => 0 <= weight (snd e) /\ 0 <= tolerance (snd e) <= 100) (config s)
}.

Lemma sum_weights_ok cfg acc W :
  sum_weights cfg acc = Ok W <->
  W = acc + sum_by (fun e => weight (snd e)) cfg /\
  Forall (fun e => 0 <= weight (snd e) /\ 0 <= tolerance (snd e) <= 100) cfg.
Proof.
  revert acc; induction cfg as [|[c w] cfg IH]; intros acc; cbn [sum_weights].
  - rewrite sum_by_nil. split; [intros [= ->]; split; [lia|constructor]|intros [-> _]; f_equal; lia].
  - rewrite sum_by_cons, Forall_cons. cbn [snd].
    destruct (Z.ltb_spec (weight w) 0); [split; [done|naive_solver lia]|].
    destruct (Z.ltb_spec (tolerance w) 0); [split; [done|naive_solver lia]|].
    destruct (Z.ltb_spec 100 (tolerance w)); [split; [done|naive_solver lia]|].
    cbn. rewrite IH. split; [intros [-> ?]|intros [-> [_ ?]]]; (split; [lia|]); [split; [lia|done]|done].
Qed.

Lemma weighted_make_wf cfg bridges tokens s :
  map_wf cfg -> make cfg bridges tokens = Ok s ->
  wf s /\ config s = cfg /\ base s = Build_BaseStrategy (map_keys cfg) bridges tokens /\
  (2 <= length cfg)%nat.
Proof.
  intros Hcfg (b & Hb & (W & HW & H)%result_bind_ok)%result_bind_ok.
  unfold make_BaseStrategy in Hb.
  destruct (Nat.ltb_spec (length (map_keys cfg)) 2) as [|Hlen]; [done|].
  injection Hb as <-. destruct (Z.leb_spec W 0); [done|]. injection H as <-.
  apply sum_weights_ok in HW as [-> HW]. split; [constructor; cbn; try done; lia|].
  split_and!; try done. unfold map_keys in Hlen. by rewrite length_fmap in Hlen.
Qed.

(** The target of a chain and the shortfall below it that is tolerated. *)
Definition target (s : WeightedStrategy) (T : Z) (w : WeightedChainConfig) : Z :=
  T * weight w / totalWeight s.
Definition slack (s : WeightedStrategy) (T : Z) (w : WeightedChainConfig) : Z :=
  target s T w * tolerance w / 100.

Section weighted.
Context (s : WeightedStrategy) (Hwf : wf s).

Lemma wf_entry c w :
  map_get c (config s) = Some w -> 0 <= weight w /\ 0 <= tolerance w <= 100.
Proof using Hwf.
  intros Hc%map_get_elem. pose proof (wf_entries _ Hwf) as H. rewrite Forall_forall in H.
  exact (H _ Hc).
Qed.

Lemma target_nonneg T c w :
  0 <= T -> map_get c (config s) = Some w -> 0 <= target s T w /\ 0 <= slack s T w <= target s T w.
Proof using Hwf.
  intros HT Hc. destruct (wf_entry c w Hc) as (? & ? & ?). pose proof (wf_positive _ Hwf).
  assert (0 <= target s T w) by (apply Z.div_pos; nia). unfold slack.
  split_and!; [done|apply Z.div_pos; nia|apply Z.div_le_upper_bound; nia].
Qed.

(** One chain, with the machine divisions replaced by their values. *)
Lemma weighted_categorize_chain_eq T m c k :
  0 <= T -> categorize_chain s T m c = Ok k ->
  exists w b, map_get c (config s) = Some w /\ m !! c = Some b /\
    k = if b <? target s T w - slack s T w then Deficit (target s T w - b)
        else if target s T w <? b then Surplus (b - target s T w) else Balanced.
Proof using Hwf.
  intros HT (w & Hw & (t & Ht & (ta & Hta & (b & Hb & [= <-])%result_bind_ok)
    %result_bind_ok)%result_bind_ok)%result_bind_ok.
  apply config_of_ok in Hw. apply bigint_at_ok in Hb.
  apply bigint_div_ok in Ht as [_ ->]. apply bigint_div_ok in Hta as [_ ->].
  destruct (wf_entry c w Hw) as (? & ? & ?). pose proof (wf_positive _ Hwf).
  exists w, b. split_and!; [done..|]. unfold slack, target.
  assert (0 <= T * weight w / totalWeight s) by (apply Z.div_pos; nia).
  rewrite !Z.quot_div_nonneg by nia. done.
Qed.

(** The total over the chains of the simulated balances must not be negative. *)
Definition pre (balances : gmap string Z) (pending : list Route)
    (proposed : list StrategyRoute) : Prop :=
  0 <= sum_by (balance_or_0 (simulate balances pending (as_route <$> proposed))) (chains (base s)).

Lemma weighted_getCategorizedBalances_ok balances pending proposed ss ds :
  getCategorizedBalances s balances pending proposed = Ok (ss, ds) ->
  let m := simulate balances pending (as_route <$> proposed) in
  categorize (categorize_chain s (sum_by (balance_or_0 m) (chains (base s))) m)
    (chains (base s)) = Ok (ss, ds).
Proof. intros (T & [-> _]%total_balance_ok & H)%result_bind_ok. done. Qed.

#[export] Instance weighted_categorizer : Categorizer (base s) (getCategorizedBalances s) pre.
Proof using Hwf.
  constructor.
  - intros balances pending proposed ss ds H%weighted_getCategorizedBalances_ok.
    by apply categorize_NoDup in H; [|apply wf_keys].
  - intros balances pending proposed ss ds Hpre H%weighted_getCategorizedBalances_ok.
    apply categorize_spec in H as (Hs & Hd & _). unfold pre in Hpre.
    split; (eapply Forall_impl; [eassumption|]); intros d [_ Hk]; cbn;
      apply weighted_categorize_chain_eq in Hk as (w & b & Hw & _ & Hk); try done;
      destruct (target_nonneg _ _ _ Hpre Hw) as (? & ? & ?);
      repeat case_match; simplify_eq; lia.
Qed.


(** Flooring each target loses at most the remainder: the targets fit in the total. *)
Definition target_of (T : Z) (c : string) : Z :=
  match map_get c (config s) with Some w => target s T w | None => 0 end.

Lemma sum_targets_le T :
  0 <= T -> sum_by (target_of T) (chains (base s)) <= T.
Proof using Hwf.
  intros HT. rewrite (wf_chains _ Hwf). unfold map_keys. rewrite sum_by_fmap.
  rewrite (sum_by_ext _ (fun e => target s T (snd e))).
  2:{ intros [c w] He. unfold target_of. cbn [fst snd].
      rewrite (map_elem_get c w); [done| |done]. unfold map_wf.
      rewrite <- (wf_chains _ Hwf). apply (wf_keys _ Hwf). }
  pose proof (wf_positive _ Hwf). rewrite (wf_total _ Hwf) in *.
  set (W := sum_by _ _) in *.
  enough (sum_by (fun e => target s T (snd e)) (config s) * W <= T * W) by nia.
  rewrite <- sum_by_mul. etrans; [apply (sum_by_le _ (fun e => weight (snd e) * T))|].
  - intros e _. unfold target. rewrite (wf_total _ Hwf). fold W.
    pose proof (Z.mul_div_le (T * weight (snd e)) W). lia.
  - rewrite sum_by_mul. fold W. lia.
Qed.

(** Surpluses always cover the deficits, so a weighted strategy never scales them. *)
Lemma surpluses_cover balances pending proposed ss ds :
  pre balances pending proposed ->
  getCategorizedBalances s balances pending proposed = Ok (ss, ds) ->
  sum_by d_amount ds <= sum_by d_amount ss.
Proof using Hwf.
  intros Hpre H. unfold pre in Hpre. apply weighted_getCategorizedBalances_ok in H. cbn zeta in H.
  set (m := simulate _ _ _) in *. set (T := sum_by (balance_or_0 m) _) in *.
  apply categorize_spec in H as (_ & _ & -> & -> & Hall).
  set (f := categorize_chain s T m) in *.
  pose proof (sum_targets_le T Hpre) as Ht.
  enough (sum_by (balance_or_0 m) (chains (base s)) + sum_by (deficit_at f) (chains (base s)) <=
    sum_by (target_of T) (chains (base s)) + sum_by (surplus_at f) (chains (base s)))
    by (fold T in H; lia).
  rewrite <- !sum_by_add. apply sum_by_le. intros c Hc. rewrite Forall_forall in Hall.
  destruct (Hall c Hc) as [k Hk]. pose proof Hk as Hk'.
  apply weighted_categorize_chain_eq in Hk' as (w & b & Hw & Hb & ->); [|done].
  unfold surplus_at, deficit_at, target_of, balance_or_0. rewrite Hk, Hw, Hb. cbn.
  repeat case_match; simplify_eq; lia.
Qed.

(** What the lists hold for one chain, by the zone its balance is in. *)
Lemma weighted_deltas balances pending proposed ss ds c :
  pre balances pending proposed -> c ∈ chains (base s) ->
  getCategorizedBalances s balances pending proposed = Ok (ss, ds) ->
  let m := simulate balances pending (as_route <$> proposed) in
  let T := sum_by (balance_or_0 m) (chains (base s)) in
  let b := balance_or_0 m c in
  exists w, map_get c (config s) = Some w /\
    delta_of c ds = (if b <? target s T w - slack s T w then target s T w - b else 0) /\
    delta_of c ss = (if target s T w <? b then b - target s T w else 0) /\
    0 <= slack s T w <= target s T w.
Proof using Hwf.
  intros Hpre Hc H%weighted_getCategorizedBalances_ok m T b. fold m T in H. unfold pre in Hpre.
  fold m T in Hpre.
  destruct (categorize_delta_of _ _ _ _ _ (wf_keys _ Hwf) Hc H) as [-> ->].
  apply categorize_spec in H as (_ & _ & _ & _ & Hall). rewrite Forall_forall in Hall.
  destruct (Hall c Hc) as [k Hk]. unfold surplus_at, deficit_at. rewrite Hk.
  apply weighted_categorize_chain_eq in Hk as (w & b' & Hw & Hb & ->); [|done].
  destruct (target_nonneg _ _ _ Hpre Hw) as (? & ? & ?).
  exists w. subst b. unfold balance_or_0. rewrite Hb. cbn.
  split_and!; [done|..|done|done];
    destruct (Z.ltb_spec b' (target s T w - slack s T w)); try done;
    destruct (Z.ltb_spec (target s T w) b'); lia.
Qed.

End weighted.

(** A weighted strategy never overshoots. When the projected balances (after pending
    transfers and rebalances) do not add up to less than zero, executing every returned route
    leaves each chain between its projected balance and its target: a chain below its
    tolerance band only gains, up to the target; a chain above its target only gives, down to
    the target; a chain inside the band is not touched. *)
Theorem weighted_never_overshoots `{BigNumberJs} cfg bridges tokens s raw ctx routes c :
  map_wf cfg -> make cfg bridges tokens = Ok s ->
  admissible (pre s) raw ctx ->
  getRebalancingRoutes (base s) (getCategorizedBalances s) raw ctx = Ok routes ->
  c ∈ map_keys cfg ->
  let before := projected raw ctx in
  let after := simulateProposedRebalances before (as_route <$> routes) in
  let T := sum_by (balance_or_0 before) (map_keys cfg) in
  exists w, map_get c cfg = Some w /\
    (balance_or_0 before c < target s T w - slack s T w ->
       balance_or_0 before c <= balance_or_0 after c <= target s T w) /\
    (target s T w < balance_or_0 before c ->
       target s T w <= balance_or_0 after c <= balance_or_0 before c) /\
    (target s T w - slack s T w <= balance_or_0 before c <= target s T w ->
       balance_or_0 after c = balance_or_0 before c).
Proof.
  intros Hcfg Hmake Hpre Hr Hc before after T.
  destruct (weighted_make_wf _ _ _ _ Hcfg Hmake) as (Hwf & <- & Hb & _).
  assert (chains (base s) = map_keys (config s)) as Hch by by rewrite Hb.
  destruct (getRebalancingRoutes_bounds (base s) _ _ (Categorizer0 := weighted_categorizer s Hwf)
    _ _ _ Hpre Hr) as (ss & ds & Hcat & Hfl).
  rewrite <- Hch in Hc.
  destruct (weighted_deltas s Hwf _ _ _ _ _ c Hpre Hc Hcat) as (w & Hw & Hd & Hs & Hsl).
  fold (projected raw ctx) in *. fold before in Hd, Hs, Hsl. rewrite Hch in Hd, Hs, Hsl.
  fold T in Hd, Hs, Hsl. exists w. split; [done|].
  unfold after. rewrite executed_balance. specialize (Hfl c).
  destruct (Z.ltb_spec (balance_or_0 before c) (target s T w - slack s T w));
    destruct (Z.ltb_spec (target s T w) (balance_or_0 before c)); split_and!; lia.
Qed.

Lemma weighted_never_overshoots_witness :
  let numbers := whole_numbers in
  let s := the_ok (make sample_weights sample_bridges None) eq_refl in
  let raw := balances_of [("a", 100); ("b", 20); ("c", 30)] in
  let ctx := Some {| pendingTransfers := [plain_route "c" "a" 8];
                     pendingRebalances := [plain_route "a" "b" 10];
                     proposedRebalances := None |} in
  let routes := the_ok (getRebalancingRoutes (base s) (getCategorizedBalances s) raw ctx) eq_refl in
  let before := projected raw ctx in
  let after := simulateProposedRebalances before (as_route <$> routes) in
  exists w, map_get "a" sample_weights = Some w /\
    (balance_or_0 before "a" < target s 152 w - slack s 152 w ->
       balance_or_0 before "a" <= balance_or_0 after "a" <= target s 152 w) /\
    (target s 152 w < balance_or_0 before "a" ->
       target s 152 w <= balance_or_0 after "a" <= balance_or_0 before "a") /\
    (target s 152 w - slack s 152 w <= balance_or_0 before "a" <= target s 152 w ->
       balance_or_0 after "a" = balance_or_0 before "a").
Proof.
  intros numbers s raw ctx routes before after.
  apply (weighted_never_overshoots sample_weights sample_bridges None s raw ctx routes "a").
  - vm_compute. repeat constructor; set_solver.
  - apply the_ok_eq.
  - vm_compute. discriminate.
  - apply the_ok_eq.
  - vm_compute. repeat constructor.
Defined.

(** A weighted categorization of balances defined on every chain cannot throw. *)
Lemma weighted_getCategorizedBalances_total s balances pending proposed :
  wf s -> (forall c, c ∈ chains (base s) -> is_Some (balances !! c)) ->
  exists ss ds, getCategorizedBalances s balances pending proposed = Ok (ss, ds).
Proof.
  intros Hwf Hb. unfold getCategorizedBalances.
  set (m := simulate _ _ _).
  assert (forall c, c ∈ chains (base s) -> is_Some (m !! c)) as Hm.
  { intros c Hc. pose proof (simulated_dom balances pending (as_route <$> proposed) [] c (Hb c Hc)).
    done. }
  destruct (total_balance_total (chains (base s)) m) as [T ->]; [by rewrite Forall_forall|].
  cbn. apply categorize_total. intros c Hc. unfold categorize_chain.
  assert (c ∈ map_keys (config s)) as Hk by (rewrite <- (wf_chains _ Hwf); done).
  apply map_has_true in Hk. unfold map_has in Hk. unfold config_of.
  destruct (map_get c (config s)) as [w|]; [cbn|done].
  pose proof (wf_positive _ Hwf). unfold bigint_div.
  rewrite (proj2 (Z.eqb_neq (totalWeight s) 0)) by lia. cbn.
  destruct (Hm c Hc) as [b Hbm]. unfold bigint_at. rewrite Hbm. cbn. eauto.
Qed.

(** C4: With nothing in flight, raw balances that pass validation, every configured chain among
    the bridges, and no bridge minimum (each that is set normalizes to zero: a positive one drops
    the routes below it), a weighted strategy always returns, and executing its routes brings
    every chain that was below its tolerance band exactly to its target while no chain is drained
    below its own. *)
Theorem weighted_rebalances_exactly `{BigNumberJs} cfg bridges tokens s raw :
  map_wf cfg -> make cfg bridges tokens = Ok s ->
  map_keys cfg ⊆ map_keys bridges ->
  (forall o d bc a tokens' token, tokens = Some tokens' -> map_get o tokens' = Some token ->
     getBridgeConfig bridges o d = Ok bc -> bc_bridgeMinAcceptedAmount bc = Some a ->
     normalizeConfiguredAmount a token = Ok 0) ->
  validateRawBalances (map_keys cfg) raw = Ok () ->
  exists routes,
    getRebalancingRoutes (base s) (getCategorizedBalances s) raw None = Ok routes /\
    let T := sum_by (balance_or_0 raw) (map_keys cfg) in
    let after := simulateProposedRebalances raw (as_route <$> routes) in
    forall c, c ∈ map_keys cfg -> exists w, map_get c cfg = Some w /\
      balance_or_0 after c =
        (if balance_or_0 raw c <? target s T w - slack s T w then target s T w
         else balance_or_0 raw c - flow_out c routes) /\
      Z.min (balance_or_0 raw c) (target s T w) <= balance_or_0 after c.
Proof.
  intros Hcfg Hmake Hbr Hmin Hv.
  destruct (weighted_make_wf _ _ _ _ Hcfg Hmake) as (Hwf & <- & Hb & _).
  assert (chains (base s) = map_keys (config s)) as Hch by by rewrite Hb.
  pose proof (proj1 (validateRawBalances_ok _ _ Hcfg) Hv) as [Hdom Hnn].
  assert (forall c, 0 <= balance_or_0 raw c) as Hnn'.
  { intros c. unfold balance_or_0. destruct (raw !! c) eqn:E; [|done]. cbn. eauto. }
  assert (pre s raw [] []) as Hpre.
  { unfold pre. cbn. apply sum_by_nonneg, Forall_forall. auto. }
  destruct (weighted_getCategorizedBalances_total s raw [] [] Hwf) as (ss & ds & Hcat).
  { intros c Hc. apply elem_of_dom. rewrite Hdom. apply elem_of_list_to_set. by rewrite <- Hch. }
  assert (forall c, delta_of c ss <= balance_or_0 raw c) as Hcov.
  { intros c. destruct (decide (c ∈ chains (base s))) as [Hc|Hc].
    - destruct (weighted_deltas s Hwf _ _ _ _ _ c Hpre Hc Hcat) as (w & Hw & _ & -> & Hsl).
      cbn in *. specialize (Hnn' c). case_match; [|done]. lia.
    - rewrite delta_of_absent; [done|]. intros Hin. apply Hc.
      eapply cat_chains; [by eapply (categorizer_shape (Categorizer := weighted_categorizer s Hwf))|].
      set_solver. }
  destruct (getRebalancingRoutes_exact (base s) _ _ (Categorizer0 := weighted_categorizer s Hwf)
    raw ss ds) as (routes & Hr & Hfl); try done.
  { by rewrite Hb. }
  { intros o d bc a tokens' token. rewrite Hb. cbn. eauto. }
  { by rewrite Hch. }
  { by eapply surpluses_cover. }
  exists routes. split; [done|]. intros T after c Hc. rewrite <- Hch in Hc.
  destruct (weighted_deltas s Hwf _ _ _ _ _ c Hpre Hc Hcat) as (w & Hw & Hd & Hs & Hsl).
  cbn in Hd, Hs, Hsl. rewrite Hch in Hd, Hs, Hsl. fold T in Hd, Hs, Hsl.
  exists w. split; [done|]. unfold after. rewrite executed_balance.
  specialize (Hfl c) as [Hi Ho]. rewrite Hi, Hd.
  destruct (Z.ltb_spec (balance_or_0 raw c) (target s T w - slack s T w));
    destruct (Z.ltb_spec (target s T w) (balance_or_0 raw c)); lia.
Qed.

Lemma weighted_rebalances_exactly_witness :
  let numbers := whole_numbers in
  let s := the_ok (make sample_weights sample_bridges (Some sample_tokens)) eq_refl in
  let raw := balances_of [("a", 100); ("b", 20); ("c", 30)] in
  exists routes,
    getRebalancingRoutes (base s) (getCategorizedBalances s) raw None = Ok routes /\
    let after := simulateProposedRebalances raw (as_route <$> routes) in
    forall c, c ∈ map_keys sample_weights -> exists w, map_get c sample_weights = Some w /\
      balance_or_0 after c =
        (if balance_or_0 raw c <? target s 150 w - slack s 150 w then target s 150 w
         else balance_or_0 raw c - flow_out c routes) /\
      Z.min (balance_or_0 raw c) (target s 150 w) <= balance_or_0 after c.
Proof.
  intros numbers s raw.
  apply (weighted_rebalances_exactly sample_weights sample_bridges (Some sample_tokens) s raw).
  - vm_compute. repeat constructor; set_solver.
  - apply the_ok_eq.
  - vm_compute. done.
  - intros o d bc a tokens' token [= <-] Ht Hbc Ha.
    assert (token = sample_token (tok_chainName token)) as ->.
    { apply map_get_elem in Ht. unfold sample_tokens in Ht.
      repeat (apply elem_of_cons in Ht as [[= -> ->]|Ht]; [done|]). by apply elem_of_nil in Ht. }
    unfold getBridgeConfig in Hbc. destruct (map_get o sample_bridges) as [cfg|] eqn:E; [|done].
    assert (cfg = sample_bridge) as ->.
    { apply map_get_elem in E. unfold sample_bridges in E.
      repeat (apply elem_of_cons in E as [[= -> ->]|E]; [done|]). by apply elem_of_nil in E. }
    cbn in Hbc. injection Hbc as <-. cbn in Ha. injection Ha as <-. reflexivity.
  - vm_compute. done.
Defined.

End WeightedFacts.

(** ** MinAmountStrategy *)

Module MinAmountFacts.
Import MinAmount.

Section min_amount.
Context `{BigNumberJs}.

Record wf (s : MinAmountStrategy) : Prop := {
  wf_chains : chains (base s) = map_keys (config s);
  wf_keys : NoDup (chains (base s));
  wf_ranges : check_ranges (config s) = Ok ()
}.

Lemma min_amount_make_wf cfg tokens total bridges s :
  map_wf cfg -> make cfg tokens total bridges = Ok s ->
  wf s /\ config s = cfg /\ base s = Build_BaseStrategy (map_keys cfg) bridges (Some tokens).
Proof.
  intros Hcfg (b & Hb & (ty & _ & ([] & _ & ([] & Hr & [= <-])%result_bind_ok)
    %result_bind_ok)%result_bind_ok)%result_bind_ok.
  unfold make_BaseStrategy in Hb. destruct (_ <? _)%nat; [done|]. injection Hb as <-. done.
Qed.

(** The constructor's checks, chain by chain. *)
Lemma check_ranges_ok cfg :
  check_ranges cfg = Ok () ->
  Forall (fun e => bn_lt (bn_value (ma_target (snd e))) (bn_value (ma_min (snd e))) = false /\
    bn_lt (bn_value (ma_min (snd e))) (Some (inject_Z 0)) = false /\
    bn_lt (bn_value (ma_target (snd e))) (Some (inject_Z 0)) = false) cfg.
Proof.
  induction cfg as [|[c m] cfg IH]; cbn [check_ranges]; [constructor|].
  destruct (bn_lt (bn_value (ma_target m)) (bn_value (ma_min m))) eqn:E1; [done|].
  destruct (bn_lt (bn_value (ma_min m)) (Some (inject_Z 0))) eqn:E2; [done|].
  destruct (bn_lt (bn_value (ma_target m)) (Some (inject_Z 0))) eqn:E3; [done|].
  intros Hr. constructor; [exact (conj E1 (conj E2 E3))|by apply IH].
Qed.

Lemma times_floor_mono T x y a b :
  0 <= T -> bn_lt (bn_value y) (bn_value x) = false ->
  times_floor T x = Ok a -> times_floor T y = Ok b -> a <= b.
Proof.
  unfold times_floor. intros HT Hlt.
  destruct (bn_value x) as [qx|]; [|done]. destruct (bn_value y) as [qy|]; [|done].
  intros Ha Hb. assert (a = Qfloor (inject_Z T * qx)) as -> by congruence.
  assert (b = Qfloor (inject_Z T * qy)) as -> by congruence. clear Ha Hb.
  cbn [bn_lt] in Hlt. apply negb_false_iff, Qle_bool_iff in Hlt.
  apply Qfloor_resp_le.
  rewrite (Qmult_comm (inject_Z T) qx), (Qmult_comm (inject_Z T) qy).
  apply Qmult_le_compat_r; [exact Hlt|]. unfold Qle. cbn. lia.
Qed.

(** [minAmount] and [targetAmount] in the right order on every chain. For percentages the
    constructor's checks give it as soon as the total is not negative. *)
Definition pre (s : MinAmountStrategy) (balances : gmap string Z) (pending : list Route)
    (proposed : list StrategyRoute) : Prop :=
  let T := sum_by (balance_or_0 (simulate balances pending (as_route <$> proposed)))
             (chains (base s)) in
  forall c m mn tg, map_get c (config s) = Some m -> chain_amounts s T c m = Ok (mn, tg) ->
    mn <= tg.

Lemma relative_pre s balances pending proposed :
  wf s -> Forall (fun e => ma_type (snd e) = Relative) (config s) ->
  0 <= sum_by (balance_or_0 (simulate balances pending (as_route <$> proposed)))
         (chains (base s)) ->
  pre s balances pending proposed.
Proof.
  intros Hwf Hrel HT c m mn tg Hm Ha. apply map_get_elem in Hm.
  rewrite Forall_forall in Hrel. specialize (Hrel _ Hm). cbn in Hrel.
  unfold chain_amounts in Ha. rewrite Hrel in Ha.
  apply result_bind_ok in Ha as (a & Ha & (b & Hb & [= <- <-])%result_bind_ok).
  pose proof (check_ranges_ok _ (wf_ranges _ Hwf)) as Hr. rewrite Forall_forall in Hr.
  destruct (Hr _ Hm) as (Hr1 & _). by eapply times_floor_mono.
Qed.

Section strategy.
Context (s : MinAmountStrategy) (Hwf : wf s).

Lemma min_amount_getCategorizedBalances_ok balances pending proposed ss ds :
  getCategorizedBalances s balances pending proposed = Ok (ss, ds) ->
  let m := simulate balances pending (as_route <$> proposed) in
  categorize (categorize_chain s (sum_by (balance_or_0 m) (chains (base s))) m)
    (chains (base s)) = Ok (ss, ds).
Proof. intros (T & [-> _]%total_balance_ok & Hc)%result_bind_ok. done. Qed.

Lemma min_amount_categorize_chain_eq T m c k :
  categorize_chain s T m c = Ok k ->
  exists w b mn tg, map_get c (config s) = Some w /\ m !! c = Some b /\
    chain_amounts s T c w = Ok (mn, tg) /\
    k = if b <? mn then Deficit (tg - b) else if mn <? b then Surplus (b - mn) else Balanced.
Proof using.
  intros (w & Hw%config_of_ok & ([mn tg] & Ha & (b & Hb%bigint_at_ok & [= <-])%result_bind_ok)
    %result_bind_ok)%result_bind_ok.
  exists w, b, mn, tg. split_and!; [done..|]. destruct (b <? mn); [done|].
  destruct (Z.ltb_spec 0 (b - mn)); destruct (Z.ltb_spec mn b); done || lia.
Qed.

#[export] Instance min_amount_categorizer :
  Categorizer (base s) (getCategorizedBalances s) (pre s).
Proof using Hwf.
  constructor.
  - intros balances pending proposed ss ds Hc%min_amount_getCategorizedBalances_ok.
    by apply categorize_NoDup in Hc; [|apply wf_keys].
  - intros balances pending proposed ss ds Hpre Hc%min_amount_getCategorizedBalances_ok.
    apply categorize_spec in Hc as (Hs & Hd & _). unfold pre in Hpre.
    split; (eapply Forall_impl; [eassumption|]); intros d [_ Hk]; cbn;
      apply min_amount_categorize_chain_eq in Hk as (w & b & mn & tg & Hw & _ & Ha & Hk);
      specialize (Hpre _ _ _ _ Hw Ha);
      destruct (Z.ltb_spec b mn); destruct (Z.ltb_spec mn b); simplify_eq; lia.
Qed.

End strategy.
End min_amount.

(** A minimum-amount strategy whose minimums do not exceed its targets tops a chain below
    its minimum up to at most its target, and never draws any other chain below its minimum. *)
Theorem min_amount_respects_minimums `{BigNumberJs} cfg tokens total bridges s raw ctx routes c :
  map_wf cfg -> make cfg tokens total bridges = Ok s ->
  admissible (pre s) raw ctx ->
  getRebalancingRoutes (base s) (getCategorizedBalances s) raw ctx = Ok routes ->
  c ∈ map_keys cfg ->
  let before := projected raw ctx in
  let after := simulateProposedRebalances before (as_route <$> routes) in
  let T := sum_by (balance_or_0 before) (map_keys cfg) in
  exists m mn tg, map_get c cfg = Some m /\ chain_amounts s T c m = Ok (mn, tg) /\
    (balance_or_0 before c < mn ->
       balance_or_0 before c <= balance_or_0 after c <= tg) /\
    (mn <= balance_or_0 before c ->
       mn <= balance_or_0 after c <= balance_or_0 before c).
Proof.
  intros Hcfg Hmake Hpre Hr Hc before after T.
  destruct (min_amount_make_wf _ _ _ _ _ Hcfg Hmake) as (Hwf & <- & Hb).
  assert (chains (base s) = map_keys (config s)) as Hch by by rewrite Hb.
  destruct (getRebalancingRoutes_bounds (base s) _ _
    (Categorizer0 := min_amount_categorizer s Hwf) _ _ _ Hpre Hr) as (ss & ds & Hcat & Hfl).
  rewrite <- Hch in Hc. apply min_amount_getCategorizedBalances_ok in Hcat. cbn zeta in Hcat.
  fold (projected raw ctx) in Hcat. fold before in Hcat. rewrite Hch in Hcat at 1.
  fold T in Hcat.
  destruct (categorize_delta_of _ _ _ _ _ (wf_keys _ Hwf) Hc Hcat) as [Hs Hd].
  apply categorize_spec in Hcat as (_ & _ & _ & _ & Hall). rewrite Forall_forall in Hall.
  destruct (Hall c Hc) as [k Hk]. unfold surplus_at, deficit_at in Hs, Hd. rewrite Hk in Hs, Hd.
  apply min_amount_categorize_chain_eq in Hk as (m & b & mn & tg & Hm & Hbb & Ha & ->).
  exists m, mn, tg. split_and!; [done..| |]; unfold after; rewrite executed_balance;
    specialize (Hfl c); replace (balance_or_0 before c) with b by
      (unfold balance_or_0; by rewrite Hbb);
    destruct (Z.ltb_spec b mn); destruct (Z.ltb_spec mn b); cbn in *; lia.
Qed.

Lemma min_amount_respects_minimums_witness :
  let numbers := whole_numbers in
  let s := the_ok (make sample_minimums sample_tokens 120 sample_bridges) eq_refl in
  let raw := balances_of [("a", 100); ("b", 20)] in
  let routes := the_ok (getRebalancingRoutes (base s) (getCategorizedBalances s) raw None) eq_refl in
  let after := simulateProposedRebalances (projected raw None) (as_route <$> routes) in
  exists m mn tg, map_get "b" sample_minimums = Some m /\ chain_amounts s 120 "b" m = Ok (mn, tg) /\
    (balance_or_0 (projected raw None) "b" < mn ->
       balance_or_0 (projected raw None) "b" <= balance_or_0 after "b" <= tg) /\
    (mn <= balance_or_0 (projected raw None) "b" ->
       mn <= balance_or_0 after "b" <= balance_or_0 (projected raw None) "b").
Proof.
  intros numbers s raw routes after.
  apply (min_amount_respects_minimums sample_minimums sample_tokens 120 sample_bridges s raw None
    routes "b").
  - vm_compute. repeat constructor; set_solver.
  - apply the_ok_eq.
  - intros c m mn tg Hm. apply map_get_elem in Hm.
    assert ((c, m) ∈ sample_minimums) as Hin by exact Hm. unfold sample_minimums in Hin.
    repeat (apply elem_of_cons in Hin as [[= -> ->]|Hin];
      [intros Ha; vm_compute in Ha; injection Ha as <- <-; lia|]).
    by apply elem_of_nil in Hin.
  - apply the_ok_eq.
  - vm_compute. repeat constructor.
Defined.

End MinAmountFacts.

(** ** CollateralDeficitStrategy *)

Module CollateralDeficitFacts.
Import CollateralDeficit.

Section collateral_deficit.
Context `{BigNumberJs}.

Record wf (s : CollateralDeficitStrategy) : Prop := {
  wf_chains : chains (base s) = map_keys (config s);
  wf_keys : NoDup (chains (base s))
}.

Lemma collateral_deficit_make_wf cfg tokens bridges s :
  map_wf cfg -> make cfg tokens bridges = Ok s ->
  wf s /\ config s = cfg /\ base s = Build_BaseStrategy (map_keys cfg) bridges (Some tokens).
Proof.
  intros Hcfg (b & Hb & [= <-])%result_bind_ok.
  unfold make_BaseStrategy in Hb. destruct (_ <? _)%nat; [done|]. injection Hb as <-. done.
Qed.

Lemma normalizeConfiguredAmount_nonneg v token a :
  normalizeConfiguredAmount v token = Ok a -> 0 <= a.
Proof. intros (w & _ & Hw)%result_bind_ok. by eapply normalizeToCanonical_nonneg. Qed.

Section strategy.
Context (s : CollateralDeficitStrategy) (Hwf : wf s).

Lemma collateral_deficit_categorize_chain_eq m c k :
  categorize_chain s m c = Ok k ->
  exists buffer, 0 <= buffer /\
    (exists v token, map_get c (config s) = Some v /\
       normalizeConfiguredAmount v token = Ok buffer) /\
    k = if balance_or_0 m c <? 0 then Deficit (buffer - balance_or_0 m c)
        else if 0 <? balance_or_0 m c then Surplus (balance_or_0 m c) else Balanced.
Proof using.
  intros (token & _ & (v & Hv%config_of_ok & (a & Ha & [= <-])%result_bind_ok)%result_bind_ok)
    %result_bind_ok.
  exists a. split_and!; [by eapply normalizeConfiguredAmount_nonneg|eauto|].
  unfold balance_or_0. destruct (m !! c) as [b|]; cbn; [|done].
  destruct (Z.ltb_spec b 0); [f_equal; lia|done].
Qed.

#[export] Instance collateral_deficit_categorizer :
  Categorizer (base s) (getCategorizedBalances s) (fun _ _ _ => True).
Proof using Hwf.
  constructor.
  - intros balances pending proposed ss ds
      (fp & _ & (fq & _ & Hc)%result_bind_ok)%result_bind_ok.
    by apply categorize_NoDup in Hc; [|apply wf_keys].
  - intros balances pending proposed ss ds _ (fp & _ & (fq & _ & Hc)%result_bind_ok)%result_bind_ok.
    apply categorize_spec in Hc as (Hs & Hd & _).
    split; (eapply Forall_impl; [eassumption|]); intros d [_ Hk]; cbn;
      apply collateral_deficit_categorize_chain_eq in Hk as (b & Hb & _ & Hk);
      repeat case_match; simplify_eq; lia.
Qed.

(** The lists, the ordered surpluses and the matching behind a successful call. *)
Lemma collateral_deficit_getRebalancingRoutes_inv raw ctx routes :
  getRebalancingRoutes s raw ctx = Ok routes ->
  let transfers := default [] (pendingTransfers <$> ctx) in
  exists ss ds sc ordered matched,
    getCategorizedBalances s (reserveCollateral raw transfers)
      (default [] (pendingRebalances <$> ctx)) [] = Ok (ss, ds) /\
    scaleDeficits (sum_by d_amount ss) (sum_by d_amount ds) ds = Ok sc /\
    ordered ≡ₚ ss /\
    matchLoop (bridgeConfigs (base s)) ordered (js_sort by_amount_desc sc) = Ok matched /\
    filterRoutes (base s) matched raw = Ok routes.
Proof using.
  intros ([] & _ & ([ss ds] & Hc & (sc & Hs & (m & Hm & Hf)%result_bind_ok)%result_bind_ok)
    %result_bind_ok)%result_bind_ok.
  eexists ss, ds, sc, _, m. split_and!; [done|done| |exact Hm|done]. apply js_sort_perm.
Qed.

Lemma collateral_deficit_getRebalancingRoutes_safe raw ctx routes :
  getRebalancingRoutes s raw ctx = Ok routes -> Forall (route_safe (base s) raw) routes.
Proof using Hwf.
  intros (ss & ds & sc & o & m & Hcat & Hsc & Ho & Hm & Hf)%collateral_deficit_getRebalancingRoutes_inv.
  eapply (proposeRoutes_safe (base s) o (js_sort by_amount_desc sc)).
  - eapply categorized_perm; [by rewrite Ho| |by eapply categorizer_shape].
    rewrite js_sort_perm. by rewrite (scaleDeficits_chains _ _ _ _ Hsc).
  - unfold proposeRoutes. by rewrite Hm.
Qed.

(** The net effect on each chain, as for the base class. *)
Lemma collateral_deficit_flows raw ctx routes :
  getRebalancingRoutes s raw ctx = Ok routes ->
  exists ss ds,
    getCategorizedBalances s (reserveCollateral raw (default [] (pendingTransfers <$> ctx)))
      (default [] (pendingRebalances <$> ctx)) [] = Ok (ss, ds) /\
    forall c, 0 <= flow_out c routes <= delta_of c ss /\ 0 <= flow_in c routes <= delta_of c ds.
Proof using Hwf.
  intros (ss & ds & sc & o & m & Hcat & Hsc & Ho & Hm & Hf)%collateral_deficit_getRebalancingRoutes_inv.
  destruct (categorizer_nonneg _ _ _ _ _ I Hcat) as [Hss Hds].
  destruct (scaleDeficits_ok _ _ _ _ (sum_by_nonneg _ _ Hss) Hds eq_refl Hsc)
    as (Hsc0 & _ & Hscd & _).
  assert (nonneg o) as Hoo by by rewrite Ho.
  destruct (matchLoop_flows _ _ _ _ Hoo (js_sort_nonneg _ Hsc0) Hm) as (Hfo & Hfi & _).
  destruct (matchLoop_routes _ _ _ _ Hm) as [Hr _].
  exists ss, ds. split; [done|]. intros c. specialize (Hfo c). specialize (Hfi c).
  specialize (Hscd c). rewrite js_sort_delta_of in Hfi.
  assert (delta_of c o = delta_of c ss) as E by (by apply sum_by_perm). rewrite E in Hfo.
  assert (Forall (fun r => 0 < sr_amount r) m) as Hp
    by (eapply Forall_impl; [exact Hr|]; naive_solver).
  pose proof (flow_out_filtered (base s) raw routes m c Hp Hf). lia.
Qed.

End strategy.
End collateral_deficit.

(** A collateral-deficit strategy only tops up chains whose projected balance (counting
    the pending rebalances of its own bridges) is negative, never above the configured
    buffer, and only draws on chains with a positive projected balance, never below zero. *)
Theorem collateral_deficit_covers `{BigNumberJs} cfg tokens bridges s raw ctx routes filtered c :
  map_wf cfg -> make cfg tokens bridges = Ok s ->
  getRebalancingRoutes s raw ctx = Ok routes ->
  filterByConfiguredBridges s (default [] (pendingRebalances <$> ctx)) = Ok filtered ->
  c ∈ map_keys cfg ->
  let before := simulatePendingRebalances
    (reserveCollateral raw (default [] (pendingTransfers <$> ctx))) filtered in
  let after := simulateProposedRebalances before (as_route <$> routes) in
  exists buffer v token, map_get c cfg = Some v /\
    normalizeConfiguredAmount v token = Ok buffer /\ 0 <= buffer /\
    (balance_or_0 before c < 0 ->
       balance_or_0 before c <= balance_or_0 after c <= buffer) /\
    (0 <= balance_or_0 before c ->
       0 <= balance_or_0 after c <= balance_or_0 before c).
Proof.
  intros Hcfg Hmake Hr Hfil Hc before after.
  destruct (collateral_deficit_make_wf _ _ _ _ Hcfg Hmake) as (Hwf & <- & Hb).
  rewrite <- (wf_chains _ Hwf) in Hc.
  destruct (collateral_deficit_flows s Hwf raw ctx routes Hr) as (ss & ds & Hcat & Hfl).
  unfold getCategorizedBalances in Hcat. rewrite Hfil in Hcat. cbn in Hcat.
  unfold simulate in Hcat. fold before in Hcat.
  change (simulateProposedRebalances before []) with before in Hcat.
  destruct (categorize_delta_of _ _ _ _ _ (wf_keys _ Hwf) Hc Hcat) as [Hs Hd].
  apply categorize_spec in Hcat as (_ & _ & _ & _ & Hall). rewrite Forall_forall in Hall.
  destruct (Hall c Hc) as [k Hk]. unfold surplus_at, deficit_at in Hs, Hd. rewrite Hk in Hs, Hd.
  apply collateral_deficit_categorize_chain_eq in Hk as (b & Hb0 & (v & token & Hv & Hn) & ->).
  exists b, v, token. split_and!; [done..| |]; unfold after; rewrite executed_balance;
    specialize (Hfl c); destruct (Z.ltb_spec (balance_or_0 before c) 0);
    destruct (Z.ltb_spec 0 (balance_or_0 before c)); lia.
Qed.

Lemma collateral_deficit_covers_witness :
  let numbers := whole_numbers in
  let s := the_ok (make sample_buffers sample_tokens sample_bridges) eq_refl in
  let raw := balances_of [("a", 100); ("b", 20)] in
  let ctx := Some {| pendingTransfers := [plain_route "a" "b" 50];
                     pendingRebalances := [plain_route "a" "b" 10];
                     proposedRebalances := None |} in
  let routes := the_ok (getRebalancingRoutes s raw ctx) eq_refl in
  let before := simulatePendingRebalances (reserveCollateral raw [plain_route "a" "b" 50])
    [plain_route "a" "b" 10] in
  let after := simulateProposedRebalances before (as_route <$> routes) in
  exists buffer v token, map_get "b" sample_buffers = Some v /\
    normalizeConfiguredAmount v token = Ok buffer /\ 0 <= buffer /\
    (balance_or_0 before "b" < 0 ->
       balance_or_0 before "b" <= balance_or_0 after "b" <= buffer) /\
    (0 <= balance_or_0 before "b" ->
       0 <= balance_or_0 after "b" <= balance_or_0 before "b").
Proof.
  intros numbers s raw ctx routes before after.
  apply (collateral_deficit_covers sample_buffers sample_tokens sample_bridges s raw ctx routes
    [plain_route "a" "b" 10] "b").
  - vm_compute. repeat constructor; set_solver.
  - apply the_ok_eq.
  - apply the_ok_eq.
  - vm_compute. reflexivity.
  - vm_compute. repeat constructor.
Defined.

(** *** The order of the surpluses *)

Lemma buildTransferOriginMap_elem transfers deficitChains o :
  o ∈ allOriginChains (buildTransferOriginMap transfers deficitChains) <->
  exists t, t ∈ transfers /\ r_origin t = o /\ r_destination t ∈ deficitChains.
Proof.
  unfold allOriginChains. rewrite elem_of_set_of.
  assert (forall m : list (string * list string), map_wf m ->
    o ∈ concat (map_values m) <-> exists c l, map_get c m = Some l /\ o ∈ l) as Hcc.
  { intros m Hm. rewrite list_elem_of_In, in_concat. setoid_rewrite <- list_elem_of_In.
    setoid_rewrite (elem_of_map_values_get _ _ Hm). naive_solver. }
  unfold buildTransferOriginMap.
  enough (forall m, map_wf m -> let m' := foldl (fun originMap transfer =>
      if bool_decide (r_destination transfer ∈ deficitChains) then
        let origins := default [] (map_get (r_destination transfer) originMap) in
        map_set (r_destination transfer) (set_add (r_origin transfer) origins) originMap
      else originMap) m transfers in
    map_wf m' /\ ((exists c l, map_get c m' = Some l /\ o ∈ l) <->
      (exists c l, map_get c m = Some l /\ o ∈ l) \/
      exists t, t ∈ transfers /\ r_origin t = o /\ r_destination t ∈ deficitChains)) as Hind.
  { destruct (Hind [] map_wf_nil) as [Hw Hi]. rewrite Hcc by done. rewrite Hi. naive_solver. }
  induction transfers as [|t ts IH]; intros m Hm m'; cbn in m'; subst m'.
  - split; [done|]. set_solver.
  - case_bool_decide as Hd.
    + cbn zeta. destruct (IH (map_set (r_destination t) (set_add (r_origin t)
        (default [] (map_get (r_destination t) m))) m) ltac:(by apply map_wf_set)) as [Hw Hi].
      split; [done|]. rewrite Hi. clear IH Hi Hw. split.
      * intros [(c & l & Hg & Ho)|(t' & ? & ? & ?)]; [|right; exists t'; set_solver].
        rewrite map_get_set in Hg. case_decide; [simplify_eq|left; eauto].
        apply elem_of_set_add in Ho as [->|Ho]; [right; exists t; set_solver|].
        left. destruct (map_get _ m) as [l|] eqn:E; [eauto|set_solver].
      * intros [(c & l & Hg & Ho)|(t' & [->|Ht]%elem_of_cons & <- & ?)].
        -- left. destruct (decide (r_destination t = c)) as [<-|Hne].
           ++ do 2 eexists. rewrite map_get_set_eq. split; [done|].
              apply elem_of_set_add. right. by rewrite Hg.
           ++ exists c, l. by rewrite map_get_set_ne.
        -- left. do 2 eexists. rewrite map_get_set_eq. split; [done|].
           apply elem_of_set_add. by left.
        -- right. eauto.
    + destruct (IH m Hm) as [Hw Hi]. split; [done|]. rewrite Hi. set_solver.
Qed.

Lemma by_amount_desc_lt a b : by_amount_desc a b < 0 <-> d_amount b < d_amount a.
Proof. unfold by_amount_desc. destruct (Z.ltb_spec (d_amount b) (d_amount a)); lia. Qed.

Lemma by_origin_lt origins a b :
  by_origin_then_amount origins a b < 0 <->
  (d_chain a ∈ origins /\ d_chain b ∉ origins) \/
  ((d_chain a ∈ origins <-> d_chain b ∈ origins) /\ d_amount b < d_amount a).
Proof.
  unfold by_origin_then_amount. do 2 case_bool_decide; cbn [andb negb];
    rewrite ?by_amount_desc_lt; naive_solver lia.
Qed.

Lemma by_origin_weak_order origins : weak_order_cmp (by_origin_then_amount origins).
Proof.
  constructor.
  - intros x y. rewrite !by_origin_lt. naive_solver lia.
  - intros x y z. rewrite !by_origin_lt.
    destruct (decide (d_chain x ∈ origins)), (decide (d_chain y ∈ origins)),
      (decide (d_chain z ∈ origins)); intuition (congruence || lia).
Qed.

(** The surpluses are ordered, without loss, so that chains from which a pending transfer
    left for a deficit chain come before every other chain, and inside each of the two groups
    larger amounts come first. *)
Theorem surpluses_prefer_transfer_origins surpluses transfers deficitChains :
  let sorted := sortSurplusesWithOriginPreference surpluses
    (buildTransferOriginMap transfers deficitChains) in
  let is_origin c := exists t, t ∈ transfers /\ r_origin t = c /\ r_destination t ∈ deficitChains in
  sorted ≡ₚ surpluses /\
  StronglySorted (fun a b => (is_origin (d_chain b) -> is_origin (d_chain a)) /\
    ((is_origin (d_chain a) <-> is_origin (d_chain b)) -> d_amount b <= d_amount a)) sorted.
Proof.
  intros sorted is_origin. split; [apply js_sort_perm|].
  pose proof (js_sort_sorted _ surpluses (by_origin_weak_order
    (allOriginChains (buildTransferOriginMap transfers deficitChains)))) as Hs.
  fold (sortSurplusesWithOriginPreference surpluses
    (buildTransferOriginMap transfers deficitChains)) in Hs. fold sorted in Hs.
  induction Hs as [|a l Hl IH Ha]; constructor; [done|].
  eapply Forall_impl; [exact Ha|]. intros b. cbv beta. rewrite by_origin_lt.
  rewrite !buildTransferOriginMap_elem. fold (is_origin (d_chain a)) (is_origin (d_chain b)).
  intros Hn. split.
  - intros Hb. destruct (decide (d_chain a ∈ allOriginChains
      (buildTransferOriginMap transfers deficitChains))) as [Hi|Hi];
      rewrite buildTransferOriginMap_elem in Hi; [done|]. tauto.
  - intros Hiff. destruct (Z.le_gt_cases (d_amount b) (d_amount a)); [done|]. tauto.
Qed.

End CollateralDeficitFacts.
