(* ===== verification/FactoryFacts.v ===== *)
(** What the strategies [createStrategy] builds return: safety of every route, the sequencing
    of composite strategies, and what configuration validation gives the routes. *)
From stdpp Require Import base tactics list gmap strings pretty.
From Stdlib Require Import ZArith QArith Lia.
From S2P Require Import Prelude JsMap Addresses Amount Token Route Config BaseStrategy.
From S2P Require Import Strategies Samples StrategyFacts.

#[local] Open Scope Z_scope.

Import StrategyFactory.

(** The base strategy [createSingleStrategy] sets up for one configuration. *)
Definition strategy_base (sc : StrategyConfig) (tokens : list (string * Token)) : BaseStrategy :=
  Build_BaseStrategy (map_keys (strategy_chains sc)) (extractBridgeConfigs sc) (Some tokens).

Lemma own_entries_keys {A} (l : list (string * (BaseChainConfig * A))) :
  map_keys (own_entries l) = map_keys (base_entries l).
Proof.
  unfold map_keys, own_entries, base_entries.
  induction l as [|[c [b a]] l IH]; [done|]. cbn. by f_equal.
Qed.

(** A route is safe for one of the given configurations. *)
Definition safe_for `{BigNumberJs} (configs : list StrategyConfig)
    (tokens : list (string * Token)) (raw : gmap string Z) (r : StrategyRoute) : Prop :=
  exists sc, sc ∈ configs /\ route_safe (strategy_base sc tokens) raw r.

Section factory.
Context `{BigNumberJs}.

Lemma createSingleStrategy_safe sc tokens total st raw ctx routes :
  map_wf (strategy_chains sc) -> createSingleStrategy sc tokens total = Ok st ->
  is_getRebalancingRoutes st raw ctx = Ok routes ->
  Forall (route_safe (strategy_base sc tokens) raw) routes.
Proof.
  intros Hwf. unfold createSingleStrategy, strategy_base.
  destruct sc as [cs|cs|cs]; cbn [strategy_chains] in *; unfold map_wf in Hwf;
    rewrite <- own_entries_keys in *;
    intros (s & Hs & [= <-])%result_bind_ok; cbn [is_getRebalancingRoutes]; intros Hr.
  - destruct (WeightedFacts.weighted_make_wf _ _ _ _ Hwf Hs) as (Hw & _ & <- & _).
    by destruct (getRebalancingRoutes_safe _ _ _ (Categorizer0 := WeightedFacts.weighted_categorizer s Hw) _ _ _ Hr).
  - destruct (MinAmountFacts.min_amount_make_wf _ _ _ _ _ Hwf Hs) as (Hw & _ & <-).
    by destruct (getRebalancingRoutes_safe _ _ _ (Categorizer0 := MinAmountFacts.min_amount_categorizer s Hw) _ _ _ Hr).
  - destruct (CollateralDeficitFacts.collateral_deficit_make_wf _ _ _ _ Hwf Hs) as (Hw & _ & <-).
    by eapply CollateralDeficitFacts.collateral_deficit_getRebalancingRoutes_safe.
Qed.

(** A property of the routes of every sub-strategy holds of the composite's routes. *)
Lemma run_Forall (P : StrategyRoute -> Prop) strategies raw ctx acc routes :
  Forall (fun st => forall ctx' routes', is_getRebalancingRoutes st raw ctx' = Ok routes' ->
    Forall P routes') strategies ->
  Forall P acc -> Composite.run strategies raw ctx acc = Ok routes -> Forall P routes.
Proof.
  intros Hst. revert acc. induction Hst as [|st sts Hst _ IH]; intros acc Hacc; cbn.
  - by intros [= <-].
  - intros (rs & Hrs & Hr)%result_bind_ok. eapply IH; [|exact Hr].
    apply Forall_app. split; [done|by eapply Hst].
Qed.

(** The chunks of a composite run: each sub-strategy sees the earlier chunks as proposed. *)
Lemma run_chunks strategies raw ctx acc routes :
  Composite.run strategies raw ctx acc = Ok routes <->
  exists chunks, routes = acc ++ concat chunks /\ length chunks = length strategies /\
    forall i st, strategies !! i = Some st -> exists chunk, chunks !! i = Some chunk /\
      is_getRebalancingRoutes st raw (Some {|
        pendingTransfers := default [] (pendingTransfers <$> ctx);
        pendingRebalances := default [] (pendingRebalances <$> ctx);
        proposedRebalances := Some (acc ++ concat (take i chunks)) |}) = Ok chunk.
Proof.
  revert acc; induction strategies as [|st sts IH]; intros acc; cbn.
  - split.
    + intros [= <-]. exists []. rewrite app_nil_r. done.
    + intros ([] & -> & ? & _); [by rewrite app_nil_r|done].
  - rewrite result_bind_ok. split.
    + intros (chunk & Hc & (chunks & -> & Hlen & Hi)%IH). exists (chunk :: chunks).
      split_and!; [cbn; by rewrite <- app_assoc|cbn; lia|].
      intros [|i] st' Hst; cbn in *; simplify_eq.
      * exists chunk. rewrite app_nil_r. done.
      * destruct (Hi i st' Hst) as (ch & Hch & Hr). exists ch. by rewrite app_assoc.
    + intros ([|chunk chunks] & -> & Hlen & Hi); [done|].
      destruct (Hi 0%nat st eq_refl) as (ch & [= <-] & Hr). cbn in Hr.
      rewrite app_nil_r in Hr. exists chunk. split; [done|]. apply IH. exists chunks.
      split_and!; [cbn; by rewrite app_assoc|cbn in *; lia|].
      intros i st' Hst. destruct (Hi (S i) st' Hst) as (ch & Hch & Hr'). exists ch.
      split; [done|]. cbn in Hr'. by rewrite <- app_assoc.
Qed.

End factory.

(** The statement of the safety of strategies, for its clients. *)
Lemma createStrategy_safe_for `{BigNumberJs} configs tokens total st raw ctx routes :
  Forall (fun sc => map_wf (strategy_chains sc)) configs ->
  createStrategy configs tokens total = Ok st ->
  is_getRebalancingRoutes st raw ctx = Ok routes ->
  Forall (safe_for configs tokens raw) routes.
Proof.
  intros Hwf Hst Hr.
  assert (forall sc st' ctx' routes', sc ∈ configs -> createSingleStrategy sc tokens total = Ok st' ->
    is_getRebalancingRoutes st' raw ctx' = Ok routes' ->
    Forall (safe_for configs tokens raw) routes') as Hone.
  { intros sc st' ctx' routes' Hsc Hc Hr'. rewrite Forall_forall in Hwf.
    eapply Forall_impl; [by eapply createSingleStrategy_safe; eauto|].
    intros r Hsafe. by exists sc. }
  destruct configs as [|sc1 [|sc2 scs]]; [done|by eapply Hone; [constructor|..]|].
  unfold createStrategy in Hst.
  apply result_bind_ok in Hst as (sts & Hsts & Hst). unfold Composite.make in Hst.
  destruct (_ <? _)%nat; [done|]. injection Hst as <-. cbn in Hr.
  eapply run_Forall; [|constructor|exact Hr].
  apply mapM_result_ok_inv in Hsts. rewrite Forall_forall.
  intros st' [i Hi]%list_elem_of_lookup.
  destruct (Forall2_lookup_r _ _ _ _ _ Hsts Hi) as (sc & Hsc & Hc).
  intros ctx' routes'. eapply Hone; [|exact Hc]. by eapply list_elem_of_lookup_2.
Qed.

(** C1: Every route returned by any strategy the factory builds, composite ones included, and
    for any balances and inflight context it accepts, is safe for one of the configured
    strategies: a positive amount, not more than the origin's raw balance, between two distinct
    configured chains, along the bridge configured for that pair, at least its minimum. *)
Theorem createStrategy_routes_safe `{BigNumberJs} configs tokens total st raw ctx routes :
  Forall (fun sc => map_wf (strategy_chains sc)) configs ->
  createStrategy configs tokens total = Ok st ->
  is_getRebalancingRoutes st raw ctx = Ok routes ->
  Forall (safe_for configs tokens raw) routes.
Proof. apply createStrategy_safe_for. Qed.

Lemma createStrategy_routes_safe_witness :
  let numbers := whole_numbers in
  let st := the_ok (createStrategy (sample_strategies ++ sample_strategies) sample_tokens 150)
              eq_refl in
  let raw := balances_of [("a", 100); ("b", 20); ("c", 30)] in
  let routes := the_ok (is_getRebalancingRoutes st raw None) eq_refl in
  length routes = 2%nat /\
  Forall (safe_for (sample_strategies ++ sample_strategies) sample_tokens raw) routes.
Proof.
  intros numbers st raw routes. split; [vm_compute; reflexivity|].
  apply (createStrategy_routes_safe (sample_strategies ++ sample_strategies) sample_tokens 150 st
    raw None routes).
  - vm_compute. repeat constructor; set_solver.
  - apply the_ok_eq.
  - apply the_ok_eq.
Defined.

(** A composite strategy succeeds exactly when its sub-strategies do in sequence: the
    [i]-th one is run on the same raw balances and inflight operations with the concatenated
    routes of the earlier ones as proposed rebalances, and the result is all routes in order. *)
Theorem composite_runs_in_sequence strategies st raw ctx routes :
  Composite.make strategies = Ok st ->
  is_getRebalancingRoutes st raw ctx = Ok routes <->
  exists chunks, routes = concat chunks /\ length chunks = length strategies /\
    forall i sub, strategies !! i = Some sub -> exists chunk, chunks !! i = Some chunk /\
      is_getRebalancingRoutes sub raw (Some {|
        pendingTransfers := default [] (pendingTransfers <$> ctx);
        pendingRebalances := default [] (pendingRebalances <$> ctx);
        proposedRebalances := Some (concat (take i chunks)) |}) = Ok chunk.
Proof.
  unfold Composite.make. destruct (_ <? _)%nat; [done|]. intros [= <-]. cbn.
  apply (run_chunks strategies raw ctx [] routes).
Qed.

Lemma composite_runs_in_sequence_witness :
  let numbers := whole_numbers in
  let single := the_ok (createStrategy sample_strategies sample_tokens 150) eq_refl in
  let st := the_ok (Composite.make [single; single]) eq_refl in
  let raw := balances_of [("a", 100); ("b", 20); ("c", 30)] in
  let routes := the_ok (is_getRebalancingRoutes st raw None) eq_refl in
  exists chunks, routes = concat chunks /\ length chunks = 2%nat /\
    forall i sub, [single; single] !! i = Some sub -> exists chunk, chunks !! i = Some chunk /\
      is_getRebalancingRoutes sub raw (Some {|
        pendingTransfers := []; pendingRebalances := [];
        proposedRebalances := Some (concat (take i chunks)) |}) = Ok chunk.
Proof.
  intros numbers single st raw routes.
  apply (composite_runs_in_sequence [single; single] st raw None routes); apply the_ok_eq.
Defined.

(** ** What validation gives the routes *)

Lemma concat_nil_elem {A} (ls : list (list A)) l : concat ls = [] -> l ∈ ls -> l = [].
Proof.
  induction ls as [|l' ls IH]; cbn; [set_solver|].
  intros [-> Hls]%app_eq_nil [->|Hl]%elem_of_cons; [done|by apply IH].
Qed.

Lemma when_nil b i : when b i = [] -> b = false.
Proof. by destruct b. Qed.

Lemma config_issues_bridges config i sc entry :
  config_issues config = [] -> rc_strategy config !! i = Some sc ->
  entry ∈ strategy_chains sc -> bridge_issues i entry = [].
Proof.
  unfold config_issues. intros (_ & (Hs & _)%app_eq_nil)%app_eq_nil Hi He.
  assert (strategy_issues i sc = []) as Hsi.
  { apply (concat_nil_elem _ _ Hs). apply list_elem_of_lookup. exists i.
    by rewrite list_lookup_imap, Hi. }
  unfold strategy_issues in Hsi. apply app_eq_nil in Hsi as (_ & (_ & Hb)%app_eq_nil).
  apply (concat_nil_elem _ _ Hb). apply list_elem_of_fmap. eauto.
Qed.

Lemma extract_lookup sc o :
  map_get o (extractBridgeConfigs sc) = extractBridgeConfig <$> map_get o (strategy_chains sc).
Proof.
  unfold extractBridgeConfigs. induction (strategy_chains sc) as [|[c cfg] l IH]; [done|].
  cbn. by case_decide.
Qed.

(** Without the fields a configuration lacks, it is executable. *)
Lemma executable_of_checks c :
  lacks_bridge c = false -> lacks_externalBridge c = false ->
  match execution_type c with
  | MovableCollateral => truthy (cc_bridge c) = true
  | Inventory => is_Some (cc_externalBridge c)
  end.
Proof.
  unfold lacks_bridge, lacks_externalBridge. destruct (execution_type c); cbn.
  - by destruct (truthy _).
  - destruct (cc_externalBridge c); [eauto|done].
Qed.

(** Once a configuration validates, every pair whose override (if any) keeps the execution
    type of its origin chain gets a bridge configuration that can be executed: a non-empty
    bridge address, or an external bridge for inventory routes. *)
Theorem validated_pairs_executable config i sc o d chainConfig bc :
  config_issues config = [] -> rc_strategy config !! i = Some sc ->
  map_get o (strategy_chains sc) = Some chainConfig ->
  getBridgeConfig (extractBridgeConfigs sc) o d = Ok bc ->
  bc_executionType bc = execution_type chainConfig ->
  forall a, route_executable (createStrategyRoute bc o d a) = true.
Proof.
  intros Hv Hi Ho Hbc Hty a. rewrite createStrategyRoute_executable.
  pose proof (config_issues_bridges _ _ _ _ Hv Hi (map_get_elem _ _ _ Ho)) as Hb.
  unfold bridge_issues in Hb.
  apply app_eq_nil in Hb as (H1%when_nil & (H2%when_nil & H3)%app_eq_nil).
  unfold getBridgeConfig in Hbc. rewrite extract_lookup, Ho in Hbc. cbn in Hbc.
  injection Hbc as <-.
  destruct (ovs ← cc_override chainConfig; map_get d ovs) as [ov|] eqn:Hov; cbn in Hty |- *.
  - assert (lacks_bridge (merged_chain_config chainConfig ov) = false /\
      lacks_externalBridge (merged_chain_config chainConfig ov) = false) as [H4 H5].
    { destruct (cc_override chainConfig) as [ovs|] eqn:E; [cbn in Hov|done].
      assert (when (lacks_bridge (merged_chain_config chainConfig ov)) (OverrideMissingBridge i o d) ++
        when (lacks_externalBridge (merged_chain_config chainConfig ov))
          (OverrideMissingExternalBridge i o d) = []) as Hw.
      { apply (concat_nil_elem _ _ H3). unfold overrides. rewrite E.
        apply list_elem_of_fmap. exists (d, ov). split; [done|by apply map_get_elem]. }
      apply app_eq_nil in Hw as [?%when_nil ?%when_nil]. done. }
    pose proof (executable_of_checks _ H4 H5) as Hx. clear -Hx Hty.
    unfold config_executable, execution_type in *. cbn in *.
    destruct (cc_executionType chainConfig) as [[]|], (bo_executionType ov) as [[]|];
      cbn in *; try done; try (by destruct (bo_bridge ov) as [[]|], (cc_bridge chainConfig) as [[]|]);
      by apply bool_decide_eq_true.
  - pose proof (executable_of_checks _ H1 H2) as Hx. clear -Hx.
    unfold config_executable, execution_type in *. cbn in *.
    destruct (cc_executionType chainConfig) as [[]|]; cbn in *;
      try (by destruct (cc_bridge chainConfig) as [[]|]); by apply bool_decide_eq_true.
Qed.

(** A configuration whose override for one destination switches to inventory execution; the
    external bridge stands on the chain itself. *)
Definition switching_chain : BaseChainConfig := {|
  cc_bridge := Some "0xbridge";
  cc_executionType := None;
  cc_externalBridge := Some LiFi;
  cc_bridgeMinAcceptedAmount := None;
  cc_override := Some [("b", {| bo_executionType := Some Inventory; bo_bridge := None;
                               bo_externalBridge := None; bo_bridgeMinAcceptedAmount := None |})]
|}.

Definition switching_strategy : StrategyConfig :=
  WeightedStrategySchema
    [("a", (switching_chain, {| weight := 1; tolerance := 0 |}));
     ("b", (sample_chain, {| weight := 1; tolerance := 0 |}))].

Definition switching_config : RebalancerConfigInput := {|
  rc_strategy := [switching_strategy];
  rc_inventorySigners := Some [(PEthereum,
    {| is_address := "0x00000000000000000000000000000000000000aa"; is_key := None |})];
  rc_lifiIntegrator := Some "rebalancer"
|}.

Lemma validated_pairs_executable_witness :
  let bc := the_ok (getBridgeConfig (extractBridgeConfigs switching_strategy) "a" "c") eq_refl in
  route_executable (createStrategyRoute bc "a" "c" 7) = true.
Proof.
  intros bc.
  apply (validated_pairs_executable switching_config 0 switching_strategy "a" "c"
    switching_chain bc); vm_compute; reflexivity.
Defined.

(** The condition on overrides is needed. The configuration above validates, because the
    checks merge the override over all fields of the chain; the strategy built from it keeps
    only the fields of the chain's own execution type, so it returns an inventory route
    without an external bridge, which cannot be executed. *)
Theorem override_switch_not_executable (numbers := whole_numbers) :
  config_issues switching_config = [] /\
  exists st routes,
    createStrategy (rc_strategy switching_config) sample_tokens 100 = Ok st /\
    is_getRebalancingRoutes st (balances_of [("a", 100); ("b", 0)]) None = Ok routes /\
    routes = [{| sr_origin := "a"; sr_destination := "b"; sr_amount := 50;
                 sr_execution := ByInventory None |}] /\
    Forall (fun r => route_executable r = false) routes.
Proof.
  split; [vm_compute; reflexivity|].
  eexists _, _. split_and!; [cbn; reflexivity|vm_compute; reflexivity|reflexivity|].
  repeat constructor.
Qed.

(** The balance check of [filterRoutes] looks at one route at a time. With a pending
    rebalance still on its way to the origin, the routes a weighted strategy returns can
    together ask for more than the origin holds. *)
Theorem filterRoutes_not_cumulative (numbers := whole_numbers) :
  exists st routes,
    createStrategy sample_strategies sample_tokens 100 = Ok st /\
    is_getRebalancingRoutes st (balances_of [("a", 100); ("b", 0); ("c", 0)])
      (Some {| pendingTransfers := []; pendingRebalances := [plain_route "b" "a" 100];
               proposedRebalances := None |}) = Ok routes /\
    Forall (fun r => sr_amount r <= 100) routes /\
    flow_out "a" routes = 150.
Proof.
  eexists _, _. split_and!; [cbn; reflexivity|vm_compute; reflexivity| |vm_compute; reflexivity].
  repeat constructor; cbn; lia.
Qed.
