(* ===== verification/Bytes.v ===== *)
(** Bytes, hexadecimal strings and big-endian integers, as [Buffer] and [BigInt] treat them,
    and the prefix helpers of utils/src/addresses.ts. A byte is an integer below 256. *)
From Stdlib Require Import ZArith Lia String Ascii.
From stdpp Require Import base tactics list strings.
From S2P Require Import Prelude.

#[local] Open Scope Z_scope.

Notation bytes := (list Z).

Definition byte_ok (b : Z) : Prop := 0 <= b < 256.
Definition bytes_ok (bs : bytes) : Prop := Forall byte_ok bs.

(** ** Operations *)

(** The value of one hexadecimal digit, in either case. *)
Definition hex_value (c : ascii) : option Z :=
  let n := Z.of_nat (nat_of_ascii c) in
  if (48 <=? n) && (n <=? 57) then Some (n - 48)
  else if (97 <=? n) && (n <=? 102) then Some (n - 87)
  else if (65 <=? n) && (n <=? 70) then Some (n - 55)
  else None.

Definition hex_char (n : Z) : ascii :=
  ascii_of_nat (Z.to_nat (if n <? 10 then n + 48 else n + 87)).

(** [Buffer.from(s, 'hex')]: decoding stops at the first pair that is not two digits. *)
Fixpoint buffer_from_hex (s : string) : bytes :=
  match s with
  | String c1 (String c2 s') =>
      match hex_value c1, hex_value c2 with
      | Some a, Some b => a * 16 + b :: buffer_from_hex s'
      | _, _ => []
      end
  | _ => []
  end.

(** [buf.toString('hex')]. *)
Fixpoint buffer_to_hex (bs : bytes) : string :=
  match bs with
  | [] => EmptyString
  | b :: bs' => String (hex_char (b / 16)) (String (hex_char (b mod 16)) (buffer_to_hex bs'))
  end.

(** [hexstr.startsWith('0x')]. *)
Definition has_0x (hexstr : string) : bool :=
  match hexstr with
  | String a (String b _) => Ascii.eqb a "0" && Ascii.eqb b "x"
  | _ => false
  end.

Definition ensure0x (hexstr : string) : string :=
  if has_0x hexstr then hexstr else String "0" (String "x" hexstr).

Definition strip0x (hexstr : string) : string :=
  match hexstr with
  | String a (String b rest) => if Ascii.eqb a "0" && Ascii.eqb b "x" then rest else hexstr
  | _ => hexstr
  end.

(** utils/src/strings.ts. *)
Definition fromHexString (hexstr : string) : bytes := buffer_from_hex (strip0x hexstr).
Definition toHexString (buf : bytes) : string := ensure0x (buffer_to_hex buf).

(** [buf.subarray(first, last)]. *)
Definition subarray (first last : nat) (buf : bytes) : bytes := take (last - first) (drop first buf).

(** A big-endian integer, and the [n] bytes of one. *)
Definition be_value (bs : bytes) : Z := foldl (fun acc b => acc * 256 + b) 0 bs.

Fixpoint be_bytes (n : nat) (v : Z) : bytes :=
  match n with
  | O => []
  | S n' => v / 256 ^ Z.of_nat n' mod 256 :: be_bytes n' v
  end.

(** [buf.readUInt8(o)], [buf.readUInt32BE(o)]: out of range reads throw. *)
Definition readUIntBE (n : nat) (offset : nat) (buf : bytes) : result Z :=
  if (length buf <? offset + n)%nat
  then Throw (RangeError "The value of offset is out of range")
  else Ok (be_value (subarray offset (offset + n) buf)).
Definition readUInt8 := readUIntBE 1.
Definition readUInt32BE := readUIntBE 4.

(** The value of a string of digits, [None] at the first other character. *)
Fixpoint hex_digits (s : string) (acc : Z) : option Z :=
  match s with
  | EmptyString => Some acc
  | String c s' => match hex_value c with
                   | Some d => hex_digits s' (acc * 16 + d)
                   | None => None
                   end
  end.

(** [BigInt(s)] at a string that starts with [0x]. *)
Definition bigint_of_hex (s : string) : result Z :=
  match strip0x s with
  | EmptyString => Throw (SyntaxError "Cannot convert 0x to a BigInt")
  | digits => match hex_digits digits 0 with
              | Some v => Ok v
              | None => Throw (SyntaxError "Cannot convert to a BigInt")
              end
  end.

(** ** Facts *)

Lemma hex_value_char n : 0 <= n < 16 -> hex_value (hex_char n) = Some n.
Proof.
  intros H. assert (exists k, (k < 16)%nat /\ n = Z.of_nat k) as (k & Hk & ->)
    by (exists (Z.to_nat n); lia).
  do 16 (destruct k as [|k]; [reflexivity|]). lia.
Qed.

Lemma byte_nibbles b : byte_ok b -> 0 <= b / 16 < 16 /\ 0 <= b mod 16 < 16.
Proof.
  intros [? ?]. split; [|apply Z.mod_pos_bound; lia].
  split; [apply Z.div_pos; lia|apply Z.div_lt_upper_bound; lia].
Qed.

Lemma buffer_from_to_hex bs : bytes_ok bs -> buffer_from_hex (buffer_to_hex bs) = bs.
Proof.
  induction 1 as [|b bs Hb _ IH]; [done|]. cbn.
  destruct (byte_nibbles b Hb). rewrite !hex_value_char by done. rewrite IH. f_equal.
  pose proof (Z.div_mod b 16). lia.
Qed.

Lemma buffer_to_hex_no_0x bs : bytes_ok bs -> has_0x (buffer_to_hex bs) = false.
Proof.
  destruct bs as [|b bs]; [done|]. intros [Hb _]%Forall_cons. cbn.
  destruct (byte_nibbles b Hb) as [_ Hn]. apply andb_false_iff. right.
  assert (exists k, (k < 16)%nat /\ b mod 16 = Z.of_nat k) as (k & Hk & ->)
    by (exists (Z.to_nat (b mod 16)); lia).
  do 16 (destruct k as [|k]; [reflexivity|]). lia.
Qed.

Lemma toHexString_eq bs :
  bytes_ok bs -> toHexString bs = String "0" (String "x" (buffer_to_hex bs)).
Proof. intros H. unfold toHexString, ensure0x. by rewrite buffer_to_hex_no_0x. Qed.

Lemma strip0x_no_0x s : has_0x s = false -> strip0x s = s.
Proof. destruct s as [|a [|b s]]; cbn; [done..|]. by intros ->. Qed.

Lemma fromHexString_toHexString bs : bytes_ok bs -> fromHexString (toHexString bs) = bs.
Proof. intros H. unfold fromHexString. rewrite toHexString_eq by done. by apply buffer_from_to_hex. Qed.

Lemma hex_value_range c d : hex_value c = Some d -> 0 <= d < 16.
Proof.
  unfold hex_value. set (n := Z.of_nat (nat_of_ascii c)).
  destruct (Z.leb_spec 48 n), (Z.leb_spec n 57), (Z.leb_spec 97 n), (Z.leb_spec n 102),
    (Z.leb_spec 65 n), (Z.leb_spec n 70); cbn; intros [= <-]; lia.
Qed.

Lemma buffer_from_hex_ok s : bytes_ok (buffer_from_hex s).
Proof.
  enough (forall n s, (String.length s <= n)%nat -> bytes_ok (buffer_from_hex s)) as H
    by (eapply H; reflexivity).
  clear s. induction n as [|n IH]; intros [|c1 [|c2 s]] Hn; cbn in *; try constructor; try lia.
  destruct (hex_value c1) as [a|] eqn:Ha; [|constructor].
  destruct (hex_value c2) as [b|] eqn:Hb; [|constructor].
  apply hex_value_range in Ha, Hb.
  constructor; [unfold byte_ok; lia|apply IH; lia].
Qed.

Lemma bytes_ok_app b1 b2 : bytes_ok (b1 ++ b2) <-> bytes_ok b1 /\ bytes_ok b2.
Proof. apply Forall_app. Qed.

Lemma bytes_ok_take n bs : bytes_ok bs -> bytes_ok (take n bs).
Proof. apply Forall_take. Qed.

Lemma bytes_ok_drop n bs : bytes_ok bs -> bytes_ok (drop n bs).
Proof. apply Forall_drop. Qed.

Lemma bytes_ok_subarray i j bs : bytes_ok bs -> bytes_ok (subarray i j bs).
Proof. intros H. by apply bytes_ok_take, bytes_ok_drop. Qed.

Lemma be_value_snoc bs b : be_value (bs ++ [b]) = be_value bs * 256 + b.
Proof. unfold be_value. by rewrite foldl_app. Qed.

Lemma be_value_acc bs acc :
  foldl (fun acc b => acc * 256 + b) acc bs = acc * 256 ^ Z.of_nat (length bs) + be_value bs.
Proof.
  unfold be_value. revert acc. induction bs as [|b bs IH]; intros acc; cbn [foldl length].
  - rewrite Z.pow_0_r. lia.
  - rewrite IH, (IH (0 * 256 + b)), Nat2Z.inj_succ, Z.pow_succ_r by lia. lia.
Qed.

Lemma be_value_cons b bs : be_value (b :: bs) = b * 256 ^ Z.of_nat (length bs) + be_value bs.
Proof. unfold be_value at 1. cbn [foldl]. rewrite be_value_acc. lia. Qed.

Lemma be_value_range bs : bytes_ok bs -> 0 <= be_value bs < 256 ^ Z.of_nat (length bs).
Proof.
  induction 1 as [|b bs [Hb Hb'] _ IH]; [done|].
  rewrite be_value_cons. cbn [length]. rewrite Nat2Z.inj_succ, Z.pow_succ_r by lia. nia.
Qed.

Lemma be_bytes_ok n v : bytes_ok (be_bytes n v).
Proof. induction n; constructor; [apply Z.mod_pos_bound; lia|done]. Qed.

Lemma be_bytes_length n v : length (be_bytes n v) = n.
Proof. induction n; cbn; congruence. Qed.

Lemma be_value_bytes n v : be_value (be_bytes n v) = v mod 256 ^ Z.of_nat n.
Proof.
  induction n as [|n IH]; cbn [be_bytes]; [by rewrite Z.mod_1_r|].
  rewrite be_value_cons, be_bytes_length, IH, Nat2Z.inj_succ, Z.pow_succ_r by lia.
  set (p := 256 ^ Z.of_nat n). assert (0 < p) by (apply Z.pow_pos_nonneg; lia).
  rewrite (Z.mul_comm 256 p), Z.rem_mul_r by lia. lia.
Qed.

Lemma be_value_bytes_id n v : 0 <= v < 256 ^ Z.of_nat n -> be_value (be_bytes n v) = v.
Proof. intros H. rewrite be_value_bytes. by apply Z.mod_small. Qed.

Lemma hex_digits_buffer bs acc :
  bytes_ok bs ->
  hex_digits (buffer_to_hex bs) acc = Some (foldl (fun acc b => acc * 256 + b) acc bs).
Proof.
  intros H. revert acc. induction H as [|b bs Hb _ IH]; intros acc; [done|]. cbn.
  destruct (byte_nibbles b Hb). rewrite !hex_value_char by done. rewrite IH. do 2 f_equal.
  pose proof (Z.div_mod b 16). lia.
Qed.

(** [BigInt(toHexString(bs))]. *)
Lemma bigint_of_toHexString bs :
  bytes_ok bs ->
  bigint_of_hex (toHexString bs) =
    match bs with
    | [] => Throw (SyntaxError "Cannot convert 0x to a BigInt")
    | _ => Ok (be_value bs)
    end.
Proof.
  intros H. rewrite toHexString_eq by done. destruct bs as [|b bs]; [done|].
  pose proof (hex_digits_buffer (b :: bs) 0 H) as E. unfold bigint_of_hex, be_value.
  cbn [strip0x Ascii.eqb Bool.eqb andb buffer_to_hex] in *. by rewrite E.
Qed.

Lemma subarray_app_l i j b1 b2 :
  (i <= j)%nat -> (j <= length b1)%nat -> subarray i j (b1 ++ b2) = subarray i j b1.
Proof.
  intros Hi Hj. unfold subarray. rewrite drop_app_le by lia.
  apply take_app_le. rewrite length_drop. lia.
Qed.

Lemma subarray_app_r i j b1 b2 :
  (length b1 <= i)%nat ->
  subarray i j (b1 ++ b2) = subarray (i - length b1) (j - length b1) b2.
Proof.
  intros Hi. unfold subarray. rewrite drop_app_ge by lia.
  by replace (j - i)%nat with (j - length b1 - (i - length b1))%nat by lia.
Qed.

Lemma subarray_full bs n : n = length bs -> subarray 0 n bs = bs.
Proof. intros ->. unfold subarray. cbn. rewrite Nat.sub_0_r. apply firstn_all. Qed.

#[export] Hint Resolve be_bytes_ok bytes_ok_take bytes_ok_drop bytes_ok_subarray
  buffer_from_hex_ok : core.
