(* ===== verification/Messages.v ===== *)
(** Hyperlane messages, utils/src/messages.ts: packing and parsing of messages, of warp route
    bodies and of standard hook metadata. The functions of ethers are the class [Ethers]. *)
From Stdlib Require Import ZArith Lia String Ascii.
From stdpp Require Import base tactics list strings.
From S2P Require Import Prelude Addresses Bytes.

#[local] Open Scope Z_scope.

(** ** ethers *)

(** The arguments of [solidityPack] that the code passes. *)
Inductive SolItem : Type :=
| SolUint (size : nat) (value : Z)
| SolBytes32 (value : string)
| SolBytes (value : string)
| SolAddress (value : string).

Class Ethers : Type := {
  arrayify : string -> result bytes;
  hexlify : bytes -> string;
  hexZeroPad : string -> nat -> result string;
  getAddress : string -> result string;
  solidityPack : list SolItem -> result string;
  (** [addressToBytes] of addresses.ts: decoding by protocol, through each chain's library *)
  addressToBytes : string -> result bytes
}.

(** Tight packing: what the documentation of [solidityPack] gives for each argument that is
    in range ([size] is in bytes). *)
Definition pack_item (item : SolItem) : option bytes :=
  match item with
  | SolUint size v =>
      if (0 <=? v) && (v <? 256 ^ Z.of_nat size) then Some (be_bytes size v) else None
  | SolBytes32 s =>
      let bs := fromHexString s in
      if bool_decide (s = toHexString bs) && (length bs =? 32)%nat then Some bs else None
  | SolBytes s =>
      let bs := fromHexString s in
      if bool_decide (s = toHexString bs) then Some bs else None
  | SolAddress s =>
      let bs := fromHexString s in
      if bool_decide (s = toHexString bs) && (length bs =? 20)%nat then Some bs else None
  end.

Class EthersLaws `{Ethers} : Prop := {
  arrayify_hex bs : bytes_ok bs -> arrayify (toHexString bs) = Ok bs;
  hexlify_hex bs : bytes_ok bs -> hexlify bs = toHexString bs;
  solidityPack_ok items bss :
    mapM pack_item items = Some bss -> solidityPack items = Ok (toHexString (concat bss))
}.

(** ** Addresses of 32 bytes *)

(** [/^0x[a-fA-F0-9]{64}$/]. *)
Definition is_bytes32 (s : string) : bool :=
  match s with
  | String "0" (String "x" digits) =>
      string_all is_hex_digit digits && (String.length digits =? 64)%nat
  | _ => false
  end.

Section messages.
Context `{Ethers}.

Definition bytesToBytes32 (bs : bytes) : result string :=
  if (32 <? length bs)%nat then Throw (Error "bytes must be 32 bytes or less")
  else hexZeroPad (ensure0x (buffer_to_hex bs)) 32.

Definition addressToBytes32 (address : string) : result string :=
  if is_bytes32 (ensure0x address) then Ok (ensure0x address)
  else bs ← addressToBytes address; bytesToBytes32 bs.

(** ** Messages *)

Record ParsedMessage : Type := {
  version : Z;
  nonce : Z;
  origin : Z;
  sender : string;
  destination : Z;
  recipient : string;
  body : string
}.

Definition formatMessage (version nonce originDomain : Z) (senderAddr : string)
    (destinationDomain : Z) (recipientAddr : string) (body : string) : result string :=
  senderAddr ← addressToBytes32 senderAddr;
  recipientAddr ← addressToBytes32 recipientAddr;
  solidityPack [SolUint 1 version; SolUint 4 nonce; SolUint 4 originDomain;
                SolBytes32 senderAddr; SolUint 4 destinationDomain;
                SolBytes32 recipientAddr; SolBytes body].

Definition parseMessage (message : string) : result ParsedMessage :=
  buf ← arrayify message;
  version ← readUInt8 0 buf;
  nonce ← readUInt32BE 1 buf;
  origin ← readUInt32BE 5 buf;
  let sender := hexlify (subarray 9 41 buf) in
  destination ← readUInt32BE 41 buf;
  let recipient := hexlify (subarray 45 77 buf) in
  let body := hexlify (drop 77 buf) in
  Ok {| version := version; nonce := nonce; origin := origin; sender := sender;
        destination := destination; recipient := recipient; body := body |}.

(** ** Warp route bodies *)

Record ParsedWarpRouteMessage : Type := { wr_recipient : string; wr_amount : Z }.

Definition parseWarpRouteMessage (messageBody : string) : result ParsedWarpRouteMessage :=
  let buf := fromHexString messageBody in
  let recipient := toHexString (subarray 0 32 buf) in
  amount ← bigint_of_hex (toHexString (subarray 32 64 buf));
  Ok {| wr_recipient := recipient; wr_amount := amount |}.

(** ** Standard hook metadata *)

Definition AddressZero : string := "0x0000000000000000000000000000000000000000".
Definition DEFAULT_GAS_LIMIT : Z := 50000.

Record StandardHookMetadata : Type := {
  refundAddress : string;
  msgValue : Z;
  gasLimit : Z
}.

Definition formatStandardHookMetadata (refundAddress : option string)
    (msgValue gasLimit : option Z) : result string :=
  solidityPack [SolUint 2 1; SolUint 32 (default 0 msgValue);
                SolUint 32 (default DEFAULT_GAS_LIMIT gasLimit);
                SolAddress (default AddressZero refundAddress)].

Definition MSG_VALUE_START : nat := 6.
Definition GAS_LIMIT_START : nat := MSG_VALUE_START + 64.
Definition REFUND_START : nat := GAS_LIMIT_START + 64.
Definition REFUND_END : nat := REFUND_START + 40.

(** [s.slice(first, last)] of a string at least [last] long. *)
Definition slice (s : string) (first last : nat) : string := String.substring first (last - first) s.

Definition hex_only (s : string) : bool :=
  match s with
  | String "0" (String "x" digits) => string_all is_hex_digit digits
  | _ => false
  end.

(** [null] is [None]; the [try] block turns every error into [null]. *)
Definition parseStandardHookMetadata (metadata : option string) : option StandardHookMetadata :=
  match metadata with
  | None => None
  | Some metadata =>
      if bool_decide (metadata = EmptyString) || bool_decide (metadata = "0x") then None
      else if negb (hex_only metadata) then None
      else if negb (String.prefix "0x0001" metadata) then None
      else if (String.length metadata <? REFUND_END)%nat then None
      else
        let parsed :=
          msgValue ← bigint_of_hex ("0x" +:+ slice metadata MSG_VALUE_START GAS_LIMIT_START);
          gasLimit ← bigint_of_hex ("0x" +:+ slice metadata GAS_LIMIT_START REFUND_START);
          refundAddress ← getAddress ("0x" +:+ slice metadata REFUND_START REFUND_END);
          Ok {| refundAddress := refundAddress; msgValue := msgValue; gasLimit := gasLimit |} in
        match parsed with Ok m => Some m | Throw _ => None end
  end.

Definition extractRefundAddressFromMetadata (metadata : option string) : option string :=
  refundAddress <$> parseStandardHookMetadata metadata.

(** [s.toLowerCase()] at the characters an address is made of. *)
Fixpoint to_lower (s : string) : string :=
  match s with
  | EmptyString => EmptyString
  | String c s' =>
      let n := nat_of_ascii c in
      String (if (65 <=? n)%nat && (n <=? 90)%nat then ascii_of_nat (n + 32) else c) (to_lower s')
  end.

Definition hasValidRefundAddress (metadata : option string) : bool :=
  match extractRefundAddressFromMetadata metadata with
  | Some a => negb (bool_decide (to_lower a = AddressZero))
  | None => false
  end.

End messages.

(** ** Facts *)

Lemma parseWarpRouteMessage_eq messageBody :
  let buf := fromHexString messageBody in
  parseWarpRouteMessage messageBody =
    if (length buf <=? 32)%nat then Throw (SyntaxError "Cannot convert 0x to a BigInt")
    else Ok {| wr_recipient := toHexString (take 32 buf);
               wr_amount := be_value (take 32 (drop 32 buf)) |}.
Proof.
  intros buf. unfold parseWarpRouteMessage. fold buf.
  assert (bytes_ok buf) as Hb by apply buffer_from_hex_ok.
  rewrite bigint_of_toHexString by auto. unfold subarray. cbn [Nat.sub].
  replace (drop 0 buf) with buf by done.
  destruct (Nat.leb_spec (length buf) 32) as [Hl|Hl].
  - by rewrite drop_ge, take_nil by lia.
  - destruct (take 32 (drop 32 buf)) as [|b bs] eqn:E; [|done].
    apply (f_equal length) in E. rewrite length_take, length_drop in E. cbn [length] in E. lia.
Qed.

(** [parseWarpRouteMessage] reads back a warp route body: from 32 bytes of recipient, an
    amount below 2^256 as 32 big-endian bytes and any trailing metadata, written in
    hexadecimal, it returns that recipient and that amount. *)
Theorem parseWarpRouteMessage_roundtrip rcpt amount extra :
  bytes_ok rcpt -> length rcpt = 32%nat -> 0 <= amount < 2 ^ 256 -> bytes_ok extra ->
  parseWarpRouteMessage (toHexString (rcpt ++ be_bytes 32 amount ++ extra)) =
    Ok {| wr_recipient := toHexString rcpt; wr_amount := amount |}.
Proof.
  intros Hr Hlen Ha He. rewrite parseWarpRouteMessage_eq.
  rewrite fromHexString_toHexString by (rewrite !bytes_ok_app; auto).
  rewrite (proj2 (Nat.leb_gt _ _)) by (rewrite !length_app, be_bytes_length; lia).
  rewrite take_app_le, drop_app_ge, take_ge by lia.
  rewrite Hlen, Nat.sub_diag, drop_0.
  rewrite take_app_le, take_ge by (rewrite be_bytes_length; lia).
  rewrite be_value_bytes_id by exact Ha. done.
Qed.

Lemma parseWarpRouteMessage_roundtrip_witness :
  parseWarpRouteMessage (toHexString (be_bytes 32 7 ++ be_bytes 32 1000000 ++ [1; 2])) =
    Ok {| wr_recipient := toHexString (be_bytes 32 7); wr_amount := 1000000 |}.
Proof.
  apply (parseWarpRouteMessage_roundtrip (be_bytes 32 7) 1000000 [1; 2]).
  - apply be_bytes_ok.
  - reflexivity.
  - lia.
  - repeat constructor; lia.
Defined.

(** On any string [parseWarpRouteMessage] either throws, exactly when at most 32 bytes
    decode, or returns an amount that fits in 256 bits. *)
Theorem parseWarpRouteMessage_total messageBody :
  (is_ok (parseWarpRouteMessage messageBody) = true <->
     (32 < length (fromHexString messageBody))%nat) /\
  (forall m, parseWarpRouteMessage messageBody = Ok m -> 0 <= wr_amount m < 2 ^ 256).
Proof.
  rewrite parseWarpRouteMessage_eq.
  assert (bytes_ok (fromHexString messageBody)) as Hb by apply buffer_from_hex_ok.
  destruct (Nat.leb_spec (length (fromHexString messageBody)) 32) as [Hl|Hl]; cbn [is_ok].
  - split; [|done]. split; [done|lia].
  - split; [done|]. intros m [= <-]. cbn [wr_amount].
    set (bs := take 32 (drop 32 _)).
    assert (bytes_ok bs) as Hbs by (subst bs; auto).
    pose proof (be_value_range bs Hbs).
    assert (256 ^ Z.of_nat (length bs) <= 256 ^ 32); [|lia].
    apply Z.pow_le_mono_r; [lia|]. subst bs. rewrite length_take. lia.
Qed.

(** ** Round trips *)

Lemma hex_char_digit n : 0 <= n < 16 -> is_hex_digit (hex_char n) = true.
Proof.
  intros H. assert (exists k, (k < 16)%nat /\ n = Z.of_nat k) as (k & Hk & ->)
    by (exists (Z.to_nat n); lia).
  do 16 (destruct k as [|k]; [reflexivity|]). lia.
Qed.

Lemma buffer_to_hex_digits bs : bytes_ok bs -> string_all is_hex_digit (buffer_to_hex bs) = true.
Proof.
  induction 1 as [|b bs Hb _ IH]; [done|]. cbn. destruct (byte_nibbles b Hb).
  by rewrite !hex_char_digit, IH.
Qed.

Lemma buffer_to_hex_length bs : String.length (buffer_to_hex bs) = (2 * length bs)%nat.
Proof. induction bs as [|b bs IH]; [done|]. cbn. rewrite IH. lia. Qed.

Lemma ensure0x_toHexString bs : bytes_ok bs -> ensure0x (toHexString bs) = toHexString bs.
Proof. intros H. by rewrite !toHexString_eq. Qed.

Lemma is_bytes32_toHexString bs :
  bytes_ok bs -> length bs = 32%nat -> is_bytes32 (toHexString bs) = true.
Proof.
  intros H Hl. rewrite toHexString_eq by done. cbn [is_bytes32].
  by rewrite buffer_to_hex_digits, buffer_to_hex_length, Hl.
Qed.

Lemma addressToBytes32_id `{Ethers} bs :
  bytes_ok bs -> length bs = 32%nat -> addressToBytes32 (toHexString bs) = Ok (toHexString bs).
Proof.
  intros H' Hl. unfold addressToBytes32. rewrite ensure0x_toHexString by done.
  by rewrite is_bytes32_toHexString.
Qed.

Lemma pack_uint size v :
  0 <= v < 256 ^ Z.of_nat size -> pack_item (SolUint size v) = Some (be_bytes size v).
Proof.
  intros [H1 H2]. cbn [pack_item]. apply Z.leb_le in H1. apply Z.ltb_lt in H2.
  by rewrite H1, H2.
Qed.

Lemma pack_bytes bs : bytes_ok bs -> pack_item (SolBytes (toHexString bs)) = Some bs.
Proof.
  intros H. cbn [pack_item]. rewrite fromHexString_toHexString by done.
  by rewrite bool_decide_true.
Qed.

Lemma pack_bytes32 bs :
  bytes_ok bs -> length bs = 32%nat -> pack_item (SolBytes32 (toHexString bs)) = Some bs.
Proof.
  intros H Hl. cbn [pack_item]. rewrite fromHexString_toHexString by done.
  by rewrite bool_decide_true, Hl.
Qed.

Lemma pack_address bs :
  bytes_ok bs -> length bs = 20%nat -> pack_item (SolAddress (toHexString bs)) = Some bs.
Proof.
  intros H Hl. cbn [pack_item]. rewrite fromHexString_toHexString by done.
  by rewrite bool_decide_true, Hl.
Qed.

(** Reading at the offset where a part of known length begins. *)
Lemma subarray_at i j pre mid post :
  length pre = i -> length mid = (j - i)%nat -> subarray i j (pre ++ mid ++ post) = mid.
Proof.
  intros Hp Hm. rewrite subarray_app_r by lia. rewrite Hp, Nat.sub_diag.
  rewrite subarray_app_l by lia. by apply subarray_full.
Qed.

Lemma readUIntBE_at n i pre v post :
  length pre = i -> 0 <= v < 256 ^ Z.of_nat n ->
  readUIntBE n i (pre ++ be_bytes n v ++ post) = Ok v.
Proof.
  intros Hp Hv. unfold readUIntBE.
  rewrite (proj2 (Nat.ltb_ge _ _)) by (rewrite !length_app, be_bytes_length; lia).
  rewrite subarray_at by (rewrite ?be_bytes_length; lia). by rewrite be_value_bytes_id.
Qed.

(** A message formatted from fields in range, with 32-byte addresses in hexadecimal, is
    parsed back to exactly those fields. *)
Theorem formatMessage_parseMessage `{EthersLaws} v n o sb d rb bb :
  0 <= v < 2 ^ 8 -> 0 <= n < 2 ^ 32 -> 0 <= o < 2 ^ 32 -> 0 <= d < 2 ^ 32 ->
  bytes_ok sb -> length sb = 32%nat -> bytes_ok rb -> length rb = 32%nat -> bytes_ok bb ->
  exists m, formatMessage v n o (toHexString sb) d (toHexString rb) (toHexString bb) = Ok m /\
    parseMessage m = Ok {| version := v; nonce := n; origin := o; sender := toHexString sb;
      destination := d; recipient := toHexString rb; body := toHexString bb |}.
Proof.
  intros Hv Hn Ho Hd Hsb Hsl Hrb Hrl Hbb. unfold formatMessage.
  rewrite !addressToBytes32_id by done. cbn [mbind result_bind].
  set (packed := be_bytes 1 v ++ be_bytes 4 n ++ be_bytes 4 o ++ sb ++ be_bytes 4 d ++ rb ++ bb).
  assert (bytes_ok packed) as Hp by (subst packed; rewrite !bytes_ok_app; auto 10).
  exists (toHexString packed). split.
  - erewrite solidityPack_ok.
    2:{ cbn [mapM]. rewrite (pack_uint 1), !(pack_uint 4), !pack_bytes32, pack_bytes by done.
        reflexivity. }
    cbn [concat]. subst packed. rewrite app_nil_r. done.
  - unfold parseMessage. rewrite arrayify_hex by done. cbn [mbind result_bind].
    unfold readUInt8, readUInt32BE.
    assert (forall i pre w post, packed = pre ++ be_bytes 4 w ++ post -> length pre = i ->
      0 <= w < 2 ^ 32 -> readUIntBE 4 i packed = Ok w) as H4
      by (intros i pre w post -> ??; by apply readUIntBE_at).
    assert (forall i j pre mid post, packed = pre ++ mid ++ post -> length pre = i ->
      length mid = (j - i)%nat -> subarray i j packed = mid) as Hsub
      by (intros i j pre mid post -> ??; by apply subarray_at).
    assert (readUIntBE 1 0 packed = Ok v) as -> by (by apply (readUIntBE_at 1 0 [])).
    rewrite (H4 1%nat (be_bytes 1 v) n _ eq_refl), (H4 5%nat (be_bytes 1 v ++ be_bytes 4 n) o
      (sb ++ be_bytes 4 d ++ rb ++ bb)), (H4 41%nat (be_bytes 1 v ++ be_bytes 4 n ++ be_bytes 4 o ++ sb)
      d (rb ++ bb)) by (done || (subst packed; by rewrite <- !app_assoc) ||
        (rewrite !length_app, ?be_bytes_length; lia)).
    rewrite (Hsub 9%nat 41%nat (be_bytes 1 v ++ be_bytes 4 n ++ be_bytes 4 o) sb
      (be_bytes 4 d ++ rb ++ bb)), (Hsub 45%nat 77%nat (be_bytes 1 v ++ be_bytes 4 n ++
      be_bytes 4 o ++ sb ++ be_bytes 4 d) rb bb)
      by (done || (subst packed; by rewrite <- !app_assoc) ||
        (rewrite !length_app, ?be_bytes_length; lia)).
    replace (drop 77 packed) with bb.
    2:{ subst packed. rewrite !app_assoc, drop_app_ge, !length_app, !be_bytes_length, Hsl, Hrl
          by (rewrite !length_app, !be_bytes_length; lia). done. }
    by rewrite !hexlify_hex.
Qed.

(** An implementation of the class for hexadecimal addresses, which satisfies its laws. *)
Definition plain_ethers : Ethers := {|
  arrayify := fun s => if bool_decide (s = toHexString (fromHexString s))
                       then Ok (fromHexString s) else Throw (Error "invalid arrayify value");
  hexlify := toHexString;
  hexZeroPad := fun s n =>
    let bs := fromHexString s in Ok (toHexString (replicate (n - length bs) 0 ++ bs));
  getAddress := fun s => Ok s;
  solidityPack := fun items =>
    match mapM pack_item items with
    | Some bss => Ok (toHexString (concat bss))
    | None => Throw (Error "invalid value")
    end;
  addressToBytes := fun s => Ok (fromHexString s)
|}.

Lemma plain_ethers_laws : @EthersLaws plain_ethers.
Proof.
  constructor.
  - intros bs H. cbn. by rewrite fromHexString_toHexString, bool_decide_true.
  - done.
  - intros items bss Hm. cbn. by rewrite Hm.
Qed.

Lemma formatMessage_parseMessage_witness :
  let e := plain_ethers in
  let a := replicate 32 171 in
  exists m, formatMessage 3 7 1 (toHexString a) 10 (toHexString a) "0x0102" = Ok m /\
    parseMessage m = Ok {| version := 3; nonce := 7; origin := 1; sender := toHexString a;
      destination := 10; recipient := toHexString a; body := "0x0102" |}.
Proof.
  intros e a.
  assert (bytes_ok a) as Ha by (repeat constructor; lia).
  exact (@formatMessage_parseMessage e plain_ethers_laws 3 7 1 a 10 a [1; 2]
    ltac:(lia) ltac:(lia) ltac:(lia) ltac:(lia) Ha eq_refl Ha eq_refl
    ltac:(repeat constructor; lia)).
Defined.

(** *** Hook metadata *)

(** Slicing the hexadecimal text of bytes at even positions slices the bytes. *)
Lemma substring_hex i n bs :
  (i + n <= length bs)%nat ->
  String.substring (2 * i) (2 * n) (buffer_to_hex bs) = buffer_to_hex (take n (drop i bs)).
Proof.
  revert i; induction bs as [|b bs IH]; intros i Hi; cbn [length] in Hi.
  - destruct i, n; done || lia.
  - destruct i as [|i].
    + clear IH. revert b bs Hi. induction n as [|n IHn]; intros b bs Hi; [done|].
      replace (2 * S n)%nat with (S (S (2 * n))) by lia. cbn [Nat.mul buffer_to_hex].
      cbn [String.substring take drop buffer_to_hex]. do 2 f_equal.
      destruct bs as [|b' bs]; [by destruct n|]. apply (IHn b' bs). cbn in *. lia.
    + replace (2 * S i)%nat with (S (S (2 * i))) by lia. cbn [buffer_to_hex String.substring drop].
      apply IH. lia.
Qed.

Lemma slice_hex i j bs :
  bytes_ok bs -> (i <= j <= length bs)%nat ->
  "0x" +:+ slice (toHexString bs) (2 + 2 * i) (2 + 2 * j) = toHexString (subarray i j bs).
Proof.
  intros Hb [Hi Hj]. rewrite !toHexString_eq by auto. unfold slice, subarray.
  replace (2 + 2 * j - (2 + 2 * i))%nat with (2 * (j - i))%nat by lia.
  cbn [Nat.add String.substring]. rewrite substring_hex by lia. done.
Qed.

Lemma bigint_of_uint n v :
  (0 < n)%nat -> 0 <= v < 256 ^ Z.of_nat n -> bigint_of_hex (toHexString (be_bytes n v)) = Ok v.
Proof.
  intros Hn Hv. rewrite bigint_of_toHexString by auto.
  destruct (be_bytes n v) as [|b bs] eqn:E.
  - apply (f_equal length) in E. rewrite be_bytes_length in E. cbn in E. lia.
  - rewrite <- E. by rewrite be_value_bytes_id.
Qed.

(** Hook metadata formatted from a 20-byte refund address and two 256-bit integers parses
    back to the checksummed address and the same integers; the text fits the offsets the
    parser slices at. *)
Theorem hook_metadata_roundtrip `{EthersLaws} rb addr mv gl :
  bytes_ok rb -> length rb = 20%nat -> getAddress (toHexString rb) = Ok addr ->
  0 <= mv < 2 ^ 256 -> 0 <= gl < 2 ^ 256 ->
  exists s, formatStandardHookMetadata (Some (toHexString rb)) (Some mv) (Some gl) = Ok s /\
    String.length s = REFUND_END /\
    parseStandardHookMetadata (Some s) =
      Some {| refundAddress := addr; msgValue := mv; gasLimit := gl |}.
Proof.
  intros Hrb Hrl Haddr Hmv Hgl.
  set (packed := be_bytes 2 1 ++ be_bytes 32 mv ++ be_bytes 32 gl ++ rb).
  assert (bytes_ok packed) as Hp by (subst packed; rewrite !bytes_ok_app; auto).
  assert (length packed = 86%nat) as Hl
    by (subst packed; rewrite !length_app, !be_bytes_length, Hrl; done).
  exists (toHexString packed).
  assert (String.length (toHexString packed) = REFUND_END) as Hsl.
  { rewrite toHexString_eq by done. cbn [String.length]. by rewrite buffer_to_hex_length, Hl. }
  split_and!; [|done|].
  - unfold formatStandardHookMetadata. cbn [default id]. erewrite solidityPack_ok.
    2:{ cbn [mapM]. rewrite (pack_uint 2) by lia. rewrite !(pack_uint 32), pack_address by done.
        reflexivity. }
    cbn [concat]. rewrite app_nil_r. done.
  - assert (subarray 2 34 packed = be_bytes 32 mv) as E1
      by (apply (subarray_at 2 34 (be_bytes 2 1)); rewrite ?be_bytes_length; done).
    assert (subarray 34 66 packed = be_bytes 32 gl) as E2.
    { subst packed. rewrite app_assoc. apply subarray_at; rewrite ?length_app, ?be_bytes_length; done. }
    assert (subarray 66 86 packed = rb) as E3.
    { pose proof (subarray_at 66 86 (be_bytes 2 1 ++ be_bytes 32 mv ++ be_bytes 32 gl) rb []) as E.
      rewrite app_nil_r, <- !app_assoc in E. apply E; [|done].
      by rewrite !length_app, !be_bytes_length. }
    pose proof (slice_hex 2 34 packed Hp ltac:(lia)) as S1.
    pose proof (slice_hex 34 66 packed Hp ltac:(lia)) as S2.
    pose proof (slice_hex 66 86 packed Hp ltac:(lia)) as S3.
    rewrite E1 in S1. rewrite E2 in S2. rewrite E3 in S3.
    unfold parseStandardHookMetadata. rewrite Hsl, Nat.ltb_irrefl.
    change MSG_VALUE_START with (2 + 2 * 2)%nat. change GAS_LIMIT_START with (2 + 2 * 34)%nat.
    change REFUND_START with (2 + 2 * 66)%nat. change REFUND_END with (2 + 2 * 86)%nat.
    rewrite S1, S2, S3, !bigint_of_uint by (done || lia). cbn [mbind result_bind].
    rewrite Haddr. cbn [mbind result_bind].
    rewrite !bool_decide_false by (intros Heq; rewrite Heq in Hsl; discriminate Hsl).
    rewrite toHexString_eq by done. cbn [hex_only]. rewrite buffer_to_hex_digits by done.
    subst packed. reflexivity.
Qed.

Lemma hook_metadata_roundtrip_witness :
  let e := plain_ethers in
  let rb := replicate 20 17 in
  exists s, formatStandardHookMetadata (Some (toHexString rb)) (Some 5) (Some 50000) = Ok s /\
    String.length s = REFUND_END /\
    parseStandardHookMetadata (Some s) =
      Some {| refundAddress := toHexString rb; msgValue := 5; gasLimit := 50000 |}.
Proof.
  intros e rb.
  exact (@hook_metadata_roundtrip e plain_ethers_laws rb (toHexString rb) 5 50000
    ltac:(repeat constructor; lia) eq_refl eq_refl ltac:(lia) ltac:(lia)).
Defined.
