(* ===== verification/AddressEq.v ===== *)
(** Recognizing, normalizing and comparing addresses of every protocol, utils/src/addresses.ts.
    The regular expressions are character classes and lengths; the libraries that validate
    checksums are the class [AddressLibs]. *)
From stdpp Require Import base tactics list strings.
From Stdlib Require Import Lia String Ascii.
From S2P Require Import Prelude Addresses Token Bytes Messages.

(** [ethersUtils.getAddress], [new PublicKey(..).toBase58()], [normalizeBech32] and
    [validateAndParseAddress]. *)
Class AddressLibs : Type := {
  al_getAddress : string -> result string;
  al_publicKey : string -> result string;
  al_normalizeBech32 : string -> result string;
  al_validateStarknet : string -> result string
}.

(** ** Character classes *)

Definition is_lower (c : ascii) : bool := ascii_between "a" "z" c.
Definition is_letter (c : ascii) : bool := is_lower c || ascii_between "A" "Z" c.
Definition is_alphanumeric (c : ascii) : bool := is_letter c || is_digit c.
Definition is_lower_alphanumeric (c : ascii) : bool := is_lower c || is_digit c.

Fixpoint string_has (c : ascii) (s : string) : bool :=
  match s with
  | EmptyString => false
  | String c' s' => Ascii.eqb c' c || string_has c s'
  end.

(** [[qpzry9x8gf2tvdw0s3jn54khce6mua7l]]. *)
Definition is_bech32_char (c : ascii) : bool := string_has c "qpzry9x8gf2tvdw0s3jn54khce6mua7l".

(** [^[class]{lo,hi}$]. *)
Definition run_of (p : ascii -> bool) (lo hi : nat) (s : string) : bool :=
  string_all p s && (lo <=? String.length s)%nat && (String.length s <=? hi)%nat.

(** What follows a literal prefix. *)
Fixpoint strip_prefix (p s : string) : option string :=
  match p, s with
  | EmptyString, _ => Some s
  | String c p', String c' s' => if Ascii.eqb c c' then strip_prefix p' s' else None
  | String _ _, EmptyString => None
  end.

(** [(0x)?]. *)
Definition optional_0x (s : string) : string := default s (strip_prefix "0x" s).

(** The text before and after the first occurrence of a character. *)
Fixpoint split_at (c : ascii) (s : string) : option (string * string) :=
  match s with
  | EmptyString => None
  | String c' s' =>
      if Ascii.eqb c' c then Some (EmptyString, s')
      else '(before, after) ← split_at c s'; Some (String c' before, after)
  end.

(** ** Recognition *)

(** [/^[a-zA-Z0-9]{36,44}$/]. *)
Definition isAddressSealevel (address : string) : bool := run_of is_alphanumeric 36 44 address.

(** [[a-zA-Z]{1,83}1[qpzry9x8gf2tvdw0s3jn54khce6mua7l]{38,58}]: the first 1 ends the letters. *)
Definition is_bech32_address (address : string) : bool :=
  match split_at "1" address with
  | Some (hrp, data) => run_of is_letter 1 83 hrp && run_of is_bech32_char 38 58 data
  | None => false
  end.

(** [^ibc/([A-Fa-f0-9]{64})$]. *)
Definition isCosmosIbcDenomAddress (address : string) : bool :=
  match strip_prefix "ibc/" address with
  | Some hash => run_of is_hex_digit 64 64 hash
  | None => false
  end.

(** [[a-zA-Z][a-zA-Z0-9]{2,127}]. *)
Definition is_cosmos_denom (denom : string) : bool :=
  match denom with
  | String c rest => is_letter c && run_of is_alphanumeric 2 127 rest
  | EmptyString => false
  end.

Definition is_cosmos_factory_token (address : string) : bool :=
  match strip_prefix "factory/" address ≫= split_at "/" with
  | Some (creator, denom) => is_bech32_address creator && is_cosmos_denom denom
  | None => false
  end.

Definition isAddressCosmos (address : string) : bool :=
  is_bech32_address address || isCosmosIbcDenomAddress address ||
  is_cosmos_factory_token address.

(** [/^(0x)?[0-9a-fA-F]{64}$/]. *)
Definition isAddressCosmosNative (address : string) : bool :=
  run_of is_hex_digit 64 64 (optional_0x address).

(** [/^(account|component)_(rdx|loc|sim|tdx_[\d]_)[a-z0-9]{55}$/]. *)
Definition radix_network (s : string) : option string :=
  match strip_prefix "rdx" s, strip_prefix "loc" s, strip_prefix "sim" s,
        strip_prefix "tdx_" s with
  | Some rest, _, _, _ | _, Some rest, _, _ | _, _, Some rest, _ => Some rest
  | _, _, _, Some (String d (String "_" rest)) => if is_digit d then Some rest else None
  | _, _, _, _ => None
  end.
Definition isAddressRadix (address : string) : bool :=
  let entity := match strip_prefix "account_" address with
                | Some rest => Some rest
                | None => strip_prefix "component_" address
                end in
  match entity ≫= radix_network with
  | Some body => run_of is_lower_alphanumeric 55 55 body
  | None => false
  end.

(** [/^([a-z0-9_]+\.aleo\/aleo1[a-z0-9]{58}|aleo1[a-z0-9]{58})$/]: no class has a dot. *)
Definition is_aleo_account (address : string) : bool :=
  match strip_prefix "aleo1" address with
  | Some body => run_of is_lower_alphanumeric 58 58 body
  | None => false
  end.
Definition isAddressAleo (address : string) : bool :=
  is_aleo_account address ||
  match split_at "." address with
  | Some ((String _ _ as program), rest) =>
      string_all is_program_char program &&
      match strip_prefix "aleo/" rest with Some account => is_aleo_account account | None => false end
  | _ => false
  end.

(** [/^T[1-9A-HJ-NP-Za-km-z]{33}$/]. *)
Definition isAddressTron (address : string) : bool :=
  match address with
  | String "T" rest => run_of is_base58_digit 33 33 rest
  | _ => false
  end.

Section libs.
Context `{AddressLibs}.

(** [/^(0x)?[0-9a-fA-F]{63,64}$/], and the library takes it. *)
Definition isAddressStarknet (address : string) : bool :=
  run_of is_hex_digit 63 64 (optional_0x address) &&
  match al_validateStarknet address with Ok (String _ _) => true | _ => false end.

Definition getAddressProtocolType (address : string) : option ProtocolType :=
  if bool_decide (address = EmptyString) then None
  else if isAddressEvm address then Some PEthereum
  else if isAddressAleo address then Some PAleo
  else if isAddressTron address then Some PTron
  else if isAddressCosmos address then Some PCosmos
  else if isAddressCosmosNative address then Some PCosmosNative
  else if isAddressSealevel address then Some PSealevel
  else if isAddressStarknet address then Some PStarknet
  else if isAddressRadix address then Some PRadix
  else None.

Definition isAddress (address : string) : bool := bool_decide (is_Some (getAddressProtocolType address)).

(** ** Normalization *)

(** [try { return f(..) } catch { return address }], after the test for a zero address. *)
Definition or_unchanged (address : string) (normalized : result string) : string :=
  if isZeroishAddress address then address
  else match normalized with Ok a => a | Throw _ => address end.

Definition normalizeAddressEvm (address : string) : string :=
  or_unchanged address (al_getAddress (to_lower address)).
Definition normalizeAddressSealevel (address : string) : string :=
  or_unchanged address (al_publicKey address).
Definition normalizeAddressCosmos (address : string) : string :=
  or_unchanged address (al_normalizeBech32 address).
Definition normalizeAddressStarknet (address : string) : string :=
  or_unchanged address (al_validateStarknet address).
Definition normalizeAddressRadix (address : string) : string := address.
Definition normalizeAddressAleo (address : string) : string := address.
Definition normalizeAddressTron (address : string) : string := address.

(** The table [normalizeAddress] and [eqAddress] dispatch on. *)
Definition normalize_for (protocol : ProtocolType) : option (string -> string) :=
  match protocol with
  | PEthereum => Some normalizeAddressEvm
  | PSealevel => Some normalizeAddressSealevel
  | PCosmos | PCosmosNative => Some normalizeAddressCosmos
  | PStarknet => Some normalizeAddressStarknet
  | PRadix => Some normalizeAddressRadix
  | PAleo => Some normalizeAddressAleo
  | PTron => Some normalizeAddressTron
  | PUnknown => None
  end.

(** [routeAddressUtil], with a fallback. *)
Definition routeAddressUtil {T} (fns : ProtocolType -> option (string -> T)) (param : string)
    (fallback : T) (protocol : option ProtocolType) : T :=
  let protocol := match protocol with Some p => Some p | None => getAddressProtocolType param end in
  match protocol ≫= fns with
  | Some fn => fn param
  | None => fallback
  end.

Definition normalizeAddress (address : string) (protocol : option ProtocolType) : string :=
  routeAddressUtil normalize_for address address protocol.

(** ** Equality *)

Definition eq_for (a2 : string) (protocol : ProtocolType) : option (string -> bool) :=
  normalize ← normalize_for protocol;
  Some (fun a1 => String.eqb (normalize a1) (normalize a2)).

Definition eqAddress (a1 a2 : string) : bool :=
  let p1 := getAddressProtocolType a1 in
  let p2 := getAddressProtocolType a2 in
  if negb (bool_decide (p1 = p2)) then false
  else routeAddressUtil (eq_for a2) a1 false p1.

(** [a1] and [a2] are optional; a zero address means none. *)
Definition formatAddress (addr : option string) : option string :=
  match addr with
  | Some (String _ _ as a) => if isZeroishAddress a then None else Some a
  | _ => None
  end.
Definition eqOptionalAddress (a1 a2 : option string) (eqFn : string -> string -> bool) : bool :=
  match formatAddress a1, formatAddress a2 with
  | None, None => true
  | Some n1, Some n2 => if String.eqb n1 n2 then true else eqFn n1 n2
  | _, _ => false
  end.

End libs.

(** ** Facts *)

(** What the documentation of ethers says of [getAddress]: a lowercase address is always
    taken, and only the case of its letters changes. *)
Class AddressLaws `{AddressLibs} : Prop := {
  getAddress_lower a :
    isAddressEvm a = true -> exists c, al_getAddress (to_lower a) = Ok c /\ to_lower c = to_lower a
}.

Section facts.
Context `{AddressLibs}.

Lemma eqAddress_true a1 a2 :
  eqAddress a1 a2 = true <->
    exists p n, getAddressProtocolType a1 = Some p /\ getAddressProtocolType a2 = Some p /\
      normalize_for p = Some n /\ n a1 = n a2.
Proof.
  unfold eqAddress, routeAddressUtil. case_bool_decide as Hp; cbn [negb];
    [|split; [done|intros (p & n & ? & ? & ?); congruence]].
  rewrite <- Hp. destruct (getAddressProtocolType a1) as [p|] eqn:E1; cbn [mbind option_bind].
  - unfold eq_for. destruct (normalize_for p) as [n|] eqn:Hn; cbn [mbind option_bind].
    + rewrite String.eqb_eq. split; [eauto 6|]. intros (p' & n' & ? & ? & ? & ?). congruence.
    + split; [done|]. intros (p' & n' & ? & ? & ? & ?). congruence.
  - cbn. rewrite ?E1. cbn. split; [done|]. intros (p' & n' & ? & ?). done.
Qed.

Lemma getAddressProtocolType_evm a :
  isAddressEvm a = true <-> getAddressProtocolType a = Some PEthereum.
Proof.
  unfold getAddressProtocolType. split.
  - intros Ha. rewrite Ha. by rewrite bool_decide_eq_false_2 by (by intros ->).
  - case_bool_decide; [done|]. repeat case_match; done.
Qed.

Lemma recognized_normalizes a p :
  getAddressProtocolType a = Some p -> is_Some (normalize_for p).
Proof.
  unfold getAddressProtocolType. repeat case_match; try done; intros [= <-]; cbn; eauto.
Qed.

(** *** Addresses of the EVM *)

Lemma to_lower_cons c s :
  to_lower (String c s) = String (match to_lower (String c EmptyString) with
                                  | String c' _ => c' | EmptyString => c end) (to_lower s).
Proof. done. Qed.

Lemma lower_zero c : to_lower (String c EmptyString) = "0"%string -> c = "0"%char.
Proof. destruct c as [[] [] [] [] [] [] [] []]; cbn; (done || congruence). Qed.

Lemma all_zeros_lower d d' :
  all_zeros d = true -> to_lower d = to_lower d' -> d = d'.
Proof.
  unfold all_zeros. revert d'. induction d as [|c d IH]; intros [|c' d']; [done..|].
  cbn [string_all]. intros [Hc Hd]%andb_prop Hl. apply Ascii.eqb_eq in Hc as <-.
  assert (to_lower (String c' EmptyString) = "0"%string /\ to_lower d = to_lower d') as [H0 Hl'].
  { injection Hl as H1 H2. split; [cbn in *; by rewrite <- H1|done]. }
  apply lower_zero in H0 as ->. f_equal. by apply IH.
Qed.

Lemma isAddressEvm_inv a :
  isAddressEvm a = true ->
  exists d, a = String "0" (String "x" d) /\ String.length d = 40%nat.
Proof.
  unfold isAddressEvm. intros Ha. repeat case_match; try done; subst.
  apply andb_prop in Ha as [_ Ha%Nat.eqb_eq]. eauto.
Qed.

(** Of the patterns of zero addresses only one has the shape of an EVM address. *)
Lemma isZeroishAddress_evm d :
  String.length d = 40%nat -> isZeroishAddress (String "0" (String "x" d)) = all_zeros d.
Proof.
  intros Hd. set (a := String "0" (String "x" d)).
  assert (isZeroishAleo a = false) as Hal.
  { unfold isZeroishAleo. replace (String.length a) with 42%nat by (cbn; lia).
    change (42 - String.length (String.append ".aleo/" ALEO_ZERO))%nat with 0%nat.
    rewrite Nat.ltb_irrefl, orb_false_r. done. }
  unfold isZeroishAddress. rewrite Hal.
  change (optional_0x_zeros a) with (all_zeros d).
  change (some_ones a) with false. change (isZeroishCosmos a) with false.
  change (String.eqb a TRON_ZERO) with false. by rewrite !orb_false_r.
Qed.

Context `{!AddressLaws}.

Lemma normalizeAddressEvm_lower a :
  isAddressEvm a = true -> to_lower (normalizeAddressEvm a) = to_lower a.
Proof.
  intros (c & Hc & Hl)%getAddress_lower. unfold normalizeAddressEvm, or_unchanged.
  case_match; [done|]. by rewrite Hc.
Qed.

Lemma normalizeAddressEvm_eq a a' :
  isAddressEvm a = true -> isAddressEvm a' = true -> to_lower a = to_lower a' ->
  normalizeAddressEvm a = normalizeAddressEvm a'.
Proof.
  intros Ha. destruct (getAddress_lower a Ha) as (c & Hc & _). revert Ha Hc.
  intros (d & -> & Hd)%isAddressEvm_inv Hc (d' & -> & Hd')%isAddressEvm_inv Hl.
  assert (to_lower d = to_lower d') as Hl' by (by injection Hl).
  unfold normalizeAddressEvm, or_unchanged. rewrite !isZeroishAddress_evm by done.
  destruct (all_zeros d) eqn:Hz.
  { by rewrite <- (all_zeros_lower d d'), Hz. }
  destruct (all_zeros d') eqn:Hz'; [|by rewrite <- Hl, Hc].
  assert (d' = d) by (apply all_zeros_lower; congruence). congruence.
Qed.

End facts.

(** [eqAddress] is symmetric and transitive, holds of an address and itself exactly when
    its protocol is recognized, and on EVM addresses is equality up to the case of letters,
    so checksummed and plain spellings of one router agree and no two routers do. *)
Theorem eqAddress_equivalence `{AddressLibs} `{!AddressLaws} :
  (forall a b, eqAddress a b = eqAddress b a) /\
  (forall a b c, eqAddress a b = true -> eqAddress b c = true -> eqAddress a c = true) /\
  (forall a, eqAddress a a = isAddress a) /\
  (forall a b, isAddressEvm a = true ->
     (eqAddress a b = true <-> isAddressEvm b = true /\ to_lower a = to_lower b)).
Proof.
  split_and!.
  - intros a b. apply eq_true_iff_eq. rewrite !eqAddress_true. naive_solver.
  - intros a b c. rewrite !eqAddress_true. intros (p & n & Ha & Hb & Hn & E) (p' & n' & Hb' & Hc & Hn' & E').
    assert (p' = p) as -> by congruence. assert (n' = n) as -> by congruence.
    exists p, n. split_and!; [done..|congruence].
  - intros a. apply eq_true_iff_eq. unfold isAddress. rewrite eqAddress_true, bool_decide_eq_true.
    split; [naive_solver|]. intros [p Hp]. destruct (recognized_normalizes a p Hp) as [n Hn]. naive_solver.
  - intros a b Ha. rewrite eqAddress_true. split.
    + intros (p & n & Hpa & Hpb & Hn & E). pose proof Ha as Hpa'%getAddressProtocolType_evm.
      assert (p = PEthereum) as -> by congruence. injection Hn as <-.
      apply getAddressProtocolType_evm in Hpb. split; [done|].
      rewrite <- (normalizeAddressEvm_lower a), <- (normalizeAddressEvm_lower b) by done. by rewrite E.
    + intros [Hb Hl]. exists PEthereum, normalizeAddressEvm.
      split_and!; [by apply getAddressProtocolType_evm..|done|]. by apply normalizeAddressEvm_eq.
Qed.

(** Libraries that take every address as it is; [getAddress] keeps lowercase. *)
#[export] Instance sample_address_libs : AddressLibs := {|
  al_getAddress := Ok; al_publicKey := Ok; al_normalizeBech32 := Ok; al_validateStarknet := Ok |}.

Lemma to_lower_idemp s : to_lower (to_lower s) = to_lower s.
Proof.
  induction s as [|c s IH]; [done|]. cbn [to_lower]. f_equal; [|done].
  destruct c as [[] [] [] [] [] [] [] []]; reflexivity.
Qed.

#[export] Instance sample_address_laws : AddressLaws.
Proof. split. intros a _. exists (to_lower a). split; [done|apply to_lower_idemp]. Qed.

Lemma eqAddress_equivalence_witness :
  eqAddress "0xABCDEF0123456789abcdef0123456789abcdef01" "0xabcdef0123456789ABCDEF0123456789abcdef01" = true.
Proof.
  apply (proj2 (proj2 (proj2 eqAddress_equivalence))); [reflexivity|]. split; reflexivity.
Defined.
