(* ===== verification/BlockTag.v ===== *)
(** The confirmed block of a chain, rebalancer/src/utils/blockTag.ts. The registry lookup and
    the answer of the chain's provider are arguments. *)
From Stdlib Require Import ZArith Lia String Ascii.
From stdpp Require Import base tactics list strings.
From S2P Require Import Prelude Addresses Bytes Token.

#[local] Open Scope Z_scope.

(** [ConfirmedBlockTag]; [undefined] is [None]. *)
Inductive BlockTag : Type := BlockNumber (n : Z) | NamedTag (tag : string).

#[export] Instance BlockTag_eq_dec : EqDecision BlockTag.
Proof. solve_decision. Defined.

Inductive ReorgPeriod : Type := ReorgBlocks (n : Z) | ReorgTag (tag : string).

Record ChainMetadata : Type := {
  cm_protocol : ProtocolType;
  cm_reorgPeriod : option ReorgPeriod
}.

(** What the provider answers: a JSON-RPC provider sends a value that should be a
    hexadecimal string, any other one returns a number. *)
Inductive LatestBlock : Type :=
| JsonRpcBlock (latestBlockHex : option string)
| ProviderBlock (n : Z).

(** [/^0x[0-9a-fA-F]+$/]. *)
Definition is_hex_number (s : string) : bool :=
  match s with
  | String "0" (String "x" (String _ _ as digits)) => string_all is_hex_digit digits
  | _ => false
  end.

(** The largest exponent of a finite number; beyond it [parseInt] is [Infinity]. *)
Definition is_finite (n : Z) : bool := n <? 2 ^ 1024.

Definition parse_latest (chainName : string) (answer : LatestBlock) : result Z :=
  match answer with
  | ProviderBlock n => Ok n
  | JsonRpcBlock None => Throw (Error ("Invalid eth_blockNumber response for " +:+ chainName))
  | JsonRpcBlock (Some hex) =>
      if negb (is_hex_number hex)
      then Throw (Error ("Invalid eth_blockNumber response for " +:+ chainName))
      else
        latestBlock ← bigint_of_hex hex;
        if negb (is_finite latestBlock)
        then Throw (Error ("Parsed block number is not finite for " +:+ chainName))
        else Ok latestBlock
  end.

(** The [try] block: [None] in [Ok] is [undefined]. *)
Definition confirmed_block (chainName : string) (metadata : result ChainMetadata)
    (latest : result LatestBlock) : result (option BlockTag) :=
  metadata ← metadata;
  if negb (isEVMLike (cm_protocol metadata)) then Ok None
  else
    match default (ReorgBlocks 32) (cm_reorgPeriod metadata) with
    | ReorgTag tag =>
        if bool_decide (cm_protocol metadata = PTron) then Ok None else Ok (Some (NamedTag tag))
    | ReorgBlocks reorgPeriod =>
        answer ← latest;
        latestBlock ← parse_latest chainName answer;
        Ok (Some (BlockNumber (Z.max 0 (latestBlock - reorgPeriod))))
    end.

Definition getConfirmedBlockTag (chainName : string) (metadata : result ChainMetadata)
    (latest : result LatestBlock) : option BlockTag :=
  match confirmed_block chainName metadata latest with
  | Ok tag => tag
  | Throw _ => None
  end.

(** [getConfirmedBlockTag] never throws, and a block number it returns is never negative
    and at least the reorg period behind the head the provider reported. *)
Theorem getConfirmedBlockTag_safe chainName metadata latest n :
  getConfirmedBlockTag chainName metadata latest = Some (BlockNumber n) ->
  0 <= n /\ exists m answer head period,
    metadata = Ok m /\ latest = Ok answer /\ parse_latest chainName answer = Ok head /\
    default (ReorgBlocks 32) (cm_reorgPeriod m) = ReorgBlocks period /\
    isEVMLike (cm_protocol m) = true /\
    n = Z.max 0 (head - period) /\ (period <= head -> n + period = head).
Proof.
  unfold getConfirmedBlockTag. destruct (confirmed_block chainName metadata latest) as [t|] eqn:E;
    [intros ->|done].
  apply result_bind_ok in E as (m & -> & E).
  destruct (isEVMLike (cm_protocol m)) eqn:Hevm; [|done]. cbn [negb] in E.
  destruct (default _ _) as [period|tag] eqn:Hp; [|by case_bool_decide].
  apply result_bind_ok in E as (answer & -> & (head & Hh & [= <-])%result_bind_ok).
  split; [lia|]. exists m, answer, head, period. split_and!; done || lia.
Qed.

Lemma getConfirmedBlockTag_safe_witness :
  0 <= 90 /\ exists m answer head period,
    Ok {| cm_protocol := PEthereum; cm_reorgPeriod := Some (ReorgBlocks 10) |} = Ok m /\
    Ok (JsonRpcBlock (Some "0x64")) = Ok answer /\ parse_latest "a" answer = Ok head /\
    default (ReorgBlocks 32) (cm_reorgPeriod m) = ReorgBlocks period /\
    isEVMLike (cm_protocol m) = true /\
    90 = Z.max 0 (head - period) /\ (period <= head -> 90 + period = head).
Proof.
  apply (getConfirmedBlockTag_safe "a"
    (Ok {| cm_protocol := PEthereum; cm_reorgPeriod := Some (ReorgBlocks 10) |})
    (Ok (JsonRpcBlock (Some "0x64")))). reflexivity.
Defined.
