(* ===== verification/Store.v ===== *)
(** The entities the rebalancer tracks (rebalancer/src/tracking/types.ts) and the in-memory
    store of them (rebalancer/src/tracking/store): an insertion-ordered map by id. What the
    store needs of an entity is the class [Tracked], for [TrackedActionBase]. *)
From stdpp Require Import base tactics list gmap strings.
From Stdlib Require Import ZArith Lia.
From S2P Require Import Prelude JsMap Route.

#[local] Open Scope Z_scope.

(** ** Entities *)

Inductive TransferStatus : Type := TransferInProgress | TransferComplete.

Inductive RebalanceIntentStatus : Type :=
| IntentNotStarted | IntentInProgress | IntentComplete | IntentCancelled | IntentFailed.

Inductive RebalanceActionStatus : Type := ActionInProgress | ActionComplete | ActionFailed.

Inductive ActionType : Type := rebalance_message | inventory_movement | inventory_deposit.

(** The last status observed on an external bridge. *)
Inductive BridgeStatus : Type := BridgePending | BridgeComplete | BridgeFailed | BridgeNotFound.

#[export] Instance TransferStatus_eq_dec : EqDecision TransferStatus.
Proof. solve_decision. Defined.
#[export] Instance RebalanceIntentStatus_eq_dec : EqDecision RebalanceIntentStatus.
Proof. solve_decision. Defined.
#[export] Instance RebalanceActionStatus_eq_dec : EqDecision RebalanceActionStatus.
Proof. solve_decision. Defined.
#[export] Instance ActionType_eq_dec : EqDecision ActionType.
Proof. solve_decision. Defined.
#[export] Instance BridgeStatus_eq_dec : EqDecision BridgeStatus.
Proof. solve_decision. Defined.

Record Transfer : Type := {
  t_id : string;
  t_status : TransferStatus;
  t_messageId : string;
  t_origin : Z;
  t_destination : Z;
  t_amount : Z;
  t_sender : string;
  t_recipient : string;
  t_createdAt : Z;
  t_updatedAt : Z
}.

Record RebalanceIntent : Type := {
  i_id : string;
  i_status : RebalanceIntentStatus;
  i_origin : Z;
  i_destination : Z;
  i_amount : Z;
  i_bridge : option string;
  i_priority : option Z;
  i_strategyType : option string;
  i_executionMethod : option ExecutionMethod;
  i_externalBridge : option ExternalBridgeType;
  i_createdAt : Z;
  i_updatedAt : Z
}.

Record RebalanceAction : Type := {
  a_id : string;
  a_status : RebalanceActionStatus;
  a_type : ActionType;
  a_intentId : string;
  a_messageId : option string;
  a_txHash : option string;
  a_externalBridgeTransferId : option string;
  a_externalBridgeId : option ExternalBridgeType;
  a_lastBridgeStatus : option BridgeStatus;
  a_nonPendingSince : option Z;
  a_origin : Z;
  a_destination : Z;
  a_amount : Z;
  a_createdAt : Z;
  a_updatedAt : Z
}.

#[export] Instance Transfer_eq_dec : EqDecision Transfer.
Proof. solve_decision. Defined.
#[export] Instance RebalanceIntent_eq_dec : EqDecision RebalanceIntent.
Proof. solve_decision. Defined.
#[export] Instance RebalanceAction_eq_dec : EqDecision RebalanceAction.
Proof. solve_decision. Defined.

(** The only updates the tracker makes: of a status, and of the bridge observations. *)
Definition set_transfer_status (st : TransferStatus) (t : Transfer) : Transfer := {|
  t_id := t_id t; t_status := st; t_messageId := t_messageId t; t_origin := t_origin t;
  t_destination := t_destination t; t_amount := t_amount t; t_sender := t_sender t;
  t_recipient := t_recipient t; t_createdAt := t_createdAt t; t_updatedAt := t_updatedAt t |}.

Definition set_intent_status (st : RebalanceIntentStatus) (i : RebalanceIntent)
    : RebalanceIntent := {|
  i_id := i_id i; i_status := st; i_origin := i_origin i; i_destination := i_destination i;
  i_amount := i_amount i; i_bridge := i_bridge i; i_priority := i_priority i;
  i_strategyType := i_strategyType i; i_executionMethod := i_executionMethod i;
  i_externalBridge := i_externalBridge i; i_createdAt := i_createdAt i;
  i_updatedAt := i_updatedAt i |}.

Definition set_action_status (st : RebalanceActionStatus) (a : RebalanceAction)
    : RebalanceAction := {|
  a_id := a_id a; a_status := st; a_type := a_type a; a_intentId := a_intentId a;
  a_messageId := a_messageId a; a_txHash := a_txHash a;
  a_externalBridgeTransferId := a_externalBridgeTransferId a;
  a_externalBridgeId := a_externalBridgeId a; a_lastBridgeStatus := a_lastBridgeStatus a;
  a_nonPendingSince := a_nonPendingSince a; a_origin := a_origin a;
  a_destination := a_destination a; a_amount := a_amount a; a_createdAt := a_createdAt a;
  a_updatedAt := a_updatedAt a |}.

Definition set_bridge_status (st : BridgeStatus) (since : option Z) (a : RebalanceAction)
    : RebalanceAction := {|
  a_id := a_id a; a_status := a_status a; a_type := a_type a; a_intentId := a_intentId a;
  a_messageId := a_messageId a; a_txHash := a_txHash a;
  a_externalBridgeTransferId := a_externalBridgeTransferId a;
  a_externalBridgeId := a_externalBridgeId a; a_lastBridgeStatus := Some st;
  a_nonPendingSince := since; a_origin := a_origin a;
  a_destination := a_destination a; a_amount := a_amount a; a_createdAt := a_createdAt a;
  a_updatedAt := a_updatedAt a |}.

(** ** What a store needs of an entity *)

Class Tracked (T Status : Type) : Type := {
  tr_id : T -> string;
  tr_status : T -> Status;
  tr_destination : T -> Z;
  tr_touch : Z -> T -> T;
  tr_touch_id now e : tr_id (tr_touch now e) = tr_id e;
  tr_touch_status now e : tr_status (tr_touch now e) = tr_status e
}.
#[global] Hint Mode Tracked + - : typeclass_instances.

#[export, refine] Instance transfer_tracked : Tracked Transfer TransferStatus := {
  tr_id := t_id; tr_status := t_status; tr_destination := t_destination;
  tr_touch now t := {|
    t_id := t_id t; t_status := t_status t; t_messageId := t_messageId t;
    t_origin := t_origin t; t_destination := t_destination t; t_amount := t_amount t;
    t_sender := t_sender t; t_recipient := t_recipient t; t_createdAt := t_createdAt t;
    t_updatedAt := now |}
}.
Proof. all: done. Defined.

#[export, refine] Instance intent_tracked : Tracked RebalanceIntent RebalanceIntentStatus := {
  tr_id := i_id; tr_status := i_status; tr_destination := i_destination;
  tr_touch now i := {|
    i_id := i_id i; i_status := i_status i; i_origin := i_origin i;
    i_destination := i_destination i; i_amount := i_amount i; i_bridge := i_bridge i;
    i_priority := i_priority i; i_strategyType := i_strategyType i;
    i_executionMethod := i_executionMethod i; i_externalBridge := i_externalBridge i;
    i_createdAt := i_createdAt i; i_updatedAt := now |}
}.
Proof. all: done. Defined.

#[export, refine] Instance action_tracked : Tracked RebalanceAction RebalanceActionStatus := {
  tr_id := a_id; tr_status := a_status; tr_destination := a_destination;
  tr_touch now a := {|
    a_id := a_id a; a_status := a_status a; a_type := a_type a; a_intentId := a_intentId a;
    a_messageId := a_messageId a; a_txHash := a_txHash a;
    a_externalBridgeTransferId := a_externalBridgeTransferId a;
    a_externalBridgeId := a_externalBridgeId a; a_lastBridgeStatus := a_lastBridgeStatus a;
    a_nonPendingSince := a_nonPendingSince a; a_origin := a_origin a;
    a_destination := a_destination a; a_amount := a_amount a; a_createdAt := a_createdAt a;
    a_updatedAt := now |}
}.
Proof. all: done. Defined.

(** ** InMemoryStore *)

Section store.
Context {T Status : Type} `{!Tracked T Status} `{!EqDecision Status}.

Definition Store : Type := list (string * T).
Implicit Types s : Store.

Definition save (entity : T) s : Store := map_set (tr_id entity) entity s.
Definition store_get (id : string) s : option T := map_get id s.
Definition getAll s : list T := map_values s.

(** [update(id, updates)], at the time [now]. *)
Definition update (id : string) (updates : T -> T) (now : Z) s : result Store :=
  match map_get id s with
  | None => Throw (Error ("Entity " +:+ id +:+ " not found"))
  | Some existing => Ok (map_set id (tr_touch now (updates existing)) s)
  end.

Definition delete (id : string) s : Store := map_delete id s.
Definition getByStatus (status : Status) s : list T :=
  filter (fun e => tr_status e = status) (map_values s).
Definition getByDestination (destination : Z) s : list T :=
  filter (fun e => tr_destination e = destination) (map_values s).

(** Every entity is stored under its id, and no id twice. *)
Definition store_wf s : Prop := map_wf s /\ forall k e, map_get k s = Some e -> tr_id e = k.

Lemma store_wf_nil : store_wf [].
Proof. split; [apply map_wf_nil|done]. Qed.

Lemma store_wf_save e s : store_wf s -> store_wf (save e s).
Proof.
  intros [Hwf Hid]. split; [by apply map_wf_set|]. intros k e'. unfold save.
  rewrite map_get_set. case_decide; [naive_solver|apply Hid].
Qed.

Lemma store_wf_update id f now s s' :
  (forall e, tr_id (f e) = tr_id e) -> store_wf s -> update id f now s = Ok s' -> store_wf s'.
Proof.
  intros Hf [Hwf Hid]. unfold update. destruct (map_get id s) as [e|] eqn:He; [|done].
  intros [= <-]. split; [by apply map_wf_set|]. intros k e'. rewrite map_get_set.
  case_decide; [|apply Hid]. intros [= <-]. subst. rewrite tr_touch_id, Hf. by apply Hid.
Qed.

Lemma store_wf_delete id s : store_wf s -> store_wf (delete id s).
Proof.
  intros [Hwf Hid]. split; [by apply map_wf_delete|]. intros k e. unfold delete.
  destruct (decide (id = k)) as [<-|Hne]; [by rewrite map_get_delete_eq|].
  rewrite map_get_delete_ne by done. apply Hid.
Qed.

Lemma elem_of_getAll s e : store_wf s -> e ∈ getAll s <-> store_get (tr_id e) s = Some e.
Proof.
  intros [Hwf Hid]. unfold getAll, store_get. rewrite elem_of_map_values_get by done. split.
  - intros [k Hk]. by rewrite (Hid k e Hk).
  - eauto.
Qed.

Lemma elem_of_getByStatus st s e :
  store_wf s -> e ∈ getByStatus st s <-> tr_status e = st /\ store_get (tr_id e) s = Some e.
Proof.
  intros H. unfold getByStatus. rewrite list_elem_of_filter, <- elem_of_getAll by done. done.
Qed.

Lemma store_get_save e s id :
  store_get id (save e s) = if decide (tr_id e = id) then Some e else store_get id s.
Proof. apply map_get_set. Qed.

Lemma store_get_update id f now s s' id' :
  update id f now s = Ok s' ->
  store_get id' s' = if decide (id = id') then tr_touch now ∘ f <$> store_get id s
                     else store_get id' s.
Proof.
  unfold update, store_get. destruct (map_get id s) as [e|] eqn:He; [|done]. intros [= <-].
  rewrite map_get_set. case_decide; done.
Qed.

Lemma update_total id f now s e :
  store_get id s = Some e -> exists s', update id f now s = Ok s'.
Proof. unfold update, store_get. intros ->. eauto. Qed.

(** The entities of a store keep their order and their keys under an update. *)
Lemma getByStatus_NoDup st s : store_wf s -> NoDup (tr_id <$> getByStatus st s).
Proof.
  intros [Hwf Hid]. unfold getByStatus, map_wf, map_keys in *.
  assert (forall k e, (k, e) ∈ s -> tr_id e = k) as Hel.
  { intros k e He. apply Hid. by apply map_elem_get. }
  clear Hid. induction s as [|[k e] s IH]; [constructor|].
  apply NoDup_cons in Hwf as [Hk Hwf]. cbn in Hk, Hwf.
  change (map_values ((k, e) :: s)) with (e :: map_values s).
  assert (NoDup (tr_id <$> filter (fun e => tr_status e = st) (map_values s))) as IH'
    by (apply IH; [done|intros; apply Hel; set_solver]).
  rewrite filter_cons. case_decide; [|exact IH']. cbn. apply NoDup_cons. split; [|exact IH'].
  rewrite (Hel k e) by set_solver. intros (e' & He' & Hin)%list_elem_of_fmap.
  apply list_elem_of_filter in Hin as [_ Hin]. apply elem_of_map_values in Hin as [k' Hin].
  rewrite (Hel k' e') in He' by set_solver. subst k'. apply Hk.
  apply list_elem_of_fmap. by exists (k, e').
Qed.

(** *** Stores with the same keys, related entity by entity *)

Definition store_rel (R : T -> T -> Prop) (s s' : Store) : Prop :=
  Forall2 (fun e e' => fst e = fst e' /\ R (snd e) (snd e')) s s'.

Lemma store_rel_get R s s' id :
  store_rel R s s' -> option_Forall2 R (store_get id s) (store_get id s').
Proof.
  unfold store_get. induction 1 as [|[k e] [k' e'] s s' [Hk HR] _ IH]; cbn in *; [constructor|].
  subst k'. case_decide; [by constructor|done].
Qed.

Lemma store_rel_refl R s : (forall e, e ∈ getAll s -> R e e) -> store_rel R s s.
Proof.
  unfold getAll, map_values. induction s as [|[k e] s IH]; intros HR; constructor.
  - split; [done|]. apply HR. cbn. set_solver.
  - apply IH. intros e' He'. apply HR. cbn. set_solver.
Qed.

Lemma store_rel_compose (R1 R2 R : T -> T -> Prop) s1 s2 s3 :
  (forall e1 e2 e3, e1 ∈ getAll s1 -> R1 e1 e2 -> R2 e2 e3 -> R e1 e3) ->
  store_rel R1 s1 s2 -> store_rel R2 s2 s3 -> store_rel R s1 s3.
Proof.
  intros HR H12. revert s3. unfold getAll, map_values in HR.
  induction H12 as [|[k1 e1] [k2 e2] s1 s2 [Hk1 HR1] _ IH]; intros s3.
  - intros H%Forall2_nil_inv_l. subst. constructor.
  - intros ([k3 e3] & s3' & [Hk2 HR2] & H23 & ->)%Forall2_cons_inv_l. cbn in *.
    constructor; cbn.
    + split; [congruence|]. eapply HR; [|done|done]. set_solver.
    + apply IH; [|done]. intros. eapply HR; [|done|done]. set_solver.
Qed.

Lemma store_rel_mono (R R' : T -> T -> Prop) s s' :
  (forall e e', e ∈ getAll s -> R e e' -> R' e e') -> store_rel R s s' -> store_rel R' s s'.
Proof.
  unfold getAll, map_values. intros HR. induction 1 as [|[k e] [k' e'] s s' [Hk H] _ IH]; constructor.
  - split; [done|]. cbn in *. apply HR; [set_solver|done].
  - apply IH. intros. apply HR; [cbn; set_solver|done].
Qed.

Lemma store_rel_values R s s' : store_rel R s s' -> Forall2 R (getAll s) (getAll s').
Proof. unfold getAll, map_values. induction 1 as [|? ? ? ? [? ?]]; cbn; by constructor. Qed.

Lemma store_rel_keys R s s' : store_rel R s s' -> map_keys s' = map_keys s.
Proof. unfold map_keys. induction 1 as [|? ? ? ? [? ?] ? IH]; cbn; congruence. Qed.

Lemma store_rel_wf R s s' :
  (forall e e', R e e' -> tr_id e' = tr_id e) -> store_rel R s s' -> store_wf s -> store_wf s'.
Proof.
  intros HR H [Hwf Hid]. split; [unfold map_wf; by erewrite store_rel_keys|].
  intros k e' He'. pose proof (store_rel_get R s s' k H) as Hg. unfold store_get in Hg.
  rewrite He' in Hg. inversion Hg as [e ? HR' Hk|]; subst. rewrite (HR _ _ HR'). by apply Hid.
Qed.

(** An update touches the entity of that id and no other. *)
Definition updated (id : string) (f : T -> T) (now : Z) (e e' : T) : Prop :=
  e' = if decide (tr_id e = id) then tr_touch now (f e) else e.

Lemma store_rel_update id f now s s' :
  store_wf s -> update id f now s = Ok s' ->
  store_rel (updated id f now) s s'.
Proof.
  intros [Hwf Hid]. unfold update. destruct (map_get id s) as [e0|] eqn:He; [|done]. intros [= <-].
  assert (forall k e, (k, e) ∈ s -> tr_id e = k) as Hel
    by (intros k e Hin; apply Hid; by apply map_elem_get).
  clear Hid. unfold map_wf, map_keys in Hwf. revert He Hwf Hel.
  induction s as [|[k e] s IH]; cbn; [done|]. intros He [Hk Hwf]%NoDup_cons Hel.
  pose proof (Hel k e ltac:(set_solver)) as Hke.
  destruct (decide (k = id)) as [->|Hne].
  - injection He as ->. constructor.
    + split; [done|]. unfold updated. cbn. by rewrite decide_True.
    + apply (store_rel_refl (updated id f now)).
      intros e Hin. unfold updated. rewrite decide_False; [done|]. apply elem_of_map_values in Hin as [k' Hin].
      rewrite (Hel k' e) by set_solver. intros ->. apply Hk.
      apply list_elem_of_fmap. by exists (id, e).
  - constructor.
    + split; [done|]. unfold updated. cbn. rewrite decide_False; [done|]. by rewrite Hke.
    + apply IH; [done..|]. intros; apply Hel; set_solver.
Qed.

End store.
#[global] Arguments Store : clear implicits.

#[export] Hint Resolve store_wf_nil store_wf_save store_wf_delete : jsmap.
