(* ===== verification/ActionTracker.v ===== *)
(** The action tracker, rebalancer/src/tracking/ActionTracker.ts: the lifecycle of transfers,
    rebalance intents and rebalance actions over three stores. Every call to the outside (the
    clock, uuids, the explorer, chain adapters, external bridges) is answered by the class
    [World] at the number of calls made before it, so nothing is assumed of two answers.
    Logging is left out. *)
From stdpp Require Import base tactics list gmap strings.
From Stdlib Require Import ZArith Lia.
From S2P Require Import Prelude JsMap Route Config Messages BlockTag Store.

#[local] Open Scope Z_scope.

(** ** The outside *)

(** [ExplorerMessage], at the fields the tracker reads. *)
Record ExplorerMessage : Type := {
  msg_id : string;
  origin_domain_id : Z;
  destination_domain_id : Z;
  em_sender : string;
  em_recipient : string;
  origin_tx_hash : string;
  message_body : string;
  send_occurred_at : option string
}.

Class World : Type := {
  (** [Date.now()] *)
  w_now : nat -> Z;
  (** [uuidv4()] *)
  w_uuid : nat -> string;
  (** [explorerClient.getInflightRebalanceActions(..)] *)
  w_rebalance_messages : nat -> result (list ExplorerMessage);
  (** [explorerClient.getInflightUserTransfers(..)] *)
  w_transfer_messages : nat -> result (list ExplorerMessage);
  (** [multiProvider.getChainName(domain)] *)
  w_chainName : Z -> result string;
  (** [multiProvider.getChainMetadata(chain)] and the head its provider reports *)
  w_metadata : string -> result ChainMetadata;
  w_latest : nat -> string -> result LatestBlock;
  (** [core.adapter(chain).isDelivered(messageId, blockTag)] *)
  w_isDelivered : nat -> string -> string -> option BlockTag -> result bool;
  (** [bridge.getStatus(txHash, origin, destination)] of a registered bridge *)
  w_bridge_status : nat -> ExternalBridgeType -> string -> Z -> Z -> result BridgeStatus;
  (** [new Date(s).getTime()], [None] for NaN *)
  w_date : string -> option Z;
  (** which of the synchronizations a [Promise.all] waits for goes on next, by the time it
      started and the turn *)
  w_turn : nat -> nat -> nat;
  (** which pending synchronizations go on, and in which order, while something else awaits *)
  w_background : nat -> list nat
}.

(** The configuration the tracker itself reads. *)
Record ActionTrackerConfig : Type := { intentTTL : Z }.

(** ** State *)

Record ActionTracker : Type := {
  transferStore : Store Transfer;
  rebalanceIntentStore : Store RebalanceIntent;
  rebalanceActionStore : Store RebalanceAction;
  tick : nat
}.

Definition with_transfers (s : ActionTracker) (st : Store Transfer) : ActionTracker := {|
  transferStore := st; rebalanceIntentStore := rebalanceIntentStore s;
  rebalanceActionStore := rebalanceActionStore s; tick := tick s |}.
Definition with_intents (s : ActionTracker) (st : Store RebalanceIntent) : ActionTracker := {|
  transferStore := transferStore s; rebalanceIntentStore := st;
  rebalanceActionStore := rebalanceActionStore s; tick := tick s |}.
Definition with_actions (s : ActionTracker) (st : Store RebalanceAction) : ActionTracker := {|
  transferStore := transferStore s; rebalanceIntentStore := rebalanceIntentStore s;
  rebalanceActionStore := st; tick := tick s |}.

Definition empty_tracker : ActionTracker := {|
  transferStore := []; rebalanceIntentStore := []; rebalanceActionStore := []; tick := 0 |}.

Notation tracker := (eff ActionTracker).

Section tracker.
Context `{World} (config : ActionTrackerConfig).

(** One call to the outside. *)
Definition ask {A} (answer : nat -> A) : tracker A := fun s =>
  ({| transferStore := transferStore s; rebalanceIntentStore := rebalanceIntentStore s;
      rebalanceActionStore := rebalanceActionStore s; tick := S (tick s) |},
   Ok (answer (tick s))).

Definition now : tracker Z := ask w_now.
Definition uuidv4 : tracker string := ask w_uuid.

(** ** Store operations in place *)

Definition save_transfer (t : Transfer) : tracker unit :=
  modify (fun s => with_transfers s (save t (transferStore s))).
Definition save_intent (i : RebalanceIntent) : tracker unit :=
  modify (fun s => with_intents s (save i (rebalanceIntentStore s))).
Definition save_action (a : RebalanceAction) : tracker unit :=
  modify (fun s => with_actions s (save a (rebalanceActionStore s))).

Definition update_transfer (id : string) (f : Transfer -> Transfer) : tracker unit :=
  t ← now;
  s ← get;
  st ← lift (update id f t (transferStore s));
  modify (fun s => with_transfers s st).
Definition update_intent (id : string) (f : RebalanceIntent -> RebalanceIntent) : tracker unit :=
  t ← now;
  s ← get;
  st ← lift (update id f t (rebalanceIntentStore s));
  modify (fun s => with_intents s st).
Definition update_action (id : string) (f : RebalanceAction -> RebalanceAction) : tracker unit :=
  t ← now;
  s ← get;
  st ← lift (update id f t (rebalanceActionStore s));
  modify (fun s => with_actions s st).

(** ** Queries *)

Definition getTransfer (id : string) (s : ActionTracker) : option Transfer :=
  store_get id (transferStore s).
Definition getInProgressTransfers (s : ActionTracker) : list Transfer :=
  getByStatus TransferInProgress (transferStore s).
Definition getTransfersByDestination (destination : Z) (s : ActionTracker) : list Transfer :=
  getByDestination destination (transferStore s).
Definition getRebalanceIntent (id : string) (s : ActionTracker) : option RebalanceIntent :=
  store_get id (rebalanceIntentStore s).
Definition getActiveRebalanceIntents (s : ActionTracker) : list RebalanceIntent :=
  getByStatus IntentInProgress (rebalanceIntentStore s).
Definition getRebalanceIntentsByDestination (destination : Z) (s : ActionTracker)
    : list RebalanceIntent :=
  getByDestination destination (rebalanceIntentStore s).
Definition getRebalanceAction (id : string) (s : ActionTracker) : option RebalanceAction :=
  store_get id (rebalanceActionStore s).
Definition getInProgressActions (s : ActionTracker) : list RebalanceAction :=
  getByStatus ActionInProgress (rebalanceActionStore s).

Definition getActionsByType (type : ActionType) (s : ActionTracker) : list RebalanceAction :=
  filter (fun a => a_type a = type) (getAll (rebalanceActionStore s)).

Definition getActionsForIntent (intentId : string) (s : ActionTracker) : list RebalanceAction :=
  filter (fun a => a_intentId a = intentId) (getAll (rebalanceActionStore s)).

Definition getInflightInventoryMovements (origin : Z) (s : ActionTracker) : Z :=
  sum_by a_amount
    (filter (fun a => a_type a = inventory_movement /\ a_status a = ActionInProgress /\
                      a_origin a = origin) (getAll (rebalanceActionStore s))).

(** Deposits and rebalance messages count towards an intent, movements do not. *)
Definition counts (a : RebalanceAction) : Prop :=
  a_type a = inventory_deposit \/ a_type a = rebalance_message.

Definition getCompletedAmountForIntent (intentId : string) (s : ActionTracker) : Z :=
  sum_by a_amount
    (filter (fun a => a_status a = ActionComplete /\ counts a) (getActionsForIntent intentId s)).

(** ** Intents and actions *)

(** [CreateRebalanceIntentParams], [CreateRebalanceActionParams]. *)
Record CreateRebalanceIntentParams : Type := {
  ip_origin : Z; ip_destination : Z; ip_amount : Z;
  ip_bridge : option string; ip_priority : option Z; ip_strategyType : option string;
  ip_executionMethod : option ExecutionMethod; ip_externalBridge : option ExternalBridgeType
}.

Record CreateRebalanceActionParams : Type := {
  ap_intentId : string; ap_origin : Z; ap_destination : Z; ap_amount : Z; ap_type : ActionType;
  ap_messageId : option string; ap_txHash : option string;
  ap_externalBridgeTransferId : option string; ap_externalBridgeId : option ExternalBridgeType
}.

Definition createRebalanceIntent (params : CreateRebalanceIntentParams)
    : tracker RebalanceIntent :=
  id ← uuidv4;
  createdAt ← now;
  updatedAt ← now;
  let intent := {|
    i_id := id; i_status := IntentNotStarted; i_origin := ip_origin params;
    i_destination := ip_destination params; i_amount := ip_amount params;
    i_bridge := ip_bridge params; i_priority := ip_priority params;
    i_strategyType := ip_strategyType params; i_executionMethod := ip_executionMethod params;
    i_externalBridge := ip_externalBridge params; i_createdAt := createdAt;
    i_updatedAt := updatedAt |} in
  _ ← save_intent intent;
  mret intent.

Definition completeRebalanceIntent (id : string) : tracker unit :=
  update_intent id (set_intent_status IntentComplete).
Definition cancelRebalanceIntent (id : string) : tracker unit :=
  update_intent id (set_intent_status IntentCancelled).
Definition failRebalanceIntent (id : string) : tracker unit :=
  update_intent id (set_intent_status IntentFailed).

Definition createRebalanceAction (params : CreateRebalanceActionParams)
    : tracker RebalanceAction :=
  id ← uuidv4;
  createdAt ← now;
  updatedAt ← now;
  let action := {|
    a_id := id; a_status := ActionInProgress; a_type := ap_type params;
    a_intentId := ap_intentId params; a_messageId := ap_messageId params;
    a_txHash := ap_txHash params;
    a_externalBridgeTransferId := ap_externalBridgeTransferId params;
    a_externalBridgeId := ap_externalBridgeId params; a_lastBridgeStatus := None;
    a_nonPendingSince := None; a_origin := ap_origin params;
    a_destination := ap_destination params; a_amount := ap_amount params;
    a_createdAt := createdAt; a_updatedAt := updatedAt |} in
  _ ← save_action action;
  intent ← gets (getRebalanceIntent (ap_intentId params));
  _ ← match intent with
      | Some intent =>
          if bool_decide (i_status intent = IntentNotStarted)
          then update_intent (i_id intent) (set_intent_status IntentInProgress)
          else mret ()
      | None => mret ()
      end;
  mret action.

Definition checkAndCompleteIntent (intentId : string) : tracker unit :=
  intent ← gets (getRebalanceIntent intentId);
  match intent with
  | None => mret ()
  | Some intent =>
      if bool_decide (i_status intent = IntentComplete) then mret ()
      else
        completedAmount ← gets (getCompletedAmountForIntent intentId);
        if i_amount intent <=? completedAmount
        then update_intent intentId (set_intent_status IntentComplete)
        else mret ()
  end.

Definition completeRebalanceAction (id : string) : tracker unit :=
  action ← gets (getRebalanceAction id);
  match action with
  | None => throw (Error ("RebalanceAction " +:+ id +:+ " not found"))
  | Some action =>
      _ ← update_action id (set_action_status ActionComplete);
      checkAndCompleteIntent (a_intentId action)
  end.

Definition failRebalanceAction (id : string) : tracker unit :=
  update_action id (set_action_status ActionFailed).

(** ** Delivery checks *)

(** The tag cached in the monitor event, or computed on demand when there is no event. *)
Definition confirmed_tag (destination : Z)
    (confirmedBlockTags : option (string -> option BlockTag)) : tracker (option BlockTag) :=
  chainName ← lift (w_chainName destination);
  match confirmedBlockTags with
  | Some tags => mret (tags chainName)
  | None =>
      latest ← ask (fun k => w_latest k chainName);
      mret (getConfirmedBlockTag chainName (w_metadata chainName) latest)
  end.

Definition isMessageDelivered (messageId : string) (destination : Z)
    (blockTag : option BlockTag) : tracker bool :=
  try_catch
    (chainName ← lift (w_chainName destination);
     delivered ← ask (fun k => w_isDelivered k chainName messageId blockTag);
     lift delivered)
    (fun _ => mret false).

(** ** Recovery *)

Definition recoverAction (msg : ExplorerMessage) : tracker unit :=
  existing ← gets (getRebalanceAction (msg_id msg));
  match existing with
  | Some _ => mret ()
  | None =>
      try_catch
        (parsed ← lift (parseWarpRouteMessage (message_body msg));
         createdAt ← match send_occurred_at msg with
                     | Some (String _ _ as at_) => mret (w_date (at_ +:+ "Z"))
                     | _ => t ← now; mret (Some t)
                     end;
         createdAt ← match createdAt with
                     | Some t => mret t
                     | None => throw (Error "Invalid send_occurred_at timestamp")
                     end;
         intentId ← uuidv4;
         intentUpdatedAt ← now;
         let intent := {|
           i_id := intentId; i_status := IntentInProgress; i_origin := origin_domain_id msg;
           i_destination := destination_domain_id msg; i_amount := wr_amount parsed;
           i_bridge := None; i_priority := None; i_strategyType := None;
           i_executionMethod := None; i_externalBridge := None; i_createdAt := createdAt;
           i_updatedAt := intentUpdatedAt |} in
         _ ← save_intent intent;
         actionUpdatedAt ← now;
         let action := {|
           a_id := msg_id msg; a_status := ActionInProgress; a_type := rebalance_message;
           a_intentId := intentId; a_messageId := Some (msg_id msg);
           a_txHash := Some (origin_tx_hash msg); a_externalBridgeTransferId := None;
           a_externalBridgeId := None; a_lastBridgeStatus := None; a_nonPendingSince := None;
           a_origin := origin_domain_id msg; a_destination := destination_domain_id msg;
           a_amount := wr_amount parsed; a_createdAt := createdAt;
           a_updatedAt := actionUpdatedAt |} in
         save_action action)
        (fun _ => mret ())
  end.

(** ** Synchronization *)

Definition sync_new_transfer (msg : ExplorerMessage) : tracker unit :=
  transfer ← gets (getTransfer (msg_id msg));
  match transfer with
  | Some _ => mret ()
  | None =>
      try_catch
        (parsed ← lift (parseWarpRouteMessage (message_body msg));
         createdAt ← now;
         updatedAt ← now;
         save_transfer {|
           t_id := msg_id msg; t_status := TransferInProgress; t_messageId := msg_id msg;
           t_origin := origin_domain_id msg; t_destination := destination_domain_id msg;
           t_sender := em_sender msg; t_recipient := em_recipient msg;
           t_amount := wr_amount parsed; t_createdAt := createdAt; t_updatedAt := updatedAt |})
        (fun _ => mret ())
  end.

Definition sync_delivered_transfer (confirmedBlockTags : option (string -> option BlockTag))
    (transfer : Transfer) : tracker unit :=
  blockTag ← confirmed_tag (t_destination transfer) confirmedBlockTags;
  delivered ← isMessageDelivered (t_messageId transfer) (t_destination transfer) blockTag;
  if (delivered : bool)
  then update_transfer (t_id transfer) (set_transfer_status TransferComplete)
  else mret ().

Definition syncTransfers (confirmedBlockTags : option (string -> option BlockTag))
    : tracker unit :=
  messages ← ask w_transfer_messages;
  messages ← lift messages;
  _ ← for_each sync_new_transfer messages;
  existingTransfers ← gets getInProgressTransfers;
  for_each (sync_delivered_transfer confirmedBlockTags) existingTransfers.

(** One intent of [syncRebalanceIntents]. *)
Definition sync_intent (allInProgressActions : list RebalanceAction) (now_ : Z)
    (intent : RebalanceIntent) : tracker unit :=
  completedAmount ← gets (getCompletedAmountForIntent (i_id intent));
  if i_amount intent <=? completedAmount then
    update_intent (i_id intent) (set_intent_status IntentComplete)
  else if intentTTL config <? now_ - i_createdAt intent then
    _ ← update_intent (i_id intent) (set_intent_status IntentFailed);
    for_each (fun action =>
      if bool_decide (a_intentId action = i_id intent)
      then update_action (a_id action) (set_action_status ActionFailed)
      else mret ()) allInProgressActions
  else mret ().

Definition syncRebalanceIntents : tracker unit :=
  inProgressIntents ← gets getActiveRebalanceIntents;
  allInProgressActions ← gets getInProgressActions;
  now_ ← now;
  for_each (sync_intent allInProgressActions now_) inProgressIntents.

Definition sync_discovered (allActions : list RebalanceAction) (msg : ExplorerMessage)
    : tracker unit :=
  if existsb (fun a => bool_decide (a_messageId a = Some (msg_id msg))) allActions
  then mret ()
  else recoverAction msg.

Definition sync_delivered_action (confirmedBlockTags : option (string -> option BlockTag))
    (action : RebalanceAction) : tracker unit :=
  match a_messageId action with
  | Some (String _ _ as messageId) =>
      blockTag ← confirmed_tag (a_destination action) confirmedBlockTags;
      delivered ← isMessageDelivered messageId (a_destination action) blockTag;
      if (delivered : bool) then completeRebalanceAction (a_id action) else mret ()
  | _ => mret ()
  end.

Definition syncRebalanceActions (confirmedBlockTags : option (string -> option BlockTag))
    : tracker unit :=
  messages ← ask w_rebalance_messages;
  messages ← lift messages;
  allActions ← gets (fun s => getAll (rebalanceActionStore s));
  _ ← for_each (sync_discovered allActions) messages;
  inProgressActions ← gets getInProgressActions;
  for_each (sync_delivered_action confirmedBlockTags) inProgressActions.

Definition initialize : tracker unit :=
  messages ← ask w_rebalance_messages;
  messages ← lift messages;
  _ ← for_each recoverAction messages;
  _ ← syncTransfers None;
  _ ← syncRebalanceIntents;
  syncRebalanceActions None.

(** ** Inventory *)

Record PartialInventoryIntent : Type := {
  pi_intent : RebalanceIntent;
  pi_completedAmount : Z;
  pi_remaining : Z;
  pi_hasInflightDeposit : bool
}.

(** In-flight movements of an intent, and those not pending for the staleness window. *)
Definition inflight_movement (a : RebalanceAction) : Prop :=
  a_status a = ActionInProgress /\ a_type a = inventory_movement.

Definition is_stale (now_ : Z) (a : RebalanceAction) : bool :=
  if bool_decide (a_lastBridgeStatus a = Some BridgePending) then false
  else DEFAULT_MOVEMENT_STALENESS_MS <=? now_ - default (a_createdAt a) (a_nonPendingSince a).

Definition deposits (st : RebalanceActionStatus) (actions : list RebalanceAction) : Z :=
  sum_by a_amount
    (filter (fun a => a_status a = st /\ a_type a = inventory_deposit) actions).

(** One active intent of the query; stale movements are failed on the way. *)
Definition partial_intent (intent : RebalanceIntent) : tracker (list PartialInventoryIntent) :=
  if negb (bool_decide (i_executionMethod intent = Some inventory)) then mret []
  else
    actions ← gets (getActionsForIntent (i_id intent));
    let inflightMovements :=
      filter (fun a => a_status a = ActionInProgress /\ a_type a = inventory_movement) actions in
    now_ ← now;
    let staleMovements := filter (fun a => is_stale now_ a = true) inflightMovements in
    let staleMovementIds := a_id <$> staleMovements in
    if existsb (fun a => negb (bool_decide (a_id a ∈ staleMovementIds))) inflightMovements
    then mret []
    else
      _ ← for_each (fun movement => failRebalanceAction (a_id movement)) staleMovements;
      let completedAmount := deposits ActionComplete actions in
      let inflightAmount := deposits ActionInProgress actions in
      let remaining := i_amount intent - completedAmount - inflightAmount in
      if (0 <? remaining) || (0 <? inflightAmount)
      then mret [{| pi_intent := intent; pi_completedAmount := completedAmount;
                    pi_remaining := remaining; pi_hasInflightDeposit := 0 <? inflightAmount |}]
      else mret [].

Fixpoint collect {A} (f : RebalanceIntent -> tracker (list A)) (intents : list RebalanceIntent)
    : tracker (list A) :=
  match intents with
  | [] => mret []
  | intent :: rest => found ← f intent; more ← collect f rest; mret (found ++ more)
  end.

Definition getPartiallyFulfilledInventoryIntents : tracker (list PartialInventoryIntent) :=
  inProgressIntents ← gets getActiveRebalanceIntents;
  notStartedIntents ← gets (fun s => getByStatus IntentNotStarted (rebalanceIntentStore s));
  collect partial_intent (inProgressIntents ++ notStartedIntents).

(** One movement of [syncInventoryMovementActions]; [registry] says which bridges exist. *)
Definition sync_movement (registry : list ExternalBridgeType) (action : RebalanceAction)
    : tracker unit :=
  match a_txHash action, a_externalBridgeId action with
  | Some (String _ _ as txHash), Some bridgeId =>
      if negb (bool_decide (bridgeId ∈ registry)) then mret ()
      else
        try_catch
          (status ← ask (fun k =>
             w_bridge_status k bridgeId txHash (a_origin action) (a_destination action));
           status ← lift status;
           match status with
           | BridgeComplete => completeRebalanceAction (a_id action)
           | BridgeFailed => failRebalanceAction (a_id action)
           | BridgePending => update_action (a_id action) (set_bridge_status BridgePending None)
           | BridgeNotFound =>
               since ← match a_nonPendingSince action with
                       | Some t => mret t
                       | None => now
                       end;
               update_action (a_id action) (set_bridge_status BridgeNotFound (Some since))
           end)
          (fun _ => mret ())
  | _, _ => mret ()
  end.

Definition syncInventoryMovementActions (registry : list ExternalBridgeType) : tracker unit :=
  inProgressActions ← gets getInProgressActions;
  for_each (sync_movement registry)
    (filter (fun a => a_type a = inventory_movement) inProgressActions).

End tracker.

(** ** InflightContextAdapter *)

Section adapter.
Context (getChainName : Z -> result string).

(** One active intent as a route; the deposit sums only for inventory intents. *)
Definition pending_route (s : ActionTracker) (intent : RebalanceIntent) : result Route :=
  let sums := if bool_decide (i_executionMethod intent = Some inventory)
              then let actions := getActionsForIntent (i_id intent) s in
                   (deposits ActionComplete actions, deposits ActionInProgress actions)
              else (0, 0) in
  origin ← getChainName (i_origin intent);
  destination ← getChainName (i_destination intent);
  Ok {| r_origin := origin; r_destination := destination; r_amount := i_amount intent;
        r_executionMethod := i_executionMethod intent;
        r_deliveredAmount := Some (fst sums); r_awaitingDeliveryAmount := Some (snd sums);
        r_bridge := i_bridge intent; r_externalBridge := None |}.

Definition transfer_route (transfer : Transfer) : result Route :=
  origin ← getChainName (t_origin transfer);
  destination ← getChainName (t_destination transfer);
  Ok {| r_origin := origin; r_destination := destination; r_amount := t_amount transfer;
        r_executionMethod := None; r_deliveredAmount := None;
        r_awaitingDeliveryAmount := None; r_bridge := None; r_externalBridge := None |}.

Definition getInflightContext (s : ActionTracker) : result InflightContext :=
  pending ← mapM (pending_route s) (getActiveRebalanceIntents s);
  transfers ← mapM transfer_route (getInProgressTransfers s);
  Ok {| pendingRebalances := pending; pendingTransfers := transfers;
        proposedRebalances := None |}.

End adapter.
