(* ===== verification/TrackerSamples.v ===== *)
(** A concrete outside and concrete tracker states shared by the examples of the tracker
    files: a clock that ticks in minutes, two chains, one message the explorer knows of. *)
From stdpp Require Import base tactics list gmap strings pretty.
From Stdlib Require Import ZArith Lia String.
From S2P Require Import Prelude JsMap Route Config Bytes Messages BlockTag Store Token.
From S2P Require Import ActionTracker.

#[local] Open Scope Z_scope.

(** A warp route message of amount 40 from domain 1 to domain 2. *)
Definition sample_message : ExplorerMessage := {|
  msg_id := "0xm1";
  origin_domain_id := 1;
  destination_domain_id := 2;
  em_sender := "0x01";
  em_recipient := "0x02";
  origin_tx_hash := "0xt1";
  message_body := toHexString (be_bytes 32 7 ++ be_bytes 32 40);
  send_occurred_at := None
|}.

Definition sample_chainName (domain : Z) : result string :=
  if domain =? 1 then Ok "a"%string else if domain =? 2 then Ok "b"%string
  else Throw (Error "unknown domain").

(** Every message is delivered from the fortieth call on; bridges never know a transfer. *)
#[export] Instance sample_world : World := {|
  w_now := fun k => 60000 * Z.of_nat k;
  w_uuid := fun k => ("uuid-" +:+ pretty k)%string;
  w_rebalance_messages := fun _ => Ok [sample_message];
  w_transfer_messages := fun _ => Ok [];
  w_chainName := sample_chainName;
  w_metadata := fun _ =>
    Ok {| cm_protocol := PEthereum; cm_reorgPeriod := Some (ReorgBlocks 10) |};
  w_latest := fun k _ => Ok (ProviderBlock (100 + Z.of_nat k));
  w_isDelivered := fun k _ _ _ => Ok (40 <=? k)%nat;
  w_bridge_status := fun _ _ _ _ _ => Ok BridgeNotFound;
  w_date := fun _ => None;
  w_turn := fun _ _ => 0%nat;
  w_background := fun _ => [0; 1; 0]%nat
|}.

Definition sample_tracker_config : ActionTrackerConfig := {| intentTTL := 600000 |}.

Definition sample_intent (id : string) (amount : Z) (status : RebalanceIntentStatus)
    (method : option ExecutionMethod) : RebalanceIntent := {|
  i_id := id; i_status := status; i_origin := 1; i_destination := 2; i_amount := amount;
  i_bridge := None; i_priority := None; i_strategyType := None; i_executionMethod := method;
  i_externalBridge := None; i_createdAt := 0; i_updatedAt := 0 |}.

Definition sample_action (id intentId : string) (type : ActionType) (amount : Z)
    (status : RebalanceActionStatus) : RebalanceAction := {|
  a_id := id; a_status := status; a_type := type; a_intentId := intentId;
  a_messageId := None; a_txHash := None; a_externalBridgeTransferId := None;
  a_externalBridgeId := None; a_lastBridgeStatus := None; a_nonPendingSince := None;
  a_origin := 1; a_destination := 2; a_amount := amount; a_createdAt := 0; a_updatedAt := 0 |}.

(** Two intents of 100. The first is an inventory one with 60 deposited, 40 in flight and one
    movement that was never pending; the second has one message of 30. The clock is at one
    hour. *)
Definition sample_tracker : ActionTracker := {|
  transferStore := [];
  rebalanceIntentStore :=
    [("i1", sample_intent "i1" 100 IntentInProgress (Some inventory));
     ("i2", sample_intent "i2" 100 IntentInProgress None)]%string;
  rebalanceActionStore :=
    [("a1", sample_action "a1" "i1" inventory_deposit 60 ActionComplete);
     ("a2", sample_action "a2" "i1" inventory_deposit 40 ActionInProgress);
     ("a3", sample_action "a3" "i1" inventory_movement 50 ActionInProgress);
     ("a4", sample_action "a4" "i2" rebalance_message 30 ActionInProgress)]%string;
  tick := 60
|}.
