(* ===== verification/TrackerFacts.v ===== *)
(** Correctness of the action tracker: what no operation can change, and what each
    synchronization does to the statuses it is responsible for. *)
From stdpp Require Import base tactics list gmap strings pretty relations.
From Stdlib Require Import ZArith Lia.
From S2P Require Import Prelude JsMap Amount Route Config Bytes Messages BlockTag Store.
From S2P Require Import BaseStrategy ActionTracker TrackerSamples.

#[local] Open Scope Z_scope.

(** ** The immutable part of an entity *)

Definition transfer_core (t : Transfer) : Transfer :=
  tr_touch 0 (set_transfer_status TransferInProgress t).
Definition intent_core (i : RebalanceIntent) : RebalanceIntent :=
  tr_touch 0 (set_intent_status IntentNotStarted i).
Definition action_core (a : RebalanceAction) : RebalanceAction :=
  tr_touch 0 (set_bridge_status BridgePending None (set_action_status ActionInProgress a)).

(** Nothing tracked is lost, no immutable field changes, and delivered transfers stay so. *)
Record evolves (s s' : ActionTracker) : Prop := {
  ev_transfers id t : getTransfer id s = Some t ->
    exists t', getTransfer id s' = Some t' /\ transfer_core t' = transfer_core t /\
      (t_status t = TransferComplete -> t_status t' = TransferComplete);
  ev_intents id i : getRebalanceIntent id s = Some i ->
    exists i', getRebalanceIntent id s' = Some i' /\ intent_core i' = intent_core i;
  ev_actions id a : getRebalanceAction id s = Some a ->
    exists a', getRebalanceAction id s' = Some a' /\ action_core a' = action_core a
}.

#[export] Instance evolves_preorder : PreOrder evolves.
Proof.
  split.
  - intros s. constructor; eauto.
  - intros s1 s2 s3 [T12 I12 A12] [T23 I23 A23]. constructor.
    + intros id t Ht. destruct (T12 _ _ Ht) as (t' & Ht' & Hc & Hst).
      destruct (T23 _ _ Ht') as (t'' & ? & ? & ?). exists t''. split_and!; [done|congruence|auto].
    + intros id i Hi. destruct (I12 _ _ Hi) as (i' & Hi' & Hc).
      destruct (I23 _ _ Hi') as (i'' & ? & ?). exists i''. split; [done|congruence].
    + intros id a Ha. destruct (A12 _ _ Ha) as (a' & Ha' & Hc).
      destruct (A23 _ _ Ha') as (a'' & ? & ?). exists a''. split; [done|congruence].
Qed.

(** All three stores are well formed. *)
Record stores_wf (s : ActionTracker) : Prop := {
  wf_transfers : store_wf (transferStore s);
  wf_intents : store_wf (rebalanceIntentStore s);
  wf_actions : store_wf (rebalanceActionStore s)
}.

Section facts.
Context `{World} (config : ActionTrackerConfig).

(** The uuids still to come are not in use. *)
Definition fresh_ids (s : ActionTracker) : Prop :=
  forall k, (tick s <= k)%nat ->
    getRebalanceIntent (w_uuid k) s = None /\ getRebalanceAction (w_uuid k) s = None.

Definition Inv (s : ActionTracker) : Prop := stores_wf s /\ fresh_ids s.

(** What every operation does to a good state. *)
Definition keeps (s s' : ActionTracker) : Prop :=
  Inv s -> Inv s' /\ evolves s s' /\ (tick s <= tick s')%nat.

#[local] Instance keeps_preorder : PreOrder keeps.
Proof.
  split.
  - intros s Hs. split_and!; [done|reflexivity|done].
  - intros s1 s2 s3 H12 H23 H1. destruct (H12 H1) as (H2 & E12 & L12).
    destruct (H23 H2) as (H3 & E23 & L23). split_and!; [done|by etrans|lia].
Qed.

(** *** Single steps *)

(** The state after [n] calls to the outside. *)
Definition later (n : nat) (s : ActionTracker) : ActionTracker := {|
  transferStore := transferStore s; rebalanceIntentStore := rebalanceIntentStore s;
  rebalanceActionStore := rebalanceActionStore s; tick := n + tick s |}.

Lemma keeps_later n s : keeps s (later n s).
Proof.
  intros [[] Hf]. split_and!; [split; [by constructor|]|constructor; eauto|cbn; lia].
  intros k Hk. apply Hf. cbn in Hk. lia.
Qed.

(** Freshness of the uuids drawn by the calls in between. *)
Lemma keeps_using n s s' : (Inv s -> keeps (later n s) s') -> keeps s s'.
Proof.
  intros Hk Hs. destruct (keeps_later n s Hs) as (Hl & E1 & L1).
  destruct (Hk Hs Hl) as (Hs' & E2 & L2). split_and!; [done|by etrans|lia].
Qed.

Lemma preserves_ask {A} (f : nat -> A) : preserves keeps (ask f).
Proof. intros s. apply (keeps_later 1). Qed.

Lemma preserves_gets_keeps {A} (f : ActionTracker -> A) : preserves keeps (gets f).
Proof. apply preserves_gets; apply _. Qed.

Lemma keeps_save_transfer s t :
  getTransfer (t_id t) s = None -> keeps s (with_transfers s (save t (transferStore s))).
Proof.
  intros Hn [[] Hf]. split_and!; [split; [constructor; cbn; try done; by apply store_wf_save|done]| |done].
  constructor; [|eauto..]. intros id t' Ht'. exists t'. split_and!; [|done..].
  unfold getTransfer in *. cbn [with_transfers transferStore]. rewrite store_get_save.
  case_decide; [|done]. cbn in *. congruence.
Qed.

Lemma keeps_save_intent s i :
  getRebalanceIntent (i_id i) s = None -> (forall k, (tick s <= k)%nat -> w_uuid k <> i_id i) ->
  keeps s (with_intents s (save i (rebalanceIntentStore s))).
Proof.
  intros Hn Hk [[] Hf]. split_and!; [split; [constructor; cbn; try done; by apply store_wf_save|]| |done].
  - intros k Hk'. destruct (Hf k Hk') as [H1 H2]. split; [|done].
    unfold getRebalanceIntent in *. cbn [with_intents rebalanceIntentStore].
    rewrite store_get_save. rewrite decide_False; [done|]. intros Heq. by apply (Hk k Hk').
  - constructor; [eauto| |eauto]. intros id i' Hi'. exists i'. split; [|done].
    unfold getRebalanceIntent in *. cbn [with_intents rebalanceIntentStore].
    rewrite store_get_save. case_decide; [|done]. cbn in *. congruence.
Qed.

Lemma keeps_save_action s a :
  getRebalanceAction (a_id a) s = None -> (forall k, (tick s <= k)%nat -> w_uuid k <> a_id a) ->
  keeps s (with_actions s (save a (rebalanceActionStore s))).
Proof.
  intros Hn Hk [[] Hf]. split_and!; [split; [constructor; cbn; try done; by apply store_wf_save|]| |done].
  - intros k Hk'. destruct (Hf k Hk') as [H1 H2]. split; [done|].
    unfold getRebalanceAction in *. cbn [with_actions rebalanceActionStore].
    rewrite store_get_save. rewrite decide_False; [done|]. intros Heq. by apply (Hk k Hk').
  - constructor; [eauto..|]. intros id a' Ha'. exists a'. split; [|done].
    unfold getRebalanceAction in *. cbn [with_actions rebalanceActionStore].
    rewrite store_get_save. case_decide; [|done]. cbn in *. congruence.
Qed.

(** An update, run: the entity is touched at the next reading of the clock. *)
Lemma update_transfer_run id f s :
  update_transfer id f s =
    match update id f (w_now (tick s)) (transferStore s) with
    | Ok st => (with_transfers (later 1 s) st, Ok ())
    | Throw e => (later 1 s, Throw e)
    end.
Proof. unfold update_transfer, now, ask. run_eff. by destruct (update id _ _ _). Qed.

Lemma update_intent_run id f s :
  update_intent id f s =
    match update id f (w_now (tick s)) (rebalanceIntentStore s) with
    | Ok st => (with_intents (later 1 s) st, Ok ())
    | Throw e => (later 1 s, Throw e)
    end.
Proof. unfold update_intent, now, ask. run_eff. by destruct (update id _ _ _). Qed.

Lemma update_action_run id f s :
  update_action id f s =
    match update id f (w_now (tick s)) (rebalanceActionStore s) with
    | Ok st => (with_actions (later 1 s) st, Ok ())
    | Throw e => (later 1 s, Throw e)
    end.
Proof. unfold update_action, now, ask. run_eff. by destruct (update id _ _ _). Qed.

Lemma preserves_update_transfer id :
  preserves keeps (update_transfer id (set_transfer_status TransferComplete)).
Proof.
  intros s. rewrite update_transfer_run.
  destruct (update id _ _ _) as [st|e] eqn:E; cbn [fst]; [|apply (keeps_later 1)].
  etrans; [apply (keeps_later 1)|]. intros [[] Hf]. split_and!; [split; [constructor|]| |done]; try done.
  - cbn. by eapply store_wf_update in E.
  - constructor; [|eauto..]. intros id' t. unfold getTransfer. cbn [with_transfers transferStore later].
    rewrite (store_get_update _ _ _ _ _ id' E). case_decide; [subst|eauto].
    intros Ht. rewrite Ht. cbn. eauto.
Qed.

Lemma preserves_update_intent id f :
  (forall i, intent_core (f i) = intent_core i) -> preserves keeps (update_intent id f).
Proof.
  intros Hc s. rewrite update_intent_run.
  destruct (update id _ _ _) as [st|e] eqn:E; cbn [fst]; [|apply (keeps_later 1)].
  assert (forall i, i_id (f i) = i_id i) as Hid by (intros i; exact (f_equal i_id (Hc i))).
  etrans; [apply (keeps_later 1)|]. intros [[] Hf]. split_and!; [split; [constructor|]| |done]; try done.
  - cbn. by eapply store_wf_update in E.
  - intros k Hk. destruct (Hf k Hk) as [H1 H2]. split; [|done]. revert H1.
    unfold getRebalanceIntent. cbn [with_intents rebalanceIntentStore later].
    rewrite (store_get_update _ _ _ _ _ _ E). case_decide; [subst|done]. by intros ->.
  - constructor; [eauto| |eauto]. intros id' i. unfold getRebalanceIntent.
    cbn [with_intents rebalanceIntentStore later].
    rewrite (store_get_update _ _ _ _ _ id' E). case_decide; [subst|eauto].
    intros Hi. rewrite Hi. cbn [fmap option_fmap option_map compose].
    eexists. split; [done|]. rewrite <- (Hc i). done.
Qed.

Lemma preserves_update_action id f :
  (forall a, action_core (f a) = action_core a) -> preserves keeps (update_action id f).
Proof.
  intros Hc s. rewrite update_action_run.
  destruct (update id _ _ _) as [st|e] eqn:E; cbn [fst]; [|apply (keeps_later 1)].
  assert (forall a, a_id (f a) = a_id a) as Hid by (intros a; exact (f_equal a_id (Hc a))).
  etrans; [apply (keeps_later 1)|]. intros [[] Hf]. split_and!; [split; [constructor|]| |done]; try done.
  - cbn. by eapply store_wf_update in E.
  - intros k Hk. destruct (Hf k Hk) as [H1 H2]. split; [done|]. revert H2.
    unfold getRebalanceAction. cbn [with_actions rebalanceActionStore later].
    rewrite (store_get_update _ _ _ _ _ _ E). case_decide; [subst|done]. by intros ->.
  - constructor; [eauto..|]. intros id' a. unfold getRebalanceAction.
    cbn [with_actions rebalanceActionStore later].
    rewrite (store_get_update _ _ _ _ _ id' E). case_decide; [subst|eauto].
    intros Ha. rewrite Ha. cbn [fmap option_fmap option_map compose].
    eexists. split; [done|]. rewrite <- (Hc a). done.
Qed.

End facts.

(** Walks through a program whose steps are known to keep good states. *)
Ltac keeps_step :=
  first
  [ assumption
  | apply preserves_ret; apply _
  | apply preserves_throw; apply _
  | apply preserves_lift; apply _
  | apply preserves_gets_keeps
  | apply preserves_ask
  | apply preserves_update_transfer
  | apply preserves_update_intent; done
  | apply preserves_update_action; done
  | apply preserves_bind; [apply _| |intros ?]
  | apply preserves_try_catch; [apply _| |intros ?]
  | apply preserves_for_each; [apply _|intros ? ?]
  | case_match ].
Ltac keeps_auto := repeat keeps_step.

(** The equations of running one step. *)
Section run.
Context {S A B : Type}.
Lemma gets_bind (f : S -> A) (k : A -> eff S B) s : (gets f ≫= k) s = k (f s) s.
Proof. done. Qed.
Lemma modify_bind (f : S -> S) (k : unit -> eff S B) s : (modify f ≫= k) s = k () (f s).
Proof. done. Qed.
Lemma ret_bind (a : A) (k : A -> eff S B) s : ((mret a : eff S A) ≫= k) s = k a s.
Proof. done. Qed.
Lemma lift_ok_bind (a : A) (k : A -> eff S B) s : (lift (Ok a) ≫= k) s = k a s.
Proof. done. Qed.
Lemma bind_assoc {C} (m : eff S A) (f : A -> eff S B) (k : B -> eff S C) s :
  ((m ≫= f) ≫= k) s = (m ≫= fun a => f a ≫= k) s.
Proof. rewrite !eff_bind_run. by destruct (m s) as [? [?|?]]. Qed.
End run.

Lemma ask_bind {A B} (f : nat -> A) (k : A -> eff ActionTracker B) s :
  (ask f ≫= k) s = k (f (tick s)) (later 1 s).
Proof. done. Qed.

Section operations.
Context `{World} (config : ActionTrackerConfig).
#[local] Existing Instance keeps_preorder.

(** [uuidv4] never repeats, and no message of the explorer has a uuid for its id. *)
Class FreshIds : Prop := {
  uuid_inj k k' : w_uuid k = w_uuid k' -> k = k';
  uuid_not_msg k ms msg k' :
    w_rebalance_messages k = Ok ms -> msg ∈ ms -> w_uuid k' <> msg_id msg
}.

Context `{!FreshIds}.

Lemma preserves_createRebalanceIntent p : preserves keeps (createRebalanceIntent p).
Proof.
  intros s. unfold createRebalanceIntent, uuidv4, now, save_intent. rewrite !ask_bind, modify_bind.
  apply (keeps_using 3). intros [_ Hf]. apply (keeps_save_intent (later 3 s)).
  - apply (Hf (tick s)). done.
  - intros k Hk Heq%uuid_inj. cbn in Hk. lia.
Qed.

Lemma preserves_createRebalanceAction p : preserves keeps (createRebalanceAction p).
Proof.
  intros s. unfold createRebalanceAction, uuidv4, now, save_action.
  rewrite !ask_bind, modify_bind. etrans; cycle 1.
  { match goal with |- keeps _ (fst (?m _)) =>
      assert (preserves keeps m) as Hm by keeps_auto; apply Hm end. }
  apply (keeps_using 3). intros [_ Hf]. apply (keeps_save_action (later 3 s)).
  - apply (Hf (tick s)). done.
  - intros k Hk Heq%uuid_inj. cbn in Hk. lia.
Qed.

Lemma preserves_completeRebalanceAction id : preserves keeps (completeRebalanceAction id).
Proof. unfold completeRebalanceAction, checkAndCompleteIntent. keeps_auto. Qed.

Lemma preserves_isMessageDelivered m d t : preserves keeps (isMessageDelivered m d t).
Proof. unfold isMessageDelivered. keeps_auto. Qed.

Lemma preserves_confirmed_tag d t : preserves keeps (confirmed_tag d t).
Proof. unfold confirmed_tag. keeps_auto. Qed.

(** The handler of [recoverAction] and [sync_new_transfer] only swallows the error. *)
Lemma preserves_recoverAction msg :
  (forall k, w_uuid k <> msg_id msg) -> preserves keeps (recoverAction msg).
Proof.
  intros Hu s. unfold recoverAction. rewrite gets_bind.
  destruct (getRebalanceAction (msg_id msg) s) as [a|] eqn:Hnone; [apply preserves_ret; apply _|].
  unfold try_catch. destruct (parseWarpRouteMessage (message_body msg)) as [parsed|e];
    [|run_eff; reflexivity].
  rewrite lift_ok_bind.
  set (rest := fun createdAt : option Z => _).
  assert (forall s' t, keeps s s' -> getRebalanceAction (msg_id msg) s' = None ->
    keeps s (match rest t s' with
    | (s'', Ok a) => (s'', Ok a) | (s'', Throw _) => (mret () : tracker unit) s'' end).1)
    as Hrest.
  { clear Hnone. intros s' t Hs' Hnone. etrans; [exact Hs'|].
    subst rest. cbn beta. destruct t as [t|]; [|run_eff; reflexivity].
    rewrite ret_bind. unfold uuidv4, now, save_intent, save_action.
    rewrite !ask_bind, modify_bind, ask_bind. run_eff. cbn [fst].
    apply (keeps_using 2). intros [_ Hf]. etrans; cycle 1.
    { apply keeps_save_action; [exact Hnone|]. intros k _. apply Hu. }
    etrans; [|apply (keeps_later 1)]. apply keeps_save_intent.
    - apply (Hf (tick s')). done.
    - intros k Hk Heq%uuid_inj. cbn in Hk, Heq. lia. }
  destruct (send_occurred_at msg) as [[|c at_]|].
  - unfold now. rewrite bind_assoc, ask_bind, ret_bind. apply Hrest; [apply (keeps_later 1)|done].
  - rewrite ret_bind. apply Hrest; [reflexivity|done].
  - unfold now. rewrite bind_assoc, ask_bind, ret_bind. apply Hrest; [apply (keeps_later 1)|done].
Qed.

Lemma preserves_sync_new_transfer msg : preserves keeps (sync_new_transfer msg).
Proof.
  intros s. unfold sync_new_transfer. rewrite gets_bind.
  destruct (getTransfer (msg_id msg) s) as [t|] eqn:Hnone; [apply preserves_ret; apply _|].
  unfold try_catch. destruct (parseWarpRouteMessage (message_body msg)) as [parsed|e];
    [|run_eff; reflexivity].
  rewrite lift_ok_bind. unfold now, save_transfer. rewrite !ask_bind. run_eff. cbn [fst].
  apply (keeps_using 2). intros _. by apply (keeps_save_transfer (later 2 s)).
Qed.

#[local] Hint Resolve preserves_createRebalanceIntent preserves_createRebalanceAction
  preserves_completeRebalanceAction preserves_isMessageDelivered preserves_confirmed_tag
  preserves_sync_new_transfer : keeps.

Lemma preserves_syncTransfers tags : preserves keeps (syncTransfers tags).
Proof.
  unfold syncTransfers, sync_delivered_transfer.
  repeat (solve [eauto with keeps] || keeps_step).
Qed.

Lemma preserves_syncRebalanceIntents : preserves keeps (syncRebalanceIntents config).
Proof. unfold syncRebalanceIntents, sync_intent, now. keeps_auto. Qed.

(** Both places that recover actions do so for messages the explorer returned. *)
Lemma preserves_recover_all {B} (f : ExplorerMessage -> tracker unit)
    (k : list ExplorerMessage -> tracker B) :
  (forall msg, (forall i, w_uuid i <> msg_id msg) -> preserves keeps (f msg)) ->
  (forall ms, preserves keeps (k ms)) ->
  preserves keeps (messages ← ask w_rebalance_messages; messages ← lift messages;
    _ ← for_each f messages; k messages).
Proof.
  intros Hf Hk s. rewrite ask_bind. etrans; [apply (keeps_later 1)|].
  destruct (w_rebalance_messages (tick s)) as [ms|e] eqn:E; [|run_eff; reflexivity].
  rewrite lift_ok_bind. apply preserves_bind; [apply _| |intros []; apply Hk].
  apply preserves_for_each; [apply _|]. intros msg Hin. apply Hf. intros i.
  by eapply uuid_not_msg.
Qed.

Lemma preserves_syncRebalanceActions tags : preserves keeps (syncRebalanceActions tags).
Proof.
  intros s. unfold syncRebalanceActions. rewrite ask_bind. etrans; [apply (keeps_later 1)|].
  destruct (w_rebalance_messages (tick s)) as [ms|e] eqn:E; [|run_eff; reflexivity].
  rewrite lift_ok_bind, gets_bind. apply preserves_bind; [apply _| |intros []].
  - apply preserves_for_each; [apply _|]. intros msg Hin. unfold sync_discovered.
    case_match; [apply preserves_ret; apply _|]. apply preserves_recoverAction. intros i.
    by eapply uuid_not_msg.
  - unfold sync_delivered_action. repeat (solve [eauto with keeps] || keeps_step).
Qed.

Lemma preserves_initialize : preserves keeps (initialize config).
Proof.
  apply (preserves_recover_all recoverAction (fun _ => _ ← syncTransfers None;
    _ ← syncRebalanceIntents config; syncRebalanceActions None)).
  - apply preserves_recoverAction.
  - intros _. apply preserves_bind; [apply _|apply preserves_syncTransfers|intros []].
    apply preserves_bind; [apply _|apply preserves_syncRebalanceIntents|intros []].
    apply preserves_syncRebalanceActions.
Qed.

Lemma preserves_collect {A} (f : RebalanceIntent -> tracker (list A)) intents :
  (forall i, preserves keeps (f i)) -> preserves keeps (collect f intents).
Proof.
  intros Hf. induction intents as [|i intents IH]; cbn [collect]; [apply preserves_ret; apply _|].
  apply preserves_bind; [apply _|apply Hf|intros found].
  apply preserves_bind; [apply _|exact IH|intros more]. apply preserves_ret; apply _.
Qed.

Lemma preserves_getPartiallyFulfilledInventoryIntents :
  preserves keeps getPartiallyFulfilledInventoryIntents.
Proof.
  unfold getPartiallyFulfilledInventoryIntents.
  do 2 (apply preserves_bind; [apply _|apply preserves_gets_keeps|intros ?]).
  apply preserves_collect. intros i. unfold partial_intent, failRebalanceAction, now. keeps_auto.
Qed.

Lemma preserves_syncInventoryMovementActions registry :
  preserves keeps (syncInventoryMovementActions registry).
Proof.
  unfold syncInventoryMovementActions, sync_movement, failRebalanceAction, now.
  repeat (solve [eauto with keeps] || keeps_step).
Qed.

(** *** Runs of the tracker *)

(** The public operations that change state. *)
Inductive Operation : Type :=
| OpInitialize
| OpSyncTransfers (tags : option (string -> option BlockTag))
| OpSyncRebalanceIntents
| OpSyncRebalanceActions (tags : option (string -> option BlockTag))
| OpSyncInventoryMovements (registry : list ExternalBridgeType)
| OpGetPartial
| OpCreateIntent (p : CreateRebalanceIntentParams)
| OpCompleteIntent (id : string)
| OpCancelIntent (id : string)
| OpFailIntent (id : string)
| OpCreateAction (p : CreateRebalanceActionParams)
| OpCompleteAction (id : string)
| OpFailAction (id : string).

(** The state an operation leaves, whether it returns or throws. *)
Definition run_op (o : Operation) (s : ActionTracker) : ActionTracker :=
  match o with
  | OpInitialize => fst (initialize config s)
  | OpSyncTransfers tags => fst (syncTransfers tags s)
  | OpSyncRebalanceIntents => fst (syncRebalanceIntents config s)
  | OpSyncRebalanceActions tags => fst (syncRebalanceActions tags s)
  | OpSyncInventoryMovements registry => fst (syncInventoryMovementActions registry s)
  | OpGetPartial => fst (getPartiallyFulfilledInventoryIntents s)
  | OpCreateIntent p => fst (createRebalanceIntent p s)
  | OpCompleteIntent id => fst (completeRebalanceIntent id s)
  | OpCancelIntent id => fst (cancelRebalanceIntent id s)
  | OpFailIntent id => fst (failRebalanceIntent id s)
  | OpCreateAction p => fst (createRebalanceAction p s)
  | OpCompleteAction id => fst (completeRebalanceAction id s)
  | OpFailAction id => fst (failRebalanceAction id s)
  end.

Inductive step : ActionTracker -> ActionTracker -> Prop :=
| do_op o s : step s (run_op o s).

Lemma step_keeps s s' : step s s' -> keeps s s'.
Proof.
  intros [o s0]. destruct o; cbn [run_op].
  - apply preserves_initialize.
  - apply preserves_syncTransfers.
  - apply preserves_syncRebalanceIntents.
  - apply preserves_syncRebalanceActions.
  - apply preserves_syncInventoryMovementActions.
  - apply preserves_getPartiallyFulfilledInventoryIntents.
  - apply preserves_createRebalanceIntent.
  - by apply preserves_update_intent.
  - by apply preserves_update_intent.
  - by apply preserves_update_intent.
  - apply preserves_createRebalanceAction.
  - apply preserves_completeRebalanceAction.
  - by apply preserves_update_action.
Qed.

Lemma run_keeps s s' : rtc step s s' -> keeps s s'.
Proof.
  induction 1 as [s|s1 s2 s3 H12 _ IH]; [reflexivity|].
  etrans; [by apply step_keeps|exact IH].
Qed.

Lemma Inv_empty : Inv empty_tracker.
Proof. split; [constructor; apply store_wf_nil|]. intros k _. done. Qed.

End operations.

(** C11: Over any run of the tracker's operations from the empty tracker, in any order and with
    any answers from outside, whether calls return or throw: entities stay stored once and
    under their own id, none is ever lost, the amount, endpoints, type, parent and creation
    time of each never change, and a delivered transfer stays delivered. *)
Theorem tracker_runs_evolve `{World} config `{!FreshIds} s s' :
  rtc (step config) empty_tracker s -> rtc (step config) s s' ->
  stores_wf s' /\ evolves s s'.
Proof.
  intros H1 H2. destruct (run_keeps config _ _ H1 Inv_empty) as (Hs & _ & _).
  destruct (run_keeps config _ _ H2 Hs) as ([Hwf _] & He & _). done.
Qed.

(** The sample outside draws distinct uuids, none of them a message id. *)
#[export] Instance sample_fresh : FreshIds.
Proof.
  split.
  - cbn. intros k k' H. apply (inj (String.append "uuid-")) in H. apply (inj pretty) in H. lia.
  - cbn. intros k ms msg k' [= <-] ->%list_elem_of_singleton. done.
Qed.

Definition after (ops : list Operation) : ActionTracker :=
  foldl (fun s o => run_op sample_tracker_config o s) empty_tracker ops.

(** Recovering the message the explorer knows, then two full synchronizations. *)
Definition first_ops : list Operation := [OpInitialize].
Definition second_ops : list Operation :=
  [OpSyncRebalanceActions None; OpSyncRebalanceIntents; OpSyncTransfers None].

Lemma tracker_runs_evolve_witness :
  stores_wf (after (first_ops ++ second_ops)) /\
  evolves (after first_ops) (after (first_ops ++ second_ops)).
Proof.
  apply (tracker_runs_evolve sample_tracker_config).
  - apply rtc_once. apply (do_op _ OpInitialize).
  - eapply rtc_l; [apply (do_op _ (OpSyncRebalanceActions None))|].
    eapply rtc_l; [apply (do_op _ OpSyncRebalanceIntents)|].
    apply rtc_once. apply (do_op _ (OpSyncTransfers None)).
Defined.
