(* ===== verification/SyncFacts.v ===== *)
(** What the synchronization of rebalance intents and the completion of actions do to the
    statuses, exactly. *)
From stdpp Require Import base tactics list gmap strings.
From Stdlib Require Import ZArith Lia.
From S2P Require Import Prelude JsMap Route Config Bytes Messages BlockTag Store.
From S2P Require Import BaseStrategy ActionTracker TrackerSamples TrackerFacts.

#[local] Open Scope Z_scope.

(** ** Sums over related stores *)

(** The completed amount of an intent only looks at completed actions. *)
Lemma completed_amount_rel id s s' :
  store_rel (fun a a' => action_core a' = action_core a /\
    (a_status a' = ActionComplete <-> a_status a = ActionComplete))
    (rebalanceActionStore s) (rebalanceActionStore s') ->
  getCompletedAmountForIntent id s' = getCompletedAmountForIntent id s.
Proof.
  intros H%store_rel_values. unfold getCompletedAmountForIntent, getActionsForIntent.
  induction H as [|a a' l l' [Hc Hst] _ IH]; [done|].
  assert (a_intentId a' = a_intentId a) as Hi by exact (f_equal a_intentId Hc).
  assert (a_type a' = a_type a) as Ht by exact (f_equal a_type Hc).
  assert (a_amount a' = a_amount a) as Ha by exact (f_equal a_amount Hc).
  rewrite !(filter_cons _ a), !(filter_cons _ a'), Hi. case_decide; [|done].
  rewrite !(filter_cons _ a), !(filter_cons _ a'). unfold counts in *. rewrite Ht.
  destruct (decide (a_status a = ActionComplete /\ (a_type a = inventory_deposit \/
    a_type a = rebalance_message))) as [D|D].
  - rewrite decide_True by naive_solver. rewrite !sum_by_cons, Ha, IH. done.
  - rewrite decide_False by naive_solver. exact IH.
Qed.

Section sync.
Context `{World} (config : ActionTrackerConfig).

(** ** The inner loop: failing the actions of one intent *)

(** An action of [targets] under this intent has the id of [a]. *)
Definition targeted (intentId : string) (targets : list RebalanceAction) (a : RebalanceAction)
    : Prop := exists t, t ∈ targets /\ a_id t = a_id a /\ a_intentId t = intentId.

Definition failing (intentId : string) (targets : list RebalanceAction) (a a' : RebalanceAction)
    : Prop :=
  action_core a' = action_core a /\
  (targeted intentId targets a -> a_status a' = ActionFailed) /\
  (~ targeted intentId targets a -> a' = a).

Lemma action_core_id a a' : action_core a' = action_core a -> a_id a' = a_id a.
Proof. intros Hc. exact (f_equal a_id Hc). Qed.

Lemma intent_core_id i i' : intent_core i' = intent_core i -> i_id i' = i_id i.
Proof. intros Hc. exact (f_equal i_id Hc). Qed.

(** Presence carries over related stores. *)
Lemma store_rel_some {T Status} `{!Tracked T Status} R (st st' : Store T) id e :
  store_rel R st st' -> store_get id st = Some e ->
  exists e', store_get id st' = Some e' /\ R e e'.
Proof.
  intros Hr He. pose proof (store_rel_get R st st' id Hr) as Hg. rewrite He in Hg.
  inversion Hg; subst; eauto.
Qed.

Lemma fail_actions_run intentId targets s :
  store_wf (rebalanceActionStore s) ->
  (forall t, t ∈ targets -> exists a, getRebalanceAction (a_id t) s = Some a) ->
  exists s', for_each (fun action =>
      if bool_decide (a_intentId action = intentId)
      then update_action (a_id action) (set_action_status ActionFailed)
      else mret ()) targets s = (s', Ok ()) /\
    transferStore s' = transferStore s /\
    rebalanceIntentStore s' = rebalanceIntentStore s /\ (tick s <= tick s')%nat /\
    store_rel (failing intentId targets) (rebalanceActionStore s) (rebalanceActionStore s').
Proof.
  intros Hwf Hin.
  apply (for_each_ok_ind (fun before s' => transferStore s' = transferStore s /\
    rebalanceIntentStore s' = rebalanceIntentStore s /\ (tick s <= tick s')%nat /\
    store_rel (failing intentId before) (rebalanceActionStore s) (rebalanceActionStore s'))).
  - split_and!; [done..|]. apply (store_rel_refl (failing intentId [])). intros a _.
    split_and!; [done| |done]. intros (t & Ht & _). by apply elem_of_nil in Ht.
  - intros before t rest s1 -> (Ht & Hi & Hk & Hr).
    case_bool_decide as Hid.
    + destruct (Hin t ltac:(set_solver)) as [a Ha].
      destruct (store_rel_some _ _ _ _ _ Hr Ha) as (a1 & Ha1 & _).
      rewrite update_action_run.
      destruct (update_total (a_id t) (set_action_status ActionFailed) (w_now (tick s1))
        _ _ Ha1) as [st Hst]. rewrite Hst.
      eexists. split; [done|]. cbn. split_and!; [done|done|lia|].
      assert (store_wf (rebalanceActionStore s1)) as Hwf1.
      { eapply store_rel_wf; [|exact Hr|done]. intros e e' [Hc _]. by apply action_core_id. }
      eapply store_rel_compose; [|exact Hr|exact (store_rel_update _ _ _ _ _ Hwf1 Hst)].
      intros e1 e2 e3 _ (Hc & H1 & H2) ->.
      case_decide as Hd; cbn in *; rewrite (action_core_id _ _ Hc) in Hd.
      * split; [exact Hc|]. split; [done|]. intros Hn. exfalso. apply Hn.
        exists t. set_solver.
      * split; [done|]. split.
        -- intros (t' & Ht' & He & Hi'). apply H1. exists t'. set_solver.
        -- intros Hn. apply H2. intros (t' & Ht' & He & Hi'). apply Hn. exists t'. set_solver.
    + exists s1. split; [done|]. split_and!; [done..|].
      eapply store_rel_mono; [|exact Hr]. intros e e' _ (Hc & H1 & H2). split; [done|]. split.
      * intros (t' & [Ht'|Ht'%list_elem_of_singleton]%elem_of_app & He & Hi'); [|by subst].
        apply H1. by exists t'.
      * intros Hn. apply H2. intros (t' & Ht' & He & Hi'). apply Hn. exists t'. set_solver.
Qed.

(** What becomes of an in-progress intent. *)
Definition verdict (s : ActionTracker) (i : RebalanceIntent) : RebalanceIntentStatus :=
  if i_amount i <=? getCompletedAmountForIntent (i_id i) s then IntentComplete
  else if intentTTL config <? w_now (tick s) - i_createdAt i then IntentFailed
  else IntentInProgress.

Definition next_status (s : ActionTracker) (i : RebalanceIntent) : RebalanceIntentStatus :=
  if decide (i_status i = IntentInProgress) then verdict s i else i_status i.

(** The parent of an action is in progress and expires in this synchronization. *)
Definition parent_expires (s : ActionTracker) (a : RebalanceAction) : Prop :=
  exists i, getRebalanceIntent (a_intentId a) s = Some i /\ i_status i = IntentInProgress /\
    verdict s i = IntentFailed.

(** The invariant of the loop over the intents. *)
Record synced (s0 : ActionTracker) (before : list RebalanceIntent) (s : ActionTracker) : Prop := {
  sy_transfers : transferStore s = transferStore s0;
  sy_intents : store_rel (fun i i' => intent_core i' = intent_core i /\
      i_status i' = if decide (i_id i ∈ i_id <$> before) then verdict s0 i else i_status i)
    (rebalanceIntentStore s0) (rebalanceIntentStore s);
  sy_actions : store_rel (fun a a' => action_core a' = action_core a /\
      ((a_status a = ActionInProgress /\
          exists i, i ∈ before /\ i_id i = a_intentId a /\ verdict s0 i = IntentFailed) ->
         a_status a' = ActionFailed) /\
      (~ (a_status a = ActionInProgress /\
          exists i, i ∈ before /\ i_id i = a_intentId a /\ verdict s0 i = IntentFailed) ->
         a_status a' = a_status a))
    (rebalanceActionStore s0) (rebalanceActionStore s)
}.

Lemma synced_completed s0 before s id :
  synced s0 before s -> getCompletedAmountForIntent id s = getCompletedAmountForIntent id s0.
Proof.
  intros [_ _ Ha]. apply completed_amount_rel. eapply store_rel_mono; [|exact Ha].
  intros a a' _ (Hc & H1 & H2). split; [done|].
  destruct (decide (a_status a = ActionComplete)) as [D|D].
  - rewrite H2; [done|]. rewrite D. naive_solver.
  - split; [|done]. intros D'. exfalso. apply D. rewrite <- D'. symmetry. apply H2.
    intros Hf. rewrite (H1 Hf) in D'. done.
Qed.

Lemma synced_actions_present s0 before s a :
  stores_wf s0 -> synced s0 before s -> a ∈ getInProgressActions s0 ->
  exists a', getRebalanceAction (a_id a) s = Some a'.
Proof.
  intros Hwf [_ _ Ha] [_ Hin]%(elem_of_getByStatus _ _ _ (wf_actions _ Hwf)).
  destruct (store_rel_some _ _ _ _ _ Ha Hin) as (a' & ? & _). eauto.
Qed.

(** The state after the update of one intent's status. *)
Lemma synced_intent_update s0 before s x st t :
  stores_wf s0 -> x ∈ getActiveRebalanceIntents s0 -> synced s0 before s ->
  verdict s0 x = st ->
  exists sti, update (i_id x) (set_intent_status st) t (rebalanceIntentStore s) = Ok sti /\
    store_rel (fun i i' => intent_core i' = intent_core i /\
      i_status i' = if decide (i_id i ∈ i_id <$> (before ++ [x])) then verdict s0 i else i_status i)
    (rebalanceIntentStore s0) sti.
Proof.
  intros Hwf Hx Hs Hv. destruct Hs as [_ Hi _].
  apply (elem_of_getByStatus _ _ _ (wf_intents _ Hwf)) in Hx as [_ Hx].
  destruct (store_rel_some _ _ _ _ _ Hi Hx) as (x1 & Hx1 & _).
  destruct (update_total (i_id x) (set_intent_status st) t _ _ Hx1) as [sti Hsti].
  exists sti. split; [done|].
  assert (store_wf (rebalanceIntentStore s)) as Hwf1.
  { eapply store_rel_wf; [|exact Hi|apply (wf_intents _ Hwf)].
    intros e e' [Hc _]. by apply intent_core_id. }
  eapply store_rel_compose; [|exact Hi|exact (store_rel_update _ _ _ _ _ Hwf1 Hsti)].
  intros e1 e2 e3 Hin (Hc & H1) ->.
  rewrite fmap_app. destruct (decide (tr_id e2 = i_id x)) as [Hd|Hd]; cbn in *;
    rewrite (intent_core_id _ _ Hc) in Hd.
  - assert (e1 = x) as ->.
    { apply elem_of_getAll in Hin; [|apply (wf_intents _ Hwf)]. cbn in Hin.
      rewrite Hd in Hin. cbn in Hx. congruence. }
    rewrite decide_True by set_solver. done.
  - split; [done|]. rewrite H1. destruct (decide (i_id e1 ∈ i_id <$> before)).
    + by rewrite decide_True by set_solver.
    + rewrite decide_False; [done|]. set_solver.
Qed.

(** One turn of the loop. *)
Lemma sync_intent_run s0 before x rest s :
  stores_wf s0 -> getActiveRebalanceIntents s0 = before ++ x :: rest ->
  synced s0 before s ->
  exists s', sync_intent config (getInProgressActions s0) (w_now (tick s0)) x s = (s', Ok ()) /\
    synced s0 (before ++ [x]) s'.
Proof.
  intros Hwf Hlist Hs.
  assert (x ∈ getActiveRebalanceIntents s0) as Hx by (rewrite Hlist; set_solver).
  unfold sync_intent. rewrite gets_bind, (synced_completed _ _ _ _ Hs).
  pose proof (synced_intent_update s0 before s x (verdict s0 x) (w_now (tick s)) Hwf Hx Hs eq_refl)
    as (sti & Hsti & Hri). unfold verdict in Hsti.
  destruct (Z.leb_spec (i_amount x) (getCompletedAmountForIntent (i_id x) s0)) as [Hle|Hgt];
    [|destruct (Z.ltb_spec (intentTTL config) (w_now (tick s0) - i_createdAt x)) as [Hold|Hyoung]].
  - rewrite update_intent_run, Hsti. eexists. split; [done|]. destruct Hs as [Ht Hi Ha].
    constructor; [exact Ht|exact Hri|]. cbn. eapply store_rel_mono; [|exact Ha].
    intros a a' _ (Hc & H1 & H2). split; [done|].
    assert (verdict s0 x = IntentComplete) as Hvx
      by (unfold verdict; by rewrite (proj2 (Z.leb_le _ _) Hle)).
    split.
    + intros (? & i & [Hin|Hin%list_elem_of_singleton]%elem_of_app & ?); [|subst; naive_solver congruence].
      apply H1. eauto 6.
    + intros Hn. apply H2. intros (? & i & ? & ?). apply Hn. split; [done|]. exists i. set_solver.
  - rewrite eff_bind_run, update_intent_run, Hsti.
    set (s1 := with_intents (later 1 s) sti).
    assert (synced s0 before s) as [Ht Hi Ha] by exact Hs.
    destruct (fail_actions_run (i_id x) (getInProgressActions s0) s1) as (s2 & Hrun & Ht2 & Hi2 & _ & Ha2).
    { cbn. eapply store_rel_wf; [|exact Ha|apply (wf_actions _ Hwf)].
      intros e e' [Hc _]. by apply action_core_id. }
    { intros t Hin. by apply (synced_actions_present s0 before s). }
    exists s2. split; [exact Hrun|]. constructor; [by rewrite Ht2|by rewrite Hi2|].
    assert (verdict s0 x = IntentFailed) as Hvx.
    { unfold verdict. by rewrite (proj2 (Z.leb_gt _ _) Hgt), (proj2 (Z.ltb_lt _ _) Hold). }
    eapply store_rel_compose; [|exact Ha|exact Ha2].
    intros a1 a2 a3 Hin (Hc & H1 & H2) (Hc' & H1' & H2'). split; [congruence|].
    apply elem_of_getAll in Hin; [|apply (wf_actions _ Hwf)].
    assert (targeted (i_id x) (getInProgressActions s0) a2 <->
      a_status a1 = ActionInProgress /\ a_intentId a1 = i_id x) as Htg.
    { unfold targeted. rewrite (action_core_id _ _ Hc). split.
      - intros (t & [Hst Hget]%(elem_of_getByStatus _ _ _ (wf_actions _ Hwf)) & Hid & Hint).
        cbn in Hst, Hget, Hin. rewrite Hid in Hget. assert (t = a1) as -> by congruence. done.
      - intros [Hst Hint]. exists a1. split; [|done].
        by apply (elem_of_getByStatus _ _ _ (wf_actions _ Hwf)). }
    destruct (decide (a_status a1 = ActionInProgress /\ a_intentId a1 = i_id x)) as [D|D].
    + split; [intros _; by apply H1', Htg|]. intros Hn. exfalso. apply Hn. split; [tauto|].
      exists x. split; [set_solver|]. by destruct D.
    + rewrite (H2' ltac:(tauto)). split.
      * intros (Hst & i & [Hib|Hib%list_elem_of_singleton]%elem_of_app & Hii & Hv); [|subst; naive_solver].
        apply H1. eauto 6.
      * intros Hn. apply H2. intros (Hst & i & Hib & Hii & Hv). apply Hn. split; [done|].
        exists i. set_solver.
  - exists s. split; [done|]. destruct Hs as [Ht Hi Ha].
    assert (verdict s0 x = IntentInProgress) as Hvx.
    { unfold verdict. by rewrite (proj2 (Z.leb_gt _ _) Hgt), (proj2 (Z.ltb_ge _ _) Hyoung). }
    constructor; [done| |].
    + eapply store_rel_mono; [|exact Hi]. intros e e' Hin [Hc Hst]. split; [done|].
      rewrite Hst, fmap_app. cbn. destruct (decide (i_id e ∈ i_id <$> before)).
      * by rewrite decide_True by set_solver.
      * case_decide as Hd; [|done].
        assert (i_id e = i_id x) as Hid by set_solver.
        apply elem_of_getAll in Hin; [|apply (wf_intents _ Hwf)].
        apply (elem_of_getByStatus _ _ _ (wf_intents _ Hwf)) in Hx as [Hxs Hx].
        cbn in Hin, Hx, Hxs. rewrite Hid in Hin. assert (e = x) as -> by congruence.
        by rewrite Hxs, Hvx.
    + eapply store_rel_mono; [|exact Ha]. intros a a' _ (Hc & H1 & H2). split; [done|]. split.
      * intros (? & i & [Hin|Hin%list_elem_of_singleton]%elem_of_app & ?); [|subst; naive_solver congruence].
        apply H1. eauto 6.
      * intros Hn. apply H2. intros (? & i & ? & ?). apply Hn. split; [done|]. exists i. set_solver.
Qed.

Lemma syncRebalanceIntents_run s0 :
  stores_wf s0 -> exists s', syncRebalanceIntents config s0 = (s', Ok ()) /\
    synced s0 (getActiveRebalanceIntents s0) s'.
Proof.
  intros Hwf. unfold syncRebalanceIntents. rewrite !gets_bind. unfold now. rewrite ask_bind.
  apply (for_each_ok_ind (synced s0)).
  - constructor; [done| |].
    + apply (store_rel_refl (fun i i' => intent_core i' = intent_core i /\
        i_status i' = if decide (i_id i ∈ i_id <$> []) then verdict s0 i else i_status i)).
      intros i _. split; [done|]. rewrite decide_False; [done|]. apply not_elem_of_nil.
    + cbn. eapply store_rel_mono; [|apply (store_rel_refl eq); done].
      intros a a' _ <-. split; [done|]. split; [|done].
      intros (_ & i & Hi & _). by apply elem_of_nil in Hi.
  - intros before x rest s Hl Hs. by eapply sync_intent_run.
Qed.

End sync.

(** C9: [syncRebalanceIntents] always returns. Every intent in progress becomes complete when
    the completed deposits and rebalance messages reach its amount, else failed when it is
    older than the TTL, else stays; every other intent keeps its status. Exactly the
    in-progress actions of intents that expire fail. Nothing else changes, transfers least. *)
Theorem syncRebalanceIntents_spec `{World} config s :
  stores_wf s ->
  exists s', syncRebalanceIntents config s = (s', Ok ()) /\
    transferStore s' = transferStore s /\
    (forall id, option_Forall2
      (fun i i' => intent_core i' = intent_core i /\ i_status i' = next_status config s i)
      (getRebalanceIntent id s) (getRebalanceIntent id s')) /\
    (forall id, option_Forall2
      (fun a a' => action_core a' = action_core a /\
        (a_status a = ActionInProgress /\ parent_expires config s a -> a_status a' = ActionFailed) /\
        (~ (a_status a = ActionInProgress /\ parent_expires config s a) ->
           a_status a' = a_status a))
      (getRebalanceAction id s) (getRebalanceAction id s')).
Proof.
  intros Hwf. destruct (syncRebalanceIntents_run config s Hwf) as (s' & Hrun & [Ht Hi Ha]).
  exists s'. split_and!; [done|done|intros id|intros id].
  - apply store_rel_get. eapply store_rel_mono; [|exact Hi]. intros i i' Hin [Hc Hst].
    split; [done|]. rewrite Hst. unfold next_status.
    apply elem_of_getAll in Hin; [|apply (wf_intents _ Hwf)]. cbn in Hin.
    destruct (decide (i_status i = IntentInProgress)) as [D|D].
    + rewrite decide_True; [done|]. apply list_elem_of_fmap. exists i. split; [done|].
      by apply (elem_of_getByStatus _ _ _ (wf_intents _ Hwf)).
    + rewrite decide_False; [done|]. intros (j & Hj & Hjin)%list_elem_of_fmap.
      apply (elem_of_getByStatus _ _ _ (wf_intents _ Hwf)) in Hjin as [Hjs Hjg]. cbn in Hjs, Hjg.
      apply D. rewrite Hj in Hin. congruence.
  - apply store_rel_get. eapply store_rel_mono; [|exact Ha]. intros a a' _ (Hc & H1 & H2).
    assert ((exists i, i ∈ getActiveRebalanceIntents s /\ i_id i = a_intentId a /\
        verdict config s i = IntentFailed) <-> parent_expires config s a) as Heq.
    { unfold parent_expires. split.
      - intros (i & [Hs Hg]%(elem_of_getByStatus _ _ _ (wf_intents _ Hwf)) & <- & Hv). eauto.
      - intros (i & Hg & Hs & Hv). assert (i_id i = a_intentId a) as Hid.
        { destruct (wf_intents _ Hwf) as [_ Hids]. exact (Hids _ _ Hg). }
        exists i. split_and!; [|done|done].
        apply (elem_of_getByStatus _ _ _ (wf_intents _ Hwf)). cbn. by rewrite Hid. }
    rewrite Heq in H1, H2. done.
Qed.

(** ** Completing an action *)

Lemma sum_by_filter {A} (P : A -> Prop) `{forall x, Decision (P x)} (f : A -> Z) l :
  sum_by f (filter P l) = sum_by (fun x => if decide (P x) then f x else 0) l.
Proof.
  induction l as [|x l IH]; [done|]. rewrite filter_cons, sum_by_cons.
  case_decide; [rewrite sum_by_cons|]; rewrite IH; lia.
Qed.

Lemma sum_by_one {A} (key : A -> string) (h : A -> Z) l x :
  NoDup (key <$> l) -> x ∈ l ->
  sum_by (fun y => if decide (key y = key x) then h y else 0) l = h x.
Proof.
  intros Hnd Hx. induction l as [|y l IH]; [by apply elem_of_nil in Hx|].
  apply NoDup_cons in Hnd as [Hy Hnd]. rewrite sum_by_cons.
  apply elem_of_cons in Hx as [->|Hx].
  - rewrite decide_True by done. rewrite (sum_by_ext _ (fun _ => 0 * 0)); [rewrite sum_by_mul; lia|].
    intros z Hz. rewrite decide_False; [done|]. intros Hk. apply Hy. rewrite <- Hk.
    apply list_elem_of_fmap. eauto.
  - rewrite decide_False; [rewrite IH by done; lia|]. intros Hk. apply Hy. rewrite Hk.
    apply list_elem_of_fmap. eauto.
Qed.

Lemma getAll_NoDup {T Status} `{!Tracked T Status} (st : Store T) :
  store_wf st -> NoDup (tr_id <$> getAll st).
Proof.
  intros [Hwf Hid]. unfold map_wf, map_keys in Hwf.
  replace (tr_id <$> getAll st) with st.*1; [done|]. unfold getAll, map_values.
  rewrite <- list_fmap_compose. apply list_fmap_ext. intros i [k e] Hin. cbn.
  symmetry. apply Hid. apply map_elem_get; [done|]. by eapply list_elem_of_lookup_2.
Qed.

(** What one action adds to the completed amount of an intent. *)
Definition contribution (intentId : string) (a : RebalanceAction) : Z :=
  if decide (a_intentId a = intentId) then
    if decide (a_status a = ActionComplete /\ counts a) then a_amount a else 0
  else 0.

Lemma completed_amount_eq intentId s :
  getCompletedAmountForIntent intentId s =
    sum_by (contribution intentId) (getAll (rebalanceActionStore s)).
Proof.
  unfold getCompletedAmountForIntent, getActionsForIntent. rewrite !sum_by_filter.
  apply sum_by_ext. intros a _. unfold contribution. done.
Qed.

(** Completing an action adds its amount once, if it counts. *)
Lemma completed_amount_update id a now s s' :
  store_wf (rebalanceActionStore s) -> getRebalanceAction id s = Some a ->
  update id (set_action_status ActionComplete) now (rebalanceActionStore s) =
    Ok (rebalanceActionStore s') ->
  getCompletedAmountForIntent (a_intentId a) s' = getCompletedAmountForIntent (a_intentId a) s +
    (if decide (counts a /\ a_status a <> ActionComplete) then a_amount a else 0).
Proof.
  intros Hwf Ha Hu.
  assert (a_id a = id) as Hid by (destruct Hwf as [_ Hids]; exact (Hids _ _ Ha)).
  pose proof (store_rel_values _ _ _ (store_rel_update _ _ _ _ _ Hwf Hu)) as Hv.
  rewrite !completed_amount_eq. set (P := a_intentId a) in *.
  assert (sum_by (contribution P) (getAll (rebalanceActionStore s')) =
    sum_by (fun e => contribution P e + (if decide (tr_id e = tr_id a)
      then (if decide (counts a /\ a_status a <> ActionComplete) then a_amount a else 0) else 0))
      (getAll (rebalanceActionStore s))) as ->.
  { assert (forall e, e ∈ getAll (rebalanceActionStore s) -> tr_id e = id -> e = a) as Huniq.
    { intros e He He'. apply (elem_of_getAll _ _ Hwf) in He. rewrite He' in He.
      unfold getRebalanceAction in Ha. congruence. }
    clear -Hv Hid Huniq. induction Hv as [|e e' l l' He _ IH]; [done|].
    rewrite !sum_by_cons, IH by (intros; apply Huniq; [set_solver|done]).
    enough (contribution P e' = contribution P e + (if decide (tr_id e = tr_id a)
      then (if decide (counts a /\ a_status a <> ActionComplete) then a_amount a else 0) else 0))
      by lia.
    change (tr_id a) with (a_id a). rewrite Hid. unfold updated in He.
    destruct (decide (tr_id e = id)) as [Hd|Hd]; subst e'; [|lia].
    assert (e = a) as -> by (apply Huniq; [set_solver|done]).
    unfold contribution, counts. cbn. subst P. rewrite !(decide_True (P := a_intentId a = a_intentId a)) by done.
    destruct (decide (a_type a = inventory_deposit \/ a_type a = rebalance_message)) as [Dc|Dc].
    - rewrite (decide_True (P := ActionComplete = ActionComplete /\ _)) by done.
      destruct (decide (a_status a = ActionComplete)) as [Ds|Ds].
      + rewrite decide_True by done. rewrite decide_False by naive_solver. lia.
      + rewrite decide_False by naive_solver. rewrite decide_True by done. lia.
    - rewrite !decide_False by naive_solver. lia. }
  rewrite sum_by_add. f_equal.
  rewrite (sum_by_one tr_id (fun _ => _)); [done|by apply getAll_NoDup|].
  apply (elem_of_getAll _ _ Hwf). cbn. rewrite Hid. exact Ha.
Qed.

(** [completeRebalanceAction] throws and changes nothing on an unknown id. Otherwise it
    completes that action only; the completed amount of its parent grows by the action's
    amount when the action counts and was not complete before; and the parent becomes complete
    exactly when the new completed amount reaches its own, else it is left as it was. *)
Theorem completeRebalanceAction_spec `{World} id s :
  stores_wf s ->
  match getRebalanceAction id s with
  | None => completeRebalanceAction id s =
      (s, Throw (Error ("RebalanceAction " +:+ id +:+ " not found")))
  | Some a => exists s', completeRebalanceAction id s = (s', Ok ()) /\
      transferStore s' = transferStore s /\
      store_rel (updated id (set_action_status ActionComplete) (w_now (tick s)))
        (rebalanceActionStore s) (rebalanceActionStore s') /\
      let completed := getCompletedAmountForIntent (a_intentId a) s +
        (if decide (counts a /\ a_status a <> ActionComplete) then a_amount a else 0) in
      getCompletedAmountForIntent (a_intentId a) s' = completed /\
      forall k, option_Forall2 (fun i i' => intent_core i' = intent_core i /\
          i_status i' = if decide (k = a_intentId a /\ i_amount i <= completed)
                        then IntentComplete else i_status i)
        (getRebalanceIntent k s) (getRebalanceIntent k s')
  end.
Proof.
  intros Hwf. unfold completeRebalanceAction. rewrite gets_bind.
  destruct (getRebalanceAction id s) as [a|] eqn:Ha; [|done].
  destruct (update_total id (set_action_status ActionComplete) (w_now (tick s)) _ _ Ha) as [st Hst].
  set (s1 := with_actions (later 1 s) st).
  assert (update id (set_action_status ActionComplete) (w_now (tick s)) (rebalanceActionStore s) =
    Ok (rebalanceActionStore s1)) as Hst1 by done.
  pose proof (completed_amount_update id a _ s s1 (wf_actions _ Hwf) Ha Hst1) as Hcompl.
  pose proof (store_rel_update _ _ _ _ _ (wf_actions _ Hwf) Hst1) as Hrel.
  rewrite eff_bind_run, update_action_run, Hst. unfold checkAndCompleteIntent.
  fold s1. rewrite gets_bind. change (getRebalanceIntent (a_intentId a) s1)
    with (getRebalanceIntent (a_intentId a) s).
  set (completed := getCompletedAmountForIntent (a_intentId a) s + _) in *.
  assert (forall k (Q : RebalanceIntent -> Prop) `{forall i, Decision (Q i)},
    (forall i, getRebalanceIntent k s = Some i -> Q i -> i_status i = IntentComplete) ->
    option_Forall2 (fun i i' => intent_core i' = intent_core i /\
      i_status i' = if decide (Q i) then IntentComplete else i_status i)
      (getRebalanceIntent k s) (getRebalanceIntent k s1)) as Hsame.
  { intros k Q ? HQ. change (getRebalanceIntent k s1) with (getRebalanceIntent k s).
    destruct (getRebalanceIntent k s) as [i|] eqn:E; [|constructor]. constructor. split; [done|].
    case_decide; [|done]. by apply HQ. }
  destruct (getRebalanceIntent (a_intentId a) s) as [i|] eqn:Hi; cycle 1.
  { exists s1. split_and!; [done..|]. intros k. apply Hsame. intros j Hj [-> _]. congruence. }
  case_bool_decide as Hdone.
  { exists s1. split_and!; [done..|]. intros k. apply Hsame. intros j Hj [-> _]. congruence. }
  rewrite gets_bind, Hcompl. fold completed.
  destruct (Z.leb_spec (i_amount i) completed) as [Hle|Hgt]; cycle 1.
  { exists s1. split_and!; [done..|]. intros k. apply Hsame. intros j Hj [-> Hle].
    assert (j = i) as -> by congruence. lia. }
  assert (store_get (a_intentId a) (rebalanceIntentStore s1) = Some i) as Hi1 by exact Hi.
  destruct (update_total (a_intentId a) (set_intent_status IntentComplete) (w_now (tick s1)) _ _ Hi1)
    as [sti Hsti].
  rewrite update_intent_run, Hsti. eexists. split; [done|]. split; [done|]. split; [exact Hrel|].
  split; [exact Hcompl|]. intros k. unfold getRebalanceIntent. cbn [with_intents rebalanceIntentStore].
  rewrite (store_get_update _ _ _ _ _ k Hsti).
  change (rebalanceIntentStore s1) with (rebalanceIntentStore s).
  destruct (decide (a_intentId a = k)) as [<-|Hne].
  - unfold getRebalanceIntent in Hi. rewrite Hi. constructor. split; [done|].
    by rewrite decide_True.
  - destruct (store_get k (rebalanceIntentStore s)) as [j|]; [|constructor]. constructor.
    split; [done|]. rewrite decide_False; [done|]. intros [-> _]. done.
Qed.

(** *** Examples *)

Lemma store_wf_forall {T Status} `{!Tracked T Status} (st : Store T) :
  map_wf st -> Forall (fun p => tr_id (snd p) = fst p) st -> store_wf st.
Proof.
  intros Hwf Hids. split; [done|]. intros k e He%map_get_elem. rewrite Forall_forall in Hids.
  exact (Hids _ He).
Qed.

Lemma sample_tracker_wf : stores_wf sample_tracker.
Proof.
  split; apply store_wf_forall; cbn; unfold map_wf;
    try (by apply (bool_decide_unpack _)); repeat constructor; set_solver.
Qed.

Lemma syncRebalanceIntents_spec_witness :
  exists s', syncRebalanceIntents sample_tracker_config sample_tracker = (s', Ok ()) /\
    i_status <$> getRebalanceIntent "i2" s' = Some IntentFailed /\
    a_status <$> getRebalanceAction "a1" s' = Some ActionComplete.
Proof.
  destruct (syncRebalanceIntents_spec sample_tracker_config sample_tracker sample_tracker_wf)
    as (s' & Hrun & _ & Hi & Ha).
  exists s'. split; [exact Hrun|]. specialize (Hi "i2"). specialize (Ha "a1"). cbn in Hi, Ha.
  inversion Hi as [i i' [_ Hst] E1 E2|]; subst. inversion Ha as [a a' (_ & _ & Hst') E3 E4|]; subst.
  split; cbn; [by rewrite Hst|]. rewrite Hst'; [done|]. by intros [? _].
Defined.

Lemma completeRebalanceAction_spec_witness :
  exists s', completeRebalanceAction "a2" sample_tracker = (s', Ok ()) /\
    getCompletedAmountForIntent "i1" s' = 100 /\
    i_status <$> getRebalanceIntent "i1" s' = Some IntentComplete.
Proof.
  destruct (completeRebalanceAction_spec "a2" sample_tracker sample_tracker_wf)
    as (s' & Hrun & _ & _ & Hc & Hi).
  exists s'. split; [exact Hrun|]. split; [exact Hc|]. specialize (Hi "i1"). cbn in Hi.
  inversion Hi as [i i' [_ Hst] E1 E2|]; subst. cbn. by rewrite Hst.
Defined.
