(* ===== verification/InventoryFacts.v ===== *)
(** The inventory view of the tracker: which intents still need work, which stale movements
    are given up on the way, and the context the strategies are handed. *)
From stdpp Require Import base tactics list gmap strings.
From Stdlib Require Import ZArith Lia.
From S2P Require Import Prelude JsMap Amount Token Route Config Bytes Messages BlockTag Store.
From S2P Require Import BaseStrategy ActionTracker TrackerSamples TrackerFacts SyncFacts.

#[local] Open Scope Z_scope.

#[export] Instance inflight_movement_dec a : Decision (inflight_movement a).
Proof. unfold inflight_movement. apply _. Defined.

(** ** What an inventory intent needs *)

(** Some of the amount is neither delivered nor on its way, or a deposit is on its way. *)
Definition needs_work (s : ActionTracker) (i : RebalanceIntent) : Prop :=
  let actions := getActionsForIntent (i_id i) s in
  0 < i_amount i - deposits ActionComplete actions - deposits ActionInProgress actions \/
  0 < deposits ActionInProgress actions.

(** No external bridge movement of the intent is in flight. *)
Definition unblocked (s : ActionTracker) (i : RebalanceIntent) : Prop :=
  Forall (fun a => ~ inflight_movement a) (getActionsForIntent (i_id i) s).

Definition listed (s s' : ActionTracker) (i : RebalanceIntent) : Prop :=
  i_executionMethod i = Some inventory /\ needs_work s i /\ unblocked s' i.

#[export] Instance needs_work_dec s i : Decision (needs_work s i).
Proof. unfold needs_work. apply _. Defined.
#[export] Instance unblocked_dec s i : Decision (unblocked s i).
Proof. unfold unblocked. apply _. Defined.
#[export] Instance listed_dec s s' i : Decision (listed s s' i).
Proof. unfold listed. apply _. Defined.

Definition partial_entry (s : ActionTracker) (i : RebalanceIntent) : PartialInventoryIntent :=
  let actions := getActionsForIntent (i_id i) s in {|
  pi_intent := i;
  pi_completedAmount := deposits ActionComplete actions;
  pi_remaining :=
    i_amount i - deposits ActionComplete actions - deposits ActionInProgress actions;
  pi_hasInflightDeposit := 0 <? deposits ActionInProgress actions |}.

(** The intents the query goes through. *)
Definition open_intents (s : ActionTracker) : list RebalanceIntent :=
  getActiveRebalanceIntents s ++ getByStatus IntentNotStarted (rebalanceIntentStore s).

Section partial.
Context `{World}.

(** A movement that was not pending when last observed and has been so for the staleness
    window at some clock reading of the call. *)
Definition expired_movement (s : ActionTracker) (a : RebalanceAction) : Prop :=
  inflight_movement a /\ a_lastBridgeStatus a <> Some BridgePending /\
  exists k, (tick s <= k)%nat /\
    DEFAULT_MOVEMENT_STALENESS_MS <= w_now k - default (a_createdAt a) (a_nonPendingSince a).

Definition swept_action (s : ActionTracker) (intents : list RebalanceIntent)
    (a a' : RebalanceAction) : Prop :=
  a' = a \/
  (exists i, i ∈ intents /\ i_id i = a_intentId a /\ i_executionMethod i = Some inventory) /\
  expired_movement s a /\ action_core a' = action_core a /\ a_status a' = ActionFailed.

Record swept (s : ActionTracker) (intents : list RebalanceIntent) (s' : ActionTracker) : Prop := {
  sw_transfers : transferStore s' = transferStore s;
  sw_intents : rebalanceIntentStore s' = rebalanceIntentStore s;
  sw_tick : (tick s <= tick s')%nat;
  sw_actions : store_rel (swept_action s intents)
    (rebalanceActionStore s) (rebalanceActionStore s')
}.

Lemma swept_same s intents s' :
  transferStore s' = transferStore s -> rebalanceIntentStore s' = rebalanceIntentStore s ->
  rebalanceActionStore s' = rebalanceActionStore s -> (tick s <= tick s')%nat ->
  swept s intents s'.
Proof.
  intros Ht Hi Ha Hk. constructor; [done..|]. rewrite Ha. apply store_rel_refl. intros a _. by left.
Qed.

Lemma swept_wf s intents s' :
  swept s intents s' -> store_wf (rebalanceActionStore s) -> store_wf (rebalanceActionStore s').
Proof.
  intros [_ _ _ Ha] Hwf. eapply store_rel_wf; [|exact Ha|exact Hwf].
  intros e e' [->|(_ & _ & Hc & _)]; [done|by apply action_core_id].
Qed.

(** The actions of an intent that is not among those swept are as they were. *)
Lemma swept_frame s intents s' id :
  swept s intents s' -> id ∉ i_id <$> intents ->
  getActionsForIntent id s' = getActionsForIntent id s.
Proof.
  intros [_ _ _ Ha%store_rel_values] Hid. unfold getActionsForIntent.
  induction Ha as [|a a' l l' Ha _ IH]; [done|].
  assert (a' = a \/ a_intentId a <> id /\ a_intentId a' = a_intentId a) as [->|[Hne Heq]].
  { destruct Ha as [->|((i & Hi & Hii & _) & _ & Hc & _)]; [by left|right].
    split; [|exact (f_equal a_intentId Hc)]. intros <-. apply Hid. apply list_elem_of_fmap. eauto. }
  - rewrite !(filter_cons _ a). by rewrite IH.
  - rewrite (filter_cons _ a), (filter_cons _ a'). rewrite !decide_False by congruence. exact IH.
Qed.

Lemma swept_compose s0 before s1 x s2 :
  i_id x ∉ i_id <$> before -> swept s0 before s1 -> swept s1 [x] s2 ->
  swept s0 (before ++ [x]) s2.
Proof.
  intros Hx [T1 I1 K1 A1] [T2 I2 K2 A2]. constructor; [congruence..|lia|].
  eapply store_rel_compose; [|exact A1|exact A2].
  intros a1 a2 a3 _ [->|((i & Hi & Hii & Hm) & He & Hc & Hf)]
    [->|((j & ->%list_elem_of_singleton & Hj & Hm') & (He' & Hp & k & Hk & Hst) & Hc' & Hf')].
  - by left.
  - right. split; [exists x; set_solver|]. split; [|done]. split_and!; [done..|].
    exists k. split; [lia|done].
  - right. split; [exists i; set_solver|done].
  - exfalso. apply Hx. assert (a_intentId a2 = a_intentId a1) as Hq by exact (f_equal a_intentId Hc).
    apply list_elem_of_fmap. exists i. split; [congruence|done].
Qed.

Lemma existsb_elem {A} (f : A -> bool) l : existsb f l = true <-> exists x, x ∈ l /\ f x = true.
Proof. rewrite existsb_exists. by setoid_rewrite list_elem_of_In. Qed.

Lemma for_each_ext {S A} (f g : A -> eff S unit) l s :
  (forall x t, x ∈ l -> f x t = g x t) -> for_each f l s = for_each g l s.
Proof.
  intros Hfg. revert s. induction l as [|x l IH]; intros s; [done|]. cbn.
  rewrite !eff_bind_run, Hfg by set_solver. destruct (g x s) as [s' [|]]; [|done].
  apply IH. intros; apply Hfg; set_solver.
Qed.

Lemma elem_of_actions id s a :
  store_wf (rebalanceActionStore s) ->
  a ∈ getActionsForIntent id s <-> a_intentId a = id /\ getRebalanceAction (a_id a) s = Some a.
Proof.
  intros Hwf. unfold getActionsForIntent. rewrite list_elem_of_filter, elem_of_getAll by done. done.
Qed.

(** When every movement in flight of an intent is failed, the intent is unblocked. *)
Lemma failing_unblocks targets s s' x :
  store_wf (rebalanceActionStore s) ->
  store_rel (failing (i_id x) targets) (rebalanceActionStore s) (rebalanceActionStore s') ->
  (forall a, inflight_movement a -> a_intentId a = i_id x -> getRebalanceAction (a_id a) s = Some a ->
     exists t, t ∈ targets /\ a_id t = a_id a /\ a_intentId t = i_id x) ->
  unblocked s' x.
Proof.
  intros Hwf Ha Hall. apply Forall_forall. intros a' Hin Hm'.
  assert (store_wf (rebalanceActionStore s')) as Hwf'.
  { eapply store_rel_wf; [|exact Ha|exact Hwf]. intros e e' [Hc _]. by apply action_core_id. }
  apply (elem_of_actions _ _ _ Hwf') in Hin as [Hii Hg].
  pose proof (store_rel_get _ _ _ (a_id a') Ha) as Hr. unfold getRebalanceAction in Hg.
  rewrite Hg in Hr. inversion Hr as [a ? (Hc & H1 & H2) Hga|]; subst. symmetry in Hga. cbn in Hga.
  assert (a_id a = a_id a') as Hid by (symmetry; by apply action_core_id).
  assert (a_intentId a = i_id x) as Hia by (rewrite <- Hii; symmetry; exact (f_equal a_intentId Hc)).
  destruct (decide (Exists (fun t => a_id t = a_id a /\ a_intentId t = i_id x) targets))
    as [(t & Ht & ?)%Exists_exists|Hn].
  - destruct Hm' as [Hst _]. rewrite H1 in Hst; [done|]. by exists t.
  - assert (~ targeted (i_id x) targets a) as Hnt
      by (intros (t & ? & ?); apply Hn, Exists_exists; by exists t).
    apply H2 in Hnt as Heq. subst a'. apply Hnt. by apply Hall.
Qed.

(** One intent of the query. *)
Lemma partial_intent_run s x :
  stores_wf s ->
  exists s', partial_intent x s =
      (s', Ok (if decide (listed s s' x) then [partial_entry s x] else [])) /\
    swept s [x] s'.
Proof.
  intros Hwf. unfold partial_intent. case_bool_decide as Hm; cbn [negb]; cycle 1.
  { exists s. split; [|by apply swept_same]. rewrite decide_False; [done|]. by intros [? _]. }
  rewrite gets_bind. set (actions := getActionsForIntent (i_id x) s). cbv zeta. unfold now.
  rewrite ask_bind. set (inflight := filter _ actions).
  set (stale := filter (fun a => is_stale (w_now (tick s)) a = true) inflight).
  assert (forall a, a ∈ inflight <-> inflight_movement a /\ a_intentId a = i_id x /\
    getRebalanceAction (a_id a) s = Some a) as Hinf.
  { intros a. subst inflight actions. rewrite list_elem_of_filter.
    rewrite (elem_of_actions _ _ _ (wf_actions _ Hwf)). done. }
  destruct (existsb _ inflight) eqn:Hblock.
  { exists (later 1 s). split; [|apply swept_same; try done; cbn; lia]. rewrite decide_False; [done|].
    intros (_ & _ & Hu). apply existsb_elem in Hblock as (a & Ha & _).
    unfold unblocked in Hu. rewrite Forall_forall in Hu. apply Hinf in Ha as (Ha & Hia & Hg).
    apply (Hu a); [|done]. by apply (elem_of_actions _ (later 1 s) _ (wf_actions _ Hwf)). }
  rewrite eff_bind_run, (for_each_ext _ (fun action =>
      if bool_decide (a_intentId action = i_id x)
      then update_action (a_id action) (set_action_status ActionFailed) else mret ())).
  2: { intros a t [_ Ha]%list_elem_of_filter. rewrite bool_decide_true; [done|]. by apply Hinf in Ha as (_ & ? & _). }
  destruct (fail_actions_run (i_id x) stale (later 1 s)) as (s' & -> & Ht & Hi & Hk & Ha).
  { apply (wf_actions _ Hwf). }
  { intros a [_ Hin]%list_elem_of_filter. apply Hinf in Hin. exists a. apply Hin. }
  assert (forall a, a ∈ stale <-> is_stale (w_now (tick s)) a = true /\ a ∈ inflight) as Hstale.
  { intros a. subst stale. by rewrite list_elem_of_filter. }
  assert (forall a, getRebalanceAction (a_id a) s = Some a ->
    targeted (i_id x) stale a <-> a ∈ stale) as Htg.
  { intros a Hg. split; [|intros Hs; exists a; split_and!; [done..|];
      by apply Hstale in Hs as [_ (_ & ? & _)%Hinf]].
    intros (t & Ht' & Hti & _). pose proof Ht' as [_ (_ & _ & Hgt)%Hinf]%Hstale.
    rewrite Hti in Hgt. by replace a with t by congruence. }
  assert (unblocked s' x) as Hub.
  { apply (failing_unblocks stale s); [apply (wf_actions _ Hwf)|exact Ha|].
    intros a Hm' Hii Hg. apply (Htg a Hg).
    destruct (decide (a_id a ∈ a_id <$> stale)) as [(t & Hti & Hts)%list_elem_of_fmap|Hn].
    - apply (Htg a Hg). exists t. split_and!; [done..|]. by apply Hstale in Hts as [_ (_ & ? & _)%Hinf].
    - apply not_true_iff_false in Hblock. destruct Hblock. apply existsb_elem. exists a.
      split; [by apply Hinf|]. by rewrite bool_decide_false. }
  exists s'. split.
  - do 2 f_equal. fold actions. unfold listed, partial_entry, needs_work. fold actions.
    destruct (_ || _) eqn:E.
    + apply orb_true_iff in E as [E%Z.ltb_lt|E%Z.ltb_lt]; rewrite decide_True; naive_solver.
    + apply orb_false_iff in E as [E1%Z.ltb_ge E2%Z.ltb_ge]. rewrite decide_False; [done|].
      intros (_ & Hn & _). destruct Hn; lia.
  - constructor; [by rewrite Ht|by rewrite Hi|cbn in Hk; lia|].
    eapply store_rel_mono; [|exact Ha]. intros a a' Hin (Hc & H1 & H2).
    apply (elem_of_getAll _ _ (wf_actions _ Hwf)) in Hin. specialize (Htg a Hin).
    destruct (decide (a ∈ stale)) as [Hs|Hs]; [right|left; apply H2; tauto].
    pose proof Hs as [Hst (Hmv & Hii & _)%Hinf]%Hstale. unfold is_stale in Hst.
    case_bool_decide as Hp; [done|]. apply Z.leb_le in Hst.
    split; [exists x; set_solver|]. split; [|split; [done|by apply H1, Htg]].
    split_and!; [done..|]. exists (tick s). split; [lia|done].
Qed.

(** The entry of an intent only depends on its actions. *)
Lemma partial_entry_frame s s' i :
  getActionsForIntent (i_id i) s' = getActionsForIntent (i_id i) s ->
  partial_entry s' i = partial_entry s i.
Proof. unfold partial_entry. by intros ->. Qed.

Lemma listed_frame s0 s0' s1 s1' i :
  getActionsForIntent (i_id i) s0' = getActionsForIntent (i_id i) s0 ->
  getActionsForIntent (i_id i) s1' = getActionsForIntent (i_id i) s1 ->
  listed s0' s1' i <-> listed s0 s1 i.
Proof. unfold listed, needs_work, unblocked. by intros -> ->. Qed.

Lemma collect_run s0 l before s :
  stores_wf s0 -> NoDup (i_id <$> before ++ l) -> swept s0 before s ->
  exists s', collect partial_intent l s =
      (s', Ok (partial_entry s0 <$> filter (listed s0 s') l)) /\
    swept s0 (before ++ l) s' /\
    (forall id, id ∉ i_id <$> l -> getActionsForIntent id s' = getActionsForIntent id s).
Proof.
  intros Hwf. revert before s. induction l as [|x l IH]; intros before s Hnd Hs.
  { exists s. split; [done|]. by rewrite app_nil_r. }
  assert (i_id x ∉ i_id <$> before /\ i_id x ∉ i_id <$> l) as [Hxb Hxl].
  { rewrite fmap_app, fmap_cons in Hnd. apply NoDup_app in Hnd as (_ & Hd & Hnd).
    apply NoDup_cons in Hnd as [? _]. split; [|done]. intros Hin. apply (Hd _ Hin). set_solver. }
  assert (stores_wf s) as Hwfs.
  { constructor; [rewrite (sw_transfers _ _ _ Hs)|rewrite (sw_intents _ _ _ Hs)|
      by eapply swept_wf; [|apply (wf_actions _ Hwf)]]; apply Hwf. }
  destruct (partial_intent_run s x Hwfs) as (s1 & Hrun1 & Hs1).
  pose proof (swept_compose _ _ _ _ _ Hxb Hs Hs1) as Hs01.
  rewrite cons_middle, app_assoc in Hnd.
  destruct (IH _ s1 Hnd Hs01) as (s' & Hrun' & Hs' & Hframe).
  assert (getActionsForIntent (i_id x) s = getActionsForIntent (i_id x) s0) as Hx0
    by (by apply (swept_frame s0 before)).
  exists s'. split.
  { cbn [collect]. rewrite eff_bind_run, Hrun1, eff_bind_run, Hrun'.
    cbv [mret eff_ret]. do 2 f_equal.
    rewrite filter_cons, (partial_entry_frame _ _ _ Hx0).
    pose proof (listed_frame s0 s s' s1 x Hx0 (eq_sym (Hframe _ Hxl))) as Hl.
    destruct (decide (listed s s1 x)), (decide (listed s0 s' x)); tauto || done. }
  split; [by rewrite cons_middle, app_assoc|]. intros id Hid. rewrite fmap_cons in Hid.
  rewrite Hframe by set_solver. apply (swept_frame s [x] s1); [done|]. cbn. set_solver.
Qed.

Lemma open_intents_NoDup s : stores_wf s -> NoDup (i_id <$> open_intents s).
Proof.
  intros Hwf. unfold open_intents. rewrite fmap_app. apply NoDup_app.
  split; [apply (getByStatus_NoDup _ _ (wf_intents _ Hwf))|].
  split; [|apply (getByStatus_NoDup _ _ (wf_intents _ Hwf))].
  intros id (i & -> & [Hs Hg]%(elem_of_getByStatus _ _ _ (wf_intents _ Hwf)))%list_elem_of_fmap
    (j & Hij & [Hs' Hg']%(elem_of_getByStatus _ _ _ (wf_intents _ Hwf)))%list_elem_of_fmap.
  cbn in *. rewrite Hij in Hg. assert (i = j) as -> by congruence. congruence.
Qed.

(** The whole query, as one sweep over the open intents. *)
Lemma query_run s :
  stores_wf s ->
  exists s', getPartiallyFulfilledInventoryIntents s =
      (s', Ok (partial_entry s <$> filter (listed s s') (open_intents s))) /\
    transferStore s' = transferStore s /\ rebalanceIntentStore s' = rebalanceIntentStore s /\
    store_rel (swept_action s (open_intents s)) (rebalanceActionStore s) (rebalanceActionStore s').
Proof.
  intros Hwf. unfold getPartiallyFulfilledInventoryIntents. rewrite !gets_bind.
  destruct (collect_run s (open_intents s) [] s Hwf (open_intents_NoDup s Hwf)
    ltac:(by apply swept_same)) as (s' & Hrun & [Ht Hi Hk Ha] & _).
  exists s'. by split_and!.
Qed.

End partial.

(** C10: [getPartiallyFulfilledInventoryIntents] always returns. It lists, in order, exactly the
    open inventory intents that need work and have no bridge movement in flight any more, each
    with what was delivered and with its amount less what was delivered and what is on its way.
    On the way it gives up only movements of open inventory intents that were not pending when
    last observed and have been so for the staleness window; nothing else changes. *)
Theorem getPartiallyFulfilledInventoryIntents_spec `{World} s :
  stores_wf s ->
  exists s', getPartiallyFulfilledInventoryIntents s =
      (s', Ok (partial_entry s <$> filter (listed s s') (open_intents s))) /\
    transferStore s' = transferStore s /\ rebalanceIntentStore s' = rebalanceIntentStore s /\
    (forall id, option_Forall2 (swept_action s (open_intents s))
      (getRebalanceAction id s) (getRebalanceAction id s')).
Proof.
  intros Hwf. destruct (query_run s Hwf) as (s' & Hrun & Ht & Hi & Ha).
  exists s'. split_and!; [exact Hrun|done|done|]. intros id. by apply store_rel_get.
Qed.

(** The only movement of the first intent was never pending and is an hour old. *)
Lemma getPartiallyFulfilledInventoryIntents_spec_witness :
  exists s', getPartiallyFulfilledInventoryIntents sample_tracker =
      (s', Ok [partial_entry sample_tracker (sample_intent "i1" 100 IntentInProgress (Some inventory))]) /\
    rebalanceIntentStore s' = rebalanceIntentStore sample_tracker.
Proof.
  destruct (getPartiallyFulfilledInventoryIntents_spec sample_tracker sample_tracker_wf)
    as (s' & Hrun & _ & Hi & _).
  exists s'. split; [|exact Hi]. rewrite Hrun. 
  vm_compute in Hrun. injection Hrun as <-. vm_compute. reflexivity.
Defined.
