(* ===== verification/ContextFacts.v ===== *)
(** From the tracker to the strategies: the balances a strategy projects from the context
    the adapter hands it, in terms of the entities the tracker holds. *)
From stdpp Require Import base tactics list gmap strings.
From Stdlib Require Import ZArith Lia.
From S2P Require Import Prelude JsMap Amount Token Route Config Bytes Messages BlockTag Store.
From S2P Require Import BaseStrategy Strategies Samples StrategyFacts.
From S2P Require Import ActionTracker TrackerSamples TrackerFacts SyncFacts InventoryFacts.

#[local] Open Scope Z_scope.

Section context.
Context (getChainName : Z -> result string).

Definition is_chain (domain : Z) (c : string) : bool :=
  bool_decide (getChainName domain = Ok c).

(** What a transfer in progress will still take from chain [c]. *)
Definition transfer_claim (c : string) (t : Transfer) : Z :=
  if is_chain (t_destination t) c then t_amount t else 0.

(** What an active intent will still add to chain [c]: an inventory intent pays out at its
    destination what no deposit covers yet and takes back at its origin what is not delivered;
    any other intent was taken from its origin already. *)
Definition intent_effect (s : ActionTracker) (c : string) (i : RebalanceIntent) : Z :=
  let actions := getActionsForIntent (i_id i) s in
  if bool_decide (i_executionMethod i = Some inventory) then
    (if is_chain (i_destination i) c
     then Z.max 0 (i_amount i - deposits ActionComplete actions - deposits ActionInProgress actions)
     else 0) -
    (if is_chain (i_origin i) c then Z.max 0 (i_amount i - deposits ActionComplete actions) else 0)
  else if is_chain (i_destination i) c then i_amount i else 0.

Lemma is_chain_ok domain o c : getChainName domain = Ok o -> is_chain domain c = bool_decide (o = c).
Proof. unfold is_chain. intros ->. apply bool_decide_ext. naive_solver. Qed.

Lemma decide_bool_decide {A} (P : Prop) `{!Decision P} (x y : A) :
  (if decide P then x else y) = if bool_decide P then x else y.
Proof. case_decide; [by rewrite bool_decide_true|by rewrite bool_decide_false]. Qed.

Lemma pending_route_effect s c i r :
  pending_route getChainName s i = Ok r -> pending_effect c r = intent_effect s c i.
Proof.
  unfold pending_route. intros (o & Ho & (d & Hd & [= <-])%result_bind_ok)%result_bind_ok.
  unfold pending_effect, intent_effect. cbn.
  rewrite !decide_bool_decide, (is_chain_ok _ _ c Ho), (is_chain_ok _ _ c Hd).
  by case_bool_decide.
Qed.

Lemma transfer_route_claim c t r :
  transfer_route getChainName t = Ok r ->
  (if decide (r_destination r = c) then r_amount r else 0) = transfer_claim c t.
Proof.
  unfold transfer_route. intros (o & Ho & (d & Hd & [= <-])%result_bind_ok)%result_bind_ok.
  unfold transfer_claim. cbn. by rewrite decide_bool_decide, (is_chain_ok _ _ c Hd).
Qed.

Lemma sum_by_Forall2 {A B} (f : A -> Z) (g : B -> Z) l k :
  Forall2 (fun x y => g y = f x) l k -> sum_by g k = sum_by f l.
Proof. induction 1 as [|x y l k Hxy _ IH]; [done|]. by rewrite !sum_by_cons, Hxy, IH. Qed.

Lemma getInflightContext_ok s ctx :
  getInflightContext getChainName s = Ok ctx <->
  Forall2 (fun i r => pending_route getChainName s i = Ok r)
    (getActiveRebalanceIntents s) (pendingRebalances ctx) /\
  Forall2 (fun t r => transfer_route getChainName t = Ok r)
    (getInProgressTransfers s) (pendingTransfers ctx) /\
  proposedRebalances ctx = None.
Proof.
  unfold getInflightContext. split.
  - intros (p & Hp & (t & Ht & [= <-])%result_bind_ok)%result_bind_ok.
    apply mapM_result_ok_inv in Hp, Ht. done.
  - intros (Hp%mapM_result_ok_inv & Ht%mapM_result_ok_inv & Hn).
    rewrite Hp. cbn. rewrite Ht. cbn. destruct ctx. cbn in *. by subst.
Qed.

End context.

(** When every domain the tracker mentions has a name the adapter returns a context. On it
    a strategy projects for each chain the raw balance less the transfers in progress to it,
    plus what every active intent will still change: the unfunded part of an inventory intent
    at its destination less its undelivered part at its origin, the whole amount of any other
    intent at its destination. *)
Theorem inflight_context_projection getChainName s :
  (forall d, (exists i, i ∈ getActiveRebalanceIntents s /\ (d = i_origin i \/ d = i_destination i)) \/
             (exists t, t ∈ getInProgressTransfers s /\ (d = t_origin t \/ d = t_destination t)) ->
     is_ok (getChainName d) = true) ->
  exists ctx, getInflightContext getChainName s = Ok ctx /\
    forall raw c, balance_or_0 (projected raw (Some ctx)) c =
      balance_or_0 raw c
      - sum_by (transfer_claim getChainName c) (getInProgressTransfers s)
      + sum_by (intent_effect getChainName s c) (getActiveRebalanceIntents s).
Proof.
  intros Hnames.
  assert (forall d, is_ok (getChainName d) = true -> exists c, getChainName d = Ok c) as Hok
    by (intros d; destruct (getChainName d); [eauto|done]).
  destruct (mapM_result_total (pending_route getChainName s) (getActiveRebalanceIntents s)) as [p Hp].
  { intros i Hi. unfold pending_route.
    destruct (Hok (i_origin i)) as [o ->]; [apply Hnames; left; eauto|].
    destruct (Hok (i_destination i)) as [d ->]; [apply Hnames; left; eauto|]. cbn. eauto. }
  destruct (mapM_result_total (transfer_route getChainName) (getInProgressTransfers s)) as [t Ht].
  { intros x Hx. unfold transfer_route.
    destruct (Hok (t_origin x)) as [o ->]; [apply Hnames; right; eauto|].
    destruct (Hok (t_destination x)) as [d ->]; [apply Hnames; right; eauto|]. cbn. eauto. }
  exists {| pendingRebalances := p; pendingTransfers := t; proposedRebalances := None |}.
  apply mapM_result_ok_inv in Hp, Ht. split; [by apply getInflightContext_ok|]. intros raw c.
  unfold projected, simulate. cbn -[sum_by].
  rewrite simulatePendingRebalances_balance, reserveCollateral_balance.
  f_equal; [f_equal|]; apply sum_by_Forall2.
  - eapply Forall2_impl; [exact Ht|]. intros x r Hx. by apply (transfer_route_claim getChainName).
  - eapply Forall2_impl; [exact Hp|]. intros i r Hi. by apply (pending_route_effect getChainName).
Qed.

(** Of the first intent 60 are delivered and 40 on their way; the second is worth 100. *)
Lemma inflight_context_projection_witness :
  exists ctx, getInflightContext sample_chainName sample_tracker = Ok ctx /\
    balance_or_0 (projected (balances_of [("a", 500); ("b", 300)]) (Some ctx)) "a" = 460 /\
    balance_or_0 (projected (balances_of [("a", 500); ("b", 300)]) (Some ctx)) "b" = 400.
Proof.
  destruct (inflight_context_projection sample_chainName sample_tracker) as (ctx & Hctx & Hp).
  - intros d [(i & [->|[->|[]%elem_of_nil]%elem_of_cons]%elem_of_cons & [->| ->])|(t & []%elem_of_nil & _)];
      reflexivity.
  - exists ctx. split; [exact Hctx|]. by rewrite !Hp.
Defined.

(** The pending route of an intent with its external bridge kept. *)
Definition carrying (i : RebalanceIntent) (r : Route) : Route := {|
  r_origin := r_origin r; r_destination := r_destination r; r_amount := r_amount r;
  r_executionMethod := r_executionMethod r; r_deliveredAmount := r_deliveredAmount r;
  r_awaitingDeliveryAmount := r_awaitingDeliveryAmount r; r_bridge := r_bridge r;
  r_externalBridge := i_externalBridge i |}.

(** The context never carries the external bridge of an intent. So the collateral-deficit
    strategy counts a pending inventory rebalance on a pair it moves collateral on, while its
    filter would leave that rebalance out were the bridge carried. *)
Theorem tracked_external_bridge_lost `{BigNumberJs} strategy getChainName s i r b bc :
  pending_route getChainName s i = Ok r ->
  i_bridge i = None -> i_externalBridge i = Some b ->
  getBridgeConfig (bridgeConfigs (CollateralDeficit.base strategy))
    (r_origin r) (r_destination r) = Ok bc -> isInventoryConfig bc = false ->
  CollateralDeficit.filterByConfiguredBridges strategy [r] = Ok [r] /\
  CollateralDeficit.filterByConfiguredBridges strategy [carrying i r] = Ok [].
Proof.
  unfold pending_route. intros (o & Ho & (d & Hd & [= <-])%result_bind_ok)%result_bind_ok.
  cbn. intros Hb He Hbc Hinv.
  unfold CollateralDeficit.uses_configured_bridge. cbn. by rewrite Hbc, Hb, He; cbn; rewrite Hinv.
Qed.

Definition lifi_intent : RebalanceIntent := {|
  i_id := "i3"; i_status := IntentInProgress; i_origin := 1; i_destination := 2; i_amount := 30;
  i_bridge := None; i_priority := None; i_strategyType := None;
  i_executionMethod := Some inventory; i_externalBridge := Some LiFi;
  i_createdAt := 0; i_updatedAt := 0 |}.

Lemma tracked_external_bridge_lost_witness :
  let numbers := whole_numbers in
  let strategy := the_ok (CollateralDeficit.make sample_buffers sample_tokens sample_bridges) eq_refl in
  let r := the_ok (pending_route sample_chainName sample_tracker lifi_intent) eq_refl in
  CollateralDeficit.filterByConfiguredBridges strategy [r] = Ok [r] /\
  CollateralDeficit.filterByConfiguredBridges strategy [carrying lifi_intent r] = Ok [].
Proof.
  intros numbers strategy r.
  apply (tracked_external_bridge_lost strategy sample_chainName sample_tracker lifi_intent r LiFi
    (the_ok (getBridgeConfig sample_bridges "a" "b") eq_refl)); vm_compute; reflexivity.
Defined.
