(* ===== verification/ErrorGraph.v ===== *)
(** Which failures of a transfer probe are recoverable: the search of
    [isRecoverableMaxTransferProbeError] in rebalancer/src/core/InventoryRebalancer.ts through
    the causes of an error. Errors are a heap of objects, which may share causes or be cyclic;
    the search marks what it has seen. *)
From Stdlib Require Import Lia String Ascii.
From stdpp Require Import base tactics list strings relations.
From Equations Require Import Equations.
From S2P Require Import Prelude Messages.

(** ** Values and objects *)

(** A value as the search tells them apart; [JNull] is [null] or [undefined], [JOther] any
    other value that is neither a string nor an object. *)
Inductive JsValue : Type :=
| JNull
| JString (s : string)
| JObject (ref : nat)
| JOther.

(** The properties the search reads; a missing one is [JNull]. *)
Record ErrorObject : Type := {
  eo_code : JsValue;
  eo_message : JsValue;
  eo_cause : JsValue;
  eo_error : JsValue
}.

Notation heap := (list ErrorObject).

#[export] Instance JsValue_eq_dec : EqDecision JsValue.
Proof. solve_decision. Defined.

(** ** The test of one message *)

(** [s.includes(pattern)]. *)
Fixpoint includes (pattern s : string) : bool :=
  String.prefix pattern s ||
  match s with
  | EmptyString => false
  | String _ s' => includes pattern s'
  end.

Definition to_upper_char (c : ascii) : ascii :=
  let n := nat_of_ascii c in
  if (97 <=? n)%nat && (n <=? 122)%nat then ascii_of_nat (n - 32) else c.

Fixpoint to_upper (s : string) : string :=
  match s with
  | EmptyString => EmptyString
  | String c s' => String (to_upper_char c) (to_upper s')
  end.

Definition RECOVERABLE_MAX_TRANSFER_ERROR_MESSAGES : list string :=
  ["balance may be insufficient"; "transfer amount exceeds balance"; "insufficient balance"]%string.

Definition hasRecoverableMaxTransferErrorMessage (message : string) : bool :=
  let normalized := to_lower message in
  includes "unpredictable_gas_limit" normalized ||
  existsb (fun pattern => includes pattern normalized) RECOVERABLE_MAX_TRANSFER_ERROR_MESSAGES.

(** The two tests of an object. *)
Definition recoverable_object (o : ErrorObject) : bool :=
  match eo_code o with
  | JString code => bool_decide (to_upper code = "UNPREDICTABLE_GAS_LIMIT"%string)
  | _ => false
  end ||
  match eo_message o with
  | JString message => hasRecoverableMaxTransferErrorMessage message
  | _ => false
  end.

(** ** The search *)

(** The objects not seen yet. *)
Definition unseen (h : heap) (seen : list nat) : list nat :=
  filter (fun n => n ∉ seen) (seq 0 (length h)).

(** Seeing a new object leaves fewer unseen, which pays for the two values pushed. *)
Lemma unseen_decreases h seen n o :
  h !! n = Some o -> n ∉ seen -> (length (unseen h (n :: seen)) < length (unseen h seen))%nat.
Proof.
  intros Hn Hs. apply lookup_lt_Some in Hn. unfold unseen.
  assert (n ∈ seq 0 (length h)) as Hin by (apply elem_of_seq; lia). revert Hin.
  assert (forall l, (length (filter (fun m => m ∉ n :: seen) l) <=
    length (filter (fun m => m ∉ seen) l))%nat) as Hle.
  { intros l. induction l as [|x l IH]; [done|]. rewrite !filter_cons.
    repeat case_decide; cbn; try lia. set_solver. }
  generalize (seq 0 (length h)). intros l. induction l as [|x l IH]; intros Hin; [set_solver|].
  rewrite !filter_cons. apply elem_of_cons in Hin as [<-|Hin].
  - rewrite decide_False by set_solver. rewrite decide_True by done. cbn.
    specialize (Hle l). lia.
  - specialize (IH Hin). repeat case_decide; cbn; try lia. set_solver.
Qed.

(** A value with the equation that gives it. *)
Definition inspect {A} (a : A) : {b | a = b} := exist _ a eq_refl.

(** The loop over [stack], whose top is the head of the list. *)
Equations? probe (h : heap) (seen : list nat) (stack : list JsValue) : bool
    by wf (3 * length (unseen h seen) + length stack)%nat lt :=
  probe h seen [] := false;
  probe h seen (JNull :: stack) := probe h seen stack;
  probe h seen (JOther :: stack) := probe h seen stack;
  probe h seen (JString s :: stack) :=
    if hasRecoverableMaxTransferErrorMessage s then true else probe h seen stack;
  probe h seen (JObject n :: stack) with inspect (h !! n) := {
    | exist _ None _ => probe h seen stack
    | exist _ (Some o) Ho =>
        match decide (n ∈ seen) with
        | left _ => probe h seen stack
        | right Hn =>
            if recoverable_object o then true
            else probe h (n :: seen) (eo_error o :: eo_cause o :: stack)
        end }.
Proof. all: try lia. pose proof (unseen_decreases h seen n o Ho Hn). lia. Qed.

Definition isRecoverableMaxTransferProbeError (h : heap) (error : JsValue) : bool :=
  probe h [] [error].

(** ** What the search decides *)

Section facts.
Context (h : heap).

(** An object has its cause and its error as successors. *)
Inductive causes : JsValue -> JsValue -> Prop :=
| causes_cause n o : h !! n = Some o -> causes (JObject n) (eo_cause o)
| causes_error n o : h !! n = Some o -> causes (JObject n) (eo_error o).

Definition recoverable (v : JsValue) : Prop :=
  match v with
  | JString s => hasRecoverableMaxTransferErrorMessage s = true
  | JObject n => exists o, h !! n = Some o /\ recoverable_object o = true
  | _ => False
  end.

Lemma probe_sound seen stack :
  probe h seen stack = true -> exists v w, v ∈ stack /\ rtc causes v w /\ recoverable w.
Proof.
  assert (forall v rest, (exists v' w, v' ∈ rest /\ rtc causes v' w /\ recoverable w) ->
    exists v' w, v' ∈ v :: rest /\ rtc causes v' w /\ recoverable w) as Hskip
    by (intros v rest (v' & w & ? & ?); exists v', w; set_solver).
  funelim (probe h seen stack); rewrite <- ?Heqcall; intros Hp; [done|auto| |auto| |auto].
  - destruct (hasRecoverableMaxTransferErrorMessage s) eqn:E; [|auto].
    exists (JString s), (JString s). split_and!; [set_solver|reflexivity|exact E].
  - destruct (decide (n ∈ seen)) as [Hn|Hn]; [auto|].
    destruct (recoverable_object o) eqn:E.
    + exists (JObject n), (JObject n). split_and!; [set_solver|reflexivity|]. cbn. eauto.
    + destruct (H0 Hn Hskip Hp) as (v & w & Hv & Hr & Hw).
      apply elem_of_cons in Hv as [->|[->|Hv]%elem_of_cons]; [| |apply Hskip; eauto].
      * exists (JObject n), w. split_and!; [set_solver| |done].
        eapply rtc_l; [by apply causes_error|done].
      * exists (JObject n), w. split_and!; [set_solver| |done].
        eapply rtc_l; [by apply causes_cause|done].
Qed.

(** Not recoverable, and if an object, among those seen. *)
Definition covered (S : list nat) (v : JsValue) : Prop :=
  ~ recoverable v /\ forall n, v = JObject n -> is_Some (h !! n) -> n ∈ S.

(** The objects seen in a search that fails are closed under causes. *)
Lemma probe_complete seen stack :
  (forall n, n ∈ seen -> ~ recoverable (JObject n)) -> probe h seen stack = false ->
  exists S, seen ⊆ S /\ Forall (covered S) stack /\
    forall n o, n ∈ S -> n ∉ seen -> h !! n = Some o ->
      covered S (JObject n) /\ covered S (eo_cause o) /\ covered S (eo_error o).
Proof.
  funelim (probe h seen stack); rewrite <- ?Heqcall; intros Hseen Hp.
  - exists seen. split_and!; [done|constructor|set_solver].
  - destruct (H Hseen Hp) as (S & ? & ? & ?). exists S. split_and!; [done| |done].
    constructor; [|done]. split; [by intros []|done].
  - destruct (hasRecoverableMaxTransferErrorMessage s) eqn:E; [done|].
    destruct (H Hseen Hp) as (S & ? & ? & ?). exists S. split_and!; [done| |done].
    constructor; [|done]. split; [cbn; congruence|done].
  - destruct (H Hseen Hp) as (S & ? & ? & ?). exists S. split_and!; [done| |done].
    constructor; [|done]. split; [by intros []|done].
  - destruct (decide (n ∈ seen)) as [Hn|Hn].
    + destruct (H Hn Hseen Hp) as (S & ? & ? & ?). exists S. split_and!; [done| |done].
      constructor; [|done]. split; [by apply Hseen|]. intros m [= <-] _. set_solver.
    + destruct (recoverable_object o) eqn:E; [done|].
      assert (~ recoverable (JObject n)) as Hnr by (intros (o' & Ho' & ?); congruence).
      destruct (H0 Hn ltac:(intros m [->|Hm]%elem_of_cons; auto) Hp) as (S & Hsub & Hst & Hcl).
      apply Forall_cons in Hst as [Herr [Hcause Hst]%Forall_cons].
      assert (covered S (JObject n)) as Hcn by (split; [done|]; intros m [= <-] _; set_solver).
      exists S. split_and!; [set_solver|by constructor|].
      intros m o' Hm Hms Ho'. destruct (decide (m = n)) as [->|Hne]; [|apply (Hcl m o'); set_solver].
      assert (o' = o) as -> by congruence. done.
  - destruct (H Hseen Hp) as (S & ? & ? & ?). exists S. split_and!; [done| |done].
    constructor; [|done]. split; [intros (o & Ho & _); congruence|].
    intros m [= <-] [o Ho]. congruence.
Qed.

End facts.

(** The search of [isRecoverableMaxTransferProbeError] ends on every heap of errors, cyclic
    ones included, and answers whether any value reachable through the causes of the error is
    recoverable by its text, its code or its message. *)
Theorem recoverable_error_search h error :
  isRecoverableMaxTransferProbeError h error = true <->
  exists w, rtc (causes h) error w /\ recoverable h w.
Proof.
  unfold isRecoverableMaxTransferProbeError. split.
  - intros (v & w & ->%list_elem_of_singleton & Hr)%probe_sound. by exists w.
  - intros (w & Hr & Hw). destruct (probe h [] [error]) eqn:E; [done|].
    destruct (probe_complete h [] [error]) as (S & _ & [Hc _]%Forall_cons & Hcl);
      [intros n []%elem_of_nil|done|].
    exfalso. enough (covered h S w) by firstorder. clear Hw E. revert Hc.
    induction Hr as [v|v1 v2 v3 Hv _ IH]; [done|]. intros [_ Hs]. apply IH.
    destruct Hv as [n o Ho|n o Ho]; apply (Hcl n o); try done; try (by apply Hs);
      apply not_elem_of_nil.
Qed.

(** Two errors that name each other as causes, the second with a telling message. *)
Example cyclic_error_found :
  let h := [ {| eo_code := JString "CALL_EXCEPTION"; eo_message := JNull;
               eo_cause := JObject 1; eo_error := JNull |};
             {| eo_code := JNull; eo_message := JString "Insufficient Balance for transfer";
               eo_cause := JObject 0; eo_error := JOther |} ] in
  isRecoverableMaxTransferProbeError h (JObject 0) = true.
Proof. vm_compute. reflexivity. Qed.
