(* ===== verification/Gas.v ===== *)
(** The cost of a transfer, rebalancer/src/utils/gasEstimation.ts. What adapters and providers
    answer (the gas quote, the estimate, the fee data) are arguments, used where the code
    awaits them. *)
From stdpp Require Import base tactics list strings.
From Stdlib Require Import ZArith Lia String.
From S2P Require Import Prelude Addresses Amount Token.

#[local] Open Scope Z_scope.

Definition FALLBACK_TRANSFER_REMOTE_GAS_LIMIT : Z := 300000.
Definition MIN_VIABLE_COST_MULTIPLIER : Z := 2.

(** [Quote], [InterchainGasQuote] of the token adapters. *)
Record Quote : Type := { q_addressOrDenom : option string; q_amount : Z }.
Record InterchainGasQuote : Type := { igpQuote : Quote; tokenFeeQuote : option Quote }.

(** [getFeeData()]. *)
Record FeeData : Type := { maxFeePerGas : option Z; gasPrice : option Z }.

Record TransferCostEstimate : Type := {
  igpCost : Z;
  gasCost : Z;
  tokenFeeCost : Z;
  totalCost : Z;
  maxTransferable : Z;
  minViableTransfer : Z
}.

(** [estimate] is the answer of the [try] block: the domain, the adapter's transaction and
    [eth_estimateGas], any of which may throw. *)
Definition estimateTransferRemoteGas (originToken : option Token) (estimate : result Z) : Z :=
  match originToken, estimate with
  | None, _ => FALLBACK_TRANSFER_REMOTE_GAS_LIMIT
  | Some _, Ok estimatedGas => estimatedGas
  | Some _, Throw _ => FALLBACK_TRANSFER_REMOTE_GAS_LIMIT
  end.

(** A missing or zero address means the fee is paid in the native denomination. *)
Definition native_token_fee (fee : option Quote) : Z :=
  match fee with
  | None => 0
  | Some q =>
      match q_addressOrDenom q with
      | Some (String _ _ as addr) => if isZeroishAddress addr then q_amount q else 0
      | _ => q_amount q
      end
  end.

(** What is left of the inventory after the costs, at most what was asked. *)
Definition max_after_costs (availableInventory totalCost requestedAmount : Z) : Z :=
  if availableInventory <=? totalCost then 0
  else
    let maxAfterReservation := availableInventory - totalCost in
    if maxAfterReservation <? requestedAmount then maxAfterReservation else requestedAmount.

Definition calculateTransferCosts (originChain : string) (originToken : option Token)
    (destinationDomain : result Z) (gasQuote : result InterchainGasQuote)
    (originProtocol : result ProtocolType) (estimate : result Z) (feeData : result FeeData)
    (availableInventory requestedAmount : Z) : result TransferCostEstimate :=
  match originToken with
  | None => Throw (Error ("No token found for origin chain: " +:+ originChain))
  | Some token =>
      _ ← destinationDomain;
      gasQuote ← gasQuote;
      if negb (isNativeTokenStandard (tok_standard token)) then
        Ok {| igpCost := 0; gasCost := 0; tokenFeeCost := 0; totalCost := 0;
              maxTransferable := if availableInventory <? requestedAmount
                                 then availableInventory else requestedAmount;
              minViableTransfer := 0 |}
      else
        let igpCost := q_amount (igpQuote gasQuote) in
        let tokenFeeCost := native_token_fee (tokenFeeQuote gasQuote) in
        originProtocol ← originProtocol;
        if negb (isEVMLike originProtocol) then
          let totalCost := igpCost + tokenFeeCost in
          Ok {| igpCost := igpCost; gasCost := 0; tokenFeeCost := tokenFeeCost;
                totalCost := totalCost;
                maxTransferable := max_after_costs availableInventory totalCost requestedAmount;
                minViableTransfer := totalCost * MIN_VIABLE_COST_MULTIPLIER |}
        else
          let bufferedGasLimit :=
            addBufferToGasLimit (estimateTransferRemoteGas originToken estimate) in
          feeData ← feeData;
          let gasPrice := default (default 0 (gasPrice feeData)) (maxFeePerGas feeData) in
          let gasCost := bufferedGasLimit * gasPrice in
          let totalCost := igpCost + gasCost + tokenFeeCost in
          Ok {| igpCost := igpCost; gasCost := gasCost; tokenFeeCost := tokenFeeCost;
                totalCost := totalCost;
                maxTransferable := max_after_costs availableInventory totalCost requestedAmount;
                minViableTransfer := totalCost * MIN_VIABLE_COST_MULTIPLIER |}
  end.

(** ** Facts *)

(** The bounds every caller relies on, whatever the outside answers. *)
Record costs_ok (native : bool) (available requested : Z) (c : TransferCostEstimate) : Prop := {
  co_total : totalCost c = igpCost c + gasCost c + tokenFeeCost c;
  co_viable : minViableTransfer c = 2 * totalCost c;
  co_max : maxTransferable c =
    if native then (if available <=? totalCost c then 0
                    else Z.min (available - totalCost c) requested)
    else Z.min available requested;
  co_free : native = false -> totalCost c = 0
}.

Lemma max_after_costs_eq a t r :
  max_after_costs a t r = if a <=? t then 0 else Z.min (a - t) r.
Proof. unfold max_after_costs. destruct (Z.leb_spec a t); [done|]. destruct (Z.ltb_spec (a - t) r); lia. Qed.

Lemma calculateTransferCosts_ok chain token domain quote protocol estimate fee a r c :
  calculateTransferCosts chain (Some token) domain quote protocol estimate fee a r = Ok c ->
  costs_ok (isNativeTokenStandard (tok_standard token)) a r c.
Proof.
  unfold calculateTransferCosts. intros (_ & _ & (q & _ & H)%result_bind_ok)%result_bind_ok.
  destruct (isNativeTokenStandard (tok_standard token)); cbn [negb] in H; cycle 1.
  { injection H as <-. split; cbn; try lia. destruct (Z.ltb_spec a r); lia. }
  apply result_bind_ok in H as (p & _ & H).
  destruct (isEVMLike p); cbn [negb] in H; [apply result_bind_ok in H as (f & _ & H)|];
    injection H as <-; split; cbn; try apply max_after_costs_eq; unfold MIN_VIABLE_COST_MULTIPLIER; lia || done.
Qed.

(** Costs are not negative when nothing the outside reports is. *)
Lemma calculateTransferCosts_nonneg chain token domain quote protocol estimate fee a r c :
  calculateTransferCosts chain token domain quote protocol estimate fee a r = Ok c ->
  (forall q, quote = Ok q ->
     0 <= q_amount (igpQuote q) /\ forall f, tokenFeeQuote q = Some f -> 0 <= q_amount f) ->
  (forall g, estimate = Ok g -> 0 <= g) ->
  (forall f, fee = Ok f -> 0 <= default 0 (maxFeePerGas f) /\ 0 <= default 0 (gasPrice f)) ->
  0 <= totalCost c.
Proof.
  intros H Hq Hg Hf. destruct token as [token|]; [|done]. unfold calculateTransferCosts in H.
  apply result_bind_ok in H as (_ & _ & (q & -> & H)%result_bind_ok).
  destruct (Hq q eq_refl) as [Higp Hfee].
  assert (0 <= native_token_fee (tokenFeeQuote q)) as Htf.
  { unfold native_token_fee. destruct (tokenFeeQuote q); [|done]. specialize (Hfee _ eq_refl).
    repeat case_match; lia. }
  destruct (isNativeTokenStandard _); cbn [negb] in H; [|injection H as <-; cbn; lia].
  apply result_bind_ok in H as (p & _ & H).
  destruct (isEVMLike p); cbn [negb] in H; [|injection H as <-; cbn; lia].
  apply result_bind_ok in H as (f & -> & [= <-]). cbn.
  assert (0 <= addBufferToGasLimit (match estimate with Ok g => g
    | Throw _ => FALLBACK_TRANSFER_REMOTE_GAS_LIMIT end)) as Hlimit.
  { unfold addBufferToGasLimit, DEFAULT_GAS_LIMIT_BUFFER_PERCENT. apply Z.quot_pos; [|lia].
    destruct estimate as [g|]; [specialize (Hg _ eq_refl); lia|]. unfold FALLBACK_TRANSFER_REMOTE_GAS_LIMIT. lia. }
  destruct (Hf f eq_refl) as [Hm Hp]. destruct (maxFeePerGas f); cbn in *; nia.
Qed.

(** With costs that are not negative, what [calculateTransferCosts] lets be transferred
    never exceeds the amount asked for nor, together with the costs of a native token, the
    inventory at hand; it is nothing only when the costs leave nothing (or nothing is asked);
    and the least viable transfer is twice the total cost. *)
Theorem transfer_costs_within_budget chain token domain quote protocol estimate fee a r c :
  calculateTransferCosts chain (Some token) domain quote protocol estimate fee a r = Ok c ->
  0 <= totalCost c -> 0 <= a -> 0 <= r ->
  let native := isNativeTokenStandard (tok_standard token) in
  0 <= maxTransferable c <= r /\ maxTransferable c <= a /\
  (native = true -> maxTransferable c = 0 \/ maxTransferable c + totalCost c <= a) /\
  (native = false -> totalCost c = 0) /\
  (maxTransferable c = r \/ maxTransferable c = Z.max 0 (a - totalCost c)) /\
  minViableTransfer c = 2 * totalCost c.
Proof.
  intros [Ht Hv Hm Hf]%calculateTransferCosts_ok H0 Ha Hr native. subst native. rewrite Hv, Hm.
  destruct (isNativeTokenStandard _).
  - destruct (Z.leb_spec a (totalCost c)); split_and!; try done; lia.
  - rewrite Hf by done. split_and!; try done; lia.
Qed.

Lemma transfer_costs_within_budget_witness :
  let token := {| tok_chainName := "a"; tok_standard := EvmHypNative; tok_decimals := 18;
    tok_scale := None; tok_addressOrDenom := "0x01"; tok_collateralAddressOrDenom := None |} in
  let quote := {| igpQuote := {| q_addressOrDenom := None; q_amount := 100 |};
    tokenFeeQuote := Some {| q_addressOrDenom := Some "0x0000"; q_amount := 50 |} |} in
  exists c, calculateTransferCosts "a" (Some token) (Ok 1) (Ok quote) (Ok PEthereum)
      (Throw (Error "cannot estimate")) (Ok {| maxFeePerGas := Some 2; gasPrice := None |})
      1000000 900000 = Ok c /\
    totalCost c = 660150 /\ maxTransferable c = 339850 /\
    maxTransferable c <= 900000.
Proof.
  intros token quote. eexists. split; [vm_compute; reflexivity|]. split; [done|]. split; [done|].
  apply (transfer_costs_within_budget "a" token (Ok 1) (Ok quote) (Ok PEthereum)
      (Throw (Error "cannot estimate")) (Ok {| maxFeePerGas := Some 2; gasPrice := None |})
      1000000 900000); [vm_compute; reflexivity|cbn; lia..].
Defined.
