(* ===== verification/InventoryRebalancer.v ===== *)
(** The inventory rebalancer, rebalancer/src/core/InventoryRebalancer.ts: it fills the deficit
    of a chain from the operator's own inventory, by a transferRemote from the deficit chain
    when the inventory is there, else by bridging inventory to it. Calls to the outside are
    answered by the class [Chains] at the number of calls made before; parallel bridge
    movements, each on a chain of its own, are run in the order they are started. *)
From Stdlib Require Import ZArith Lia String.
From stdpp Require Import base tactics list gmap strings pretty.
From S2P Require Import Prelude JsMap Addresses Amount Token Route Config Bytes Messages.
From S2P Require Import BaseStrategy BlockTag Store ActionTracker ErrorGraph Gas.

#[local] Open Scope Z_scope.

Definition BRIDGE_BUFFER_PERCENT : Z := 5.
Definition GAS_COST_MULTIPLIER : Z := 20.
Definition MAX_GAS_PERCENT_THRESHOLD : Z := 10.

(** ** The outside *)

(** [BridgeQuoteParams], at what the rebalancer varies: exactly one amount is given. *)
Inductive QuoteAmount : Type := FromAmount (amount : Z) | ToAmount (amount : Z).

Record BridgeQuoteParams : Type := {
  bq_fromChain : Z; bq_toChain : Z; bq_fromToken : string; bq_toToken : string;
  bq_amount : QuoteAmount; bq_fromAddress : string; bq_toAddress : string
}.

Record BridgeQuote : Type := {
  fromAmount : Z; toAmount : Z; toAmountMin : Z; gasCosts : Z; bq_route : string
}.

(** A transaction of WarpCore; only whether it is the transfer itself is read. *)
Record WarpTx : Type := { tx_is_transfer : bool; tx_data : string }.

(** [getMaxTransferAmount] throws values that are searched for their causes. *)
Inductive MaxTransferAnswer : Type :=
| MaxTransfer (amount : Z)
| MaxTransferThrows (objects : list ErrorObject) (error : JsValue) (e : exn).

Class Chains : Type := {
  c_domainId : string -> result Z;
  c_chainId : string -> result Z;
  c_chainName : Z -> result string;
  (** the protocol in the metadata of the chain, if any *)
  c_metadata : string -> result (option (option ProtocolType));
  c_getProtocol : string -> result ProtocolType;
  c_quoteTransferRemoteGas : nat -> string -> Z -> string -> Z -> result InterchainGasQuote;
  c_estimateGas : nat -> string -> string -> string -> result Z;
  c_getFeeData : nat -> string -> result FeeData;
  c_getMaxTransferAmount : nat -> string -> Z -> string -> string -> string -> MaxTransferAnswer;
  c_getTransferRemoteTxs : nat -> string -> Z -> string -> string -> string -> result (list WarpTx);
  c_solanaKey : string -> result unit;
  c_sendAndConfirm : nat -> string -> WarpTx -> result string;
  c_dispatchedMessageId : nat -> string -> string -> result (option string);
  c_nativeTokenAddress : ExternalBridgeType -> option string;
  c_bridgeQuote : nat -> ExternalBridgeType -> BridgeQuoteParams -> result BridgeQuote;
  c_bridgeExecute : nat -> ExternalBridgeType -> BridgeQuote -> result string
}.

(** ** Configuration and state *)

Record InventorySignerConfig : Type := { sg_address : string; sg_key : option string }.

Record InventoryRebalancerConfig : Type := {
  inventorySigners : list (ProtocolType * InventorySignerConfig);
  inventoryChains : list string;
  (** the tokens of WarpCore and the bridges of the registry *)
  warp_tokens : list Token;
  externalBridgeRegistry : list ExternalBridgeType
}.

Record InventoryRebalancer : Type := {
  actionTracker : ActionTracker;
  inventoryBalances : list (string * Z);
  consumedInventory : list (string * Z);
  (** no field of the class: the synchronizations of the shared tracker that are left running *)
  pendingSyncs : list (job ActionTracker)
}.

Definition with_tracker (s : InventoryRebalancer) (t : ActionTracker) : InventoryRebalancer := {|
  actionTracker := t; inventoryBalances := inventoryBalances s;
  consumedInventory := consumedInventory s; pendingSyncs := pendingSyncs s |}.
Definition with_consumed (s : InventoryRebalancer) (c : list (string * Z))
    : InventoryRebalancer := {|
  actionTracker := actionTracker s; inventoryBalances := inventoryBalances s;
  consumedInventory := c; pendingSyncs := pendingSyncs s |}.
Definition with_pending (s : InventoryRebalancer) (jobs : list (job ActionTracker))
    : InventoryRebalancer := {|
  actionTracker := actionTracker s; inventoryBalances := inventoryBalances s;
  consumedInventory := consumedInventory s; pendingSyncs := jobs |}.

Record InventoryRoute : Type := {
  nr_origin : string; nr_destination : string; nr_amount : Z;
  nr_externalBridge : option ExternalBridgeType
}.

Record InventoryExecutionResult : Type := {
  xr_route : InventoryRoute;
  xr_success : bool;
  xr_error : option string;
  xr_reason : option string;
  xr_amountSent : option Z
}.

Definition succeeded (route : InventoryRoute) (amountSent : option Z) : InventoryExecutionResult := {|
  xr_route := route; xr_success := true; xr_error := None; xr_reason := None;
  xr_amountSent := amountSent |}.
Definition failed (route : InventoryRoute) (error : string) : InventoryExecutionResult := {|
  xr_route := route; xr_success := false; xr_error := Some error; xr_reason := None;
  xr_amountSent := None |}.

(** [(error as Error).message]. *)
Definition exn_message (e : exn) : string :=
  match e with Error m | TypeError m | RangeError m | SyntaxError m => m end.

(** ** Bridge plans *)

Inductive BridgeQuoteMode : Type := forward | reverse.

Record BridgeCapacity : Type := { maxSourceInput : Z; maxTargetOutput : Z }.

Record ViableSource : Type := { vs_chain : string; vs_capacity : BridgeCapacity }.

Record BridgePlan : Type := {
  bp_chain : string; bp_maxSourceInput : Z; bp_targetOutput : Z; bp_quoteMode : BridgeQuoteMode
}.

Definition no_capacity : BridgeCapacity := {| maxSourceInput := 0; maxTargetOutput := 0 |}.

Definition by_target_output_desc (a b : ViableSource) : Z :=
  if maxTargetOutput (vs_capacity b) <? maxTargetOutput (vs_capacity a) then -1 else 1.

(** The loop that spreads the target over the sources, from what is planned already. *)
Fixpoint planBridges (targetWithBuffer totalPlanned : Z) (viableSources : list ViableSource)
    : list BridgePlan :=
  match viableSources with
  | [] => []
  | source :: rest =>
      if targetWithBuffer <=? totalPlanned then []
      else
        let remaining := targetWithBuffer - totalPlanned in
        let capacity := maxTargetOutput (vs_capacity source) in
        let targetOutput := if remaining <=? capacity then remaining else capacity in
        {| bp_chain := vs_chain source; bp_maxSourceInput := maxSourceInput (vs_capacity source);
           bp_targetOutput := targetOutput;
           bp_quoteMode := if remaining <? capacity then reverse else forward |}
        :: planBridges targetWithBuffer (totalPlanned + targetOutput) rest
  end.

(** [((shortfall + totalCost) * (100n + BRIDGE_BUFFER_PERCENT)) / 100n]. *)
Definition bridge_target (requestedLocalAmount availableInventory totalCost : Z) : Z :=
  let shortfall := if availableInventory <? requestedLocalAmount
                   then requestedLocalAmount - availableInventory else 0 in
  Z.quot ((shortfall + totalCost) * (100 + BRIDGE_BUFFER_PERCENT)) 100.

(** What a movement returns when it does not throw. *)
Inductive MovementResult : Type :=
| MovementDone (txHash : string) (inputRequired quotedOutput quotedOutputMin : Z)
    (quoteModeUsed : BridgeQuoteMode)
| MovementFailed (error : string).

Notation inv := (eff InventoryRebalancer).

Section inventory_rebalancer.
Context `{World} `{Chains} (config : InventoryRebalancerConfig).

(** ** Lookups *)

(** An operation of the tracker, and one call to the outside. *)
Definition track {A} (m : tracker A) : inv A := fun s =>
  (with_tracker s (fst (m (actionTracker s))), snd (m (actionTracker s))).
Definition asks {A} (answer : nat -> A) : inv A := track (ask answer).

Definition bridge_name (type : option ExternalBridgeType) : string :=
  match type with Some LiFi => "lifi" | None => "undefined" end.

Definition getExternalBridge (type : option ExternalBridgeType) : result ExternalBridgeType :=
  match type with
  | Some bridge =>
      if bool_decide (bridge ∈ externalBridgeRegistry config) then Ok bridge
      else Throw (Error ("Bridge type '" +:+ bridge_name type +:+ "' not found in registry"))
  | None => Throw (Error ("Bridge type '" +:+ bridge_name type +:+ "' not found in registry"))
  end.

Definition getNativeTokenAddress (type : option ExternalBridgeType) : result string :=
  bridge ← getExternalBridge type;
  match c_nativeTokenAddress bridge with
  | Some (String _ _ as addr) => Ok addr
  | _ => Throw (Error ("Bridge '" +:+ bridge_name type
                         +:+ "' does not support getNativeTokenAddress()"))
  end.

(** The constructor's check: no synthetic token on an inventory chain. *)
Fixpoint validateCollateralBackedTokens (tokens : list Token) : result unit :=
  match tokens with
  | [] => Ok ()
  | token :: rest =>
      if negb (bool_decide (tok_chainName token ∈ inventoryChains config))
      then validateCollateralBackedTokens rest
      else if negb (bool_decide (tok_standard token ∈ TOKEN_COLLATERALIZED_STANDARDS))
      then Throw (Error ("InventoryRebalancer cannot be used with synthetic token on chain "
                           +:+ tok_chainName token))
      else validateCollateralBackedTokens rest
  end.

Definition getTokenForChain (chainName : string) : option Token :=
  List.find (fun t => bool_decide (tok_chainName t = chainName)) (warp_tokens config).

Definition getProtocolForChain (chainName : string) : result ProtocolType :=
  metadata ← c_metadata chainName;
  match metadata with
  | None => Throw (Error ("No chain metadata found for chain " +:+ chainName))
  | Some None => Throw (Error ("No protocol type in metadata for chain " +:+ chainName))
  | Some (Some protocol) => Ok protocol
  end.

Definition getInventorySignerAddress (chainName : string) : result string :=
  protocol ← getProtocolForChain chainName;
  match sg_address <$> map_get protocol (inventorySigners config) with
  | Some (String _ _ as address) => Ok address
  | _ => Throw (Error ("Missing inventory signer address (chain " +:+ chainName +:+ ")"))
  end.

(** The key of a protocol's signer, when it is there and not empty. *)
Definition signer_key (protocol : ProtocolType) : option string :=
  match map_get protocol (inventorySigners config) ≫= sg_key with
  | Some (String _ _ as key) => Some key
  | _ => None
  end.

Definition require_token (chain message : string) : result Token :=
  match getTokenForChain chain with
  | Some token => Ok token
  | None => Throw (Error (message +:+ chain))
  end.

(** ** Balances *)

Definition setInventoryBalances (balances : list (string * Z)) : inv unit :=
  modify (fun s => {| actionTracker := actionTracker s; inventoryBalances := balances;
                      consumedInventory := consumedInventory s; pendingSyncs := pendingSyncs s |}).

Definition getAvailableInventory (chain : string) (s : InventoryRebalancer) : Z :=
  default 0 (map_get chain (inventoryBalances s)).

Definition consumed (chain : string) (s : InventoryRebalancer) : Z :=
  default 0 (map_get chain (consumedInventory s)).

Definition getEffectiveAvailableInventory (chain : string) (s : InventoryRebalancer) : Z :=
  let cached := getAvailableInventory chain s in
  if consumed chain s <? cached then cached - consumed chain s else 0.

Definition consume (chain : string) (amount : Z) : inv unit :=
  modify (fun s => with_consumed s
    (map_set chain (consumed chain s + amount) (consumedInventory s))).

Definition by_amount_desc (a b : string * Z) : Z := if snd b <? snd a then -1 else 1.

(** One chain as a source, if it is another one and has inventory left. *)
Definition source_of (targetChain : string) (s : InventoryRebalancer) (entry : string * Z)
    : option (string * Z) :=
  let '(chainName, balance) := entry in
  if bool_decide (chainName = targetChain) then None
  else
    let effectiveAvailable :=
      if consumed chainName s <? balance then balance - consumed chainName s else 0 in
    if 0 <? effectiveAvailable then Some (chainName, effectiveAvailable) else None.

Definition selectAllSourceChains (targetChain : string) (s : InventoryRebalancer)
    : list (string * Z) :=
  js_sort by_amount_desc (omap (source_of targetChain s) (inventoryBalances s)).

(** ** transferRemote *)

Definition buildSignerAccountConfig (protocol : ProtocolType) (key : string) : result unit :=
  match protocol with
  | PTron | PEthereum => Ok ()
  | PSealevel => c_solanaKey key
  | _ => Throw (Error "Unsupported protocol for inventory signer")
  end.

Definition sendAndConfirmInventoryTx (chain : string) (tx : WarpTx) : inv string :=
  protocol ← lift (getProtocolForChain chain);
  match signer_key protocol with
  | None => throw (Error ("Missing signer key (chain " +:+ chain +:+ ")"))
  | Some key =>
      _ ← lift (buildSignerAccountConfig protocol key);
      txHash ← asks (fun k => c_sendAndConfirm k chain tx);
      lift txHash
  end.

(** The loop over the transactions; the hash of the last transfer is kept. *)
Fixpoint send_all (chain : string) (txs : list WarpTx) (transferTxHash : option string)
    : inv (option string) :=
  match txs with
  | [] => mret transferTxHash
  | tx :: rest =>
      txHash ← sendAndConfirmInventoryTx chain tx;
      send_all chain rest (if tx_is_transfer tx then Some txHash else transferTxHash)
  end.

Definition executeTransferRemote (route : InventoryRoute) (intent : RebalanceIntent)
    (fulfilledCanonicalAmount : Z) : inv InventoryExecutionResult :=
  let origin := nr_origin route in
  let destination := nr_destination route in
  let amount := nr_amount route in
  _ ← lift (require_token origin "No token found for origin chain: ");
  destinationDomain ← lift (c_domainId destination);
  sender ← lift (getInventorySignerAddress origin);
  recipient ← lift (getInventorySignerAddress destination);
  transferTxs ← asks (fun k => c_getTransferRemoteTxs k origin amount destination sender recipient);
  transferTxs ← lift transferTxs;
  _ ← lift (js_assert (negb (bool_decide (transferTxs = [])))
              "Expected at least one transaction from WarpCore");
  transferTxHash ← send_all origin transferTxs None;
  messageId ← match transferTxHash with
              | Some (String _ _ as hash) =>
                  id ← asks (fun k => c_dispatchedMessageId k origin hash); lift id
              | _ => mret None
              end;
  match transferTxHash with
  | Some (String _ _ as hash) =>
      originDomain ← lift (c_domainId origin);
      _ ← track (createRebalanceAction {|
        ap_intentId := i_id intent; ap_origin := originDomain;
        ap_destination := destinationDomain; ap_amount := fulfilledCanonicalAmount;
        ap_type := inventory_deposit; ap_messageId := messageId; ap_txHash := Some hash;
        ap_externalBridgeTransferId := None; ap_externalBridgeId := None |});
      mret (succeeded route (Some amount))
  | _ => throw (Error "No transfer transaction hash found")
  end.

(** ** Bridge movements *)

Definition bridge_params (sourceChain targetChain fromToken toToken : string) (fromId toId : Z)
    (amount : QuoteAmount) : result BridgeQuoteParams :=
  fromAddress ← getInventorySignerAddress sourceChain;
  toAddress ← getInventorySignerAddress targetChain;
  Ok {| bq_fromChain := fromId; bq_toChain := toId; bq_fromToken := fromToken;
        bq_toToken := toToken; bq_amount := amount; bq_fromAddress := fromAddress;
        bq_toAddress := toAddress |}.

Definition quote (bridge : ExternalBridgeType) (params : result BridgeQuoteParams)
    : inv BridgeQuote :=
  params ← lift params;
  answer ← asks (fun k => c_bridgeQuote k bridge params);
  lift answer.

Definition calculateBridgeCapacity (sourceChain targetChain : string) (rawInventory : Z)
    (type : option ExternalBridgeType) : inv BridgeCapacity :=
  sourceToken ← lift (require_token sourceChain "No token found for source chain: ");
  targetToken ← lift (require_token targetChain "No token found for target chain: ");
  fromToken ← lift (getExternalBridgeTokenAddress sourceToken type getNativeTokenAddress);
  toToken ← lift (getExternalBridgeTokenAddress targetToken type getNativeTokenAddress);
  sourceChainId ← lift (c_chainId sourceChain);
  targetChainId ← lift (c_chainId targetChain);
  let params := bridge_params sourceChain targetChain fromToken toToken sourceChainId
                  targetChainId in
  try_catch
    (bridge ← lift (getExternalBridge type);
     initialQuote ← quote bridge (params (FromAmount rawInventory));
     if isNativeTokenStandard (tok_standard sourceToken) then
       let estimatedGas := gasCosts initialQuote * GAS_COST_MULTIPLIER in
       let maxGasThreshold := Z.quot rawInventory MAX_GAS_PERCENT_THRESHOLD in
       if maxGasThreshold <? estimatedGas then mret no_capacity
       else
         let input := rawInventory - estimatedGas in
         if input <=? 0 then mret no_capacity
         else
           outputQuote ← quote bridge (params (FromAmount input));
           mret {| maxSourceInput := input; maxTargetOutput := toAmountMin outputQuote |}
     else mret {| maxSourceInput := rawInventory; maxTargetOutput := toAmountMin initialQuote |})
    (fun _ => mret no_capacity).

(** The quote executed: a reverse one that needs too much is replaced by a forward one. *)
Definition movement_quote (bridge : ExternalBridgeType)
    (params : QuoteAmount -> result BridgeQuoteParams) (targetOutputAmount maxInput : Z)
    (quoteMode : BridgeQuoteMode) : inv (BridgeQuoteMode * BridgeQuote) :=
  match quoteMode with
  | forward => q ← quote bridge (params (FromAmount maxInput)); mret (forward, q)
  | reverse =>
      q ← quote bridge (params (ToAmount targetOutputAmount));
      if maxInput <? fromAmount q
      then q ← quote bridge (params (FromAmount maxInput)); mret (forward, q)
      else mret (reverse, q)
  end.

Definition executeInventoryMovement (targetChain : string) (plan : BridgePlan)
    (intent : RebalanceIntent) (type : option ExternalBridgeType) : inv MovementResult :=
  let sourceChain := bp_chain plan in
  match getTokenForChain sourceChain, getTokenForChain targetChain with
  | None, _ => mret (MovementFailed ("No token found for source chain: " +:+ sourceChain))
  | _, None => mret (MovementFailed ("No token found for target chain: " +:+ targetChain))
  | Some sourceToken, Some targetToken =>
      sourceChainId ← lift (c_chainId sourceChain);
      targetChainId ← lift (c_chainId targetChain);
      fromToken ← lift (getExternalBridgeTokenAddress sourceToken type getNativeTokenAddress);
      toToken ← lift (getExternalBridgeTokenAddress targetToken type getNativeTokenAddress);
      try_catch
        (bridge ← lift (getExternalBridge type);
         '(quoteModeUsed, q) ← movement_quote bridge
           (bridge_params sourceChain targetChain fromToken toToken sourceChainId targetChainId)
           (bp_targetOutput plan) (bp_maxSourceInput plan) (bp_quoteMode plan);
         let inputRequired := fromAmount q in
         if bp_maxSourceInput plan <? inputRequired then
           mret (MovementFailed ("Bridge input " +:+ pretty inputRequired
                   +:+ " exceeded planned source capacity " +:+ pretty (bp_maxSourceInput plan)))
         else
           sourceProtocol ← lift (getProtocolForChain sourceChain);
           match signer_key sourceProtocol with
           | None => throw (Error ("Missing inventory signer key (chain " +:+ sourceChain +:+ ")"))
           | Some _ =>
               txHash ← asks (fun k => c_bridgeExecute k bridge q);
               txHash ← lift txHash;
               originDomain ← lift (c_domainId sourceChain);
               destinationDomain ← lift (c_domainId targetChain);
               _ ← track (createRebalanceAction {|
                 ap_intentId := i_id intent; ap_origin := originDomain;
                 ap_destination := destinationDomain; ap_amount := inputRequired;
                 ap_type := inventory_movement; ap_messageId := None; ap_txHash := Some txHash;
                 ap_externalBridgeTransferId := None; ap_externalBridgeId := type |});
               _ ← consume sourceChain inputRequired;
               mret (MovementDone txHash inputRequired (toAmount q) (toAmountMin q) quoteModeUsed)
           end)
        (fun e => mret (MovementFailed (exn_message e)))
  end.

(** ** Executing a route *)

(** What can be sent from the deficit chain: of a token that is not native, what WarpCore says
    after fees; a probe that fails for want of balance counts as nothing. *)
Definition max_transferable (route : InventoryRoute) (sourceToken : Token)
    (availableInventory requestedLocalAmount costMax : Z) (sender recipient : string) : inv Z :=
  if isNativeTokenStandard (tok_standard sourceToken) then mret costMax
  else if availableInventory =? 0 then mret 0
  else
    answer ← asks (fun k => c_getMaxTransferAmount k (nr_destination route) availableInventory
                              (nr_origin route) sender recipient);
    match answer with
    | MaxTransfer amount =>
        mret (if amount <? requestedLocalAmount then amount else requestedLocalAmount)
    | MaxTransferThrows objects error e =>
        if isRecoverableMaxTransferProbeError objects error then mret 0 else throw e
    end.

Fixpoint viable_sources (destination : string) (type : option ExternalBridgeType)
    (sources : list (string * Z)) : inv (list ViableSource) :=
  match sources with
  | [] => mret []
  | (chain, availableAmount) :: rest =>
      capacity ← calculateBridgeCapacity chain destination availableAmount type;
      more ← viable_sources destination type rest;
      mret (if 0 <? maxTargetOutput capacity
            then {| vs_chain := chain; vs_capacity := capacity |} :: more else more)
  end.

(** A settled movement, as [Promise.allSettled] reports it. *)
Definition settle (m : inv MovementResult) : inv MovementResult :=
  try_catch m (fun e => mret (MovementFailed (exn_message e))).

Fixpoint run_plans (destination : string) (intent : RebalanceIntent)
    (type : option ExternalBridgeType) (plans : list BridgePlan)
    : inv (list (BridgePlan * MovementResult)) :=
  match plans with
  | [] => mret []
  | plan :: rest =>
      r ← settle (executeInventoryMovement destination plan intent type);
      more ← run_plans destination intent type rest;
      mret ((plan, r) :: more)
  end.

Definition movement_succeeded (r : BridgePlan * MovementResult) : bool :=
  match snd r with MovementDone _ _ _ _ _ => true | MovementFailed _ => false end.

Definition failed_error (r : BridgePlan * MovementResult) : option string :=
  match snd r with
  | MovementFailed (String _ _ as error) => Some (bp_chain (fst r) +:+ ": " +:+ error)
  | _ => None
  end.

Definition all_failed_message (results : list (BridgePlan * MovementResult)) : string :=
  "All inventory movements failed" +:+
  match omap failed_error results with
  | [] => EmptyString
  | errors => " (" +:+ String.concat "; " errors +:+ ")"
  end.

(** Moving inventory to the deficit chain; the deposit follows in a later cycle. *)
Definition bridge_inventory (route : InventoryRoute) (intent : RebalanceIntent)
    (requestedLocalAmount availableInventory totalCost : Z) : inv InventoryExecutionResult :=
  let destination := nr_destination route in
  allSources ← gets (selectAllSourceChains destination);
  if bool_decide (allSources = []) then
    mret (failed route "No inventory available on any monitored chain")
  else
    viableSources ← viable_sources destination (nr_externalBridge route) allSources;
    let viableSources := js_sort by_target_output_desc viableSources in
    if (length viableSources =? 0)%nat then
      mret (failed route "No viable bridge sources available")
    else
      let bridgePlans :=
        planBridges (bridge_target requestedLocalAmount availableInventory totalCost) 0
          viableSources in
      bridgeResults ← run_plans destination intent (nr_externalBridge route) bridgePlans;
      if existsb movement_succeeded bridgeResults then mret (succeeded route None)
      else mret (failed route (all_failed_message bridgeResults)).

(** The same route in the direction of the transferRemote, with its local amount. *)
Definition swapped (route : InventoryRoute) (localAmount : Z) : InventoryRoute := {|
  nr_origin := nr_destination route; nr_destination := nr_origin route;
  nr_amount := localAmount; nr_externalBridge := nr_externalBridge route |}.

(** [{ ...result, route }]. *)
Definition with_route (route : InventoryRoute) (r : InventoryExecutionResult)
    : InventoryExecutionResult := {|
  xr_route := route; xr_success := xr_success r; xr_error := xr_error r;
  xr_reason := xr_reason r; xr_amountSent := xr_amountSent r |}.

(** The costs of a transferRemote from the destination of the route to its origin. *)
Definition route_costs (route : InventoryRoute) (availableInventory requestedLocalAmount : Z)
    (sender : string) : inv TransferCostEstimate :=
  let source := nr_destination route in
  let domain := c_domainId (nr_origin route) in
  gasQuote ← asks (fun k =>
    d ← domain; c_quoteTransferRemoteGas k source d sender requestedLocalAmount);
  estimate ← asks (fun k => c_estimateGas k source (nr_origin route) sender);
  feeData ← asks (fun k => c_getFeeData k source);
  lift (calculateTransferCosts source (getTokenForChain source) domain gasQuote
          (c_getProtocol source) estimate feeData availableInventory requestedLocalAmount).

Definition executeRoute (route : InventoryRoute) (intent : RebalanceIntent)
    : inv InventoryExecutionResult :=
  let origin := nr_origin route in
  let destination := nr_destination route in
  sourceToken ← lift (require_token destination "No token found for source chain: ");
  requestedLocalAmount ← lift (denormalizeToLocal (nr_amount route) (OfToken sourceToken));
  executionSender ← lift (getInventorySignerAddress destination);
  executionRecipient ← lift (getInventorySignerAddress origin);
  availableInventory ← gets (getEffectiveAvailableInventory destination);
  costs ← route_costs route availableInventory requestedLocalAmount executionSender;
  maxTransferable ← max_transferable route sourceToken availableInventory requestedLocalAmount
                      (maxTransferable costs) executionSender executionRecipient;
  if requestedLocalAmount <? minViableTransfer costs then
    _ ← track (completeRebalanceIntent (i_id intent));
    mret {| xr_route := route; xr_success := true; xr_error := None;
            xr_reason := Some "completed_with_acceptable_loss"%string; xr_amountSent := None |}
  else if requestedLocalAmount <=? maxTransferable then
    fulfilledCanonicalAmount ← lift (normalizeToCanonical requestedLocalAmount (OfToken sourceToken));
    result ← executeTransferRemote (swapped route requestedLocalAmount) intent
               fulfilledCanonicalAmount;
    mret (with_route route result)
  else if (0 <? maxTransferable) && (minViableTransfer costs <=? maxTransferable) then
    aligned ← lift (alignLocalToCanonical maxTransferable (OfToken sourceToken));
    if messageAmount aligned =? 0 then
      bridge_inventory route intent requestedLocalAmount availableInventory (totalCost costs)
    else
      result ← executeTransferRemote (swapped route (localAmount aligned)) intent
                 (messageAmount aligned);
      mret (with_route route result)
  else bridge_inventory route intent requestedLocalAmount availableInventory (totalCost costs).

(** ** The main method *)

(** The [try] block around [executeRoute], with the inventory a deposit consumed. *)
Definition run_route (route : InventoryRoute) (intent : RebalanceIntent)
    : inv (list InventoryExecutionResult) :=
  try_catch
    (result ← executeRoute route intent;
     _ ← match xr_success result, xr_amountSent result with
         | true, Some sent => if sent =? 0 then mret () else consume (nr_destination route) sent
         | _, _ => mret ()
         end;
     mret [result])
    (fun e => mret [failed route (exn_message e)]).

Definition continueIntent (partial : PartialInventoryIntent)
    : inv (list InventoryExecutionResult) :=
  let intent := pi_intent partial in
  origin ← lift (c_chainName (i_origin intent));
  destination ← lift (c_chainName (i_destination intent));
  run_route {| nr_origin := origin; nr_destination := destination;
               nr_amount := pi_remaining partial; nr_externalBridge := i_externalBridge intent |}
            intent.

Definition getActiveInventoryIntent : inv (option PartialInventoryIntent) :=
  partialIntents ← track getPartiallyFulfilledInventoryIntents;
  mret (head partialIntents).

Definition rebalance (routes : list InventoryRoute) : inv (list InventoryExecutionResult) :=
  _ ← modify (fun s => with_consumed s []);
  activeIntent ← getActiveInventoryIntent;
  match activeIntent with
  | Some active =>
      if pi_hasInflightDeposit active then mret [] else continueIntent active
  | None =>
      match routes with
      | [] => mret []
      | route :: _ =>
          origin ← lift (c_domainId (nr_origin route));
          destination ← lift (c_domainId (nr_destination route));
          intent ← track (createRebalanceIntent {|
            ip_origin := origin; ip_destination := destination; ip_amount := nr_amount route;
            ip_bridge := None; ip_priority := None; ip_strategyType := None;
            ip_executionMethod := Some inventory; ip_externalBridge := nr_externalBridge route |});
          run_route route intent
      end
  end.

End inventory_rebalancer.
