(* ===== verification/RouteRelations.v ===== *)
(** Relations between states that the work on one inventory route keeps: it is enough that
    calls to the outside, new actions, completed intents and consumed inventory keep them. *)
From Stdlib Require Import ZArith Lia String.
From stdpp Require Import base tactics list gmap strings.
From S2P Require Import Prelude JsMap Amount Token Route BlockTag Store ActionTracker ErrorGraph Gas.
From S2P Require Import InventoryRebalancer.

#[local] Open Scope Z_scope.

Class RouteRelation `{World} (R : InventoryRebalancer -> InventoryRebalancer -> Prop) : Prop := {
  #[global] rr_preorder :: PreOrder R;
  rr_asks {A} (f : nat -> A) : preserves R (asks f);
  rr_createAction p : preserves R (track (createRebalanceAction p));
  rr_completeIntent id : preserves R (track (completeRebalanceIntent id));
  rr_consume chain amount : preserves R (consume chain amount)
}.

Create HintDb routes.

Ltac route_step :=
  lazymatch goal with
  | |- preserves _ (mbind _ _) => apply preserves_bind; [apply _| |intros ?]
  | |- preserves _ (mret _) => apply preserves_ret; apply _
  | |- preserves _ (lift _) => apply preserves_lift; apply _
  | |- preserves _ (throw _) => apply preserves_throw; apply _
  | |- preserves _ (gets _) => apply preserves_gets; apply _
  | |- preserves _ (consume _ _) => apply rr_consume
  | |- preserves _ (asks _) => apply rr_asks
  | |- preserves _ (try_catch _ _) => apply preserves_try_catch; [apply _| |intros ?]
  | |- preserves _ (mapM _ _) => apply preserves_mapM; [apply _|intros ? _]
  | |- preserves _ (track (createRebalanceAction _)) => apply rr_createAction
  | |- preserves _ (track (completeRebalanceIntent _)) => apply rr_completeIntent
  | |- preserves _ (match ?x with _ => _ end) => destruct x
  | |- preserves _ _ => solve [eauto with routes]
  end.
Ltac route_auto := cbv zeta; repeat route_step.

Section routes.
Context `{World} `{Chains} (config : InventoryRebalancerConfig).
Context (R : InventoryRebalancer -> InventoryRebalancer -> Prop) `{!RouteRelation R}.

Lemma route_send tx chain : preserves R (sendAndConfirmInventoryTx config chain tx).
Proof. unfold sendAndConfirmInventoryTx. route_auto. Qed.
#[local] Hint Resolve route_send : routes.

Lemma route_send_all chain txs h : preserves R (send_all config chain txs h).
Proof. revert h. induction txs as [|tx txs IH]; intros h; cbn [send_all]; route_auto. Qed.
#[local] Hint Resolve route_send_all : routes.

Lemma route_quote bridge params : preserves R (quote bridge params).
Proof. unfold quote. route_auto. Qed.
#[local] Hint Resolve route_quote : routes.

Lemma route_transfer route intent amount :
  preserves R (executeTransferRemote config route intent amount).
Proof. unfold executeTransferRemote. route_auto. Qed.
#[local] Hint Resolve route_transfer : routes.

Lemma route_capacity source target raw type :
  preserves R (calculateBridgeCapacity config source target raw type).
Proof. unfold calculateBridgeCapacity. route_auto. Qed.
#[local] Hint Resolve route_capacity : routes.

Lemma route_viable destination type sources :
  preserves R (viable_sources config destination type sources).
Proof. induction sources as [|[c a] rest IH]; cbn [viable_sources]; route_auto. Qed.
#[local] Hint Resolve route_viable : routes.

Lemma route_movement target plan intent type :
  preserves R (executeInventoryMovement config target plan intent type).
Proof. unfold executeInventoryMovement, movement_quote. route_auto. Qed.
#[local] Hint Resolve route_movement : routes.

Lemma route_plans destination intent type plans :
  preserves R (run_plans config destination intent type plans).
Proof. induction plans as [|p rest IH]; cbn [run_plans]; unfold settle; route_auto. Qed.
#[local] Hint Resolve route_plans : routes.

Lemma preserves_run_route route intent : preserves R (run_route config route intent).
Proof.
  unfold run_route, executeRoute, route_costs, max_transferable, bridge_inventory. route_auto.
Qed.

Lemma preserves_continueIntent partial : preserves R (continueIntent config partial).
Proof.
  unfold continueIntent. pose proof preserves_run_route. 
  do 2 (apply preserves_bind; [apply _|apply preserves_lift, _|intros ?]). auto.
Qed.

End routes.
