(* ===== verification/InventorySamples.v ===== *)
(** A concrete outside of the inventory rebalancer for its examples: two chains with a
    collateral token, a bridge that delivers one for one, a WarpCore that lets the whole
    balance be sent. *)
From Stdlib Require Import ZArith Lia String.
From stdpp Require Import base tactics list gmap strings pretty.
From S2P Require Import Prelude JsMap Amount Token Route Config BaseStrategy Strategies Samples.
From S2P Require Import BlockTag Store ActionTracker TrackerSamples ErrorGraph Gas.
From S2P Require Import InventoryRebalancer.

#[local] Open Scope Z_scope.

Definition sample_domain (chain : string) : result Z :=
  if String.eqb chain "a" then Ok 1 else if String.eqb chain "b" then Ok 2
  else Throw (Error "unknown chain").

Definition sample_bridge_quote (params : BridgeQuoteParams) : BridgeQuote :=
  let amount := match bq_amount params with FromAmount a | ToAmount a => a end in
  {| fromAmount := amount; toAmount := amount; toAmountMin := amount; gasCosts := 1;
     bq_route := "direct" |}.

#[export] Instance sample_chains : Chains := {|
  c_domainId := sample_domain;
  c_chainId := sample_domain;
  c_chainName := sample_chainName;
  c_metadata := fun _ => Ok (Some (Some PEthereum));
  c_getProtocol := fun _ => Ok PEthereum;
  c_quoteTransferRemoteGas := fun _ _ _ _ _ =>
    Ok {| igpQuote := {| q_addressOrDenom := None; q_amount := 1 |}; tokenFeeQuote := None |};
  c_estimateGas := fun _ _ _ _ => Ok 100;
  c_getFeeData := fun _ _ => Ok {| maxFeePerGas := Some 1; gasPrice := None |};
  c_getMaxTransferAmount := fun _ _ balance _ _ _ => MaxTransfer balance;
  c_getTransferRemoteTxs := fun _ _ _ _ _ _ => Ok [{| tx_is_transfer := true; tx_data := "tx" |}];
  c_solanaKey := fun _ => Ok ();
  c_sendAndConfirm := fun _ _ _ => Ok "0xhash"%string;
  c_dispatchedMessageId := fun _ _ _ => Ok (Some "0xm2"%string);
  c_nativeTokenAddress := fun _ => Some "0x0000"%string;
  c_bridgeQuote := fun _ _ params => Ok (sample_bridge_quote params);
  c_bridgeExecute := fun _ _ _ => Ok "0xbridged"%string
|}.

Definition sample_inventory_config : InventoryRebalancerConfig := {|
  inventorySigners := [(PEthereum, {| sg_address := "0xsigner"; sg_key := Some "0xkey"%string |})];
  inventoryChains := ["a"; "b"]%string;
  warp_tokens := map_values sample_tokens;
  externalBridgeRegistry := [LiFi]
|}.

Definition sample_inventory (balances : list (string * Z)) (tracker : ActionTracker)
    : InventoryRebalancer := {|
  actionTracker := tracker; inventoryBalances := balances; consumedInventory := []; pendingSyncs := [] |}.

(** The deficit is on chain b. *)
Definition sample_inventory_route : InventoryRoute := {|
  nr_origin := "a"; nr_destination := "b"; nr_amount := 100; nr_externalBridge := Some LiFi |}.

(** 500 on chain a and nothing on chain b: the deficit is bridged; with 130 on chain b it is
    deposited, with 30 a part of it is. *)
Definition bridging_inventory : InventoryRebalancer :=
  sample_inventory [("a", 500); ("b", 0)]%string empty_tracker.
Definition deposit_inventory : InventoryRebalancer :=
  sample_inventory [("a", 500); ("b", 130)]%string empty_tracker.
Definition partial_inventory : InventoryRebalancer :=
  sample_inventory [("a", 500); ("b", 30)]%string empty_tracker.

Definition cycle (s : InventoryRebalancer) : InventoryRebalancer :=
  fst (rebalance sample_inventory_config [sample_inventory_route] s).

Example bridging_consumes : consumed "a" (cycle bridging_inventory) = 105.
Proof. vm_compute. reflexivity. Qed.
Example deposit_consumes : consumed "b" (cycle deposit_inventory) = 100.
Proof. vm_compute. reflexivity. Qed.
Example partial_consumes : consumed "b" (cycle partial_inventory) = 30.
Proof. vm_compute. reflexivity. Qed.
