(* ===== verification/Triples.v ===== *)
(** Weakest preconditions for stateful code that may throw: [wp m Q s] says that running [m]
    from [s] ends in a state and a result that satisfy [Q]. One rule per construct, and a
    tactic that applies them. *)
From stdpp Require Import base tactics list sets.
From S2P Require Import Prelude.

Definition wp {S A} (m : eff S A) (Q : S -> result A -> Prop) (s : S) : Prop :=
  Q (fst (m s)) (snd (m s)).

(** A postcondition on the values returned only, and one on the states left by a throw. *)
Definition on_ok {S A} (Q : S -> A -> Prop) (E : S -> Prop) (s : S) (r : result A) : Prop :=
  match r with Ok a => Q s a | Throw _ => E s end.

Section rules.
Context {S : Type}.

Lemma wp_mono {A} (m : eff S A) (Q Q' : S -> result A -> Prop) s :
  wp m Q s -> (forall s' r, Q s' r -> Q' s' r) -> wp m Q' s.
Proof. unfold wp. auto. Qed.

Lemma wp_run {A} (m : eff S A) (Q : S -> result A -> Prop) s s' r :
  wp m Q s -> m s = (s', r) -> Q s' r.
Proof. unfold wp. intros H E. by rewrite E in H. Qed.

Lemma wp_ret {A} (a : A) (Q : S -> result A -> Prop) s : Q s (Ok a) -> wp (mret a) Q s.
Proof. done. Qed.

Lemma wp_bind {A B} (m : eff S A) (f : A -> eff S B) (Q : S -> result B -> Prop) s :
  wp m (fun s' r => match r with Ok a => wp (f a) Q s' | Throw e => Q s' (Throw e) end) s ->
  wp (m ≫= f) Q s.
Proof. unfold wp. rewrite eff_bind_run. by destruct (m s) as [s' [a|e]]. Qed.

Lemma wp_gets {A} (f : S -> A) (Q : S -> result A -> Prop) s : Q s (Ok (f s)) -> wp (gets f) Q s.
Proof. done. Qed.

Lemma wp_modify (f : S -> S) (Q : S -> result unit -> Prop) s :
  Q (f s) (Ok ()) -> wp (modify f) Q s.
Proof. done. Qed.

Lemma wp_throw {A} e (Q : S -> result A -> Prop) s : Q s (Throw e) -> wp (throw e) Q s.
Proof. done. Qed.

Lemma wp_lift {A} (r : result A) (Q : S -> result A -> Prop) s :
  (forall a, r = Ok a -> Q s (Ok a)) -> (forall e, r = Throw e -> Q s (Throw e)) -> wp (lift r) Q s.
Proof. unfold wp. destruct r; cbn; auto. Qed.

Lemma wp_try_catch {A} (m : eff S A) (h : exn -> eff S A) (Q : S -> result A -> Prop) s :
  wp m (fun s' r => match r with Ok a => Q s' (Ok a) | Throw e => wp (h e) Q s' end) s ->
  wp (try_catch m h) Q s.
Proof. unfold wp, try_catch. by destruct (m s) as [s' [a|e]]. Qed.

(** A relation that every run keeps holds of the final state. *)
Lemma wp_preserves {A} (R : S -> S -> Prop) (m : eff S A) s :
  preserves R m -> wp m (fun s' _ => R s s') s.
Proof. intros H. apply H. Qed.

Lemma wp_and {A} (m : eff S A) (Q Q' : S -> result A -> Prop) s :
  wp m Q s -> wp m Q' s -> wp m (fun s' r => Q s' r /\ Q' s' r) s.
Proof. done. Qed.

Lemma wp_settled {A} (m : eff S A) (Q : S -> result (result A) -> Prop) s :
  wp m (fun s' r => Q s' (Ok r)) s -> wp (settled m) Q s.
Proof. done. Qed.

Lemma wp_mapM {A B} (I : S -> Prop) (R : A -> B -> Prop) (f : A -> eff S B) xs s :
  I s ->
  (forall x s, x ∈ xs -> I s -> wp (f x) (fun s' r => I s' /\ exists y, r = Ok y /\ R x y) s) ->
  wp (mapM f xs) (fun s' r => I s' /\ exists ys, r = Ok ys /\ Forall2 R xs ys) s.
Proof.
  revert s. induction xs as [|x xs IH]; intros s Hs Hf; cbn.
  { apply wp_ret. split; [done|]. exists []. split; [done|constructor]. }
  apply wp_bind. eapply wp_mono; [apply Hf; [set_solver|done]|].
  intros s1 r [Hs1 (y & -> & Hy)]. apply wp_bind.
  eapply wp_mono; [apply IH; [done|intros; apply Hf; [set_solver|done]]|].
  intros s2 r [Hs2 (ys & -> & Hys)]. apply wp_ret. split; [done|].
  exists (y :: ys). split; [done|by constructor].
Qed.

End rules.

#[global] Arguments wp : simpl never.

(** One step by the rule of the head construct; [wp_step] stops at the operations that have
    a lemma of their own. *)
Ltac wp_step :=
  lazymatch goal with
  | |- wp (mbind _ _) _ _ => apply wp_bind
  | |- wp (mret _) _ _ => apply wp_ret
  | |- wp (eff_bind _ _ _ _) _ _ => apply wp_bind
  | |- wp (gets _) _ _ => apply wp_gets
  | |- wp (modify _) _ _ => apply wp_modify
  | |- wp (throw _) _ _ => apply wp_throw
  | |- wp (lift _) _ _ => apply wp_lift; [intros ? ?|intros ? ?]
  | |- wp (try_catch _ _) _ _ => apply wp_try_catch
  end.
