(* ===== verification/RebalanceFacts.v ===== *)
(** Correctness of the inventory rebalancer: how bridge plans spread a target, that a cycle
    never spends more inventory than there is, that it works on one intent only, and what a
    deposit records. *)
From Stdlib Require Import ZArith Lia String Sorted.
From stdpp Require Import base tactics list gmap strings pretty.
From S2P Require Import Prelude JsMap Addresses Amount Token Route Config Bytes Messages.
From S2P Require Import BaseStrategy BlockTag Store ActionTracker TrackerSamples TrackerFacts.
From S2P Require Import SyncFacts InventoryFacts ErrorGraph Gas InventoryRebalancer Triples.
From S2P Require Import InventorySamples.

#[local] Open Scope Z_scope.

(** ** Bridge plans *)

(** What a plan may ask of its source: no more than the source can deliver, and an exact
    output only when the source has headroom. *)
Definition plan_fits (source : ViableSource) (plan : BridgePlan) : Prop :=
  bp_chain plan = vs_chain source /\
  bp_maxSourceInput plan = maxSourceInput (vs_capacity source) /\
  0 < bp_targetOutput plan <= maxTargetOutput (vs_capacity source) /\
  (bp_quoteMode plan = reverse <-> bp_targetOutput plan < maxTargetOutput (vs_capacity source)).

Definition capacity_of (s : ViableSource) : Z := maxTargetOutput (vs_capacity s).

Lemma planBridges_eq target planned source rest :
  planBridges target planned (source :: rest) =
    if target <=? planned then []
    else
      {| bp_chain := vs_chain source; bp_maxSourceInput := maxSourceInput (vs_capacity source);
         bp_targetOutput := Z.min (target - planned) (capacity_of source);
         bp_quoteMode := if target - planned <? capacity_of source then reverse else forward |}
      :: planBridges target (planned + Z.min (target - planned) (capacity_of source)) rest.
Proof.
  cbn. destruct (target <=? planned); [done|]. unfold capacity_of.
  assert (forall a b, (if a <=? b then a else b) = Z.min a b) as Hm
    by (intros a b; destruct (Z.leb_spec a b); lia).
  by rewrite !Hm.
Qed.

Lemma planBridges_sum target planned sources :
  planned <= target -> Forall (fun s => 0 < capacity_of s) sources ->
  planned + sum_by bp_targetOutput (planBridges target planned sources) =
    Z.min target (planned + sum_by capacity_of sources).
Proof.
  intros Hp Hpos. revert planned Hp. induction Hpos as [|s rest Hs Hpos IH]; intros planned Hp.
  { cbn [planBridges]. rewrite !sum_by_nil. lia. }
  assert (0 <= sum_by capacity_of rest) as Hr.
  { apply sum_by_nonneg. eapply Forall_impl; [exact Hpos|]. cbn. lia. }
  rewrite planBridges_eq, sum_by_cons. destruct (Z.leb_spec target planned).
  - rewrite sum_by_nil. lia.
  - rewrite sum_by_cons. cbn [bp_targetOutput].
    specialize (IH (planned + Z.min (target - planned) (capacity_of s)) ltac:(lia)). lia.
Qed.

Lemma planBridges_fits target planned sources :
  Forall (fun s => 0 < capacity_of s) sources ->
  exists used rest, sources = used ++ rest /\ Forall2 plan_fits used (planBridges target planned sources).
Proof.
  intros Hpos. revert planned. induction Hpos as [|s rest Hs _ IH]; intros planned.
  { exists [], []. split; [done|constructor]. }
  rewrite planBridges_eq. destruct (Z.leb_spec target planned).
  { exists [], (s :: rest). split; [done|constructor]. }
  destruct (IH (planned + Z.min (target - planned) (capacity_of s))) as (used & rest' & -> & Hf).
  exists (s :: used), rest'. split; [done|]. constructor; [|done].
  unfold plan_fits, capacity_of in *. cbn. split_and!; [done|done|lia|lia|].
  destruct (Z.ltb_spec (target - planned) (maxTargetOutput (vs_capacity s))); split; intros; done || lia.
Qed.

Lemma planBridges_reverse_last target planned sources before p q after :
  planBridges target planned sources = before ++ p :: q :: after -> bp_quoteMode p = forward.
Proof.
  revert planned before. induction sources as [|s rest IH]; intros planned before; [by destruct before|].
  rewrite planBridges_eq. destruct (Z.leb_spec target planned); [by destruct before|].
  destruct before as [|p' before]; intros [= Hp Hrest]; [|by eapply IH].
  subst p. cbn. destruct (Z.ltb_spec (target - planned) (capacity_of s)); [|done].
  exfalso. destruct rest as [|s' rest]; [done|]. rewrite planBridges_eq in Hrest.
  destruct (Z.leb_spec target (planned + Z.min (target - planned) (capacity_of s))); [done|lia].
Qed.

(** The bridge plans use the first sources in order, each within its capacity and only
    one each; their outputs add up to the target when the sources cover it and to all the
    sources can deliver otherwise; only the last plan asks for an exact output. *)
Theorem bridge_plans_spread target sources :
  0 <= target -> Forall (fun s => 0 < capacity_of s) sources ->
  let plans := planBridges target 0 sources in
  sum_by bp_targetOutput plans = Z.min target (sum_by capacity_of sources) /\
  (exists used rest, sources = used ++ rest /\ Forall2 plan_fits used plans) /\
  (forall before p q after, plans = before ++ p :: q :: after -> bp_quoteMode p = forward).
Proof.
  intros Ht Hpos plans. split_and!.
  - pose proof (planBridges_sum target 0 sources Ht Hpos). subst plans. lia.
  - by apply planBridges_fits.
  - intros before p q after. apply planBridges_reverse_last.
Qed.

Definition sample_sources : list ViableSource :=
  [{| vs_chain := "a"; vs_capacity := {| maxSourceInput := 90; maxTargetOutput := 80 |} |};
   {| vs_chain := "b"; vs_capacity := {| maxSourceInput := 50; maxTargetOutput := 40 |} |};
   {| vs_chain := "c"; vs_capacity := {| maxSourceInput := 20; maxTargetOutput := 10 |} |}].

Lemma bridge_plans_spread_witness :
  let plans := planBridges 105 0 sample_sources in
  sum_by bp_targetOutput plans = 105 /\ length plans = 2%nat /\
  (forall before p q after, plans = before ++ p :: q :: after -> bp_quoteMode p = forward).
Proof.
  destruct (bridge_plans_spread 105 sample_sources) as (Hsum & _ & Hlast);
    [lia|repeat constructor; cbn; lia|].
  split_and!; [exact Hsum|reflexivity|exact Hlast].
Defined.

(** ** Inventory spent in a cycle *)

(** The amounts and costs the outside reports are not negative, and WarpCore never lets more
    be sent than the balance it was asked about. *)
Class ChainsLaws `{Chains} : Prop := {
  max_transfer_le k chain balance destination sender recipient amount :
    c_getMaxTransferAmount k chain balance destination sender recipient = MaxTransfer amount ->
    amount <= balance;
  bridge_gas_nonneg k bridge params q : c_bridgeQuote k bridge params = Ok q -> 0 <= gasCosts q;
  igp_nonneg k chain domain sender amount q :
    c_quoteTransferRemoteGas k chain domain sender amount = Ok q ->
    0 <= q_amount (igpQuote q) /\ (forall f, tokenFeeQuote q = Some f -> 0 <= q_amount f);
  estimate_nonneg k chain destination sender g :
    c_estimateGas k chain destination sender = Ok g -> 0 <= g;
  fee_nonneg k chain f : c_getFeeData k chain = Ok f ->
    0 <= default 0 (maxFeePerGas f) /\ 0 <= default 0 (gasPrice f)
}.

Section budget.
Context `{World} `{Chains} (config : InventoryRebalancerConfig).

Definition same_inventory (s s' : InventoryRebalancer) : Prop :=
  inventoryBalances s' = inventoryBalances s /\ consumedInventory s' = consumedInventory s.

#[export] Instance same_inventory_preorder : PreOrder same_inventory.
Proof.
  split; [done|]. intros s1 s2 s3 [H1 H2] [H3 H4]. split; congruence.
Qed.

(** Everything consumed was in the inventory. *)
Definition within (s : InventoryRebalancer) : Prop :=
  forall c, consumed c s <= Z.max 0 (getAvailableInventory c s).

Lemma same_consumed s s' c : same_inventory s s' -> consumed c s' = consumed c s.
Proof. intros [_ Hc]. unfold consumed. by rewrite Hc. Qed.

Lemma same_available s s' c :
  same_inventory s s' -> getAvailableInventory c s' = getAvailableInventory c s.
Proof. intros [Hb _]. unfold getAvailableInventory. by rewrite Hb. Qed.

Lemma within_same s s' : same_inventory s s' -> within s -> within s'.
Proof. intros Hs Hw c. rewrite (same_consumed _ _ c Hs), (same_available _ _ c Hs). apply Hw. Qed.

(** *** Operations that leave the inventory alone *)

Lemma preserves_track {A} (m : tracker A) : preserves same_inventory (track m).
Proof. intros s. done. Qed.

Lemma preserves_asks {A} (f : nat -> A) : preserves same_inventory (asks f).
Proof. apply preserves_track. Qed.

Ltac same_step :=
  lazymatch goal with
  | |- preserves _ (mbind _ _) => apply preserves_bind; [apply _| |intros ?]
  | |- preserves _ (mret _) => apply preserves_ret; apply _
  | |- preserves _ (lift _) => apply preserves_lift; apply _
  | |- preserves _ (throw _) => apply preserves_throw; apply _
  | |- preserves _ (gets _) => apply preserves_gets; apply _
  | |- preserves _ (try_catch _ _) => apply preserves_try_catch; [apply _| |intros ?]
  | |- preserves _ (track _) => apply preserves_track
  | |- preserves _ (asks _) => apply preserves_asks
  | |- preserves _ (match ?x with _ => _ end) => destruct x
  | |- preserves _ _ => solve [eauto with inventory]
  end.
Ltac same_auto := cbv zeta; repeat same_step.

Lemma same_send tx chain : preserves same_inventory (sendAndConfirmInventoryTx config chain tx).
Proof. unfold sendAndConfirmInventoryTx. same_auto. Qed.
#[local] Hint Resolve same_send : inventory.

Lemma same_send_all chain txs h : preserves same_inventory (send_all config chain txs h).
Proof. revert h. induction txs as [|tx txs IH]; intros h; cbn [send_all]; same_auto. Qed.
#[local] Hint Resolve same_send_all : inventory.

Lemma same_executeTransferRemote route intent amount :
  preserves same_inventory (executeTransferRemote config route intent amount).
Proof. unfold executeTransferRemote. same_auto. Qed.

Lemma same_quote bridge params : preserves same_inventory (quote bridge params).
Proof. unfold quote. same_auto. Qed.
#[local] Hint Resolve same_quote : inventory.

Lemma same_capacity source target raw type :
  preserves same_inventory (calculateBridgeCapacity config source target raw type).
Proof. unfold calculateBridgeCapacity. same_auto. Qed.

Lemma same_movement_quote bridge params out cap mode :
  preserves same_inventory (movement_quote bridge params out cap mode).
Proof. unfold movement_quote. same_auto. Qed.

Lemma same_max_transferable route token available requested costMax sender recipient :
  preserves same_inventory
    (max_transferable route token available requested costMax sender recipient).
Proof. unfold max_transferable. same_auto. Qed.

Lemma same_route_costs route available requested sender :
  preserves same_inventory (route_costs config route available requested sender).
Proof. unfold route_costs. same_auto. Qed.

Lemma same_viable_sources destination type sources :
  preserves same_inventory (viable_sources config destination type sources).
Proof.
  induction sources as [|[c a] rest IH]; cbn [viable_sources]; same_auto. apply same_capacity.
Qed.

(** A command that leaves the inventory alone, as everything since [s0] did, then the rest. *)
Lemma wp_same s0 {A B} (m : inv A) (f : A -> inv B) Q s :
  same_inventory s0 s -> preserves same_inventory m ->
  (forall s' e, same_inventory s0 s' -> Q s' (Throw e)) ->
  (forall s' a, same_inventory s0 s' -> m s = (s', Ok a) -> wp (f a) Q s') ->
  wp (m ≫= f) Q s.
Proof.
  intros Hs0 Hm He Hf. apply wp_bind. unfold wp at 1. specialize (Hm s).
  destruct (m s) as [s' [a|e]] eqn:E; cbn in *; [apply (Hf s' a)|apply He]; done || by etrans.
Qed.

Lemma wp_asks {A} (f : nat -> A) (Q : InventoryRebalancer -> result A -> Prop) s :
  (forall k s', same_inventory s s' -> Q s' (Ok (f k))) -> wp (asks f) Q s.
Proof. intros HQ. apply HQ. done. Qed.

(** *** Capacities *)

Context `{!ChainsLaws}.

Lemma wp_quote bridge params Q s :
  (forall s' q, 0 <= gasCosts q -> Q s' (Ok q)) -> (forall s' e, Q s' (Throw e)) ->
  wp (quote bridge params) Q s.
Proof.
  intros Hq He. unfold quote. wp_step. wp_step; [|apply He].
  wp_step. apply wp_asks. intros k s' _. apply wp_lift; intros; [|apply He].
  apply Hq. by eapply bridge_gas_nonneg.
Qed.

Lemma capacity_within source target raw type s :
  0 <= raw ->
  wp (calculateBridgeCapacity config source target raw type)
    (on_ok (fun _ cap => maxSourceInput cap <= raw) (fun _ => True)) s.
Proof.
  intros Hraw. unfold calculateBridgeCapacity. do 6 (wp_step; wp_step; [|done]). cbv zeta.
  wp_step. wp_step. wp_step; [|by wp_step]. wp_step. apply wp_quote; [|by intros; wp_step].
  intros s' q Hq. destruct (isNativeTokenStandard _); [|wp_step; cbn; lia].
  destruct (Z.ltb_spec (Z.quot raw MAX_GAS_PERCENT_THRESHOLD) (gasCosts q * GAS_COST_MULTIPLIER));
    [by wp_step|].
  destruct (Z.leb_spec (raw - gasCosts q * GAS_COST_MULTIPLIER) 0); [by wp_step|].
  wp_step. apply wp_quote; [|by intros; wp_step]. intros s'' q' _. wp_step. cbn.
  unfold GAS_COST_MULTIPLIER. lia.
Qed.

(** A viable source delivers something from at most what its chain has. *)
Definition source_within (sources : list (string * Z)) (v : ViableSource) : Prop :=
  0 < capacity_of v /\
  exists a, (vs_chain v, a) ∈ sources /\ maxSourceInput (vs_capacity v) <= a.

Lemma viable_sources_within destination type sources s :
  Forall (fun p => 0 <= snd p) sources ->
  wp (viable_sources config destination type sources)
    (on_ok (fun _ vs => Forall (source_within sources) vs /\ (vs_chain <$> vs) `sublist_of` sources.*1)
       (fun _ => True)) s.
Proof.
  intros Hs. revert s. induction Hs as [|[c a] rest Ha Hs IH]; intros s; cbn [viable_sources].
  { wp_step. split; [constructor|constructor]. }
  wp_step. eapply wp_mono; [by apply capacity_within|].
  intros s' [cap|e] Hcap; [|done]. cbn in Hcap. wp_step. eapply wp_mono; [apply IH|].
  intros s'' [vs|e] Hvs; [|done]. destruct Hvs as [Hw Hsub]. wp_step.
  assert (Forall (source_within ((c, a) :: rest)) vs) as Hw'.
  { eapply Forall_impl; [exact Hw|]. intros v (? & b & Hb & ?). split; [done|]. exists b. set_solver. }
  destruct (Z.ltb_spec 0 (maxTargetOutput cap)); cbn.
  - split; [|by constructor]. constructor; [|done]. split; [done|]. exists a. set_solver.
  - split; [done|by constructor].
Qed.

(** *** Movements *)

(** Only the chain of the plan is charged, and at most the input it was given. *)
Definition spends (chain : string) (cap : Z) (s s' : InventoryRebalancer) : Prop :=
  inventoryBalances s' = inventoryBalances s /\
  forall c, consumed c s' <= consumed c s + (if decide (c = chain) then Z.max 0 cap else 0).

Lemma same_spends chain cap s s' : same_inventory s s' -> spends chain cap s s'.
Proof.
  intros Hs. split; [by apply Hs|]. intros c. rewrite (same_consumed _ _ c Hs). case_decide; lia.
Qed.

Lemma consumed_consume chain amount s c :
  consumed c (with_consumed s
    (map_set chain (consumed chain s + amount) (consumedInventory s))) =
  consumed c s + (if decide (c = chain) then amount else 0).
Proof.
  unfold consumed. cbn. rewrite map_get_set.
  destruct (decide (chain = c)) as [->|Hne]; [by rewrite decide_True|].
  rewrite decide_False by done. lia.
Qed.

Lemma movement_spends target plan intent type s :
  wp (executeInventoryMovement config target plan intent type)
    (fun s' _ => spends (bp_chain plan) (bp_maxSourceInput plan) s s') s.
Proof.
  unfold executeInventoryMovement. cbv zeta.
  destruct (getTokenForChain config (bp_chain plan)); [|wp_step; by apply same_spends].
  destruct (getTokenForChain config target); [|wp_step; by apply same_spends].
  do 4 (wp_step; wp_step; [|by apply same_spends]).
  assert (forall s' (r : result MovementResult), same_inventory s s' ->
    spends (bp_chain plan) (bp_maxSourceInput plan) s s') as Hsame by (intros; by apply same_spends).
  wp_step. apply (wp_same s); [done|same_auto|intros; wp_step; by apply same_spends|].
  intros s1 bridge Hs1 _. apply (wp_same s); [done|by apply same_movement_quote| |].
  { intros. wp_step. by apply same_spends. }
  intros s2 [mode q] Hs2 _. cbv zeta beta iota. clear Hs1 s1.
  destruct (Z.ltb_spec (bp_maxSourceInput plan) (fromAmount q)) as [|Hcap];
    [wp_step; by apply same_spends|].
  wp_step. wp_step; [|wp_step; by apply same_spends].
  destruct (signer_key _ _); [|wp_step; wp_step; by apply same_spends].
  do 5 (apply (wp_same s); [eassumption|same_auto|intros; wp_step; by apply same_spends|];
    intros ? ? ? _).
  match goal with Hs : same_inventory s ?t |- wp _ _ ?t => rename t into s3, Hs into Hs3 end.
  wp_step. unfold consume. wp_step. wp_step. split; [cbn; by apply Hs3|]. intros c.
  rewrite consumed_consume, (same_consumed _ _ c Hs3). case_decide; lia.
Qed.

(** The plans still to run, each on a chain of its own, have room. *)
Definition room (plans : list BridgePlan) (s : InventoryRebalancer) : Prop :=
  Forall (fun p => consumed (bp_chain p) s + Z.max 0 (bp_maxSourceInput p) <=
                   Z.max 0 (getAvailableInventory (bp_chain p) s)) plans.

Lemma run_plans_within destination intent type plans s :
  NoDup (bp_chain <$> plans) -> within s -> room plans s ->
  wp (run_plans config destination intent type plans)
    (fun s' _ => inventoryBalances s' = inventoryBalances s /\ within s') s.
Proof.
  revert s. induction plans as [|plan rest IH]; intros s Hnd Hw Hr; cbn [run_plans].
  { by wp_step. }
  apply NoDup_cons in Hnd as [Hn Hnd]. apply Forall_cons in Hr as [Hp Hr].
  assert (forall s', spends (bp_chain plan) (bp_maxSourceInput plan) s s' ->
    inventoryBalances s' = inventoryBalances s /\ within s' /\ room rest s') as Hspend.
  { intros s' [Hb Hc]. unfold within, room, getAvailableInventory. rewrite Hb. split_and!; [done| |].
    - intros c. specialize (Hc c). specialize (Hw c). unfold getAvailableInventory in Hw, Hp.
      destruct (decide (c = bp_chain plan)) as [->|]; lia.
    - eapply Forall_impl; [apply Forall_forall; intros p Hin; exact (conj Hin
        (proj1 (Forall_forall _ _) Hr p Hin))|].
      cbn. intros p [Hin Hroom]. specialize (Hc (bp_chain p)). rewrite decide_False in Hc.
      + unfold getAvailableInventory in Hroom. lia.
      + intros Heq. apply Hn. rewrite <- Heq. apply list_elem_of_fmap. eauto. }
  wp_step. apply (wp_mono _ (fun s' _ =>
    inventoryBalances s' = inventoryBalances s /\ within s' /\ room rest s')).
  { unfold settle. wp_step. eapply wp_mono; [apply movement_spends|].
    intros s' [r|e] Hs; cbn; [|wp_step]; exact (Hspend s' Hs). }
  intros s' r (Hb & Hw' & Hr'). destruct r as [r|e]; [|done].
  wp_step. eapply wp_mono; [by apply IH|]. intros s'' [more|e] [Hb' Hw'']; cbn.
  - wp_step. split; [congruence|done].
  - split; [congruence|done].
Qed.

(** *** Sources *)

Lemma source_of_some target s e c a :
  source_of target s e = Some (c, a) ->
  c = fst e /\ 0 < a /\ a <= snd e - consumed c s.
Proof.
  destruct e as [c' b]. unfold source_of. case_bool_decide; [done|].
  destruct (Z.ltb_spec (consumed c' s) b); cbn; [|done].
  destruct (Z.ltb_spec 0 (b - consumed c' s)); [|done]. intros [= <- <-]. cbn. split_and!; done || lia.
Qed.

Lemma sources_sublist target s l : (omap (source_of target s) l).*1 `sublist_of` l.*1.
Proof.
  induction l as [|e l IH]; [constructor|]. cbn.
  destruct (source_of target s e) as [[c a]|] eqn:E; cbn; [|by constructor].
  apply source_of_some in E as [-> _]. by constructor.
Qed.

Lemma selectAllSourceChains_within destination s :
  map_wf (inventoryBalances s) ->
  NoDup (selectAllSourceChains destination s).*1 /\
  Forall (fun p => 0 < snd p /\ consumed (fst p) s + snd p <= getAvailableInventory (fst p) s)
    (selectAllSourceChains destination s).
Proof.
  intros Hwf. unfold selectAllSourceChains.
  pose proof (js_sort_perm by_amount_desc (omap (source_of destination s) (inventoryBalances s))) as Hperm.
  split.
  - rewrite Hperm. eapply sublist_NoDup; [exact Hwf|apply sources_sublist].
  - rewrite Hperm. apply Forall_forall. intros [c a] ([c' b] & Hin & Hp)%list_elem_of_omap.
    apply source_of_some in Hp as (Hc & Ha & Hle). cbn in *. subst c'.
    unfold getAvailableInventory. rewrite (map_elem_get _ _ _ Hwf Hin). cbn. lia.
Qed.

Lemma bridge_inventory_within route intent requested available total s :
  map_wf (inventoryBalances s) -> within s ->
  wp (bridge_inventory config route intent requested available total)
    (fun s' r => inventoryBalances s' = inventoryBalances s /\ within s' /\
       (forall res, r = Ok res -> xr_amountSent res = None)) s.
Proof.
  intros Hwf Hw. unfold bridge_inventory. cbv zeta. wp_step. wp_step.
  destruct (selectAllSourceChains_within (nr_destination route) s Hwf) as [Hnd Hall].
  set (sources := selectAllSourceChains (nr_destination route) s) in *.
  case_bool_decide; [wp_step; split_and!; [done..|by intros ? [= <-]]|].
  wp_step. eapply wp_mono.
  { apply wp_and; [apply (wp_preserves same_inventory), same_viable_sources|].
    apply (viable_sources_within _ _ sources). eapply Forall_impl; [exact Hall|]. cbn. lia. }
  intros s1 [vs|e] [Hs1 Hvs]; cbn in Hvs.
  2: { split_and!; [by apply Hs1|by eapply within_same|done]. }
  destruct Hvs as [Hvw Hsub]. pose proof (js_sort_perm by_target_output_desc vs) as Hperm.
  set (sorted := js_sort by_target_output_desc vs) in *. rewrite <- Hperm in Hvw.
  destruct (_ =? 0)%nat; [wp_step; split_and!; [by apply Hs1|by eapply within_same|by intros ? [= <-]]|].
  destruct (planBridges_fits (bridge_target requested available total) 0 sorted) as (used & rest & Hsorted & Hfit).
  { eapply Forall_impl; [exact Hvw|]. by intros v [? _]. }
  set (plans := planBridges _ 0 sorted) in *.
  assert (bp_chain <$> plans = vs_chain <$> used) as Hch.
  { clear -Hfit. induction Hfit as [|v p used plans [Hc _] _ IH]; [done|]. by rewrite !fmap_cons, Hc, IH. }
  wp_step. eapply wp_mono; [apply run_plans_within|].
  - rewrite Hch. assert (NoDup (vs_chain <$> used ++ rest)) as Hnd'
      by (rewrite <- Hsorted, Hperm; eapply sublist_NoDup; [exact Hnd|exact Hsub]).
    rewrite fmap_app in Hnd'. by apply NoDup_app in Hnd' as [? _].
  - by eapply within_same.
  - unfold room. rewrite Hsorted, Forall_app in Hvw. destruct Hvw as [Hvw _].
    clear -Hfit Hvw Hall Hs1. induction Hfit as [|v p used plans (Hc & Hm & _) _ IH]; [constructor|].
    apply Forall_cons in Hvw as [(_ & a & Hin & Ha) Hvw]. constructor; [|by apply IH].
    rewrite Forall_forall in Hall. specialize (Hall _ Hin). cbn in Hall.
    rewrite (same_consumed _ _ _ Hs1), (same_available _ _ _ Hs1), Hc, Hm. lia.
  - intros s2 [results|e] [Hb2 Hw2]; cbn.
    + destruct (existsb _ _); wp_step; (split_and!; [destruct Hs1; congruence|done|by intros ? [= <-]]).
    + split_and!; [destruct Hs1; congruence|done|done].
Qed.

(** *** Routes *)

Lemma route_costs_spec route token available requested sender s :
  getTokenForChain config (nr_destination route) = Some token ->
  wp (route_costs config route available requested sender)
    (on_ok (fun _ c => costs_ok (isNativeTokenStandard (tok_standard token)) available requested c /\
       0 <= totalCost c) (fun _ => True)) s.
Proof.
  intros Htok. unfold route_costs. cbv zeta. do 3 (wp_step; apply wp_asks; intros ? ? _). rewrite Htok.
  wp_step; [|done]. match goal with E : calculateTransferCosts _ _ _ _ _ _ _ _ _ = _ |- _ =>
    rename E into Hc end. split; [by eapply calculateTransferCosts_ok|].
  eapply calculateTransferCosts_nonneg; [exact Hc|..].
  - intros q (d & _ & Hq)%result_bind_ok. by eapply igp_nonneg.
  - intros g. apply estimate_nonneg.
  - intros f. apply fee_nonneg.
Qed.

Lemma max_transferable_le route token available requested costs sender recipient s :
  0 <= available -> 0 <= totalCost costs ->
  costs_ok (isNativeTokenStandard (tok_standard token)) available requested costs ->
  wp (max_transferable route token available requested (maxTransferable costs) sender recipient)
    (on_ok (fun _ m => m <= available) (fun _ => True)) s.
Proof.
  intros Ha Ht [_ _ Hm _]. unfold max_transferable. destruct (isNativeTokenStandard _).
  { wp_step. cbn. rewrite Hm. destruct (Z.leb_spec available (totalCost costs)); lia. }
  destruct (Z.eqb_spec available 0); [wp_step; cbn; lia|]. wp_step. apply wp_asks. intros k s' _.
  destruct (c_getMaxTransferAmount _ _ _ _ _ _) as [amount|o e ex] eqn:E.
  - apply max_transfer_le in E. wp_step. cbn. destruct (Z.ltb_spec amount requested); lia.
  - destruct (isRecoverableMaxTransferProbeError o e); wp_step; [cbn; lia|done].
Qed.

(** What a route leaves: either nothing is sent and the bridges stayed within the inventory, or
    an amount the deficit chain has is sent and nothing else was spent. *)
Definition route_post (route : InventoryRoute) (s s' : InventoryRebalancer)
    (r : result InventoryExecutionResult) : Prop :=
  inventoryBalances s' = inventoryBalances s /\
  match r with
  | Ok res =>
      match xr_amountSent res with
      | None => within s'
      | Some sent => consumedInventory s' = consumedInventory s /\
                     sent <= getEffectiveAvailableInventory (nr_destination route) s
      end
  | Throw _ => within s'
  end.

Lemma effective_nonneg c s : 0 <= getEffectiveAvailableInventory c s.
Proof.
  unfold getEffectiveAvailableInventory. destruct (Z.ltb_spec (consumed c s) (getAvailableInventory c s)); lia.
Qed.

Lemma route_post_bridge route intent requested available total s0 s :
  map_wf (inventoryBalances s0) -> within s0 -> same_inventory s0 s ->
  wp (bridge_inventory config route intent requested available total) (route_post route s0) s.
Proof.
  intros Hwf Hw Hs. pose proof Hs as [Hb _]. eapply wp_mono; [apply bridge_inventory_within|].
  - by rewrite Hb.
  - by eapply within_same.
  - intros s' r (Hb' & Hw' & Hn). split; [congruence|]. destruct r as [res|]; [|done].
    by rewrite (Hn res eq_refl).
Qed.

(** A transfer reports the amount it was given. *)
Lemma transfer_amount_sent route intent canonical s :
  wp (executeTransferRemote config route intent canonical)
    (on_ok (fun _ res => xr_amountSent res = Some (nr_amount route) /\ xr_success res = true)
       (fun _ => True)) s.
Proof.
  unfold executeTransferRemote. cbv zeta.
  assert (forall {A B} (m : inv A) (f : A -> inv B) P s, (forall s' a, wp (f a) (on_ok P (fun _ => True)) s') ->
    wp (m ≫= f) (on_ok P (fun _ => True)) s) as Hskip.
  { intros A B m f P t Hf. apply wp_bind. unfold wp at 1. destruct (snd (m t)); [apply Hf|done]. }
  do 8 (apply Hskip; intros ? ?). apply Hskip; intros ? ?.
  repeat case_match; try (wp_step; done). do 2 (apply Hskip; intros ? ?). by wp_step.
Qed.

Lemma route_post_transfer route intent amount canonical s0 s :
  within s0 -> same_inventory s0 s ->
  amount <= getEffectiveAvailableInventory (nr_destination route) s0 ->
  wp (executeTransferRemote config (swapped route amount) intent canonical ≫= fun result =>
        mret (with_route route result)) (route_post route s0) s.
Proof.
  intros Hw Hs Ha. wp_step. eapply wp_mono.
  { apply wp_and; [apply (wp_preserves same_inventory), same_executeTransferRemote|].
    apply transfer_amount_sent. }
  intros s' [res|e] [Hs' Hr]; cbn in Hr; (assert (same_inventory s0 s') as Hs0 by (by etrans)).
  - destruct Hr as [Hsent _]. wp_step. split; [by apply Hs0|]. cbn. rewrite Hsent. cbn.
    split; [by apply Hs0|done].
  - split; [by apply Hs0|]. by eapply within_same.
Qed.

Lemma require_token_ok chain message token :
  require_token config chain message = Ok token -> getTokenForChain config chain = Some token.
Proof. unfold require_token. destruct (getTokenForChain config chain); congruence. Qed.

Lemma aligned_le l ts al : alignLocalToCanonical l ts = Ok al -> localAmount al <= l.
Proof.
  unfold alignLocalToCanonical. intros Hal.
  pose proof Hal as Hal'. unfold alignLocalAmountToMessage in Hal'.
  apply result_bind_ok in Hal' as ([] & Hl%js_assert_ok & (y & Hy & _)%result_bind_ok).
  rewrite (alignLocalAmountToMessage_eq _ _ _ Hy) in Hal. destruct (y =? 0); [injection Hal as <-; cbn; lia|].
  apply result_bind_ok in Hal as (a & Ha & [= <-]). cbn. by apply (minLocal_adjoint _ _ _ _ _ Ha Hy).
Qed.

Lemma executeRoute_post route intent s :
  map_wf (inventoryBalances s) -> within s ->
  wp (executeRoute config route intent) (route_post route s) s.
Proof.
  intros Hwf Hw. unfold executeRoute. cbv zeta.
  assert (forall s' e, same_inventory s s' -> route_post route s s' (Throw e)) as Hthrow.
  { intros s' e Hs. split; [apply Hs|by eapply within_same]. }
  wp_step. wp_step; [|by apply Hthrow]. rename a into token.
  match goal with E : require_token _ _ _ = Ok _ |- _ => apply require_token_ok in E; rename E into Htok end.
  do 3 (wp_step; wp_step; [|by apply Hthrow]). wp_step. wp_step.
  set (available := getEffectiveAvailableInventory (nr_destination route) s).
  wp_step. eapply wp_mono.
  { apply wp_and; [apply (wp_preserves same_inventory), same_route_costs|by apply route_costs_spec]. }
  intros s1 [costs|e] [Hs1 Hc]; cbn in Hc; [|by apply Hthrow]. destruct Hc as [Hc Htotal].
  wp_step. eapply wp_mono.
  { apply wp_and; [apply (wp_preserves same_inventory), same_max_transferable|].
    apply max_transferable_le; [apply effective_nonneg|done|done]. }
  intros s2 [m|e] [Hs2 Hm]; cbn in Hm; (assert (same_inventory s s2) as Hs02 by (by etrans));
    [|by apply Hthrow]. clear Hs1 Hs2.
  destruct (_ <? minViableTransfer costs).
  { wp_step. eapply wp_mono; [apply (wp_preserves same_inventory), preserves_track|].
    intros s3 [?|e] Hs3; [|apply Hthrow; by etrans]. wp_step.
    split; [etrans; [apply Hs3|apply Hs02]|]. cbn. apply (within_same s); [by etrans|done]. }
  destruct (Z.leb_spec a m) as [Hle|Hgt].
  { wp_step. wp_step; [|by apply Hthrow]. apply route_post_transfer; [done|done|].
    fold available. lia. }
  destruct (_ && _); [|by apply route_post_bridge].
  wp_step. wp_step; [|by apply Hthrow].
  match goal with E : alignLocalToCanonical _ _ = Ok ?x |- _ => apply aligned_le in E as Hal; set (al := x) in * end.
  destruct (messageAmount al =? 0); [by apply route_post_bridge|].
  apply route_post_transfer; [done|done|]. fold available. lia.
Qed.

Lemma run_route_within route intent s :
  map_wf (inventoryBalances s) -> within s ->
  wp (run_route config route intent)
    (fun s' _ => inventoryBalances s' = inventoryBalances s /\ within s') s.
Proof.
  intros Hwf Hw. unfold run_route. wp_step. wp_step. eapply wp_mono; [by apply executeRoute_post|].
  intros s' [res|e] [Hb Hr]; [|by wp_step].
  assert (forall sent, xr_amountSent res = Some sent -> within s') as Hsent.
  { intros sent E. rewrite E in Hr. destruct Hr as [Hc _].
    eapply within_same; [|exact Hw]. by split. }
  wp_step. destruct (xr_success res), (xr_amountSent res) as [sent|] eqn:E; try (by do 2 wp_step).
  - destruct Hr as [Hc Hle]. destruct (sent =? 0); [do 2 wp_step; split; [done|by eapply Hsent]|].
    unfold consume. do 2 wp_step. split; [done|]. intros c. rewrite consumed_consume.
    assert (same_inventory s s') as Hss by done.
    change (getAvailableInventory c (with_consumed s' _)) with (getAvailableInventory c s').
    rewrite (same_consumed _ _ c Hss), (same_available _ _ c Hss). specialize (Hw c).
    destruct (decide (c = nr_destination route)) as [->|]; [|lia].
    unfold getEffectiveAvailableInventory in Hle.
    destruct (Z.ltb_spec (consumed (nr_destination route) s)
      (getAvailableInventory (nr_destination route) s)); lia.
  - do 2 wp_step. split; [done|by eapply Hsent].
Qed.

End budget.


#[export] Instance sample_chains_laws : ChainsLaws.
Proof.
  split; cbn.
  - by intros k chain balance destination sender recipient amount [= <-].
  - by intros k bridge params q [= <-].
  - intros k chain domain sender amount q [= <-]. cbn. split; [lia|done].
  - intros k chain destination sender g [= <-]. lia.
  - intros k chain f [= <-]. cbn. lia.
Qed.

