(* ===== verification/CycleFacts.v ===== *)
(** What a cycle of the inventory rebalancer leaves in the tracker: it works on one intent
    only, and a deposit is recorded with exactly the canonical amount it delivers. *)
From Stdlib Require Import ZArith Lia String.
From stdpp Require Import base tactics list gmap strings pretty.
From S2P Require Import Prelude JsMap Addresses Amount Token Route Config Bytes Messages.
From S2P Require Import BaseStrategy BlockTag Store ActionTracker TrackerSamples TrackerFacts.
From S2P Require Import SyncFacts InventoryFacts ErrorGraph Gas InventoryRebalancer Triples.
From S2P Require Import RouteRelations InventorySamples RebalanceFacts.

#[local] Open Scope Z_scope.

(** ** The intents of the tracker *)

Definition intent_ids (s : ActionTracker) : list string := map_keys (rebalanceIntentStore s).

(** No intent is added. *)
Definition same_intents (s s' : ActionTracker) : Prop := intent_ids s' = intent_ids s.

#[export] Instance same_intents_preorder : PreOrder same_intents.
Proof. split; [done|]. unfold same_intents. intros s1 s2 s3. congruence. Qed.

Definition keeps_intents (s s' : InventoryRebalancer) : Prop :=
  same_intents (actionTracker s) (actionTracker s').

#[export] Instance keeps_intents_preorder : PreOrder keeps_intents.
Proof. split; [done|]. unfold keeps_intents. intros s1 s2 s3. apply transitivity. Qed.

Section intents.
Context `{World}.

Lemma update_keys {T Status} `{!Tracked T Status} id f now (st st' : Store T) :
  update id f now st = Ok st' -> map_keys st' = map_keys st.
Proof.
  unfold update. destruct (map_get id st) eqn:E; [|done]. intros [= <-]. rewrite map_keys_set.
  rewrite decide_True; [done|]. apply map_has_true. unfold map_has. by rewrite E.
Qed.

Lemma intents_update_intent id f : preserves same_intents (update_intent id f).
Proof.
  intros s. rewrite update_intent_run. destruct (update id f (w_now (tick s)) (rebalanceIntentStore s)) eqn:E; [|done].
  exact (update_keys _ _ _ _ _ E).
Qed.

Lemma intents_update_action id f : preserves same_intents (update_action id f).
Proof. intros s. rewrite update_action_run. by destruct (update _ _ _ _). Qed.

Ltac intents_step :=
  lazymatch goal with
  | |- preserves _ (mbind _ _) => apply preserves_bind; [apply _| |intros ?]
  | |- preserves _ (mret _) => apply preserves_ret; apply _
  | |- preserves _ (gets _) => apply preserves_gets; apply _
  | |- preserves _ (for_each _ _) => apply preserves_for_each; [apply _|intros ? _]
  | |- preserves _ (ask _) => by intros ?
  | |- preserves _ uuidv4 => by intros ?
  | |- preserves _ now => by intros ?
  | |- preserves _ (save_action _) => by intros ?
  | |- preserves _ (update_intent _ _) => apply intents_update_intent
  | |- preserves _ (update_action _ _) => apply intents_update_action
  | |- preserves _ (if ?b then _ else _) => destruct b
  | |- preserves _ (match ?x with _ => _ end) => destruct x
  end.

Lemma intents_createRebalanceAction p : preserves same_intents (createRebalanceAction p).
Proof. unfold createRebalanceAction. cbv zeta. repeat intents_step. Qed.

Lemma intents_createRebalanceIntent p s :
  let s' := fst (createRebalanceIntent p s) in
  same_intents s s' \/ exists id, intent_ids s' = intent_ids s ++ [id].
Proof.
  unfold createRebalanceIntent, uuidv4, now, save_intent, same_intents, intent_ids.
  rewrite !ask_bind, modify_bind. cbn [fst mret eff_ret with_intents rebalanceIntentStore later].
  unfold save. rewrite map_keys_set. case_decide; [by left|right; eauto].
Qed.

Lemma intents_query : preserves same_intents getPartiallyFulfilledInventoryIntents.
Proof.
  unfold getPartiallyFulfilledInventoryIntents. do 2 (intents_step; [intents_step|]).
  generalize (a ++ a0). clear. intros l. induction l as [|i l IH]; cbn [collect]; [intents_step|].
  intents_step; [|intents_step; [exact IH|intents_step]].
  unfold partial_intent, failRebalanceAction. cbv zeta. repeat intents_step.
Qed.

#[export] Instance keeps_intents_routes : RouteRelation keeps_intents.
Proof.
  split; [apply _|by intros A f s|..].
  - intros p s. apply intents_createRebalanceAction.
  - intros id s. apply intents_update_intent.
  - by intros chain amount s.
Qed.

End intents.

(** The query decides what the cycle does. *)
Lemma rebalance_after_query `{World} `{Chains} config routes s t open :
  getPartiallyFulfilledInventoryIntents (actionTracker s) = (t, Ok open) ->
  rebalance config routes s =
    match head open with
    | Some active => if pi_hasInflightDeposit active then mret [] else continueIntent config active
    | None =>
        match routes with
        | [] => mret []
        | route :: _ =>
            origin ← lift (c_domainId (nr_origin route));
            destination ← lift (c_domainId (nr_destination route));
            intent ← track (createRebalanceIntent {|
              ip_origin := origin; ip_destination := destination; ip_amount := nr_amount route;
              ip_bridge := None; ip_priority := None; ip_strategyType := None;
              ip_executionMethod := Some inventory; ip_externalBridge := nr_externalBridge route |});
            run_route config route intent
        end
    end (with_consumed (with_tracker s t) []).
Proof.
  intros Hq. unfold rebalance, getActiveInventoryIntent, track. rewrite eff_bind_run. cbv [modify].
  rewrite eff_bind_run. rewrite eff_bind_run. cbn [actionTracker with_consumed]. rewrite Hq. done.
Qed.

(** A cycle works on one intent. When the tracker holds an open inventory intent no new one
    is made, whatever routes are proposed, and while a deposit of that intent is in flight the
    cycle does nothing but the query itself. Otherwise at most one intent is made, for the
    first route, and none when there is no route. *)
Theorem rebalance_single_intent `{World} `{Chains} config routes s :
  stores_wf (actionTracker s) ->
  let s' := fst (rebalance config routes s) in
  exists t open, getPartiallyFulfilledInventoryIntents (actionTracker s) = (t, Ok open) /\
    match open, routes with
    | p :: _, _ =>
        intent_ids (actionTracker s') = intent_ids (actionTracker s) /\
        (pi_hasInflightDeposit p = true ->
           rebalance config routes s = (with_consumed (with_tracker s t) [], Ok []))
    | [], [] => rebalance config routes s = (with_consumed (with_tracker s t) [], Ok [])
    | [], _ :: _ =>
        intent_ids (actionTracker s') = intent_ids (actionTracker s) \/
        exists id, intent_ids (actionTracker s') = intent_ids (actionTracker s) ++ [id]
    end.
Proof.
  intros Hwf. cbv zeta.
  destruct (query_run (actionTracker s) Hwf) as (t & Hq & _).
  set (open := partial_entry _ <$> _) in Hq. clearbody open. exists t, open. split; [exact Hq|].
  pose proof (intents_query (actionTracker s)) as Hids. rewrite Hq in Hids. cbn in Hids.
  rewrite (rebalance_after_query _ _ _ _ _ Hq). set (s1 := with_consumed (with_tracker s t) []).
  destruct open as [|p open]; cbn [head].
  - destruct routes as [|route rest]; [done|].
    enough (wp (origin ← lift (c_domainId (nr_origin route));
        destination ← lift (c_domainId (nr_destination route));
        intent ← track (createRebalanceIntent {|
          ip_origin := origin; ip_destination := destination; ip_amount := nr_amount route;
          ip_bridge := None; ip_priority := None; ip_strategyType := None;
          ip_executionMethod := Some inventory; ip_externalBridge := nr_externalBridge route |});
        run_route config route intent) (fun s' _ =>
      intent_ids (actionTracker s') = intent_ids (actionTracker s) \/
      exists id, intent_ids (actionTracker s') = intent_ids (actionTracker s) ++ [id]) s1) as Hrun
      by exact Hrun.
    do 2 (wp_step; wp_step; [|by left]). wp_step. unfold wp at 1. cbn.
    eapply wp_mono; [apply (wp_preserves keeps_intents), preserves_run_route, _|]. intros s' r Hs'.
    unfold keeps_intents, same_intents in Hs', Hids. cbn [actionTracker with_tracker] in Hs'.
    rewrite Hs', <- Hids. apply intents_createRebalanceIntent.
  - destruct (pi_hasInflightDeposit p); [done|]. split; [|done].
    etrans; [apply (preserves_continueIntent config keeps_intents p s1)|exact Hids].
Qed.

Lemma rebalance_single_intent_witness :
  let s := sample_inventory [("a", 500); ("b", 130)]%string sample_tracker in
  let s' := fst (rebalance sample_inventory_config [sample_inventory_route] s) in
  exists t open, getPartiallyFulfilledInventoryIntents sample_tracker = (t, Ok open) /\
    length open = 1%nat /\ actionTracker s' = t.
Proof.
  intros s s'.
  destruct (rebalance_single_intent sample_inventory_config [sample_inventory_route] s
    sample_tracker_wf) as (t & open & Hq & Hcase).
  exists t, open. split; [exact Hq|]. vm_compute in Hq. injection Hq as <- <-.
  destruct Hcase as [_ Hdone]. split; [reflexivity|]. subst s'. rewrite Hdone; reflexivity.
Defined.

(** ** Deposits *)

(** The record of a deposit for an intent. *)
Definition records_deposit (intentId : string) (amount : Z) (s : InventoryRebalancer) : Prop :=
  exists id a, getRebalanceAction id (actionTracker s) = Some a /\
    a_type a = inventory_deposit /\ a_status a = ActionInProgress /\
    a_intentId a = intentId /\ a_amount a = amount.

Section deposits.
Context `{World} `{Chains} (config : InventoryRebalancerConfig).

Lemma createRebalanceAction_stored p s :
  exists a, getRebalanceAction (a_id a) (fst (createRebalanceAction p s)) = Some a /\
    a_type a = ap_type p /\ a_status a = ActionInProgress /\
    a_intentId a = ap_intentId p /\ a_amount a = ap_amount p.
Proof.
  unfold createRebalanceAction, uuidv4, now, save_action. cbv zeta.
  rewrite !ask_bind, modify_bind, gets_bind. set (action := {| a_id := _ |}).
  set (s1 := with_actions _ _).
  assert (getRebalanceAction (a_id action) s1 = Some action) as Hs1.
  { unfold getRebalanceAction, s1. cbn [with_actions rebalanceActionStore]. rewrite store_get_save.
    by rewrite decide_True. }
  exists action. split; [|done].
  destruct (getRebalanceIntent _ s1) as [i|]; [|exact Hs1]. case_bool_decide; [|exact Hs1].
  rewrite eff_bind_run, update_intent_run. by destruct (update _ _ _ _).
Qed.

Lemma track_create_records p s :
  ap_type p = inventory_deposit ->
  wp (track (createRebalanceAction p))
    (on_ok (fun s' _ => records_deposit (ap_intentId p) (ap_amount p) s') (fun _ => True)) s.
Proof.
  intros Hp. destruct (createRebalanceAction_stored p (actionTracker s)) as (a & Ha & Ht & Hrest).
  unfold wp, track. cbn [fst snd]. destruct (snd (createRebalanceAction p _)); [|done].
  exists (a_id a), a. split; [exact Ha|]. split; [congruence|exact Hrest].
Qed.

Lemma transfer_records route intent amount s :
  wp (executeTransferRemote config route intent amount)
    (on_ok (fun s' _ => records_deposit (i_id intent) amount s') (fun _ => True)) s.
Proof.
  assert (forall {A B} (m : inv A) (f : A -> inv B) P s, (forall s' a, wp (f a) (on_ok P (fun _ => True)) s') ->
    wp (m ≫= f) (on_ok P (fun _ => True)) s) as Hskip.
  { intros A B m f P t Hf. apply wp_bind. unfold wp at 1. destruct (snd (m t)); [apply Hf|done]. }
  unfold executeTransferRemote. cbv zeta. do 9 (apply Hskip; intros ? ?).
  repeat case_match; try (wp_step; done). apply Hskip; intros ? ?. wp_step.
  eapply wp_mono; [by apply track_create_records|]. intros ? [?|?] Hr; [|done]. wp_step. exact Hr.
Qed.

(** The rest of the route after a transfer. *)
Lemma transfer_then_route route intent amount canonical s :
  wp (executeTransferRemote config (swapped route amount) intent canonical ≫= fun result =>
        mret (with_route route result))
    (on_ok (fun s' res => xr_amountSent res = Some amount /\
       records_deposit (i_id intent) canonical s') (fun _ => True)) s.
Proof.
  wp_step. eapply wp_mono; [apply wp_and; [apply transfer_amount_sent|apply transfer_records]|].
  intros s' [res|e] [Hsent Hrec]; [|done]. wp_step. split; [apply Hsent|exact Hrec].
Qed.

Lemma bridge_sends_nothing route intent requested available total s :
  wp (bridge_inventory config route intent requested available total)
    (on_ok (fun _ res => xr_amountSent res = None) (fun _ => True)) s.
Proof.
  unfold bridge_inventory. cbv zeta. wp_step. wp_step. case_bool_decide; [by wp_step|].
  wp_step. unfold wp at 1. destruct (snd _) as [vs|]; [|done].
  destruct (_ =? 0)%nat; [by wp_step|]. wp_step. unfold wp at 1. destruct (snd _); [|done].
  destruct (existsb _ _); by wp_step.
Qed.

(** An amount sent is the least that delivers what is asked, or the aligned part of less. *)
Definition deposit_ok (route : InventoryRoute) (intent : RebalanceIntent)
    (s' : InventoryRebalancer) (res : InventoryExecutionResult) : Prop :=
  forall sent, xr_amountSent res = Some sent ->
  exists token amount, getTokenForChain config (nr_destination route) = Some token /\
    normalizeToCanonical sent (OfToken token) = Ok amount /\
    records_deposit (i_id intent) amount s' /\
    (denormalizeToLocal (nr_amount route) (OfToken token) = Ok sent /\ nr_amount route <= amount \/
     0 < amount < nr_amount route).

(** What is aligned below the amount asked is a positive part of it. *)
Lemma aligned_part asked requested m ts al :
  denormalizeToLocal asked ts = Ok requested -> m < requested ->
  alignLocalToCanonical m ts = Ok al -> messageAmount al <> 0 ->
  normalizeToCanonical (localAmount al) ts = Ok (messageAmount al) /\ 0 < messageAmount al < asked.
Proof.
  unfold denormalizeToLocal, alignLocalToCanonical, normalizeToCanonical. intros Hreq Hlt Hal Hnz.
  pose proof Hal as Hal'. unfold alignLocalAmountToMessage in Hal'.
  apply result_bind_ok in Hal' as ([] & Hm%js_assert_ok & (y & Hy & _)%result_bind_ok).
  assert (0 <= y) as Hy0 by (by apply (normalizeToCanonical_nonneg m ts)).
  rewrite (alignLocalAmountToMessage_eq _ _ _ Hy) in Hal.
  destruct (Z.eqb_spec y 0) as [Hyz|Hyz]; [injection Hal as Hal; subst al; by cbn in Hnz|].
  apply result_bind_ok in Hal as (lm & Hlm & [= <-]). cbn in *.
  destruct (minLocal_delivers _ _ _ Hlm) as (_ & y' & Hy' & Hle).
  assert (lm <= m) as Hlmm by (by apply (minLocal_adjoint y _ lm m y Hlm Hy)).
  assert (y' = y) as -> by (pose proof (messageAmountFromLocal_mono _ _ _ _ _ Hy' Hy Hlmm); lia).
  split; [done|]. pose proof (minLocal_adjoint _ _ _ _ _ Hreq Hy). lia.
Qed.

Lemma executeRoute_deposits route intent s :
  wp (executeRoute config route intent)
    (on_ok (deposit_ok route intent) (fun _ => True)) s.
Proof.
  assert (forall s' res, xr_amountSent res = None -> deposit_ok route intent s' res) as Hnone
    by (intros s' res Hn sent Hs; congruence).
  unfold executeRoute. cbv zeta. wp_step. wp_step; [|done]. rename a into token.
  match goal with E : require_token _ _ _ = Ok _ |- _ => apply require_token_ok in E; rename E into Htok end.
  wp_step. wp_step; [|done]. rename a into requested.
  match goal with E : denormalizeToLocal _ _ = Ok _ |- _ => rename E into Hreq end.
  do 2 (wp_step; wp_step; [|done]). wp_step. wp_step.
  wp_step. unfold wp at 1. destruct (snd _) as [costs|]; [|done].
  wp_step. unfold wp at 1. destruct (snd _) as [m|]; [|done].
  destruct (_ <? minViableTransfer costs).
  { wp_step. unfold wp at 1. destruct (snd _); [|done]. wp_step. by apply Hnone. }
  assert (forall s0, wp (bridge_inventory config route intent requested
    (getEffectiveAvailableInventory (nr_destination route) s) (totalCost costs))
    (on_ok (deposit_ok route intent) (fun _ => True)) s0) as Hbridge.
  { intros s0. eapply wp_mono; [apply bridge_sends_nothing|]. intros s' [res|] Hr; [by apply Hnone|done]. }
  destruct (Z.leb_spec requested m) as [Hle|Hgt].
  { wp_step. wp_step; [|done]. rename a1 into amount.
    match goal with E : normalizeToCanonical _ _ = Ok _ |- _ => rename E into Hcan end.
    eapply wp_mono; [apply transfer_then_route|]. intros s' [res|] Hr; [|done].
    destruct Hr as [Hsent Hrec]. intros sent Hs. assert (sent = requested) as -> by congruence.
    exists token, amount. split_and!; [done..|]. left. split; [done|].
    destruct (minLocal_delivers _ _ _ Hreq) as (_ & y & Hy & Hay).
    unfold normalizeToCanonical in Hcan. replace amount with y by congruence. done. }
  destruct (_ && _); [|apply Hbridge]. wp_step. wp_step; [|done]. rename a1 into al.
  match goal with E : alignLocalToCanonical _ _ = Ok _ |- _ => rename E into Hal end.
  destruct (Z.eqb_spec (messageAmount al) 0) as [|Hnz]; [apply Hbridge|].
  destruct (aligned_part _ _ _ _ _ Hreq Hgt Hal Hnz) as [Hcan Hpart].
  eapply wp_mono; [apply transfer_then_route|]. intros s' [res|] Hr; [|done].
  destruct Hr as [Hsent Hrec]. intros sent Hs. assert (sent = localAmount al) as -> by congruence.
  exists token, (messageAmount al). split_and!; [done..|]. by right.
Qed.

End deposits.

(** When [executeRoute] reports an amount sent, the tracker holds a deposit in progress of
    the intent whose amount is exactly the canonical value of what was sent; and either the
    least local amount that delivers all of the route was sent, or the deposit is a positive
    part strictly smaller than the route. *)
Theorem executeRoute_records_deposit `{World} `{Chains} config route intent s s' res sent :
  executeRoute config route intent s = (s', Ok res) -> xr_amountSent res = Some sent ->
  exists token amount, getTokenForChain config (nr_destination route) = Some token /\
    normalizeToCanonical sent (OfToken token) = Ok amount /\
    records_deposit (i_id intent) amount s' /\
    (denormalizeToLocal (nr_amount route) (OfToken token) = Ok sent /\ nr_amount route <= amount \/
     0 < amount < nr_amount route).
Proof.
  intros Hrun. exact (wp_run _ _ _ _ _ (executeRoute_deposits config route intent s) Hrun sent).
Qed.

Lemma executeRoute_records_deposit_witness :
  let intent := sample_intent "i9" 100 IntentInProgress (Some inventory) in
  let run := executeRoute sample_inventory_config sample_inventory_route intent partial_inventory in
  exists token amount, getTokenForChain sample_inventory_config "b" = Some token /\
    normalizeToCanonical 30 (OfToken token) = Ok amount /\
    records_deposit "i9" amount (fst run) /\
    (denormalizeToLocal 100 (OfToken token) = Ok 30 /\ 100 <= amount \/ 0 < amount < 100).
Proof.
  intros intent run. destruct run as [s' r] eqn:Hrun.
  pose proof Hrun as Hval. vm_compute in Hval. injection Hval as Hs Hr.
  apply (executeRoute_records_deposit sample_inventory_config sample_inventory_route intent
    partial_inventory s' (match r with Ok res => res | Throw _ => succeeded sample_inventory_route None end) 30).
  - subst r. exact Hrun.
  - subst r. reflexivity.
Defined.
