(* ===== verification/Rebalancer.v ===== *)
(** The movable collateral rebalancer, rebalancer/src/core/Rebalancer.ts: it has the routers
    rebalance through the bridges of its routes, and records in the tracker what was sent.
    Preparation and sending are started in parallel over routes and chains in the code; here
    they run in the order they are started, and the only shared state, the tracker, is not
    touched in between. Logging and metrics are left out. *)
From Stdlib Require Import ZArith Lia String.
From stdpp Require Import base tactics list gmap strings.
From S2P Require Import Prelude JsMap Amount Token Route AddressEq BlockTag Store ActionTracker.
From S2P Require Import Gas InventoryRebalancer.

#[local] Open Scope Z_scope.

(** ** The outside *)

(** A transaction to send, opaque; a receipt at what is read of it, with the ids of the
    messages [HyperlaneCore.getDispatchedMessages] finds in its logs. *)
Record PopulatedTransaction : Type := { tx_payload : string }.
Record TransactionReceipt : Type := {
  transactionHash : string;
  dispatchedMessages : result (list string)
}.

(** The signers, senders and adapters of a chain. *)
Class Routers : Type := {
  (** [originToken.getHypAdapter(..) instanceof EvmMovableCollateralAdapter] *)
  m_movable : string -> result bool;
  m_signerAddress : nat -> string -> result string;
  m_isRebalancer : nat -> string -> string -> result bool;
  m_getAllowedDestination : nat -> string -> Z -> result string;
  m_isBridgeAllowed : nat -> string -> Z -> string -> result bool;
  m_getRebalanceQuotes : nat -> string -> string -> Z -> string -> Z -> result (list InterchainGasQuote);
  m_populateRebalanceTx :
    nat -> string -> Z -> Z -> string -> list InterchainGasQuote -> result PopulatedTransaction;
  m_estimateGas : nat -> string -> PopulatedTransaction -> result unit;
  m_sendTransaction : nat -> string -> PopulatedTransaction -> ReorgPeriod -> result TransactionReceipt
}.

(** ** Routes, transactions and results *)

Record MovableCollateralRoute : Type := {
  mr_origin : string; mr_destination : string; mr_amount : Z; mr_bridge : option string
}.

(** [MovableCollateralRoute & { intentId }], whose bridge is known to be there. *)
Record InternalRoute : Type := {
  in_route : MovableCollateralRoute; in_bridge : string; in_intentId : string
}.

(** [originTokenAmount] is a token and an amount of it. *)
Record PreparedTransaction : Type := {
  pt_populatedTx : PopulatedTransaction; pt_route : InternalRoute;
  pt_token : Token; pt_amount : Z
}.

Record InternalExecutionResult : Type := {
  ir_route : InternalRoute;
  ir_success : bool;
  ir_error : option string;
  ir_messageId : string;
  ir_txHash : option string;
  ir_canonicalAmount : option Z;
  ir_localAmount : option Z
}.

Record MovableCollateralExecutionResult : Type := {
  mx_route : MovableCollateralRoute;
  mx_success : bool;
  mx_error : option string;
  mx_messageId : string;
  mx_txHash : option string
}.

Definition failure (route : InternalRoute) (error : string) (txHash : option string)
    : InternalExecutionResult := {|
  ir_route := route; ir_success := false; ir_error := Some error; ir_messageId := EmptyString;
  ir_txHash := txHash; ir_canonicalAmount := None; ir_localAmount := None |}.

(** [String(error)]. *)
Definition exn_string (e : exn) : string :=
  let '(name, message) := match e with
    | Error m => ("Error", m) | TypeError m => ("TypeError", m)
    | RangeError m => ("RangeError", m) | SyntaxError m => ("SyntaxError", m)
    end%string in
  match message with
  | EmptyString => name
  | _ => name +:+ ": " +:+ message
  end.

(** What [sendTransactionsForChain] reports of a transaction. *)
Inductive SendResult : Type :=
| SentTransaction (transaction : PreparedTransaction) (receipt : TransactionReceipt)
| SendError (transaction : PreparedTransaction) (error : string).

(** The constructor's arguments that are read: metadata at its domain ids, and the tokens. *)
Record RebalancerConfig : Type := {
  chainMetadata : list (string * Z);
  tokensByChainName : list (string * Token)
}.

Section rebalancer.
Context `{World} `{Chains} `{Routers} `{AddressLibs} (config : RebalancerConfig).

Definition call {A} (answer : nat -> result A) : tracker A := r ← ask answer; lift r.

(** ** Preparation *)

Definition validateRoute (route : InternalRoute) : tracker bool :=
  let origin := mr_origin (in_route route) in
  let destination := mr_destination (in_route route) in
  match map_get origin (tokensByChainName config) with
  | None => mret false
  | Some originToken =>
      _ ← lift (denormalizeToLocal (mr_amount (in_route route)) (OfToken originToken));
      match map_get destination (tokensByChainName config),
            map_get destination (chainMetadata config) with
      | None, _ | _, None => mret false
      | Some destinationToken, Some domainId =>
          movable ← lift (m_movable origin);
          if negb movable then mret false
          else
            signerAddress ← call (fun k => m_signerAddress k origin);
            isRebalancer ← call (fun k => m_isRebalancer k origin signerAddress);
            if negb isRebalancer then mret false
            else
              allowedDestination ← call (fun k => m_getAllowedDestination k origin domainId);
              if negb (eqAddress allowedDestination (tok_addressOrDenom destinationToken))
              then mret false
              else call (fun k => m_isBridgeAllowed k origin domainId (in_bridge route))
      end
  end.

(** [None] when the route is refused; only what is outside the two [try] blocks throws. *)
Definition prepareTransaction (route : InternalRoute) : tracker (option PreparedTransaction) :=
  let origin := mr_origin (in_route route) in
  let destination := mr_destination (in_route route) in
  valid ← validateRoute route;
  if negb valid then mret None
  else
    match map_get origin (tokensByChainName config),
          map_get destination (tokensByChainName config),
          map_get destination (chainMetadata config) with
    | Some originToken, Some destinationToken, Some domainId =>
        localAmount ← lift (denormalizeToLocal (mr_amount (in_route route)) (OfToken originToken));
        quotes ← settled (call (fun k => m_getRebalanceQuotes k origin (in_bridge route) domainId
                                  (tok_addressOrDenom destinationToken) localAmount));
        match quotes with
        | Throw _ => mret None
        | Ok quotes =>
            populatedTx ← settled (call (fun k =>
              m_populateRebalanceTx k origin domainId localAmount (in_bridge route) quotes));
            match populatedTx with
            | Throw _ => mret None
            | Ok tx => mret (Some {| pt_populatedTx := tx; pt_route := route;
                                     pt_token := originToken; pt_amount := localAmount |})
            end
        end
    | _, _, _ => throw (TypeError "Cannot read properties of undefined")
    end.

Definition prepared_of (outcome : result (option PreparedTransaction))
    : option PreparedTransaction :=
  match outcome with Ok tx => tx | Throw _ => None end.
Definition rejected_of (r : InternalRoute * result (option PreparedTransaction))
    : option InternalExecutionResult :=
  match snd r with Throw e => Some (failure (fst r) (exn_string e) None) | Ok _ => None end.
Definition null_of (r : InternalRoute * result (option PreparedTransaction))
    : option InternalExecutionResult :=
  match snd r with
  | Ok None => Some (failure (fst r) "Preparation returned null" None)
  | _ => None
  end.

(** The rejections in order, then the refusals in order. *)
Definition prepareTransactions (routes : list InternalRoute)
    : tracker (list PreparedTransaction * list InternalExecutionResult) :=
  outcomes ← mapM (fun route => settled (prepareTransaction route)) routes;
  let settledRoutes := zip routes outcomes in
  mret (omap prepared_of outcomes, omap rejected_of settledRoutes ++ omap null_of settledRoutes).

(** ** Sending *)

Definition getReorgPeriod (chainName : string) : result ReorgPeriod :=
  metadata ← w_metadata chainName;
  Ok (default (ReorgBlocks 32) (cm_reorgPeriod metadata)).

Definition send_transaction (origin : string) (transaction : PreparedTransaction)
    : tracker SendResult :=
  try_catch
    (reorgPeriod ← lift (getReorgPeriod origin);
     receipt ← call (fun k => m_sendTransaction k origin (pt_populatedTx transaction) reorgPeriod);
     mret (SentTransaction transaction receipt))
    (fun e => mret (SendError transaction (exn_string e))).

Definition sendTransactionsForChain (origin : string) (transactions : list PreparedTransaction)
    : tracker (list SendResult) :=
  mapM (send_transaction origin) transactions.

Definition tx_origin (tx : PreparedTransaction) : string := mr_origin (in_route (pt_route tx)).

(** One turn of the loop that fills [txsByOrigin]. *)
Definition group_tx (txsByOrigin : list (string * list PreparedTransaction))
    (tx : PreparedTransaction) : list (string * list PreparedTransaction) :=
  map_set (tx_origin tx) (default [] (map_get (tx_origin tx) txsByOrigin) ++ [tx]) txsByOrigin.

Definition buildResult (transaction : PreparedTransaction) (receipt : TransactionReceipt)
    : result InternalExecutionResult :=
  messages ← dispatchedMessages receipt;
  match messages with
  | [] => Ok (failure (pt_route transaction)
                "Transaction confirmed but no Dispatch event found"
                (Some (transactionHash receipt)))
  | id :: _ =>
      canonicalAmount ← normalizeToCanonical (pt_amount transaction) (OfToken (pt_token transaction));
      Ok {| ir_route := pt_route transaction; ir_success := true; ir_error := None;
            ir_messageId := id; ir_txHash := Some (transactionHash receipt);
            ir_canonicalAmount := Some canonicalAmount;
            ir_localAmount := Some (pt_amount transaction) |}
  end.

Definition estimated_of (r : PreparedTransaction * result unit) : option PreparedTransaction :=
  match snd r with Ok _ => Some (fst r) | Throw _ => None end.
Definition estimate_failure (r : PreparedTransaction * result unit)
    : option InternalExecutionResult :=
  match snd r with
  | Throw e => Some (failure (pt_route (fst r))
                       ("Gas estimation failed: " +:+ exn_string e) None)
  | Ok _ => None
  end.
Definition send_failure (r : SendResult) : option InternalExecutionResult :=
  match r with
  | SendError tx e => Some (failure (pt_route tx) ("Transaction send failed: " +:+ e) None)
  | SentTransaction _ _ => None
  end.
Definition send_success (r : SendResult) : option (PreparedTransaction * TransactionReceipt) :=
  match r with SentTransaction tx receipt => Some (tx, receipt) | SendError _ _ => None end.

(** A chain whose task were rejected would be left out of the results. *)
Definition chain_sends (r : result (list SendResult)) : list SendResult :=
  match r with Ok sends => sends | Throw _ => [] end.

Definition executeTransactions (transactions : list PreparedTransaction)
    : tracker (list InternalExecutionResult) :=
  estimates ← mapM (fun tx => settled (call (fun k =>
                      m_estimateGas k (tx_origin tx) (pt_populatedTx tx)))) transactions;
  let gasEstimateResults := zip transactions estimates in
  let validTransactions := omap estimated_of gasEstimateResults in
  let estimateFailures := omap estimate_failure gasEstimateResults in
  if bool_decide (length validTransactions = 0%nat) then mret estimateFailures
  else
    let txsByOrigin := foldl group_tx [] validTransactions in
    chainSendResults ← mapM (fun '(origin, txs) => settled (sendTransactionsForChain origin txs))
                            txsByOrigin;
    let sends := concat (chain_sends <$> chainSendResults) in
    built ← lift (mapM (fun '(tx, receipt) => buildResult tx receipt) (omap send_success sends));
    mret (estimateFailures ++ omap send_failure sends ++ built).

(** ** The main method *)

Definition createIntent (route : MovableCollateralRoute) : tracker RebalanceIntent :=
  origin ← lift (c_domainId (mr_origin route));
  destination ← lift (c_domainId (mr_destination route));
  createRebalanceIntent {|
    ip_origin := origin; ip_destination := destination; ip_amount := mr_amount route;
    ip_bridge := mr_bridge route; ip_priority := None; ip_strategyType := None;
    ip_executionMethod := Some movable_collateral; ip_externalBridge := None |}.

Definition createIntents (routes : list MovableCollateralRoute) : tracker (list RebalanceIntent) :=
  mapM createIntent routes.

(** Whether a result counts as sent: it has the id of the message. *)
Definition has_message (result : InternalExecutionResult) : bool :=
  ir_success result && negb (bool_decide (ir_messageId result = EmptyString)).

Definition processResult (result : InternalExecutionResult) : tracker unit :=
  let route := in_route (ir_route result) in
  if has_message result then
    origin ← lift (c_domainId (mr_origin route));
    destination ← lift (c_domainId (mr_destination route));
    _ ← createRebalanceAction {|
      ap_intentId := in_intentId (ir_route result); ap_origin := origin;
      ap_destination := destination;
      ap_amount := default (mr_amount route) (ir_canonicalAmount result);
      ap_type := rebalance_message; ap_messageId := Some (ir_messageId result);
      ap_txHash := ir_txHash result; ap_externalBridgeTransferId := None;
      ap_externalBridgeId := None |};
    mret ()
  else failRebalanceIntent (in_intentId (ir_route result)).

Definition processResults (results : list InternalExecutionResult) : tracker unit :=
  for_each processResult results.

Definition toPublicResult (r : InternalExecutionResult) : MovableCollateralExecutionResult := {|
  mx_route := in_route (ir_route r); mx_success := ir_success r; mx_error := ir_error r;
  mx_messageId := ir_messageId r; mx_txHash := ir_txHash r |}.

(** [!!route.bridge]. *)
Definition has_bridge (route : MovableCollateralRoute) : bool :=
  match mr_bridge route with Some (String _ _) => true | _ => false end.

Definition missing_bridge (route : MovableCollateralRoute) : MovableCollateralExecutionResult := {|
  mx_route := route; mx_success := false;
  mx_error := if has_bridge route then None else Some "Missing required bridge address"%string;
  mx_messageId := EmptyString; mx_txHash := None |}.

Definition internal_route (route : MovableCollateralRoute) (intent : RebalanceIntent)
    : InternalRoute := {|
  in_route := route; in_bridge := default EmptyString (mr_bridge route);
  in_intentId := i_id intent |}.

Definition rebalance (routes : list MovableCollateralRoute)
    : tracker (list MovableCollateralExecutionResult) :=
  if bool_decide (routes = []) then mret []
  else if existsb (fun r => negb (has_bridge r)) routes then mret (missing_bridge <$> routes)
  else
    intents ← createIntents routes;
    let internalRoutes := zip_with internal_route routes intents in
    '(preparedTransactions, preparationFailureResults) ← prepareTransactions internalRoutes;
    executionResults ←
      (if bool_decide (preparedTransactions = []) then mret []
       else executeTransactions preparedTransactions);
    let allInternalResults := preparationFailureResults ++ executionResults in
    _ ← processResults allInternalResults;
    mret (toPublicResult <$> allInternalResults).

End rebalancer.
