(* ===== verification/RebalancerFacts.v ===== *)
(** What the movable collateral rebalancer leaves in the tracker: every route it takes on gets
    one intent, and every intent ends in progress with the message that was sent, or failed. *)
From Stdlib Require Import ZArith Lia String.
From stdpp Require Import base tactics list gmap strings.
From S2P Require Import Prelude JsMap Amount Token Route AddressEq BlockTag Store ActionTracker.
From S2P Require Import TrackerSamples TrackerFacts Gas InventoryRebalancer InventorySamples.
From S2P Require Import Messages Triples Rebalancer.

#[local] Open Scope Z_scope.

(** ** Calls to the outside only *)

Definition calls_only (s s' : ActionTracker) : Prop := exists n, s' = later n s.

#[export] Instance calls_only_preorder : PreOrder calls_only.
Proof.
  split; [by intros []; exists 0%nat|]. intros s1 s2 s3 [n ->] [m ->]. exists (m + n)%nat.
  unfold later. cbn. f_equal. lia.
Qed.

Lemma calls_ask {A} (f : nat -> A) : preserves calls_only (ask f).
Proof. intros s. by exists 1%nat. Qed.

Lemma calls_call {A} (f : nat -> result A) : preserves calls_only (call f).
Proof.
  unfold call. apply preserves_bind; [apply _|apply calls_ask|intros r].
  apply preserves_lift, _.
Qed.

Ltac calls_step :=
  lazymatch goal with
  | |- preserves _ (mbind _ _) => apply preserves_bind; [apply _| |intros ?]
  | |- preserves _ (mret _) => apply preserves_ret, _
  | |- preserves _ (throw _) => apply preserves_throw, _
  | |- preserves _ (lift _) => apply preserves_lift, _
  | |- preserves _ (call _) => apply calls_call
  | |- preserves _ (settled _) => apply preserves_settled
  | |- preserves _ (try_catch _ _) => apply preserves_try_catch; [apply _| |intros ?]
  | |- preserves _ (mapM _ _) => apply preserves_mapM; [apply _|intros ? _]
  | |- preserves _ (if ?b then _ else _) => destruct b
  | |- preserves _ (match ?x with _ => _ end) => destruct x
  end.

(** ** Splitting lists by their outcomes *)

Section partition.
Context {A B : Type}.

Lemma fmap_omap {C} (h : B -> C) (f : A -> option B) (xs : list A) :
  h <$> omap f xs = omap (fun x => h <$> f x) xs.
Proof. induction xs as [|x xs IH]; [done|]. cbn. destruct (f x); cbn; congruence. Qed.

Lemma omap_snd {C} (f : B -> option C) (xs : list A) (ys : list B) :
  length xs = length ys -> omap f ys = omap (fun p => f (snd p)) (zip xs ys).
Proof.
  revert ys. induction xs as [|x xs IH]; intros [|y ys]; try done. intros [= H]. cbn.
  by rewrite (IH ys H).
Qed.

(** Three selections that between them take every item once. *)
Lemma omap_split3 (f g h : A -> option B) (k : A -> B) (xs : list A) :
  (forall x, x ∈ xs -> (f x, g x, h x) ∈ [(Some (k x), None, None); (None, Some (k x), None);
                                          (None, None, Some (k x))]) ->
  omap f xs ++ omap g xs ++ omap h xs ≡ₚ k <$> xs.
Proof.
  induction xs as [|x xs IH]; intros Hx; [done|].
  specialize (IH ltac:(intros; apply Hx; set_solver)). specialize (Hx x ltac:(set_solver)). cbn.
  rewrite !elem_of_cons, elem_of_nil in Hx.
  destruct Hx as [[= -> -> ->]|[[= -> -> ->]|[[= -> -> ->]|[]]]]; cbn.
  - by rewrite IH.
  - by rewrite <- Permutation_middle, IH.
  - rewrite (app_assoc (omap f xs)), <- Permutation_middle, <- app_assoc. by rewrite IH.
Qed.

Lemma omap_split (f g : A -> option B) (k : A -> B) (xs : list A) :
  (forall x, x ∈ xs -> (f x, g x) ∈ [(Some (k x), None); (None, Some (k x))]) ->
  omap f xs ++ omap g xs ≡ₚ k <$> xs.
Proof.
  intros Hx. rewrite <- (omap_split3 f g (fun _ => None) k xs).
  - assert (omap (fun _ => None) xs = @nil B) as -> by (clear; by induction xs).
    by rewrite app_nil_r.
  - intros x Hin. specialize (Hx x Hin). rewrite !elem_of_cons, elem_of_nil in Hx.
    rewrite !elem_of_cons.
    destruct Hx as [[= -> ->]|[[= -> ->]|[]]]; auto.
Qed.

Lemma Forall2_zip (P : A -> B -> Prop) xs ys p : Forall2 P xs ys -> p ∈ zip xs ys -> P (fst p) (snd p).
Proof. induction 1 as [|x y xs ys Hxy _ IH]; cbn; [set_solver|]. intros [->|?]%elem_of_cons; auto. Qed.

End partition.

Section rebalancer.
Context `{World} `{Chains} `{Routers} `{AddressLibs} (config : RebalancerConfig).

(** ** Preparation *)

(** The transaction of a route moves the least local amount that delivers the route. *)
Definition prepares (route : InternalRoute) (tx : PreparedTransaction) : Prop :=
  pt_route tx = route /\
  denormalizeToLocal (mr_amount (in_route route)) (OfToken (pt_token tx)) = Ok (pt_amount tx).

Lemma calls_prepareTransaction route : preserves calls_only (prepareTransaction config route).
Proof. unfold prepareTransaction, validateRoute. repeat calls_step. Qed.

Lemma prepareTransaction_prepares route s :
  wp (prepareTransaction config route)
     (fun _ r => forall tx, r = Ok (Some tx) -> prepares route tx) s.
Proof.
  unfold prepareTransaction. wp_step. eapply wp_mono; [apply (wp_preserves calls_only)|].
  { unfold validateRoute. repeat calls_step. }
  intros s1 [valid|e] _; [|done]. destruct (negb valid); [by wp_step|].
  destruct (map_get _ (tokensByChainName config)) as [token|]; [|by wp_step].
  destruct (map_get _ (tokensByChainName config)); [|by wp_step].
  destruct (map_get _ (chainMetadata config)); [|by wp_step].
  wp_step. wp_step; [|done]. do 2 (wp_step; apply wp_settled;
    eapply wp_mono; [apply (wp_preserves calls_only), calls_call|];
    intros ? [?|?] _; [|by wp_step]).
  wp_step. by intros tx [= <-].
Qed.

Definition failed_routes (results : list InternalExecutionResult) : Prop :=
  Forall (fun r => ir_success r = false) results.

Lemma prepareTransactions_partition routes s :
  wp (prepareTransactions config routes) (fun s' r => calls_only s s' /\
    exists txs failures, r = Ok (txs, failures) /\ Forall (fun tx => prepares (pt_route tx) tx) txs /\
      failed_routes failures /\ (pt_route <$> txs) ++ (ir_route <$> failures) ≡ₚ routes) s.
Proof.
  unfold prepareTransactions. wp_step. eapply wp_mono.
  { apply (wp_mapM (calls_only s) (fun route o => forall tx, o = Ok (Some tx) -> prepares route tx));
      [reflexivity|].
    intros route s1 _ Hs1. apply wp_settled. eapply wp_mono; [apply wp_and|].
    - apply (wp_preserves calls_only), calls_prepareTransaction.
    - apply prepareTransaction_prepares.
    - intros s2 r [Hs2 Hr]. split; [by etrans|eauto]. }
  intros s1 r [Hs1 (outcomes & -> & Ho)]. wp_step. split; [done|].
  pose proof (Forall2_length _ _ _ Ho) as Hlen.
  rewrite (omap_snd prepared_of routes outcomes Hlen).
  do 2 eexists. split; [done|]. split_and!.
  - apply Forall_forall. intros tx (p & Hin & Hp)%list_elem_of_omap.
    pose proof (Forall2_zip _ _ _ _ Ho Hin) as Hpr. cbn in Hpr.
    unfold prepared_of in Hp. destruct (snd p) as [o|]; [subst o|done].
    destruct (Hpr tx eq_refl) as [Heq Hd]. by rewrite <- Heq in Hd.
  - apply Forall_app; split; apply Forall_forall; intros r (p & _ & Hp)%list_elem_of_omap;
      unfold rejected_of, null_of in Hp; repeat case_match; naive_solver.
  - rewrite fmap_app, !fmap_omap.
    rewrite (omap_split3 _ _ _ fst).
    + by rewrite fst_zip by lia.
    + intros p Hin. pose proof (Forall2_zip _ _ _ _ Ho Hin) as Hpr. cbn in Hpr.
      unfold prepared_of, rejected_of, null_of. destruct (snd p) as [[tx|]|e]; cbn; [|set_solver..].
      specialize (Hpr tx eq_refl). destruct Hpr as [-> _]. set_solver.
Qed.

(** ** Sending *)

(** What was sent is worth the route, once it has a message. *)
Definition worth_route (r : InternalExecutionResult) : Prop :=
  has_message r = true ->
    exists amount, ir_canonicalAmount r = Some amount /\ mr_amount (in_route (ir_route r)) <= amount.

Lemma failed_worth results : failed_routes results -> Forall worth_route results.
Proof.
  intros Hf. eapply Forall_impl; [exact Hf|]. intros r Hr. unfold worth_route, has_message. by rewrite Hr.
Qed.

Definition send_tx (r : SendResult) : PreparedTransaction :=
  match r with SentTransaction tx _ | SendError tx _ => tx end.

Lemma calls_send_transaction origin tx : preserves calls_only (send_transaction origin tx).
Proof. unfold send_transaction. repeat calls_step. Qed.

Definition readable (receipt : TransactionReceipt) : Prop :=
  exists ids, dispatchedMessages receipt = Ok ids.
Definition readable_send (r : SendResult) : Prop :=
  match r with SentTransaction _ receipt => readable receipt | SendError _ _ => True end.

(** Every receipt a node returns can be read. *)
Class ReadableReceipts : Prop := {
  receipts_readable k origin tx reorgPeriod receipt :
    m_sendTransaction k origin tx reorgPeriod = Ok receipt -> readable receipt
}.
Context `{!ReadableReceipts}.

Lemma send_transaction_of origin tx s :
  wp (send_transaction origin tx) (fun s' r => calls_only s s' /\
    exists x, r = Ok x /\ send_tx x = tx /\ readable_send x) s.
Proof.
  eapply wp_mono; [apply wp_and; [apply (wp_preserves calls_only), calls_send_transaction|]|].
  2: { intros s1 r [Hs1 Hr]. split; [exact Hs1|exact Hr]. }
  unfold send_transaction. wp_step. wp_step. wp_step; [|wp_step; eexists; by split_and!].
  wp_step. unfold call. wp_step. unfold ask. unfold wp at 1. cbn.
  destruct (m_sendTransaction _ _ _ _) as [receipt|] eqn:E; cbn; unfold wp; cbn;
    eexists; split_and!; try done. by eapply receipts_readable.
Qed.

Lemma group_tx_values groups tx :
  concat (map_values (group_tx groups tx)) ≡ₚ concat (map_values groups) ++ [tx].
Proof.
  unfold group_tx, map_values. destruct (map_get (tx_origin tx) groups) as [txs|] eqn:E; cbn [from_option id].
  - destruct (map_set_split _ (txs ++ [tx]) _ _ E) as (m1 & m2 & -> & _ & ->).
    rewrite !fmap_app, !concat_app. cbn. rewrite <- !app_assoc. f_equiv. f_equiv.
    by rewrite Permutation_app_comm.
  - rewrite (map_set_new _ _ _ E), fmap_app, concat_app. done.
Qed.

Lemma grouped txs groups :
  concat (map_values (foldl group_tx groups txs)) ≡ₚ concat (map_values groups) ++ txs.
Proof.
  revert groups. induction txs as [|tx txs IH]; intros groups; [by rewrite app_nil_r|].
  cbn [foldl]. by rewrite IH, group_tx_values, <- app_assoc.
Qed.

Lemma buildResult_worth tx receipt :
  prepares (pt_route tx) tx -> readable receipt ->
  exists r, buildResult tx receipt = Ok r /\ ir_route r = pt_route tx /\ worth_route r.
Proof.
  intros [_ Hd] [ids Hids]. unfold buildResult. rewrite Hids. cbn.
  destruct ids as [|id ids]; [by eexists|].
  destruct (minLocal_delivers _ _ _ Hd) as (_ & y & Hy & Hle).
  unfold normalizeToCanonical. rewrite Hy. cbn. eexists. split_and!; [done..|].
  intros _. by exists y.
Qed.

(** Estimation splits the transactions into those to send and failures. *)
Lemma estimates_split txs (estimates : list (result unit)) :
  length txs = length estimates -> Forall (fun tx => prepares (pt_route tx) tx) txs ->
  let valid := omap estimated_of (zip txs estimates) in
  let refused := omap estimate_failure (zip txs estimates) in
  Forall (fun tx => prepares (pt_route tx) tx) valid /\ failed_routes refused /\
  (pt_route <$> valid) ++ (ir_route <$> refused) ≡ₚ pt_route <$> txs.
Proof.
  intros Hlen Htxs valid refused. split_and!.
  - apply Forall_forall. intros tx (p & Hin & Hp)%list_elem_of_omap. unfold estimated_of in Hp.
    case_match; [|done]. injection Hp as <-. rewrite Forall_forall in Htxs. apply Htxs.
    rewrite <- (fst_zip txs estimates) by lia. by apply list_elem_of_fmap_2.
  - apply Forall_forall. intros r (p & _ & Hp)%list_elem_of_omap.
    unfold estimate_failure in Hp. case_match; naive_solver.
  - unfold valid, refused. rewrite !fmap_omap, (omap_split _ _ (pt_route ∘ fst)).
    + rewrite list_fmap_compose, fst_zip by lia. done.
    + intros p _. unfold estimated_of, estimate_failure. destruct (snd p); cbn; set_solver.
Qed.

(** Results are built of all confirmed sends. *)
Lemma sends_built sends :
  Forall readable_send sends ->
  Forall (fun x => prepares (pt_route (send_tx x)) (send_tx x)) sends ->
  exists built, mapM (fun '(tx, receipt) => buildResult tx receipt) (omap send_success sends)
      = Ok built /\ Forall worth_route built /\
    ir_route <$> built = pt_route ∘ fst <$> omap send_success sends.
Proof.
  induction sends as [|[tx receipt|tx e] sends IH]; [by exists []|..];
    intros [Hr Hread]%Forall_cons [Hp Hprep]%Forall_cons; [|by apply IH].
  destruct (IH Hread Hprep) as (built & Hb & Hbw & Hbr).
  destruct (buildResult_worth tx receipt Hp Hr) as (r & Hr' & Hroute & Hw).
  exists (r :: built). cbn. rewrite Hr'. cbn. cbn in Hb. rewrite Hb. cbn.
  split_and!; [done|by constructor|by f_equal].
Qed.

(** With the failed sends they account for every transaction sent. *)
Lemma sends_results sends built :
  ir_route <$> built = pt_route ∘ fst <$> omap send_success sends ->
  ir_route <$> (omap send_failure sends ++ built) ≡ₚ pt_route ∘ send_tx <$> sends.
Proof.
  intros Hb. rewrite fmap_app, Hb, !fmap_omap. apply omap_split. intros [|] _; cbn; set_solver.
Qed.

Lemma send_groups groups s :
  wp (mapM (fun '(origin, txs) => settled (sendTransactionsForChain origin txs)) groups)
     (fun s' r => calls_only s s' /\ exists chains, r = Ok chains /\
       Forall2 (fun tx x => send_tx x = tx /\ readable_send x)
         (concat (map_values groups)) (concat (chain_sends <$> chains))) s.
Proof.
  eapply wp_mono.
  { apply (wp_mapM (calls_only s) (fun group r =>
      Forall2 (fun tx x => send_tx x = tx /\ readable_send x) (snd group) (chain_sends r)));
      [reflexivity|].
    intros [origin group] s2 _ Hs2. apply wp_settled. eapply wp_mono.
    - apply (wp_mapM (calls_only s) (fun tx x => send_tx x = tx /\ readable_send x)); [done|].
      intros tx s3 _ Hs3. eapply wp_mono; [apply send_transaction_of|].
      intros s4 r [Hs4 (x & -> & Hx)]. split; [by etrans|eauto].
    - intros s3 r [Hs3 (xs & -> & Hxs)]. split; [done|]. eexists. split; [done|exact Hxs]. }
  intros s1 r [Hs1 (chains & -> & Hch)]. split; [done|]. eexists. split; [done|].
  unfold map_values. clear -Hch. induction Hch; cbn; [constructor|]. by apply Forall2_app.
Qed.

Lemma executeTransactions_partition txs s :
  Forall (fun tx => prepares (pt_route tx) tx) txs ->
  wp (executeTransactions txs) (fun s' r => calls_only s s' /\ exists results, r = Ok results /\
    Forall worth_route results /\ ir_route <$> results ≡ₚ pt_route <$> txs) s.
Proof.
  intros Htxs. unfold executeTransactions. wp_step. eapply wp_mono.
  { apply (wp_mapM (calls_only s) (fun _ _ => True)); [reflexivity|].
    intros tx s1 _ Hs1. apply wp_settled. eapply wp_mono; [apply (wp_preserves calls_only), calls_call|].
    intros s2 r Hs2. split; [by etrans|eauto]. }
  intros s1 r [Hs1 (estimates & -> & Ho%Forall2_length)].
  destruct (estimates_split txs estimates Ho Htxs) as (Hvalid & Hrefused & Hsplit).
  set (valid := omap estimated_of _) in *. set (refused := omap estimate_failure _) in *.
  clearbody valid refused. case_bool_decide as Hnil.
  { wp_step. split; [done|]. exists refused. split_and!; [done|by apply failed_worth|].
    apply nil_length_inv in Hnil. by subst valid. }
  wp_step. eapply wp_mono; [apply send_groups|]. intros s2 r [Hs2 (chains & -> & Hsends)].
  pose proof (grouped valid []) as Hgroup. cbn [map_values concat fmap list_fmap app] in Hgroup.
  set (sends := concat (chain_sends <$> chains)) in *. clearbody sends.
  assert (send_tx <$> sends ≡ₚ valid) as Htx.
  { rewrite <- Hgroup. clear -Hsends. induction Hsends as [|? ? ? ? [<- _]]; cbn; [done|by f_equiv]. }
  destruct (sends_built sends) as (built & Hb & Hbw & Hbr).
  { clear -Hsends. induction Hsends; constructor; naive_solver. }
  { apply Forall_forall. intros x Hx. rewrite Forall_forall in Hvalid. apply Hvalid.
    rewrite <- Htx. by apply list_elem_of_fmap_2. }
  wp_step. rewrite Hb. wp_step; [|done]. wp_step. simplify_eq. split; [by etrans|].
  eexists. split; [done|]. split.
  - apply Forall_app; split; [by apply failed_worth|]. apply Forall_app; split; [|done].
    apply failed_worth, Forall_forall. intros r (x & _ & Hx)%list_elem_of_omap.
    destruct x; naive_solver.
  - rewrite <- Hsplit, <- Htx, (fmap_app ir_route refused), (sends_results _ _ Hbr).
    by rewrite Permutation_app_comm, list_fmap_compose.
Qed.

(** ** The tracker *)

Context `{!FreshIds}.

(** Both chains of a route are known to the registry. *)
Definition known_route (route : MovableCollateralRoute) : Prop :=
  is_ok (c_domainId (mr_origin route)) = true /\ is_ok (c_domainId (mr_destination route)) = true.

Definition intent_for (route : MovableCollateralRoute) (i : RebalanceIntent) : Prop :=
  c_domainId (mr_origin route) = Ok (i_origin i) /\
  c_domainId (mr_destination route) = Ok (i_destination i) /\
  i_amount i = mr_amount route /\ i_bridge i = mr_bridge route /\
  i_executionMethod i = Some movable_collateral.

Lemma is_ok_true {A} (r : result A) : is_ok r = true -> exists a, r = Ok a.
Proof. destruct r; [eauto|done]. Qed.

Lemma createIntent_run route s :
  Inv s -> known_route route ->
  exists s' i, createIntent route s = (s', Ok i) /\ Inv s' /\ intent_for route i /\
    i_status i = IntentNotStarted /\
    rebalanceIntentStore s' = rebalanceIntentStore s ++ [(i_id i, i)] /\
    rebalanceActionStore s' = rebalanceActionStore s /\ transferStore s' = transferStore s.
Proof.
  intros Hs [(o & Ho)%is_ok_true (d & Hd)%is_ok_true]. unfold createIntent.
  rewrite Ho, Hd, !lift_ok_bind. set (p := {| ip_origin := o |}).
  pose proof (preserves_createRebalanceIntent p s Hs) as (Hs' & _).
  destruct (createRebalanceIntent p s) as [s' [i|e]] eqn:Hrun; [|discriminate Hrun].
  exists s', i. split; [done|]. split; [exact Hs'|]. clear Hs'.
  unfold createRebalanceIntent, uuidv4, now, save_intent in Hrun.
  rewrite !ask_bind, modify_bind in Hrun. injection Hrun as <- <-. cbn -[save].
  split_and!; try done. destruct Hs as [_ Hf]. apply map_set_new. by apply (Hf (tick s)).
Qed.

Lemma createIntents_run routes s :
  Inv s -> Forall known_route routes ->
  exists s' intents, createIntents routes s = (s', Ok intents) /\ Inv s' /\
    Forall2 (fun r i => intent_for r i /\ i_status i = IntentNotStarted) routes intents /\
    rebalanceIntentStore s' = rebalanceIntentStore s ++ ((fun i => (i_id i, i)) <$> intents) /\
    rebalanceActionStore s' = rebalanceActionStore s /\ transferStore s' = transferStore s.
Proof.
  intros Hs Hr. unfold createIntents. revert s Hs.
  induction Hr as [|route routes Hroute _ IH]; intros s Hs.
  { exists s, []. rewrite app_nil_r. by split_and!. }
  destruct (createIntent_run route s Hs Hroute) as (s1 & i & Hrun & Hs1 & Hi & Hst & HI & HA & HT).
  destruct (IH s1 Hs1) as (s2 & intents & Hruns & Hs2 & Hall & HI2 & HA2 & HT2).
  exists s2, (i :: intents). cbn [mapM]. rewrite (eff_bind_ok _ _ _ _ _ Hrun).
  rewrite (eff_bind_ok _ _ _ _ _ Hruns). split_and!; [done..| | |by rewrite HA2|by rewrite HT2].
  - by constructor.
  - rewrite HI2, HI, <- app_assoc. done.
Qed.

(** The record of a result that was sent. *)
Definition records (r : InternalExecutionResult) (a : RebalanceAction) : Prop :=
  let route := in_route (ir_route r) in
  a_intentId a = in_intentId (ir_route r) /\ a_type a = rebalance_message /\
  a_status a = ActionInProgress /\ a_messageId a = Some (ir_messageId r) /\
  a_txHash a = ir_txHash r /\ c_domainId (mr_origin route) = Ok (a_origin a) /\
  c_domainId (mr_destination route) = Ok (a_destination a) /\ mr_amount route <= a_amount a.

Definition outcome_status (r : InternalExecutionResult) : RebalanceIntentStatus :=
  if has_message r then IntentInProgress else IntentFailed.

Definition sent_results (results : list InternalExecutionResult) : list InternalExecutionResult :=
  filter (fun r => has_message r = true) results.

Definition intent_of (r : InternalExecutionResult) : string := in_intentId (ir_route r).

(** What settling some results does: their intents get their status, nothing else of the
    intents changes, and the actions of those sent are appended. *)
Record settles (results : list InternalExecutionResult) (s s' : ActionTracker) : Prop := {
  st_inv : Inv s';
  st_transfers : transferStore s' = transferStore s;
  st_intents r : r ∈ results -> exists i i', getRebalanceIntent (intent_of r) s = Some i /\
    getRebalanceIntent (intent_of r) s' = Some i' /\ intent_core i' = intent_core i /\
    i_status i' = outcome_status r;
  st_others id : id ∉ intent_of <$> results -> getRebalanceIntent id s' = getRebalanceIntent id s;
  st_actions : exists new, getAll (rebalanceActionStore s') = getAll (rebalanceActionStore s) ++ new /\
    Forall2 records (sent_results results) new
}.

(** Setting the status of one intent. *)
Lemma set_status_run id i st s :
  getRebalanceIntent id s = Some i ->
  exists s' i', update_intent id (set_intent_status st) s = (s', Ok ()) /\
    transferStore s' = transferStore s /\ rebalanceActionStore s' = rebalanceActionStore s /\
    intent_core i' = intent_core i /\ i_status i' = st /\
    forall id', getRebalanceIntent id' s' = if decide (id = id') then Some i' else getRebalanceIntent id' s.
Proof.
  intros Hi. rewrite update_intent_run.
  destruct (update_total id (set_intent_status st) (w_now (tick s)) _ _ Hi) as [store E].
  rewrite E. eexists _, (tr_touch (w_now (tick s)) (set_intent_status st i)).
  split_and!; try done. intros id'. unfold getRebalanceIntent in *.
  cbn [rebalanceIntentStore with_intents]. by rewrite (store_get_update _ _ _ _ _ id' E), Hi.
Qed.

Definition action_for (p : CreateRebalanceActionParams) (a : RebalanceAction) : Prop :=
  a_intentId a = ap_intentId p /\ a_type a = ap_type p /\ a_status a = ActionInProgress /\
  a_messageId a = ap_messageId p /\ a_txHash a = ap_txHash p /\ a_origin a = ap_origin p /\
  a_destination a = ap_destination p /\ a_amount a = ap_amount p.

(** The first action of an intent starts it. *)
Lemma createRebalanceAction_run p i s :
  Inv s -> getRebalanceIntent (ap_intentId p) s = Some i -> i_status i = IntentNotStarted ->
  exists s' a i', createRebalanceAction p s = (s', Ok a) /\ Inv s' /\ action_for p a /\
    transferStore s' = transferStore s /\
    rebalanceActionStore s' = rebalanceActionStore s ++ [(a_id a, a)] /\
    intent_core i' = intent_core i /\ i_status i' = IntentInProgress /\
    forall id, getRebalanceIntent id s' =
      if decide (ap_intentId p = id) then Some i' else getRebalanceIntent id s.
Proof.
  intros Hs Hi Hst. pose proof (preserves_createRebalanceAction p s Hs) as (Hs' & _).
  assert (i_id i = ap_intentId p) as Hid by (destruct Hs as [[_ [_ Hw] _] _]; by apply Hw).
  unfold createRebalanceAction, uuidv4, now, save_action in Hs' |- *.
  rewrite !ask_bind, modify_bind, gets_bind in Hs' |- *.
  set (a := {| a_id := _ |}) in *. set (s1 := with_actions _ _) in *.
  change (getRebalanceIntent (ap_intentId p) s1) with (getRebalanceIntent (ap_intentId p) s) in *.
  rewrite Hi in Hs' |- *. rewrite bool_decide_true in Hs' |- * by done. rewrite Hid in Hs' |- *.
  destruct (set_status_run (ap_intentId p) i IntentInProgress s1 Hi)
    as (s' & i' & Hrun & HT & HA & Hc & Hi' & Hget).
  rewrite (eff_bind_ok _ _ _ _ _ Hrun) in Hs' |- *.
  exists s', a, i'. split_and!; try done. rewrite HA. destruct Hs as [_ Hf]. apply map_set_new.
  by apply (Hf (tick s)).
Qed.

Lemma sent_results_cons r results :
  sent_results (r :: results) = (if has_message r then [r] else []) ++ sent_results results.
Proof. unfold sent_results. rewrite filter_cons. by destruct (has_message r). Qed.

Lemma getAll_app {T} (st1 st2 : Store T) : getAll (st1 ++ st2) = getAll st1 ++ getAll st2.
Proof. apply fmap_app. Qed.

Lemma processResult_settles r i s :
  Inv s -> known_route (in_route (ir_route r)) -> worth_route r ->
  getRebalanceIntent (intent_of r) s = Some i -> i_status i = IntentNotStarted ->
  exists s', processResult r s = (s', Ok ()) /\ settles [r] s s'.
Proof.
  intros Hs Hk Hw Hi Hst. unfold processResult.
  destruct (has_message r) eqn:Hm; cycle 1.
  - destruct (set_status_run _ i IntentFailed s Hi) as (s' & i' & Hrun & HT & HA & Hc & Hi' & Hget).
    pose proof (preserves_update_intent (intent_of r) (set_intent_status IntentFailed)
      ltac:(done) s Hs) as (Hs' & _). rewrite Hrun in Hs'.
    exists s'. split; [exact Hrun|]. constructor; [done..| | |].
    + intros r' ->%list_elem_of_singleton. exists i, i'. rewrite Hget, decide_True by done.
      unfold outcome_status. by rewrite Hm.
    + intros id Hid. rewrite Hget, decide_False; [done|]. intros <-. apply Hid. cbn. set_solver.
    + exists []. rewrite app_nil_r, HA, sent_results_cons, Hm. by split.
  - destruct Hk as [(o & Ho)%is_ok_true (d & Hd)%is_ok_true].
    rewrite Ho, Hd, !lift_ok_bind. set (p := {| ap_intentId := _ |}).
    destruct (createRebalanceAction_run p i s Hs Hi Hst)
      as (s' & a & i' & Hrun & Hs' & Ha & HT & HA & Hc & Hi' & Hget).
    exists s'. split; [by rewrite (eff_bind_ok _ _ _ _ _ Hrun)|]. constructor; [done..| | |].
    + intros r' ->%list_elem_of_singleton. exists i, i'. rewrite Hget, decide_True by done.
      unfold outcome_status. by rewrite Hm.
    + intros id Hid. rewrite Hget, decide_False; [done|]. intros <-. apply Hid. cbn. set_solver.
    + exists [a]. rewrite HA, getAll_app, sent_results_cons, Hm. split; [done|].
      constructor; [|constructor]. destruct Ha as (? & ? & ? & ? & ? & ? & ? & Hamount).
      destruct (Hw Hm) as (amount & Hcan & Hle).
      unfold records. subst p. cbn in *. rewrite Hcan in Hamount. cbn in Hamount.
      split_and!; congruence || lia.
Qed.

Lemma settles_cons r results s s1 s' :
  intent_of r ∉ intent_of <$> results ->
  settles [r] s s1 -> settles results s1 s' -> settles (r :: results) s s'.
Proof.
  intros Hr [Hs1 HT1 HI1 HO1 (new1 & HA1 & HR1)] [Hs2 HT2 HI2 HO2 (new2 & HA2 & HR2)].
  constructor; [done|congruence|..].
  - intros r' [->|Hin]%elem_of_cons.
    + destruct (HI1 r ltac:(set_solver)) as (i & i' & ? & Hi' & ? & ?).
      exists i, i'. split_and!; [done| |done..]. by rewrite HO2.
    + destruct (HI2 r' Hin) as (i & i' & Hi & ? & ? & ?).
      exists i, i'. split_and!; [|done..]. rewrite <- Hi. symmetry. apply HO1.
      cbn. intros Heq%list_elem_of_singleton. apply Hr. rewrite <- Heq. by apply list_elem_of_fmap_2.
  - intros id Hid. rewrite HO2, HO1; [done|..]; cbn in *; set_solver.
  - exists (new1 ++ new2). rewrite HA2, HA1, app_assoc. split; [done|].
    rewrite sent_results_cons. apply Forall2_app; [|done].
    rewrite sent_results_cons in HR1. cbn in HR1. by rewrite app_nil_r in HR1.
Qed.

Lemma processResults_settles results s :
  Inv s -> NoDup (intent_of <$> results) ->
  Forall (fun r => known_route (in_route (ir_route r)) /\ worth_route r /\
    exists i, getRebalanceIntent (intent_of r) s = Some i /\ i_status i = IntentNotStarted) results ->
  exists s', processResults results s = (s', Ok ()) /\ settles results s s'.
Proof.
  intros Hs. revert s Hs. induction results as [|r results IH]; intros s Hs Hnd Hall.
  { exists s. split; [done|]. constructor; try done; [set_solver|]. exists []. by rewrite app_nil_r. }
  apply NoDup_cons in Hnd as [Hr Hnd]. apply Forall_cons in Hall as [(Hk & Hw & i & Hi & Hst) Hall].
  destruct (processResult_settles r i s Hs Hk Hw Hi Hst) as (s1 & Hrun & Hone).
  destruct (IH s1 (st_inv _ _ _ Hone) Hnd) as (s2 & Hruns & Hrest).
  { apply Forall_forall. intros r' Hin. rewrite Forall_forall in Hall.
    destruct (Hall r' Hin) as (Hk' & Hw' & i' & Hi' & Hst'). split_and!; [done..|]. exists i'. split; [|done].
    rewrite <- Hi'. apply (st_others _ _ _ Hone). cbn. intros Heq%list_elem_of_singleton.
    apply Hr. rewrite <- Heq. by apply list_elem_of_fmap_2. }
  exists s2. split; [|by eapply settles_cons]. unfold processResults. cbn [for_each].
  by rewrite (eff_bind_ok _ _ _ _ _ Hrun).
Qed.

(** *** The whole method *)

Lemma internal_routes_facts routes intents :
  Forall2 (fun r i => intent_for r i /\ i_status i = IntentNotStarted) routes intents ->
  let internalRoutes := zip_with internal_route routes intents in
  in_route <$> internalRoutes = routes /\ in_intentId <$> internalRoutes = i_id <$> intents /\
  forall x, x ∈ internalRoutes -> exists i, i ∈ intents /\ in_intentId x = i_id i /\
    intent_for (in_route x) i /\ i_status i = IntentNotStarted.
Proof.
  induction 1 as [|r i routes intents [Hri Hst] _ (IH1 & IH2 & IH3)]; cbn;
    [split_and!; [done..|set_solver]|].
  split_and!; [by f_equal..|]. intros x [->|Hx]%elem_of_cons.
  - exists i. split_and!; [set_solver|done..].
  - destruct (IH3 x Hx) as (i' & ? & ?). exists i'. split; [set_solver|done].
Qed.

Lemma map_get_app {V} k (m1 m2 : list (string * V)) :
  map_get k (m1 ++ m2) = match map_get k m1 with Some v => Some v | None => map_get k m2 end.
Proof. induction m1 as [|[k' v] m1 IH]; cbn; [done|]. by case_decide. Qed.

(** New intents under new ids. *)
Lemma created_intents s s1 intents :
  Inv s1 -> rebalanceIntentStore s1 = rebalanceIntentStore s ++ ((fun i => (i_id i, i)) <$> intents) ->
  NoDup (i_id <$> intents) /\
  (forall i, i ∈ intents -> getRebalanceIntent (i_id i) s = None /\ getRebalanceIntent (i_id i) s1 = Some i) /\
  (forall id, id ∉ i_id <$> intents -> getRebalanceIntent id s1 = getRebalanceIntent id s).
Proof.
  intros [[_ [Hwf _] _] _] HI. unfold getRebalanceIntent, store_get. unfold map_wf, map_keys in Hwf.
  pose proof Hwf as Hnd. rewrite HI, fmap_app, <- list_fmap_compose in Hnd.
  change (fst ∘ (fun i => (i_id i, i))) with i_id in Hnd.
  apply NoDup_app in Hnd as (_ & Hdisj & Hnd). split_and!; [done|..].
  - intros i Hi. split.
    + apply map_get_None. intros Hk. apply (Hdisj _ Hk). by apply list_elem_of_fmap_2.
    + apply map_elem_get; [done|]. rewrite HI. apply elem_of_app. right.
      apply list_elem_of_fmap. eauto.
  - intros id Hid. rewrite HI, map_get_app. destruct (map_get id (rebalanceIntentStore s)); [done|].
    apply map_get_None. unfold map_keys. by rewrite <- list_fmap_compose.
Qed.

Lemma calls_only_same s s' : calls_only s s' -> Inv s ->
  Inv s' /\ transferStore s' = transferStore s /\ rebalanceIntentStore s' = rebalanceIntentStore s /\
  rebalanceActionStore s' = rebalanceActionStore s.
Proof. intros [n ->] Hs. split_and!; [|done..]. by apply (keeps_later n s Hs). Qed.

(** What is done with the internal routes before they are recorded. *)
Lemma attempt_routes internalRoutes s :
  wp ('(txs, failures) ← prepareTransactions config internalRoutes;
      results ← (if bool_decide (txs = []) then mret [] else executeTransactions txs);
      mret (failures ++ results))
     (fun s' r => calls_only s s' /\ exists results, r = Ok results /\
       Forall worth_route results /\ ir_route <$> results ≡ₚ internalRoutes) s.
Proof.
  wp_step. eapply wp_mono; [apply prepareTransactions_partition|].
  intros s1 r [Hs1 (txs & failures & -> & Htxs & Hfail & Hsplit)]. wp_step.
  case_bool_decide as Hnil.
  - do 2 wp_step. split; [done|]. exists failures. subst txs. rewrite app_nil_r.
    split_and!; [done|by apply failed_worth|exact Hsplit].
  - eapply wp_mono; [by apply executeTransactions_partition|].
    intros s2 r [Hs2 (results & -> & Hw & Hp)]. wp_step. split; [by etrans|].
    eexists. split_and!; [done| |].
    + apply Forall_app; split; [by apply failed_worth|done].
    + by rewrite fmap_app, Hp, Permutation_app_comm.
Qed.

Lemma rebalance_unfold routes s :
  routes <> [] -> Forall (fun r => has_bridge r = true) routes ->
  rebalance config routes s = (
    intents ← createIntents routes;
    results ← ('(txs, failures) ← prepareTransactions config (zip_with internal_route routes intents);
               results ← (if bool_decide (txs = []) then mret [] else executeTransactions txs);
               mret (failures ++ results));
    _ ← processResults results;
    mret (toPublicResult <$> results)) s.
Proof.
  intros Hne Hb. unfold rebalance. rewrite bool_decide_eq_false_2 by done.
  assert (existsb (fun r => negb (has_bridge r)) routes = false) as ->.
  { apply not_true_iff_false. intros (r & Hin & Hr)%existsb_exists.
    rewrite Forall_forall in Hb. rewrite Hb in Hr; [done|]. by apply list_elem_of_In. }
  rewrite !eff_bind_run. destruct (createIntents routes s) as [s1 [intents|e]]; [|done].
  rewrite !bind_assoc, !eff_bind_run.
  destruct (prepareTransactions config _ s1) as [s2 [[txs failures]|e]]; [|done].
  rewrite bind_assoc, !eff_bind_run. destruct (bool_decide (txs = [])); [done|].
  by destruct (executeTransactions txs s2) as [s3 [results|e]].
Qed.

Lemma intent_for_core route i i' :
  intent_core i' = intent_core i -> intent_for route i -> intent_for route i'.
Proof.
  unfold intent_core, intent_for. intros Hc. 
  assert (i_origin i' = i_origin i /\ i_destination i' = i_destination i /\ i_amount i' = i_amount i /\
    i_bridge i' = i_bridge i /\ i_executionMethod i' = i_executionMethod i) as (-> & -> & -> & -> & ->).
  { cbn in Hc. injection Hc as ? ? ? ? ? ? ? ? ? ?. by split_and!. }
  done.
Qed.

End rebalancer.

(** The whole method, for its clients. *)
Lemma rebalance_settled `{World} `{Chains} `{Routers} `{AddressLibs}
    `{!ReadableReceipts} `{!FreshIds} config routes s :
  Inv s -> Forall known_route routes -> Forall (fun r => has_bridge r = true) routes ->
  exists s' results, rebalance config routes s = (s', Ok (toPublicResult <$> results)) /\
    in_route ∘ ir_route <$> results ≡ₚ routes /\
    NoDup (intent_of <$> results) /\
    (forall r, r ∈ results -> getRebalanceIntent (intent_of r) s = None /\
       exists i, getRebalanceIntent (intent_of r) s' = Some i /\
         intent_for (in_route (ir_route r)) i /\ i_status i = outcome_status r) /\
    (forall id, id ∉ intent_of <$> results -> getRebalanceIntent id s' = getRebalanceIntent id s) /\
    (exists new, getAll (rebalanceActionStore s') = getAll (rebalanceActionStore s) ++ new /\
       Forall2 records (sent_results results) new) /\
    transferStore s' = transferStore s.
Proof.
  intros Hs Hknown Hb. destruct (decide (routes = [])) as [->|Hne].
  { exists s, []. split_and!; try done; [constructor|set_solver|]. exists []. by rewrite app_nil_r. }
  rewrite rebalance_unfold by done.
  destruct (createIntents_run routes s Hs Hknown) as (s1 & intents & Hrun & Hs1 & Hin & HI & HA & HT).
  rewrite (eff_bind_ok _ _ _ _ _ Hrun).
  destruct (internal_routes_facts _ _ Hin) as (Hroutes & Hids & Hint).
  set (internalRoutes := zip_with internal_route routes intents) in *.
  pose proof (attempt_routes config internalRoutes s1) as Hat.
  set (attempt := mbind _ (prepareTransactions config internalRoutes)) in *.
  unfold wp in Hat. destruct (attempt s1) as [s2 r] eqn:Hattempt. cbn [fst snd] in Hat.
  destruct Hat as [Hcalls (results & -> & Hworth & Hperm)].
  rewrite (eff_bind_ok _ _ _ _ _ Hattempt).
  destruct (calls_only_same _ _ Hcalls Hs1) as (Hs2 & HT2 & HI2 & HA2).
  destruct (created_intents _ _ _ Hs1 HI) as (Hnd & Hnew & Hold).
  assert (forall id, getRebalanceIntent id s2 = getRebalanceIntent id s1) as Hget
    by (intros id; unfold getRebalanceIntent; by rewrite HI2).
  assert (intent_of <$> results ≡ₚ i_id <$> intents) as Hidp.
  { rewrite <- Hids, <- Hperm, <- list_fmap_compose. done. }
  assert (forall r, r ∈ results -> exists i, i ∈ intents /\ intent_of r = i_id i /\
    intent_for (in_route (ir_route r)) i /\ i_status i = IntentNotStarted) as Hres.
  { intros r Hr. apply Hint. rewrite <- Hperm. by apply list_elem_of_fmap_2. }
  destruct (processResults_settles results s2 Hs2) as (s3 & Hproc & Hset).
  { by rewrite Hidp. }
  { apply Forall_forall. intros r Hr. destruct (Hres r Hr) as (i & Hi & Hid & Hfor & Hst).
    split_and!.
    - rewrite Forall_forall in Hknown. apply Hknown. rewrite <- Hroutes, <- Hperm, <- list_fmap_compose.
      by apply (list_elem_of_fmap_2 (in_route ∘ ir_route)).
    - rewrite Forall_forall in Hworth. by apply Hworth.
    - exists i. rewrite Hid, Hget. split; [by apply Hnew|done]. }
  exists s3, results. destruct Hset as [_ HT3 HI3 HO3 HA3]. split_and!.
  - by rewrite (eff_bind_ok _ _ _ _ _ Hproc).
  - rewrite list_fmap_compose, Hperm. by rewrite Hroutes.
  - by rewrite Hidp.
  - intros r Hr. destruct (Hres r Hr) as (i & Hi & Hid & Hfor & _).
    destruct (Hnew i Hi) as [Hnone Hsome]. rewrite <- Hid in Hnone, Hsome. split; [done|].
    destruct (HI3 r Hr) as (i0 & i' & Hi0 & Hi' & Hc & Hst'). rewrite Hget, Hsome in Hi0.
    injection Hi0 as <-. exists i'. split_and!; [done|by eapply intent_for_core|done].
  - intros id Hid. rewrite HO3, Hget by done. apply Hold. by rewrite <- Hidp.
  - rewrite HA2, HA in HA3. exact HA3.
  - congruence.
Qed.


(** ** A concrete outside *)

Definition router_a : string := "0x00000000000000000000000000000000000000aa".
Definition router_b : string := "0x00000000000000000000000000000000000000Bb".

(** Bridge [0xb1] is allowed and no other. *)
#[export] Instance sample_routers : Routers := {|
  m_movable := fun _ => Ok true;
  m_signerAddress := fun _ _ => Ok "0xsigner"%string;
  m_isRebalancer := fun _ _ _ => Ok true;
  m_getAllowedDestination := fun _ _ _ => Ok (to_lower router_b);
  m_isBridgeAllowed := fun _ _ _ bridge => Ok (String.eqb bridge "0xb1");
  m_getRebalanceQuotes := fun _ _ _ _ _ _ => Ok [];
  m_populateRebalanceTx := fun _ _ _ _ _ _ => Ok {| tx_payload := "tx" |};
  m_estimateGas := fun _ _ _ => Ok ();
  m_sendTransaction := fun _ _ _ _ =>
    Ok {| transactionHash := "0xt"; dispatchedMessages := Ok ["0xm3"%string] |}
|}.

#[export] Instance sample_readable : ReadableReceipts.
Proof. split. intros k origin tx p receipt [= <-]. by eexists. Qed.

Definition routed_token (chain router : string) : Token := {|
  tok_chainName := chain; tok_standard := EvmHypCollateral; tok_decimals := 6; tok_scale := None;
  tok_addressOrDenom := router; tok_collateralAddressOrDenom := None |}.

Definition sample_rebalancer : RebalancerConfig := {|
  chainMetadata := [("a", 1); ("b", 2)]%string;
  tokensByChainName := [("a", routed_token "a" router_a); ("b", routed_token "b" router_b)]%string |}.

Definition sample_movable (bridge : string) (amount : Z) : MovableCollateralRoute := {|
  mr_origin := "a"; mr_destination := "b"; mr_amount := amount; mr_bridge := Some bridge |}.

(** The route through the allowed bridge is sent, the other one refused. *)
Example sample_rebalance_statuses :
  let s := fst (rebalance sample_rebalancer [sample_movable "0xb1" 100; sample_movable "0xb2" 7] empty_tracker) in
  (i_status <$> getAll (rebalanceIntentStore s), a_amount <$> getAll (rebalanceActionStore s)) =
  ([IntentInProgress; IntentFailed], [100]).
Proof. vm_compute. reflexivity. Qed.

