(* ===== verification/Orchestrator.v ===== *)
(** One polling cycle of the rebalancer: rebalancer/src/core/RebalancerOrchestrator.ts. It
    synchronizes the tracker, reads the balances off the event of the monitor, asks the strategy
    for routes, and hands them to the rebalancers by how they are executed. The state is that of
    the inventory rebalancer, whose tracker all parts share. *)
From Stdlib Require Import ZArith Lia String.
From stdpp Require Import base tactics list gmap strings.
From S2P Require Import Prelude JsMap Amount Token Route Config BaseStrategy Strategies.
From S2P Require Import AddressEq BlockTag Store ActionTracker Gas InventoryRebalancer Rebalancer.

#[local] Open Scope Z_scope.

(** [ConfirmedBlockTags] and [MonitorEvent]. *)
Definition ConfirmedBlockTags : Type := list (string * option BlockTag).

Record MonitorEvent : Type := {
  tokensInfo : list TokenInfo;
  confirmedBlockTags : ConfirmedBlockTags;
  event_inventoryBalances : option (list (string * Z))
}.

(** [confirmedBlockTags[chain]]. *)
Definition tag_of (tags : ConfirmedBlockTags) (chain : string) : option BlockTag :=
  default None (map_get chain tags).

(** What the constructor is given. [rebalancersByType] holds at most one rebalancer of each of
    the two types; the bridges of the registry are those of the tracker's synchronization. *)
Record RebalancerOrchestrator : Type := {
  strategy : IStrategy;
  trackerConfig : ActionTrackerConfig;
  strategyConfig : list StrategyConfig;
  movableCollateralRebalancer : option RebalancerConfig;
  inventoryRebalancer : option InventoryRebalancerConfig;
  orchestrator_bridges : option (list ExternalBridgeType)
}.

Record CycleResult : Type := {
  balances : gmap string Z;
  proposedRoutes : list StrategyRoute;
  executedCount : nat;
  failedCount : nat
}.

(** The members of the union [StrategyRoute] with the fields they have. *)
Definition movable_route (r : StrategyRoute) : option MovableCollateralRoute :=
  match sr_execution r with
  | ByMovableCollateral bridge =>
      Some {| mr_origin := sr_origin r; mr_destination := sr_destination r;
              mr_amount := sr_amount r; mr_bridge := bridge |}
  | ByInventory _ => None
  end.
Definition inventory_route (r : StrategyRoute) : option InventoryRoute :=
  match sr_execution r with
  | ByInventory bridge =>
      Some {| nr_origin := sr_origin r; nr_destination := sr_destination r;
              nr_amount := sr_amount r; nr_externalBridge := bridge |}
  | ByMovableCollateral _ => None
  end.

Section orchestrator.
Context `{World} `{Chains} `{Routers} `{AddressLibs} (self : RebalancerOrchestrator).

(** The three synchronizations of the tracker as jobs: one step for each read of the explorer or
    of the stores, and one for each message or entity that is handled. *)
Definition syncTransfers_job (confirmedBlockTags : option (string -> option BlockTag))
    : job ActionTracker :=
  await (messages ← ask w_transfer_messages; lift messages) (fun messages =>
  await_each sync_new_transfer messages
  (await (gets getInProgressTransfers) (fun existingTransfers =>
  await_each (sync_delivered_transfer confirmedBlockTags) existingTransfers
  (Ended (Ok ()))))).

Definition syncRebalanceIntents_job : job ActionTracker :=
  await (gets getActiveRebalanceIntents) (fun inProgressIntents =>
  await (gets getInProgressActions) (fun allInProgressActions =>
  await now (fun now_ =>
  await_each (sync_intent (trackerConfig self) allInProgressActions now_) inProgressIntents
  (Ended (Ok ()))))).

Definition syncRebalanceActions_job (confirmedBlockTags : option (string -> option BlockTag))
    : job ActionTracker :=
  await (messages ← ask w_rebalance_messages; lift messages) (fun messages =>
  await (gets (fun s => getAll (rebalanceActionStore s))) (fun allActions =>
  await_each (sync_discovered allActions) messages
  (await (gets getInProgressActions) (fun inProgressActions =>
  await_each (sync_delivered_action confirmedBlockTags) inProgressActions
  (Ended (Ok ())))))).

(** The three run beside each other under [Promise.all]. At the first rejection the cycle goes
    on, and those that have not ended are left running. *)
Definition sync_all (tags : ConfirmedBlockTags) : inv unit := fun s =>
  let '(t, (running, r)) :=
    promise_all (w_turn (tick (actionTracker s)))
      (syncTransfers_job (Some (tag_of tags))) syncRebalanceIntents_job
      (syncRebalanceActions_job (Some (tag_of tags))) 0 (actionTracker s) in
  (with_pending (with_tracker s t) (pendingSyncs s ++ running), r).

(** A failed synchronization is logged and the cycle goes on with what the tracker has. *)
Definition syncActionTracker (tags : ConfirmedBlockTags) : inv unit :=
  try_catch
    (_ ← sync_all tags;
     match orchestrator_bridges self with
     | Some registry => track (syncInventoryMovementActions registry)
     | None => mret ()
     end)
    (fun _ => mret ()).

(** One step of what is left running; what it throws went to a promise that has settled. *)
Definition resume (i : nat) : inv unit := fun s =>
  match pendingSyncs s !! i with
  | Some (Awaits step) =>
      let (t, j) := step (actionTracker s) in
      (with_pending (with_tracker s t) (<[i := j]> (pendingSyncs s)), Ok ())
  | _ => (s, Ok ())
  end.

(** While a cycle, or the wait for the next one, awaits something, what is left running goes on,
    for as many steps as there is time for. *)
Definition let_pending_run : inv unit :=
  pending ← gets pendingSyncs;
  match pending with
  | [] => mret ()
  | _ => turns ← asks w_background; for_each resume turns
  end.

Definition inflight_context : inv InflightContext :=
  context ← gets (fun s => getInflightContext w_chainName (actionTracker s));
  lift context.

(** [executeRoutes] for each type of rebalancer; a throw is logged and counts as no result. *)
Definition executeMovableRoutes (config : RebalancerConfig) (routes : list MovableCollateralRoute)
    : inv (list MovableCollateralExecutionResult) :=
  try_catch (track (Rebalancer.rebalance config routes)) (fun _ => mret []).

Definition executeInventoryRoutes (config : InventoryRebalancerConfig)
    (routes : list InventoryRoute) (event : MonitorEvent) : inv (list InventoryExecutionResult) :=
  _ ← match event_inventoryBalances event with
      | Some inventoryBalances => setInventoryBalances inventoryBalances
      | None => mret ()
      end;
  try_catch (InventoryRebalancer.rebalance config routes) (fun _ => mret []).

Definition count_success (results : list MovableCollateralExecutionResult) : nat * nat :=
  (length (filter (fun r => mx_success r = true) results),
   length (filter (fun r => mx_success r = false) results)).

Definition executeWithTracking (routes : list StrategyRoute) (event : MonitorEvent)
    : inv (nat * nat) :=
  let movableCollateral := omap movable_route routes in
  let inventory := omap inventory_route routes in
  counts ← match movableCollateralRebalancer self with
           | Some config =>
               if (0 <? length movableCollateral)%nat
               then results ← executeMovableRoutes config movableCollateral;
                    mret (count_success results)
               else mret (0%nat, 0%nat)
           | None => mret (0%nat, 0%nat)
           end;
  _ ← let_pending_run;
  _ ← match inventoryRebalancer self with
      | Some config =>
          if (0 <? length inventory)%nat
          then _ ← executeInventoryRoutes config inventory event; mret ()
          else mret ()
      | None => mret ()
      end;
  mret counts.

(** The cycle after the synchronization. *)
Definition decide_and_execute (event : MonitorEvent) : inv CycleResult :=
  rawBalances ← lift (getRawBalances (getStrategyChainNames (strategyConfig self)) (tokensInfo event));
  inflightContext ← inflight_context;
  strategyRoutes ← lift (is_getRebalancingRoutes (strategy self) rawBalances (Some inflightContext));
  _ ← let_pending_run;
  counts ← (if (0 <? length strategyRoutes)%nat then executeWithTracking strategyRoutes event
            else mret (0%nat, 0%nat));
  _ ← match inventoryRebalancer self with
      | Some config =>
          if (length strategyRoutes =? 0)%nat
          then _ ← executeInventoryRoutes config [] event; mret ()
          else mret ()
      | None => mret ()
      end;
  mret {| balances := rawBalances; proposedRoutes := strategyRoutes;
          executedCount := fst counts; failedCount := snd counts |}.

(** The cycle up to its decision, with what an earlier cycle or this one has left running. *)
Definition synchronize (event : MonitorEvent) : inv unit :=
  _ ← let_pending_run;
  _ ← syncActionTracker (confirmedBlockTags event);
  let_pending_run.

Definition executeCycle (event : MonitorEvent) : inv CycleResult :=
  _ ← synchronize event;
  decide_and_execute event.

End orchestrator.
