(* ===== verification/Monitor.v ===== *)
(** The monitor, rebalancer/src/monitor/Monitor.ts: it polls the balances of the routers and of
    the inventory and hands each event to a handler, until it is stopped. Sleeping between polls
    is the number of milliseconds slept. *)
From Stdlib Require Import ZArith Lia String.
From stdpp Require Import base tactics list gmap strings.
From S2P Require Import Prelude JsMap Amount Token Route Config BaseStrategy Strategies.
From S2P Require Import AddressEq BlockTag Store ActionTracker Gas InventoryRebalancer Rebalancer.
From S2P Require Import Orchestrator.

#[local] Open Scope Z_scope.

Definition isHypToken (token : Token) : bool :=
  bool_decide (tok_standard token ∈ TOKEN_HYP_STANDARDS).

(** ** The outside: adapters of tokens *)

Class Adapters : Type := {
  mo_getHypAdapter : Token -> result unit;
  mo_getBridgedSupply : nat -> Token -> option BlockTag -> result (option Z);
  (** [token.protocol] *)
  mo_protocol : Token -> ProtocolType;
  mo_getAdapter : Token -> result unit;
  mo_getBalance : nat -> Token -> string -> result Z
}.

Record InventoryMonitorConfig : Type := {
  inventoryAddresses : list (ProtocolType * string);
  monitor_chains : list string
}.

Record Monitor : Type := {
  checkFrequency : Z;
  monitor_tokens : list Token;
  inventoryConfig : option InventoryMonitorConfig
}.

Section monitor.
Context `{World} `{Adapters} (self : Monitor).

Definition ask_call {A} (answer : nat -> result A) : inv A := r ← asks answer; lift r.

(** One turn of the loop over the chains of the route. *)
Definition block_tag_of (chain : string) : inv (string * option BlockTag) :=
  latest ← asks (fun k => w_latest k chain);
  mret (chain, getConfirmedBlockTag chain (w_metadata chain) latest).

Definition computeConfirmedBlockTags : inv ConfirmedBlockTags :=
  mapM block_tag_of (set_of (tok_chainName <$> monitor_tokens self)).

(** A failed query at the confirmed block is repeated at the latest one. *)
Definition getTokenBridgedSupply (token : Token) (blockTag : option BlockTag) : inv (option Z) :=
  if negb (isHypToken token) then mret None
  else
    _ ← lift (mo_getHypAdapter token);
    try_catch
      (ask_call (fun k => mo_getBridgedSupply k token blockTag))
      (fun _ => ask_call (fun k => mo_getBridgedSupply k token None)).

Definition token_info (tags : ConfirmedBlockTags) (token : Token) : inv TokenInfo :=
  bridgedSupply ← getTokenBridgedSupply token (tag_of tags (tok_chainName token));
  mret {| ti_token := token; ti_bridgedSupply := bridgedSupply |}.

(** A balance that cannot be read counts as nothing. *)
Definition read_inventory (config : InventoryMonitorConfig) (chainName : string)
    : inv (string * Z) :=
  match List.find (fun t => bool_decide (tok_chainName t = chainName)) (monitor_tokens self) with
  | None => mret (chainName, 0)
  | Some token =>
      try_catch
        (match map_get (mo_protocol token) (inventoryAddresses config) with
         | Some (String _ _ as address) =>
             _ ← lift (mo_getAdapter token);
             balance ← ask_call (fun k => mo_getBalance k token address);
             mret (chainName, balance)
         | _ => mret (chainName, 0)
         end)
        (fun _ => mret (chainName, 0))
  end.

Definition set_entry {V} (m : list (string * V)) (entry : string * V) : list (string * V) :=
  map_set (fst entry) (snd entry) m.

Definition fetchInventoryBalances : inv (list (string * Z)) :=
  match inventoryConfig self with
  | None => mret []
  | Some config =>
      results ← mapM (read_inventory config) (monitor_chains config);
      mret (foldl set_entry [] results)
  end.

(** The event of a poll. *)
Definition monitor_event : inv MonitorEvent :=
  confirmedBlockTags ← computeConfirmedBlockTags;
  infos ← mapM (token_info confirmedBlockTags) (monitor_tokens self);
  inventoryBalances ← fetchInventoryBalances;
  mret {| tokensInfo := infos; confirmedBlockTags := confirmedBlockTags;
          event_inventoryBalances :=
            if bool_decide (inventoryBalances = []) then None else Some inventoryBalances |}.

(** What is slept after a poll that took [elapsed]. *)
Definition remaining_sleep (elapsed : Z) : Z :=
  let remaining := checkFrequency self - elapsed in
  if 0 <? remaining then remaining else 0.

(** One turn of the loop of [start], with a handler; an error goes to the error handler, which
    only reports it. *)
Definition poll (tokenInfoHandler : MonitorEvent -> inv unit) : inv unit :=
  try_catch (event ← monitor_event; tokenInfoHandler event) (fun _ => mret ()).

(** The loop, for as many turns as it is left running. *)
Fixpoint poll_times (n : nat) (tokenInfoHandler : MonitorEvent -> inv unit) : inv unit :=
  match n with
  | O => mret ()
  | S n' => _ ← poll tokenInfoHandler; poll_times n' tokenInfoHandler
  end.

End monitor.

(** The state a service starts from. *)
Definition fresh_state : InventoryRebalancer := {|
  actionTracker := empty_tracker; inventoryBalances := []; consumedInventory := []; pendingSyncs := [] |}.
