(* ===== verification/JsNumber.v ===== *)
(** [Number(s)] and [BigInt(s)] for a string: the numeric literals of the language, at their
    exact decimal value, and the comparison of a number, once rounded to a double, with zero. Then numbers
    that are not integers: the double nearest to a rational, ties to even, and the arithmetic that rounds
    after every operation, on positive numbers in the normal range only, in which nothing overflows or
    is denormal. *)
From Stdlib Require Import ZArith Lia String Ascii QArith Qround Qabs Lqa.
From stdpp Require Import base tactics list strings.
From S2P Require Import Prelude Addresses Amount.

#[local] Open Scope Z_scope.

(** A finite value is [mantissa * 10 ^ exponent] with its sign. *)
Inductive JsNumber : Type :=
| NaN
| Infinite (negative : bool)
| Finite (negative : bool) (mantissa exponent : Z).

(** The value of a digit in any radix up to 16, 99 for another character. *)
Definition digit_value (c : ascii) : Z :=
  let n := Z.of_nat (nat_of_ascii c) in
  if is_digit c then n - 48
  else if ascii_between "a" "f" c then n - 87
  else if ascii_between "A" "F" c then n - 55
  else 99.

(** The digits [s] starts with: their value after [acc], how many there are, what follows. *)
Fixpoint take_digits (radix acc : Z) (s : string) : Z * nat * string :=
  match s with
  | String c s' =>
      if digit_value c <? radix then
        let '(v, n, rest) := take_digits radix (acc * radix + digit_value c) s' in (v, S n, rest)
      else (acc, O, s)
  | EmptyString => (acc, O, s)
  end.

(** A whole string of at least one digit. *)
Definition radix_literal (radix : Z) (s : string) : JsNumber :=
  match take_digits radix 0 s with
  | (v, S _, EmptyString) => Finite false v 0
  | _ => NaN
  end.

(** A sign and the rest. *)
Definition take_sign (s : string) : bool * string :=
  match s with
  | String "-" s' => (true, s')
  | String "+" s' => (false, s')
  | _ => (false, s)
  end.

(** The exponent part, which may be missing, up to the end of the string. *)
Definition exponent_part (s : string) : option Z :=
  match s with
  | EmptyString => Some 0
  | String c s' =>
      if Ascii.eqb c "e" || Ascii.eqb c "E" then
        let '(negative, digits) := take_sign s' in
        match take_digits 10 0 digits with
        | (v, S _, EmptyString) => Some (if negative then - v else v)
        | _ => None
        end
      else None
  end.

(** [StrUnsignedDecimalLiteral]. *)
Definition decimal_literal (negative : bool) (s : string) : JsNumber :=
  if String.eqb s "Infinity" then Infinite negative
  else
    let '(whole, n, rest) := take_digits 10 0 s in
    let '(mantissa, m, rest) :=
      match rest with
      | String "." fraction => take_digits 10 whole fraction
      | _ => (whole, O, rest)
      end in
    if (n + m =? 0)%nat then NaN
    else match exponent_part rest with
         | Some e => Finite negative mantissa (e - Z.of_nat m)
         | None => NaN
         end.

(** [Number(s)]. *)
Definition js_Number (s : string) : JsNumber :=
  match js_trim s with
  | EmptyString => Finite false 0 0
  | String "0" (String c digits) as literal =>
      if Ascii.eqb c "x" || Ascii.eqb c "X" then radix_literal 16 digits
      else if Ascii.eqb c "o" || Ascii.eqb c "O" then radix_literal 8 digits
      else if Ascii.eqb c "b" || Ascii.eqb c "B" then radix_literal 2 digits
      else decimal_literal false literal
  | literal => let '(negative, unsigned) := take_sign literal in decimal_literal negative unsigned
  end.

Definition isNaN (n : JsNumber) : bool := match n with NaN => true | _ => false end.

(** [n > 0]: a value of at most [2 ^ -1075] is the double zero. *)
Definition above_zero (n : JsNumber) : bool :=
  match n with
  | NaN => false
  | Infinite negative => negb negative
  | Finite negative mantissa exponent =>
      negb negative &&
      (if 0 <=? exponent then 0 <? mantissa else 10 ^ (- exponent) <? mantissa * 2 ^ 1075)
  end.

Example numbers_read :
  js_Number <$> [" 12.50e+3 "; ""; "0x1F"; "-.5"; "1e"; "0x"; "+Infinity"; "."; "12a"; "5."; "-0x1"]%string =
  [Finite false 1250 1; Finite false 0 0; Finite false 31 0; Finite true 5 (-1); NaN; NaN;
   Infinite false; NaN; NaN; Finite false 5 0; NaN].
Proof. vm_compute. reflexivity. Qed.

(** ** [BigInt(s)] for a string, and integers among numbers *)

Definition NOT_A_BIGINT : exn := SyntaxError "Cannot convert string to a BigInt".

(** A whole string of at least one digit, as an integer. *)
Definition integer_literal (radix : Z) (s : string) : result Z :=
  match take_digits radix 0 s with
  | (v, S _, EmptyString) => Ok v
  | _ => Throw NOT_A_BIGINT
  end.

(** Decimal literals may have a sign, the others not. *)
Definition js_BigInt (s : string) : result Z :=
  match js_trim s with
  | EmptyString => Ok 0
  | String "0" (String c digits) as literal =>
      if Ascii.eqb c "x" || Ascii.eqb c "X" then integer_literal 16 digits
      else if Ascii.eqb c "o" || Ascii.eqb c "O" then integer_literal 8 digits
      else if Ascii.eqb c "b" || Ascii.eqb c "B" then integer_literal 2 digits
      else integer_literal 10 literal
  | literal =>
      let '(negative, unsigned) := take_sign literal in
      v ← integer_literal 10 unsigned;
      Ok (if (negative : bool) then - v else v)
  end.

(** The integer a number is, if it is one. *)
Definition integer_value (n : JsNumber) : option Z :=
  match n with
  | Finite negative mantissa exponent =>
      let sign := if negative then -1 else 1 in
      if 0 <=? exponent then Some (sign * (mantissa * 10 ^ exponent))
      else if mantissa mod 10 ^ (- exponent) =? 0
      then Some (sign * (mantissa / 10 ^ (- exponent))) else None
  | _ => None
  end.

Example bigints_read :
  js_BigInt <$> ["1000"; " -7 "; ""; "0x1f"; "1.0"; "1e3"; "-0x1"; "00012"]%string =
  [Ok 1000; Ok (-7); Ok 0; Ok 31; Throw NOT_A_BIGINT; Throw NOT_A_BIGINT; Throw NOT_A_BIGINT; Ok 12].
Proof. vm_compute. reflexivity. Qed.

(** The integer nearest to [n / d]. *)
Definition round_half_even (n d : Z) : Z :=
  let q := n / d in
  let r := n mod d in
  if 2 * r <? d then q
  else if d <? 2 * r then q + 1
  else if Z.even q then q else q + 1.

(** [n / d / 2 ^ e] as a quotient of integers. *)
Definition scaled (n d e : Z) : Z * Z :=
  if 0 <=? e then (n, d * 2 ^ e) else (n * 2 ^ (- e), d).

(** The exponent at which [n / d] has a mantissa of 53 bits. *)
Definition exponent_of (n d : Z) : Z :=
  let e := Z.log2 n - Z.log2 d - 52 in
  let '(n', d') := scaled n d e in
  if n' / d' <? 2 ^ 52 then e - 1 else e.

Definition fl (x : Q) : Q :=
  if Qle_bool x 0 then 0%Q
  else
    let n := Qnum x in
    let d := Z.pos (Qden x) in
    let e := exponent_of n d in
    let '(n', d') := scaled n d e in
    let m := round_half_even n' d' in
    if 0 <=? e then inject_Z (m * 2 ^ e) else (m # Z.to_pos (2 ^ (- e)))%Q.

Definition js_mul (a b : Q) : Q := fl (a * b).
Definition js_add (a b : Q) : Q := fl (a + b).

(** ** The error of rounding *)

Lemma round_half_even_near n d : 0 < d ->
  2 * n - d <= 2 * (round_half_even n d * d) <= 2 * n + d.
Proof.
  intros Hd. unfold round_half_even. pose proof (Z.div_mod n d ltac:(lia)).
  pose proof (Z.mod_pos_bound n d Hd).
  destruct (Z.ltb_spec (2 * (n mod d)) d); [nia|].
  destruct (Z.ltb_spec d (2 * (n mod d))); [nia|]. destruct (Z.even (n / d)); nia.
Qed.

Lemma pow2_split a b : 0 <= a -> 0 <= b -> 2 ^ (a + b) = 2 ^ a * 2 ^ b.
Proof. intros. by rewrite Z.pow_add_r. Qed.

(** At the exponent chosen, the mantissa has at least 52 bits. *)
Lemma scaled_large n d e : 0 < n -> 0 < d -> e <= Z.log2 n - Z.log2 d - 52 ->
  let '(n', d') := scaled n d e in 0 < d' /\ 2 ^ 51 * d' <= n'.
Proof.
  intros Hn Hd He. pose proof (Z.log2_spec n Hn) as [Hn1 _]. pose proof (Z.log2_spec d Hd) as [_ Hd1].
  pose proof (Z.log2_nonneg n). pose proof (Z.log2_nonneg d). unfold scaled.
  destruct (Z.leb_spec 0 e) as [Hpos_e|Hneg_e].
  - assert (0 < 2 ^ e) by (by apply Z.pow_pos_nonneg). split; [nia|].
    assert (2 ^ 51 * 2 ^ e * 2 ^ Z.succ (Z.log2 d) <= 2 ^ Z.log2 n).
    { rewrite <- !Z.pow_add_r by lia. apply Z.pow_le_mono_r; lia. }
    assert (0 < 2 ^ 51 * 2 ^ e) by lia. nia.
  - split; [done|]. assert (0 < 2 ^ (- e)) by (apply Z.pow_pos_nonneg; lia).
    assert (2 ^ 51 * 2 ^ Z.succ (Z.log2 d) <= 2 ^ Z.log2 n * 2 ^ (- e)).
    { rewrite <- !Z.pow_add_r by lia. apply Z.pow_le_mono_r; lia. }
    assert (0 < 2 ^ 51) by lia. nia.
Qed.

(** The double nearest to a positive number differs from it by less than one part in 2 ^ 52. *)
Lemma fl_error x : (0 < x)%Q -> (x * (1 - (1 # 2 ^ 52)) <= fl x <= x * (1 + (1 # 2 ^ 52)))%Q.
Proof.
  intros Hx. unfold fl. destruct (Qle_bool x 0) eqn:E; [apply Qle_bool_iff in E; lra|].
  destruct x as [n d]. cbn [Qnum Qden]. assert (0 < n) as Hn by (unfold Qlt in Hx; cbn in Hx; lia).
  set (e := exponent_of n (Z.pos d)).
  assert (e <= Z.log2 n - Z.log2 (Z.pos d) - 52) as He.
  { subst e. unfold exponent_of. destruct (scaled _ _ _). destruct (_ <? _); lia. }
  pose proof (scaled_large n (Z.pos d) e Hn ltac:(done) He) as Hl. unfold scaled in *.
  set (p := 2 ^ 52). assert (2 ^ 51 * 2 = p) as Hp by reflexivity.
  change (1 # 2 ^ 52)%Q with (1 # 4503599627370496)%Q. assert (p = 4503599627370496) as Hp' by reflexivity.
  destruct (Z.leb_spec 0 e) as [Hpos_e|Hneg_e]; destruct Hl as [Hd Hl].
  - pose proof (round_half_even_near n (Z.pos d * 2 ^ e) Hd) as [Hr1 Hr2].
    set (m := round_half_even _ _) in *. assert (0 < 2 ^ e) by (by apply Z.pow_pos_nonneg).
    unfold Qle, Qmult, Qminus, Qplus, inject_Z; cbn [Qnum Qden]. cbn -[Z.pow].
    split; nia.
  - pose proof (round_half_even_near (n * 2 ^ (- e)) (Z.pos d) Hd) as [Hr1 Hr2].
    set (m := round_half_even _ _) in *. assert (0 < 2 ^ (- e)) as Hpos by (apply Z.pow_pos_nonneg; lia).
    unfold Qle, Qmult, Qminus, Qplus; cbn [Qnum Qden]. rewrite ?Pos2Z.inj_mul, ?Z2Pos.id by done.
    cbn -[Z.pow Z.mul Z.add]. split; nia.
Qed.
