(* ===== verification/ContextFactory.v ===== *)
(** How a service is put together from its configuration:
    rebalancer/src/factories/RebalancerContextFactory.ts and
    rebalancer/src/config/RebalancerConfig.ts. The factory reads the registry, builds the
    strategy, and decides which rebalancers and which monitor the service gets. Metrics and
    logging are left out. *)
From Stdlib Require Import ZArith QArith Lia String.
From stdpp Require Import base tactics list gmap strings.
From S2P Require Import Prelude JsMap Amount Token Route Config BaseStrategy Strategies.
From S2P Require Import AddressEq BlockTag Store ActionTracker Gas InventoryRebalancer Rebalancer.
From S2P Require Import Orchestrator Monitor.

#[local] Open Scope Z_scope.

(** ** The outside *)

(** The registry and the providers, which the factory asks once while it is built. *)
Class Registry : Type := {
  (** [registry.getAddresses()], read for the mailboxes *)
  g_getAddresses : result unit;
  (** [registry.getWarpRoute(id)] at its tokens *)
  g_getWarpRoute : string -> result (option (list Token));
  (** the parser of [WarpCore.FromConfig], with the resolution of connections *)
  g_fromConfig : list Token -> result unit;
  g_getProvider : string -> result unit;
  (** [registry.getChainAddresses(chain)?.mailbox] *)
  g_mailbox : string -> result (option string);
  (** [multiProvider.metadata] at the domain ids *)
  g_metadata : list (string * Z)
}.

(** ** RebalancerConfig *)

Record ServiceConfig : Type := {
  warpRouteId : string;
  sc_strategyConfig : list StrategyConfig;
  sc_intentTTL : Z;
  sc_inventorySigners : option (list (ProtocolType * Config.InventorySignerConfig));
  sc_lifiIntegrator : option string
}.

(** [load] once the file is parsed: the refinement, then the check that chains are named. *)
Definition load (id : string) (intentTTL : Z) (config : RebalancerConfigInput)
    : result ServiceConfig :=
  if negb (bool_decide (config_issues config = []))
  then Throw (Error "the configuration has issues")
  else if (length (getStrategyChainNames (rc_strategy config)) =? 0)%nat
  then Throw (Error "No chains configured")
  else Ok {| warpRouteId := id; sc_strategyConfig := rc_strategy config;
             sc_intentTTL := intentTTL; sc_inventorySigners := rc_inventorySigners config;
             sc_lifiIntegrator := rc_lifiIntegrator config |}.

(** ** The factory *)

(** Keys given at run time are one binding per protocol, [[]] when none are given. *)
Record RebalancerContextFactory : Type := {
  factory_config : ServiceConfig;
  warpCore_tokens : list Token;
  factory_tokensByChainName : list (string * Token);
  inventorySignerKeysByProtocol : list (ProtocolType * string)
}.

Section create.
Context `{Chains} `{Registry}.

(** One turn of the loop over [warpChains]: only EVM chains have a provider to build. *)
Definition init_provider (chain : string) : result unit :=
  protocol ← c_getProtocol chain;
  if negb (isEVMLike protocol) then Ok () else g_getProvider chain.

Definition create (config : ServiceConfig) (keys : list (ProtocolType * string))
    (warpCoreConfigOverride : option (list Token)) : result RebalancerContextFactory :=
  _ ← g_getAddresses;
  warpCoreConfig ← match warpCoreConfigOverride with
                   | Some tokens => Ok (Some tokens)
                   | None => g_getWarpRoute (warpRouteId config)
                   end;
  match warpCoreConfig with
  | None => Throw (Error ("Warp route config for " +:+ warpRouteId config +:+ " not found in registry"))
  | Some tokens =>
      _ ← mapM init_provider (set_of (tok_chainName <$> tokens));
      _ ← g_fromConfig tokens;
      Ok {| factory_config := config; warpCore_tokens := tokens;
            factory_tokensByChainName :=
              foldl set_entry [] ((fun t => (tok_chainName t, t)) <$> tokens);
            inventorySignerKeysByProtocol := keys |}
  end.

End create.

(** The two kinds of rebalancer of the list [createRebalancers] returns. *)
Inductive IRebalancer : Type :=
| MovableCollateralRebalancer (config : Rebalancer.RebalancerConfig)
| TheInventoryRebalancer (config : InventoryRebalancerConfig).

Record InventoryComponents : Type := {
  ic_inventoryRebalancer : InventoryRebalancerConfig;
  ic_externalBridgeRegistry : list ExternalBridgeType;
  ic_inventoryConfig : InventoryMonitorConfig
}.

Record Rebalancers : Type := {
  rs_rebalancers : list IRebalancer;
  rs_externalBridgeRegistry : list ExternalBridgeType;
  rs_inventoryConfig : option InventoryMonitorConfig
}.

(** What [createActionTracker] configures the tracker with: the time to live of intents, and
    what the queries of the explorer are built from. *)
Record TrackerConfig : Type := {
  tc_routersByDomain : list (Z * string);
  tc_bridges : list string;
  tc_rebalancerAddress : string;
  tc_inventorySignerAddresses : option (list string);
  tc_intentTTL : Z
}.

(** [Object.values(ProtocolType)]. *)
Definition protocol_values : list ProtocolType :=
  [PEthereum; PSealevel; PCosmos; PCosmosNative; PStarknet; PRadix; PAleo; PTron; PUnknown].

(** [SUPPORTED_INVENTORY_PROTOCOLS]. *)
Definition SUPPORTED_INVENTORY_PROTOCOLS : list ProtocolType := [PEthereum; PSealevel; PTron].

(** Truthiness of a configured amount. *)
Definition truthy_amount (amount : option Numberish) : option Numberish :=
  a ← amount; if falsy a then None else Some a.

Section factory.
Context (self : RebalancerContextFactory).

#[local] Notation strategies := (sc_strategyConfig (factory_config self)).
#[local] Notation token_of chain := (map_get chain (factory_tokensByChainName self)).

Definition createMonitor (checkFrequency : Z) (inventoryConfig : option InventoryMonitorConfig)
    : Monitor := {|
  Monitor.checkFrequency := checkFrequency; monitor_tokens := warpCore_tokens self;
  Monitor.inventoryConfig := inventoryConfig |}.

(** ** Strategies *)

Section strategy.
Context `{World} `{Adapters} `{BigNumberJs}.

(** One turn of the loop that fills [minAmountsByChain]. *)
Definition min_amount_entry (chainName : string) : result (option (string * Z)) :=
  match truthy_amount (getStrategyChainConfig strategies chainName ≫= cc_bridgeMinAcceptedAmount) with
  | None => Ok None
  | Some amount =>
      match token_of chainName with
      | None => Throw (Error ("No token found for configured strategy chain " +:+ chainName))
      | Some token => a ← normalizeConfiguredAmount amount token; Ok (Some (chainName, a))
      end
  end.

Definition minAmountsByChain : result (list (string * Z)) :=
  entries ← mapM min_amount_entry (getStrategyChainNames strategies);
  Ok (foldl set_entry [] (omap id entries)).

(** The supply of one token, when it is counted. *)
Definition initial_collateral (chainNames : list string) (token : Token) : inv Z :=
  if isCollateralizedTokenEligibleForRebalancing token &&
     bool_decide (tok_chainName token ∈ chainNames)
  then
    _ ← lift (mo_getHypAdapter token);
    bridgedSupply ← ask_call (fun k => mo_getBridgedSupply k token None);
    match bridgedSupply with
    | None => throw (Error ("Missing bridged supply for " +:+ tok_chainName token))
    | Some supply => lift (normalizeToCanonical supply (OfToken token))
    end
  else mret 0.

(** The queries are started together and added up as they answer. *)
Definition getInitialTotalCollateral : inv Z :=
  amounts ← mapM (initial_collateral (getStrategyChainNames strategies)) (warpCore_tokens self);
  mret (sum_by id amounts).

(** [minAmountsByChain] is computed, and what it throws ends the call, but no strategy reads it. *)
Definition createStrategy : inv IStrategy :=
  _ ← lift minAmountsByChain;
  total ← getInitialTotalCollateral;
  lift (StrategyFactory.createStrategy strategies (factory_tokensByChainName self) total).

End strategy.

(** ** Tracker *)

Section tracker.
Context `{World} `{Chains} `{Routers} `{Registry}.

Definition check_mailbox (chain : string) : result unit :=
  mailbox ← g_mailbox chain;
  match mailbox with
  | Some (String _ _) => Ok ()
  | _ => Throw (Error ("Missing mailbox address for chain " +:+ chain +:+ " in registry"))
  end.

(** An integer-like key goes to its numeric place in an object; only look-ups read this one. *)
Definition router_entry (token : Token) : result (Z * string) :=
  domain ← c_domainId (tok_chainName token);
  Ok (domain, tok_addressOrDenom token).

Definition evm_signer_addresses (signers : list (ProtocolType * Config.InventorySignerConfig))
    : list string :=
  omap (fun protocol =>
    match is_address <$> map_get protocol signers with
    | Some (String _ _ as address) => Some address
    | _ => None
    end) (List.filter isEVMLike protocol_values).

Definition createActionTracker : inv TrackerConfig :=
  _ ← lift (mapM check_mailbox (set_of (tok_chainName <$> warpCore_tokens self)));
  match getStrategyChainNames strategies with
  | [] => throw (Error "No chains configured in strategy")
  | chain :: _ =>
      rebalancerAddress ← ask_call (fun k => m_signerAddress k chain);
      routers ← lift (mapM router_entry (warpCore_tokens self));
      mret {| tc_routersByDomain := foldl (fun m e => map_set (fst e) (snd e) m) [] routers;
              tc_bridges := getAllBridges strategies;
              tc_rebalancerAddress := rebalancerAddress;
              tc_inventorySignerAddresses :=
                evm_signer_addresses <$> sc_inventorySigners (factory_config self);
              tc_intentTTL := sc_intentTTL (factory_config self) |}
  end.

End tracker.

(** ** Rebalancers *)

(** The test of one chain, by its first configuration and its overrides. *)
Definition movable_chain (chainName : string) : bool :=
  let chainConfig := getStrategyChainConfig strategies chainName in
  if bool_decide (default MovableCollateral (chainConfig ≫= cc_executionType) = MovableCollateral)
  then true
  else
    match chainConfig ≫= cc_override with
    | None => false
    | Some o =>
        existsb (fun e =>
          bool_decide (default (default MovableCollateral (chainConfig ≫= cc_executionType))
                         (getOverrideExecutionType (snd e)) = MovableCollateral)) o
    end.

Definition hasMovableCollateralChains : bool :=
  existsb movable_chain (getStrategyChainNames strategies).

(** The registry has LiFi when an integrator is configured. *)
Definition buildExternalBridgeRegistry : list ExternalBridgeType :=
  if truthy (sc_lifiIntegrator (factory_config self)) then [LiFi] else [].

Definition allRelevantChains : list string :=
  set_of (getInventoryChainNames strategies ++ getInventoryOriginChainNames strategies).

Definition require_chain_token (chain : string) : result unit :=
  js_assert (bool_decide (is_Some (token_of chain)))
    ("No token found for inventory-relevant chain " +:+ chain).

Section rebalancers.
Context `{Chains} `{Registry}.

Definition chain_protocol (chain : string) : result ProtocolType :=
  metadata ← c_metadata chain;
  match metadata with
  | Some (Some protocol) => Ok protocol
  | _ => Throw (Error ("No protocol in chain metadata for " +:+ chain))
  end.

(** The key of the configuration before the one given at run time. *)
Definition runtime_key (signers : list (ProtocolType * Config.InventorySignerConfig))
    (protocol : ProtocolType) : option string :=
  match map_get protocol signers ≫= is_key with
  | Some key => Some key
  | None => map_get protocol (inventorySignerKeysByProtocol self)
  end.

Definition check_supported (protocol : ProtocolType) : result unit :=
  js_assert (bool_decide (protocol ∈ SUPPORTED_INVENTORY_PROTOCOLS))
    "Inventory rebalancing does not support protocol".
Definition check_key (signers : list (ProtocolType * Config.InventorySignerConfig))
    (protocol : ProtocolType) : result unit :=
  js_assert (truthy (runtime_key signers protocol)) "Missing inventory signer key for protocol".
Definition check_address (signers : list (ProtocolType * Config.InventorySignerConfig))
    (protocol : ProtocolType) : result unit :=
  js_assert (truthy (is_address <$> map_get protocol signers))
    "Missing inventory address for protocol".

(** One pass over [Object.values(ProtocolType)] with what is configured of each. *)
Definition per_protocol {A} (signers : list (ProtocolType * Config.InventorySignerConfig))
    (f : ProtocolType -> Config.InventorySignerConfig -> A) : list (ProtocolType * A) :=
  omap (fun protocol => (fun cfg => (protocol, f protocol cfg)) <$> map_get protocol signers)
    protocol_values.

(** The branch for an empty registry differs only in what it logs. *)
Definition createInventoryRebalancerAndConfig
    (externalBridgeRegistryOverride : option (list ExternalBridgeType))
    : result (option InventoryComponents) :=
  match sc_inventorySigners (factory_config self) with
  | None | Some [] => Ok None
  | Some inventorySigners =>
      if (length allRelevantChains =? 0)%nat then Ok None
      else
        _ ← mapM require_chain_token allRelevantChains;
        protocols ← mapM chain_protocol allRelevantChains;
        let requiredProtocols := set_of protocols in
        _ ← mapM check_supported requiredProtocols;
        _ ← mapM (check_key inventorySigners) requiredProtocols;
        _ ← mapM (check_address inventorySigners) requiredProtocols;
        let registry := default buildExternalBridgeRegistry externalBridgeRegistryOverride in
        let inventoryRebalancer := {|
          InventoryRebalancer.inventorySigners :=
            per_protocol inventorySigners (fun protocol cfg =>
              {| sg_address := is_address cfg; sg_key := runtime_key inventorySigners protocol |});
          inventoryChains := getInventoryChainNames strategies;
          warp_tokens := warpCore_tokens self;
          InventoryRebalancer.externalBridgeRegistry := registry |} in
        _ ← validateCollateralBackedTokens inventoryRebalancer (warpCore_tokens self);
        Ok (Some {|
          ic_inventoryRebalancer := inventoryRebalancer;
          ic_externalBridgeRegistry := registry;
          ic_inventoryConfig := {|
            inventoryAddresses := per_protocol inventorySigners (fun _ cfg => is_address cfg);
            monitor_chains := allRelevantChains |} |})
  end.

Definition createMovableCollateralRebalancer : IRebalancer :=
  MovableCollateralRebalancer {|
    chainMetadata := g_metadata;
    tokensByChainName := factory_tokensByChainName self |}.

Definition createRebalancers (externalBridgeRegistryOverride : option (list ExternalBridgeType))
    : result Rebalancers :=
  let movable :=
    if hasMovableCollateralChains then [createMovableCollateralRebalancer] else [] in
  inventoryComponents ← createInventoryRebalancerAndConfig externalBridgeRegistryOverride;
  Ok match inventoryComponents with
     | Some c => {|
         rs_rebalancers := movable ++ [TheInventoryRebalancer (ic_inventoryRebalancer c)];
         rs_externalBridgeRegistry := ic_externalBridgeRegistry c;
         rs_inventoryConfig := Some (ic_inventoryConfig c) |}
     | None => {|
         rs_rebalancers := movable; rs_externalBridgeRegistry := []; rs_inventoryConfig := None |}
     end.

End rebalancers.

(** ** Orchestrator *)

Definition as_movable (r : IRebalancer) : option Rebalancer.RebalancerConfig :=
  match r with MovableCollateralRebalancer c => Some c | TheInventoryRebalancer _ => None end.
Definition as_inventory (r : IRebalancer) : option InventoryRebalancerConfig :=
  match r with TheInventoryRebalancer c => Some c | MovableCollateralRebalancer _ => None end.

(** The constructor keeps the last rebalancer of each type. *)
Definition createOrchestrator (strategy : IStrategy) (rebalancers : list IRebalancer)
    (externalBridgeRegistry : list ExternalBridgeType) : RebalancerOrchestrator := {|
  Orchestrator.strategy := strategy;
  trackerConfig := {| intentTTL := sc_intentTTL (factory_config self) |};
  strategyConfig := strategies;
  movableCollateralRebalancer := last (omap as_movable rebalancers);
  inventoryRebalancer := last (omap as_inventory rebalancers);
  orchestrator_bridges := Some externalBridgeRegistry |}.

End factory.
