(* ===== verification/Service.v ===== *)
(** The service: rebalancer/src/core/RebalancerService.ts. It is put together once, on first
    use, and then runs manual rebalances or the daemon. The state is what the object keeps
    between calls, with the state all its parts share. Metrics, logging and signals are left
    out, and so is the tracker that may be given from outside for simulations. *)
From Stdlib Require Import ZArith Lia String.
From stdpp Require Import base tactics list gmap strings.
From S2P Require Import Prelude JsMap Amount JsNumber Token Route Config BaseStrategy Strategies.
From S2P Require Import AddressEq BlockTag Store ActionTracker Gas InventoryRebalancer Rebalancer.
From S2P Require Import Orchestrator Monitor ContextFactory.

#[local] Open Scope Z_scope.

Inductive Mode : Type := manual | daemon.

Record RebalancerServiceConfig : Type := {
  mode : Mode;
  service_checkFrequency : option Z;
  monitorOnly : bool;
  service_keys : list (ProtocolType * string)
}.

Record ManualRebalanceRequest : Type := {
  mq_origin : string; mq_destination : string; mq_amount : string
}.

Record RebalancerService : Type := {
  contextFactory : option RebalancerContextFactory;
  service_strategy : option IStrategy;
  service_tracker : option TrackerConfig;
  rebalancer : option IRebalancer;
  service_monitor : option Monitor;
  orchestrator : option RebalancerOrchestrator;
  shared : InventoryRebalancer
}.

Definition new_service : RebalancerService := {|
  contextFactory := None; service_strategy := None; service_tracker := None;
  rebalancer := None; service_monitor := None; orchestrator := None; shared := fresh_state |}.

Definition set_contextFactory (f : RebalancerContextFactory) (s : RebalancerService) := {|
  contextFactory := Some f; service_strategy := service_strategy s;
  service_tracker := service_tracker s; rebalancer := rebalancer s;
  service_monitor := service_monitor s; orchestrator := orchestrator s; shared := shared s |}.
Definition set_strategy (st : IStrategy) (s : RebalancerService) := {|
  contextFactory := contextFactory s; service_strategy := Some st;
  service_tracker := service_tracker s; rebalancer := rebalancer s;
  service_monitor := service_monitor s; orchestrator := orchestrator s; shared := shared s |}.
Definition set_rebalancer (r : IRebalancer) (s : RebalancerService) := {|
  contextFactory := contextFactory s; service_strategy := service_strategy s;
  service_tracker := service_tracker s; rebalancer := Some r;
  service_monitor := service_monitor s; orchestrator := orchestrator s; shared := shared s |}.
Definition set_monitor (m : Monitor) (s : RebalancerService) := {|
  contextFactory := contextFactory s; service_strategy := service_strategy s;
  service_tracker := service_tracker s; rebalancer := rebalancer s;
  service_monitor := Some m; orchestrator := orchestrator s; shared := shared s |}.
Definition set_orchestrator (o : RebalancerOrchestrator) (s : RebalancerService) := {|
  contextFactory := contextFactory s; service_strategy := service_strategy s;
  service_tracker := service_tracker s; rebalancer := rebalancer s;
  service_monitor := service_monitor s; orchestrator := Some o; shared := shared s |}.
Definition set_shared (i : InventoryRebalancer) (s : RebalancerService) := {|
  contextFactory := contextFactory s; service_strategy := service_strategy s;
  service_tracker := service_tracker s; rebalancer := rebalancer s;
  service_monitor := service_monitor s; orchestrator := orchestrator s; shared := i |}.

(** A new tracker has empty stores; the outside has been asked as often as before. *)
Definition set_tracker (c : TrackerConfig) (s : RebalancerService) := {|
  contextFactory := contextFactory s; service_strategy := service_strategy s;
  service_tracker := Some c; rebalancer := rebalancer s;
  service_monitor := service_monitor s; orchestrator := orchestrator s;
  shared := with_tracker (shared s) {|
    transferStore := []; rebalanceIntentStore := []; rebalanceActionStore := [];
    tick := tick (actionTracker (shared s)) |} |}.

Notation service := (eff RebalancerService).

(** An operation of the parts on the state they share. *)
Definition on_shared {A} (m : inv A) : service A := fun s =>
  let '(i, r) := m (shared s) in (set_shared i s, r).

Section service.
Context `{World} `{Chains} `{Routers} `{Registry} `{AddressLibs} `{Adapters} `{BigNumberJs}.
Context (rebalancerConfig : ServiceConfig) (config : RebalancerServiceConfig).

(** ** Initialization *)

Definition no_rebalancers : Rebalancers := {|
  rs_rebalancers := []; rs_externalBridgeRegistry := []; rs_inventoryConfig := None |}.

(** What follows once the factory is there. *)
Definition initialize_with (factory : RebalancerContextFactory) : service unit :=
  strategy ← on_shared (createStrategy factory);
  _ ← modify (set_strategy strategy);
  tracker ← on_shared (createActionTracker factory);
  _ ← modify (set_tracker tracker);
  _ ← on_shared (track (ActionTracker.initialize {| intentTTL := tc_intentTTL tracker |}));
  result ← (if monitorOnly config then mret no_rebalancers
            else lift (createRebalancers factory None));
  _ ← match rs_rebalancers result with
      | r :: _ => modify (set_rebalancer r)
      | [] => mret ()
      end;
  _ ← match mode config with
      | daemon =>
          modify (set_monitor (createMonitor factory
            (default 60000 (service_checkFrequency config)) (rs_inventoryConfig result)))
      | manual => mret ()
      end;
  modify (set_orchestrator (createOrchestrator factory strategy (rs_rebalancers result)
                              (rs_externalBridgeRegistry result))).

Definition initialize : service unit :=
  self ← get;
  match contextFactory self with
  | Some _ => mret ()
  | None =>
      factory ← lift (create rebalancerConfig (service_keys config) None);
      _ ← modify (set_contextFactory factory);
      initialize_with factory
  end.

(** ** Manual rebalances *)

(** The bridge of the request: the override's, else the origin's. *)
Definition manual_bridge (request : ManualRebalanceRequest) : result string :=
  match getStrategyChainConfig (sc_strategyConfig rebalancerConfig) (mq_origin request) with
  | Some chainConfig =>
      match cc_bridge chainConfig with
      | Some (String _ _ as bridge) =>
          Ok (default bridge
                (map_get (mq_destination request) (overrides chainConfig) ≫= bo_bridge))
      | _ => Throw (Error ("No bridge configured for origin chain " +:+ mq_origin request))
      end
  | None => Throw (Error ("No bridge configured for origin chain " +:+ mq_origin request))
  end.

(** The checks of a request, in order, and the route it stands for. *)
Definition manual_route (tokens : list Token) (request : ManualRebalanceRequest)
    : result MovableCollateralRoute :=
  match List.find (fun t => bool_decide (tok_chainName t = mq_origin request)) tokens with
  | None => Throw (Error ("Origin token not found for chain " +:+ mq_origin request))
  | Some originToken =>
      let amountNum := js_Number (mq_amount request) in
      _ ← js_assert (negb (isNaN amountNum)) "Amount must be a valid number";
      _ ← js_assert (above_zero amountNum) "Amount must be greater than 0";
      bridge ← manual_bridge request;
      amount ← normalizeConfiguredAmount (NStr (mq_amount request)) originToken;
      Ok {| mr_origin := mq_origin request; mr_destination := mq_destination request;
            mr_amount := amount; mr_bridge := Some bridge |}
  end.

(** [this.rebalancer.rebalance([manualRoute])], whose results are not looked at. The route has
    no external bridge for an inventory rebalancer. *)
Definition run_manual (r : IRebalancer) (route : MovableCollateralRoute) : inv unit :=
  match r with
  | MovableCollateralRebalancer c => _ ← track (Rebalancer.rebalance c [route]); mret ()
  | TheInventoryRebalancer c =>
      _ ← InventoryRebalancer.rebalance c [{|
            nr_origin := mr_origin route; nr_destination := mr_destination route;
            nr_amount := mr_amount route; nr_externalBridge := None |}];
      mret ()
  end.

Definition executeManual (request : ManualRebalanceRequest) : service unit :=
  _ ← initialize;
  self ← get;
  match rebalancer self, contextFactory self with
  | Some r, Some factory =>
      route ← lift (manual_route (warpCore_tokens factory) request);
      on_shared (run_manual r route)
  | _, _ => throw (Error "Rebalancer not available. MonitorOnly mode cannot execute manual rebalances.")
  end.

(** ** The daemon *)

(** The handler of monitor events. *)
Definition onTokenInfo (self : RebalancerService) (event : MonitorEvent) : inv unit :=
  match orchestrator self with
  | Some o => _ ← executeCycle o event; mret ()
  | None => mret ()
  end.

(** [start], left running for a number of polls. *)
Definition start (polls : nat) : service unit :=
  match mode config with
  | manual => throw (Error "start() can only be called in daemon mode")
  | daemon =>
      _ ← initialize;
      self ← get;
      match service_monitor self with
      | None => throw (Error "Monitor must be initialized for daemon mode")
      | Some m => on_shared (poll_times m polls (onTokenInfo self))
      end
  end.

End service.
