(* ===== verification/Lifecycle.v ===== *)
(** Whatever relation between tracker states the operations of the tracker keep, the whole
    daemon keeps: both rebalancers, a cycle with the synchronizations it leaves running, a poll
    and any number of polls. *)
From Stdlib Require Import ZArith Lia String.
From stdpp Require Import base tactics list gmap strings.
From S2P Require Import Prelude JsMap Amount Token Route Config BaseStrategy Strategies AddressEq.
From S2P Require Import BlockTag Store ActionTracker Gas InventoryRebalancer RouteRelations.
From S2P Require Import Rebalancer Orchestrator Monitor ContextFactory Service TrackerFacts.

#[local] Open Scope Z_scope.

(** A synchronization that is started here keeps [R], step by step, in good states. *)
Notation sync_ok := (job_ok Inv).

(** What the tracker promises its clients of a relation [R]. *)
Class Lifecycle `{World} (config : ActionTrackerConfig)
    (R : ActionTracker -> ActionTracker -> Prop) : Prop := {
  #[global] lc_preorder :: PreOrder R;
  lc_ask {A} (f : nat -> A) : preserves R (ask f);
  lc_createIntent p : preserves R (createRebalanceIntent p);
  lc_createAction p : preserves R (createRebalanceAction p);
  lc_completeIntent id : preserves R (completeRebalanceIntent id);
  lc_failIntent id : preserves R (failRebalanceIntent id);
  lc_query : preserves R getPartiallyFulfilledInventoryIntents;
  lc_initialize : preserves R (ActionTracker.initialize config);
  lc_inv s s' : R s s' -> Inv s -> Inv s';
  lc_syncTransfers tags s : sync_ok R s (syncTransfers_job tags);
  lc_syncIntents o s : trackerConfig o = config -> sync_ok R s (syncRebalanceIntents_job o);
  lc_syncActions tags s : sync_ok R s (syncRebalanceActions_job tags);
  lc_syncMovements registry : preserves R (syncInventoryMovementActions registry)
}.

(** Everything that is left running keeps [R]. *)
Definition pending_ok `{World} (R : ActionTracker -> ActionTracker -> Prop)
    (s : InventoryRebalancer) : Prop :=
  Forall (sync_ok R (actionTracker s)) (pendingSyncs s).

(** The relation on the tracker inside the state of the rebalancers, from a good state on: what
    is left running keeps it too. *)
Definition on_tracker `{World} (R : ActionTracker -> ActionTracker -> Prop)
    (s s' : InventoryRebalancer) : Prop :=
  Inv (actionTracker s) -> pending_ok R s ->
  R (actionTracker s) (actionTracker s') /\ Inv (actionTracker s') /\ pending_ok R s'.

#[export] Instance on_tracker_preorder `{World} R `{!PreOrder R} : PreOrder (on_tracker R).
Proof.
  split; [by intros s Hs Hp; split_and!; [reflexivity|..]|].
  intros s1 s2 s3 H12 H23 Hs Hp. destruct (H12 Hs Hp) as (R12 & Hs2 & Hp2).
  destruct (H23 Hs2 Hp2) as (R23 & Hs3 & Hp3). split_and!; [by etrans|done..].
Qed.

(** A change of the tracker alone. *)
Lemma on_tracker_change `{World} R `{!PreOrder R} s t :
  (Inv (actionTracker s) -> Inv t) -> R (actionTracker s) t -> on_tracker R s (with_tracker s t).
Proof.
  intros Hi HR Hs Hp. split_and!; [done|by apply Hi|].
  eapply Forall_impl; [exact Hp|]. intros j. by apply job_ok_mono.
Qed.

Lemma preserves_track_on `{World} R `{!PreOrder R} {A} (m : tracker A) :
  (forall s s', R s s' -> Inv s -> Inv s') -> preserves R m -> preserves (on_tracker R) (track m).
Proof. intros Hi Hm s. apply (on_tracker_change R s); [apply Hi, Hm|apply Hm]. Qed.

(** Changes of the state outside the tracker. *)
Lemma preserves_outside `{World} R `{!PreOrder R} (f : InventoryRebalancer -> InventoryRebalancer) :
  (forall s, actionTracker (f s) = actionTracker s /\ pendingSyncs (f s) = pendingSyncs s) ->
  preserves (on_tracker R) (modify f).
Proof.
  intros Hf s Hs Hp. unfold pending_ok in *. cbn. destruct (Hf s) as [-> ->].
  by split_and!; [reflexivity|..].
Qed.

Section lifecycle.
Context `{World} (config : ActionTrackerConfig).
Context (R : ActionTracker -> ActionTracker -> Prop) `{!Lifecycle config R}.

Lemma lc_track {A} (m : tracker A) : preserves R m -> preserves (on_tracker R) (track m).
Proof. intros Hm. apply (preserves_track_on R); [|exact Hm]. apply (lc_inv (config := config)). Qed.

Lemma lc_call {A} (f : nat -> result A) : preserves R (call f).
Proof.
  unfold call. apply preserves_bind; [apply _|apply (lc_ask (config := config))|intros r].
  apply preserves_lift, _.
Qed.

(** Steps through programs over the tracker. *)
Ltac tracker_step :=
  lazymatch goal with
  | |- preserves _ (mbind _ _) => apply preserves_bind; [apply _| |intros ?]
  | |- preserves _ (mret _) => apply preserves_ret, _
  | |- preserves _ (throw _) => apply preserves_throw, _
  | |- preserves _ (lift _) => apply preserves_lift, _
  | |- preserves _ (call _) => apply lc_call
  | |- preserves _ (settled _) => apply preserves_settled
  | |- preserves _ (try_catch _ _) => apply preserves_try_catch; [apply _| |intros ?]
  | |- preserves _ (mapM _ _) => apply preserves_mapM; [apply _|intros ? _]
  | |- preserves _ (for_each _ _) => apply preserves_for_each; [apply _|intros ? _]
  | |- preserves _ (createRebalanceIntent _) => apply (lc_createIntent (config := config))
  | |- preserves _ (createRebalanceAction _) => apply (lc_createAction (config := config))
  | |- preserves _ (failRebalanceIntent _) => apply (lc_failIntent (config := config))
  | |- preserves _ (if ?b then _ else _) => destruct b
  | |- preserves _ (match ?x with _ => _ end) => destruct x
  end.

Lemma lc_movable `{Chains} `{Routers} `{AddressLibs} c routes :
  preserves R (Rebalancer.rebalance c routes).
Proof.
  unfold Rebalancer.rebalance, createIntents, createIntent, prepareTransactions, prepareTransaction,
    validateRoute, executeTransactions, sendTransactionsForChain, send_transaction, processResults,
    processResult.
  repeat tracker_step.
Qed.

Lemma lc_sync_all o tags : trackerConfig o = config -> preserves (on_tracker R) (sync_all o tags).
Proof.
  intros E s Hs Hp. unfold sync_all.
  pose proof (promise_all_ok Inv R (lc_inv (config := config)) (w_turn (tick (actionTracker s)))
    (syncTransfers_job (Some (tag_of tags))) (syncRebalanceIntents_job o)
    (syncRebalanceActions_job (Some (tag_of tags))) 0 (actionTracker s) Hs
    (lc_syncTransfers (config := config) _ _) (lc_syncIntents _ _ E)
    (lc_syncActions (config := config) _ _)) as Hall.
  destruct (promise_all _ _ _ _ _ _) as [t [running r]]. destruct Hall as [HR Hrun].
  destruct (on_tracker_change R s t (lc_inv (config := config) _ _ HR) HR Hs Hp) as (_ & Hi & Hp').
  split_and!; [done..|]. by apply Forall_app.
Qed.

Lemma lc_resume i : preserves (on_tracker R) (resume i).
Proof.
  intros s Hs Hp. unfold resume. destruct (pendingSyncs s !! i) as [[r|step]|] eqn:Hi;
    [by split_and!; [reflexivity|..]| |by split_and!; [reflexivity|..]].
  assert (sync_ok R (actionTracker s) (Awaits step)) as Hj.
  { unfold pending_ok in Hp. rewrite Forall_forall in Hp. apply Hp. by apply list_elem_of_lookup_2 in Hi. }
  destruct (job_ok_step _ _ _ _ Hj Hs) as [HR Hj']. destruct (step (actionTracker s)) as [t j].
  destruct (on_tracker_change R s t (lc_inv (config := config) _ _ HR) HR Hs Hp) as (_ & Ht & Hp').
  split_and!; [done..|]. by apply Forall_insert.
Qed.

#[export] Instance on_tracker_routes : RouteRelation (on_tracker R).
Proof.
  split; [apply _|..].
  - intros A f. apply lc_track, (lc_ask (config := config)).
  - intros p. apply lc_track, (lc_createAction (config := config)).
  - intros id. apply lc_track, (lc_completeIntent (config := config)).
  - intros chain amount s Hs Hp. by split_and!; [reflexivity|..].
Qed.

Lemma lc_inventory `{Chains} c routes : preserves (on_tracker R) (InventoryRebalancer.rebalance c routes).
Proof.
  unfold InventoryRebalancer.rebalance, getActiveInventoryIntent.
  apply preserves_bind; [apply _|apply preserves_outside; [apply _|done]|intros _].
  apply preserves_bind; [apply _| |intros active].
  { apply preserves_bind; [apply _| |intros ?; apply preserves_ret, _].
    apply lc_track, (lc_query (config := config)). }
  pose proof (preserves_run_route c (on_tracker R)) as Hrun.
  pose proof (preserves_continueIntent c (on_tracker R)) as Hcontinue.
  destruct active as [p|]; [destruct (pi_hasInflightDeposit p); [apply preserves_ret, _|auto]|].
  destruct routes as [|route routes]; [apply preserves_ret, _|].
  do 2 (apply preserves_bind; [apply _|apply preserves_lift, _|intros ?]).
  apply preserves_bind; [apply _|apply lc_track, (lc_createIntent (config := config))|auto].
Qed.

Context `{Chains} `{Routers} `{AddressLibs}.

Ltac cycle_step :=
  lazymatch goal with
  | |- preserves _ (mbind _ _) => apply preserves_bind; [apply _| |intros ?]
  | |- preserves _ (mret _) => apply preserves_ret, _
  | |- preserves _ (lift _) => apply preserves_lift, _
  | |- preserves _ (gets _) => apply preserves_gets, _
  | |- preserves _ (try_catch _ _) => apply preserves_try_catch; [apply _| |intros ?]
  | |- preserves _ (mapM _ _) => apply preserves_mapM; [apply _|intros ? _]
  | |- preserves _ (asks _) => apply rr_asks
  | |- preserves _ (setInventoryBalances _) => apply preserves_outside; [apply _|done]
  | |- preserves _ (sync_all _ _) => by apply lc_sync_all
  | |- preserves _ (for_each resume _) => apply preserves_for_each; [apply _|intros; apply lc_resume]
  | |- preserves _ (track (Rebalancer.rebalance _ _)) => apply lc_track, lc_movable
  | |- preserves _ (track (syncInventoryMovementActions _)) =>
      apply lc_track, (lc_syncMovements (config := config))
  | |- preserves _ (InventoryRebalancer.rebalance _ _) => apply lc_inventory
  | |- preserves _ (if ?b then _ else _) => destruct b
  | |- preserves _ (match ?x with _ => _ end) => destruct x
  end.

Lemma lc_let_pending_run : preserves (on_tracker R) let_pending_run.
Proof. unfold let_pending_run. repeat cycle_step. Qed.

Lemma lc_decide_and_execute o event : preserves (on_tracker R) (decide_and_execute o event).
Proof.
  unfold decide_and_execute, inflight_context, executeWithTracking, executeMovableRoutes,
    executeInventoryRoutes, let_pending_run. cbv zeta. repeat cycle_step.
Qed.

Lemma lc_syncActionTracker o tags :
  trackerConfig o = config -> preserves (on_tracker R) (syncActionTracker o tags).
Proof. intros E. unfold syncActionTracker. repeat cycle_step. Qed.

Lemma lc_synchronize o event : trackerConfig o = config -> preserves (on_tracker R) (synchronize o event).
Proof. intros E. unfold synchronize, syncActionTracker, let_pending_run. repeat cycle_step. Qed.

Lemma lc_executeCycle o event : trackerConfig o = config -> preserves (on_tracker R) (executeCycle o event).
Proof.
  intros E. unfold executeCycle. apply preserves_bind; [apply _|by apply lc_synchronize|].
  intros _. apply lc_decide_and_execute.
Qed.

Context `{Adapters}.

Lemma lc_poll m handler :
  (forall event, preserves (on_tracker R) (handler event)) -> preserves (on_tracker R) (poll m handler).
Proof.
  intros Hh. unfold poll, monitor_event, computeConfirmedBlockTags, block_tag_of, token_info,
    getTokenBridgedSupply, fetchInventoryBalances, read_inventory, ask_call.
  repeat (cycle_step || apply Hh).
Qed.

Lemma lc_polls m handler polls :
  (forall event, preserves (on_tracker R) (handler event)) ->
  preserves (on_tracker R) (poll_times m polls handler).
Proof.
  intros Hh. induction polls as [|polls IH]; cbn [poll_times]; [apply preserves_ret, _|].
  apply preserves_bind; [apply _|by apply lc_poll|intros _; exact IH].
Qed.

Lemma lc_manual r route : preserves (on_tracker R) (run_manual r route).
Proof. unfold run_manual. repeat cycle_step. Qed.

End lifecycle.

(** What a relation that calls keep says of the factory, which only asks. *)
Section asking.
Context `{World} `{Chains} `{Routers} `{Adapters} (R : ActionTracker -> ActionTracker -> Prop).
Context `{!PreOrder R} (R_inv : forall s s', R s s' -> Inv s -> Inv s').
Context (R_ask : forall A (f : nat -> A), preserves R (ask f)).

Lemma asks_kept {A} (f : nat -> A) : preserves (on_tracker R) (asks f).
Proof. by apply preserves_track_on. Qed.

Ltac ask_step :=
  lazymatch goal with
  | |- preserves _ (mbind _ _) => apply preserves_bind; [apply _| |intros ?]
  | |- preserves _ (mret _) => apply preserves_ret, _
  | |- preserves _ (lift _) => apply preserves_lift, _
  | |- preserves _ (throw _) => apply preserves_throw, _
  | |- preserves _ (mapM _ _) => apply preserves_mapM; [apply _|intros ? _]
  | |- preserves _ (asks _) => apply asks_kept
  | |- preserves _ (if ?b then _ else _) => destruct b
  | |- preserves _ (match ?x with _ => _ end) => destruct x
  end.

Lemma createStrategy_asks `{BigNumberJs} f : preserves (on_tracker R) (createStrategy f).
Proof.
  unfold createStrategy, getInitialTotalCollateral, initial_collateral, ask_call.
  repeat ask_step.
Qed.

Lemma createActionTracker_asks `{Registry} f : preserves (on_tracker R) (createActionTracker f).
Proof. unfold createActionTracker, ask_call. repeat ask_step. Qed.

End asking.
