(* ===== verification/DaemonFacts.v ===== *)
(** The tracker claims nothing was delivered that was not: completed transfers and actions are
    backed by an answer from outside, over all its synchronizations. Then the two relations on tracker
    states the service keeps, whatever the outside answers: that of good states and their evolution,
    and that of claims with evidence. *)
From Stdlib Require Import ZArith Lia String.
From stdpp Require Import base tactics list gmap strings relations.
From S2P Require Import Prelude JsMap Amount Token Route Config BaseStrategy Strategies Samples.
From S2P Require Import Messages AddressEq BlockTag Store ActionTracker TrackerSamples TrackerFacts.
From S2P Require Import Gas InventoryRebalancer InventorySamples Triples Rebalancer RebalancerFacts.
From S2P Require Import Orchestrator Monitor ContextFactory Service Lifecycle.

#[local] Open Scope Z_scope.

Section evidence.
Context `{World}.

(** The destination's mailbox said so. *)
Definition delivered (messageId : string) (destination : Z) : Prop :=
  exists k chain tag, w_chainName destination = Ok chain /\
    w_isDelivered k chain messageId tag = Ok true.

(** The bridge said so, of the transaction of the movement. *)
Definition bridged (a : RebalanceAction) : Prop :=
  a_type a = inventory_movement /\
  exists k bridge txHash, a_txHash a = Some txHash /\ a_externalBridgeId a = Some bridge /\
    w_bridge_status k bridge txHash (a_origin a) (a_destination a) = Ok BridgeComplete.

Definition transfer_attested (t : Transfer) : Prop :=
  t_status t = TransferComplete -> delivered (t_messageId t) (t_destination t).
Definition action_attested (a : RebalanceAction) : Prop :=
  a_status a = ActionComplete ->
    (exists messageId, a_messageId a = Some messageId /\ delivered messageId (a_destination a)) \/
    bridged a.

(** Everything complete in the tracker is backed. *)
Definition attested (s : ActionTracker) : Prop :=
  (forall id t, getTransfer id s = Some t -> transfer_attested t) /\
  (forall id a, getRebalanceAction id s = Some a -> action_attested a).

Definition plain (s s' : ActionTracker) : Prop := attested s -> attested s'.

#[export] Instance plain_preorder : PreOrder plain.
Proof. split; unfold plain; [intros s Hs; exact Hs|intros s1 s2 s3; auto]. Qed.

(** *** Operations that complete nothing *)

Lemma plain_ask {A} (f : nat -> A) : preserves plain (ask f).
Proof. intros s Hs. exact Hs. Qed.

Lemma plain_save_intent i : preserves plain (save_intent i).
Proof. intros s Hs. exact Hs. Qed.

Lemma plain_save_transfer t : t_status t = TransferInProgress -> preserves plain (save_transfer t).
Proof.
  intros Ht s [H1 H2]. split; [|exact H2]. intros id t'. unfold getTransfer.
  cbn [fst save_transfer modify transferStore with_transfers]. rewrite store_get_save. case_decide; [|apply H1].
  intros [= <-]. unfold transfer_attested. by rewrite Ht.
Qed.

Lemma plain_save_action a : a_status a = ActionInProgress -> preserves plain (save_action a).
Proof.
  intros Ha s [H1 H2]. split; [exact H1|]. intros id a'. unfold getRebalanceAction.
  cbn [fst save_action modify rebalanceActionStore with_actions]. rewrite store_get_save.
  case_decide; [|apply H2]. intros [= <-]. unfold action_attested. by rewrite Ha.
Qed.

Lemma plain_update_intent id f : preserves plain (update_intent id f).
Proof. intros s Hs. rewrite update_intent_run. by destruct (update _ _ _ _). Qed.

(** An update of one action, when the new entity is backed. *)
Lemma attested_update_action id f s :
  (forall a, getRebalanceAction id s = Some a -> action_attested a ->
     action_attested (tr_touch (w_now (tick s)) (f a))) ->
  attested s -> attested (fst (update_action id f s)).
Proof.
  intros Hf [H1 H2]. rewrite update_action_run. destruct (update _ _ _ _) as [st|e] eqn:E; [|done].
  split; [exact H1|]. intros id' a. unfold getRebalanceAction in *.
  cbn [fst rebalanceActionStore with_actions]. rewrite (store_get_update _ _ _ _ _ id' E).
  case_decide; [subst|apply H2]. destruct (store_get id' (rebalanceActionStore s)) eqn:Ea; [|done].
  intros [= <-]. apply Hf; eauto.
Qed.

Lemma attested_update_transfer id f s :
  (forall t, getTransfer id s = Some t -> transfer_attested t ->
     transfer_attested (tr_touch (w_now (tick s)) (f t))) ->
  attested s -> attested (fst (update_transfer id f s)).
Proof.
  intros Hf [H1 H2]. rewrite update_transfer_run. destruct (update _ _ _ _) as [st|e] eqn:E; [|done].
  split; [|exact H2]. intros id' t. unfold getTransfer in *.
  cbn [fst transferStore with_transfers]. rewrite (store_get_update _ _ _ _ _ id' E).
  case_decide; [subst|apply H1]. destruct (store_get id' (transferStore s)) eqn:Et; [|done].
  intros [= <-]. apply Hf; eauto.
Qed.

Lemma plain_fail_action id : preserves plain (update_action id (set_action_status ActionFailed)).
Proof. intros s Hs. apply attested_update_action; [done|exact Hs]. Qed.

Lemma plain_bridge_status id st since : preserves plain (update_action id (set_bridge_status st since)).
Proof.
  intros s Hs. apply attested_update_action; [|exact Hs]. intros a _ Ha. exact Ha.
Qed.

Ltac plain_step :=
  lazymatch goal with
  | |- preserves _ (mbind _ _) => apply preserves_bind; [apply _| |intros ?]
  | |- preserves _ (mret _) => apply preserves_ret, _
  | |- preserves _ (throw _) => apply preserves_throw, _
  | |- preserves _ (lift _) => apply preserves_lift, _
  | |- preserves _ (gets _) => apply preserves_gets, _
  | |- preserves _ (ask _) => apply plain_ask
  | |- preserves _ now => apply plain_ask
  | |- preserves _ uuidv4 => apply plain_ask
  | |- preserves _ (save_intent _) => apply plain_save_intent
  | |- preserves _ (save_action _) => by apply plain_save_action
  | |- preserves _ (save_transfer _) => by apply plain_save_transfer
  | |- preserves _ (update_intent _ _) => apply plain_update_intent
  | |- preserves _ (update_action _ (set_action_status ActionFailed)) => apply plain_fail_action
  | |- preserves _ (update_action _ (set_bridge_status _ _)) => apply plain_bridge_status
  | |- preserves _ (try_catch _ _) => apply preserves_try_catch; [apply _| |intros ?]
  | |- preserves _ (for_each _ _) => apply preserves_for_each; [apply _|intros ? _]
  | |- preserves _ (if ?b then _ else _) => destruct b
  | |- preserves _ (match ?x with _ => _ end) => destruct x
  end.
Ltac plain_auto := cbv zeta; repeat plain_step.

Lemma plain_createRebalanceIntent p : preserves plain (createRebalanceIntent p).
Proof. unfold createRebalanceIntent. plain_auto. Qed.
Lemma plain_createRebalanceAction p : preserves plain (createRebalanceAction p).
Proof. unfold createRebalanceAction. plain_auto. Qed.
Lemma plain_checkAndCompleteIntent id : preserves plain (checkAndCompleteIntent id).
Proof. unfold checkAndCompleteIntent. plain_auto. Qed.
Lemma plain_recoverAction msg : preserves plain (recoverAction msg).
Proof. unfold recoverAction. plain_auto. Qed.
Lemma plain_sync_new_transfer msg : preserves plain (sync_new_transfer msg).
Proof. unfold sync_new_transfer. plain_auto. Qed.
Lemma plain_sync_intent config actions now_ i : preserves plain (sync_intent config actions now_ i).
Proof. unfold sync_intent. plain_auto. Qed.
Lemma plain_syncRebalanceIntents config : preserves plain (syncRebalanceIntents config).
Proof. unfold syncRebalanceIntents, sync_intent. plain_auto. Qed.

Lemma plain_query : preserves plain getPartiallyFulfilledInventoryIntents.
Proof.
  unfold getPartiallyFulfilledInventoryIntents. do 2 (plain_step; [plain_step|]).
  generalize (a ++ a0). clear. intros l. induction l as [|i l IH]; cbn [collect]; [plain_step|].
  plain_step; [|plain_step; [exact IH|plain_step]].
  unfold partial_intent, failRebalanceAction. plain_auto.
Qed.

(** *** Operations that complete what they saw in progress *)

Lemma isMessageDelivered_attests messageId destination tag s :
  wp (isMessageDelivered messageId destination tag)
     (fun s' r => (exists n, s' = later n s) /\ (r = Ok true -> delivered messageId destination)) s.
Proof.
  unfold isMessageDelivered. wp_step. wp_step. wp_step; [|wp_step; split; [by exists 0%nat; destruct s|done]].
  rename a into chain. wp_step. unfold ask. unfold wp at 1. cbn. wp_step.
  - split; [by exists 1%nat|]. intros [= ->]. do 3 eexists. eauto.
  - wp_step. split; [by exists 1%nat|done].
Qed.

Lemma confirmed_tag_calls destination tags s :
  wp (confirmed_tag destination tags) (fun s' _ => exists n, s' = later n s) s.
Proof.
  unfold confirmed_tag. wp_step. wp_step; [|by exists 0%nat; destruct s].
  destruct tags; [wp_step; by exists 0%nat; destruct s|].
  wp_step. unfold ask. unfold wp at 1. cbn. wp_step. by exists 1%nat.
Qed.

Lemma later_later n m s : later n (later m s) = later (n + m) s.
Proof. unfold later. cbn. f_equal. lia. Qed.

(** The immutable fields of what was seen are those of what is stored. *)
Lemma sync_delivered_transfer_attested tags t s0 s :
  getTransfer (t_id t) s0 = Some t -> evolves s0 s ->
  attested s -> attested (fst (sync_delivered_transfer tags t s)).
Proof.
  intros Ht He Ha. change (wp (sync_delivered_transfer tags t) (fun s' _ => attested s') s).
  unfold sync_delivered_transfer. wp_step. eapply wp_mono; [apply confirmed_tag_calls|].
  intros s1 [tag|e] [n ->]; [|done]. wp_step.
  eapply wp_mono; [apply isMessageDelivered_attests|].
  intros s2 [b|e] [[m ->] Hd]; [|done]. destruct b; [|by wp_step].
  unfold wp. apply attested_update_transfer; [|done]. intros t' Ht' _ _.
  destruct (ev_transfers _ _ He _ _ Ht) as (t'' & Ht'' & Hc & _).
  change (getTransfer (t_id t) s = Some t') in Ht'. rewrite Ht'' in Ht'. injection Ht' as ->.
  assert (t_messageId t' = t_messageId t /\ t_destination t' = t_destination t) as [Hm Hdst].
  { unfold transfer_core in Hc. cbn in Hc. by injection Hc. }
  cbn. rewrite Hm, Hdst. by apply Hd.
Qed.

Lemma complete_attested a s0 s :
  getRebalanceAction (a_id a) s0 = Some a -> evolves s0 s ->
  ((exists messageId, a_messageId a = Some messageId /\ delivered messageId (a_destination a)) \/ bridged a) ->
  attested s -> attested (fst (completeRebalanceAction (a_id a) s)).
Proof.
  intros Ha He Hev Hs. change (wp (completeRebalanceAction (a_id a)) (fun s' _ => attested s') s).
  unfold completeRebalanceAction. wp_step. wp_step.
  destruct (getRebalanceAction (a_id a) s) as [a'|] eqn:Ha'; [|by wp_step]. wp_step.
  assert (attested (fst (update_action (a_id a) (set_action_status ActionComplete) s))) as Hs'.
  { apply attested_update_action; [|done]. intros a'' Ha'' _ _.
    destruct (ev_actions _ _ He _ _ Ha) as (a3 & Ha3 & Hc).
    assert (a3 = a'') as -> by congruence. unfold action_core in Hc. cbn in Hc. injection Hc as Hid Hty Hint Hmsg Htx Hbt Hb Ho Hd Ham Hcr.
    unfold bridged in *. cbn. by rewrite Hty, Hmsg, Htx, Hb, Ho, Hd. }
  unfold wp at 1. destruct (snd (update_action _ _ s)); [|done]. by apply plain_checkAndCompleteIntent.
Qed.

Lemma sync_delivered_action_attested tags a s0 s :
  getRebalanceAction (a_id a) s0 = Some a -> evolves s0 s ->
  attested s -> attested (fst (sync_delivered_action tags a s)).
Proof.
  intros Ha He Hs. change (wp (sync_delivered_action tags a) (fun s' _ => attested s') s).
  unfold sync_delivered_action. destruct (a_messageId a) as [[|c messageId]|] eqn:Hm; [by wp_step| |by wp_step].
  wp_step. eapply wp_mono; [apply confirmed_tag_calls|].
  intros s1 [tag|e] [n ->]; [|done]. wp_step.
  eapply wp_mono; [apply isMessageDelivered_attests|].
  intros s2 [b|e] [[m ->] Hd]; [|done]. destruct b; [|by wp_step].
  unfold wp. eapply complete_attested; [exact Ha| |left; eauto|done].
  rewrite later_later. etrans; [exact He|]. constructor; eauto.
Qed.

Lemma sync_movement_attested registry a s0 s :
  getRebalanceAction (a_id a) s0 = Some a -> a_type a = inventory_movement -> evolves s0 s ->
  attested s -> attested (fst (sync_movement registry a s)).
Proof.
  intros Ha Hty He Hs. change (wp (sync_movement registry a) (fun s' _ => attested s') s).
  unfold sync_movement. destruct (a_txHash a) as [[|c txHash]|] eqn:Htx; [by wp_step| |by wp_step].
  destruct (a_externalBridgeId a) as [bridge|] eqn:Hb; [|by wp_step].
  destruct (negb _); [by wp_step|]. wp_step. wp_step. unfold ask. unfold wp at 1. cbn. wp_step.
  destruct (w_bridge_status _ _ _ _ _) as [status|e] eqn:Hst; wp_step; simplify_eq; [|by wp_step].
  eapply wp_mono with (Q := fun s' _ => attested s'); [|intros s' [?|?]; [done|by intros; wp_step]].
  destruct a0.
  - unfold wp. by apply plain_bridge_status.
  - unfold wp. eapply complete_attested; [exact Ha| |right; split; eauto 7|done].
    etrans; [exact He|]. constructor; eauto.
  - unfold wp. by apply plain_fail_action.
  - wp_step. eapply wp_mono; [apply (wp_preserves plain); destruct (a_nonPendingSince a); plain_auto|].
    intros s' [?|?] Hp; [|by apply Hp]. unfold wp. apply plain_bridge_status. by apply Hp.
Qed.

End evidence.

Section relations.
Context `{World} `{!FreshIds} (config : ActionTrackerConfig).
#[local] Existing Instance keeps_preorder.

(** The steps of the synchronizations keep good states, whatever runs between them. *)
Lemma keeps_sync_delivered_transfer tags t : preserves keeps (sync_delivered_transfer tags t).
Proof.
  unfold sync_delivered_transfer. pose proof preserves_confirmed_tag. pose proof preserves_isMessageDelivered.
  repeat (solve [eauto] || keeps_step).
Qed.
Lemma keeps_sync_delivered_action tags a : preserves keeps (sync_delivered_action tags a).
Proof.
  unfold sync_delivered_action. pose proof preserves_confirmed_tag. pose proof preserves_isMessageDelivered.
  pose proof preserves_completeRebalanceAction. repeat (solve [eauto] || keeps_step).
Qed.
Lemma keeps_sync_movement registry a : preserves keeps (sync_movement registry a).
Proof.
  unfold sync_movement, failRebalanceAction, now. pose proof preserves_completeRebalanceAction.
  repeat (solve [eauto] || keeps_step).
Qed.
Lemma keeps_sync_intent actions now_ i : preserves keeps (sync_intent config actions now_ i).
Proof. unfold sync_intent. repeat (solve [eauto] || keeps_step). Qed.
Lemma keeps_sync_discovered actions msg :
  (forall i, w_uuid i <> msg_id msg) -> preserves keeps (sync_discovered actions msg).
Proof.
  intros Hi. unfold sync_discovered. case_match; [apply preserves_ret, _|by apply preserves_recoverAction].
Qed.

Section job_steps.
Context (R : ActionTracker -> ActionTracker -> Prop) `{!PreOrder R}.

(** A step that keeps the relation from every state. *)
Lemma await_preserved {A} (m : tracker A) (k : A -> job ActionTracker) s :
  preserves R m -> (forall a s', sync_ok R s' (k a)) -> sync_ok R s (await m k).
Proof. intros Hm Hk. apply await_ok. intros s' _ _. split; [apply Hm|auto]. Qed.

(** A read of the tracker: what follows starts from what was read. *)
Lemma await_read {A} (f : ActionTracker -> A) (k : A -> job ActionTracker) s :
  (forall s', Inv s' -> sync_ok R s' (k (f s'))) -> sync_ok R s (await (gets f) k).
Proof.
  intros Hk. apply await_ok. intros s' _ HG. cbn. split; [reflexivity|].
  intros a [= <-]. by apply Hk.
Qed.

(** The messages the explorer answers with. *)
Lemma await_messages (answer : nat -> result (list ExplorerMessage)) k s :
  (forall A (f : nat -> A), preserves R (ask f)) ->
  (forall i ms s', answer i = Ok ms -> sync_ok R s' (k ms)) ->
  sync_ok R s (await (messages ← ask answer; lift messages) k).
Proof.
  intros Hask Hk. apply await_ok. intros s' _ _. rewrite ask_bind. unfold lift.
  split; [apply (Hask _ answer)|]. intros ms. apply Hk.
Qed.

End job_steps.

#[export] Instance keeps_lifecycle : Lifecycle config keeps.
Proof.
  split; [apply _|..].
  - intros A f. apply preserves_ask.
  - apply preserves_createRebalanceIntent.
  - apply preserves_createRebalanceAction.
  - intros id. by apply preserves_update_intent.
  - intros id. by apply preserves_update_intent.
  - by apply preserves_getPartiallyFulfilledInventoryIntents.
  - by apply preserves_initialize.
  - intros s s' Hk Hs. by destruct (Hk Hs).
  - intros tags s. unfold syncTransfers_job.
    apply (await_messages keeps); [intros A f; apply preserves_ask|intros i ms s1 _].
    apply (await_each_ok Inv keeps); [intros; apply preserves_sync_new_transfer|].
    apply (await_read keeps); intros s2 _.
    apply (await_each_ok Inv keeps); [intros; apply keeps_sync_delivered_transfer|done].
  - intros o s E. unfold syncRebalanceIntents_job. rewrite E.
    do 2 (apply (await_read keeps); intros ? _).
    apply (await_preserved keeps); [apply preserves_ask|intros now_ s1].
    apply (await_each_ok Inv keeps); [intros; apply keeps_sync_intent|done].
  - intros tags s. unfold syncRebalanceActions_job.
    apply (await_messages keeps); [intros A f; apply preserves_ask|intros i ms s1 Hms].
    apply (await_read keeps); intros s2 _. apply (await_each_ok Inv keeps); [|].
    { intros msg s' Hin _ _. apply keeps_sync_discovered. intros j. by eapply uuid_not_msg. }
    apply (await_read keeps); intros s3 _.
    apply (await_each_ok Inv keeps); [intros; apply keeps_sync_delivered_action|done].
  - by apply preserves_syncInventoryMovementActions.
Qed.

(** Good states stay good, and what is complete stays backed. *)
Definition attests (s s' : ActionTracker) : Prop :=
  keeps s s' /\ (Inv s -> attested s -> attested s').

#[export] Instance attests_preorder : PreOrder attests.
Proof.
  split.
  - intros s. split; [reflexivity|auto].
  - intros s1 s2 s3 [K12 A12] [K23 A23]. split; [by etrans|]. intros Hs Ha.
    destruct (K12 Hs) as (Hs2 & _). auto.
Qed.

Lemma attests_plain {A} (m : tracker A) :
  preserves keeps m -> preserves plain m -> preserves attests m.
Proof. intros Hk Hp s. split; [apply Hk|intros _; apply Hp]. Qed.

Lemma attests_later s : attests s (later 1 s).
Proof. apply (attests_plain (ask w_now)); [apply preserves_ask|apply plain_ask]. Qed.

(** A loop over entities seen in a state, each step of which keeps what is attested while the
    immutable fields of what was seen are those of what is stored. *)
Lemma attests_loop {A} (f : A -> tracker unit) xs s0 :
  (forall x, x ∈ xs -> preserves keeps (f x)) ->
  (Inv s0 -> forall x s, x ∈ xs -> evolves s0 s -> attested s -> attested (fst (f x s))) ->
  attests s0 (fst (for_each f xs s0)).
Proof.
  intros Hk Hf. split; [apply preserves_for_each; [apply _|exact Hk]|]. intros Hs0. specialize (Hf Hs0).
  enough (forall s, Inv s -> evolves s0 s -> attested s -> attested (fst (for_each f xs s))) as Hall
    by (apply Hall; [done|reflexivity]).
  induction xs as [|x xs IH]; intros s Hs He Ha; [done|]. cbn [for_each]. rewrite eff_bind_run.
  pose proof (Hk x ltac:(set_solver) s Hs) as (Hs1 & He1 & _).
  pose proof (Hf x s ltac:(set_solver) He Ha) as Ha1.
  destruct (f x s) as [s1 [[]|e]]; cbn [fst] in *; [|done].
  apply IH; [intros; apply Hk; set_solver|intros; apply Hf; [set_solver|done..]|done|by etrans|done].
Qed.

(** Entities in progress are stored under their id. *)
Lemma in_progress_action a s :
  Inv s -> a ∈ getInProgressActions s -> getRebalanceAction (a_id a) s = Some a.
Proof. by intros [[_ _ Hw] _] [_ Ha]%(elem_of_getByStatus _ _ _ Hw). Qed.
Lemma in_progress_transfer t s :
  Inv s -> t ∈ getInProgressTransfers s -> getTransfer (t_id t) s = Some t.
Proof. by intros [[Hw _ _] _] [_ Ht]%(elem_of_getByStatus _ _ _ Hw). Qed.

Lemma attests_syncTransfers tags : preserves attests (syncTransfers tags).
Proof.
  unfold syncTransfers. apply preserves_bind; [apply _| |intros messages].
  { apply attests_plain; [apply preserves_ask|apply plain_ask]. }
  apply preserves_bind; [apply _|apply preserves_lift, _|intros ms].
  apply preserves_bind; [apply _| |intros []].
  { apply preserves_for_each; [apply _|]. intros msg _.
    apply attests_plain; [apply preserves_sync_new_transfer|apply plain_sync_new_transfer]. }
  intros s. rewrite gets_bind. apply attests_loop; [intros; apply keeps_sync_delivered_transfer|].
  intros Hs t s' Ht%in_progress_transfer He; [|done]. by eapply sync_delivered_transfer_attested.
Qed.

Lemma attests_recover_all {B} (f : ExplorerMessage -> tracker unit)
    (k : list ExplorerMessage -> tracker B) :
  (forall msg, (forall i, w_uuid i <> msg_id msg) -> preserves attests (f msg)) ->
  (forall ms, preserves attests (k ms)) ->
  preserves attests (messages ← ask w_rebalance_messages; messages ← lift messages;
    _ ← for_each f messages; k messages).
Proof.
  intros Hf Hk s. rewrite ask_bind. etrans; [apply attests_later|].
  destruct (w_rebalance_messages (tick s)) as [ms|e] eqn:E; [|run_eff; reflexivity].
  rewrite lift_ok_bind. apply preserves_bind; [apply _| |intros []; apply Hk].
  apply preserves_for_each; [apply _|]. intros msg Hin. apply Hf. intros i.
  by eapply uuid_not_msg.
Qed.

Lemma attests_recoverAction msg :
  (forall i, w_uuid i <> msg_id msg) -> preserves attests (recoverAction msg).
Proof. intros Hi. apply attests_plain; [by apply preserves_recoverAction|apply plain_recoverAction]. Qed.

Lemma attests_syncActions tags : preserves attests (syncRebalanceActions tags).
Proof.
  intros s. unfold syncRebalanceActions. rewrite ask_bind. etrans; [apply attests_later|].
  destruct (w_rebalance_messages (tick s)) as [ms|e] eqn:E; [|run_eff; reflexivity].
  rewrite lift_ok_bind, gets_bind. apply preserves_bind; [apply _| |intros []].
  - apply preserves_for_each; [apply _|]. intros msg Hin. unfold sync_discovered.
    case_match; [apply preserves_ret; apply _|]. apply attests_recoverAction. intros i.
    by eapply uuid_not_msg.
  - intros s'. rewrite gets_bind. apply attests_loop; [intros; apply keeps_sync_delivered_action|].
    intros Hs a s1 Ha%in_progress_action He; [|done]. by eapply sync_delivered_action_attested.
Qed.

Lemma attests_syncMovements registry : preserves attests (syncInventoryMovementActions registry).
Proof.
  intros s. unfold syncInventoryMovementActions. rewrite gets_bind.
  apply attests_loop; [intros; apply keeps_sync_movement|].
  intros Hs a s1 [Hty Ha]%list_elem_of_filter He. apply in_progress_action in Ha; [|done].
  by eapply sync_movement_attested.
Qed.

Lemma attests_syncIntents : preserves attests (syncRebalanceIntents config).
Proof. apply attests_plain; [apply preserves_syncRebalanceIntents|apply plain_syncRebalanceIntents]. Qed.

(** The jobs: what was seen in a state is there, with the same immutable fields, when its turn
    comes. *)
Lemma attests_transfers_job tags s : sync_ok attests s (syncTransfers_job tags).
Proof.
  unfold syncTransfers_job.
  apply (await_messages attests); [intros A f; apply attests_plain; [apply preserves_ask|apply plain_ask]|].
  intros i ms s1 _. apply (await_each_ok Inv attests); [|].
  { intros msg s' _ _ _. revert s'.
    apply attests_plain; [apply preserves_sync_new_transfer|apply plain_sync_new_transfer]. }
  apply (await_read attests); intros s2 Hs2. apply (await_each_ok Inv attests); [|done].
  intros t s' Ht%in_progress_transfer [Hk _] _; [|done]. destruct (Hk Hs2) as (_ & He & _).
  split; [apply keeps_sync_delivered_transfer|intros _]. by eapply sync_delivered_transfer_attested.
Qed.

Lemma attests_intents_job o s : trackerConfig o = config -> sync_ok attests s (syncRebalanceIntents_job o).
Proof.
  intros E. unfold syncRebalanceIntents_job. rewrite E.
  do 2 (apply (await_read attests); intros ? _).
  apply (await_preserved attests); [apply attests_plain; [apply preserves_ask|apply plain_ask]|].
  intros now_ s1. apply (await_each_ok Inv attests); [|done].
  intros i s2 _ _ _. revert s2. apply attests_plain; [apply keeps_sync_intent|apply plain_sync_intent].
Qed.

Lemma attests_actions_job tags s : sync_ok attests s (syncRebalanceActions_job tags).
Proof.
  unfold syncRebalanceActions_job.
  apply (await_messages attests); [intros A f; apply attests_plain; [apply preserves_ask|apply plain_ask]|].
  intros i ms s1 Hms. apply (await_read attests); intros s2 _. apply (await_each_ok Inv attests); [|].
  { intros msg s' Hin _ _. revert s'. unfold sync_discovered.
    case_match; [apply preserves_ret; apply _|]. apply attests_recoverAction.
    intros j. by eapply uuid_not_msg. }
  apply (await_read attests); intros s3 Hs3. apply (await_each_ok Inv attests); [|done].
  intros a s' Ha%in_progress_action [Hk _] _; [|done]. destruct (Hk Hs3) as (_ & He & _).
  split; [apply keeps_sync_delivered_action|intros _]. by eapply sync_delivered_action_attested.
Qed.

#[export] Instance attests_lifecycle : Lifecycle config attests.
Proof.
  split; [apply _|..].
  - intros A f. apply attests_plain; [apply preserves_ask|apply plain_ask].
  - intros p. apply attests_plain; [apply preserves_createRebalanceIntent|apply plain_createRebalanceIntent].
  - intros p. apply attests_plain; [apply preserves_createRebalanceAction|apply plain_createRebalanceAction].
  - intros id. apply attests_plain; [by apply preserves_update_intent|apply plain_update_intent].
  - intros id. apply attests_plain; [by apply preserves_update_intent|apply plain_update_intent].
  - apply attests_plain; [apply preserves_getPartiallyFulfilledInventoryIntents|apply plain_query].
  - unfold ActionTracker.initialize. apply attests_recover_all; [apply attests_recoverAction|intros _].
    apply preserves_bind; [apply _|apply attests_syncTransfers|intros _].
    apply preserves_bind; [apply _|apply attests_syncIntents|intros _]. apply attests_syncActions.
  - intros s s' [Hk _] Hs. by destruct (Hk Hs).
  - apply attests_transfers_job.
  - apply attests_intents_job.
  - apply attests_actions_job.
  - apply attests_syncMovements.
Qed.

End relations.

(** ** Polls *)

Section polls.
Context `{World} `{Chains} `{Routers} `{AddressLibs} `{Adapters} (m : Monitor).

Lemma poll_returns handler s : snd (poll m handler s) = Ok ().
Proof.
  unfold poll, try_catch. by destruct ((monitor_event m ≫= handler) s) as [s' [[]|e]].
Qed.

Lemma poll_times_returns n handler s : snd (poll_times m n handler s) = Ok ().
Proof.
  revert s. induction n as [|n IH]; intros s; [done|]. cbn [poll_times].
  rewrite eff_bind_run. pose proof (poll_returns handler s) as Hp.
  destruct (poll m handler s) as [s' r]. cbn in Hp. subst r. apply IH.
Qed.

End polls.
