(* ===== verification/OrchestratorFacts.v ===== *)
(** What one cycle does: it decides on the balances and on the tracker as the synchronization
    left it, and once it has decided it returns, with every movable route accounted for. *)
From Stdlib Require Import ZArith Lia String.
From stdpp Require Import base tactics list gmap strings.
From S2P Require Import Prelude JsMap Amount Token Route Config BaseStrategy Strategies AddressEq.
From S2P Require Import Samples BlockTag Store ActionTracker TrackerSamples TrackerFacts Triples.
From S2P Require Import Gas InventoryRebalancer InventorySamples Rebalancer RebalancerFacts.
From S2P Require Import Orchestrator Lifecycle DaemonFacts.

#[local] Open Scope Z_scope.
#[local] Existing Instance keeps_preorder.

(** The jobs of a cycle are the synchronizations of the tracker: alone, each does the same. *)
Section alone.
Context `{World} (o : RebalancerOrchestrator).

Lemma to_end_done (m : tracker unit) s : (m ≫= fun _ => to_end (Ended (Ok ()))) s = m s.
Proof. rewrite eff_bind_run. by destruct (m s) as [s' [[]|e]]. Qed.

Lemma syncTransfers_alone tags s : to_end (syncTransfers_job tags) s = syncTransfers tags s.
Proof.
  unfold syncTransfers_job, syncTransfers.
  rewrite to_end_await, bind_assoc, !ask_bind, !eff_bind_run.
  destruct (lift _ _) as [s1 [ms|e]]; [|done]. rewrite to_end_await_each, !eff_bind_run.
  destruct (for_each _ ms s1) as [s2 [[]|e]]; [|done].
  rewrite to_end_await, !gets_bind, to_end_await_each. apply to_end_done.
Qed.

Lemma syncRebalanceIntents_alone s :
  to_end (syncRebalanceIntents_job o) s = syncRebalanceIntents (trackerConfig o) s.
Proof.
  unfold syncRebalanceIntents_job, syncRebalanceIntents.
  rewrite !to_end_await, !gets_bind, !to_end_await, !gets_bind, to_end_await. unfold now.
  rewrite !ask_bind, to_end_await_each. apply to_end_done.
Qed.

Lemma syncRebalanceActions_alone tags s :
  to_end (syncRebalanceActions_job tags) s = syncRebalanceActions tags s.
Proof.
  unfold syncRebalanceActions_job, syncRebalanceActions.
  rewrite to_end_await, bind_assoc, !ask_bind, !eff_bind_run.
  destruct (lift _ _) as [s1 [ms|e]]; [|done].
  rewrite to_end_await, !gets_bind, to_end_await_each, !eff_bind_run.
  destruct (for_each _ ms s1) as [s2 [[]|e]]; [|done].
  rewrite to_end_await, !gets_bind, to_end_await_each. apply to_end_done.
Qed.

End alone.

Section cycle.
Context `{World} `{Chains} `{Routers} `{AddressLibs} (o : RebalancerOrchestrator).

Lemma syncActionTracker_returns tags s : snd (syncActionTracker o tags s) = Ok ().
Proof.
  unfold syncActionTracker, try_catch.
  match goal with |- context [match ?m with _ => _ end] => by destruct m as [s' [[]|e]] end.
Qed.

(** What a cycle decides, from the event and the state the synchronization leaves. *)
Definition decision (event : MonitorEvent) (s : InventoryRebalancer)
    : result (gmap string Z * list StrategyRoute) :=
  raw ← getRawBalances (getStrategyChainNames (strategyConfig o)) (tokensInfo event);
  context ← getInflightContext w_chainName (actionTracker s);
  routes ← is_getRebalancingRoutes (strategy o) raw (Some context);
  Ok (raw, routes).

Definition movable_routes (routes : list StrategyRoute) : list MovableCollateralRoute :=
  omap movable_route routes.

(** The rebalancer takes a route on: it has a bridge, and its chains are known. *)
Definition takes_on (route : MovableCollateralRoute) : Prop :=
  known_route route /\ has_bridge route = true.

(** Every route has an intent of its own that was not there before. *)
Definition has_intents (routes : list MovableCollateralRoute) (t t' : ActionTracker) : Prop :=
  exists ids, NoDup ids /\ Forall2 (fun route id => getRebalanceIntent id t = None /\
    exists i, getRebalanceIntent id t' = Some i /\ intent_for route i) routes ids.

(** How a cycle counts the movable routes it proposed. Without a rebalancer for them none is
    counted. With one, they are all failed when one lacks its bridge; none is counted when an
    endpoint is unknown, since the rebalancer throws; and otherwise each is counted once and has
    its intent. *)
Record accounted (routes : list MovableCollateralRoute) (executed failed : nat)
    (t t' : ActionTracker) : Prop := {
  ac_none : movableCollateralRebalancer o = None -> executed = 0%nat /\ failed = 0%nat;
  ac_bridge : is_Some (movableCollateralRebalancer o) ->
    existsb (fun r => negb (has_bridge r)) routes = true -> executed = 0%nat /\ failed = length routes;
  ac_unknown : is_Some (movableCollateralRebalancer o) ->
    existsb (fun r => negb (has_bridge r)) routes = false -> ~ Forall known_route routes ->
    executed = 0%nat /\ failed = 0%nat;
  ac_settled : is_Some (movableCollateralRebalancer o) -> Forall takes_on routes ->
    (executed + failed)%nat = length routes /\ has_intents routes t t'
}.

Lemma count_success_total results :
  (fst (count_success results) + snd (count_success results))%nat = length results.
Proof.
  unfold count_success. induction results as [|r results IH]; [done|]. cbn [fst snd] in *.
  rewrite !filter_cons. destruct (mx_success r); repeat case_decide; try done; cbn [length]; lia.
Qed.

(** A rebalancer that returned its intents knew both chains of every route. *)
Lemma createIntents_known routes s s' intents :
  createIntents routes s = (s', Ok intents) -> Forall known_route routes.
Proof.
  revert s s' intents. induction routes as [|route routes IH]; intros s s' intents Hrun; [constructor|].
  unfold createIntents in *. cbn [mapM] in Hrun.
  apply eff_bind_inv in Hrun as (s1 & i & Hi & Hrun). apply eff_bind_inv in Hrun as (s2 & rest & Hrest & _).
  constructor; [|by eapply IH]. unfold createIntent in Hi.
  apply eff_bind_inv in Hi as (? & ? & [= _ Ho] & Hi). apply eff_bind_inv in Hi as (? & ? & [= _ Hd] & _).
  unfold known_route. by rewrite Ho, Hd.
Qed.

Lemma missing_bridge_counts routes :
  count_success (missing_bridge <$> routes) = (0%nat, length routes).
Proof.
  unfold count_success. induction routes as [|r routes IH]; [done|]. injection IH as IH1 IH2.
  rewrite fmap_cons, !filter_cons, decide_False, decide_True by done. cbn [length]. by rewrite IH1, IH2.
Qed.

(** When not all are taken on, the rebalancer reports them all as failed, or nothing. *)
Lemma executeMovableRoutes_refused config routes s :
  routes <> [] ->
  (existsb (fun r => negb (has_bridge r)) routes = true ->
   executeMovableRoutes config routes s = (s, Ok (missing_bridge <$> routes))) /\
  (existsb (fun r => negb (has_bridge r)) routes = false -> ~ Forall known_route routes ->
   snd (executeMovableRoutes config routes s) = Ok []).
Proof.
  intros Hne. unfold executeMovableRoutes, try_catch, track, Rebalancer.rebalance.
  rewrite bool_decide_eq_false_2 by done. split; intros ->; [by destruct s|]. intros Hk.
  rewrite eff_bind_run. destruct (createIntents routes (actionTracker s)) as [t [intents|e]] eqn:E; [|done].
  by apply createIntents_known in E.
Qed.

Lemma let_pending_run_returns s : exists s', let_pending_run s = (s', Ok ()).
Proof.
  assert (forall turns s, exists s', for_each resume turns s = (s', Ok ())) as Hall.
  { intros turns. induction turns as [|i turns IH]; intros s0; [by eexists|]. cbn [for_each].
    assert (exists s1, resume i s0 = (s1, Ok ())) as [s1 Hs1].
    { unfold resume. destruct (pendingSyncs s0 !! i) as [[r|step]|]; [by eexists| |by eexists].
      destruct (step _). by eexists. }
    rewrite (eff_bind_ok _ _ _ _ _ Hs1). apply IH. }
  unfold let_pending_run. rewrite gets_bind. destruct (pendingSyncs s); [by eexists|].
  rewrite eff_bind_run. unfold asks, track. cbn. apply Hall.
Qed.

Lemma synchronize_returns event s : snd (synchronize o event s) = Ok ().
Proof.
  unfold synchronize. destruct (let_pending_run_returns s) as [s1 E].
  rewrite (eff_bind_ok _ _ _ _ _ E), eff_bind_run.
  pose proof (syncActionTracker_returns (confirmedBlockTags event) s1) as Hr.
  destruct (syncActionTracker o (confirmedBlockTags event) s1) as [s2 r]. cbn in Hr. subst r.
  by destruct (let_pending_run_returns s2) as [s3 ->].
Qed.

Context `{!FreshIds} `{!ReadableReceipts}.

(** What is left running only adds to the tracker. *)
Lemma pending_run s :
  exists s', let_pending_run s = (s', Ok ()) /\
    (Inv (actionTracker s) -> pending_ok keeps s ->
     Inv (actionTracker s') /\ pending_ok keeps s' /\ evolves (actionTracker s) (actionTracker s')).
Proof.
  destruct (let_pending_run_returns s) as [s' E]. exists s'. split; [done|]. intros Hs Hp.
  destruct (lc_let_pending_run (trackerConfig o) keeps s Hs Hp) as (Hk & Hi & Hp'). rewrite E in *.
  by destruct (Hk Hs) as (_ & He & _).
Qed.

Lemma later_has_intents routes t0 t t' :
  evolves t0 t -> has_intents routes t t' -> has_intents routes t0 t'.
Proof.
  intros He (ids & Hnd & Hall). exists ids. split; [done|]. eapply Forall2_impl; [exact Hall|].
  intros route id [Hnone Hi]. split; [|done]. destruct (getRebalanceIntent id t0) as [i|] eqn:E; [|done].
  destruct (ev_intents _ _ He _ _ E) as (i' & Hi' & _). congruence.
Qed.

Lemma evolves_has_intents routes t t' t'' :
  has_intents routes t t' -> evolves t' t'' -> has_intents routes t t''.
Proof.
  intros (ids & Hnd & Hall) He. exists ids. split; [done|]. eapply Forall2_impl; [exact Hall|].
  intros route id [Hnone (i & Hi & Hfor)]. split; [done|].
  destruct (ev_intents _ _ He _ _ Hi) as (i' & Hi' & Hc). exists i'. split; [done|].
  by eapply intent_for_core.
Qed.

(** The movable routes are settled, whatever the order of the results. *)
Lemma executeMovableRoutes_run config routes s :
  Inv (actionTracker s) -> Forall takes_on routes ->
  exists s' results, executeMovableRoutes config routes s = (s', Ok results) /\
    length results = length routes /\ Inv (actionTracker s') /\
    has_intents routes (actionTracker s) (actionTracker s').
Proof.
  intros Hs Hall. apply Forall_and in Hall as [Hk Hb].
  destruct (rebalance_settled config routes (actionTracker s) Hs Hk Hb)
    as (t' & results & Hrun & Hperm & Hnd & Hint & _).
  pose proof (lc_movable (trackerConfig o) keeps config routes (actionTracker s) Hs) as (Hs' & _).
  unfold executeMovableRoutes, try_catch, track. rewrite Hrun in Hs' |- *.
  eexists _, _. split; [done|]. split_and!; [|exact Hs'|].
  - rewrite length_fmap, <- (length_fmap (in_route ∘ ir_route)). by rewrite Hperm.
  - assert (Forall2 (fun route id => getRebalanceIntent id (actionTracker s) = None /\
        exists i, getRebalanceIntent id t' = Some i /\ intent_for route i)
      (in_route ∘ ir_route <$> results) (intent_of <$> results)) as Hf.
    { apply Forall2_fmap_2, Forall_Forall2_diag, Forall_forall. intros r Hr.
      destruct (Hint r Hr) as [Hnone (i' & ? & ? & ?)]. eauto. }
    destruct (Permutation_Forall2 Hperm Hf) as (ids & Hids & Hall).
    exists ids. split; [by rewrite <- Hids|exact Hall].
Qed.

Lemma executeInventoryRoutes_returns config routes event s :
  exists s' results, executeInventoryRoutes config routes event s = (s', Ok results) /\
    (Inv (actionTracker s) -> pending_ok keeps s -> evolves (actionTracker s) (actionTracker s')).
Proof.
  assert (preserves (on_tracker keeps) (executeInventoryRoutes config routes event)) as Hk.
  { unfold executeInventoryRoutes. apply preserves_bind; [apply _| |intros _].
    - destruct (event_inventoryBalances event); [by apply (preserves_outside keeps)|apply preserves_ret, _].
    - apply preserves_try_catch; [apply _|apply (lc_inventory (trackerConfig o) keeps)|].
      intros _. apply preserves_ret, _. }
  specialize (Hk s). unfold executeInventoryRoutes in *.
  match type of Hk with context [ ?pre ≫= _ ] =>
    assert (exists s1, pre s = (s1, Ok ())) as [s1 E] by (destruct (event_inventoryBalances event); by eexists)
  end.
  rewrite (eff_bind_ok _ _ _ _ _ E) in Hk |- *.
  unfold try_catch in *. destruct (InventoryRebalancer.rebalance config routes s1) as [s2 [results|e]];
    do 2 eexists; (split; [done|]); intros Hs Hp; destruct (Hk Hs Hp) as (Hr & _); by destruct (Hr Hs) as (_ & He & _).
Qed.

(** The movable routes are counted as [accounted] says, and the state stays good. *)
Lemma movable_counts routes s :
  let step := match movableCollateralRebalancer o with
    | Some config =>
        if (0 <? length routes)%nat
        then results ← executeMovableRoutes config routes; mret (count_success results)
        else mret (0%nat, 0%nat)
    | None => mret (0%nat, 0%nat)
    end in
  exists s' executed failed, step s = (s', Ok (executed, failed)) /\
    (Inv (actionTracker s) -> pending_ok keeps s ->
     accounted routes executed failed (actionTracker s) (actionTracker s') /\
     Inv (actionTracker s') /\ pending_ok keeps s').
Proof.
  cbv zeta. destruct (movableCollateralRebalancer o) as [config|] eqn:Ho; cycle 1.
  { do 3 eexists. split; [done|]. intros Hs Hp. split; [|done]. split; rewrite Ho; by intros []. }
  destruct (Nat.ltb_spec 0 (length routes)) as [Hlen|Hlen]; cycle 1.
  { destruct routes; [|cbn in Hlen; lia]. do 3 eexists. split; [done|]. intros Hs Hp. split; [|done].
    split; [done..|]. intros _ _. split; [done|]. exists []. split; constructor. }
  destruct (executeMovableRoutes config routes s) as [s1 [results|e]] eqn:E; cycle 1.
  { exfalso. unfold executeMovableRoutes, try_catch in E. by destruct (track _ s) as [? [?|?]]. }
  rewrite (eff_bind_ok _ _ _ _ _ E). exists s1, (fst (count_success results)), (snd (count_success results)).
  split; [by destruct (count_success results)|]. intros Hs Hp.
  assert (preserves (on_tracker keeps) (executeMovableRoutes config routes)) as Hk.
  { unfold executeMovableRoutes. apply preserves_try_catch; [apply _| |intros _; apply preserves_ret, _].
    apply (lc_track (trackerConfig o) keeps), (lc_movable (trackerConfig o) keeps). }
  destruct (Hk s Hs Hp) as (_ & Hs1 & Hp1). rewrite E in Hs1, Hp1. split; [|done].
  destruct (executeMovableRoutes_refused config routes s) as [Hmissing Hunknown]; [by intros ->; cbn in Hlen; lia|].
  rewrite E in Hmissing, Hunknown. split.
  - by rewrite Ho.
  - intros _ Hb. specialize (Hmissing Hb). injection Hmissing as -> ->. by rewrite missing_bridge_counts.
  - intros _ Hb Hkn. specialize (Hunknown Hb Hkn). by injection Hunknown as ->.
  - intros _ Hall. destruct (executeMovableRoutes_run config routes s Hs Hall) as (s' & results' & Hrun & ? & ? & ?).
    rewrite E in Hrun. injection Hrun as <- <-. by rewrite count_success_total.
Qed.

Lemma accounted_evolves routes executed failed t0 t t' t'' :
  evolves t0 t -> evolves t' t'' -> accounted routes executed failed t t' ->
  accounted routes executed failed t0 t''.
Proof.
  intros Hbefore Hafter [Hn Hb Hu Hs]. split; [done..|]. intros Ho Hall. destruct (Hs Ho Hall) as [? Hi].
  split; [done|]. eapply later_has_intents; [exact Hbefore|]. by eapply evolves_has_intents.
Qed.

(** Execution never throws. *)
Lemma executeWithTracking_run routes event s :
  exists s' executed failed, executeWithTracking o routes event s = (s', Ok (executed, failed)) /\
    (Inv (actionTracker s) -> pending_ok keeps s ->
     accounted (movable_routes routes) executed failed (actionTracker s) (actionTracker s')).
Proof.
  unfold executeWithTracking. fold (movable_routes routes).
  destruct (movable_counts (movable_routes routes) s) as (s1 & executed & failed & Hstep & Hspec).
  rewrite (eff_bind_ok _ _ _ _ _ Hstep).
  destruct (pending_run s1) as (s2 & Hrun2 & Hpend). rewrite (eff_bind_ok _ _ _ _ _ Hrun2).
  assert (forall s', (Inv (actionTracker s2) -> pending_ok keeps s2 ->
      evolves (actionTracker s2) (actionTracker s')) ->
    Inv (actionTracker s) -> pending_ok keeps s ->
    accounted (movable_routes routes) executed failed (actionTracker s) (actionTracker s')) as Hend.
  { intros s' He Hs Hp. destruct (Hspec Hs Hp) as (Hacc & Hs1 & Hp1).
    destruct (Hpend Hs1 Hp1) as (Hs2 & Hp2 & He2).
    eapply accounted_evolves; [reflexivity| |exact Hacc]. etrans; [exact He2|by apply He]. }
  assert (exists s', (match inventoryRebalancer o with
      | Some config =>
          if (0 <? length (omap inventory_route routes))%nat
          then _ ← executeInventoryRoutes config (omap inventory_route routes) event; mret ()
          else mret ()
      | None => mret ()
      end) s2 = (s', Ok ()) /\
    (Inv (actionTracker s2) -> pending_ok keeps s2 -> evolves (actionTracker s2) (actionTracker s')))
    as (s' & Hinv & He).
  { destruct (inventoryRebalancer o) as [config|]; [|exists s2; split; [done|by intros]].
    destruct (0 <? length (omap inventory_route routes))%nat; [|exists s2; split; [done|by intros]].
    destruct (executeInventoryRoutes_returns config (omap inventory_route routes) event s2)
      as (s' & results & Hrun & He). exists s'. split; [|done]. by rewrite (eff_bind_ok _ _ _ _ _ Hrun). }
  rewrite (eff_bind_ok _ _ _ _ _ Hinv). exists s', executed, failed. split; [done|]. by apply Hend.
Qed.

End cycle.

(** C7: A cycle whose synchronization fails, at whatever point and with whatever it leaves running,
    goes on with what the tracker has. It throws only where it reads: when the balances, the
    context or the strategy throw, and then nothing has been executed. Once routes are proposed it
    returns them, whatever the execution of either kind of route does, and the movable ones are
    counted as follows. None is when there is no rebalancer for them, or when it has one with an
    unknown endpoint; all are failed when one lacks its bridge; and otherwise each is counted
    exactly once, as executed or as failed, and has a new intent of its own in the tracker. *)
Theorem executeCycle_spec `{World} `{Chains} `{Routers} `{AddressLibs} `{!FreshIds}
    `{!ReadableReceipts} o event s :
  Inv (actionTracker s) -> pending_ok keeps s ->
  let s1 := fst (synchronize o event s) in
  match decision o event s1 with
  | Throw e => executeCycle o event s = (s1, Throw e)
  | Ok (raw, routes) =>
      exists s' executed failed, executeCycle o event s = (s', Ok {|
        balances := raw; proposedRoutes := routes; executedCount := executed; failedCount := failed |}) /\
        accounted o (movable_routes routes) executed failed (actionTracker s1) (actionTracker s')
  end.
Proof.
  intros Hs Hp s1. pose proof (synchronize_returns o event s) as Hok.
  assert (Inv (actionTracker s1) /\ pending_ok keeps s1) as [Hs1 Hp1]
    by apply (lc_synchronize (trackerConfig o) keeps o event eq_refl s Hs Hp).
  assert (synchronize o event s = (s1, Ok ())) as Hsync.
  { subst s1. rewrite <- Hok. by destruct (synchronize _ _ s). }
  clearbody s1. unfold executeCycle. rewrite (eff_bind_ok _ _ _ _ _ Hsync). unfold decision, decide_and_execute.
  destruct (getRawBalances _ (tokensInfo event)) as [raw|e]; [|done].
  rewrite lift_ok_bind. unfold inflight_context. rewrite bind_assoc, gets_bind. cbn [mbind result_bind].
  destruct (getInflightContext w_chainName (actionTracker s1)) as [context|e]; [|done].
  rewrite lift_ok_bind. cbn [mbind result_bind].
  destruct (is_getRebalancingRoutes (strategy o) raw (Some context)) as [routes|e]; [|done].
  rewrite lift_ok_bind. cbn [mbind result_bind].
  destruct (pending_run o s1) as (s2 & Hrun2 & Hpend). rewrite (eff_bind_ok _ _ _ _ _ Hrun2).
  destruct (Hpend Hs1 Hp1) as (Hs2 & Hp2 & He2). destruct routes as [|route routes].
  - cbn [length Nat.ltb Nat.leb Nat.eqb]. rewrite ret_bind.
    assert (forall t, accounted o (movable_routes []) 0 0 (actionTracker s1) t) as Hnone.
    { intros t. split; [done..|]. intros _ _. split; [done|]. exists []. split; constructor. }
    destruct (inventoryRebalancer o) as [config|].
    + destruct (executeInventoryRoutes_returns o config [] event s2) as (s3 & results & Hrun & _).
      rewrite bind_assoc, (eff_bind_ok _ _ _ _ _ Hrun). by exists s3, 0%nat, 0%nat.
    + by exists s2, 0%nat, 0%nat.
  - change (0 <? length (route :: routes))%nat with true. cbn [negb].
    destruct (executeWithTracking_run o (route :: routes) event s2) as (s3 & executed & failed & Hrun & Hspec).
    rewrite (eff_bind_ok _ _ _ _ _ Hrun). exists s3, executed, failed. split; [by destruct (inventoryRebalancer o)|].
    eapply accounted_evolves; [exact He2|reflexivity|]. by apply Hspec.
Qed.

(** ** A concrete orchestrator *)

Definition strategy_route (bridge : string) (amount : Z) : StrategyRoute := {|
  sr_origin := "a"; sr_destination := "b"; sr_amount := amount;
  sr_execution := ByMovableCollateral (Some bridge) |}.

(** A strategy that always proposes one route the rebalancer can send and one it cannot. *)
Definition fixed_strategy : IStrategy := {|
  name := "fixed";
  is_getRebalancingRoutes := fun _ _ => Ok [strategy_route "0xb1" 100; strategy_route "0xb2" 7] |}.

Definition sample_orchestrator : RebalancerOrchestrator := {|
  strategy := fixed_strategy; trackerConfig := sample_tracker_config; strategyConfig := sample_strategies;
  movableCollateralRebalancer := Some sample_rebalancer;
  inventoryRebalancer := Some sample_inventory_config; orchestrator_bridges := Some [LiFi] |}.

Definition sample_event : MonitorEvent := {|
  tokensInfo := []; confirmedBlockTags := []; event_inventoryBalances := Some [("a", 500)]%string |}.

Definition idle_state : InventoryRebalancer := sample_inventory [] empty_tracker.

Example sample_cycle_counts :
  (fun r => (executedCount r, failedCount r)) <$>
    snd (executeCycle sample_orchestrator sample_event idle_state) = Ok (1%nat, 1%nat).
Proof. vm_compute. reflexivity. Qed.

Lemma executeCycle_spec_witness :
  exists s' result, executeCycle sample_orchestrator sample_event idle_state = (s', Ok result) /\
    (executedCount result + failedCount result)%nat = 2%nat.
Proof.
  pose proof (executeCycle_spec sample_orchestrator sample_event idle_state Inv_empty
    (List.Forall_nil _)) as Hspec.
  cbv zeta in Hspec.
  assert (decision sample_orchestrator sample_event
    (fst (synchronize sample_orchestrator sample_event idle_state)) =
    Ok (∅, [strategy_route "0xb1" 100; strategy_route "0xb2" 7])) as Hd by (vm_compute; reflexivity).
  rewrite Hd in Hspec. destruct Hspec as (s' & executed & failed & Hrun & Hcount).
  exists s'. eexists. split; [exact Hrun|]. apply (ac_settled _ _ _ _ _ _ Hcount); [by eexists|].
  repeat constructor.
Defined.
