(* ===== verification/Progress.v ===== *)
(** Progress of the tracker: what is delivered does not stay in progress. *)
From Stdlib Require Import ZArith Lia String.
From stdpp Require Import base tactics list gmap strings relations.
From S2P Require Import Prelude JsMap Route Config Messages BlockTag Store ActionTracker.
From S2P Require Import TrackerSamples TrackerFacts Triples InventoryRebalancer Rebalancer.
From S2P Require Import RebalancerFacts AddressEq Strategies Orchestrator Lifecycle DaemonFacts.
From S2P Require Import OrchestratorFacts Token Samples InventorySamples.

#[local] Open Scope Z_scope.
#[local] Existing Instance keeps_preorder.

Section progress.
Context `{World} `{!FreshIds}.

Definition known_chain (domain : Z) : Prop := is_ok (w_chainName domain) = true.

(** The mailbox of the destination answers, whenever it is asked, that the message is there. *)
Definition reported_delivered (messageId : string) : Prop :=
  forall k chain tag, w_isDelivered k chain messageId tag = Ok true.

Lemma confirmed_tag_run domain tags s :
  known_chain domain -> exists n tag, confirmed_tag domain tags s = (later n s, Ok tag).
Proof.
  intros [chain Hc]%is_ok_true. unfold confirmed_tag. rewrite Hc, lift_ok_bind.
  destruct tags; [exists 0%nat; destruct s; by eexists|]. rewrite ask_bind. exists 1%nat. by eexists.
Qed.

Lemma isMessageDelivered_run messageId domain tag s :
  known_chain domain ->
  exists b, isMessageDelivered messageId domain tag s = (later 1 s, Ok b) /\
    (reported_delivered messageId -> b = true).
Proof.
  intros [chain Hc]%is_ok_true. unfold isMessageDelivered, try_catch. rewrite Hc, lift_ok_bind, ask_bind.
  cbn [fst snd lift]. destruct (w_isDelivered (tick s) chain messageId tag) as [b|e] eqn:E.
  - exists b. split; [done|]. intros Hr. rewrite Hr in E. congruence.
  - exists false. split; [done|]. intros Hr. rewrite Hr in E. done.
Qed.

(** Asking about one transfer returns, and completes it when it is delivered. *)
Lemma sync_delivered_transfer_run tags t s :
  known_chain (t_destination t) -> is_Some (getTransfer (t_id t) s) ->
  exists s', sync_delivered_transfer tags t s = (s', Ok ()) /\
    (reported_delivered (t_messageId t) ->
     exists t', getTransfer (t_id t) s' = Some t' /\ t_status t' = TransferComplete).
Proof.
  intros Hc [t0 Ht0]. unfold sync_delivered_transfer.
  destruct (confirmed_tag_run (t_destination t) tags s Hc) as (n & tag & Htag).
  rewrite (eff_bind_ok _ _ _ _ _ Htag).
  destruct (isMessageDelivered_run (t_messageId t) (t_destination t) tag (later n s) Hc) as (b & Hb & Hrep).
  rewrite (eff_bind_ok _ _ _ _ _ Hb). destruct b; cycle 1.
  { eexists. split; [done|]. intros Hr. by specialize (Hrep Hr). }
  rewrite update_transfer_run.
  destruct (update_total (t_id t) (set_transfer_status TransferComplete)
    (w_now (tick (later 1 (later n s)))) _ _ Ht0) as [st E].
  cbn [transferStore later] in E |- *. rewrite E. eexists. split; [done|]. intros _.
  unfold getTransfer in *. cbn [transferStore with_transfers].
  rewrite (store_get_update _ _ _ _ _ (t_id t) E), decide_True, Ht0 by done. by eexists.
Qed.

(** Every destination the explorer or the tracker names is a known chain. *)
Definition known_destinations (s : ActionTracker) : Prop :=
  (forall k, exists ms, w_transfer_messages k = Ok ms /\
     Forall (fun msg => known_chain (destination_domain_id msg)) ms) /\
  (forall id t, getTransfer id s = Some t -> known_chain (t_destination t)).

Lemma sync_new_transfer_run msg s :
  known_chain (destination_domain_id msg) ->
  (forall id t, getTransfer id s = Some t -> known_chain (t_destination t)) ->
  exists s', sync_new_transfer msg s = (s', Ok ()) /\
    forall id t, getTransfer id s' = Some t -> known_chain (t_destination t).
Proof.
  intros Hm Hs. unfold sync_new_transfer. rewrite gets_bind.
  destruct (getTransfer (msg_id msg) s); [by eexists|]. unfold try_catch.
  destruct (parseWarpRouteMessage (message_body msg)) as [parsed|e]; [|by eexists].
  rewrite lift_ok_bind. unfold now, save_transfer. rewrite !ask_bind. cbn -[save]. eexists. split; [done|].
  intros id t. unfold getTransfer. cbn [transferStore with_transfers later]. rewrite store_get_save.
  case_decide; [by intros [= <-]|apply Hs].
Qed.

Lemma sync_new_transfers_run ms s :
  Forall (fun msg => known_chain (destination_domain_id msg)) ms ->
  (forall id t, getTransfer id s = Some t -> known_chain (t_destination t)) ->
  exists s', for_each sync_new_transfer ms s = (s', Ok ()) /\
    forall id t, getTransfer id s' = Some t -> known_chain (t_destination t).
Proof.
  intros Hms. revert s. induction Hms as [|msg ms Hm _ IH]; intros s Hs; [by eexists|].
  destruct (sync_new_transfer_run msg s Hm Hs) as (s1 & Hrun & Hs1).
  destruct (IH s1 Hs1) as (s2 & Hruns & Hs2). exists s2. split; [|done].
  cbn [for_each]. by rewrite (eff_bind_ok _ _ _ _ _ Hrun).
Qed.

(** A step on one transfer that does not throw completes it when it is delivered. *)
Lemma sync_delivered_transfer_completes tags t s :
  is_Some (getTransfer (t_id t) s) -> reported_delivered (t_messageId t) ->
  snd (sync_delivered_transfer tags t s) = Ok () ->
  exists t', getTransfer (t_id t) (fst (sync_delivered_transfer tags t s)) = Some t' /\
    t_status t' = TransferComplete.
Proof.
  intros Ht Hrep Hok. destruct (is_ok (w_chainName (t_destination t))) eqn:Hc.
  - destruct (sync_delivered_transfer_run tags t s Hc Ht) as (s' & -> & Hdone). by apply Hdone.
  - unfold sync_delivered_transfer, confirmed_tag in Hok.
    destruct (w_chainName (t_destination t)) as [|e]; [done|]. by rewrite !eff_bind_run in Hok.
Qed.

(** The transfer is there, and complete. *)
Definition completed (id : string) (s : ActionTracker) : Prop :=
  exists t, getTransfer id s = Some t /\ t_status t = TransferComplete.

Lemma completed_kept id s s' : keeps s s' -> Inv s -> completed id s -> completed id s'.
Proof.
  intros Hk Hs (t & Ht & Hst). destruct (Hk Hs) as (_ & He & _).
  destruct (ev_transfers _ _ He _ _ Ht) as (t' & Ht' & _ & Hst'). exists t'. eauto.
Qed.

Lemma keeps_inv s s' : keeps s s' -> Inv s -> Inv s'.
Proof. intros Hk Hs. by destruct (Hk Hs). Qed.

(** Whatever runs between its steps, the synchronization of transfers completes what is
    delivered, unless it is rejected. *)
Lemma syncTransfers_job_completes tags s id t :
  Inv s -> getTransfer id s = Some t -> reported_delivered (t_messageId t) ->
  ends_in Inv keeps (completed id) s (syncTransfers_job tags).
Proof.
  intros Hs Ht Hrep. unfold syncTransfers_job. apply (await_ends Inv keeps). intros s1 ms H1 Hs1 _.
  assert (keeps s1 (fst ((messages ← ask w_transfer_messages; lift messages) s1))) as Hask.
  { apply preserves_bind; [apply _|apply preserves_ask|intros r; apply preserves_lift, _]. }
  set (s2 := fst _) in *. clearbody s2.
  apply (await_each_then Inv keeps keeps_inv (completed id) (completed_kept id)); [by eapply keeps_inv|intros; apply preserves_sync_new_transfer|].
  intros s3 H3 Hs3. apply (await_ends Inv keeps). intros s4 ts H4 Hs4 [= <-]. cbn [fst gets].
  assert (keeps s s4) as Hk by (etrans; [exact H1|]; etrans; [exact Hask|]; by etrans).
  destruct (Hk Hs) as (_ & He & _). destruct (ev_transfers _ _ He _ _ Ht) as (t4 & Ht4 & Hc & _).
  assert (t_id t4 = id) as Hid by (destruct Hs4 as [[[_ Hw] _ _] _]; by apply Hw).
  assert (t_messageId t4 = t_messageId t) as Hmsg by (unfold transfer_core in Hc; cbn in Hc; by injection Hc).
  destruct (decide (t_status t4 = TransferComplete)) as [Hst|Hst].
  { apply (ends_in_already Inv keeps keeps_inv (completed id) (completed_kept id)); [done|by exists t4|].
    apply (await_each_ok Inv keeps); [intros; apply keeps_sync_delivered_transfer|done]. }
  apply (await_each_ends Inv keeps keeps_inv (completed id) (completed_kept id) _ _ t4);
    [|done|intros; apply keeps_sync_delivered_transfer| |done].
  - pose proof Hs4 as [[Hw _ _] _]. apply (elem_of_getByStatus _ _ _ Hw).
    cbn. split; [by destruct (t_status t4)|by rewrite Hid].
  - intros s5 H5 Hs5 Hok. destruct (H5 Hs4) as (_ & He5 & _).
    destruct (ev_transfers _ _ He5 _ _ Ht4) as (t5 & Ht5 & _). rewrite <- Hid in *.
    apply sync_delivered_transfer_completes; [by eexists|by rewrite Hmsg|done].
Qed.

End progress.

Section cycle.
Context `{World} `{Chains} `{Routers} `{AddressLibs} `{!FreshIds} (o : RebalancerOrchestrator) (id : string).

(** A good state in which the transfer is complete. *)
Definition completed_in (s : InventoryRebalancer) : Prop :=
  Inv (actionTracker s) /\ pending_ok keeps s /\ completed id (actionTracker s).

Lemma keeps_completed_in {A} (m : inv A) s :
  preserves (on_tracker keeps) m -> completed_in s -> wp m (fun s' _ => completed_in s') s.
Proof.
  intros Hm (Hs & Hp & Hd). destruct (Hm s Hs Hp) as (Hk & Hs' & Hp').
  split_and!; [done..|]. by eapply completed_kept.
Qed.

(** The synchronizations of a cycle, when they succeed. *)
Lemma sync_all_completes tags s s' t :
  Inv (actionTracker s) -> pending_ok keeps s ->
  getTransfer id (actionTracker s) = Some t -> reported_delivered (t_messageId t) ->
  sync_all o tags s = (s', Ok ()) -> completed_in s'.
Proof.
  intros Hs Hp Ht Hrep Hsync.
  destruct (lc_sync_all (trackerConfig o) keeps o tags eq_refl s Hs Hp) as (_ & Hs' & Hp').
  rewrite Hsync in Hs', Hp'. split_and!; [done..|]. unfold sync_all in Hsync.
  destruct (promise_all _ _ _ _ _ _) as [u [running r]] eqn:E. injection Hsync as <- ->. cbn.
  eapply (promise_all_ends Inv keeps keeps_inv _ (completed id) (completed_kept id)); [exact Hs|..|exact E].
  - apply (lc_syncTransfers (config := trackerConfig o)).
  - by apply (lc_syncIntents (config := trackerConfig o)).
  - apply (lc_syncActions (config := trackerConfig o)).
  - by eapply syncTransfers_job_completes.
Qed.

(** The rest of the cycle. *)
Lemma rest_completed event s : completed_in s ->
  wp let_pending_run (fun s' r => match r with
    | Ok _ => wp (decide_and_execute o event) (fun s'' _ => completed id (actionTracker s'')) s'
    | Throw _ => completed id (actionTracker s') end) s.
Proof.
  intros Hd. eapply wp_mono; [apply keeps_completed_in; [apply (lc_let_pending_run (trackerConfig o) keeps)|done]|].
  intros s1 [[]|e] Hd1; [|apply Hd1].
  eapply wp_mono; [apply keeps_completed_in; [apply (lc_decide_and_execute (trackerConfig o) keeps)|done]|].
  by intros s2 r (_ & _ & Hd2).
Qed.

End cycle.

(** C39: When the three synchronizations of a cycle succeed, in whatever turns their steps run,
    every tracked transfer whose mailbox reports it delivered whenever it is asked is complete
    when the cycle ends, also when the rest of the cycle throws. The tracker is good at first, and
    what earlier cycles left running keeps it so. *)
Theorem cycle_completes_delivered `{World} `{Chains} `{Routers} `{AddressLibs} `{!FreshIds}
    o event s id t s' :
  Inv (actionTracker s) -> pending_ok keeps s ->
  getTransfer id (actionTracker s) = Some t -> reported_delivered (t_messageId t) ->
  sync_all o (confirmedBlockTags event) (fst (let_pending_run s)) = (s', Ok ()) ->
  exists t', getTransfer id (actionTracker (fst (executeCycle o event s))) = Some t' /\
    t_status t' = TransferComplete.
Proof.
  intros Hs Hp Ht Hrep Hsync. destruct (pending_run o s) as (s1 & Hrun & Hgood). rewrite Hrun in Hsync.
  destruct (Hgood Hs Hp) as (Hs1 & Hp1 & He1). cbn [fst] in Hsync.
  destruct (ev_transfers _ _ He1 _ _ Ht) as (t1 & Ht1 & Hc & _).
  assert (t_messageId t1 = t_messageId t) as Hmsg by (unfold transfer_core in Hc; cbn in Hc; by injection Hc).
  assert (completed_in id s') as Hdone.
  { eapply (sync_all_completes o); [exact Hs1|exact Hp1|exact Ht1|by rewrite Hmsg|exact Hsync]. }
  enough (wp (executeCycle o event) (fun s'' _ => completed id (actionTracker s'')) s) as Hend by exact Hend.
  unfold executeCycle, synchronize, syncActionTracker. wp_step. wp_step. unfold wp at 1. rewrite Hrun.
  cbn [fst snd]. wp_step. wp_step. wp_step. unfold wp at 1. rewrite Hsync. cbn [fst snd].
  destruct (orchestrator_bridges o) as [registry|]; [|by apply rest_completed].
  eapply wp_mono; [apply (keeps_completed_in id); [|exact Hdone]|].
  { apply (lc_track (trackerConfig o) keeps), preserves_syncInventoryMovementActions. }
  intros s2 [[]|e] Hd2; by apply rest_completed.
Qed.

(** The transfer on its way to chain b. *)
Definition moving_transfer : Transfer := {|
  t_id := "0xm7"; t_status := TransferInProgress; t_messageId := "0xm7"; t_origin := 1;
  t_destination := 2; t_amount := 5; t_sender := "0x01"; t_recipient := "0x02"; t_createdAt := 0;
  t_updatedAt := 0 |}.
Definition moving_state : InventoryRebalancer :=
  sample_inventory [] (with_transfers empty_tracker [("0xm7"%string, moving_transfer)]).

(** The sample outside with mailboxes that have every message. *)
#[local] Instance delivering_world : World := {|
  w_now := @w_now sample_world; w_uuid := @w_uuid sample_world;
  w_rebalance_messages := @w_rebalance_messages sample_world;
  w_transfer_messages := @w_transfer_messages sample_world;
  w_chainName := @w_chainName sample_world; w_metadata := @w_metadata sample_world;
  w_latest := @w_latest sample_world; w_isDelivered := fun _ _ _ _ => Ok true;
  w_bridge_status := @w_bridge_status sample_world; w_date := @w_date sample_world;
  w_turn := @w_turn sample_world; w_background := @w_background sample_world |}.

#[local] Instance delivering_fresh : FreshIds.
Proof.
  split.
  - exact (@uuid_inj sample_world sample_fresh).
  - exact (@uuid_not_msg sample_world sample_fresh).
Qed.

Lemma cycle_completes_delivered_witness :
  exists t', getTransfer "0xm7" (actionTracker (fst (executeCycle sample_orchestrator sample_event moving_state)))
    = Some t' /\ t_status t' = TransferComplete.
Proof.
  apply (cycle_completes_delivered sample_orchestrator sample_event moving_state "0xm7" moving_transfer
    (fst (sync_all sample_orchestrator (confirmedBlockTags sample_event) moving_state))).
  - split; [|by intros k _]. split; [|apply store_wf_nil..].
    exact (store_wf_save moving_transfer [] store_wf_nil).
  - apply List.Forall_nil.
  - reflexivity.
  - by intros k chain tag.
  - vm_compute. reflexivity.
Defined.

(** An explorer that does not answer for the actions of the rebalancer, whose synchronization has
    its turns first. *)
Definition failing_explorer : World := {|
  w_now := @w_now sample_world; w_uuid := @w_uuid sample_world;
  w_rebalance_messages := fun _ => Throw (Error "explorer down");
  w_transfer_messages := @w_transfer_messages sample_world;
  w_chainName := @w_chainName sample_world; w_metadata := @w_metadata sample_world;
  w_latest := @w_latest sample_world; w_isDelivered := fun _ _ _ _ => Ok true;
  w_bridge_status := @w_bridge_status sample_world; w_date := @w_date sample_world;
  w_turn := fun _ _ => 2%nat; w_background := fun _ => [] |}.

(** A rejection lets the cycle go on while the others are running: the transfer is still in
    progress when the cycle ends, and is completed once its synchronization has its turns. *)
Example rejected_sync_leaves_transfer :
  let s1 := fst (@executeCycle failing_explorer _ _ _ sample_orchestrator sample_event moving_state) in
  let s2 := fst (for_each resume [0; 0]%nat s1) in
  let status s := t_status <$> getTransfer "0xm7" (actionTracker s) in
  length (pendingSyncs s1) = 2%nat /\
  status s1 = Some TransferInProgress /\ status s2 = Some TransferInProgress /\
  status (fst (resume 0 s2)) = Some TransferComplete.
Proof. vm_compute. by split_and!. Qed.
