(* ===== verification/WiringFacts.v ===== *)
(** A concrete outside of the service and small configurations for its examples: a registry
    with the warp route of two routers, and chains of each kind. Then what the context factory
    guarantees: a service that starts has, for every route its strategy can propose, a rebalancer
    that executes it, and where it does not. *)
From Stdlib Require Import ZArith Lia String.
From stdpp Require Import base tactics list gmap strings.
From S2P Require Import Prelude JsMap Addresses Amount Token Route Config BaseStrategy Strategies.
From S2P Require Import Samples FactoryFacts AddressEq BlockTag Store ActionTracker TrackerSamples.
From S2P Require Import Gas InventoryRebalancer InventorySamples Rebalancer RebalancerFacts.
From S2P Require Import Orchestrator Monitor ContextFactory.

#[local] Open Scope Z_scope.

(** Adapters that report 1000 of each token and 500 of each inventory. *)
#[export] Instance sample_adapters : Adapters := {|
  mo_getHypAdapter := fun _ => Ok ();
  mo_getBridgedSupply := fun _ _ _ => Ok (Some 1000);
  mo_protocol := fun _ => PEthereum;
  mo_getAdapter := fun _ => Ok ();
  mo_getBalance := fun _ _ _ => Ok 500
|}.

(** The registry knows the warp route. *)
#[export] Instance sample_registry : Registry := {|
  g_getAddresses := Ok ();
  g_getWarpRoute := fun _ => Ok (Some [routed_token "a" router_a; routed_token "b" router_b]);
  g_fromConfig := fun _ => Ok ();
  g_getProvider := fun _ => Ok ();
  g_mailbox := fun _ => Ok (Some "0xmailbox"%string);
  g_metadata := [("a", 1); ("b", 2)]%string
|}.

#[export] Instance whole_numbers_instance : BigNumberJs := whole_numbers.

(** A chain of each kind, and one whose rebalances to chain b go by inventory. *)
Definition bridged_chain : BaseChainConfig := {|
  cc_bridge := Some "0xb1"%string; cc_executionType := None; cc_externalBridge := None;
  cc_bridgeMinAcceptedAmount := None; cc_override := None |}.
Definition inventory_chain : BaseChainConfig := {|
  cc_bridge := None; cc_executionType := Some Inventory; cc_externalBridge := Some LiFi;
  cc_bridgeMinAcceptedAmount := None; cc_override := None |}.
Definition overriding_chain : BaseChainConfig := {|
  cc_bridge := Some "0xb1"%string; cc_executionType := None; cc_externalBridge := None;
  cc_bridgeMinAcceptedAmount := None;
  cc_override := Some [("b"%string, {| bo_executionType := Some Inventory; bo_bridge := None;
                         bo_externalBridge := Some LiFi; bo_bridgeMinAcceptedAmount := None |})] |}.

(** A quarter of the collateral on chain a, the rest on chain b. *)
Definition quarter_strategy (a b : BaseChainConfig) : StrategyConfig := WeightedStrategySchema
  [("a"%string, (a, {| weight := 1; tolerance := 5 |}));
   ("b"%string, (b, {| weight := 3; tolerance := 5 |}))].
Definition deficit_strategy (c : BaseChainConfig) : StrategyConfig := CollateralDeficitStrategySchema
  [("a"%string, (c, NStr "5")); ("b"%string, (c, NStr "5"))].

Import StrategyFactory.

(** ** Execution types of proposed routes *)

(** No chain is configured in two ways by different strategies. *)
Definition one_configuration (strategies : list StrategyConfig) : Prop :=
  forall sc chain c, sc ∈ strategies -> map_get chain (strategy_chains sc) = Some c ->
    getStrategyChainConfig strategies chain = Some c.

Lemma one_configuration_single sc : one_configuration [sc].
Proof.
  intros sc' chain c ->%list_elem_of_singleton Hc. unfold getStrategyChainConfig.
  cbn [omap list_omap]. by rewrite Hc.
Qed.

(** The override of a pair. *)
Definition override_of (c : BaseChainConfig) (destination : string) : option BridgeOverride :=
  map_get destination (overrides c).

Definition pair_type (c : BaseChainConfig) (destination : string) : ExecutionType :=
  default (execution_type c) (override_of c destination ≫= bo_executionType).

Lemma getBridgeConfig_type sc o d cfg :
  getBridgeConfig (extractBridgeConfigs sc) o d = Ok cfg ->
  exists c, map_get o (strategy_chains sc) = Some c /\ bc_executionType cfg = pair_type c d.
Proof.
  unfold getBridgeConfig. rewrite extract_lookup.
  destruct (map_get o (strategy_chains sc)) as [c|]; [cbn|done]. intros [= <-]. exists c. split; [done|].
  unfold pair_type, override_of, overrides.
  destruct (cc_override c) as [l|] eqn:El; cbn; rewrite ?El; cbn;
    [destruct (map_get d l) as [ov|]; cbn|]; by destruct (execution_type c).
Qed.

(** ** Movable collateral *)

Section wiring.
Context (f : RebalancerContextFactory).
#[local] Notation strategies := (sc_strategyConfig (factory_config f)).

Lemma strategy_chain_names sc chain c :
  sc ∈ strategies -> map_get chain (strategy_chains sc) = Some c ->
  chain ∈ getStrategyChainNames strategies.
Proof.
  intros Hsc Hc%map_get_elem. apply elem_of_set_of, list_elem_of_In, in_concat.
  exists (strategy_chains sc).*1. split; apply list_elem_of_In.
  - by apply (list_elem_of_fmap_2 (fun s => (strategy_chains s).*1)).
  - by apply (list_elem_of_fmap_2 fst _ (chain, c)).
Qed.

(** A pair that moves by collateral is seen by the factory. *)
Lemma movable_pair_seen sc o c d :
  sc ∈ strategies -> map_get o (strategy_chains sc) = Some c ->
  getStrategyChainConfig strategies o = Some c -> pair_type c d = MovableCollateral ->
  hasMovableCollateralChains f = true.
Proof.
  intros Hsc Ho Hfirst Hp. unfold hasMovableCollateralChains. apply existsb_exists.
  exists o. split; [apply list_elem_of_In; by eapply strategy_chain_names|].
  unfold movable_chain. rewrite Hfirst. cbn [mbind option_bind]. case_bool_decide as Hb; [done|].
  unfold pair_type, override_of, overrides, execution_type in *.
  destruct (cc_override c) as [l|] eqn:El; cbn in *; [|done].
  destruct (map_get d l) as [ov|] eqn:Hov; cbn in *; [|done]. apply existsb_exists.
  exists (d, ov). split; [apply list_elem_of_In; by apply map_get_elem|]. by apply bool_decide_eq_true.
Qed.

(** ** Inventory *)

Lemma strategies_flat {A} (g : string * BaseChainConfig -> list A) sc o c x :
  sc ∈ strategies -> map_get o (strategy_chains sc) = Some c -> x ∈ g (o, c) ->
  x ∈ concat (g <$> strategy_chains sc).
Proof.
  intros _ Ho%map_get_elem Hx. apply list_elem_of_In, in_concat. exists (g (o, c)).
  split; apply list_elem_of_In; [by apply list_elem_of_fmap_2|done].
Qed.

(** The origin of a pair that moves by inventory is relevant, and so is its destination when
    the pair has an override. *)
Lemma inventory_pair_relevant sc o c d :
  sc ∈ strategies -> map_get o (strategy_chains sc) = Some c -> pair_type c d = Inventory ->
  getInventoryChainNames strategies <> [] /\ o ∈ allRelevantChains f /\
  (is_Some (override_of c d) -> d ∈ allRelevantChains f).
Proof.
  intros Hsc Ho Hp. pose proof (map_get_elem _ _ _ Ho) as Hin. unfold pair_type in Hp.
  destruct (override_of c d) as [ov|] eqn:Hov; cbn in Hp.
  - assert (overrides_to_inventory c ov = true) as Hti by by apply bool_decide_eq_true.
    pose proof (map_get_elem _ _ _ Hov) as Hov'.
    assert (d ∈ getInventoryChainNames strategies) as Hd.
    { apply elem_of_set_of, list_elem_of_In, in_concat. eexists. split.
      { apply list_elem_of_In, list_elem_of_fmap_2, Hsc. }
      apply list_elem_of_In, elem_of_app. right.
      apply (strategies_flat (fun '(_, chainConfig) => _) sc o c d); [done..|].
      apply (list_elem_of_fmap_2 fst _ (d, ov)). by apply list_elem_of_filter. }
    split_and!; [by intros E; rewrite E in Hd; apply elem_of_nil in Hd| |].
    + apply elem_of_set_of, elem_of_app. right.
      apply elem_of_set_of, list_elem_of_In, in_concat. eexists. split.
      { apply list_elem_of_In, list_elem_of_fmap_2, Hsc. }
      apply list_elem_of_In. apply (strategies_flat (fun '(_, chainConfig) => _) sc o c o); [done..|].
      assert (existsb (fun e => overrides_to_inventory c e.2) (overrides c) = true) as ->.
      { apply existsb_exists. exists (d, ov). split; [by apply list_elem_of_In|done]. }
      set_solver.
    + intros _. apply elem_of_set_of, elem_of_app. by left.
  - assert (o ∈ getInventoryChainNames strategies) as Hi.
    { apply elem_of_set_of, list_elem_of_In, in_concat. eexists. split.
      { apply list_elem_of_In, list_elem_of_fmap_2, Hsc. }
      apply list_elem_of_In, elem_of_app. left.
      apply (list_elem_of_fmap_2 fst _ (o, c)). apply list_elem_of_filter. split; [|done]. cbn.
      unfold execution_type in Hp. destruct (cc_executionType c) as [[]|]; by cbn in *. }
    split_and!; [by intros E; rewrite E in Hi; apply elem_of_nil in Hi| |by intros []].
    apply elem_of_set_of, elem_of_app. by left.
Qed.

End wiring.

(** ** What the checks of the factory leave *)

Lemma mapM_result_elem {A B} (g : A -> result B) l k x :
  mapM g l = Ok k -> x ∈ l -> exists y, g x = Ok y /\ y ∈ k.
Proof.
  intros H%mapM_result_ok_inv [i Hi]%list_elem_of_lookup.
  destruct (Forall2_lookup_l _ _ _ _ _ H Hi) as (y & Hy & Hg). exists y.
  split; [done|by eapply list_elem_of_lookup_2].
Qed.

Lemma from_entries_get (tokens : list Token) chain t acc :
  map_get chain (foldl set_entry acc ((fun t => (tok_chainName t, t)) <$> tokens)) = Some t ->
  map_get chain acc = Some t \/ t ∈ tokens /\ tok_chainName t = chain.
Proof.
  revert acc. induction tokens as [|t' tokens IH]; intros acc; cbn; [auto|].
  intros [H|[? ?]]%IH; [|set_solver]. unfold set_entry in H. cbn in H.
  rewrite map_get_set in H. case_decide; [right; set_solver|by left].
Qed.

Lemma per_protocol_get {A} signers (g : ProtocolType -> Config.InventorySignerConfig -> A) p :
  map_get p (per_protocol signers g) = g p <$> map_get p signers.
Proof.
  assert (p ∈ protocol_values) as Hp by (destruct p; set_solver). revert Hp.
  assert (NoDup protocol_values) as Hnd by (apply (bool_decide_eq_true_1 (NoDup protocol_values)); reflexivity). revert Hnd.
  unfold per_protocol. induction protocol_values as [|q l IH]; [by intros _ ?%elem_of_nil|].
  intros [Hq Hnd]%NoDup_cons [->|Hp]%elem_of_cons; cbn.
  - destruct (map_get q signers) as [cfg|] eqn:E; cbn; [by rewrite decide_True|].
    clear IH Hnd. induction l as [|q' l IHl]; cbn; [done|].
    destruct (map_get q' signers); cbn; [rewrite decide_False by set_solver|]; apply IHl; set_solver.
  - assert (q <> p) by set_solver.
    destruct (map_get q signers); cbn; [rewrite decide_False by done|]; by apply IH.
Qed.

(** What the inventory rebalancer needs of a chain to act on it. *)
Record ready `{Chains} (c : InventoryRebalancerConfig) (chain : string) : Prop := {
  rd_token : is_Some (getTokenForChain c chain);
  rd_address : exists address, getInventorySignerAddress c chain = Ok address;
  rd_key : exists protocol, getProtocolForChain chain = Ok protocol /\
    protocol ∈ SUPPORTED_INVENTORY_PROTOCOLS /\ is_Some (signer_key c protocol)
}.

Section checks.
Context `{Chains} `{Registry}.

Lemma create_tokens config keys given f chain t :
  create config keys given = Ok f ->
  map_get chain (factory_tokensByChainName f) = Some t ->
  t ∈ warpCore_tokens f /\ tok_chainName t = chain.
Proof.
  unfold create. intros (? & _ & Hc)%result_bind_ok. apply result_bind_ok in Hc as (o & _ & Hc).
  destruct o as [tokens|]; [|done].
  apply result_bind_ok in Hc as (? & _ & (? & _ & [= <-])%result_bind_ok). cbn.
  by intros [Hn|Ht]%from_entries_get.
Qed.

Lemma components_ready config keys given f ov ic chain :
  create config keys given = Ok f ->
  createInventoryRebalancerAndConfig f ov = Ok (Some ic) ->
  monitor_chains (ic_inventoryConfig ic) = allRelevantChains f /\
  (chain ∈ allRelevantChains f -> ready (ic_inventoryRebalancer ic) chain).
Proof.
  intros Hf. unfold createInventoryRebalancerAndConfig.
  destruct (sc_inventorySigners (factory_config f)) as [[|s signers]|]; [done| |done].
  set (inventorySigners := s :: signers). destruct (_ =? 0)%nat; [done|].
  intros (? & Htok & Hc)%result_bind_ok. apply result_bind_ok in Hc as (protocols & Hprot & Hc).
  apply result_bind_ok in Hc as (? & Hsup & Hc). apply result_bind_ok in Hc as (? & Hkey & Hc).
  apply result_bind_ok in Hc as (? & Haddr & Hc). cbv zeta in Hc.
  apply result_bind_ok in Hc as (? & _ & [= <-]). split; [done|]. intros Hch.
  cbn [ic_inventoryRebalancer].
  destruct (mapM_result_elem _ _ _ _ Htok Hch) as ([] & Ht & _).
  destruct (mapM_result_elem _ _ _ _ Hprot Hch) as (p & Hp & Hpin).
  apply (elem_of_set_of protocols) in Hpin.
  destruct (mapM_result_elem _ _ _ _ Hsup Hpin) as ([] & Hs & _).
  destruct (mapM_result_elem _ _ _ _ Hkey Hpin) as ([] & Hk & _).
  destruct (mapM_result_elem _ _ _ _ Haddr Hpin) as ([] & Ha & _).
  apply js_assert_ok in Hs, Hk, Ha.
  assert (getProtocolForChain chain = Ok p) as Hget.
  { unfold chain_protocol in Hp. unfold getProtocolForChain.
    destruct (c_metadata chain) as [[[q|]|]|]; cbn in *; congruence. }
  split.
  - unfold require_chain_token in Ht. apply js_assert_ok, bool_decide_eq_true in Ht as [t Ht].
    destruct (create_tokens _ _ _ _ _ _ Hf Ht) as [Hin Hname]. unfold getTokenForChain. cbn [warp_tokens].
    destruct (List.find _ (warpCore_tokens f)) as [t'|] eqn:E; [eauto|].
    apply list_elem_of_In in Hin. pose proof (List.find_none _ _ E _ Hin) as Hno. cbn in Hno.
    by apply bool_decide_eq_false in Hno.
  - unfold getInventorySignerAddress. rewrite Hget.
    cbn [mbind result_bind InventoryRebalancer.inventorySigners]. rewrite per_protocol_get.
    destruct (map_get p inventorySigners) as [cfg|]; cbn in Ha |- *; [|done].
    destruct (is_address cfg); [done|eauto].
  - exists p. split_and!; [done|by apply bool_decide_eq_true in Hs|].
    unfold signer_key. cbn [InventoryRebalancer.inventorySigners]. rewrite per_protocol_get.
    destruct (map_get p inventorySigners) as [cfg|]; cbn in Ha, Hk |- *; [|done].
    destruct (runtime_key f inventorySigners p) as [[]|]; [done|eauto|done].
Qed.

End checks.

(** ** Coverage *)

(** The service can execute a route: it has the rebalancer of its type, and an inventory
    rebalancer is ready on the origin, and on the destination if an override names the pair. *)
Definition covered `{Chains} (strategies : list StrategyConfig) (rs : Rebalancers)
    (r : StrategyRoute) : Prop :=
  match sr_execution r with
  | ByMovableCollateral _ => exists c, MovableCollateralRebalancer c ∈ rs_rebalancers rs
  | ByInventory _ => exists c monitored,
      TheInventoryRebalancer c ∈ rs_rebalancers rs /\ rs_inventoryConfig rs = Some monitored /\
      (forall chain, chain ∈ monitor_chains monitored -> ready c chain) /\
      sr_origin r ∈ monitor_chains monitored /\
      (forall sc o, sc ∈ strategies -> map_get (sr_origin r) (strategy_chains sc) = Some o ->
         pair_type o (sr_destination r) = Inventory -> is_Some (override_of o (sr_destination r)) ->
         sr_destination r ∈ monitor_chains monitored)
  end.

Lemma signers_required config :
  config_issues config = [] -> getInventoryChainNames (rc_strategy config) <> [] ->
  exists s signers, rc_inventorySigners config = Some (s :: signers).
Proof.
  unfold config_issues. intros (_ & (_ & (Hi & _)%app_eq_nil)%app_eq_nil)%app_eq_nil Hn.
  unfold inventory_issues, hasInventoryChains in Hi.
  destruct (getInventoryChainNames (rc_strategy config)) as [|x xs]; [done|cbn in Hi].
  apply app_eq_nil in Hi as (H1%when_nil & _).
  destruct (rc_inventorySigners config) as [[|s signers]|]; [done|eauto|done].
Qed.

Lemma load_config id ttl input config :
  load id ttl input = Ok config ->
  config_issues input = [] /\ sc_strategyConfig config = rc_strategy input /\
  sc_inventorySigners config = rc_inventorySigners input.
Proof.
  unfold load. case_bool_decide; [|done]. cbn. destruct (_ =? 0)%nat; [done|]. by intros [= <-].
Qed.

Lemma create_config `{Chains} `{Registry} config keys given f :
  create config keys given = Ok f -> factory_config f = config.
Proof.
  unfold create. intros (? & _ & Hc)%result_bind_ok. apply result_bind_ok in Hc as (o & _ & Hc).
  destruct o as [tokens|]; [|done].
  by apply result_bind_ok in Hc as (? & _ & (? & _ & [= <-])%result_bind_ok).
Qed.

(** With an inventory pair in its configuration the factory returns inventory components. *)
Lemma inventory_components `{Chains} `{Registry} f ov o s signers :
  sc_inventorySigners (factory_config f) = Some (s :: signers) -> o ∈ allRelevantChains f ->
  forall r, createInventoryRebalancerAndConfig f ov = Ok r -> is_Some r.
Proof.
  intros Hs Ho r. unfold createInventoryRebalancerAndConfig. rewrite Hs.
  destruct (allRelevantChains f) as [|c cs]; [by apply elem_of_nil in Ho|]. cbn [length Nat.eqb].
  do 6 (intros (? & _ & Hr)%result_bind_ok; revert Hr; cbv zeta). intros [= <-]. eauto.
Qed.

(** C8: A service that starts can execute what its strategy proposes. Take a configuration that
    loads, in which no two strategies configure a chain differently, and a factory whose strategy
    and rebalancers could be created. Then for every route the strategy ever returns there is a
    rebalancer of the route's execution type; and for an inventory route the monitor reads the
    balance of its origin, and of its destination when an override names the pair, and on every
    monitored chain the rebalancer finds a token, a signer address and a key. *)
Theorem proposed_routes_covered `{BigNumberJs} `{Chains} `{Registry}
    id ttl input config keys given f total st rs raw ctx routes :
  load id ttl input = Ok config -> create config keys given = Ok f ->
  Forall (fun sc => map_wf (strategy_chains sc)) (rc_strategy input) ->
  one_configuration (rc_strategy input) ->
  StrategyFactory.createStrategy (sc_strategyConfig config) (factory_tokensByChainName f) total = Ok st ->
  createRebalancers f None = Ok rs ->
  is_getRebalancingRoutes st raw ctx = Ok routes ->
  Forall (covered (sc_strategyConfig config) rs) routes.
Proof.
  intros (Hv & Estr & Esig)%load_config Hf Hwf Hone Hst Hrs Hr. rewrite Estr in *.
  pose proof (create_config _ _ _ _ Hf) as Ecfg.
  eapply Forall_impl; [by eapply createStrategy_safe_for|]. intros r (sc & Hsc & Hsafe).
  destruct (rs_bridge _ _ _ Hsafe) as (cfg & Hcfg & Hrt).
  destruct (getBridgeConfig_type _ _ _ _ Hcfg) as (c & Hc & Hty).
  unfold covered. rewrite Hrt. cbn [sr_execution createStrategyRoute sr_origin sr_destination].
  rewrite Hty. apply result_bind_ok in Hrs as (components & Hcomp & [= <-]).
  assert (sc ∈ sc_strategyConfig (factory_config f)) as Hsc' by (by rewrite Ecfg, Estr).
  destruct (pair_type c (sr_destination r)) eqn:Hpair.
  - assert (hasMovableCollateralChains f = true) as ->.
    { eapply movable_pair_seen; [exact Hsc'|exact Hc| |exact Hpair].
      rewrite Ecfg, Estr. by eapply Hone. }
    unfold createMovableCollateralRebalancer. eexists. destruct components; cbn; constructor.
  - destruct (inventory_pair_relevant f sc _ c _ Hsc' Hc Hpair) as (Hn & Ho & _).
    rewrite Ecfg, Estr in Hn. destruct (signers_required _ Hv Hn) as (s & signers & Hs).
    destruct (inventory_components f None (sr_origin r) s signers) with (r := components)
      as [ic ->]; [by rewrite Ecfg, Esig|done|done|].
    destruct (components_ready _ _ _ _ _ _ (sr_origin r) Hf Hcomp) as [Em _]. cbn.
    exists (ic_inventoryRebalancer ic), (ic_inventoryConfig ic). rewrite Em. split_and!; [set_solver|done| |done|].
    + intros chain. by apply (components_ready _ _ _ _ _ _ chain Hf Hcomp).
    + intros sc' o Hsc2 Ho2 Hp2 Hov.
      destruct (inventory_pair_relevant f sc' (sr_origin r) o (sr_destination r)) as (_ & _ & Hd);
        [by rewrite Ecfg, Estr|done..|auto].
Qed.

(** ** Concrete configurations *)

Definition sample_input (strategies : list StrategyConfig) : RebalancerConfigInput := {|
  rc_strategy := strategies;
  rc_inventorySigners := Some [(PEthereum, {| is_address := router_a; is_key := Some "0xkey"%string |})];
  rc_lifiIntegrator := Some "rebalancer"%string |}.

Definition loaded (strategies : list StrategyConfig) : result ServiceConfig :=
  load "TOKEN/a-b" DEFAULT_INTENT_TTL_MS (sample_input strategies).
Definition built (strategies : list StrategyConfig) : result RebalancerContextFactory :=
  config ← loaded strategies; create config [] None.
Definition wired (strategies : list StrategyConfig) : result Rebalancers :=
  f ← built strategies; createRebalancers f None.
(** The strategy of the service at 1000 of each token, and the routes it then proposes. *)
Definition wired_strategy (strategies : list StrategyConfig) : result IStrategy :=
  f ← built strategies;
  StrategyFactory.createStrategy strategies (factory_tokensByChainName f) 2000.
Definition proposed (strategies : list StrategyConfig) : result (list StrategyRoute) :=
  st ← wired_strategy strategies;
  is_getRebalancingRoutes st (balances_of [("a", 1000); ("b", 1000)]) None.

Lemma proposed_routes_covered_witness :
  let strategies := [quarter_strategy overriding_chain bridged_chain] in
  let config := the_ok (loaded strategies) eq_refl in
  let f := the_ok (built strategies) eq_refl in
  let st := the_ok (wired_strategy strategies) eq_refl in
  let rs := the_ok (wired strategies) eq_refl in
  let routes := the_ok (proposed strategies) eq_refl in
  routes = [{| sr_origin := "a"; sr_destination := "b"; sr_amount := 500;
               sr_execution := ByInventory (Some LiFi) |}] /\
  Forall (covered strategies rs) routes.
Proof.
  intros strategies config f st rs routes. split; [vm_compute; reflexivity|].
  apply (proposed_routes_covered "TOKEN/a-b" DEFAULT_INTENT_TTL_MS (sample_input strategies) config
    [] None f 2000 st rs (balances_of [("a", 1000); ("b", 1000)]) None routes).
  - apply the_ok_eq.
  - vm_compute. reflexivity.
  - constructor; [|constructor]. apply (bool_decide_eq_true_1 (NoDup _)). reflexivity.
  - apply one_configuration_single.
  - exact (the_ok_eq (wired_strategy strategies) eq_refl).
  - vm_compute. reflexivity.
  - exact (the_ok_eq (proposed strategies) eq_refl).
Defined.

(** The conditions of the previous theorem are needed; both configurations load and both
    services start. If a first strategy configures its chains for inventory and a second one the
    same chains for movable collateral, the factory looks at the first only and makes no movable
    collateral rebalancer: a cycle proposes the route of the second and neither executes it nor
    counts it as failed. If only the origin of a pair is an inventory chain, the pair
    is rebalanced by inventory although the monitor never reads the inventory of the destination,
    where the deposit has to be made. *)
Theorem coverage_conditions_needed :
  let two := [deficit_strategy inventory_chain; quarter_strategy bridged_chain bridged_chain] in
  let mixed := [quarter_strategy inventory_chain bridged_chain] in
  (exists rs st result,
    wired two = Ok rs /\ omap as_movable (rs_rebalancers rs) = [] /\ wired_strategy two = Ok st /\
    snd (executeCycle (createOrchestrator (the_ok (built two) eq_refl) st (rs_rebalancers rs)
                         (rs_externalBridgeRegistry rs))
           {| tokensInfo := (fun t => {| ti_token := t; ti_bridgedSupply := Some 1000 |}) <$>
                              [routed_token "a" router_a; routed_token "b" router_b];
              confirmedBlockTags := []; event_inventoryBalances := None |} fresh_state) = Ok result /\
    isMovableCollateralRoute <$> proposedRoutes result = [true] /\
    executedCount result = 0%nat /\ failedCount result = 0%nat) /\
  (exists rs monitored r,
    wired mixed = Ok rs /\ proposed mixed = Ok [r] /\ isInventoryRoute r = true /\
    rs_inventoryConfig rs = Some monitored /\ sr_destination r ∉ monitor_chains monitored).
Proof.
  intros two mixed. split.
  - eexists _, _, _. split_and!; [vm_compute; reflexivity|reflexivity|cbn; reflexivity| | | |];
      [vm_compute; reflexivity|reflexivity..].
  - eexists _, _, _. split_and!; [vm_compute; reflexivity|vm_compute; reflexivity|reflexivity..|].
    cbn. set_solver.
Qed.
