(* ===== verification/ServiceFacts.v ===== *)
(** The service over any sequence of calls: the tracker it keeps stays good and only claims
    what was delivered, and polls never end it. *)
From Stdlib Require Import ZArith Lia String.
From stdpp Require Import base tactics list gmap strings relations.
From S2P Require Import Prelude JsMap Amount Token Route Config BaseStrategy Strategies AddressEq.
From S2P Require Import Samples BlockTag Store ActionTracker TrackerSamples TrackerFacts Triples.
From S2P Require Import Gas InventoryRebalancer InventorySamples Rebalancer RebalancerFacts.
From S2P Require Import Orchestrator Monitor ContextFactory Service Lifecycle DaemonFacts.
From S2P Require Import OrchestratorFacts Progress WiringFacts.

#[local] Open Scope Z_scope.
#[local] Existing Instance keeps_preorder.

Definition tracker_of (s : RebalancerService) : ActionTracker := actionTracker (shared s).

(** No entity is stored yet. *)
Definition empty_stores (t : ActionTracker) : Prop :=
  transferStore t = [] /\ rebalanceIntentStore t = [] /\ rebalanceActionStore t = [].

(** The state of a service between calls: before it is put together nothing is tracked. *)
Record sound `{World} (s : RebalancerService) : Prop := {
  so_inv : Inv (tracker_of s);
  so_attested : attested (tracker_of s);
  so_pending : pending_ok attests (shared s);
  so_fresh : contextFactory s = None ->
    empty_stores (tracker_of s) /\ pendingSyncs (shared s) = []
}.

(** The relation on trackers, inside a service whose factory is not taken away. *)
Definition progresses `{World} (s s' : RebalancerService) : Prop :=
  on_tracker attests (shared s) (shared s') /\
  (is_Some (contextFactory s) -> is_Some (contextFactory s')).

Section progresses.
Context `{World} `{!FreshIds}.

#[export] Instance progresses_preorder : PreOrder progresses.
Proof.
  split; [intros s; split; [reflexivity|done]|].
  intros s1 s2 s3 [A12 F12] [A23 F23]. split; [by etrans|auto].
Qed.

Lemma progresses_shared {A} (m : inv A) :
  preserves (on_tracker attests) m -> preserves progresses (on_shared m).
Proof.
  intros Hm s. unfold on_shared. specialize (Hm (shared s)).
  by destruct (m (shared s)) as [i r].
Qed.

(** Fields outside the shared state. *)
Lemma progresses_modify f :
  (forall s, shared (f s) = shared s) ->
  (forall s, is_Some (contextFactory s) -> is_Some (contextFactory (f s))) ->
  preserves progresses (modify f).
Proof.
  intros Hf Hc s. unfold progresses. cbn. rewrite Hf. split; [reflexivity|apply Hc].
Qed.

Lemma sound_new : sound new_service.
Proof. split; [exact Inv_empty|split; by intros|constructor|done]. Qed.

Lemma progresses_sound s s' :
  is_Some (contextFactory s) -> progresses s s' -> sound s -> sound s'.
Proof.
  intros Hc [Ht Hf] [Hi Hat Hp _]. destruct (Ht Hi Hp) as ([_ Ha] & Hi' & Hp').
  split; [done|by apply Ha|done|].
  intros Hn. destruct (Hf Hc) as [f Hs]. congruence.
Qed.

End progresses.

(** ** Initialization *)

Section service.
Context `{World} `{Chains} `{Routers} `{Registry} `{AddressLibs} `{Adapters} `{BigNumberJs}.
Context `{!FreshIds} (rebalancerConfig : ServiceConfig) (config : RebalancerServiceConfig).

Ltac service_step :=
  lazymatch goal with
  | |- preserves _ (mbind _ _) => apply preserves_bind; [apply _| |intros ?]
  | |- preserves _ (mret _) => apply preserves_ret, _
  | |- preserves _ (lift _) => apply preserves_lift, _
  | |- preserves _ (throw _) => apply preserves_throw, _
  | |- preserves _ get => intros ?; reflexivity
  | |- preserves _ (modify _) => apply progresses_modify; by intros
  | |- preserves _ (on_shared _) => apply progresses_shared
  | |- preserves _ (if ?b then _ else _) => destruct b
  | |- preserves _ (match ?x with _ => _ end) => destruct x
  end.

(** Calls leave the stores as they are. *)
Lemma empty_later n t : empty_stores t -> empty_stores (later n t).
Proof. done. Qed.

Lemma wp_shared_asks {A} (m : inv A) (Q : RebalancerService -> result A -> Prop) s :
  (forall (R : ActionTracker -> ActionTracker -> Prop), PreOrder R ->
     (forall s s', R s s' -> Inv s -> Inv s') ->
     (forall B (f : nat -> B), preserves R (ask f)) -> preserves (on_tracker R) m) ->
  Inv (tracker_of s) -> pending_ok calls_only (shared s) -> empty_stores (tracker_of s) ->
  (forall i r, empty_stores (actionTracker i) -> on_tracker attests (shared s) i ->
     pending_ok calls_only i -> Q (set_shared i s) r) ->
  wp (on_shared m) Q s.
Proof.
  intros Hm Hs Hp He HQ. unfold wp, on_shared.
  assert (forall t t', calls_only t t' -> Inv t -> Inv t') as Hcalls
    by (intros t t' Hc Ht; by destruct (calls_only_same _ _ Hc Ht)).
  destruct (Hm calls_only _ Hcalls (@calls_ask) (shared s) Hs Hp) as ([n Hn] & Hi & Hp').
  pose proof (Hm attests _ (lc_inv (config := {| intentTTL := 0 |}))
    (fun B f => lc_ask (config := {| intentTTL := 0 |}) f) (shared s)) as Ha.
  destruct (m (shared s)) as [i r]. cbn [fst snd] in *. apply HQ; [|exact Ha|exact Hp'].
  rewrite Hn. by apply empty_later.
Qed.

(** Putting the service together starts from an empty tracker and keeps what it finds. *)
Lemma initialize_with_progresses f s :
  empty_stores (tracker_of s) -> pendingSyncs (shared s) = [] -> Inv (tracker_of s) ->
  progresses s (fst (initialize_with config f s)).
Proof.
  intros He Hnone Hs. change (wp (initialize_with config f) (fun s' _ => progresses s s') s).
  assert (forall R, pending_ok R (shared s)) as Hpend by (intros R; unfold pending_ok; by rewrite Hnone).
  unfold initialize_with. wp_step.
  apply wp_shared_asks; [intros; by apply createStrategy_asks|done|done|done|]. intros i r He1 Ha1 Hp1.
  destruct r as [strategy|e]; [|by split]. do 2 wp_step. wp_step.
  apply wp_shared_asks; [intros; by apply createActionTracker_asks|by apply Ha1|done|done|].
  intros i' r He2 Ha2 Hp2.
  assert (on_tracker attests (shared s) i') as Ha by (etrans; [exact Ha1|exact Ha2]).
  destruct r as [tracker|e]; [|by split]. do 2 wp_step.
  set (s3 := set_tracker tracker _).
  assert (progresses s s3) as Hs3.
  { split; [|done]. subst s3. cbn.
    destruct He2 as (E1 & E2 & E3), i' as [[T I A k] B C P]. cbn in *. by subst. }
  clearbody s3. eapply wp_mono; [apply (wp_preserves progresses)|intros s4 r Hs4; by etrans].
  repeat service_step. apply (lc_track {| intentTTL := tc_intentTTL tracker |} attests), lc_initialize.
Qed.

Lemma initialize_sound s :
  sound s -> sound (fst (initialize rebalancerConfig config s)) /\
  progresses s (fst (initialize rebalancerConfig config s)).
Proof.
  intros Hs. unfold initialize. rewrite eff_bind_run. cbn [get].
  destruct (contextFactory s) as [f|] eqn:Hf; [by split|].
  rewrite eff_bind_run. unfold lift. destruct (create _ _ _) as [f|e]; [|by split].
  rewrite eff_bind_run. cbn [modify]. set (s1 := set_contextFactory f s).
  assert (progresses s s1) as Hs1 by (by split).
  destruct (so_fresh _ Hs Hf) as [He Hp].
  pose proof (initialize_with_progresses f s1 He Hp (so_inv _ Hs)) as Hs2. split; [|by etrans].
  apply (progresses_sound s1); [by eexists|done|]. by destruct Hs.
Qed.

(** A service that has been put together, or has tried to, is not put together again. *)
Lemma initialize_once s :
  is_Some (contextFactory s) -> initialize rebalancerConfig config s = (s, Ok ()).
Proof. intros [f Hf]. unfold initialize. rewrite eff_bind_run. cbn [get]. by rewrite Hf. Qed.

Lemma initialize_returned s :
  sound s -> is_ok (snd (initialize rebalancerConfig config s)) = true ->
  is_Some (contextFactory (fst (initialize rebalancerConfig config s))).
Proof.
  intros Hs. unfold initialize. rewrite eff_bind_run. cbn [get].
  destruct (contextFactory s) as [f|] eqn:Hf; [cbn; eauto|].
  rewrite eff_bind_run. unfold lift. destruct (create _ _ _) as [f|e]; [intros _|done].
  rewrite eff_bind_run. cbn [modify].
  destruct (so_fresh _ Hs Hf) as [He Hn].
  destruct (initialize_with_progresses f (set_contextFactory f s) He Hn (so_inv _ Hs)) as [_ Hp].
  apply Hp. by eexists.
Qed.

(** ** Calls *)

(** What is called on a service from outside. *)
Inductive ServiceCall : Type :=
| ExecuteManual (request : ManualRebalanceRequest)
| Start (polls : nat).

Definition call_service (c : ServiceCall) : Service.service unit :=
  match c with
  | ExecuteManual request => executeManual rebalancerConfig config request
  | Start polls => start rebalancerConfig config polls
  end.

(** The service after a sequence of calls, whether they return or throw. *)
Definition after_calls (calls : list ServiceCall) : RebalancerService :=
  foldl (fun s c => fst (call_service c s)) new_service calls.

Lemma lc_onTokenInfo self event : preserves (on_tracker attests) (onTokenInfo self event).
Proof.
  unfold onTokenInfo. destruct (orchestrator self) as [o|]; [|apply preserves_ret, _].
  apply preserves_bind; [apply _|by apply (lc_executeCycle (trackerConfig o) attests)|].
  intros _. apply preserves_ret, _.
Qed.

Lemma call_service_sound c s :
  sound s -> sound (fst (call_service c s)) /\ progresses s (fst (call_service c s)).
Proof.
  intros Hs. 
  assert (forall (k : service unit), preserves progresses k ->
    sound (fst ((initialize rebalancerConfig config ≫= fun _ => k) s)) /\
    progresses s (fst ((initialize rebalancerConfig config ≫= fun _ => k) s))) as Hcall.
  { intros k Hk. rewrite eff_bind_run. destruct (initialize_sound s Hs) as [Hs1 Hp1].
    pose proof (initialize_returned s Hs) as Hret.
    destruct (initialize rebalancerConfig config s) as [s1 [[]|e]]; cbn [fst snd] in *; [|done].
    specialize (Hk s1). split; [|by etrans]. eapply progresses_sound; [|exact Hk|done]. auto. }
  destruct c as [request|polls]; cbn [call_service].
  - apply Hcall. repeat service_step. apply (lc_manual {| intentTTL := 0 |} attests).
  - unfold start. destruct (mode config); [by split|]. apply Hcall. repeat service_step.
    apply (lc_polls {| intentTTL := 0 |} attests). intros event. apply lc_onTokenInfo.
Qed.

End service.

Section claims.
Context `{World} `{Chains} `{Routers} `{Registry} `{AddressLibs} `{Adapters} `{BigNumberJs}.
Context `{!FreshIds} (rebalancerConfig : ServiceConfig) (config : RebalancerServiceConfig).

#[local] Notation after := (after_calls rebalancerConfig config).

Lemma after_calls_run s more :
  sound s -> let s' := foldl (fun s c => fst (call_service rebalancerConfig config c s)) s more in
  sound s' /\ on_tracker attests (shared s) (shared s').
Proof.
  revert s. induction more as [|c more IH]; intros s Hs; cbn [foldl]; [by split|].
  destruct (call_service_sound rebalancerConfig config c s Hs) as [Hs1 [Hp _]].
  destruct (IH _ Hs1) as [Hs2 Hp2]. split; [done|by etrans].
Qed.

Lemma after_sound calls : sound (after calls).
Proof. apply (after_calls_run new_service calls sound_new). Qed.

(** Polls return, so a started daemon throws what its initialization throws. *)
Lemma start_returns polls s :
  snd (start rebalancerConfig config polls s) = snd (start rebalancerConfig config 0 s).
Proof.
  unfold start. destruct (mode config); [done|]. rewrite !eff_bind_run.
  destruct (initialize rebalancerConfig config s) as [s1 [[]|e]]; [|done].
  rewrite !eff_bind_run. cbn [get]. destruct (service_monitor s1) as [m|]; [|done].
  unfold on_shared. pose proof (poll_times_returns m polls (onTokenInfo s1) (shared s1)) as Hp.
  by destruct (poll_times m polls (onTokenInfo s1) (shared s1)) as [i r].
Qed.

End claims.

(** C3: A service keeps running whatever its cycles throw: starting the daemon for any number of
    polls throws only what putting the service together throws. Over any sequence of calls,
    manual rebalances and daemon runs, with any configuration and any answers from outside, the
    tracker is well formed, nothing it once held is lost or changed in its immutable part, and
    delivered transfers stay delivered. *)
Theorem daemon_evolves `{World} `{Chains} `{Routers} `{Registry} `{AddressLibs} `{Adapters}
    `{BigNumberJs} `{!FreshIds} rebalancerConfig config calls more polls :
  let s := after_calls rebalancerConfig config calls in
  let s' := after_calls rebalancerConfig config (calls ++ more) in
  snd (start rebalancerConfig config polls s) = snd (start rebalancerConfig config 0 s) /\
  stores_wf (tracker_of s') /\ evolves (tracker_of s) (tracker_of s').
Proof.
  intros s s'. split; [apply start_returns|].
  pose proof (after_sound rebalancerConfig config calls) as Hs.
  assert (s' = foldl (fun s c => fst (call_service rebalancerConfig config c s)) s more) as ->
    by apply foldl_app.
  destruct (after_calls_run rebalancerConfig config s more Hs) as [[[Hwf _] _ _ _] Hrun].
  split; [done|]. destruct (Hrun (so_inv _ Hs) (so_pending _ Hs)) as ([Hk _] & _).
  by destruct (Hk (so_inv _ Hs)) as (_ & He & _).
Qed.

(** C2: At no time does the tracker of a service claim a delivery without evidence: after any
    sequence of calls, for each complete transfer and each complete action with a message, the
    mailbox of the destination has reported the message delivered, and for each complete
    movement the bridge has reported its transaction complete. *)
Theorem daemon_attests `{World} `{Chains} `{Routers} `{Registry} `{AddressLibs} `{Adapters}
    `{BigNumberJs} `{!FreshIds} rebalancerConfig config calls :
  let s := tracker_of (after_calls rebalancerConfig config calls) in
  (forall id t, getTransfer id s = Some t -> t_status t = TransferComplete ->
     delivered (t_messageId t) (t_destination t)) /\
  (forall id a, getRebalanceAction id s = Some a -> a_status a = ActionComplete ->
     (exists messageId, a_messageId a = Some messageId /\ delivered messageId (a_destination a)) \/
     bridged a).
Proof. apply after_sound. Qed.

(** ** Manual rebalances *)

(** What a manual rebalance leaves in the tracker: a new intent for its route, in progress with
    the message that was sent, or failed with nothing sent. *)
Record manual_outcome `{World} `{Chains} (route : MovableCollateralRoute)
    (t t' : ActionTracker) : Prop := {
  mo_intent : exists i, getRebalanceIntent (i_id i) t = None /\
    getRebalanceIntent (i_id i) t' = Some i /\ intent_for route i /\
    (forall id, id <> i_id i -> getRebalanceIntent id t' = getRebalanceIntent id t) /\
    (i_status i = IntentFailed /\ getAll (rebalanceActionStore t') = getAll (rebalanceActionStore t) \/
     i_status i = IntentInProgress /\ exists a messageId,
       getAll (rebalanceActionStore t') = getAll (rebalanceActionStore t) ++ [a] /\
       a_intentId a = i_id i /\ a_status a = ActionInProgress /\
       a_messageId a = Some messageId /\ mr_amount route <= a_amount a);
  mo_transfers : transferStore t' = transferStore t
}.

Lemma manual_settled `{World} `{Chains} `{Routers} `{AddressLibs} `{!ReadableReceipts} `{!FreshIds}
    c route t :
  Inv t -> known_route route -> has_bridge route = true ->
  exists t' results, Rebalancer.rebalance c [route] t = (t', Ok results) /\ manual_outcome route t t'.
Proof.
  intros Ht Hk Hb.
  destruct (rebalance_settled c [route] t Ht) as
    (t' & results & Hrun & Hperm & _ & Hint & Hother & (new & Hnew & Hrec) & Htr);
    [by constructor|by constructor|].
  symmetry in Hperm. apply Permutation_length_1_inv in Hperm.
  destruct results as [|r [|]]; [done| |done]. injection Hperm as Hroute.
  destruct (Hint r) as (Hn & i & Hi & Hfor & Hst); [set_solver|]. rewrite Hroute in Hfor.
  assert (intent_of r = i_id i) as Hid.
  { pose proof (lc_movable {| intentTTL := 0 |} keeps c [route] t Ht) as (Hwf & _). rewrite Hrun in Hwf.
    destruct Hwf as [[_ Hwi _] _]. symmetry. exact (proj2 Hwi _ _ Hi). }
  eexists t', _. split; [exact Hrun|]. split; [|done]. exists i. rewrite <- Hid.
  split_and!; [done|done|done| |].
  { intros id Hne. apply Hother. cbn. set_solver. }
  unfold outcome_status in Hst. unfold sent_results in Hrec. cbn [filter list_filter] in Hrec.
  destruct (has_message r) eqn:Hm.
  - right. split; [done|]. rewrite decide_True in Hrec by done.
    apply Forall2_cons_inv_l in Hrec as (a & ? & Ha & ->%Forall2_nil_inv_l & ->).
    destruct Ha as (? & _ & ? & ? & _ & _ & _ & ?). rewrite Hroute in *. exists a, (ir_messageId r).
    by split_and!.
  - left. split; [done|]. rewrite decide_False in Hrec by done.
    apply Forall2_nil_inv_l in Hrec as ->. by rewrite app_nil_r in Hnew.
Qed.

(** A manual rebalance on a service that has been put together. Without a rebalancer, or
    with a request that fails a check (an unknown origin, an amount that is no positive number,
    no bridge, an amount that does not convert), it throws and changes nothing. Otherwise, with
    the movable collateral rebalancer, it returns in every case: the route has one new intent,
    and either its message was sent, for at least the amount asked, or the intent is failed and
    nothing was sent. The caller is not told which. *)
Theorem executeManual_spec `{World} `{Chains} `{Routers} `{Registry} `{AddressLibs} `{Adapters}
    `{BigNumberJs} `{!ReadableReceipts} `{!FreshIds} rebalancerConfig config request s f :
  contextFactory s = Some f -> Inv (tracker_of s) ->
  let run := executeManual rebalancerConfig config request s in
  match rebalancer s, manual_route rebalancerConfig (warpCore_tokens f) request with
  | None, _ => exists e, run = (s, Throw e)
  | Some _, Throw e => run = (s, Throw e)
  | Some (MovableCollateralRebalancer c), Ok route =>
      known_route route -> has_bridge route = true ->
      exists t, run = (set_shared (with_tracker (shared s) t) s, Ok ()) /\
        manual_outcome route (tracker_of s) t
  | Some (TheInventoryRebalancer _), Ok _ => True
  end.
Proof.
  intros Hf Hs run. subst run. unfold executeManual.
  rewrite (eff_bind_ok _ _ _ _ _ (initialize_once rebalancerConfig config s ltac:(by eexists))).
  rewrite eff_bind_run. cbn [get]. rewrite Hf. destruct (rebalancer s) as [r|]; [|by eexists].
  rewrite eff_bind_run. unfold lift.
  destruct (manual_route _ _ _) as [route|e]; [|by destruct r].
  destruct r as [c|c]; [|done]. intros Hk Hb.
  destruct (manual_settled c route _ Hs Hk Hb) as (t & results & Hrun & Hout).
  exists t. split; [|done]. unfold on_shared, run_manual. rewrite eff_bind_run. unfold track.
  unfold tracker_of in Hrun. by rewrite Hrun.
Qed.

(** ** A concrete service *)

Definition sample_service_config (strategies : list StrategyConfig) : ServiceConfig := {|
  warpRouteId := "TOKEN/a-b"; sc_strategyConfig := strategies; sc_intentTTL := DEFAULT_INTENT_TTL_MS;
  sc_inventorySigners := None; sc_lifiIntegrator := None |}.

Definition sample_daemon : RebalancerServiceConfig := {|
  mode := daemon; service_checkFrequency := None; monitorOnly := false; service_keys := [] |}.

#[local] Existing Instance delivering_world.
#[local] Existing Instance delivering_fresh.

#[local] Notation sample_after :=
  (after_calls (sample_service_config [quarter_strategy bridged_chain bridged_chain]) sample_daemon).

(** The first poll completes the action of the explorer's message and sends 500 over the bridge;
    the second finds that delivered, and as the adapters report the same supplies sends again. *)
Example sample_daemon_completes :
  let t := tracker_of (sample_after [Start 1; Start 1]) in
  (fun a => (a_id a, a_amount a, a_status a)) <$> getAll (rebalanceActionStore t) =
  [("0xm1"%string, 40, ActionComplete); ("uuid-33"%string, 500, ActionComplete);
   ("uuid-58"%string, 500, ActionInProgress)].
Proof. vm_compute. reflexivity. Qed.

Lemma daemon_evolves_witness :
  evolves (tracker_of (sample_after [Start 1])) (tracker_of (sample_after ([Start 1] ++ [Start 1]))).
Proof.
  exact (proj2 (proj2 (daemon_evolves (sample_service_config [quarter_strategy bridged_chain bridged_chain]) sample_daemon
    [Start 1] [Start 1] 3))).
Defined.

Lemma daemon_attests_witness :
  exists a, getRebalanceAction "uuid-33" (tracker_of (sample_after [Start 1; Start 1])) = Some a /\
    ((exists messageId, a_messageId a = Some messageId /\ delivered messageId (a_destination a)) \/
     bridged a).
Proof.
  assert (a_status <$> getRebalanceAction "uuid-33" (tracker_of (sample_after [Start 1; Start 1])) =
    Some ActionComplete) as Hst by (vm_compute; reflexivity).
  pose proof (proj2 (daemon_attests
    (sample_service_config [quarter_strategy bridged_chain bridged_chain]) sample_daemon
    [Start 1; Start 1]) "uuid-33"%string) as Hall.
  revert Hst Hall. generalize (tracker_of (sample_after [Start 1; Start 1])). intros s Hst Hall.
  destruct (getRebalanceAction "uuid-33" s) as [a|]; [|discriminate Hst].
  injection Hst as Hst. exists a. split; [reflexivity|]. by apply Hall.
Defined.

(** The sample service, put together, and one whose bridge the routers do not allow. *)
Definition refused_chain : BaseChainConfig := {|
  cc_bridge := Some "0xb2"%string; cc_executionType := None; cc_externalBridge := None;
  cc_bridgeMinAcceptedAmount := None; cc_override := None |}.
Definition put_together (c : BaseChainConfig) : RebalancerService :=
  after_calls (sample_service_config [quarter_strategy c c]) sample_daemon [Start 0].
Definition ten : ManualRebalanceRequest := {|
  mq_origin := "a"; mq_destination := "b"; mq_amount := "10" |}.

Definition ten_route : MovableCollateralRoute := {|
  mr_origin := "a"; mr_destination := "b"; mr_amount := 10000000; mr_bridge := Some "0xb2"%string |}.
Definition sample_movable_rebalancer : Rebalancer.RebalancerConfig := {|
  chainMetadata := g_metadata;
  tokensByChainName := [("a", routed_token "a" router_a); ("b", routed_token "b" router_b)]%string |}.

Definition sample_factory (config : ServiceConfig) : RebalancerContextFactory := {|
  factory_config := config;
  warpCore_tokens := [routed_token "a" router_a; routed_token "b" router_b];
  factory_tokensByChainName := tokensByChainName sample_movable_rebalancer;
  inventorySignerKeysByProtocol := [] |}.

Lemma executeManual_spec_witness :
  let config := sample_service_config [quarter_strategy refused_chain refused_chain] in
  let s := put_together refused_chain in
  exists t route, executeManual config sample_daemon ten s =
    (set_shared (with_tracker (shared s) t) s, Ok ()) /\
    manual_outcome route (tracker_of s) t /\ i_status <$> getAll (rebalanceIntentStore t) =
      [IntentComplete; IntentFailed].
Proof.
  intros config s. set (f := sample_factory config).
  assert (contextFactory s = Some f) as Hf by (vm_compute; reflexivity).
  assert (rebalancer s = Some (MovableCollateralRebalancer sample_movable_rebalancer)) as Hr
    by (vm_compute; reflexivity).
  assert (manual_route config (warpCore_tokens f) ten = Ok ten_route) as Hroute
    by (vm_compute; reflexivity).
  pose proof (executeManual_spec config sample_daemon ten s f Hf
    (so_inv _ (after_sound config sample_daemon [Start 0]))) as Hspec.
  rewrite Hr, Hroute in Hspec. destruct Hspec as (t & Hrun & Hout); [by split|reflexivity|].
  exists t, ten_route. split; [exact Hrun|]. split; [exact Hout|].
  assert (i_status <$> getAll (rebalanceIntentStore
    (tracker_of (fst (executeManual config sample_daemon ten s)))) =
    [IntentComplete; IntentFailed]) as Hst by (vm_compute; reflexivity).
  rewrite Hrun in Hst. exact Hst.
Defined.
