(* ===== verification/LiFiBridge.v ===== *)
(** The bridge that moves inventory between chains: rebalancer/src/bridges/LiFiBridge.ts. Quotes
    by the amount sent or received, execution of a quoted route once it is checked against the
    request, and the status of a transfer. The SDK of LiFi, its HTTP interface and the key
    libraries are the class [LiFiSdk]; what is handed to the SDK for execution is kept in the
    state, so that theorems can speak of it. Logging is left out. *)
From Stdlib Require Import ZArith QArith Qround Lia String Ascii.
From stdpp Require Import base tactics list gmap strings pretty.
From S2P Require Import Prelude JsMap Addresses Amount JsNumber Token Bytes Messages.

#[local] Open Scope Z_scope.

(** ** Data *)

(** [metadata.chainId], a number or a string. *)
Inductive ChainId : Type := NumericId (n : Z) | NamedId (s : string).

(** The fields of [ChainMetadata] that are read; [rpcUrls?.[0]?.http] is the first URL. *)
Record ChainMetadata : Type := {
  lm_domainId : Z; lm_chainId : option ChainId; lm_protocol : ProtocolType;
  lm_rpcUrl : option string
}.

Record ExternalBridgeConfig : Type := {
  integrator : string; apiKey : option string; defaultSlippage : option Q;
  chainMetadata : option (list (string * ChainMetadata))
}.

Record BridgeQuoteParams : Type := {
  fromChain : Z; toChain : Z; fromToken : string; toToken : string;
  fromAmount : option Z; toAmount : option Z;
  fromAddress : string; toAddress : option string; slippage : option Q
}.

(** A quote of the SDK: amounts are strings, costs are optional lists. *)
Record LiFiStep : Type := {
  ls_id : string; ls_tool : string;
  action_fromAmount : string; estimate_toAmount : string; estimate_toAmountMin : string;
  estimate_executionDuration : Z;
  estimate_gasCosts : option (list string);
  estimate_feeCosts : option (list (string * bool));
  ls_payload : string
}.

Record BridgeQuote : Type := {
  quote_id : string; quote_tool : string; quote_fromAmount : Z; quote_toAmount : Z;
  quote_toAmountMin : Z; executionDuration : Z; gasCosts : Z; feeCosts : Z;
  quote_route : LiFiStep; requestParams : BridgeQuoteParams
}.

(** A route of the SDK, at what is checked of it. *)
Record LiFiRoute : Type := {
  fromChainId : Z; toChainId : Z; route_fromToken : string; route_toToken : string;
  route_fromAddress : option string; route_toAddress : option string;
  route_fromAmount : string; route_toAmount : string; route_payload : string
}.

(** [steps[0]?.execution?.process] of an executed route; the link is absent, or there with a
    value that may be undefined. *)
Record Process : Type := { process_txHash : option string; lifiExplorerLink : option (option string) }.
Definition RouteExtended : Type := option (list Process).

Record BridgeTransferResult : Type := {
  txHash : string; result_fromChain : Z; result_toChain : Z; transferId : option string
}.

Inductive BridgeTransferStatus : Type :=
| StatusPending (substatus : option string)
| StatusComplete (receivingTxHash : string) (receivedAmount : Z)
| StatusFailed (error : option string)
| StatusNotFound.

(** What the SDK answers to [getStatus]; the fields of [receiving] may be missing. *)
Record LiFiStatus : Type := {
  lf_status : string; lf_substatus : option string;
  receiving_txHash : option string; receiving_amount : option string
}.

(** The wallet handed to the SDK, with the chain and URL it is made for. *)
Inductive Wallet : Type := EvmWallet (key : string) | SolanaWallet (key : string).
Record Provider : Type := {
  provider_wallet : Wallet; provider_chain : Z; provider_rpcUrl : option string
}.

(** ** The outside *)

Record QuoteRequest : Type := {
  qr_fromChain : Z; qr_toChain : Z; qr_fromToken : string; qr_toToken : string; qr_amount : string;
  qr_fromAddress : string; qr_toAddress : string; qr_slippage : Q
}.

Inductive HttpResponse : Type :=
| HttpOk (body : result LiFiStep)
| HttpError (status : string).

Class LiFiSdk : Type := {
  l_getQuote : nat -> QuoteRequest -> result LiFiStep;
  (** [fetch] of the address for quotes by the amount received, with [integrator] and [apiKey] *)
  l_fetchToAmount : nat -> QuoteRequest -> string -> option string -> result HttpResponse;
  l_convertQuoteToRoute : LiFiStep -> result LiFiRoute;
  (** [privateKeyToAccount], and the base58 form of a Solana key *)
  l_privateKeyToAccount : string -> result unit;
  l_solanaKey : string -> result string;
  (** [executeRoute]: the updates its hook sees, then its outcome *)
  l_executeRoute : nat -> Provider -> LiFiRoute -> list RouteExtended * result RouteExtended;
  l_getStatus : nat -> string -> Z -> Z -> result LiFiStatus
}.

(** ** State *)

(** The SDK's global configuration, how often it was asked, and the routes it was to execute,
    with the provider it had then. *)
Record LiFiState : Type := {
  initialized : bool;
  providers : option Provider;
  sdk_calls : nat;
  executions : list (Provider * LiFiRoute)
}.

Notation lifi := (eff LiFiState).

Section lifi.
Context `{LiFiSdk} (config : ExternalBridgeConfig).

Definition ask_sdk {A} (answer : nat -> A) : lifi A := fun s =>
  ({| initialized := initialized s; providers := providers s; sdk_calls := S (sdk_calls s);
      executions := executions s |}, Ok (answer (sdk_calls s))).

Definition call_sdk {A} (answer : nat -> result A) : lifi A := r ← ask_sdk answer; lift r.

Definition initialize : lifi unit :=
  modify (fun s => {| initialized := true; providers := providers s; sdk_calls := sdk_calls s;
                      executions := executions s |}).

(** ** Chains *)

Definition HYPERLANE_TO_LIFI_CHAIN_IDS : list (Z * Z) := [(1399811149, 1151111081099710)].

Definition toLiFiChainId (chainId : Z) : Z :=
  default chainId (map_get chainId HYPERLANE_TO_LIFI_CHAIN_IDS).

(** [Number(metadata.chainId)]; what is no integer is never looked up. *)
Definition numeric_chain_id (metadata : ChainMetadata) : option Z :=
  match lm_chainId metadata with
  | None => None
  | Some (NumericId n) => Some n
  | Some (NamedId s) => integer_value (js_Number s)
  end.

Definition all_metadata : list ChainMetadata := map_values (default [] (chainMetadata config)).

Definition metadataByDomainId : list (Z * ChainMetadata) :=
  foldl (fun m metadata => map_set (lm_domainId metadata) metadata m) [] all_metadata.

(** The map of the constructor: EVM chains by their id, then the chains with an explicit LiFi
    id. *)
Definition add_evm_chain (m : list (Z * ChainMetadata)) (metadata : ChainMetadata)
    : list (Z * ChainMetadata) :=
  match numeric_chain_id metadata with
  | Some id => if isEVMLike (lm_protocol metadata) then map_set id metadata m else m
  | None => m
  end.
Definition add_mapped_chain (m : list (Z * ChainMetadata)) (ids : Z * Z)
    : list (Z * ChainMetadata) :=
  match map_get (fst ids) metadataByDomainId with
  | Some metadata => map_set (snd ids) metadata m
  | None => m
  end.
Definition chainMetadataByChainId : list (Z * ChainMetadata) :=
  foldl add_mapped_chain (foldl add_evm_chain [] all_metadata) HYPERLANE_TO_LIFI_CHAIN_IDS.

(** A chain that is not in the map is looked for by its id, if only one has it. *)
Definition getMetadataForChainId (chainId : Z) : option ChainMetadata :=
  match map_get chainId chainMetadataByChainId with
  | Some metadata => Some metadata
  | None =>
      match filter (fun metadata => numeric_chain_id metadata = Some chainId) all_metadata with
      | [metadata] => Some metadata
      | _ => None
      end
  end.

Definition getRpcUrlForChainId (chainId : Z) : option string :=
  getMetadataForChainId chainId ≫= lm_rpcUrl.
Definition getProtocolTypeForChainId (chainId : Z) : option ProtocolType :=
  lm_protocol <$> getMetadataForChainId chainId.

(** Base58 addresses of Sealevel are compared as they are, others up to case. *)
Definition addressesEqual (a b : string) (chainId : Z) : bool :=
  if bool_decide (getProtocolTypeForChainId chainId = Some PSealevel) then String.eqb a b
  else String.eqb (to_lower a) (to_lower b).

(** ** Quotes *)

Definition request_slippage (params : BridgeQuoteParams) : Q :=
  match slippage params with
  | Some q => q
  | None => default (1 # 200) (defaultSlippage config)
  end.

Definition quote_request (params : BridgeQuoteParams) (amount : Z) (slippage : Q) : QuoteRequest := {|
  qr_fromChain := toLiFiChainId (fromChain params); qr_toChain := toLiFiChainId (toChain params);
  qr_fromToken := fromToken params; qr_toToken := toToken params; qr_amount := pretty amount;
  qr_fromAddress := fromAddress params;
  qr_toAddress := default (fromAddress params) (toAddress params); qr_slippage := slippage |}.

(** [{ ...params, fromChain, toChain }]. *)
Definition lifi_params (params : BridgeQuoteParams) : BridgeQuoteParams := {|
  fromChain := toLiFiChainId (fromChain params); toChain := toLiFiChainId (toChain params);
  fromToken := fromToken params; toToken := toToken params; fromAmount := fromAmount params;
  toAmount := toAmount params; fromAddress := fromAddress params; toAddress := toAddress params;
  slippage := slippage params |}.

(** The sums of [extractCosts]; fees that are included in the amount do not count. *)
Fixpoint sum_amounts (amounts : list string) (acc : Z) : result Z :=
  match amounts with
  | [] => Ok acc
  | a :: rest => v ← js_BigInt a; sum_amounts rest (acc + v)
  end.
Definition extractCosts (quote : LiFiStep) : result (Z * Z) :=
  gas ← sum_amounts (default [] (estimate_gasCosts quote)) 0;
  fees ← sum_amounts
    ((filter (fun c => snd c = false) (default [] (estimate_feeCosts quote))).*1) 0;
  Ok (gas, fees).

(** The quote both methods return. *)
Definition to_quote (params : BridgeQuoteParams) (quote : LiFiStep) : result BridgeQuote :=
  '(gas, fees) ← extractCosts quote;
  fromAmount ← js_BigInt (action_fromAmount quote);
  toAmount ← js_BigInt (estimate_toAmount quote);
  toAmountMin ← js_BigInt (estimate_toAmountMin quote);
  Ok {| quote_id := ls_id quote; quote_tool := ls_tool quote; quote_fromAmount := fromAmount;
        quote_toAmount := toAmount; quote_toAmountMin := toAmountMin;
        executionDuration := estimate_executionDuration quote; gasCosts := gas; feeCosts := fees;
        quote_route := quote; requestParams := lifi_params params |}.

Definition quoteBySpendingAmount (params : BridgeQuoteParams) (amount : Z) : lifi BridgeQuote :=
  quote ← call_sdk (fun k => l_getQuote k (quote_request params amount (request_slippage params)));
  lift (to_quote params quote).

(** A string that counts as a condition: not empty. *)
Definition present (s : option string) : option string :=
  match s with Some (String _ _ as h) => Some h | _ => None end.

(** [toFixed(4)], without the zeros it ends in. *)
Definition four_decimals (q : Q) : Q := Qmake (Qfloor (q * 10000 + (1 # 2))) 10000.

Definition quoteByReceivingAmount (params : BridgeQuoteParams) (amount : Z) : lifi BridgeQuote :=
  response ← call_sdk (fun k => l_fetchToAmount k
    (quote_request params amount (four_decimals (request_slippage params)))
    (integrator config) (present (apiKey config)));
  match response with
  | HttpError status => throw (Error ("LiFi toAmount quote failed: " +:+ status))
  | HttpOk body => quote ← lift body; lift (to_quote params quote)
  end.

Definition quote (params : BridgeQuoteParams) : lifi BridgeQuote :=
  _ ← initialize;
  match fromAmount params, toAmount params with
  | Some _, Some _ =>
      throw (Error "Cannot specify both fromAmount and toAmount - provide exactly one")
  | None, None => throw (Error "Must specify either fromAmount or toAmount")
  | Some a, None =>
      _ ← lift (js_assert (0 <? a) "fromAmount must be positive"); quoteBySpendingAmount params a
  | None, Some a =>
      _ ← lift (js_assert (0 <? a) "toAmount must be positive"); quoteByReceivingAmount params a
  end.

(** ** Execution *)

Definition validateRouteAgainstRequest (route : LiFiRoute) (params : BridgeQuoteParams)
    : result unit :=
  _ ← js_assert (fromChainId route =? fromChain params) "Route fromChainId does not match";
  _ ← js_assert (toChainId route =? toChain params) "Route toChainId does not match";
  _ ← js_assert (addressesEqual (route_fromToken route) (fromToken params) (fromChainId route))
        "Route fromToken does not match";
  _ ← js_assert (addressesEqual (route_toToken route) (toToken params) (toChainId route))
        "Route toToken does not match";
  _ ← js_assert (addressesEqual (default EmptyString (route_toAddress route))
                   (default (fromAddress params) (toAddress params)) (toChainId route))
        "Route toAddress does not match";
  _ ← js_assert (addressesEqual (default EmptyString (route_fromAddress route))
                   (fromAddress params) (fromChainId route))
        "Route fromAddress does not match";
  routeFromAmount ← js_BigInt (route_fromAmount route);
  _ ← match fromAmount params with
      | Some a => js_assert (routeFromAmount =? a) "Route fromAmount does not match"
      | None => Ok ()
      end;
  _ ← match toAmount params with
      | Some a =>
          routeToAmount ← js_BigInt (route_toAmount route);
          js_assert (a <=? routeToAmount) "Route toAmount is less than requested"
      | None => Ok ()
      end;
  js_assert (0 <? routeFromAmount) "Route fromAmount must be positive".

(** The provider [configureLiFiProvider] sets for a protocol and key. *)
Definition provider_for (protocol : ProtocolType) (key : string) (chain : Z)
    (rpcUrl : option string) : result Provider :=
  wallet ← match protocol with
           | PEthereum => _ ← l_privateKeyToAccount (ensure0x key); Ok (EvmWallet (ensure0x key))
           | PSealevel => base58Key ← l_solanaKey key; Ok (SolanaWallet base58Key)
           | _ => Throw (Error "Unsupported protocol type for LiFi provider")
           end;
  Ok {| provider_wallet := wallet; provider_chain := chain; provider_rpcUrl := rpcUrl |}.

Definition set_provider (p : Provider) (s : LiFiState) : LiFiState := {|
  initialized := initialized s; providers := Some p; sdk_calls := sdk_calls s;
  executions := executions s |}.

(** [executeRoute] with the provider the SDK is configured with. *)
Definition run_route (route : LiFiRoute) : lifi (list RouteExtended * result RouteExtended) :=
  fun s =>
    match providers s with
    | None => (s, Throw (Error "no provider"))
    | Some p =>
        ({| initialized := initialized s; providers := providers s; sdk_calls := S (sdk_calls s);
            executions := executions s ++ [(p, route)] |},
         Ok (l_executeRoute (sdk_calls s) p route))
    end.

(** The last hash the update hook saw. *)
Definition hook_hash (updates : list RouteExtended) : option string :=
  last (omap (fun p => present (process_txHash p)) (concat (default [] <$> updates))).
(** The first hash of the executed route. *)
Definition executed_hash (route : RouteExtended) : option string :=
  head (omap (fun p => present (process_txHash p)) (default [] route)).

(** The match of [/\/tx\/([^/]+)/]: what follows the first slash-tx-slash that something
    follows, up to a slash. *)
Fixpoint until_slash (s : string) : string :=
  match s with
  | String c s' => if Ascii.eqb c "/" then EmptyString else String c (until_slash s')
  | EmptyString => EmptyString
  end.
Fixpoint tx_segment (s : string) : option string :=
  match s with
  | EmptyString => None
  | String c s' =>
      let rest :=
        match s with
        | String "/" (String "t" (String "x" (String "/" tail))) => present (Some (until_slash tail))
        | _ => None
        end in
      match rest with Some id => Some id | None => tx_segment s' end
  end.

Definition transfer_id (hash : string) (route : RouteExtended) : option string :=
  match List.find (fun p => bool_decide (process_txHash p = Some hash)) (default [] route) with
  | Some info => link ← lifiExplorerLink info; link ← link; tx_segment link
  | None => None
  end.

Definition execute (quote : BridgeQuote) (privateKeys : list (ProtocolType * string))
    : lifi BridgeTransferResult :=
  _ ← initialize;
  route ← lift (l_convertQuoteToRoute (quote_route quote));
  _ ← lift (validateRouteAgainstRequest route (requestParams quote));
  let from := fromChainId route in
  let sourceProtocol := default PEthereum (getProtocolTypeForChainId from) in
  match present (map_get sourceProtocol privateKeys) with
  | None => throw (Error "Missing private key for source chain protocol")
  | Some key =>
      provider ← lift (provider_for sourceProtocol key from (getRpcUrlForChainId from));
      _ ← modify (set_provider provider);
      '(updates, outcome) ← run_route route;
      executedRoute ← lift outcome;
      match hook_hash updates with
      | Some hash => mret {| txHash := hash; result_fromChain := from;
                             result_toChain := toChainId route;
                             transferId := transfer_id hash executedRoute |}
      | None =>
          match executed_hash executedRoute with
          | Some hash => mret {| txHash := hash; result_fromChain := from;
                                 result_toChain := toChainId route;
                                 transferId := transfer_id hash executedRoute |}
          | None => throw (Error "No transaction hash found in executed route")
          end
      end
  end.

(** ** Status *)

Definition transfer_status (status : LiFiStatus) : result BridgeTransferStatus :=
  if String.eqb (lf_status status) "DONE" then
    receivedAmount ← match receiving_amount status with Some a => js_BigInt a | None => Ok 0 end;
    Ok (StatusComplete (default EmptyString (receiving_txHash status)) receivedAmount)
  else if String.eqb (lf_status status) "FAILED" then Ok (StatusFailed (lf_substatus status))
  else if String.eqb (lf_status status) "NOT_FOUND" || String.eqb (lf_status status) "INVALID"
  then Ok StatusNotFound
  else Ok (StatusPending (lf_substatus status)).

(** What cannot be asked or read counts as not found. *)
Definition getStatus (hash : string) (from to : Z) : lifi BridgeTransferStatus :=
  _ ← initialize;
  try_catch
    (status ← call_sdk (fun k => l_getStatus k hash (toLiFiChainId from) (toLiFiChainId to));
     lift (transfer_status status))
    (fun _ => mret StatusNotFound).

End lifi.

(** ** Executions in parallel

    [execute] may be called again before it has returned. Each call takes the promise in
    [_executeLock], leaves its own there, and waits for the one it took; when that is resolved
    it configures the provider, which may throw, and has its route executed; its own promise is
    resolved in either case. Calls are numbered, and a number stands for the promise of its
    call; the first promise is resolved from the start. *)

(** What a call has settled before it takes the lock. *)
Record Execution : Type := {
  ex_protocol : ProtocolType; ex_key : string; ex_rpcUrl : option string; ex_route : LiFiRoute
}.

Inductive Phase : Type :=
| Idle
| Waiting (prev : option nat)
| Executing
| Released.

(** [signed] lists the routes the SDK was to execute, with the provider it had when it ended. *)
Record LockState : Type := {
  executeLock : option nat;
  phase : nat -> Phase;
  sdk_provider : option Provider;
  signed : list (nat * option Provider)
}.

Definition lock_start : LockState := {|
  executeLock := None; phase := fun _ => Idle; sdk_provider := None; signed := [] |}.

Definition set_phase (i : nat) (p : Phase) (f : nat -> Phase) : nat -> Phase :=
  fun j => if decide (j = i) then p else f j.

(** The promise a call waits for is resolved. *)
Definition resolved (s : LockState) (prev : option nat) : Prop :=
  match prev with None => True | Some j => phase s j = Released end.

Section lock.
Context `{LiFiSdk} (calls : nat -> Execution).

Definition provider_of (e : Execution) : result Provider :=
  provider_for (ex_protocol e) (ex_key e) (fromChainId (ex_route e)) (ex_rpcUrl e).

Inductive lock_step : LockState -> LockState -> Prop :=
| step_enter i s :
    phase s i = Idle ->
    lock_step s {| executeLock := Some i; phase := set_phase i (Waiting (executeLock s)) (phase s);
                   sdk_provider := sdk_provider s; signed := signed s |}
| step_configure i prev p s :
    phase s i = Waiting prev -> resolved s prev -> provider_of (calls i) = Ok p ->
    lock_step s {| executeLock := executeLock s; phase := set_phase i Executing (phase s);
                   sdk_provider := Some p; signed := signed s |}
| step_refuse i prev e s :
    phase s i = Waiting prev -> resolved s prev -> provider_of (calls i) = Throw e ->
    lock_step s {| executeLock := executeLock s; phase := set_phase i Released (phase s);
                   sdk_provider := sdk_provider s; signed := signed s |}
| step_finish i s :
    phase s i = Executing ->
    lock_step s {| executeLock := executeLock s; phase := set_phase i Released (phase s);
                   sdk_provider := sdk_provider s; signed := signed s ++ [(i, sdk_provider s)] |}.

End lock.
