(* ===== verification/LiFiFacts.v ===== *)
(** What the LiFi bridge guarantees: it only has routes executed that are what was asked of it,
    and parallel executions neither overlap nor sign with each other's keys. *)
From Stdlib Require Import ZArith QArith Lia String.
From stdpp Require Import base tactics list gmap strings relations.
From S2P Require Import Prelude JsMap Addresses Amount JsNumber Token Bytes Messages Triples.
From S2P Require Import LiFiBridge.

#[local] Open Scope Z_scope.

(** ** Routes and requests *)

(** The checks on a route, as a property. *)
Record route_matches (config : ExternalBridgeConfig) (route : LiFiRoute)
    (params : BridgeQuoteParams) : Prop := {
  rm_fromChain : fromChainId route = fromChain params;
  rm_toChain : toChainId route = toChain params;
  rm_fromToken : addressesEqual config (route_fromToken route) (fromToken params)
    (fromChain params) = true;
  rm_toToken : addressesEqual config (route_toToken route) (toToken params)
    (toChain params) = true;
  rm_toAddress : addressesEqual config (default EmptyString (route_toAddress route))
    (default (fromAddress params) (toAddress params)) (toChain params) = true;
  rm_fromAddress : addressesEqual config (default EmptyString (route_fromAddress route))
    (fromAddress params) (fromChain params) = true;
  rm_amounts : exists sent, js_BigInt (route_fromAmount route) = Ok sent /\ 0 < sent /\
    (forall a, fromAmount params = Some a -> sent = a) /\
    (forall a, toAmount params = Some a ->
       exists received, js_BigInt (route_toAmount route) = Ok received /\ a <= received)
}.

Lemma assert_bind_ok {A} b msg (k : unit -> result A) a :
  (js_assert b msg ≫= k) = Ok a <-> b = true /\ k () = Ok a.
Proof. destruct b; cbn; naive_solver. Qed.

Lemma validate_ok config route params :
  validateRouteAgainstRequest config route params = Ok () <-> route_matches config route params.
Proof.
  unfold validateRouteAgainstRequest. rewrite !assert_bind_ok, result_bind_ok, !Z.eqb_eq. split.
  - intros (Hf & Ht & Hft & Htt & Hta & Hfa & sent & Hsent & Hrest).
    rewrite Hf in Hft, Hfa. rewrite Ht in Htt, Hta. split; try done. exists sent. split; [done|].
    apply result_bind_ok in Hrest as ([] & Hfrom & Hrest).
    apply result_bind_ok in Hrest as ([] & Hto & Hpos). apply js_assert_ok, Z.ltb_lt in Hpos.
    split_and!; [done| |].
    + intros a Ha. rewrite Ha in Hfrom. by apply js_assert_ok, Z.eqb_eq in Hfrom.
    + intros a Ha. rewrite Ha in Hto. apply result_bind_ok in Hto as (received & Hr & Hle).
      exists received. split; [done|]. by apply js_assert_ok, Z.leb_le in Hle.
  - intros [Hf Ht Hft Htt Hta Hfa (sent & Hsent & Hpos & Hfrom & Hto)]. rewrite Hf, Ht.
    split_and!; try done. exists sent. split; [done|].
    apply result_bind_ok. exists tt. split.
    { destruct (fromAmount params) as [a|]; [|done]. apply js_assert_ok, Z.eqb_eq. auto. }
    apply result_bind_ok. exists tt. split; [|by apply js_assert_ok, Z.ltb_lt].
    destruct (toAmount params) as [a|]; [|done]. destruct (Hto a eq_refl) as (received & Hr & Hle).
    rewrite Hr. cbn. by apply js_assert_ok, Z.leb_le.
Qed.

(** ** Quotes remember what was asked *)

Section quotes.
Context `{LiFiSdk} (config : ExternalBridgeConfig).

Lemma to_quote_params params step q :
  to_quote params step = Ok q -> requestParams q = lifi_params params.
Proof.
  unfold to_quote. intros ([gas fees] & _ & (a & _ & (b & _ & (c & _ & [= <-])%result_bind_ok)
    %result_bind_ok)%result_bind_ok)%result_bind_ok. done.
Qed.

Lemma call_any {A} (answer : nat -> result A) s : wp (call_sdk answer) (fun _ _ => True) s.
Proof. done. Qed.

Lemma quote_params params s :
  wp (quote config params) (fun _ r => forall q, r = Ok q ->
    requestParams q = lifi_params params /\
    match fromAmount params, toAmount params with
    | Some a, None | None, Some a => 0 < a
    | _, _ => False
    end) s.
Proof.
  unfold quote. wp_step. unfold initialize. wp_step.
  destruct (fromAmount params) as [a|], (toAmount params) as [b|]; try (by wp_step).
  - apply wp_bind, wp_lift; [intros [] Hpos%js_assert_ok%Z.ltb_lt|done].
    unfold quoteBySpendingAmount. apply wp_bind. eapply wp_mono; [apply call_any|].
    intros s1 [step|e] _; [|done]. unfold wp. cbn. intros q ->%to_quote_params. done.
  - apply wp_bind, wp_lift; [intros [] Hpos%js_assert_ok%Z.ltb_lt|done].
    unfold quoteByReceivingAmount. apply wp_bind. eapply wp_mono; [apply call_any|].
    intros s1 [[body|status]|e] _; [|by apply wp_throw|done].
    apply wp_bind, wp_lift; [intros step _|done]. unfold wp. cbn. intros q ->%to_quote_params. done.
Qed.

End quotes.

(** ** Execution *)

Section execution.
Context `{LiFiSdk} (config : ExternalBridgeConfig).

(** The provider of a route: made from the key given for the protocol of its source chain. *)
Definition signs (keys : list (ProtocolType * string)) (route : LiFiRoute) (p : Provider) : Prop :=
  let protocol := default PEthereum (getProtocolTypeForChainId config (fromChainId route)) in
  exists key, map_get protocol keys = Some key /\
    provider_for protocol key (fromChainId route)
      (getRpcUrlForChainId config (fromChainId route)) = Ok p.

Lemma present_some h x : present h = Some x -> h = Some x /\ x <> EmptyString.
Proof. destruct h as [[]|]; cbn; try done. by intros [= <-]. Qed.

Lemma hashes_present (ps : list Process) h :
  h ∈ omap (fun p => present (process_txHash p)) ps -> h <> EmptyString.
Proof. intros (p & _ & Hp)%list_elem_of_omap. by apply present_some in Hp as [_ ?]. Qed.

Lemma execute_run q keys s :
  wp (execute config q keys) (fun s' r =>
    (executions s' = executions s /\ is_ok r = false) \/
    (exists p route, executions s' = executions s ++ [(p, route)] /\
       route_matches config route (requestParams q) /\ signs keys route p /\
       forall t, r = Ok t -> result_fromChain t = fromChainId route /\
         result_toChain t = toChainId route /\ txHash t <> EmptyString)) s.
Proof.
  unfold execute. wp_step. unfold initialize. wp_step.
  apply wp_bind, wp_lift; [intros route _|by left].
  apply wp_bind, wp_lift; [intros [] Hm%validate_ok|by left]. cbv zeta.
  destruct (present (map_get _ keys)) as [key|] eqn:Hkey; [|apply wp_throw; by left].
  apply present_some in Hkey as [Hkey _].
  apply wp_bind, wp_lift; [intros p Hp|by left].
  do 2 wp_step. apply wp_bind. unfold run_route. unfold wp at 1. cbn.
  destruct (l_executeRoute _ p route) as [updates outcome].
  apply wp_bind, wp_lift; [intros executed _|intros e _]; cycle 1.
  { right. exists p, route. split_and!; [done|done|by exists key|done]. }
  destruct (hook_hash updates) as [h|] eqn:Hh.
  { apply wp_ret. right. exists p, route. split_and!; [done|done|by exists key|].
    intros t [= <-]. split_and!; [done..|]. cbn. apply last_Some_elem_of in Hh. by eapply hashes_present. }
  destruct (executed_hash executed) as [h|] eqn:He.
  - apply wp_ret. right. exists p, route. split_and!; [done|done|by exists key|].
    intros t [= <-]. split_and!; [done..|]. cbn. apply head_Some_elem_of in He. by eapply hashes_present.
  - apply wp_throw. right. exists p, route. split_and!; [done|done|by exists key|done].
Qed.

End execution.

(** ** The queue of executions

    The calls that took the lock, in the order they took it: those before the position [m] are
    done, the one at [m] may execute, those after it wait for the one before them. *)

Section queue.
Context `{LiFiSdk} (calls : nat -> Execution).

Definition before (L : list nat) (k : nat) : option nat :=
  match k with O => None | S k' => L !! k' end.

(** The call executes with the provider it configured. *)
Definition executing (s : LockState) (i : nat) : Prop :=
  phase s i = Executing /\
  exists p, provider_of (calls i) = Ok p /\ sdk_provider s = Some p.

Definition place (L : list nat) (m k : nat) (s : LockState) (i : nat) : Prop :=
  (k < m /\ phase s i = Released)%nat \/
  (m <= k /\ phase s i = Waiting (before L k))%nat \/
  (k = m /\ executing s i).

Record queued (L : list nat) (m : nat) (s : LockState) : Prop := {
  qu_nodup : NoDup L;
  qu_lock : executeLock s = last L;
  qu_done : (m <= length L)%nat;
  qu_place : forall k i, L !! k = Some i -> place L m k s i;
  qu_idle : forall i, i ∉ L -> phase s i = Idle;
  qu_signed : forall i p, (i, p) ∈ signed s ->
    exists p', p = Some p' /\ provider_of (calls i) = Ok p'
}.

Lemma set_phase_eq i p f : set_phase i p f i = p.
Proof. unfold set_phase. by rewrite decide_True. Qed.
Lemma set_phase_ne i j p f : j <> i -> set_phase i p f j = f j.
Proof. intros. unfold set_phase. by rewrite decide_False. Qed.

Lemma queued_start : queued [] 0 lock_start.
Proof. split; try done; [constructor|by intros i p ?%not_elem_of_nil]. Qed.

(** A call that is not idle has a place. *)
Lemma entered_place L m s i : queued L m s -> phase s i <> Idle ->
  exists k, L !! k = Some i /\ place L m k s i.
Proof.
  intros Q Hp. destruct (decide (i ∈ L)) as [[k Hk]%list_elem_of_lookup|Hn].
  - exists k. split; [done|]. by apply (qu_place _ _ _ Q).
  - by apply (qu_idle _ _ _ Q) in Hn.
Qed.

(** Only the call whose turn it is executes. *)
Lemma executing_turn L m s i : queued L m s -> phase s i = Executing ->
  L !! m = Some i /\ executing s i.
Proof.
  intros Q Hp. destruct (entered_place L m s i Q) as (k & Hk & [[_ ?]|[[_ ?]|[-> ?]]]);
    [by rewrite Hp|congruence..|done].
Qed.

(** Only the call whose turn it is waits for what is resolved. *)
Lemma resolved_turn L m s i prev : queued L m s -> phase s i = Waiting prev -> resolved s prev ->
  L !! m = Some i.
Proof.
  intros Q Hp Hr. destruct (entered_place L m s i Q) as (k & Hk & Hpl); [by rewrite Hp|].
  destruct Hpl as [[_ ?]|[[Hle Hw]|[-> [? _]]]]; [congruence| |congruence].
  destruct (decide (k = m)) as [->|Hne]; [done|]. destruct k as [|k]; [lia|].
  assert (prev = L !! k) as -> by (cbn in Hw; congruence).
  destruct (lookup_lt_is_Some_2 L k) as [j Hj]; [apply lookup_lt_Some in Hk; lia|].
  rewrite Hj in Hr. cbn in Hr.
  destruct (qu_place _ _ _ Q k j Hj) as [[? _]|[[_ ?]|[_ [? _]]]]; [lia|congruence..].
Qed.

(** The call whose turn it is waits for what is resolved, if it waits. *)
Lemma turn_resolved L m s i : queued L m s -> L !! m = Some i -> resolved s (before L m).
Proof.
  intros Q Hi. destruct m as [|m]; [done|]. cbn.
  destruct (lookup_lt_is_Some_2 L m) as [j Hj]; [apply lookup_lt_Some in Hi; lia|]. rewrite Hj.
  destruct (qu_place _ _ _ Q m j Hj) as [[_ ?]|[[? _]|[? _]]]; [done|lia..].
Qed.

(** A change of the call whose turn it is leaves the places of the others. *)
Lemma other_place L m m' s s' i ph k j :
  queued L m s -> L !! m = Some i -> (forall j, phase s' j = set_phase i ph (phase s) j) ->
  (m <= m' <= S m)%nat -> L !! k = Some j -> k <> m -> place L m' k s' j.
Proof.
  intros Q Hi Hph Hm Hj Hk. assert (j <> i) as Hne.
  { intros ->. by apply Hk, (NoDup_lookup L k m i (qu_nodup _ _ _ Q)). }
  unfold place. rewrite Hph, set_phase_ne by done.
  destruct (qu_place _ _ _ Q k j Hj) as [[? ?]|[[? ?]|[? _]]].
  - left. split; [lia|done].
  - right; left. split; [lia|done].
  - done.
Qed.

(** The end of the call whose turn it is. *)
Lemma queued_release L m s s' i :
  queued L m s -> L !! m = Some i -> (forall j, phase s' j = set_phase i Released (phase s) j) ->
  executeLock s' = executeLock s ->
  (forall j p, (j, p) ∈ signed s' -> exists p', p = Some p' /\ provider_of (calls j) = Ok p') ->
  queued L (S m) s'.
Proof.
  intros Q Hi Hph Hl Hsig. split.
  - apply Q.
  - rewrite Hl. apply Q.
  - by apply lookup_lt_Some in Hi.
  - intros k j Hj. destruct (decide (k = m)) as [->|Hk].
    + left. split; [lia|]. assert (j = i) as -> by congruence. by rewrite Hph, set_phase_eq.
    + by apply (other_place L m (S m) s s' i Released); [..|lia| |].
  - intros j Hj. rewrite Hph, set_phase_ne; [by apply Q|]. intros ->. by apply Hj; eapply list_elem_of_lookup_2.
  - done.
Qed.

Lemma queued_enter L m s i : queued L m s -> phase s i = Idle ->
  queued (L ++ [i]) m {| executeLock := Some i;
    phase := set_phase i (Waiting (executeLock s)) (phase s);
    sdk_provider := sdk_provider s; signed := signed s |}.
Proof.
  intros Q Hp. assert (i ∉ L) as Hn.
  { intros [k Hk]%list_elem_of_lookup.
    destruct (qu_place _ _ _ Q k i Hk) as [[_ ?]|[[_ ?]|[_ [? _]]]]; congruence. }
  split; cbn.
  - apply NoDup_app. split_and!; [apply Q| |apply NoDup_singleton].
    by intros j Hj ->%list_elem_of_singleton.
  - by rewrite last_snoc.
  - rewrite length_app. pose proof (qu_done _ _ _ Q). lia.
  - intros k j [Hj|[Hk Hj]]%lookup_app_Some.
    + assert (j <> i) as Hne by (intros ->; apply Hn; by eapply list_elem_of_lookup_2).
      assert (before (L ++ [i]) k = before L k) as Hb.
      { destruct k as [|k]; [done|]. cbn. apply lookup_app_l. apply lookup_lt_Some in Hj. lia. }
      pose proof (qu_place _ _ _ Q k j Hj) as Hpl. revert Hpl.
      unfold place, executing. cbn. by rewrite Hb, set_phase_ne.
    + apply list_lookup_singleton_Some in Hj as [Hk0 <-].
      assert (k = length L) as -> by lia. right; left. split; [apply Q|]. cbn.
      rewrite set_phase_eq, (qu_lock _ _ _ Q), last_lookup. f_equal.
      destruct (length L) as [|n] eqn:Hlen; cbn.
      * by destruct L.
      * rewrite lookup_app_l by lia. done.
  - intros j Hj. apply not_elem_of_app in Hj as [Hj Hne].
    rewrite set_phase_ne; [by apply Q|]. by intros ->; apply Hne, list_elem_of_singleton.
  - apply Q.
Qed.

Lemma queued_step L m s s' : queued L m s -> lock_step calls s s' ->
  exists L' m', queued L' m' s'.
Proof.
  intros Q Hs. destruct Hs as [i s Hp|i prev p s Hp Hr Hprov|i prev e s Hp Hr Hprov|i s Hp].
  - eexists _, _. by apply queued_enter.
  - pose proof (resolved_turn L m s i prev Q Hp Hr) as Hi. exists L, m. split; cbn; try apply Q.
    + intros k j Hj. destruct (decide (k = m)) as [->|Hk].
      * assert (j = i) as -> by congruence. right; right. split; [done|].
        split; [cbn; by rewrite set_phase_eq|by exists p].
      * by apply (other_place L m m s _ i Executing); [..|lia| |].
    + intros j Hj. rewrite set_phase_ne; [by apply Q|].
      intros ->. by apply Hj; eapply list_elem_of_lookup_2.
  - pose proof (resolved_turn L m s i prev Q Hp Hr) as Hi. exists L, (S m).
    apply (queued_release L m s _ i); try done. cbn. apply Q.
  - destruct (executing_turn L m s i Q Hp) as (Hi & _ & p & Hprov & Hp'). exists L, (S m).
    apply (queued_release L m s _ i); try done. cbn.
    intros j pj [Hj|[= -> ->]%list_elem_of_singleton]%elem_of_app; [by apply (qu_signed _ _ _ Q)|].
    by exists p.
Qed.

Lemma queued_reachable s : rtc (lock_step calls) lock_start s -> exists L m, queued L m s.
Proof.
  intros Hr. cut (forall s0, rtc (lock_step calls) s0 s -> (exists L m, queued L m s0) ->
    exists L m, queued L m s).
  { intros Hc. eapply Hc; [done|]. exists [], 0%nat. apply queued_start. }
  clear Hr. intros s0 Hr. induction Hr as [s|s0 s1 s Hs _ IH]; [done|].
  intros (L & m & Q). apply IH. by eapply queued_step.
Qed.

(** The call whose turn it is can come to its end, and then the next is in turn. *)
Lemma turn_ends L m s i : queued L m s -> L !! m = Some i ->
  exists s', rtc (lock_step calls) s s' /\ queued L (S m) s'.
Proof.
  intros Q Hi. destruct (qu_place _ _ _ Q m i Hi) as [[? _]|[[_ Hw]|[_ He]]]; [lia| |].
  - pose proof (turn_resolved L m s i Q Hi) as Hr.
    destruct (provider_of (calls i)) as [p|e] eqn:Hp.
    + eexists. split.
      * eapply rtc_l; [by eapply step_configure|]. eapply rtc_once, step_finish. cbn. apply set_phase_eq.
      * apply (queued_release L m s _ i); cbn; try done.
        -- intros j. by unfold set_phase; case_decide.
        -- intros j pj [Hj|[= -> ->]%list_elem_of_singleton]%elem_of_app;
             [by apply (qu_signed _ _ _ Q)|by exists p].
    + eexists. split; [by eapply rtc_once, step_refuse|].
      apply (queued_release L m s _ i); try done. cbn. apply Q.
  - destruct He as (He & p & Hprov & Hp). eexists. split; [by eapply rtc_once, step_finish|].
    apply (queued_release L m s _ i); try done. cbn.
    intros j pj [Hj|[= -> ->]%list_elem_of_singleton]%elem_of_app; [by apply (qu_signed _ _ _ Q)|].
    by exists p.
Qed.

Lemma all_end n L m s : queued L m s -> (length L = n + m)%nat ->
  exists s', rtc (lock_step calls) s s' /\ queued L (length L) s'.
Proof.
  revert m s. induction n as [|n IH]; intros m s Q Hn.
  - exists s. split; [done|]. by rewrite Hn.
  - destruct (lookup_lt_is_Some_2 L m) as [i Hi]; [lia|].
    destruct (turn_ends L m s i Q Hi) as (s1 & Hs1 & Q1).
    destruct (IH (S m) s1 Q1) as (s2 & Hs2 & Q2); [lia|].
    exists s2. split; [by etrans|done].
Qed.

End queue.

(** C13: calls of [execute] that run in parallel: whatever the interleaving, at most one has its
    route executed at a time, the SDK signs every route with the provider made for that very
    call, and none is blocked forever, as all that have taken the lock can come to their end. *)
Theorem executions_serialized `{LiFiSdk} (calls : nat -> Execution) s :
  rtc (lock_step calls) lock_start s ->
  (forall i j, phase s i = Executing -> phase s j = Executing -> i = j) /\
  (forall i p, (i, p) ∈ signed s -> exists p', p = Some p' /\ provider_of (calls i) = Ok p') /\
  exists s', rtc (lock_step calls) s s' /\ forall i, phase s i <> Idle -> phase s' i = Released.
Proof.
  intros (L & m & Q)%queued_reachable. split_and!.
  - intros i j [Hi _]%(executing_turn calls L m s i Q) [Hj _]%(executing_turn calls L m s j Q).
    congruence.
  - apply Q.
  - pose proof (qu_done _ _ _ _ Q).
    destruct (all_end calls (length L - m) L m s Q) as (s' & Hs' & Q'); [lia|].
    exists s'. split; [done|]. intros i Hi.
    destruct (entered_place calls L m s i Q Hi) as (k & Hk & _).
    pose proof (lookup_lt_Some _ _ _ Hk).
    destruct (qu_place _ _ _ _ Q' k i Hk) as [[_ ?]|[[? _]|[? _]]]; [done|lia..].
Qed.

(** C12: [execute] on a quote that [quote] returned has at most one route executed, and only one
    whose chains, tokens, addresses and amounts are those of the request, with a provider made
    from the key of the protocol of its source chain. A result is never returned without such an
    execution, and it names the chains of the route and a transaction. *)
Theorem execute_as_requested `{LiFiSdk} config params s0 s1 q keys s s' r :
  quote config params s0 = (s1, Ok q) -> execute config q keys s = (s', r) ->
  (executions s' = executions s /\ is_ok r = false) \/
  (exists p route, executions s' = executions s ++ [(p, route)] /\
     route_matches config route (lifi_params params) /\ signs config keys route p /\
     forall t, r = Ok t -> result_fromChain t = toLiFiChainId (fromChain params) /\
       result_toChain t = toLiFiChainId (toChain params) /\ txHash t <> EmptyString).
Proof.
  intros Hq He. pose proof (quote_params config params s0) as Hp. unfold wp in Hp.
  rewrite Hq in Hp. destruct (Hp q eq_refl) as [Hpar _].
  pose proof (execute_run config q keys s) as Hx. unfold wp in Hx. rewrite He, Hpar in Hx.
  destruct Hx as [?|(p & route & Hex & Hm & Hs & Ht)]; [by left|right].
  exists p, route. split_and!; [done..|]. intros t Hr. destruct (Ht t Hr) as (-> & -> & ?).
  split_and!; [apply Hm|apply Hm|done].
Qed.

(** ** A concrete bridge: what it quotes is the request, and every execution has a hash. *)
Module LiFiSample.

Definition step_of (r : QuoteRequest) : LiFiStep := {|
  ls_id := "q1"; ls_tool := "stargate"; action_fromAmount := qr_amount r;
  estimate_toAmount := "995"; estimate_toAmountMin := "990"; estimate_executionDuration := 60;
  estimate_gasCosts := Some ["7"%string; "5"%string];
  estimate_feeCosts := Some [("3"%string, false); ("2"%string, true)]; ls_payload := "" |}.

#[local] Instance sample_sdk : LiFiSdk := {|
  l_getQuote := fun _ r => Ok (step_of r);
  l_fetchToAmount := fun _ _ _ _ => Ok (HttpError "404");
  l_convertQuoteToRoute := fun step => Ok {|
    fromChainId := 42161; toChainId := 1151111081099710; route_fromToken := "0xAF88";
    route_toToken := "EPjF"; route_fromAddress := Some "0xAb"; route_toAddress := Some "So1";
    route_fromAmount := action_fromAmount step; route_toAmount := estimate_toAmount step;
    route_payload := "" |};
  l_privateKeyToAccount := fun key => if String.eqb key "0x1" then Ok () else Throw (Error "key");
  l_solanaKey := fun key => Ok key;
  l_executeRoute := fun _ _ _ =>
    ([Some [{| process_txHash := Some "0x9"; lifiExplorerLink := None |}]],
     Ok (Some [{| process_txHash := Some "0x9";
                  lifiExplorerLink := Some (Some "https://scan.li.fi/tx/0x77/a") |}]));
  l_getStatus := fun _ _ _ _ => Throw (Error "offline") |}.

Definition sample_config : ExternalBridgeConfig := {|
  integrator := "hyperlane"; apiKey := None; defaultSlippage := None;
  chainMetadata := Some
    [("arbitrum"%string, {| lm_domainId := 42161; lm_chainId := Some (NumericId 42161);
        lm_protocol := PEthereum; lm_rpcUrl := Some "http://arb"%string |});
     ("solanamainnet"%string, {| lm_domainId := 1399811149; lm_chainId := Some (NumericId 1399811149);
        lm_protocol := PSealevel; lm_rpcUrl := None |})] |}.

Definition sample_params : BridgeQuoteParams := {|
  fromChain := 42161; toChain := 1399811149; fromToken := "0xaf88"; toToken := "EPjF";
  fromAmount := Some 1000; toAmount := None; fromAddress := "0xab"; toAddress := Some "So1"%string;
  slippage := None |}.

Definition fresh : LiFiState := {|
  initialized := false; providers := None; sdk_calls := 0; executions := [] |}.

Definition sample_quote : BridgeQuote := {|
  quote_id := "q1"; quote_tool := "stargate"; quote_fromAmount := 1000; quote_toAmount := 995;
  quote_toAmountMin := 990; executionDuration := 60; gasCosts := 12; feeCosts := 3;
  quote_route := step_of (quote_request sample_params 1000 (1 # 200));
  requestParams := lifi_params sample_params |}.

Example quote_sample : snd (quote sample_config sample_params fresh) = Ok sample_quote.
Proof. vm_compute. reflexivity. Qed.

Example execute_sample :
  snd (execute sample_config sample_quote [(PEthereum, "1"%string)] fresh) =
  Ok {| txHash := "0x9"; result_fromChain := 42161; result_toChain := 1151111081099710;
        transferId := Some "0x77"%string |}.
Proof. vm_compute. reflexivity. Qed.

(** A Solana mint in another case is another token. *)
Example solana_case :
  addressesEqual sample_config "EPjF" "epjf" 1151111081099710 = false /\
  addressesEqual sample_config "0xAF88" "0xaf88" 42161 = true.
Proof. vm_compute. done. Qed.

Example offline_is_not_found :
  snd (getStatus "0x9" 42161 1399811149 fresh) = Ok StatusNotFound.
Proof. reflexivity. Qed.

Lemma execute_as_requested_witness :
  exists s1 s' t,
    quote sample_config sample_params fresh = (s1, Ok sample_quote) /\
    execute sample_config sample_quote [(PEthereum, "1"%string)] s1 = (s', Ok t) /\
    ((executions s' = executions s1 /\ is_ok (Ok t) = false) \/
     (exists p route, executions s' = executions s1 ++ [(p, route)] /\
       route_matches sample_config route (lifi_params sample_params) /\
       signs sample_config [(PEthereum, "1"%string)] route p /\
       forall t', Ok t = Ok t' ->
         result_fromChain t' = toLiFiChainId (fromChain sample_params) /\
         result_toChain t' = toLiFiChainId (toChain sample_params) /\ txHash t' <> EmptyString)).
Proof.
  eexists _, _, _. split; [vm_compute; reflexivity|]. split; [vm_compute; reflexivity|].
  eapply (execute_as_requested sample_config sample_params fresh); vm_compute; reflexivity.
Defined.

(** Two calls, the second one before the first has ended. *)
Definition sample_call (key : string) : Execution := {|
  ex_protocol := PEthereum; ex_key := key; ex_rpcUrl := None;
  ex_route := {| fromChainId := 42161; toChainId := 1; route_fromToken := "a"; route_toToken := "b";
    route_fromAddress := None; route_toAddress := None; route_fromAmount := "1";
    route_toAmount := "1"; route_payload := "" |} |}.
Definition sample_calls (i : nat) : Execution :=
  sample_call (match i with O => "1" | _ => "0x1" end).

Definition both_entered : LockState := {|
  executeLock := Some 1%nat;
  phase := set_phase 1 (Waiting (Some 0%nat)) (set_phase 0 (Waiting None) (fun _ => Idle));
  sdk_provider := None; signed := [] |}.
Definition first_signed : LockState := {|
  executeLock := Some 1%nat;
  phase := set_phase 0 Released (set_phase 0 Executing (phase both_entered));
  sdk_provider := Some {| provider_wallet := EvmWallet "0x1"; provider_chain := 42161;
                          provider_rpcUrl := None |};
  signed := [(0%nat, Some {| provider_wallet := EvmWallet "0x1"; provider_chain := 42161;
                             provider_rpcUrl := None |})] |}.

Lemma first_signed_reachable : rtc (lock_step sample_calls) lock_start first_signed.
Proof.
  eapply rtc_l; [by apply (step_enter _ 0)|].
  eapply rtc_l; [by apply (step_enter _ 1)|].
  eapply rtc_l; [by eapply (step_configure _ 0 None)|].
  eapply rtc_l; [by apply (step_finish _ 0)|]. apply rtc_refl.
Qed.

Lemma executions_serialized_witness :
  phase first_signed 1 = Waiting (Some 0%nat) /\
  (forall i j, phase first_signed i = Executing -> phase first_signed j = Executing -> i = j) /\
  (forall i p, (i, p) ∈ signed first_signed ->
     exists p', p = Some p' /\ provider_of (sample_calls i) = Ok p') /\
  exists s', rtc (lock_step sample_calls) first_signed s' /\
    forall i, phase first_signed i <> Idle -> phase s' i = Released.
Proof. split; [done|]. apply executions_serialized, first_signed_reachable. Defined.

End LiFiSample.
