(* ===== verification/Metadata.v ===== *)
(** Metadata of interchain security modules (ISMs), relayer/src/metadata: the bytes a relayer
    delivers with a message, packed and parsed by the kind of module. [Multisig] packs a
    checkpoint and its signatures, [Aggregation] the metadata of submodules behind a table of
    ranges; routing passes on what the selected module has; [decodeIsmMetadata] parses along the
    tree of modules. What ethers does with signatures is the class [Signatures]. *)
From Stdlib Require Import ZArith Lia String Ascii.
From stdpp Require Import base tactics list strings.
From S2P Require Import Prelude JsMap Bytes.

#[local] Open Scope Z_scope.

(** ** Modules: sdk/src/ism/types.ts *)

Inductive IsmType : Type :=
| CUSTOM | OP_STACK | ROUTING | INCREMENTAL_ROUTING | FALLBACK_ROUTING | AMOUNT_ROUTING
| INTERCHAIN_ACCOUNT_ROUTING | AGGREGATION | STORAGE_AGGREGATION | MERKLE_ROOT_MULTISIG
| MESSAGE_ID_MULTISIG | STORAGE_MERKLE_ROOT_MULTISIG | STORAGE_MESSAGE_ID_MULTISIG | TEST_ISM
| PAUSABLE | TRUSTED_RELAYER | ARB_L2_TO_L1 | WEIGHTED_MERKLE_ROOT_MULTISIG
| WEIGHTED_MESSAGE_ID_MULTISIG | CCIP | OFFCHAIN_LOOKUP | RATE_LIMITED | COMPOSITE | BLACKLIST
| MAILBOX_DEFAULT | NET_FLOW_RATE_LIMITED | DELAYED_FLOW_ROUTER | UNKNOWN.

#[export] Instance IsmType_eq_dec : EqDecision IsmType.
Proof. solve_decision. Defined.

(** A module is known by its address alone, or with its configuration: its type, its address,
    and the fields that configurations of some type have ([relayer], [validators], [threshold],
    [modules], [domains]); thresholds are counts. *)
Inductive Ism : Type :=
| IsmAddress (a : string)
| IsmConfig (type : IsmType) (address : string) (relayer : string) (validators : list string)
    (threshold : nat) (modules : list Ism) (domains : option (list (string * Ism))).

Definition ism_type (ism : Ism) : option IsmType :=
  match ism with IsmAddress _ => None | IsmConfig t _ _ _ _ _ _ => Some t end.
Definition ism_address (ism : Ism) : option string :=
  match ism with IsmAddress _ => None | IsmConfig _ a _ _ _ _ _ => Some a end.

(** ** Signatures *)

Inductive SignatureLike : Type :=
| SigHex (s : string)
| SigParts (r s : string) (v : Z).

(** [joinSignature] and [splitSignature] of ethers. *)
Class Signatures : Type := {
  joinSignature : SignatureLike -> result string;
  splitSignature : string -> result (string * string * Z)
}.

(** ** Writing into buffers *)

(** Bytes written from [offset] on, up to the end of the buffer. *)
Definition write_at (offset : nat) (bs buf : bytes) : bytes :=
  take offset buf ++ take (length buf - offset) bs ++ drop (offset + length bs) buf.

(** [buf.write(s, offset, len, 'hex')]. *)
Definition write_hex (s : string) (offset len : nat) (buf : bytes) : bytes :=
  write_at offset (take len (buffer_from_hex s)) buf.

(** [buf.writeUInt32BE(v, offset)]: out of range values and offsets throw. *)
Definition writeUInt32BE (v : Z) (offset : nat) (buf : bytes) : result bytes :=
  if negb ((0 <=? v) && (v <? 2 ^ 32)) then Throw (RangeError "The value of value is out of range")
  else if (length buf <? offset + 4)%nat then Throw (RangeError "The value of offset is out of range")
  else Ok (write_at offset (be_bytes 4 v) buf).

(** [Buffer.alloc(n)]. *)
Definition alloc (n : nat) : bytes := replicate n 0.

(** [chunk(s, size)] of utils/src/arrays.ts for strings; [size] is positive. The fuel is the
    length of the string, which every round shortens. *)
Fixpoint chunk_loop (fuel : nat) (s : string) (size : nat) : list string :=
  match fuel, s with
  | S fuel', String _ _ =>
      String.substring 0 size s ::
        chunk_loop fuel' (String.substring size (String.length s - size) s) size
  | _, _ => []
  end.
Definition chunk (s : string) (size : nat) : list string := chunk_loop (String.length s) s size.

(** ** Parsed metadata *)

Record MdCheckpoint : Type := { root : string; index : Z; merkle_tree_hook_address : string }.
Record MerkleProof : Type := { branch : list string; leaf : string; proof_index : Z }.

Inductive MultisigMetadata : Type :=
| MessageIdMultisig (checkpoint : MdCheckpoint) (signatures : list SignatureLike)
| MerkleRootMultisig (checkpoint : MdCheckpoint) (proof : MerkleProof)
    (signatures : list SignatureLike).

(** What [decodeIsmMetadata] returns; the metadata of a module known by its address alone stays
    as it is. The decoded form of Arbitrum metadata has no fields (see [decodeArbL2ToL1Metadata]). *)
Inductive StructuredMetadata : Type :=
| RawMetadata (metadata : string)
| NullMetadata (ism : Ism)
| StructuredMultisig (metadata : MultisigMetadata)
| ArbL2ToL1Metadata
| AggregationMetadata (submoduleMetadata : list (option StructuredMetadata))
| RoutingMetadata (type : IsmType) (origin : string) (metadata : StructuredMetadata).

(** ** metadata/multisig.ts *)

Module Multisig.

Definition SIGNATURE_LENGTH : nat := 65.

Definition encodeSimplePrefix (checkpoint : MdCheckpoint) : result string :=
  let buf := alloc 68 in
  let buf := write_hex (strip0x (merkle_tree_hook_address checkpoint)) 0 32 buf in
  let buf := write_hex (strip0x (root checkpoint)) 32 32 buf in
  buf ← writeUInt32BE (index checkpoint) 64 buf;
  Ok (toHexString buf).

Definition decodeSimplePrefix (metadata : string) : result MdCheckpoint :=
  let buf := fromHexString metadata in
  index ← readUInt32BE 64 buf;
  Ok {| root := toHexString (subarray 32 64 buf); index := index;
        merkle_tree_hook_address := toHexString (subarray 0 32 buf) |}.

Definition encodeProofPrefix (checkpoint : MdCheckpoint) (proof : MerkleProof) : result string :=
  let buf := alloc 1096 in
  let buf := write_hex (strip0x (merkle_tree_hook_address checkpoint)) 0 32 buf in
  buf ← writeUInt32BE (proof_index proof) 32 buf;
  let buf := write_hex (strip0x (leaf proof)) 36 32 buf in
  let branchEncoded := String.concat "" (strip0x <$> branch proof) in
  let buf := write_hex branchEncoded 68 (32 * 32) buf in
  buf ← writeUInt32BE (index checkpoint) 1092 buf;
  Ok (toHexString buf).

Definition decodeProofPrefix (metadata : string) : result (MdCheckpoint * MerkleProof) :=
  let buf := fromHexString metadata in
  messageIndex ← readUInt32BE 32 buf;
  let branchEncoded := buffer_to_hex (subarray 68 1092 buf) in
  signedIndex ← readUInt32BE 1092 buf;
  Ok ({| root := EmptyString; index := messageIndex;
         merkle_tree_hook_address := toHexString (subarray 0 32 buf) |},
      {| branch := ensure0x <$> chunk branchEncoded (32 * 2);
         leaf := toHexString (subarray 36 68 buf); proof_index := signedIndex |}).

Section signatures.
Context `{Signatures}.

(** The signatures are appended one by one. *)
Fixpoint append_signatures (encoded : string) (signatures : list SignatureLike) : result string :=
  match signatures with
  | [] => Ok encoded
  | signature :: rest =>
      encodedSignature ← joinSignature signature;
      _ ← js_assert (length (fromHexString encodedSignature) =? SIGNATURE_LENGTH)%nat
            "Invalid signature length";
      append_signatures (encoded +:+ strip0x encodedSignature) rest
  end.

Definition encode (metadata : MultisigMetadata) : result string :=
  match metadata with
  | MessageIdMultisig checkpoint signatures =>
      encoded ← encodeSimplePrefix checkpoint; append_signatures encoded signatures
  | MerkleRootMultisig checkpoint proof signatures =>
      encoded ← encodeProofPrefix checkpoint proof; append_signatures encoded signatures
  end.

Definition signatureAt (metadata : string) (offset index : nat) : option string :=
  let buf := fromHexString metadata in
  let first := (offset + index * SIGNATURE_LENGTH)%nat in
  let last := (first + SIGNATURE_LENGTH)%nat in
  if (length buf <? last)%nat then None else Some (toHexString (subarray first last buf)).

(** [for (let i = 0; signatureAt(metadata, offset, i); i++)]; the fuel is the length of the
    metadata, which has fewer signatures than bytes. *)
Fixpoint decode_signatures (fuel : nat) (metadata : string) (offset i : nat)
    : result (list SignatureLike) :=
  match fuel, signatureAt metadata offset i with
  | S fuel', Some signature =>
      '(r, s, v) ← splitSignature signature;
      rest ← decode_signatures fuel' metadata offset (S i);
      Ok (SigParts r s v :: rest)
  | _, _ => Ok []
  end.

Definition decode (metadata : string) (type : IsmType) : result MultisigMetadata :=
  let fuel := String.length metadata in
  match type with
  | MERKLE_ROOT_MULTISIG | STORAGE_MERKLE_ROOT_MULTISIG =>
      '(checkpoint, proof) ← decodeProofPrefix metadata;
      signatures ← decode_signatures fuel metadata 1096 0;
      Ok (MerkleRootMultisig checkpoint proof signatures)
  | _ =>
      checkpoint ← decodeSimplePrefix metadata;
      signatures ← decode_signatures fuel metadata 68 0;
      Ok (MessageIdMultisig checkpoint signatures)
  end.

End signatures.

End Multisig.

(** ** metadata/aggregation.ts *)

Module Aggregation.

Definition RANGE_SIZE : nat := 4.
Definition rangeIndex (index : nat) : nat := (index * 2 * RANGE_SIZE)%nat.

(** One submodule: its bytes at the end, their range in the table. [None] and the empty string
    are left out. *)
Definition encode_submodule (encoded : bytes) (index : nat) (meta : option string) : result bytes :=
  match meta with
  | None | Some EmptyString => Ok encoded
  | Some meta =>
      let first := length encoded in
      let encoded := encoded ++ fromHexString meta in
      let last := length encoded in
      let rangeStart := rangeIndex index in
      encoded ← writeUInt32BE (Z.of_nat first) rangeStart encoded;
      writeUInt32BE (Z.of_nat last) (rangeStart + RANGE_SIZE) encoded
  end.

Fixpoint encode_from (index : nat) (metas : list (option string)) (encoded : bytes) : result bytes :=
  match metas with
  | [] => Ok encoded
  | meta :: rest => encoded ← encode_submodule encoded index meta; encode_from (S index) rest encoded
  end.

Definition encode (submoduleMetadata : list (option string)) : result string :=
  encoded ← encode_from 0 submoduleMetadata (alloc (rangeIndex (length submoduleMetadata)));
  Ok (toHexString encoded).

Record Range : Type := { range_start : Z; range_end : Z; range_encoded : string }.

Definition metadataRange (metadata : string) (index : nat) : result Range :=
  let rangeStart := rangeIndex index in
  let encoded := fromHexString metadata in
  first ← readUInt32BE rangeStart encoded;
  last ← readUInt32BE (rangeStart + RANGE_SIZE) encoded;
  Ok {| range_start := first; range_end := last;
        range_encoded := toHexString (subarray (Z.to_nat first) (Z.to_nat last) encoded) |}.

Section decode.
Context (decodeSubmodule : Ism -> string -> result StructuredMetadata) (metadata : string).

Definition decode_submodule (index : nat) (ism : Ism) : result (option StructuredMetadata) :=
  range ← metadataRange metadata index;
  if range_start range =? 0 then Ok None
  else match ism with
       | IsmAddress _ => Ok (Some (RawMetadata (range_encoded range)))
       | IsmConfig _ _ _ _ _ _ _ => Some <$> decodeSubmodule ism (range_encoded range)
       end.

Fixpoint decode_from (index : nat) (modules : list Ism)
    : result (list (option StructuredMetadata)) :=
  match modules with
  | [] => Ok []
  | ism :: rest =>
      meta ← decode_submodule index ism;
      metas ← decode_from (S index) rest;
      Ok (meta :: metas)
  end.

Definition decode (modules : list Ism) : result StructuredMetadata :=
  AggregationMetadata <$> decode_from 0 modules.

End decode.

End Aggregation.

(** ** metadata/routing.ts *)

Module Routing.

Section decode.
Context (decodeFn : Ism -> string -> result StructuredMetadata) (metadata : string).

(** The module of the origin among the domains: as [decodeFn] takes it. *)
Fixpoint decode_domain (originChain : string) (domains : list (string * Ism))
    : result StructuredMetadata :=
  match domains with
  | [] => Throw (TypeError "Cannot read properties of undefined")
  | (chain, ism) :: rest =>
      if decide (chain = originChain) then
        match ism with
        | IsmAddress _ => Ok (RawMetadata metadata)
        | IsmConfig _ _ _ _ _ _ _ => decodeFn ism metadata
        end
      else decode_domain originChain rest
  end.

Definition decode (originChain : option string) (domains : option (list (string * Ism)))
    : result StructuredMetadata :=
  match originChain with
  | None | Some EmptyString => Throw (Error "originChain is required")
  | Some originChain =>
      match domains with
      | None => Throw (TypeError "Cannot read properties of undefined")
      | Some domains => RoutingMetadata ROUTING originChain <$> decode_domain originChain domains
      end
  end.

Definition decodeMailboxDefault (originChain : option string) : result StructuredMetadata :=
  match originChain with
  | None | Some EmptyString => Throw (Error "originChain is required")
  | Some originChain => Ok (RoutingMetadata MAILBOX_DEFAULT originChain (RawMetadata metadata))
  end.

End decode.

End Routing.

(** ** metadata/arbL2ToL1.ts: the codec *)

(** The ABI coder of ethers, by the types of the values. *)
Inductive AbiValue : Type := AbiText (s : string) | AbiNumber (n : Z) | AbiTexts (l : list string).
Class AbiCoder : Type := {
  abi_encode : list string -> list AbiValue -> result string;
  abi_decode : list string -> string -> result (list AbiValue)
}.

(** The event [L2ToL1Tx] of ArbSys. *)
Record ArbEvent : Type := {
  arb_caller : string; arb_destination : string; arb_hash : string; arb_position : Z;
  arb_arbBlockNum : Z; arb_ethBlockNum : Z; arb_timestamp : Z; arb_callvalue : Z;
  arb_data : string
}.

(** The types of [executeTransaction]. *)
Definition executeTransactionTypes : list string :=
  ["bytes32[]"; "uint256"; "address"; "address"; "uint256"; "uint256"; "uint256"; "uint256"; "bytes"].

Definition encodeArbL2ToL1Metadata `{AbiCoder} (event : ArbEvent) (proof : list string)
    : result string :=
  abi_encode executeTransactionTypes
    [AbiTexts proof; AbiNumber (arb_position event); AbiText (arb_caller event);
     AbiText (arb_destination event); AbiNumber (arb_arbBlockNum event);
     AbiNumber (arb_ethBlockNum event); AbiNumber (arb_timestamp event);
     AbiNumber (arb_callvalue event); AbiText (arb_data event)].

(** [decode] leaves out the last type but one, and takes the keys of an empty object: what it
    returns has no fields. *)
Definition decodeArbL2ToL1Metadata `{AbiCoder} (metadata : string) : result StructuredMetadata :=
  let types := omap (fun '(index, type) =>
      if (index =? length executeTransactionTypes - 2)%nat then None else Some type)
    (imap pair executeTransactionTypes) in
  _ ← abi_decode types metadata;
  Ok ArbL2ToL1Metadata.

(** ** metadata/decode.ts *)

Section decode.
Context `{Signatures} `{AbiCoder} (originChain : option string).

Fixpoint decodeIsmMetadata (ism : Ism) (metadata : string) {struct ism} : result StructuredMetadata :=
  match ism with
  | IsmAddress _ => Throw (Error "Unsupported ISM type")
  | IsmConfig type _ _ _ _ modules domains =>
      match type with
      | TRUSTED_RELAYER => Ok (NullMetadata ism)
      | MERKLE_ROOT_MULTISIG | MESSAGE_ID_MULTISIG | STORAGE_MERKLE_ROOT_MULTISIG
      | STORAGE_MESSAGE_ID_MULTISIG => StructuredMultisig <$> Multisig.decode metadata type
      | AGGREGATION | STORAGE_AGGREGATION => Aggregation.decode decodeIsmMetadata metadata modules
      | ROUTING => Routing.decode decodeIsmMetadata metadata originChain domains
      | ARB_L2_TO_L1 => decodeArbL2ToL1Metadata metadata
      | NET_FLOW_RATE_LIMITED | DELAYED_FLOW_ROUTER => Ok (NullMetadata ism)
      | MAILBOX_DEFAULT => Routing.decodeMailboxDefault metadata originChain
      | _ => Throw (Error "Unsupported ISM type")
      end
  end.

End decode.
