(* ===== verification/MetadataFacts.v ===== *)
(** The codecs of ISM metadata: what they pack is read back, with one exception that is stated
    as it is: the two indices of a Merkle root multisig come back exchanged. *)
From Stdlib Require Import ZArith Lia String Ascii.
From stdpp Require Import base tactics list strings.
From S2P Require Import Prelude JsMap Bytes Metadata.

#[local] Open Scope Z_scope.

(** ** Strings and buffers *)

Lemma substring_all (a : string) : String.substring 0 (String.length a) a = a.
Proof. induction a as [|x a IH]; cbn; [done|]. by rewrite IH. Qed.

Lemma substring_app_l (a b : string) : String.substring 0 (String.length a) (a +:+ b) = a.
Proof. induction a as [|x a IH]; [by destruct b|]. rewrite append_cons. cbn. by rewrite IH. Qed.

Lemma substring_app_r (a b : string) :
  String.substring (String.length a) (String.length b) (a +:+ b) = b.
Proof. induction a as [|x a IH]; [apply substring_all|done]. Qed.

Lemma buffer_to_hex_app b1 b2 : buffer_to_hex (b1 ++ b2) = buffer_to_hex b1 +:+ buffer_to_hex b2.
Proof. induction b1 as [|b b1 IH]; [done|]. cbn. by rewrite IH, !append_cons. Qed.

Lemma length_buffer_to_hex bs : String.length (buffer_to_hex bs) = (2 * length bs)%nat.
Proof. induction bs as [|b bs IH]; cbn; [done|]. rewrite IH. lia. Qed.

Lemma strip0x_toHexString bs : bytes_ok bs -> strip0x (toHexString bs) = buffer_to_hex bs.
Proof. intros H. by rewrite toHexString_eq. Qed.

Lemma toHexString_app b1 b2 : bytes_ok b1 -> bytes_ok b2 ->
  toHexString b1 +:+ strip0x (toHexString b2) = toHexString (b1 ++ b2).
Proof.
  intros H1 H2. rewrite strip0x_toHexString by done.
  rewrite !toHexString_eq, buffer_to_hex_app by (done || by apply bytes_ok_app). done.
Qed.

Lemma concat_buffer_to_hex bss :
  String.concat "" (buffer_to_hex <$> bss) = buffer_to_hex (concat bss).
Proof.
  induction bss as [|bs bss IH]; [done|]. cbn [concat fmap list_fmap]. rewrite buffer_to_hex_app, <- IH.
  destruct bss as [|b bss]; [|done]. cbn. by rewrite append_nil_r.
Qed.

(** A string cut into pieces of the size it was joined from. *)
Lemma chunk_concat size pieces fuel :
  (0 < size)%nat -> Forall (fun p => String.length p = size) pieces ->
  let s := foldr String.append EmptyString pieces in
  (String.length s <= fuel)%nat -> chunk_loop fuel s size = pieces.
Proof.
  intros Hsize Hp. revert fuel. induction Hp as [|p pieces Hp _ IH]; intros fuel s Hfuel; subst s.
  { by destruct fuel. }
  revert Hfuel. change (foldr String.append EmptyString (p :: pieces)) with
    (p +:+ foldr String.append EmptyString pieces). cbv zeta in IH.
  set (rest := foldr String.append EmptyString pieces) in *. intros Hfuel.
  rewrite length_app_string in Hfuel. destruct fuel as [|fuel]; [lia|].
  destruct p as [|c p]; [cbn in Hp; lia|]. rewrite append_cons. cbn [chunk_loop].
  rewrite <- append_cons, <- Hp. f_equal.
  - apply substring_app_l.
  - rewrite length_app_string.
    replace (String.length (String c p) + String.length rest - String.length (String c p))%nat
      with (String.length rest) by lia.
    rewrite substring_app_r, Hp. apply IH. lia.
Qed.

Lemma alloc_app n m : alloc (n + m) = alloc n ++ alloc m.
Proof. apply replicate_add. Qed.

Lemma alloc_ok n : bytes_ok (alloc n).
Proof. apply Forall_replicate. unfold byte_ok. lia. Qed.

(** Writing where a buffer is still empty. *)
Lemma write_fill pre bs n :
  write_at (length pre) bs (pre ++ alloc (length bs + n)) = (pre ++ bs) ++ alloc n.
Proof.
  unfold write_at. rewrite take_app_length, alloc_app.
  rewrite (take_ge bs) by (rewrite !length_app; unfold alloc; rewrite !length_replicate; lia).
  rewrite drop_app_ge by lia.
  replace (length pre + length bs - length pre)%nat with (length (alloc (length bs)))
    by (unfold alloc; rewrite length_replicate; lia).
  by rewrite drop_app_length, app_assoc.
Qed.

Lemma readUInt32BE_at pre v post : 0 <= v < 2 ^ 32 ->
  readUInt32BE (length pre) (pre ++ be_bytes 4 v ++ post) = Ok v.
Proof.
  intros Hv. unfold readUInt32BE, readUIntBE.
  destruct (Nat.ltb_spec (length (pre ++ be_bytes 4 v ++ post)) (length pre + 4)) as [Hl|_].
  { rewrite !length_app, be_bytes_length in Hl. lia. }
  f_equal. rewrite subarray_app_r, Nat.sub_diag by lia.
  rewrite subarray_app_l by (rewrite ?be_bytes_length; lia).
  rewrite subarray_full by (rewrite be_bytes_length; lia). by apply be_value_bytes_id.
Qed.

Lemma subarray_between pre bs post i j :
  i = length pre -> j = (length pre + length bs)%nat -> subarray i j (pre ++ bs ++ post) = bs.
Proof.
  intros -> ->. rewrite subarray_app_r, Nat.sub_diag by lia.
  rewrite subarray_app_l by lia. apply subarray_full. lia.
Qed.

Lemma subarray_head bs post j : j = length bs -> subarray 0 j (bs ++ post) = bs.
Proof. intros ->. by apply (subarray_between []). Qed.

Lemma length_concat_uniform {A} n (xss : list (list A)) :
  Forall (fun xs => length xs = n) xss -> length (concat xss) = (length xss * n)%nat.
Proof. induction 1 as [|xs xss Hx _ IH]; [done|]. cbn. rewrite length_app. lia. Qed.

Lemma writeUInt32BE_fill pre v n : 0 <= v < 2 ^ 32 ->
  writeUInt32BE v (length pre) (pre ++ alloc (4 + n)) = Ok ((pre ++ be_bytes 4 v) ++ alloc n).
Proof.
  intros [H1 H2]. unfold writeUInt32BE.
  rewrite (proj2 (Z.leb_le 0 v) H1), (proj2 (Z.ltb_lt v (2 ^ 32)) H2). cbn [andb negb].
  destruct (Nat.ltb_spec (length (pre ++ alloc (4 + n))) (length pre + 4)) as [Hl|_].
  { rewrite length_app in Hl. unfold alloc in Hl. rewrite length_replicate in Hl. lia. }
  f_equal. rewrite <- (write_fill pre (be_bytes 4 v) n). by rewrite be_bytes_length.
Qed.

(** A string of [n] bytes in hexadecimal, as [toHexString] writes it. *)
Definition hex_of (n : nat) (s : string) : Prop :=
  exists bs, bytes_ok bs /\ length bs = n /\ s = toHexString bs.

Lemma fromHexString_hex_of n s : hex_of n s ->
  exists bs, bytes_ok bs /\ length bs = n /\ s = toHexString bs /\ strip0x s = buffer_to_hex bs /\
    buffer_from_hex (strip0x s) = bs.
Proof.
  intros (bs & H & Hn & ->). exists bs. rewrite strip0x_toHexString by done.
  split_and!; try done. by apply buffer_from_to_hex.
Qed.

Lemma write_hex_fill pre bs n : bytes_ok bs ->
  write_hex (buffer_to_hex bs) (length pre) (length bs) (pre ++ alloc (length bs + n)) =
  (pre ++ bs) ++ alloc n.
Proof.
  intros H. unfold write_hex. rewrite buffer_from_to_hex, take_ge by (done || lia). apply write_fill.
Qed.

(** ** Multisig *)

Lemma encodeSimplePrefix_eq c hook r :
  bytes_ok hook -> length hook = 32%nat -> merkle_tree_hook_address c = toHexString hook ->
  bytes_ok r -> length r = 32%nat -> root c = toHexString r -> 0 <= index c < 2 ^ 32 ->
  Multisig.encodeSimplePrefix c = Ok (toHexString (hook ++ r ++ be_bytes 4 (index c))).
Proof.
  intros Hh Lh Eh Hr Lr Er Hi. unfold Multisig.encodeSimplePrefix.
  rewrite Eh, Er, !strip0x_toHexString by done.
  pose proof (write_hex_fill [] hook 36 Hh) as W1. rewrite Lh in W1. cbn [length app] in W1.
  change (32 + 36)%nat with 68%nat in W1. rewrite W1.
  pose proof (write_hex_fill hook r 4 Hr) as W2. rewrite Lh, Lr in W2.
  change (32 + 4)%nat with 36%nat in W2. rewrite W2.
  pose proof (writeUInt32BE_fill (hook ++ r) (index c) 0 Hi) as W3.
  rewrite length_app, Lh, Lr in W3. change (32 + 32)%nat with 64%nat in W3.
  change (4 + 0)%nat with 4%nat in W3. rewrite W3. cbn [mbind result_bind].
  unfold alloc. cbn [replicate]. by rewrite app_nil_r, app_assoc.
Qed.

Lemma decodeSimplePrefix_eq hook r i rest :
  bytes_ok hook -> length hook = 32%nat -> bytes_ok r -> length r = 32%nat -> 0 <= i < 2 ^ 32 ->
  bytes_ok rest ->
  Multisig.decodeSimplePrefix (toHexString (hook ++ r ++ be_bytes 4 i ++ rest)) =
  Ok {| root := toHexString r; index := i; merkle_tree_hook_address := toHexString hook |}.
Proof.
  intros Hh Lh Hr Lr Hi Hrest. unfold Multisig.decodeSimplePrefix.
  rewrite fromHexString_toHexString by (rewrite !bytes_ok_app; auto).
  assert (64 = length (hook ++ r))%nat as -> by (rewrite length_app; lia).
  rewrite (app_assoc hook r), readUInt32BE_at, <- app_assoc by done. cbn [mbind result_bind].
  rewrite subarray_head, (subarray_between hook r) by (rewrite ?length_app; lia). done.
Qed.

Lemma encodeProofPrefix_eq c p hook l bss :
  bytes_ok hook -> length hook = 32%nat -> merkle_tree_hook_address c = toHexString hook ->
  bytes_ok l -> length l = 32%nat -> leaf p = toHexString l ->
  Forall bytes_ok bss -> length (concat bss) = 1024%nat -> branch p = toHexString <$> bss ->
  0 <= index c < 2 ^ 32 -> 0 <= proof_index p < 2 ^ 32 ->
  Multisig.encodeProofPrefix c p =
  Ok (toHexString (hook ++ be_bytes 4 (proof_index p) ++ l ++ concat bss ++ be_bytes 4 (index c))).
Proof.
  intros Hh Lh Eh Hl Ll El Hb Lb Eb Hi Hj. unfold Multisig.encodeProofPrefix.
  rewrite Eh, El, Eb, !strip0x_toHexString by done.
  assert (strip0x <$> (toHexString <$> bss) = buffer_to_hex <$> bss) as ->.
  { rewrite <- list_fmap_compose. apply Forall_fmap_ext_1. eapply Forall_impl; [exact Hb|].
    intros bs H. by apply strip0x_toHexString. }
  rewrite concat_buffer_to_hex. assert (bytes_ok (concat bss)) as Hc by by apply Forall_concat.
  pose proof (write_hex_fill [] hook 1064 Hh) as W1. rewrite Lh in W1. cbn [length app] in W1.
  change (32 + 1064)%nat with 1096%nat in W1. rewrite W1. clear W1.
  pose proof (writeUInt32BE_fill hook (proof_index p) 1060 Hj) as W2. rewrite Lh in W2.
  change (4 + 1060)%nat with 1064%nat in W2. rewrite W2. clear W2. cbn [mbind result_bind].
  pose proof (write_hex_fill (hook ++ be_bytes 4 (proof_index p)) l 1028 Hl) as W3.
  rewrite length_app, be_bytes_length, Lh, Ll in W3.
  change (32 + 4)%nat with 36%nat in W3. change (32 + 1028)%nat with 1060%nat in W3. rewrite W3. clear W3.
  pose proof (write_hex_fill ((hook ++ be_bytes 4 (proof_index p)) ++ l) (concat bss) 4 Hc) as W4.
  rewrite !length_app, be_bytes_length, Lh, Ll, Lb in W4.
  change (32 + 4 + 32)%nat with 68%nat in W4. change (1024 + 4)%nat with 1028%nat in W4.
  change (32 * 32)%nat with 1024%nat. rewrite W4. clear W4.
  pose proof (writeUInt32BE_fill (((hook ++ be_bytes 4 (proof_index p)) ++ l) ++ concat bss)
    (index c) 0 Hi) as W5.
  rewrite !length_app, be_bytes_length, Lh, Ll, Lb in W5.
  change (32 + 4 + 32 + 1024)%nat with 1092%nat in W5. change (4 + 0)%nat with 4%nat in W5.
  rewrite W5. cbn [mbind result_bind]. unfold alloc. cbn [replicate].
  by rewrite app_nil_r, <- !app_assoc.
Qed.

Lemma decodeProofPrefix_eq hook l bss i j rest :
  bytes_ok hook -> length hook = 32%nat -> bytes_ok l -> length l = 32%nat ->
  Forall bytes_ok bss -> Forall (fun bs => length bs = 32%nat) bss -> length bss = 32%nat ->
  0 <= i < 2 ^ 32 -> 0 <= j < 2 ^ 32 -> bytes_ok rest ->
  Multisig.decodeProofPrefix
    (toHexString (hook ++ be_bytes 4 i ++ l ++ concat bss ++ be_bytes 4 j ++ rest)) =
  Ok ({| root := EmptyString; index := i; merkle_tree_hook_address := toHexString hook |},
      {| branch := toHexString <$> bss; leaf := toHexString l; proof_index := j |}).
Proof.
  intros Hh Lh Hl Ll Hb Lb Nb Hi Hj Hrest. unfold Multisig.decodeProofPrefix.
  assert (bytes_ok (concat bss)) as Hc by by apply Forall_concat.
  assert (length (concat bss) = 1024)%nat as Lc
    by (rewrite (length_concat_uniform 32), Nb by done; done).
  rewrite fromHexString_toHexString by (rewrite !bytes_ok_app; auto 10).
  set (m := concat bss) in *.
  set (buf := hook ++ be_bytes 4 i ++ l ++ m ++ be_bytes 4 j ++ rest).
  assert (readUInt32BE 32 buf = Ok i) as -> by (rewrite <- Lh; by apply readUInt32BE_at).
  assert (buf = (hook ++ be_bytes 4 i) ++ l ++ m ++ be_bytes 4 j ++ rest) as E1
    by (by rewrite <- app_assoc).
  assert (buf = ((hook ++ be_bytes 4 i) ++ l) ++ m ++ be_bytes 4 j ++ rest) as E2
    by (by rewrite E1, app_assoc).
  assert (buf = (((hook ++ be_bytes 4 i) ++ l) ++ m) ++ be_bytes 4 j ++ rest) as E3
    by (by rewrite E2, app_assoc).
  assert (readUInt32BE 1092 buf = Ok j) as ->.
  { rewrite E3. replace 1092%nat with (length (((hook ++ be_bytes 4 i) ++ l) ++ m))
      by (rewrite !length_app, be_bytes_length; lia). by apply readUInt32BE_at. }
  cbn [mbind result_bind].
  assert (subarray 0 32 buf = hook) as -> by (apply subarray_head; lia).
  assert (subarray 36 68 buf = l) as ->
    by (rewrite E1; apply subarray_between; rewrite length_app, be_bytes_length; lia).
  assert (subarray 68 1092 buf = m) as ->
    by (rewrite E2; apply subarray_between; rewrite !length_app, be_bytes_length; lia).
  assert (ensure0x <$> chunk (buffer_to_hex m) (32 * 2) = toHexString <$> bss) as ->; [|done].
  assert (chunk (buffer_to_hex m) (32 * 2) = buffer_to_hex <$> bss) as ->.
  { unfold chunk. assert (buffer_to_hex m = foldr String.append EmptyString (buffer_to_hex <$> bss)) as ->.
    { subst m. clear. induction bss as [|bs bss IH]; [done|]. cbn. by rewrite buffer_to_hex_app, IH. }
    apply chunk_concat; [lia| |done]. apply Forall_fmap. eapply Forall_impl; [exact Lb|].
    intros bs Hbs. cbn. rewrite length_buffer_to_hex, Hbs. done. }
  by rewrite <- list_fmap_compose.
Qed.

Section multisig.
Context `{Signatures}.

(** ethers packs a signature into 65 bytes. *)
Definition signed_as (signature : SignatureLike) (h : string) : Prop :=
  joinSignature signature = Ok h /\ hex_of Multisig.SIGNATURE_LENGTH h.

(** A packed signature in its parts. *)
Definition parts (h : string) : result SignatureLike :=
  '(r, s, v) ← splitSignature h; Ok (SigParts r s v).

Lemma append_signatures_eq bs signatures hs :
  bytes_ok bs -> Forall2 signed_as signatures hs ->
  exists sbs, hs = toHexString <$> sbs /\ Forall bytes_ok sbs /\
    Forall (fun sb => length sb = Multisig.SIGNATURE_LENGTH) sbs /\
    Multisig.append_signatures (toHexString bs) signatures = Ok (toHexString (bs ++ concat sbs)).
Proof.
  intros Hbs Hs. revert bs Hbs.
  induction Hs as [|sig h sigs hs [Hj (sb & Hok & Hlen & ->)] _ IH]; intros bs Hbs.
  { exists []. by rewrite app_nil_r. }
  destruct (IH (bs ++ sb)) as (sbs & -> & Hoks & Hlens & E); [by apply bytes_ok_app|].
  exists (sb :: sbs). split_and!; [done|by constructor|by constructor|].
  cbn [Multisig.append_signatures]. rewrite Hj. cbn [mbind result_bind].
  rewrite fromHexString_toHexString, Hlen by done. cbn [mbind result_bind js_assert].
  rewrite Nat.eqb_refl. cbn [mbind result_bind]. rewrite toHexString_app by done.
  by rewrite E, <- app_assoc.
Qed.

Lemma signatureAt_eq pre past sb rest :
  bytes_ok (pre ++ concat past ++ sb ++ rest) ->
  Forall (fun sb => length sb = Multisig.SIGNATURE_LENGTH) past ->
  length sb = Multisig.SIGNATURE_LENGTH ->
  Multisig.signatureAt (toHexString (pre ++ concat past ++ sb ++ rest)) (length pre) (length past) =
  Some (toHexString sb).
Proof.
  intros Hok Hpast Hsb. unfold Multisig.signatureAt. rewrite fromHexString_toHexString by done.
  assert (length (pre ++ concat past) =
    (length pre + length past * Multisig.SIGNATURE_LENGTH)%nat) as <-
    by (rewrite length_app, (length_concat_uniform Multisig.SIGNATURE_LENGTH); done).
  rewrite (app_assoc pre).
  destruct (Nat.ltb_spec (length ((pre ++ concat past) ++ sb ++ rest))
    (length (pre ++ concat past) + Multisig.SIGNATURE_LENGTH)) as [Hl|_].
  { rewrite (length_app (pre ++ concat past)), (length_app sb) in Hl. lia. }
  do 2 f_equal. apply subarray_between; lia.
Qed.

Lemma signatureAt_end pre past :
  bytes_ok (pre ++ concat past) ->
  Forall (fun sb => length sb = Multisig.SIGNATURE_LENGTH) past ->
  Multisig.signatureAt (toHexString (pre ++ concat past)) (length pre) (length past) = None.
Proof.
  intros Hok Hpast. unfold Multisig.signatureAt. rewrite fromHexString_toHexString by done.
  rewrite length_app, (length_concat_uniform Multisig.SIGNATURE_LENGTH) by done.
  destruct (Nat.ltb_spec (length pre + length past * Multisig.SIGNATURE_LENGTH)
    (length pre + length past * Multisig.SIGNATURE_LENGTH + Multisig.SIGNATURE_LENGTH)) as [_|Hl];
    [done|]. unfold Multisig.SIGNATURE_LENGTH in Hl. lia.
Qed.

(** Enough fuel: at least one round per signature. *)
Lemma decode_signatures_eq pre past sbs fuel :
  bytes_ok pre -> Forall bytes_ok past -> Forall bytes_ok sbs ->
  Forall (fun sb => length sb = Multisig.SIGNATURE_LENGTH) (past ++ sbs) ->
  (length sbs <= fuel)%nat ->
  Multisig.decode_signatures fuel (toHexString (pre ++ concat (past ++ sbs))) (length pre)
    (length past) = mapM parts (toHexString <$> sbs).
Proof.
  intros Hpre Hpast Hok Hlen. revert past fuel Hpast Hlen.
  induction Hok as [|sb sbs Hsb Hok IH]; intros past fuel Hpast Hlen Hfuel.
  { rewrite app_nil_r in *. destruct fuel as [|fuel]; [done|]. cbn [Multisig.decode_signatures].
    rewrite signatureAt_end; [done| |done]. apply bytes_ok_app. split; [done|by apply Forall_concat]. }
  destruct fuel as [|fuel]; [cbn in Hfuel; lia|]. cbn [Multisig.decode_signatures].
  pose proof Hlen as [Hlp [Hls _]%Forall_cons]%Forall_app.
  rewrite concat_app. cbn [concat].
  rewrite signatureAt_eq by (try done; rewrite !bytes_ok_app; split_and!; by (try apply Forall_concat)).
  cbn [fmap list_fmap mapM].
  destruct (splitSignature (toHexString sb)) as [[[r s] v]|e] eqn:Es; cycle 1.
  { assert (parts (toHexString sb) = Throw e) as -> by (unfold parts; by rewrite Es). done. }
  assert (parts (toHexString sb) = Ok (SigParts r s v)) as -> by (unfold parts; by rewrite Es).
  cbn [mbind result_bind].
  specialize (IH (past ++ [sb]) fuel).
  rewrite <- app_assoc, length_app, Nat.add_1_r, concat_app in IH. cbn [app concat] in IH.
  rewrite IH; [done| |done|cbn in Hfuel; lia]. apply Forall_app. by split; [|constructor].
Qed.

(** What [encode] can pack: 32 bytes where 32 are written, a branch of 32 hashes, and 32-bit
    indices. *)
Definition packable_checkpoint (c : MdCheckpoint) : Prop :=
  hex_of 32 (merkle_tree_hook_address c) /\ 0 <= index c < 2 ^ 32.
Definition packable (m : MultisigMetadata) : Prop :=
  match m with
  | MessageIdMultisig c _ => packable_checkpoint c /\ hex_of 32 (root c)
  | MerkleRootMultisig c p _ =>
      packable_checkpoint c /\ hex_of 32 (leaf p) /\ 0 <= proof_index p < 2 ^ 32 /\
      length (branch p) = 32%nat /\ Forall (hex_of 32) (branch p)
  end.
Definition of_type (m : MultisigMetadata) (type : IsmType) : Prop :=
  match m with
  | MessageIdMultisig _ _ => type = MESSAGE_ID_MULTISIG \/ type = STORAGE_MESSAGE_ID_MULTISIG
  | MerkleRootMultisig _ _ _ => type = MERKLE_ROOT_MULTISIG \/ type = STORAGE_MERKLE_ROOT_MULTISIG
  end.
Definition signatures_of (m : MultisigMetadata) : list SignatureLike :=
  match m with MessageIdMultisig _ ss => ss | MerkleRootMultisig _ _ ss => ss end.

(** What comes back: for a Merkle root multisig the two indices are exchanged. *)
Definition reread (m : MultisigMetadata) (signatures : list SignatureLike) : MultisigMetadata :=
  match m with
  | MessageIdMultisig c _ => MessageIdMultisig c signatures
  | MerkleRootMultisig c p _ =>
      MerkleRootMultisig
        {| root := EmptyString; index := proof_index p;
           merkle_tree_hook_address := merkle_tree_hook_address c |}
        {| branch := branch p; leaf := leaf p; proof_index := index c |} signatures
  end.

Lemma hex_of_all n ss : Forall (hex_of n) ss ->
  exists bss, ss = toHexString <$> bss /\ Forall bytes_ok bss /\ Forall (fun bs => length bs = n) bss.
Proof.
  induction 1 as [|s ss (bs & Hok & Hlen & ->) _ (bss & -> & Hoks & Hlens)]; [by exists []|].
  exists (bs :: bss). split_and!; [done|by constructor..].
Qed.

(** The fuel of [decode]. *)
Lemma length_toHexString bs n : bytes_ok bs -> (n <= length bs)%nat ->
  (n <= String.length (toHexString bs))%nat.
Proof. intros Hok Hn. rewrite toHexString_eq by done. cbn. rewrite length_buffer_to_hex. lia. Qed.

Lemma signatures_fuel pre sbs : bytes_ok pre -> Forall bytes_ok sbs ->
  Forall (fun sb => length sb = Multisig.SIGNATURE_LENGTH) sbs ->
  (length sbs <= String.length (toHexString (pre ++ concat sbs)))%nat.
Proof.
  intros Hpre Hok Hlen. apply length_toHexString; [apply bytes_ok_app; split; [done|by apply Forall_concat]|].
  rewrite length_app, (length_concat_uniform Multisig.SIGNATURE_LENGTH) by done.
  unfold Multisig.SIGNATURE_LENGTH. lia.
Qed.

Lemma decode_encode_multisig m type hs :
  packable m -> of_type m type -> Forall2 signed_as (signatures_of m) hs ->
  exists h bs, Multisig.encode m = Ok h /\ h = toHexString bs /\ bytes_ok bs /\
    Multisig.decode h type = (reread m <$> mapM parts hs) /\
    length bs = (match m with MessageIdMultisig _ _ => 68 | _ => 1096 end +
                 length (signatures_of m) * Multisig.SIGNATURE_LENGTH)%nat.
Proof.
  intros Hp Ht Hs. destruct m as [c ss|c p ss]; cbn [signatures_of of_type packable] in *.
  - destruct Hp as [[(hook & Hh & Lh & Eh) Hi] (r & Hr & Lr & Er)].
    pose proof (encodeSimplePrefix_eq c hook r Hh Lh Eh Hr Lr Er Hi) as E.
    set (pre := hook ++ r ++ be_bytes 4 (index c)) in *.
    assert (bytes_ok pre) as Hpre by (subst pre; rewrite !bytes_ok_app; auto).
    assert (68 = length pre)%nat as Lpre
      by (subst pre; rewrite !length_app, be_bytes_length; lia).
    destruct (append_signatures_eq pre ss hs Hpre Hs) as (sbs & -> & Hok & Hlen & Ea).
    assert (bytes_ok (concat sbs)) by by apply Forall_concat.
    assert (length sbs = length ss) as Lss
      by (apply Forall2_length in Hs; rewrite length_fmap in Hs; done).
    exists (toHexString (pre ++ concat sbs)), (pre ++ concat sbs). split_and!; try done.
    + cbn [Multisig.encode]. by rewrite E.
    + by apply bytes_ok_app.
    + pose proof (decodeSimplePrefix_eq hook r (index c) (concat sbs) Hh Lh Hr Lr Hi ltac:(done)) as D.
      replace (hook ++ r ++ be_bytes 4 (index c) ++ concat sbs) with (pre ++ concat sbs) in D
        by (subst pre; by rewrite <- !app_assoc).
      pose proof (decode_signatures_eq pre [] sbs _ Hpre (Forall_nil_2 _) Hok Hlen
        (signatures_fuel pre sbs Hpre Hok Hlen)) as S. rewrite <- Lpre in S. cbn [app length] in S.
      unfold Multisig.decode. rewrite D, S. cbn [mbind result_bind].
      replace {| root := toHexString r; index := index c; merkle_tree_hook_address := toHexString hook |}
        with c by (rewrite <- Eh, <- Er; by destruct c).
      destruct Ht as [-> | ->]; by destruct (mapM parts _).
    + by rewrite length_app, (length_concat_uniform Multisig.SIGNATURE_LENGTH), Lss, <- Lpre.
  - destruct Hp as ([(hook & Hh & Lh & Eh) Hi] & (l & Hl & Ll & El) & Hj & Nb & Hb).
    destruct (hex_of_all 32 (branch p) Hb) as (bss & Eb & Hbok & Hblen).
    assert (length bss = 32%nat) as Nbs by (rewrite Eb, length_fmap in Nb; done).
    assert (length (concat bss) = 1024%nat) as Lc
      by (rewrite (length_concat_uniform 32), Nbs by done; done).
    pose proof (encodeProofPrefix_eq c p hook l bss Hh Lh Eh Hl Ll El Hbok Lc Eb Hi Hj) as E.
    set (pre := hook ++ be_bytes 4 (proof_index p) ++ l ++ concat bss ++ be_bytes 4 (index c)) in *.
    assert (bytes_ok (concat bss)) by by apply Forall_concat.
    assert (bytes_ok pre) as Hpre by (subst pre; rewrite !bytes_ok_app; auto 10).
    assert (1096 = length pre)%nat as Lpre
      by (subst pre; rewrite !length_app, !be_bytes_length; lia).
    destruct (append_signatures_eq pre ss hs Hpre Hs) as (sbs & -> & Hok & Hlen & Ea).
    assert (bytes_ok (concat sbs)) by by apply Forall_concat.
    assert (length sbs = length ss) as Lss
      by (apply Forall2_length in Hs; rewrite length_fmap in Hs; done).
    exists (toHexString (pre ++ concat sbs)), (pre ++ concat sbs). split_and!; try done.
    + cbn [Multisig.encode]. by rewrite E.
    + by apply bytes_ok_app.
    + pose proof (decodeProofPrefix_eq hook l bss (proof_index p) (index c) (concat sbs) Hh Lh Hl Ll
        Hbok Hblen Nbs Hj Hi ltac:(done)) as D.
      replace (hook ++ be_bytes 4 (proof_index p) ++ l ++ concat bss ++ be_bytes 4 (index c) ++
        concat sbs) with (pre ++ concat sbs) in D by (subst pre; by rewrite <- !app_assoc).
      pose proof (decode_signatures_eq pre [] sbs _ Hpre (Forall_nil_2 _) Hok Hlen
        (signatures_fuel pre sbs Hpre Hok Hlen)) as S. rewrite <- Lpre in S. cbn [app length] in S.
      unfold Multisig.decode. rewrite D, S. cbn [mbind result_bind reread].
      rewrite <- Eb, <- El, <- Eh.
      destruct Ht as [-> | ->]; by destruct (mapM parts _).
    + by rewrite length_app, (length_concat_uniform Multisig.SIGNATURE_LENGTH), Lss, <- Lpre.
Qed.

End multisig.

(** ** Aggregation *)

(** Writing over bytes of the same number. *)
Lemma write_over pre old bs post : length old = length bs ->
  write_at (length pre) bs (pre ++ old ++ post) = pre ++ bs ++ post.
Proof.
  intros Hlen. unfold write_at. rewrite take_app_length.
  rewrite (take_ge bs) by (rewrite !length_app; lia). f_equal. f_equal.
  rewrite (app_assoc pre), drop_app_ge by (rewrite length_app; lia).
  rewrite length_app. replace (length pre + length bs - (length pre + length old))%nat with 0%nat by lia.
  done.
Qed.

Lemma writeUInt32BE_over pre old v post : length old = 4%nat -> 0 <= v < 2 ^ 32 ->
  writeUInt32BE v (length pre) (pre ++ old ++ post) = Ok (pre ++ be_bytes 4 v ++ post).
Proof.
  intros Hlen [H1 H2]. unfold writeUInt32BE.
  rewrite (proj2 (Z.leb_le 0 v) H1), (proj2 (Z.ltb_lt v (2 ^ 32)) H2). cbn [andb negb].
  destruct (Nat.ltb_spec (length (pre ++ old ++ post)) (length pre + 4)) as [Hl|_].
  { rewrite !length_app in Hl. lia. }
  f_equal. apply write_over. by rewrite be_bytes_length.
Qed.

(** The bytes of the metadata of a submodule, if it is included. *)
Definition included (meta : option string) : option bytes :=
  match meta with None | Some EmptyString => None | Some s => Some (fromHexString s) end.

(** The table, from the offset [first] on, and what follows it. *)
Fixpoint table (first : nat) (metas : list (option bytes)) : bytes :=
  match metas with
  | [] => []
  | None :: rest => alloc 8 ++ table first rest
  | Some bs :: rest =>
      (be_bytes 4 (Z.of_nat first) ++ be_bytes 4 (Z.of_nat (first + length bs))) ++
      table (first + length bs) rest
  end.
Definition payload (metas : list (option bytes)) : bytes := concat (default [] <$> metas).

Lemma length_table first metas : length (table first metas) = (8 * length metas)%nat.
Proof.
  revert first. induction metas as [|[bs|] metas IH]; intros first; [done|..];
    cbn [table length]; rewrite !length_app, IH; rewrite ?be_bytes_length; cbn; lia.
Qed.

Lemma included_ok meta bs : included meta = Some bs -> bytes_ok bs.
Proof. destruct meta as [[|c s]|]; try done. intros [= <-]. apply buffer_from_hex_ok. Qed.

Lemma payload_ok (metas : list (option string)) : bytes_ok (payload (included <$> metas)).
Proof.
  unfold payload. apply Forall_concat. rewrite Forall_fmap, Forall_fmap. apply Forall_forall.
  intros meta _. cbn. destruct (included meta) as [bs|] eqn:E; [by eapply included_ok|constructor].
Qed.

Lemma table_ok first metas : bytes_ok (table first metas).
Proof.
  revert first. induction metas as [|[bs|] metas IH]; intros first; [constructor|..];
    cbn [table]; rewrite !bytes_ok_app; auto using alloc_ok.
Qed.

Lemma payload_cons m ms : payload (m :: ms) = default [] m ++ payload ms.
Proof. done. Qed.

Lemma table_app first m1 m2 :
  table first (m1 ++ m2) = table first m1 ++ table (first + length (payload m1)) m2.
Proof.
  revert first. induction m1 as [|[bs|] m1 IH]; intros first.
  - cbn. by rewrite Nat.add_0_r.
  - rewrite payload_cons, length_app, Nat.add_assoc. cbn [table app default from_option].
    by rewrite IH, app_assoc.
  - rewrite payload_cons. cbn [table app default from_option]. by rewrite IH, app_assoc.
Qed.

Lemma payload_app m1 m2 : payload (m1 ++ m2) = payload m1 ++ payload m2.
Proof. unfold payload. by rewrite fmap_app, concat_app. Qed.

(** One submodule: its row of the table and its bytes. *)
Lemma encode_submodule_eq done_ meta rest total :
  let T := (8 * (length done_ + 1 + rest))%nat in
  (T + length (payload (done_ ++ [included meta])) <= total)%nat -> Z.of_nat total < 2 ^ 32 ->
  Aggregation.encode_submodule (table T done_ ++ alloc (8 * (1 + rest)) ++ payload done_)
    (length done_) meta =
  Ok (table T (done_ ++ [included meta]) ++ alloc (8 * rest) ++ payload (done_ ++ [included meta])).
Proof.
  intros T Ht Hmax. rewrite table_app, payload_app in *.
  replace (8 * (1 + rest))%nat with (8 + 8 * rest)%nat by lia. rewrite alloc_app.
  unfold Aggregation.encode_submodule. destruct (included meta) as [bs|] eqn:Hm; cycle 1.
  { cbn [table]. change (payload [None]) with (@nil Z). rewrite !app_nil_r, <- !app_assoc.
    by destruct meta as [[|c s]|]. }
  destruct meta as [[|c s]|]; [done| |done]. injection Hm as Hm. rewrite Hm. cbn zeta.
  set (enc := table T done_ ++ (alloc 8 ++ alloc (8 * rest)) ++ payload done_).
  assert (length enc = T + length (payload done_))%nat as Lenc.
  { subst enc T. rewrite !length_app, length_table. unfold alloc. rewrite !length_replicate. lia. }
  assert (payload [Some bs] = bs) as Hp by (unfold payload; cbn; by rewrite app_nil_r).
  rewrite Hp, length_app in *.
  rewrite Lenc.
  unfold Aggregation.rangeIndex, Aggregation.RANGE_SIZE.
  replace (length done_ * 2 * 4)%nat with (length (table T done_)) by (rewrite length_table; lia).
  replace (enc ++ bs) with (table T done_ ++ alloc 4 ++ alloc 4 ++ alloc (8 * rest) ++ payload done_ ++ bs)
    by (subst enc; change (alloc 8) with (alloc 4 ++ alloc 4); by rewrite <- !app_assoc).
  rewrite writeUInt32BE_over by (done || lia). cbn [mbind result_bind].
  rewrite app_assoc.
  replace (length (table T done_) + 4)%nat
    with (length (table T done_ ++ be_bytes 4 (Z.of_nat (T + length (payload done_)))))
    by (rewrite length_app, be_bytes_length; lia).
  rewrite writeUInt32BE_over by (done || lia).
  f_equal. cbn [table]. by rewrite app_nil_r, <- !app_assoc.
Qed.

Lemma encode_from_eq metas done_ total :
  let T := (8 * (length done_ + length metas))%nat in
  (T + length (payload (done_ ++ (included <$> metas))) <= total)%nat -> Z.of_nat total < 2 ^ 32 ->
  Aggregation.encode_from (length done_) metas
    (table T done_ ++ alloc (8 * length metas) ++ payload done_) =
  Ok (table T (done_ ++ (included <$> metas)) ++ payload (done_ ++ (included <$> metas))).
Proof.
  revert done_. induction metas as [|meta metas IH]; intros done_ T Ht Hmax.
  { cbn. by rewrite app_nil_r. }
  cbn [Aggregation.encode_from].
  pose proof (encode_submodule_eq done_ meta (length metas) total) as E. cbv zeta in E.
  replace (8 * (length done_ + 1 + length metas))%nat with T in E by (subst T; cbn [length]; lia).
  replace (8 * length (meta :: metas))%nat with (8 * (1 + length metas))%nat by (cbn [length]; lia).
  rewrite E; [|rewrite payload_app in *; rewrite length_app in *; cbn [fmap list_fmap] in Ht;
    rewrite payload_cons, length_app in Ht; change (payload [included meta]) with
      (default [] (included meta) ++ []); rewrite app_nil_r; lia|done].
  cbn [mbind result_bind].
  specialize (IH (done_ ++ [included meta])). rewrite length_app in IH. cbn [length] in IH.
  replace (8 * (length done_ + 1 + length metas))%nat with T in IH by (subst T; cbn [length]; lia).
  rewrite <- app_assoc in IH. rewrite Nat.add_1_r in IH. by apply IH.
Qed.

(** The bytes of the whole, and when they fit: offsets are 32-bit integers. *)
Definition aggregation_bytes (metas : list (option string)) : bytes :=
  let ms := included <$> metas in table (8 * length metas) ms ++ payload ms.
Definition packable_submodules (metas : list (option string)) : Prop :=
  Z.of_nat (length (aggregation_bytes metas)) < 2 ^ 32.

Lemma aggregation_bytes_ok metas : bytes_ok (aggregation_bytes metas).
Proof. apply bytes_ok_app. split; [apply table_ok|apply payload_ok]. Qed.

Lemma encode_aggregation_eq metas : packable_submodules metas ->
  Aggregation.encode metas = Ok (toHexString (aggregation_bytes metas)).
Proof.
  intros Hp. pose proof (encode_from_eq metas [] (length (aggregation_bytes metas))) as E.
  cbv zeta in E. cbn [length app payload fmap list_fmap concat table Nat.add] in E.
  unfold Aggregation.encode, Aggregation.rangeIndex, Aggregation.RANGE_SIZE.
  replace (length metas * 2 * 4)%nat with (8 * length metas)%nat by lia.
  change (payload []) with (@nil Z) in E. rewrite app_nil_r in E. rewrite E; [done| |done].
  unfold aggregation_bytes. rewrite length_app, length_table, length_fmap. done.
Qed.

(** The range of a submodule is what was packed for it. *)
Lemma metadataRange_eq metas i meta : packable_submodules metas -> metas !! i = Some meta ->
  exists range, Aggregation.metadataRange (toHexString (aggregation_bytes metas)) i = Ok range /\
    match included meta with
    | None => Aggregation.range_start range = 0
    | Some bs => Aggregation.range_start range <> 0 /\ Aggregation.range_encoded range = toHexString bs
    end.
Proof.
  intros Hp Hi. unfold Aggregation.metadataRange.
  rewrite fromHexString_toHexString by apply aggregation_bytes_ok.
  apply list_elem_of_split_length in Hi as (l1 & l2 & -> & ->).
  unfold packable_submodules, aggregation_bytes in *. rewrite fmap_app, fmap_cons in *.
  set (T := (8 * length (l1 ++ meta :: l2))%nat) in *.
  assert (8 <= T)%nat by (subst T; rewrite length_app; cbn [length]; lia).
  set (p1 := included <$> l1) in *. set (p2 := included <$> l2) in *.
  rewrite table_app, payload_app, payload_cons in *.
  assert (length (table T p1) = 8 * length l1)%nat as L1
    by (rewrite length_table; subst p1; by rewrite length_fmap).
  unfold Aggregation.rangeIndex, Aggregation.RANGE_SIZE.
  replace (length l1 * 2 * 4)%nat with (length (table T p1)) by (rewrite L1; lia).
  set (k := length (payload p1)) in *.
  destruct (included meta) as [bs|]; cbn [table default from_option id] in *.
  - rewrite !length_app, !length_table in Hp. rewrite !be_bytes_length in Hp.
    set (tail := table (T + k + length bs) p2 ++ payload p1 ++ bs ++ payload p2).
    assert (LT : (length (table T p1) + 8 + length (table (T + k + length bs) p2) = T)%nat).
    { rewrite !length_table. subst T p1 p2. rewrite !length_fmap, length_app. cbn [length]. lia. }
    replace ((table T p1 ++ (be_bytes 4 (Z.of_nat (T + k)) ++ be_bytes 4 (Z.of_nat (T + k + length bs)))
      ++ table (T + k + length bs) p2) ++ payload p1 ++ bs ++ payload p2)
      with (table T p1 ++ be_bytes 4 (Z.of_nat (T + k)) ++ be_bytes 4 (Z.of_nat (T + k + length bs)) ++ tail)
      by (subst tail; by rewrite <- !app_assoc).
    assert (Z.of_nat (T + k + length bs) < 2 ^ 32) by (subst k; rewrite !length_table in LT; lia).
    rewrite readUInt32BE_at by lia. cbn [mbind result_bind].
    rewrite (app_assoc (table T p1)).
    replace (length (table T p1) + 4)%nat
      with (length (table T p1 ++ be_bytes 4 (Z.of_nat (T + k))))
      by (rewrite length_app, be_bytes_length; lia).
    rewrite readUInt32BE_at by lia. cbn [mbind result_bind].
    eexists. split; [done|]. cbn [Aggregation.range_start Aggregation.range_encoded]. split; [lia|]. f_equal.
    rewrite !Nat2Z.id. subst tail.
    replace ((table T p1 ++ be_bytes 4 (Z.of_nat (T + k))) ++ be_bytes 4 (Z.of_nat (T + k + length bs))
      ++ table (T + k + length bs) p2 ++ payload p1 ++ bs ++ payload p2)
      with ((table T p1 ++ be_bytes 4 (Z.of_nat (T + k)) ++ be_bytes 4 (Z.of_nat (T + k + length bs))
      ++ table (T + k + length bs) p2 ++ payload p1) ++ bs ++ payload p2)
      by (by rewrite <- !app_assoc).
    apply subarray_between; rewrite !length_app, !be_bytes_length; fold k; lia.
  - set (tail := table (T + k) p2 ++ payload p1 ++ payload p2).
    replace ((table T p1 ++ alloc 8 ++ table (T + k) p2) ++ payload p1 ++ [] ++ payload p2)
      with (table T p1 ++ be_bytes 4 0 ++ be_bytes 4 0 ++ tail)
      by (subst tail; change (alloc 8) with (be_bytes 4 0 ++ be_bytes 4 0); by rewrite <- !app_assoc).
    rewrite readUInt32BE_at by lia. cbn [mbind result_bind]. rewrite (app_assoc (table T p1)).
    replace (length (table T p1) + 4)%nat with (length (table T p1 ++ be_bytes 4 0))
      by (rewrite length_app, be_bytes_length; lia).
    rewrite readUInt32BE_at by lia. cbn [mbind result_bind]. by eexists.
Qed.

(** What decoding gives for a submodule that was packed. *)
Definition read_submodule (dec : Ism -> string -> result StructuredMetadata)
    (x : Ism * option string) : result (option StructuredMetadata) :=
  match included (snd x) with
  | None => Ok None
  | Some bs =>
      match fst x with
      | IsmAddress _ => Ok (Some (RawMetadata (toHexString bs)))
      | ism => Some <$> dec ism (toHexString bs)
      end
  end.

Lemma decode_from_eq dec metas past modules rest :
  packable_submodules metas -> metas = past ++ rest -> length modules = length rest ->
  Aggregation.decode_from dec (toHexString (aggregation_bytes metas)) (length past) modules =
  mapM (read_submodule dec) (zip modules rest).
Proof.
  intros Hp. revert past modules. induction rest as [|meta rest IH];
    intros past [|ism modules] Hm Hlen; try done.
  cbn [Aggregation.decode_from zip zip_with mapM].
  destruct (metadataRange_eq metas (length past) meta Hp) as (range & Hrange & Hspec).
  { rewrite Hm. by apply list_lookup_middle. }
  assert (Aggregation.decode_submodule dec (toHexString (aggregation_bytes metas)) (length past) ism =
    read_submodule dec (ism, meta)) as ->.
  { unfold Aggregation.decode_submodule, read_submodule. rewrite Hrange. cbn [mbind result_bind fst snd].
    destruct (included meta) as [bs|]; [|by rewrite Hspec].
    destruct Hspec as [Hne ->]. rewrite (proj2 (Z.eqb_neq _ _) Hne). by destruct ism. }
  destruct (read_submodule dec (ism, meta)) as [st|e]; [|done]. cbn [mbind result_bind].
  specialize (IH (past ++ [meta]) modules). rewrite length_app, Nat.add_1_r in IH.
  rewrite IH; [done|by rewrite Hm, <- app_assoc|by injection Hlen].
Qed.

Lemma decode_aggregation_eq dec metas modules :
  packable_submodules metas -> length modules = length metas ->
  Aggregation.decode dec (toHexString (aggregation_bytes metas)) modules =
  AggregationMetadata <$> mapM (read_submodule dec) (zip modules metas).
Proof.
  intros Hp Hlen. unfold Aggregation.decode.
  pose proof (decode_from_eq dec metas [] modules metas Hp eq_refl Hlen) as E.
  cbn [length] in E. by rewrite E.
Qed.

(** What was packed fitted, as offsets that do not are refused. *)
Lemma encode_submodule_fits done_ meta rest enc x :
  enc = table (8 * (length done_ + 1 + rest)) done_ ++ alloc (8 * (1 + rest)) ++ payload done_ ->
  Aggregation.encode_submodule enc (length done_) meta = Ok x ->
  included meta = None \/
  Z.of_nat (8 * (length done_ + 1 + rest) + length (payload (done_ ++ [included meta]))) < 2 ^ 32.
Proof.
  intros Henc He. destruct (included meta) as [bs|] eqn:Hm; [right|by left].
  destruct meta as [[|c s]|]; [done| |done]. injection Hm as Hm.
  cbn [Aggregation.encode_submodule] in He. apply result_bind_ok in He as (e1 & _ & He).
  unfold writeUInt32BE in He. rewrite Hm in He.
  destruct (Z.ltb_spec (Z.of_nat (length (enc ++ bs))) (2 ^ 32)) as [Hlt|_];
    [|by rewrite andb_false_r in He]. subst enc.
  rewrite !length_app, length_table in Hlt. unfold alloc in Hlt. rewrite length_replicate in Hlt.
  rewrite payload_app, length_app.
  assert (payload [Some bs] = bs) as -> by (unfold payload; cbn; by rewrite app_nil_r). lia.
Qed.

Lemma encode_from_fits metas done_ x :
  let T := (8 * (length done_ + length metas))%nat in
  Z.of_nat (T + length (payload done_)) < 2 ^ 32 ->
  Aggregation.encode_from (length done_) metas
    (table T done_ ++ alloc (8 * length metas) ++ payload done_) = Ok x ->
  Z.of_nat (T + length (payload (done_ ++ (included <$> metas)))) < 2 ^ 32.
Proof.
  revert done_. induction metas as [|meta metas IH]; intros done_ T Hd He.
  { cbn [fmap list_fmap]. by rewrite app_nil_r. }
  cbn [Aggregation.encode_from] in He. apply result_bind_ok in He as (e1 & He1 & He).
  assert (T = 8 * (length done_ + 1 + length metas))%nat as HT by (subst T; cbn [length]; lia).
  assert (Z.of_nat (T + length (payload (done_ ++ [included meta]))) < 2 ^ 32) as Hd1.
  { replace (8 * length (meta :: metas))%nat with (8 * (1 + length metas))%nat in He1
      by (cbn [length]; lia). rewrite HT in He1 |- *.
    destruct (encode_submodule_fits _ _ _ _ _ eq_refl He1) as [Hn|?]; [|done].
    rewrite Hn, payload_app, length_app. change (payload [None]) with (@nil Z). cbn [length]. lia. }
  pose proof (encode_submodule_eq done_ meta (length metas)
    (T + length (payload (done_ ++ [included meta])))) as E. cbv zeta in E. rewrite <- HT in E.
  replace (8 * length (meta :: metas))%nat with (8 * (1 + length metas))%nat in He1
    by (cbn [length]; lia).
  rewrite E in He1 by (lia || done). injection He1 as <-.
  specialize (IH (done_ ++ [included meta])). rewrite length_app, <- app_assoc in IH.
  cbn [length app] in IH. rewrite <- HT, Nat.add_1_r in IH. by apply IH.
Qed.

Lemma encode_aggregation_inv metas h : Z.of_nat (length metas) < 2 ^ 29 ->
  Aggregation.encode metas = Ok h ->
  packable_submodules metas /\ h = toHexString (aggregation_bytes metas).
Proof.
  intros Hn He. assert (packable_submodules metas) as Hp.
  { apply result_bind_ok in He as (x & He & _). unfold Aggregation.rangeIndex, Aggregation.RANGE_SIZE in He.
    replace (length metas * 2 * 4)%nat with (8 * length metas)%nat in He by lia.
    unfold packable_submodules, aggregation_bytes. rewrite length_app, length_table, length_fmap.
    apply (encode_from_fits metas [] x); cbn [length Nat.add payload fmap list_fmap concat table];
      [change (length (payload [])) with 0%nat; lia|].
    change (payload []) with (@nil Z). by rewrite app_nil_r. }
  split; [done|]. rewrite encode_aggregation_eq in He by done. by injection He.
Qed.

(** ** The round trips *)

(** What [MultisigMetadataBuilder.encode] packs has a fixed size, and [decode] reads back the
    checkpoint, the proof and the signatures in their parts, with one exception: the two
    indices of a Merkle root multisig come back exchanged, as [encode] writes the index of the
    proof where [decode] (and the contract) reads that of the message. *)
Theorem multisig_roundtrip `{Signatures} m type hs :
  packable m -> of_type m type -> Forall2 signed_as (signatures_of m) hs ->
  exists h, Multisig.encode m = Ok h /\
    length (fromHexString h) =
      (match m with MessageIdMultisig _ _ => 68 | MerkleRootMultisig _ _ _ => 1096 end +
       length (signatures_of m) * 65)%nat /\
    Multisig.decode h type = (reread m <$> mapM parts hs).
Proof.
  intros Hp Ht Hs. destruct (decode_encode_multisig m type hs Hp Ht Hs) as (h & bs & He & -> & Hok & Hd & Hl).
  exists (toHexString bs). split_and!; [done| |done]. by rewrite fromHexString_toHexString.
Qed.

(** An aggregation of any submodules is packed exactly when everything fits 32-bit offsets,
    and [decode] then finds for each submodule, in its place, what was packed for it, and nothing
    for those left out, whatever the order and the sizes. *)
Theorem aggregation_roundtrip dec metas modules h :
  Z.of_nat (length metas) < 2 ^ 29 -> length modules = length metas ->
  (is_ok (Aggregation.encode metas) = true <-> packable_submodules metas) /\
  (Aggregation.encode metas = Ok h ->
   Aggregation.decode dec h modules =
   AggregationMetadata <$> mapM (read_submodule dec) (zip modules metas)).
Proof.
  intros Hn Hlen. split; [split|].
  - destruct (Aggregation.encode metas) as [x|] eqn:E; [|done]. intros _.
    by apply (encode_aggregation_inv metas x).
  - intros Hp. by rewrite encode_aggregation_eq.
  - intros [Hp ->]%encode_aggregation_inv; [|done]. by apply decode_aggregation_eq.
Qed.

(** ** Concrete metadata *)
Module MetadataSample.

(** A signature is its packed form; its parts are itself. *)
#[local] Instance plain_signatures : Signatures := {|
  joinSignature := fun s => match s with SigHex h => Ok h | _ => Throw (Error "parts") end;
  splitSignature := fun h => Ok (h, h, 27) |}.

Definition hash (b : Z) : string := toHexString (replicate 32 b).
Definition packed_signature (b : Z) : string := toHexString (replicate 65 b).

Lemma hex_of_replicate n b : byte_ok b -> hex_of n (toHexString (replicate n b)).
Proof.
  intros Hb. exists (replicate n b). split_and!; [by apply Forall_replicate|apply length_replicate|done].
Qed.

Definition sample_checkpoint : MdCheckpoint := {|
  root := hash 1; index := 7; merkle_tree_hook_address := hash 2 |}.
Definition sample_proof : MerkleProof := {|
  branch := replicate 32 (hash 3); leaf := hash 4; proof_index := 5 |}.
Definition sample_multisig : MultisigMetadata :=
  MerkleRootMultisig sample_checkpoint sample_proof
    [SigHex (packed_signature 8); SigHex (packed_signature 9)].

Lemma sample_packable : packable sample_multisig.
Proof.
  assert (forall b, 0 <= b < 256 -> hex_of 32 (hash b)) as Hh
    by (intros; by apply hex_of_replicate).
  split_and!; cbn; try lia; [split; [apply Hh; lia|cbn; lia]|apply Hh; lia|].
  change (Forall (hex_of 32) (replicate 32 (hash 3))). apply Forall_replicate, Hh. lia.
Qed.

Lemma sample_signed :
  Forall2 signed_as (signatures_of sample_multisig) [packed_signature 8; packed_signature 9].
Proof.
  repeat constructor; try done; apply hex_of_replicate; unfold byte_ok; lia.
Qed.

Lemma multisig_roundtrip_witness :
  exists h, Multisig.encode sample_multisig = Ok h /\ length (fromHexString h) = 1226%nat /\
    Multisig.decode h MERKLE_ROOT_MULTISIG =
    Ok (MerkleRootMultisig
      {| root := EmptyString; index := 5; merkle_tree_hook_address := hash 2 |}
      {| branch := replicate 32 (hash 3); leaf := hash 4; proof_index := 7 |}
      [SigParts (packed_signature 8) (packed_signature 8) 27;
       SigParts (packed_signature 9) (packed_signature 9) 27]).
Proof.
  exact (multisig_roundtrip sample_multisig MERKLE_ROOT_MULTISIG _ sample_packable
    (or_introl eq_refl) sample_signed).
Defined.

Definition sample_metas : list (option string) := [None; Some "0x"; Some "0x0a0B"; Some EmptyString]%string.
Definition sample_modules : list Ism := replicate 4 (IsmAddress "0x0").
Definition no_decoder (_ : Ism) (_ : string) : result StructuredMetadata := Throw (Error "not called").

Lemma aggregation_roundtrip_witness :
  exists h, Aggregation.encode sample_metas = Ok h /\
    Aggregation.decode no_decoder h sample_modules =
    Ok (AggregationMetadata [None; Some (RawMetadata "0x"); Some (RawMetadata "0x0a0b"); None]).
Proof.
  eexists. split; [vm_compute; reflexivity|].
  refine (eq_trans (proj2 (aggregation_roundtrip no_decoder sample_metas sample_modules _ _ _) _) _);
    [vm_compute; reflexivity|done|vm_compute; reflexivity|vm_compute; reflexivity].
Defined.

End MetadataSample.
