(* ===== verification/MetadataBuilder.v ===== *)
(** Building ISM metadata, relayer/src/metadata: [builder.ts] dispatches on the kind of module,
    [multisig.ts] collects the checkpoints validators have signed, [aggregation.ts] and
    [routing.ts] build what is below them, [arbL2ToL1.ts] and [ccipread.ts] ask Arbitrum and
    offchain services. What is outside (contracts, validators' storage, other libraries) is the
    class [RelayerWorld]; submodules that are built at the same time are built one after the
    other. Logging and aliases of validators are left out. *)
From Stdlib Require Import ZArith Lia String Ascii.
From stdpp Require Import base tactics list strings pretty.
From S2P Require Import Prelude JsMap Addresses Token Bytes Messages AddressEq ErrorGraph Metadata.

#[local] Open Scope Z_scope.

(** ** Messages, logs and hooks *)

(** [originChain] and [destinationChain] are only there when a relayer added them. *)
Record DispatchedMessage : Type := {
  dm_id : string; dm_message : string; dm_parsed : ParsedMessage;
  dm_originChain : option string; dm_destinationChain : option string
}.

(** A log of the dispatch transaction, with what its interface parses. *)
Record Log : Type := { log_address : string; log_payload : string }.

(** The configuration of a hook as the object it is; [JAtom] is a number or a boolean. *)
Inductive Json : Type :=
| JNone
| JAtom
| JText (s : string)
| JArray (items : list Json)
| JFields (fields : list (string * Json)).

Record MetadataContext : Type := {
  mc_message : DispatchedMessage; mc_logs : list Log; mc_ism : Ism; mc_hook : Json
}.

Definition with_ism (ism : Ism) (c : MetadataContext) : MetadataContext := {|
  mc_message := mc_message c; mc_logs := mc_logs c; mc_ism := ism; mc_hook := mc_hook c |}.

(** [deepFind] of utils/src/objects.ts, for the test
    [v.type === HookType.MERKLE_TREE && !!v.address]: the address of what is found. All entries
    are searched before the first find is taken, so each may throw. *)
Definition merkle_tree_hook (v : Json) : result (option string) :=
  match v with
  | JNone => Throw (TypeError "Cannot read properties of null")
  | JFields fields =>
      Ok match map_get "type" fields, map_get "address" fields with
         | Some (JText t), Some (JText (String _ _ as a)) =>
             if String.eqb t "merkleTreeHook" then Some a else None
         | _, _ => None
         end
  | _ => Ok None
  end.
Definition entries (v : Json) : list Json :=
  match v with JFields fields => map_values fields | JArray items => items | _ => [] end.

Fixpoint deepFind (depth : nat) (v : Json) : result (option string) :=
  match depth with
  | O => Throw (Error "deepFind max depth reached")
  | S depth' =>
      found ← merkle_tree_hook v;
      match found with
      | Some a => Ok (Some a)
      | None => finds ← mapM (deepFind depth') (entries v); Ok (head (omap id finds))
      end
  end.

(** ** Checkpoints *)

Record Checkpoint : Type := {
  cp_root : string; cp_index : Z; mailbox_domain : Z; cp_merkle_tree_hook_address : string
}.
Record S3CheckpointWithId : Type := {
  checkpoint : Checkpoint; message_id : string; signature : SignatureLike
}.

Inductive ValidatorStatus : Type :=
| Signed (signature : SignatureLike) (checkpointIndex : Z)
| Pending
| Failed (error : exn).
Record ValidatorInfo : Type := { vi_address : string; vi_status : ValidatorStatus }.

(** The values that have to match. *)
Record Match : Type := { m_origin : Z; m_merkleTree : string; m_messageId : string; m_index : Z }.

(** ** Results *)

Inductive BridgeStatus : Type :=
| Confirmed | Unconfirmed (blocksRemaining : option Z) | Executed | Verified.

(** [Unbuilt] is the minimal result an aggregation notes for a submodule that failed. *)
Inductive BuildResult : Type :=
| MultisigResult (type : IsmType) (ismAddress : string) (threshold : nat)
    (validators : list ValidatorInfo) (checkpointIndex : Z) (metadata : option string)
| AggregationResult (type : IsmType) (ismAddress : string) (threshold : nat)
    (modules : list BuildResult) (metadata : option string)
| RoutingResult (type : IsmType) (ismAddress : string) (originChain : string)
    (selectedIsm : BuildResult) (metadata : option string)
| NullResult (type : IsmType) (ismAddress : string) (metadata : string)
| ArbL2ToL1Result (ismAddress : string) (bridgeStatus : BridgeStatus) (metadata : option string)
| CcipReadResult (ismAddress : string) (urls : list string) (metadata : option string)
| Unbuilt (type : option IsmType) (ismAddress : option string).

Definition result_metadata (r : BuildResult) : option string :=
  match r with
  | MultisigResult _ _ _ _ _ m | AggregationResult _ _ _ _ m | RoutingResult _ _ _ _ m
  | ArbL2ToL1Result _ _ m | CcipReadResult _ _ m => m
  | NullResult _ _ m => Some m
  | Unbuilt _ _ => None
  end.

Definition isMetadataBuildable (r : BuildResult) : bool := bool_decide (is_Some (result_metadata r)).

(** ** The outside *)

Inductive ArbStatus : Type := UNCONFIRMED | CONFIRMED | EXECUTED.

(** What a parsed revert holds: its name, then the arguments of [OffchainLookup]. *)
Record ParsedError : Type := {
  pe_name : string; pe_sender : string; pe_urls : list string; pe_callData : string
}.
(** An answer to [fetch]: whether it is ok, and the field [data] of its JSON body, which may be
    unreadable or have no string there. *)
Record FetchResponse : Type := { res_ok : bool; res_data : result (option string) }.

(** Errors and what they hold, as in [ErrorGraph], with the fields the search of ccipread.ts
    follows; [EvOther] is an array or another value that is neither a string nor an object. *)
Inductive ErrValue : Type :=
| EvUndefined | EvNull | EvString (s : string) | EvObject (ref : nat) | EvOther.
#[export] Instance ErrValue_eq_dec : EqDecision ErrValue.
Proof. solve_decision. Defined.
(** The fields [data], [error], [cause], [details] and [info], in this order. *)
Notation err_heap := (list (list ErrValue)).

Class RelayerWorld : Type := {
  (** the configuration of chains *)
  r_getChainName : Z -> result string;
  r_hasNumericChainId : Z -> result bool;
  r_getProvider : Z -> result unit;
  r_getSigner : Z -> result unit;
  (** parsing of logs and errors *)
  r_parseInsertion : Log -> result (string * Z);
  r_parseL2ToL1 : Log -> option ArbEvent;
  r_parseError : string -> result ParsedError;
  (** calls, by the number of calls made before *)
  r_getSignerAddress : nat -> Z -> result string;
  r_getAnnouncedStorageLocations : nat -> string -> list string -> result (list (list string));
  r_getValidator : nat -> string -> result unit;
  r_getCheckpoint : nat -> string -> Z -> result (option S3CheckpointWithId);
  r_late : nat -> bool;
  r_deriveIsmConfig : nat -> Z -> string -> result Ism;
  r_route : nat -> Z -> string -> string -> result string;
  r_module : nat -> Z -> string -> Z -> result string;
  r_isVerified : nat -> Z -> string -> string -> result bool;
  r_arbStatus : nat -> Json -> ArbEvent -> result ArbStatus;
  r_getFirstExecutableBlock : nat -> result (option Z);
  r_getBlockNumber : nat -> result Z;
  r_getOutboxProof : nat -> result (option (list string));
  r_getOffchainVerifyInfo : nat -> Z -> string -> string -> option (exn * (err_heap * ErrValue));
  r_fetch : nat -> string -> option (string * string) -> result FetchResponse
}.

(** ** State *)

(** The validators of each chain, as the storage locations they are read from; [None] for one
    that could not be initialized. *)
Record BuilderState : Type := {
  validatorCache : list (string * list (string * option string));
  world_calls : nat
}.

Notation build_eff := (eff BuilderState).

Section builder.
Context `{AddressLibs} `{Signatures} `{AbiCoder} `{RelayerWorld}.

Definition ask_world {A} (answer : nat -> A) : build_eff A := fun s =>
  ({| validatorCache := validatorCache s; world_calls := S (world_calls s) |},
   Ok (answer (world_calls s))).
Definition call_world {A} (answer : nat -> result A) : build_eff A := r ← ask_world answer; lift r.

(** [bytes32ToAddress] of utils/src/addresses.ts. *)
Definition bytes32ToAddress (bytes32 : string) : result string :=
  al_getAddress (String.substring (String.length bytes32 - 40) 40 bytes32).

Definition eqAddressEvm (a1 a2 : string) : bool :=
  String.eqb (normalizeAddressEvm a1) (normalizeAddressEvm a2).

(** ** metadata/null.ts *)

Definition NULL_METADATA : string := "0x".

Definition null_build (context : MetadataContext) (type : IsmType) (address relayer : string)
    : build_eff BuildResult :=
  _ ← (if bool_decide (type = TRUSTED_RELAYER) then
         destinationSigner ← call_world (fun k =>
           r_getSignerAddress k (destination (dm_parsed (mc_message context))));
         lift (js_assert (eqAddress destinationSigner relayer)
                 "Destination signer does not match trusted relayer")
       else mret ());
  mret (NullResult type address NULL_METADATA).

(** ** metadata/multisig.ts *)

Section multisig.
Context (originChain : string).

Definition chain_cache (s : BuilderState) : list (string * option string) :=
  default [] (map_get originChain (validatorCache s)).
Definition set_validator (v : string) (location : option string) (s : BuilderState) : BuilderState := {|
  validatorCache := map_set originChain (map_set v location (chain_cache s)) (validatorCache s);
  world_calls := world_calls s |}.

(** The last announced location of one validator; an empty one does not count. *)
Definition latest_validator (locations : list string) : build_eff string :=
  match last locations with
  | None | Some EmptyString => throw (Error "No storage location announced for validator")
  | Some latestLocation => _ ← call_world (fun k => r_getValidator k latestLocation); mret latestLocation
  end.

Definition checkpointValidators (validators : list string) : build_eff (list (option string)) :=
  cache ← gets chain_cache;
  let toFetch := filter (fun v => map_has v cache = false) validators in
  _ ← modify (fun s => {| validatorCache := map_set originChain cache (validatorCache s);
                          world_calls := world_calls s |});
  _ ← (if (0 <? length toFetch)%nat then
         storageLocations ← call_world (fun k => r_getAnnouncedStorageLocations k originChain toFetch);
         fetched ← mapM (fun locations => settled (latest_validator locations)) storageLocations;
         for_each (fun '(i, v) =>
             modify (set_validator v match fetched !! i with Some (Ok l) => Some l | _ => None end))
           (imap pair toFetch)
       else mret ());
  gets (fun s => (fun v => map_get v (chain_cache s) ≫= id) <$> validators).

End multisig.

(** What is known of the checkpoint of each validator. *)
Definition fetchValidatorCheckpoints (validators : list string) (m : Match)
    : build_eff (list (result (option S3CheckpointWithId))) :=
  originChain ← lift (r_getChainName (m_origin m));
  checkpointValidators ← checkpointValidators originChain validators;
  mapM (fun i => settled
      match checkpointValidators !! i ≫= id with
      | None => throw (Error "No valid storage location for validator")
      | Some validator => call_world (fun k => r_getCheckpoint k validator (m_index m))
      end) (seq 0 (length validators)).

Definition checkpointMatches (c : S3CheckpointWithId) (m : Match) : result bool :=
  hook ← bytes32ToAddress (cp_merkle_tree_hook_address (checkpoint c));
  Ok (eqAddress hook (m_merkleTree m) &&
      String.eqb (message_id c) (m_messageId m) &&
      (cp_index (checkpoint c) =? m_index m) &&
      (mailbox_domain (checkpoint c) =? m_origin m)).

(** The status of one validator, and its checkpoint if it matches. *)
Definition validator_status (fetched : result (option S3CheckpointWithId)) (m : Match)
    : result (ValidatorStatus * option Checkpoint) :=
  match fetched with
  | Throw e => Ok (Failed e, None)
  | Ok None => Ok (Pending, None)
  | Ok (Some c) =>
      matches ← checkpointMatches c m;
      Ok (if (matches : bool)
          then (Signed (signature c) (cp_index (checkpoint c)), Some (checkpoint c))
          else (Pending, None))
  end.

Definition getValidatorInfos (validators : list string) (m : Match)
    : build_eff (list ValidatorInfo * option Checkpoint) :=
  fetched ← fetchValidatorCheckpoints validators m;
  statuses ← lift (mapM (fun f => validator_status f m) fetched);
  mret (zip_with (fun v s => {| vi_address := v; vi_status := fst s |}) validators statuses,
        head (omap snd statuses)).

(** The signatures of the validators that have signed, in the order of the validators. *)
Definition signatures_of_infos (infos : list ValidatorInfo) : list SignatureLike :=
  omap (fun v => match vi_status v with Signed s _ => Some s | _ => None end) infos.

Definition md_checkpoint (c : Checkpoint) : MdCheckpoint := {|
  root := cp_root c; index := cp_index c;
  merkle_tree_hook_address := cp_merkle_tree_hook_address c |}.

(** The insertion of the message into the merkle tree, among the logs of the dispatch. *)
Definition matching_insertion (context : MetadataContext) (merkleTree : string) : result Z :=
  events ← mapM r_parseInsertion
    (filter (fun log => eqAddressEvm (log_address log) merkleTree = true) (mc_logs context));
  match List.find (fun e => String.eqb (fst e) (dm_id (mc_message context))) events with
  | Some e => Ok (snd e)
  | None => Throw (Error "No merkle tree insertion found in dispatch tx")
  end.

(** The metadata of a quorum of signatures, if there is one. *)
Definition multisig_metadata (threshold : nat) (infos : list ValidatorInfo)
    (checkpoint : option Checkpoint) : result (option string) :=
  let signatures := signatures_of_infos infos in
  match checkpoint with
  | Some checkpoint =>
      if (threshold <=? length signatures)%nat then
        Some <$> Multisig.encode
          (MessageIdMultisig (md_checkpoint checkpoint) (take threshold signatures))
      else Ok None
  | None => Ok None
  end.

Definition multisig_build (context : MetadataContext) (type : IsmType) (address : string)
    (validators : list string) (threshold : nat) (merkleTree : string) : build_eff BuildResult :=
  _ ← lift (js_assert (bool_decide (type = MESSAGE_ID_MULTISIG \/ type = STORAGE_MESSAGE_ID_MULTISIG))
              "Merkle proofs are not yet supported");
  checkpointIndex ← lift (matching_insertion context merkleTree);
  '(validatorInfos, checkpoint) ← getValidatorInfos validators
    {| m_origin := origin (dm_parsed (mc_message context)); m_merkleTree := merkleTree;
       m_messageId := dm_id (mc_message context); m_index := checkpointIndex |};
  metadata ← lift (multisig_metadata threshold validatorInfos checkpoint);
  mret (MultisigResult type address threshold validatorInfos checkpointIndex metadata).

(** ** metadata/aggregation.ts *)

(** All but the first [threshold] metadata are left out. *)
Fixpoint keep_first (threshold : nat) (metadatas : list (option string)) : list (option string) :=
  match metadatas with
  | [] => []
  | None :: rest => None :: keep_first threshold rest
  | Some m :: rest =>
      match threshold with
      | O => None :: keep_first O rest
      | S n => Some m :: keep_first n rest
      end
  end.

Definition aggregation_metadata (threshold : nat) (moduleResults : list BuildResult)
    : result (option string) :=
  let buildableCount := length (filter (fun r => isMetadataBuildable r = true) moduleResults) in
  if (threshold <=? buildableCount)%nat then
    Some <$> Aggregation.encode (keep_first threshold (result_metadata <$> moduleResults))
  else Ok None.

(** What is noted of one submodule: its result, if it came in time. *)
Definition module_result (module : Ism) (built : result BuildResult) (late : bool) : BuildResult :=
  match built, late with
  | Ok r, false => r
  | _, _ => Unbuilt (ism_type module) (ism_address module)
  end.

(** [base] is the builder of submodules at the depth that is left. *)
Definition aggregation_build (base : MetadataContext -> build_eff BuildResult)
    (context : MetadataContext) (maxDepth : nat) (type : IsmType) (address : string)
    (threshold : nat) (modules : list Ism) : build_eff BuildResult :=
  if (maxDepth <=? 0)%nat then mret (AggregationResult type address threshold [] None)
  else
    moduleResults ← mapM (fun module =>
        built ← settled (base (with_ism module context));
        late ← ask_world r_late;
        mret (module_result module built late)) modules;
    metadata ← lift (aggregation_metadata threshold moduleResults);
    mret (AggregationResult type address threshold moduleResults metadata).

(** ** metadata/routing.ts *)

Definition isDynamicallyRoutedIsmType (type : IsmType) : bool :=
  bool_decide (type ∈ [AMOUNT_ROUTING; INTERCHAIN_ACCOUNT_ROUTING; MAILBOX_DEFAULT]).

(** The module of a domain; an empty address does not count as one. *)
Definition enrolled (originChain : string) (domains : option (list (string * Ism))) : option Ism :=
  match domains ≫= map_get originChain with
  | Some (IsmAddress EmptyString) | None => None
  | Some ism => Some ism
  end.

Definition routing_build (base : MetadataContext -> build_eff BuildResult)
    (context : MetadataContext) (type : IsmType) (address : string)
    (domains : option (list (string * Ism))) : build_eff BuildResult :=
  let message := mc_message context in
  originChain ← lift (r_getChainName (origin (dm_parsed message)));
  let dest := destination (dm_parsed message) in
  _ ← lift (r_getProvider dest);
  let select (ism : Ism) : build_eff BuildResult :=
    selectedIsmResult ← base (with_ism ism context);
    mret (RoutingResult type address originChain selectedIsmResult
            (result_metadata selectedIsmResult)) in
  let deriveAndRecurse (moduleAddress : string) : build_eff BuildResult :=
    nextConfig ← call_world (fun k => r_deriveIsmConfig k dest moduleAddress);
    select nextConfig in
  if isDynamicallyRoutedIsmType type then
    moduleAddr ← call_world (fun k => r_route k dest address (dm_message message));
    deriveAndRecurse moduleAddr
  else
    match enrolled originChain domains with
    | Some ism => select ism
    | None =>
        if bool_decide (type = FALLBACK_ROUTING) then
          moduleAddr ← call_world (fun k => r_module k dest address (origin (dm_parsed message)));
          deriveAndRecurse moduleAddr
        else throw (Error "DefaultFallbackRoutingMetadataBuilder: unexpected ISM type")
    end.

(** ** metadata/arbL2ToL1.ts *)

Definition exn_message (e : exn) : string :=
  match e with Error m | TypeError m | RangeError m | SyntaxError m => m end.

Definition getWaitingBlocksUntilReady : build_eff Z :=
  firstBlock ← call_world r_getFirstExecutableBlock;
  match firstBlock with
  | None => throw (Error "No first executable block found")
  | Some firstBlock =>
      currentBlock ← call_world r_getBlockNumber;
      if firstBlock <? currentBlock then throw (Error "First executable block is in the past")
      else mret (firstBlock - currentBlock)
  end.

(** The event whose calldata has the message id. *)
Definition matching_event (context : MetadataContext) : option ArbEvent :=
  let id := String.substring 2 (String.length (dm_id (mc_message context)) - 2)
              (dm_id (mc_message context)) in
  List.find (fun e => negb (String.eqb (arb_data e) EmptyString) && includes id (arb_data e))
    (omap r_parseL2ToL1 (mc_logs context)).

Definition waiting_message (waitingPeriod : Z) : string :=
  "Arbitrum L2ToL1 message isn't ready for relay. Wait " +:+ pretty waitingPeriod +:+
  " blocks until the challenge period before relaying again.".

Definition buildArbitrumBridgeCalldata (context : MetadataContext)
    : build_eff (ArbEvent * list string) :=
  match matching_event context with
  | None => throw (Error "No matching L2ToL1Tx event found")
  | Some event =>
      numeric ← lift (r_hasNumericChainId (origin (dm_parsed (mc_message context))));
      if negb numeric then throw (Error "Invalid chainId")
      else
        status ← call_world (fun k => r_arbStatus k (mc_hook context) event);
        match status with
        | UNCONFIRMED =>
            waitingPeriod ← getWaitingBlocksUntilReady;
            throw (Error (waiting_message waitingPeriod))
        | EXECUTED => throw (Error "Arbitrum L2ToL1 message has already been executed")
        | CONFIRMED =>
            proof ← call_world r_getOutboxProof;
            mret (event, default [] proof)
        end
  end.

(** The first match of [/Wait (\d+) blocks/], as a number. *)
Fixpoint digits_of (s : string) (acc : Z) : Z * string :=
  match s with
  | String c s' =>
      if is_digit c then digits_of s' (acc * 10 + Z.of_nat (nat_of_ascii c - 48)) else (acc, s)
  | EmptyString => (acc, EmptyString)
  end.
Fixpoint blocks_match (s : string) : option Z :=
  let here :=
    match strip_prefix "Wait " s with
    | Some (String c _ as rest) =>
        if is_digit c then
          let '(n, after) := digits_of rest 0 in
          if String.prefix " blocks" after then Some n else None
        else None
    | _ => None
    end in
  match here, s with
  | Some n, _ => Some n
  | None, String _ s' => blocks_match s'
  | None, EmptyString => None
  end.

Definition arb_build (context : MetadataContext) (address : string) : build_eff BuildResult :=
  let message := mc_message context in
  _ ← lift (r_getSigner (destination (dm_parsed message)));
  verified ← call_world (fun k => r_isVerified k (destination (dm_parsed message)) address (dm_message message));
  if (verified : bool) then mret (ArbL2ToL1Result address Verified (Some "0x"))
  else try_catch
    ('(event, proof) ← buildArbitrumBridgeCalldata context;
     metadata ← lift (encodeArbL2ToL1Metadata event proof);
     mret (ArbL2ToL1Result address Confirmed (Some metadata)))
    (fun error =>
       let errorMessage := exn_message error in
       if includes "Wait" errorMessage && includes "blocks" errorMessage then
         mret (ArbL2ToL1Result address (Unconfirmed (blocks_match errorMessage)) None)
       else if includes "already been executed" errorMessage then
         mret (ArbL2ToL1Result address Executed None)
       else throw error).

(** ** metadata/ccipread.ts *)

(** [/^0x(?:[0-9a-fA-F]{2}){64,}$/]. *)
Definition is_revert_data (s : string) : bool :=
  match s with
  | String "0" (String "x" digits) =>
      string_all is_hex_digit digits && Nat.even (String.length digits) &&
      (128 <=? String.length digits)%nat
  | _ => false
  end.

Definition MAX_BFS_ITERATIONS : nat := 50.

(** The search through an error, of at most [iterations] turns. Values are told apart as a set
    does: strings by value, objects by reference. *)
Fixpoint extractRevertData (iterations : nat) (h : err_heap) (seen queue : list ErrValue)
    : option string :=
  match iterations, queue with
  | S n, candidate :: queue =>
      let falsy := match candidate with EvUndefined | EvNull | EvString EmptyString => true | _ => false end in
      if falsy || bool_decide (candidate ∈ seen) then extractRevertData n h seen queue
      else
        let seen := candidate :: seen in
        match candidate with
        | EvString s => if is_revert_data s then Some s else extractRevertData n h seen queue
        | EvObject ref =>
            extractRevertData n h seen
              (queue ++ filter (fun v => v <> EvUndefined) (default [] (h !! ref)))
        | _ => extractRevertData n h seen queue
        end
  | _, _ => None
  end.

(** [s.replace(pattern, text)]: the first occurrence. *)
Fixpoint replace_first (pattern text s : string) : string :=
  match strip_prefix pattern s with
  | Some rest => text +:+ rest
  | None => match s with
            | EmptyString => EmptyString
            | String c s' => String c (replace_first pattern text s')
            end
  end.

(** One address after the other, until one answers with data. A template with the data is asked
    with GET, another with a signed POST. *)
Fixpoint try_urls (dest : Z) (sender callDataHex : string) (urls : list string)
    : build_eff (option string) :=
  match urls with
  | [] => mret None
  | urlTemplate :: rest =>
      let url := replace_first "{data}" callDataHex (replace_first "{sender}" sender urlTemplate) in
      let body := if includes "{data}" urlTemplate then None else Some (sender, callDataHex) in
      res ← settled (call_world (fun k => r_fetch k url body));
      match res with
      | Throw _ => try_urls dest sender callDataHex rest
      | Ok res =>
          match res_data res with
          | Ok (Some data) =>
              if res_ok res then mret (Some (ensure0x data)) else try_urls dest sender callDataHex rest
          | _ => try_urls dest sender callDataHex rest
          end
      end
  end.

Definition ccip_build (context : MetadataContext) (address : string) : build_eff BuildResult :=
  let message := mc_message context in
  let dest := destination (dm_parsed message) in
  _ ← lift (r_getProvider dest);
  thrown ← ask_world (fun k => r_getOffchainVerifyInfo k dest address (dm_message message));
  let '(error, h, v) :=
    match thrown with
    | None => (Error "Expected OffchainLookup revert", [], EvOther)
    | Some (e, (h, v)) => (e, h, v)
    end in
  match extractRevertData MAX_BFS_ITERATIONS h [] [v] with
  | None => throw error
  | Some revertData =>
      parsed ← lift (r_parseError revertData);
      _ ← lift (js_assert (String.eqb (pe_name parsed) "OffchainLookup") "Unexpected error");
      _ ← lift (r_getSigner dest);
      metadata ← try_urls dest (pe_sender parsed) (pe_callData parsed) (pe_urls parsed);
      mret (CcipReadResult address (pe_urls parsed) metadata)
  end.

(** ** metadata/builder.ts *)

Fixpoint build (maxDepth : nat) (context : MetadataContext) : build_eff BuildResult :=
  match maxDepth with
  | O => throw (Error "Max depth reached")
  | S depth =>
      match mc_ism context with
      | IsmAddress _ => throw (Error "Unsupported ISM")
      | IsmConfig type address relayer validators threshold modules domains =>
          match type with
          | TRUSTED_RELAYER | TEST_ISM | OP_STACK | PAUSABLE | CCIP | RATE_LIMITED | BLACKLIST
          | NET_FLOW_RATE_LIMITED | DELAYED_FLOW_ROUTER => null_build context type address relayer
          | MERKLE_ROOT_MULTISIG | MESSAGE_ID_MULTISIG | STORAGE_MERKLE_ROOT_MULTISIG
          | STORAGE_MESSAGE_ID_MULTISIG =>
              match mc_hook context with
              | JText _ => throw (Error "Hook context must be an object (for multisig ISM)")
              | hook =>
                  merkleTreeHook ← lift (deepFind 10 hook);
                  match merkleTreeHook with
                  | None => throw (Error "Merkle tree hook context not found")
                  | Some merkleTree =>
                      multisig_build context type address validators threshold merkleTree
                  end
              end
          | ROUTING | FALLBACK_ROUTING | AMOUNT_ROUTING | INTERCHAIN_ACCOUNT_ROUTING
          | MAILBOX_DEFAULT => routing_build (build depth) context type address domains
          | AGGREGATION | STORAGE_AGGREGATION =>
              aggregation_build (build depth) context maxDepth type address threshold modules
          | ARB_L2_TO_L1 => arb_build context address
          | OFFCHAIN_LOOKUP => ccip_build context address
          | _ => throw (Error "Unsupported ISM")
          end
      end
  end.

End builder.
