(* ===== verification/BuilderFacts.v ===== *)
(** What the builders of ISM metadata guarantee: a multisig build survives validators that
    fail, and has metadata exactly for a quorum of matching signatures; and what a build of a
    tree of modules returns is decoded to the structure of the tree. *)
From Stdlib Require Import ZArith Lia String Ascii.
From stdpp Require Import base tactics list sets strings.
From S2P Require Import Prelude JsMap Addresses Token Bytes Messages AddressEq Metadata MetadataFacts.
From S2P Require Import MetadataBuilder Triples.

#[local] Open Scope Z_scope.

Section facts.
Context `{AddressLibs} `{Signatures} `{AbiCoder} `{RelayerWorld}.

(** ** Validators and checkpoints *)

(** A checkpoint that counts for a message. *)
Definition counts_for (m : Match) (c : S3CheckpointWithId) : bool :=
  bool_decide (checkpointMatches c m = Ok true).

(** What is reported of a validator. *)
Definition status_of (m : Match) (fetched : result (option S3CheckpointWithId)) : ValidatorStatus :=
  match fetched with
  | Throw e => Failed e
  | Ok None => Pending
  | Ok (Some c) => if counts_for m c then Signed (signature c) (cp_index (checkpoint c)) else Pending
  end.

(** The checkpoints that count, in the order of the validators. *)
Definition signed_checkpoints (m : Match) (fs : list (result (option S3CheckpointWithId)))
    : list S3CheckpointWithId :=
  omap (fun f => match f with Ok (Some c) => if counts_for m c then Some c else None | _ => None end) fs.

(** Metadata that ethers and [encode] can pack. *)
Record well_published (c : S3CheckpointWithId) : Prop := {
  wp_address : exists a, bytes32ToAddress (cp_merkle_tree_hook_address (checkpoint c)) = Ok a;
  wp_checkpoint : packable_checkpoint (md_checkpoint (checkpoint c));
  wp_root : hex_of 32 (cp_root (checkpoint c));
  wp_signature : exists h, joinSignature (signature c) = Ok h
}.

(** ethers joins a signature into 65 bytes, which it can split. *)
Definition joins : Prop := forall sig h, joinSignature sig = Ok h ->
  hex_of Multisig.SIGNATURE_LENGTH h /\ exists r s v, splitSignature h = Ok (r, s, v).

Lemma validator_status_eq m f st : validator_status f m = Ok st ->
  fst st = status_of m f /\
  snd st = match f with Ok (Some c) => if counts_for m c then Some (checkpoint c) else None | _ => None end.
Proof.
  destruct f as [[c|]|e]; cbn; [|by intros [= <-]..].
  unfold counts_for. by destruct (checkpointMatches c m) as [[]|e]; cbn; [intros [= <-]..|].
Qed.

(** The hook address of a checkpoint that was read, which may be none. *)
Definition hook_error (fetched : result (option S3CheckpointWithId)) : option exn :=
  match fetched with
  | Ok (Some c) =>
      match bytes32ToAddress (cp_merkle_tree_hook_address (checkpoint c)) with Throw e => Some e | Ok _ => None end
  | _ => None
  end.

(** The first checkpoint that is read with a hook address that is none stops the statuses. *)
Lemma statuses_run m fs :
  match head (omap hook_error fs) with
  | Some e => mapM (fun f => validator_status f m) fs = Throw e
  | None => exists sts, mapM (fun f => validator_status f m) fs = Ok sts
  end.
Proof.
  assert (forall f, hook_error f = None -> exists st, validator_status f m = Ok st) as Hok.
  { intros [[c|]|e]; cbn; [|by eexists..]. unfold checkpointMatches. destruct (bytes32ToAddress _); [by eexists|done]. }
  assert (forall f e, hook_error f = Some e -> validator_status f m = Throw e) as Hbad.
  { intros [[c|]|e] e'; cbn; [|done..]. unfold checkpointMatches. destruct (bytes32ToAddress _); [done|by intros [= ->]]. }
  induction fs as [|f fs IH]; cbn; [by eexists|]. destruct (hook_error f) as [e|] eqn:E; cbn.
  - by rewrite (Hbad _ _ E).
  - destruct (Hok _ E) as [st ->]. cbn. destruct (head (omap hook_error fs)); [by rewrite IH|].
    destruct IH as [sts ->]. by eexists.
Qed.

Lemma statuses_eq m fs sts : mapM (fun f => validator_status f m) fs = Ok sts ->
  fst <$> sts = status_of m <$> fs /\
  omap snd sts = checkpoint <$> signed_checkpoints m fs /\
  omap (fun st => match fst st with Signed s _ => Some s | _ => None end) sts =
    signature <$> signed_checkpoints m fs.
Proof.
  intros Hs%mapM_result_ok_inv. induction Hs as [|f st fs sts Hst _ (IH1 & IH2 & IH3)]; [done|].
  apply validator_status_eq in Hst as [E1 E2]. destruct st as [st oc]; cbn [fst snd] in *. subst.
  unfold signed_checkpoints in *.
  destruct f as [[c|]|e]; cbn; [|by rewrite IH1, IH2, IH3..].
  destruct (counts_for m c); cbn; by rewrite IH1, IH2, IH3.
Qed.

(** ** Fetching *)

(** Every checkpoint that is looked at was read from the storage of some validator. *)
Definition read_from (i : Z) (f : result (option S3CheckpointWithId)) : Prop :=
  forall c, f = Ok (Some c) -> exists k v, r_getCheckpoint k v i = Ok (Some c).

Lemma fetch_run validators m s :
  wp (fetchValidatorCheckpoints validators m) (fun _ r => forall fs, r = Ok fs ->
    length fs = length validators /\ Forall (read_from (m_index m)) fs) s.
Proof.
  unfold fetchValidatorCheckpoints. apply wp_bind, wp_lift; [intros chain _|done].
  apply wp_bind. eapply wp_mono; [exact (I : wp _ (fun _ _ => True) s)|].
  intros s1 [cvs|e] _; [|done].
  eapply wp_mono; [apply (wp_mapM (fun _ => True) (fun _ f => read_from (m_index m) f)); [done|]|].
  - intros i s2 _ _. apply wp_settled.
    destruct (cvs !! i ≫= id) as [v|].
    + unfold wp, call_world, ask_world. cbn. split; [done|]. eexists. split; [done|].
      intros c Hc. exists (world_calls s2), v. exact Hc.
    + apply wp_throw. split; [done|]. by eexists.
  - intros s2 r [_ (fs & -> & HR)] fs' [= <-]. split.
    + apply Forall2_length in HR. by rewrite length_seq in HR.
    + apply Forall_forall. intros f [i Hf]%list_elem_of_lookup.
      by destruct (Forall2_lookup_r _ _ _ _ _ HR Hf) as (? & _ & ?).
Qed.

Lemma mapM_settled_ok {A B S} (f : A -> eff S B) xs s :
  exists s' ys, mapM (fun x => settled (f x)) xs s = (s', Ok ys).
Proof.
  revert s. induction xs as [|x xs IH]; intros s; [by eexists _, _|].
  destruct (IH (fst (f x s))) as (s' & ys & E). exists s', (snd (f x s) :: ys).
  cbn. rewrite (eff_bind_ok _ _ s (fst (f x s)) (snd (f x s))) by done.
  by rewrite (eff_bind_ok _ _ _ _ _ E).
Qed.

Lemma for_each_modify {A S} (f : A -> S -> S) xs s :
  exists s', for_each (fun x => modify (f x)) xs s = (s', Ok ()).
Proof. revert s. induction xs as [|x xs IH]; intros s; [by eexists|apply IH]. Qed.

(** Validators that have announced nothing, and storage that cannot be read, do not stop the
    others; only the question for what was announced does, when it is not answered. *)
Lemma fetch_cases validators m chain s :
  r_getChainName (m_origin m) = Ok chain ->
  exists s' r, fetchValidatorCheckpoints validators m s = (s', r) /\
    ((exists fs, r = Ok fs) \/ exists k vs e, r_getAnnouncedStorageLocations k chain vs = Throw e /\ r = Throw e).
Proof.
  intros Hc. unfold fetchValidatorCheckpoints. rewrite eff_bind_run. unfold lift. rewrite Hc.
  assert (exists s' r, checkpointValidators chain validators s = (s', r) /\
    ((exists cvs, r = Ok cvs) \/ exists k vs e, r_getAnnouncedStorageLocations k chain vs = Throw e /\ r = Throw e))
    as (s1 & r & E & [[cvs ->]|(k & vs & e & Hk & ->)]).
  { unfold checkpointValidators. rewrite eff_bind_run. unfold gets at 1.
    rewrite eff_bind_run. unfold modify at 1. rewrite eff_bind_run.
    set (s0 := Build_BuilderState _ _). destruct (0 <? _)%nat; [|eexists _, _; split; [done|left; by eexists]].
    rewrite eff_bind_run. unfold call_world, ask_world. rewrite eff_bind_run. unfold lift.
    destruct (r_getAnnouncedStorageLocations (world_calls s0) chain _) as [ls|e] eqn:Els;
      [|eexists _, _; split; [done|right; by eexists _, _, _]].
    rewrite eff_bind_run.
    match goal with |- context [mapM _ ls ?s'] =>
      destruct (mapM_settled_ok latest_validator ls s') as (s2 & ys & ->) end.
    match goal with |- context [for_each ?f ?xs s2] =>
      assert (exists s3, for_each f xs s2 = (s3, Ok ())) as (s3 & ->) end;
      [|eexists _, _; split; [done|left; by eexists]].
    generalize (imap pair (filter (fun v => map_has v (chain_cache chain s) = false) validators)).
    intros xs. generalize s2. induction xs as [|[i v] xs IH]; intros s3; [by eexists|apply IH]. }
  - rewrite eff_bind_run, E. match goal with |- context [mapM ?f ?l s1] =>
      assert (exists s' fs, mapM f l s1 = (s', Ok fs)) as (s2 & fs & ->) by apply mapM_settled_ok end.
    eexists _, _. split; [done|left; by eexists].
  - rewrite eff_bind_run, E. eexists _, _. split; [done|right; by eexists _, _, _].
Qed.

(** ** Multisig *)

Lemma infos_eq (vs : list string) (sts : list (ValidatorStatus * option Checkpoint)) :
  length vs = length sts ->
  let infos := zip_with (fun v s => {| vi_address := v; vi_status := fst s |}) vs sts in
  vi_address <$> infos = vs /\ vi_status <$> infos = fst <$> sts /\
  signatures_of_infos infos =
    omap (fun st => match fst st with Signed s _ => Some s | _ => None end) sts.
Proof.
  revert sts. induction vs as [|v vs IH]; intros [|st sts] Hlen; try done.
  destruct (IH sts) as (I1 & I2 & I3); [by injection Hlen|]. unfold signatures_of_infos in *.
  cbn. rewrite I1, I2. split_and!; [done..|]. destruct (fst st); cbn; by rewrite I3.
Qed.

(** The validators of a run, the checkpoints fetched for them, and what is reported. *)
Record reported (validators : list string) (m : Match)
    (fs : list (result (option S3CheckpointWithId))) (infos : list ValidatorInfo) : Prop := {
  rp_length : length fs = length validators;
  rp_read : Forall (read_from (m_index m)) fs;
  rp_addresses : vi_address <$> infos = validators;
  rp_statuses : vi_status <$> infos = status_of m <$> fs;
  rp_signatures : signatures_of_infos infos = signature <$> signed_checkpoints m fs
}.

Lemma getValidatorInfos_run validators m s :
  wp (getValidatorInfos validators m) (fun _ r => forall infos cp, r = Ok (infos, cp) ->
    exists fs, reported validators m fs infos /\ cp = head (checkpoint <$> signed_checkpoints m fs)) s.
Proof.
  unfold getValidatorInfos. apply wp_bind. eapply wp_mono; [apply fetch_run|].
  intros s1 [fs|e] Hfs; [|done]. destruct (Hfs fs eq_refl) as [Hlen Hread].
  apply wp_bind, wp_lift; [intros sts Hsts|done]. apply wp_ret. intros infos cp [= <- <-].
  pose proof (mapM_result_length _ _ _ Hsts) as Hl.
  destruct (statuses_eq m fs sts Hsts) as (E1 & E2 & E3).
  destruct (infos_eq validators sts) as (I1 & I2 & I3); [congruence|].
  exists fs. split; [|by rewrite E2]. split; [done..|congruence|congruence].
Qed.

(** The metadata that is packed: the first matching checkpoint with the first [threshold]
    signatures. *)
Lemma multisig_metadata_eq t m fs infos :
  signatures_of_infos infos = signature <$> signed_checkpoints m fs ->
  multisig_metadata t infos (head (checkpoint <$> signed_checkpoints m fs)) =
  match signed_checkpoints m fs with
  | [] => Ok None
  | c :: rest =>
      if (t <=? length (c :: rest))%nat then
        Some <$> Multisig.encode (MessageIdMultisig (md_checkpoint (checkpoint c))
                   (take t (signature <$> c :: rest)))
      else Ok None
  end.
Proof.
  intros E. unfold multisig_metadata. rewrite E. destruct (signed_checkpoints m fs) as [|c rest]; [done|].
  cbn [fmap list_fmap head]. cbn [length]. by rewrite length_fmap.
Qed.

Definition published_well : Prop :=
  forall k v i c, r_getCheckpoint k v i = Ok (Some c) -> well_published c.

Lemma signed_read m fs c : Forall (read_from (m_index m)) fs -> c ∈ signed_checkpoints m fs ->
  counts_for m c = true /\ exists k v, r_getCheckpoint k v (m_index m) = Ok (Some c).
Proof.
  intros Hread Hc. apply list_elem_of_omap in Hc as (f & Hf & Hc).
  rewrite Forall_forall in Hread. specialize (Hread f Hf).
  destruct f as [[c'|]|e]; [|done..]. destruct (counts_for m c') eqn:E; [|done].
  injection Hc as ->. split; [done|]. by apply Hread.
Qed.

Lemma signatures_joined (cs : list S3CheckpointWithId) : joins ->
  Forall (fun c => exists h, joinSignature (signature c) = Ok h) cs ->
  exists hs ps, Forall2 signed_as (signature <$> cs) hs /\ mapM parts hs = Ok ps.
Proof.
  intros Hj. induction 1 as [|c cs [h Hh] _ (hs & ps & Hs & Hp)]; [by exists [], []|].
  destruct (Hj _ _ Hh) as (Hof & r & s & v & Hsplit).
  exists (h :: hs), (SigParts r s v :: ps). split; [by constructor|].
  cbn. assert (parts h = Ok (SigParts r s v)) as -> by (unfold parts; by rewrite Hsplit).
  cbn. by rewrite Hp.
Qed.

Lemma signed_well m fs : published_well -> Forall (read_from (m_index m)) fs ->
  Forall well_published (signed_checkpoints m fs).
Proof.
  intros Hw Hread. apply Forall_forall. intros c Hc.
  destruct (signed_read m fs c Hread Hc) as (_ & k & v & Hk). by eapply Hw.
Qed.

(** A quorum is packed, and read back. *)
Lemma quorum_decodes t type c rest : joins -> Forall well_published (c :: rest) ->
  type = MESSAGE_ID_MULTISIG \/ type = STORAGE_MESSAGE_ID_MULTISIG ->
  exists h bs hs ps,
    Multisig.encode (MessageIdMultisig (md_checkpoint (checkpoint c))
      (take t (signature <$> c :: rest))) = Ok h /\
    h = toHexString bs /\ bytes_ok bs /\
    Forall2 signed_as (take t (signature <$> c :: rest)) hs /\ mapM parts hs = Ok ps /\
    Multisig.decode h type = Ok (MessageIdMultisig (md_checkpoint (checkpoint c)) ps).
Proof.
  intros Hj Hall Ht. rewrite Forall_forall in Hall.
  destruct (signatures_joined (take t (c :: rest)) Hj) as (hs & ps & Hsig & Hps).
  { apply Forall_forall. intros c' Hc'. apply elem_of_take in Hc' as (i & Hi & _).
    apply wp_signature, Hall. by eapply list_elem_of_lookup_2. }
  rewrite <- fmap_take.
  destruct (Hall c ltac:(set_solver)) as [_ Hcp Hroot _].
  destruct (decode_encode_multisig
    (MessageIdMultisig (md_checkpoint (checkpoint c)) (signature <$> take t (c :: rest))) type hs)
    as (h & bs & He & Hh & Hok & Hd & _); [done|done|done|].
  exists h, bs, hs, ps. split_and!; try done. rewrite Hd, Hps. done.
Qed.

End facts.

(** C29: A multisig build for a message whose insertion is found, of a chain that is known, ends in one of
    these ways. It throws if what validators have announced cannot be asked for, or if a checkpoint is read
    whose hook address is none, with the error of the first of these. Otherwise it returns whatever
    validators do: those that announced nothing, cannot be read, or have signed something else are reported
    as failed or pending and do not stop the others. There is metadata exactly when at least [threshold]
    checkpoints (and one) match the message: the first matching checkpoint packed with the first [threshold]
    of their signatures. Where these can be packed the metadata decodes to just that; where not the build
    throws. *)
Theorem multisig_build_spec `{AddressLibs} `{Signatures} `{RelayerWorld}
    context type address validators threshold merkleTree idx chain s :
  let m := {| m_origin := origin (dm_parsed (mc_message context)); m_merkleTree := merkleTree;
              m_messageId := dm_id (mc_message context); m_index := idx |} in
  joins ->
  type = MESSAGE_ID_MULTISIG \/ type = STORAGE_MESSAGE_ID_MULTISIG ->
  matching_insertion context merkleTree = Ok idx ->
  r_getChainName (m_origin m) = Ok chain ->
  exists s' out, multisig_build context type address validators threshold merkleTree s = (s', out) /\
    ((exists k vs e, r_getAnnouncedStorageLocations k chain vs = Throw e /\ out = Throw e) \/
     exists fs, length fs = length validators /\ Forall (read_from idx) fs /\
       match head (omap hook_error fs) with
       | Some e => out = Throw e
       | None => exists infos, reported validators m fs infos /\
           let returned := MultisigResult type address threshold infos idx in
           match signed_checkpoints m fs with
           | [] => out = Ok (returned None)
           | c :: rest =>
               if (threshold <=? length (c :: rest))%nat then
                 out = returned ∘ Some <$> Multisig.encode
                   (MessageIdMultisig (md_checkpoint (checkpoint c)) (take threshold (signature <$> c :: rest))) /\
                 (Forall well_published (c :: rest) -> exists h hs ps, out = Ok (returned (Some h)) /\
                    Forall2 signed_as (take threshold (signature <$> c :: rest)) hs /\ mapM parts hs = Ok ps /\
                    Multisig.decode h type = Ok (MessageIdMultisig (md_checkpoint (checkpoint c)) ps))
               else out = Ok (returned None)
           end
       end).
Proof.
  intros m Hj Ht Hi Hc. unfold multisig_build.
  rewrite eff_bind_run. unfold lift at 1. rewrite bool_decide_true by done. cbn [js_assert].
  rewrite eff_bind_run. unfold lift at 1. rewrite Hi. fold m.
  pose proof (fetch_run validators m s) as Hread. unfold wp in Hread.
  pose proof (getValidatorInfos_run validators m s) as Hrun. unfold wp in Hrun. revert Hrun.
  destruct (fetch_cases validators m chain s Hc) as (s1 & r & Hfetch & [[fs ->]|(k & vs & e & Hk & ->)]); rewrite Hfetch in Hread.
  2: { intros _. exists s1, (Throw e). split; [|left; by exists k, vs, e].
       unfold getValidatorInfos. by rewrite !eff_bind_run, Hfetch. }
  destruct (Hread fs eq_refl) as [Hlen Hr]. pose proof (statuses_run m fs) as Hsts.
  assert (getValidatorInfos validators m s = (s1, sts ← mapM (fun f => validator_status f m) fs;
    Ok (zip_with (fun v st => {| vi_address := v; vi_status := fst st |}) validators sts, head (omap snd sts)))) as Hinfos.
  { unfold getValidatorInfos. rewrite (eff_bind_ok _ _ _ _ _ Hfetch), eff_bind_run. unfold lift. by destruct (mapM _ fs). }
  destruct (head (omap hook_error fs)) as [e|] eqn:Ehead.
  { intros _. exists s1, (Throw e). rewrite Hsts in Hinfos. split; [by rewrite eff_bind_run, Hinfos|].
    right. exists fs. by rewrite Ehead. }
  destruct Hsts as [sts Hsts]. rewrite Hsts in Hinfos. cbn in Hinfos. intros _.
  destruct (statuses_eq m fs sts Hsts) as (E1 & E2 & E3). pose proof (mapM_result_length _ _ _ Hsts) as Hl.
  destruct (infos_eq validators sts) as (I1 & I2 & I3); [congruence|].
  set (infos := zip_with _ validators sts) in *.
  assert (reported validators m fs infos) as Hrep by (split; [done..|congruence|congruence]).
  rewrite (eff_bind_ok _ _ _ _ _ Hinfos), eff_bind_run. unfold lift. rewrite E2.
  rewrite (multisig_metadata_eq threshold m fs infos (rp_signatures _ _ _ _ Hrep)).
  match goal with |- context [match ?md with Ok _ => _ | Throw e => _ end] =>
    set (packed := md); exists s1, (MultisigResult type address threshold infos idx <$> packed) end.
  split; [by destruct packed|right]. exists fs. rewrite Ehead. split_and!; [done..|]. exists infos. split; [done|].
  cbn zeta. subst packed. destruct (signed_checkpoints m fs) as [|c rest] eqn:Hs; [done|].
  destruct (threshold <=? _)%nat; [|done].
  split; [by destruct (Multisig.encode _)|]. intros Hw.
  destruct (quorum_decodes threshold type c rest Hj Hw Ht) as (h & bs & hs & ps & He & _ & _ & Hsig & Hps & Hd).
  exists h, hs, ps. by rewrite He.
Qed.

(** ** What is built is decoded *)

Definition is_address (ism : Ism) : Prop := ism_type ism = None.

(** The modules [decodeIsmMetadata] has a case for, down to their submodules. *)
Inductive decodable : Ism -> Prop :=
| decodable_null type a r vs n ms ds :
    type = TRUSTED_RELAYER \/ type = NET_FLOW_RATE_LIMITED \/ type = DELAYED_FLOW_ROUTER ->
    decodable (IsmConfig type a r vs n ms ds)
| decodable_multisig type a r vs n ms ds :
    type ∈ [MERKLE_ROOT_MULTISIG; MESSAGE_ID_MULTISIG; STORAGE_MERKLE_ROOT_MULTISIG;
            STORAGE_MESSAGE_ID_MULTISIG] ->
    decodable (IsmConfig type a r vs n ms ds)
| decodable_aggregation type a r vs n ms ds :
    type = AGGREGATION \/ type = STORAGE_AGGREGATION -> Z.of_nat (length ms) < 2 ^ 29 ->
    (forall m, m ∈ ms -> is_address m \/ decodable m) ->
    decodable (IsmConfig type a r vs n ms ds)
| decodable_routing a r vs n ms ds :
    (forall chain m, map_get chain ds = Some m -> is_address m \/ decodable m) ->
    decodable (IsmConfig ROUTING a r vs n ms (Some ds))
| decodable_default a r vs n ms ds : decodable (IsmConfig MAILBOX_DEFAULT a r vs n ms ds).

(** What an aggregation packs for its submodule [i]: its bytes, if fewer than [threshold] of those
    before it have metadata. *)
Definition packed_at (threshold : nat) (metas : list (option string)) (i : nat) : option bytes :=
  if (length (omap id (take i metas)) <? threshold)%nat then metas !! i ≫= included else None.

(** The structure of a result, as the structure of its metadata: of a multisig the first
    [threshold] signatures; of an aggregation exactly the first [threshold] submodules that have
    metadata; of a routing module the module of the origin. *)
Inductive reflects `{Signatures} (originChain : string)
    : Ism -> BuildResult -> StructuredMetadata -> Prop :=
| reflects_null ism type a m : reflects originChain ism (NullResult type a m) (NullMetadata ism)
| reflects_multisig ism type a t infos idx md c hs ps :
    index c = idx -> Forall2 signed_as (take t (signatures_of_infos infos)) hs ->
    mapM parts hs = Ok ps ->
    reflects originChain ism (MultisigResult type a t infos idx md)
      (StructuredMultisig (MessageIdMultisig c ps))
| reflects_aggregation type' a' r vs n ms ds type a t rs md sts :
    length rs = length ms -> length sts = length ms ->
    (forall i, (i < length ms)%nat -> packed_at t (result_metadata <$> rs) i = None ->
       sts !! i = Some None) ->
    (forall i m res bs, ms !! i = Some m -> rs !! i = Some res ->
       packed_at t (result_metadata <$> rs) i = Some bs ->
       exists st, sts !! i = Some (Some st) /\ reflects originChain m res st) ->
    reflects originChain (IsmConfig type' a' r vs n ms ds) (AggregationResult type a t rs md)
      (AggregationMetadata sts)
| reflects_routing a' r vs n ms ds type a res md ism st :
    map_get originChain ds = Some ism -> reflects originChain ism res st ->
    reflects originChain (IsmConfig ROUTING a' r vs n ms (Some ds))
      (RoutingResult type a originChain res md) (RoutingMetadata ROUTING originChain st)
| reflects_default a' r vs n ms ds type a res md raw :
    fromHexString raw = fromHexString md ->
    reflects originChain (IsmConfig MAILBOX_DEFAULT a' r vs n ms ds)
      (RoutingResult type a originChain res (Some md))
      (RoutingMetadata MAILBOX_DEFAULT originChain (RawMetadata raw)).

Lemma decodable_inv type a r vs n ms ds : decodable (IsmConfig type a r vs n ms ds) ->
  type ∈ [TRUSTED_RELAYER; NET_FLOW_RATE_LIMITED; DELAYED_FLOW_ROUTER] \/
  type ∈ [MERKLE_ROOT_MULTISIG; MESSAGE_ID_MULTISIG; STORAGE_MERKLE_ROOT_MULTISIG;
          STORAGE_MESSAGE_ID_MULTISIG] \/
  (type ∈ [AGGREGATION; STORAGE_AGGREGATION] /\ Z.of_nat (length ms) < 2 ^ 29 /\
     forall m, m ∈ ms -> is_address m \/ decodable m) \/
  (type = ROUTING /\ exists d, ds = Some d /\
     forall chain m, map_get chain d = Some m -> is_address m \/ decodable m) \/
  type = MAILBOX_DEFAULT.
Proof.
  inversion 1 as [? ? ? ? ? ? ? Ht|? ? ? ? ? ? ? Ht|? ? ? ? ? ? ? Ht Hlen Hms|? ? ? ? ? d Hd|]; subst.
  - left. destruct Ht as [->|[->| ->]]; set_solver.
  - by right; left.
  - right; right; left. split; [destruct Ht as [->| ->]; set_solver|done].
  - right; right; right; left. split; [done|]. by exists d.
  - by do 4 right.
Qed.

(** What is known of a type refutes the other cases. *)
Tactic Notation "decodable_cases" hyp(H) "as" ident(D) :=
  destruct (decodable_inv _ _ _ _ _ _ _ H) as [D|[D|[D|[D|D]]]];
  try (exfalso; clear -D; first [discriminate D|destruct D as [? _]; discriminate|
       destruct D as [D _]; set_solver|set_solver]; fail).

Lemma keep_first_lookup t ms i m : keep_first t ms !! i = Some (Some m) -> ms !! i = Some (Some m).
Proof.
  revert t i. induction ms as [|[x|] ms IH]; intros t i; [done|..]; cbn.
  - destruct t as [|t]; destruct i as [|i]; cbn; try done; apply IH.
  - destruct i as [|i]; cbn; [done|apply IH].
Qed.

Lemma keep_first_length t ms : length (keep_first t ms) = length ms.
Proof.
  revert t. induction ms as [|[x|] ms IH]; intros t; [done|..]; cbn;
    [destruct t; cbn|]; by rewrite IH.
Qed.

Lemma keep_first_at t ms i : (i < length ms)%nat ->
  included <$> keep_first t ms !! i = Some (packed_at t ms i).
Proof.
  revert t i. induction ms as [|[x|] ms IH]; intros t i Hi; cbn in Hi; [lia|..]; cbn.
  - destruct t as [|t], i as [|i]; cbn; try done; rewrite IH by lia; unfold packed_at; cbn; try done.
  - destruct i as [|i]; [by destruct t|]. cbn. by rewrite IH by lia.
Qed.

Lemma included_some meta bs : included meta = Some bs ->
  exists m, meta = Some m /\ bs = fromHexString m.
Proof. destruct meta as [[|c s]|]; try done. intros [= <-]. by eexists. Qed.

Lemma decode_domain_eq dec metadata chain ds ism :
  map_get chain ds = Some ism -> ~ is_address ism ->
  Routing.decode_domain dec metadata chain ds = dec ism metadata.
Proof.
  intros Hg Hn. induction ds as [|[k i] ds IH]; [done|]. cbn in *. destruct (decide (k = chain)); [|by apply IH].
  injection Hg as ->. by destruct ism.
Qed.

(** Canonical metadata is the same when it is packed as a submodule. *)
Lemma canonical bs m' : bytes_ok bs ->
  m' = toHexString bs \/ m' = toHexString (fromHexString (toHexString bs)) -> m' = toHexString bs.
Proof. intros Hok [->| ->]; [done|]. by rewrite fromHexString_toHexString. Qed.

Section decoded.
Context `{AddressLibs} `{Signatures} `{AbiCoder} `{RelayerWorld}.
Context (originChain : string) (Hjoins : joins) (Hwell : published_well)
  (Hchain : originChain <> EmptyString).

Notation decoder := (decodeIsmMetadata (Some originChain)).

(** The metadata of a result is decoded, as it is or as the range of an aggregation. *)
Definition decoded (ism : Ism) (r : BuildResult) : Prop :=
  forall m m', result_metadata r = Some m ->
    m' = m \/ m' = toHexString (fromHexString m) ->
    exists st, decoder ism m' = Ok st /\ reflects originChain ism r st.

(** What is known of the result of one module. *)
Definition built (ism : Ism) (r : BuildResult) : Prop :=
  (is_address ism -> result_metadata r = None) /\ (decodable ism -> decoded ism r).

Lemma multisig_decoded context type a r vs t ms ds mt s :
  wp (multisig_build context type a vs t mt) (fun _ res => forall x, res = Ok x ->
    decoded (IsmConfig type a r vs t ms ds) x) s.
Proof.
  unfold multisig_build. apply wp_bind, wp_lift; [|done].
  intros [] Ht%js_assert_ok%bool_decide_eq_true.
  apply wp_bind, wp_lift; [intros idx Hidx|done]. apply wp_bind.
  eapply wp_mono; [apply getValidatorInfos_run|]. intros s1 [[infos cp]|e] Hrun; [|done].
  destruct (Hrun infos cp eq_refl) as (fs & Hrep & ->).
  apply wp_bind, wp_lift; [intros md Hmd|done]. apply wp_ret. intros x [= <-].
  rewrite (multisig_metadata_eq t _ fs infos (rp_signatures _ _ _ _ Hrep)) in Hmd.
  intros m m' Hm Hm'. cbn in Hm. subst md.
  destruct (signed_checkpoints _ fs) as [|c rest] eqn:Hs; [done|].
  destruct (_ <=? _)%nat; [|done].
  pose proof (signed_well _ fs Hwell (rp_read _ _ _ _ Hrep)) as Hall. rewrite Hs in Hall.
  destruct (quorum_decodes t type c rest Hjoins Hall Ht)
    as (h & bs & hs & ps & He & -> & Hok & Hsig & Hps & Hd).
  rewrite He in Hmd. injection Hmd as <-. apply canonical in Hm' as ->; [|done].
  exists (StructuredMultisig (MessageIdMultisig (md_checkpoint (checkpoint c)) ps)). split.
  - cbn [decodeIsmMetadata]. destruct Ht as [-> | ->]; by rewrite Hd.
  - apply (reflects_multisig _ _ _ _ _ _ _ _ _ hs); [|by rewrite (rp_signatures _ _ _ _ Hrep), Hs|done].
    destruct (signed_read _ fs c (rp_read _ _ _ _ Hrep)) as [Hc _]; [rewrite Hs; set_solver|].
    unfold counts_for in Hc. apply bool_decide_eq_true in Hc. unfold checkpointMatches in Hc.
    apply result_bind_ok in Hc as (hook & _ & [= Hc]). cbn in *.
    rewrite !andb_true_iff, !Z.eqb_eq in Hc. tauto.
Qed.

Lemma submodules_decoded ms rs t h a r vs n ds type type' a' :
  type = AGGREGATION \/ type = STORAGE_AGGREGATION -> Z.of_nat (length ms) < 2 ^ 29 ->
  (forall m, m ∈ ms -> is_address m \/ decodable m) ->
  Forall2 built ms rs ->
  Aggregation.encode (keep_first t (result_metadata <$> rs)) = Ok h ->
  exists st bs, decoder (IsmConfig type a r vs n ms ds) h = Ok st /\ h = toHexString bs /\
    bytes_ok bs /\
    reflects originChain (IsmConfig type a r vs n ms ds) (AggregationResult type' a' t rs (Some h)) st.
Proof.
  intros Htype Hlen Hms Hbuilt He. pose proof (Forall2_length _ _ _ Hbuilt) as Hl.
  set (kept := keep_first t (result_metadata <$> rs)) in *.
  assert (length kept = length ms) as Lk by (subst kept; rewrite keep_first_length, length_fmap; done).
  apply encode_aggregation_inv in He as [Hp ->]; [|lia].
  assert (forall i m res bs, ms !! i = Some m -> rs !! i = Some res ->
    included <$> kept !! i = Some (Some bs) ->
    exists st, read_submodule decoder (m, Some (toHexString bs)) = Ok (Some st) /\
      decoder m (toHexString bs) = Ok st /\ ~ is_address m /\ reflects originChain m res st) as Hsub.
  { intros i m res bs Hm Hres Hk. destruct (kept !! i) as [meta|] eqn:Hki; [|done]. cbn in Hk.
    injection Hk as (x & -> & ->)%included_some. apply keep_first_lookup in Hki.
    rewrite list_lookup_fmap, Hres in Hki. cbn in Hki. injection Hki as Hx.
    destruct (Forall2_lookup_lr _ _ _ _ _ _ Hbuilt Hm Hres) as [Ha Hd].
    assert (~ is_address m) as Hna by (intros Hi; rewrite (Ha Hi) in Hx; done).
    destruct (Hms m) as [?|Hdec]; [by eapply list_elem_of_lookup_2|done|].
    destruct (Hd Hdec x (toHexString (fromHexString x)) Hx (or_intror eq_refl)) as (st & Est & Hst).
    exists st. split_and!; [|done..]. unfold read_submodule. cbn [snd fst].
    rewrite toHexString_eq by (unfold fromHexString; auto). cbn [included].
    rewrite <- toHexString_eq by (unfold fromHexString; auto).
    rewrite fromHexString_toHexString by (unfold fromHexString; auto).
    destruct m; [done|]. by rewrite Est. }
  destruct (mapM_result_total (read_submodule decoder) (zip ms kept)) as [sts Hsts].
  { intros [m meta] [i Hi]%list_elem_of_lookup. apply lookup_zip_Some in Hi as [Hm Hmeta].
    unfold read_submodule. cbn [fst snd]. destruct (included meta) as [bs|] eqn:Hinc; [|by eexists].
    destruct (lookup_lt_is_Some_2 rs i) as [res Hres]; [apply lookup_lt_Some in Hm; lia|].
    destruct (Hsub i m res bs Hm Hres) as (st & _ & Est & Hna & _); [by rewrite Hmeta; cbn; rewrite Hinc|].
    destruct m; [done|]. rewrite Est. by eexists. }
  exists (AggregationMetadata sts), (aggregation_bytes kept). split_and!.
  - cbn [decodeIsmMetadata].
    destruct Htype as [-> | ->]; rewrite decode_aggregation_eq, Hsts by done; done.
  - done.
  - apply aggregation_bytes_ok.
  - pose proof (mapM_result_length _ _ _ Hsts) as Lsts. rewrite length_zip in Lsts.
    apply mapM_result_ok_inv in Hsts.
    apply reflects_aggregation; [done|lia|..].
    + intros i Hlt Hi. apply (f_equal Some) in Hi. rewrite <- keep_first_at in Hi by (rewrite length_fmap; lia).
      fold kept in Hi. destruct (kept !! i) as [meta|] eqn:Hk; [|done]. cbn in Hi.
      injection Hi as Hi. destruct (lookup_lt_is_Some_2 ms i) as [m Hm]; [apply lookup_lt_Some in Hk; lia|].
      assert (zip ms kept !! i = Some (m, meta)) as Hz by by apply lookup_zip_Some.
      destruct (Forall2_lookup_l _ _ _ _ _ Hsts Hz) as (st & Hst & E).
      unfold read_submodule in E. cbn [snd] in E. rewrite Hi in E. by injection E as <-.
    + intros i m res bs Hm Hres Hi. apply (f_equal Some) in Hi.
      rewrite <- keep_first_at in Hi by (rewrite length_fmap; by eapply lookup_lt_Some). fold kept in Hi. destruct (kept !! i) as [meta|] eqn:Hk; [|done].
      assert (zip ms kept !! i = Some (m, meta)) as Hz by by apply lookup_zip_Some.
      destruct (Forall2_lookup_l _ _ _ _ _ Hsts Hz) as (st & Hst & E).
      destruct (Hsub i m res bs Hm Hres) as (st' & _ & Est & Hna & Hrefl); [by rewrite Hk|].
      cbn in Hi. injection Hi as Hi. unfold read_submodule in E. cbn [snd fst] in E. rewrite Hi in E.
      destruct m; [done|]. rewrite Est in E. injection E as <-. by exists st'.
Qed.

(** A routing module has the metadata of the module it selects. *)
Lemma routing_selects base context type a ds s :
  r_getChainName (origin (dm_parsed (mc_message context))) = Ok originChain ->
  (forall ism s', wp (base (with_ism ism context)) (fun _ res => forall x, res = Ok x -> built ism x) s') ->
  wp (routing_build base context type a ds) (fun _ res => forall x, res = Ok x ->
    exists res', x = RoutingResult type a originChain res' (result_metadata res') /\
      (type = ROUTING -> exists d ism, ds = Some d /\ map_get originChain d = Some ism /\ built ism res')) s.
Proof.
  intros Hc Hbase. unfold routing_build. cbv zeta.
  apply wp_bind, wp_lift; [intros oc Hoc|done]. rewrite Hc in Hoc. injection Hoc as <-.
  apply wp_bind, wp_lift; [intros [] _|done].
  assert (forall ism s', wp (selectedIsmResult ← base (with_ism ism context);
      mret (RoutingResult type a originChain selectedIsmResult (result_metadata selectedIsmResult)))
    (fun _ res => forall x, res = Ok x -> exists res',
       x = RoutingResult type a originChain res' (result_metadata res') /\ built ism res') s') as Hsel.
  { intros ism s'. apply wp_bind. eapply wp_mono; [apply Hbase|]. intros s1 [y|e] Hy; [|done].
    apply wp_ret. intros x [= <-]. exists y. split; [done|]. by apply Hy. }
  assert (forall (answer : nat -> result string) s', type <> ROUTING -> wp (moduleAddr ← call_world answer;
      nextConfig ← call_world (fun k => r_deriveIsmConfig k
        (destination (dm_parsed (mc_message context))) moduleAddr);
      selectedIsmResult ← base (with_ism nextConfig context);
      mret (RoutingResult type a originChain selectedIsmResult (result_metadata selectedIsmResult)))
    (fun _ res => forall x, res = Ok x -> exists res',
       x = RoutingResult type a originChain res' (result_metadata res') /\
       (type = ROUTING -> exists d ism, ds = Some d /\ map_get originChain d = Some ism /\ built ism res')) s')
    as Hder.
  { intros answer s' Ht. apply wp_bind. eapply wp_mono; [exact (I : wp _ (fun _ _ => True) s')|].
    intros s1 [addr|e] _; [|done]. apply wp_bind. eapply wp_mono; [exact (I : wp _ (fun _ _ => True) s1)|].
    intros s2 [cfg|e] _; [|done]. eapply wp_mono; [apply Hsel|]. intros s3 res Hres x Hx.
    destruct (Hres x Hx) as (res' & -> & _). by exists res'. }
  unfold isDynamicallyRoutedIsmType. case_bool_decide as Hdyn; [apply Hder; by intros ->; set_solver|].
  destruct (enrolled originChain ds) as [ism|] eqn:He.
  - eapply wp_mono; [apply Hsel|]. intros s1 res Hres x Hx. destruct (Hres x Hx) as (res' & -> & Hb).
    exists res'. split; [done|]. intros _. unfold enrolled in He.
    destruct ds as [d|]; [|done]. cbn in He. destruct (map_get originChain d) as [ism'|] eqn:Hg; [|done].
    exists d, ism'. split_and!; [done..|]. destruct ism' as [[|c ad]|]; [done| |]; by injection He as <-.
  - case_bool_decide as Hf; [apply Hder; by rewrite Hf|]. by apply wp_throw.
Qed.

Lemma routing_decoded base context type a r vs t ms ds s :
  type = ROUTING \/ type = MAILBOX_DEFAULT ->
  r_getChainName (origin (dm_parsed (mc_message context))) = Ok originChain ->
  (forall ism s', wp (base (with_ism ism context)) (fun _ res => forall x, res = Ok x -> built ism x) s') ->
  wp (routing_build base context type a ds) (fun _ res => forall x, res = Ok x ->
    decodable (IsmConfig type a r vs t ms ds) -> decoded (IsmConfig type a r vs t ms ds) x) s.
Proof.
  intros Htype Hc Hbase. eapply wp_mono; [by apply routing_selects|].
  intros s1 res Hres x Hx Hdec. destruct (Hres x Hx) as (res' & -> & Hrt). intros m m' Hm Hm'. cbn in Hm.
  destruct Htype as [-> | ->]; decodable_cases Hdec as D.
  - destruct D as (_ & d & -> & Hd). destruct (Hrt eq_refl) as (d' & ism & [= <-] & Hg & Ha & Hb).
    destruct (Hd originChain ism Hg) as [Hi|Hi]; [by rewrite (Ha Hi) in Hm|].
    destruct (Hb Hi m m' Hm Hm') as (st & Hst & Hrefl).
    exists (RoutingMetadata ROUTING originChain st). split; [|by eapply reflects_routing].
    cbn [decodeIsmMetadata]. unfold Routing.decode. destruct originChain as [|c oc] eqn:Eoc; [done|].
    rewrite (decode_domain_eq _ _ _ _ ism Hg), Hst; [done|]. intros Hia. by rewrite (Ha Hia) in Hm.
  - exists (RoutingMetadata MAILBOX_DEFAULT originChain (RawMetadata m')). split.
    + cbn [decodeIsmMetadata]. unfold Routing.decodeMailboxDefault. by destruct originChain.
    + rewrite Hm. apply reflects_default. destruct Hm' as [->| ->]; [done|].
      apply fromHexString_toHexString. apply buffer_from_hex_ok.
Qed.

Lemma null_decoded context type a r vs t ms ds s :
  type ∈ [TRUSTED_RELAYER; NET_FLOW_RATE_LIMITED; DELAYED_FLOW_ROUTER] ->
  wp (null_build context type a r) (fun _ res => forall x, res = Ok x ->
    decoded (IsmConfig type a r vs t ms ds) x) s.
Proof.
  intros Ht. unfold null_build. apply wp_bind. eapply wp_mono; [exact (I : wp _ (fun _ _ => True) s)|].
  intros s1 [[]|e] _; [|done]. apply wp_ret. intros x [= <-] m m' _ _.
  exists (NullMetadata (IsmConfig type a r vs t ms ds)). split; [|constructor].
  cbn [decodeIsmMetadata]. by repeat (apply elem_of_cons in Ht as [->|Ht]; [done|]); apply elem_of_nil in Ht.
Qed.

Lemma wp_undecodable {A S} (m : eff S A) ism (P : A -> Prop) s : ~ decodable ism ->
  wp m (fun _ res => forall x, res = Ok x -> decodable ism -> P x) s.
Proof. intros Hn x _ Hd. by destruct (Hn Hd). Qed.

(** A module known by its address alone is never built. *)
Lemma address_not_built depth context s : is_address (mc_ism context) ->
  is_ok (snd (build depth context s)) = false.
Proof. destruct depth; [done|]. cbn. by destruct (mc_ism context). Qed.

Lemma build_decoded depth context s :
  r_getChainName (origin (dm_parsed (mc_message context))) = Ok originChain ->
  wp (build depth context) (fun _ res => forall x, res = Ok x -> built (mc_ism context) x) s.
Proof.
  revert context s. induction depth as [|depth IH]; intros context s Hc; [done|].
  destruct (mc_ism context) as [ad|type a r vs t ms ds] eqn:Hism.
  { pose proof (address_not_built (S depth) context s) as Hn. rewrite Hism in Hn.
    unfold wp. destruct (build (S depth) context s) as [s' [x|e]]; [|done]. by discriminate Hn. }
  cut (wp (build (S depth) context) (fun _ res => forall x, res = Ok x ->
    decodable (IsmConfig type a r vs t ms ds) -> decoded (IsmConfig type a r vs t ms ds) x) s).
  { intros Hw. eapply wp_mono; [exact Hw|]. intros s' res Hres x Hx. split; [done|by apply Hres]. }
  assert (forall s', wp (aggregation_build (build depth) context (S depth) type a t ms) (fun _ res =>
    forall x, res = Ok x -> decodable (IsmConfig type a r vs t ms ds) ->
    type = AGGREGATION \/ type = STORAGE_AGGREGATION -> decoded (IsmConfig type a r vs t ms ds) x) s') as Hagg.
  { intros s'. unfold aggregation_build. cbn [Nat.leb]. apply wp_bind.
    eapply wp_mono; [apply (wp_mapM (fun _ => True) built); [done|]|].
    - intros m s1 _ _. apply wp_bind, wp_settled.
      eapply wp_mono; [apply (IH (with_ism m context) s1 Hc)|]. intros s2 res Hres.
      apply wp_bind. unfold ask_world. unfold wp at 1. cbn [fst snd]. apply wp_ret.
      split; [done|]. eexists. split; [done|]. unfold module_result.
      destruct res as [x|e]; [destruct (r_late _)|]; [| |].
      + split; [done|]. by intros _ m0 m' ?.
      + apply Hres. done.
      + split; [done|]. by intros _ m0 m' ?.
    - intros s1 res [_ (rs & -> & Hbuilt)]. apply wp_bind, wp_lift; [intros md Hmd|done].
      apply wp_ret. intros x [= <-] Hdec Htype m m' Hm Hm'. cbn in Hm. subst md.
      unfold aggregation_metadata in Hmd. destruct (_ <=? _)%nat; [|done].
      apply result_fmap_ok in Hmd as (h & He & [= ->]).
      assert (Z.of_nat (length ms) < 2 ^ 29 /\ (forall m, m ∈ ms -> is_address m \/ decodable m)) as [Hlen Hms]
        by (destruct Htype as [-> | ->]; decodable_cases Hdec as D; by destruct D as [_ ?]).
      destruct (submodules_decoded ms rs t m a r vs t ds type type a Htype Hlen Hms Hbuilt He)
        as (st & bs & Hst & -> & Hok & Hrefl).
      apply canonical in Hm' as ->; [|done]. by exists st. }
  pose proof (fun Ht => routing_decoded (build depth) context type a r vs t ms ds s Ht Hc
    (fun ism s' => IH (with_ism ism context) s' Hc)) as Hrouting.
  cbn [build]. rewrite Hism. destruct type; try (by wp_step).
  all: lazymatch goal with
    | |- wp (aggregation_build _ _ _ _ _ _ _) _ _ =>
        eapply wp_mono; [apply Hagg|]; intros s' res Hres x Hx Hdec; apply (Hres x Hx Hdec); first [left; reflexivity|right; reflexivity]
    | |- wp (null_build _ ?t _ _) _ _ =>
        first [eapply wp_mono; [apply null_decoded; clear; set_solver|]; intros s' res Hres x Hx _; by apply Hres
              |apply wp_undecodable; intros Hdec; by decodable_cases Hdec as D]
    | |- wp (routing_build _ _ _ _ _) _ _ =>
        first [apply Hrouting; first [left; reflexivity|right; reflexivity]|apply wp_undecodable; intros Hdec; by decodable_cases Hdec as D]
    | |- wp (arb_build _ _) _ _ => apply wp_undecodable; intros Hdec; by decodable_cases Hdec as D
    | |- wp (ccip_build _ _) _ _ => apply wp_undecodable; intros Hdec; by decodable_cases Hdec as D
    | |- _ => idtac
    end.
  all: destruct (mc_hook context) as [| | | |fields]; try (by apply wp_throw).
  all: apply wp_bind, wp_lift; [intros [mt|] _; [|by apply wp_throw]|done].
  all: eapply wp_mono; [apply multisig_decoded|]; intros s' res Hres x Hx _; by apply Hres.
Qed.

End decoded.


(** ** A concrete build: an aggregation of a multisig of three validators, of which one is
    offline, and a trusted relayer, behind a routing module. *)
Module BuilderSample.
Import MetadataSample.

(** Signatures of 65 bytes only; the parts of a signature are itself. *)
#[local] Instance strict_signatures : Signatures := {|
  joinSignature := fun s =>
    match s with
    | SigHex h => if bool_decide (toHexString (fromHexString h) = h) &&
                     (length (fromHexString h) =? Multisig.SIGNATURE_LENGTH)%nat
                  then Ok h else Throw (Error "invalid signature")
    | SigParts _ _ _ => Throw (Error "parts")
    end;
  splitSignature := fun h => Ok (h, h, 27) |}.
#[local] Instance plain_addresses : AddressLibs := {|
  al_getAddress := fun a => if string_all is_hex_digit (strip0x a) && (String.length (strip0x a) =? 40)%nat
                            then Ok (ensure0x a) else Throw (Error "invalid address");
  al_publicKey := Ok; al_normalizeBech32 := Ok; al_validateStarknet := Ok |}.

Definition hook : string := "0x00000000000000000000000000000000000000aa".
Definition hook32 : string := "0x00000000000000000000000000000000000000000000000000000000000000aa".

Definition published (root b : Z) : S3CheckpointWithId := {|
  checkpoint := {| cp_root := hash root; cp_index := 7; mailbox_domain := 1;
                   cp_merkle_tree_hook_address := hook32 |};
  message_id := "0x1d"; signature := SigHex (packed_signature b) |}.

(** The three storage locations; what the third validator has published is a parameter. *)
Definition world (third : result (option S3CheckpointWithId)) : RelayerWorld := {|
  r_getChainName := fun d => if d =? 1 then Ok "ethereum"%string else Throw (Error "unknown");
  r_hasNumericChainId := fun _ => Ok true;
  r_getProvider := fun _ => Ok (); r_getSigner := fun _ => Ok ();
  r_parseInsertion := fun log => Ok (log_payload log, 7);
  r_parseL2ToL1 := fun _ => None;
  r_parseError := fun _ => Throw (Error "none");
  r_getSignerAddress := fun _ _ => Ok hook;
  r_getAnnouncedStorageLocations := fun _ _ vs => Ok ((fun v => [v]) <$> vs);
  r_getValidator := fun _ _ => Ok ();
  r_getCheckpoint := fun _ v i =>
    if negb (i =? 7) then Ok None
    else if String.eqb v "v1" then Ok (Some (published 1 8))
    else if String.eqb v "v2" then Throw (Error "offline")
    else third;
  r_late := fun _ => false;
  r_deriveIsmConfig := fun _ _ _ => Throw (Error "none");
  r_route := fun _ _ _ _ => Throw (Error "none"); r_module := fun _ _ _ _ => Throw (Error "none");
  r_isVerified := fun _ _ _ _ => Ok false; r_arbStatus := fun _ _ _ => Ok CONFIRMED;
  r_getFirstExecutableBlock := fun _ => Ok None; r_getBlockNumber := fun _ => Ok 0;
  r_getOutboxProof := fun _ => Ok None; r_getOffchainVerifyInfo := fun _ _ _ _ => None;
  r_fetch := fun _ _ _ => Throw (Error "none") |}.

#[local] Instance no_abi : AbiCoder := {|
  abi_encode := fun _ _ => Throw (Error "none"); abi_decode := fun _ _ => Throw (Error "none") |}.
#[local] Instance good_world : RelayerWorld := world (Ok (Some (published 1 9))).


Definition multisig_ism : Ism :=
  IsmConfig MESSAGE_ID_MULTISIG "0x1" "" ["v1"; "v2"; "v3"]%string 2 [] None.
Definition relayer_ism : Ism := IsmConfig TRUSTED_RELAYER "0x2" hook [] 0 [] None.
Definition aggregation_ism : Ism :=
  IsmConfig AGGREGATION "0x3" "" [] 2 [IsmAddress "0x9"; multisig_ism; relayer_ism; relayer_ism] None.
Definition routing_ism : Ism :=
  IsmConfig ROUTING "0x4" "" [] 0 [] (Some [("ethereum"%string, aggregation_ism)]).

Definition sample_context (ism : Ism) : MetadataContext := {|
  mc_message := {| dm_id := "0x1d"; dm_message := "0x00";
    dm_parsed := {| version := 3; nonce := 0; origin := 1; sender := "0x0"; destination := 2;
                    recipient := "0x0"; body := "0x" |};
    dm_originChain := Some "ethereum"%string; dm_destinationChain := None |};
  mc_logs := [{| log_address := "0x0"; log_payload := "other" |};
              {| log_address := hook; log_payload := "0x1d" |}];
  mc_ism := ism;
  mc_hook := JFields [("type"%string, JText "aggregationHook");
    ("hooks"%string, JArray [JText "0x5";
       JFields [("type"%string, JText "merkleTreeHook"); ("address"%string, JText hook)]])] |}.

Definition fresh : BuilderState := {| validatorCache := []; world_calls := 0 |}.

Lemma sample_joins : joins.
Proof.
  intros [h|r s v] h'; [|done]. cbn. case_bool_decide as Hh; [|done].
  destruct (Nat.eqb_spec (length (fromHexString h)) Multisig.SIGNATURE_LENGTH) as [Hl|]; [|done].
  intros [= <-]. split; [|by eexists _, _, _].
  exists (fromHexString h). split_and!; [apply buffer_from_hex_ok|done|done].
Qed.

Lemma sample_published b : byte_ok b -> well_published (published 1 b).
Proof.
  intros Hb. split.
  - exists hook. vm_compute. reflexivity.
  - split; [|cbn; lia]. exists (fromHexString hook32).
    split_and!; [apply buffer_from_hex_ok|reflexivity|vm_compute; reflexivity].
  - apply hex_of_replicate. unfold byte_ok. lia.
  - exists (packed_signature b). cbn. destruct (hex_of_replicate 65 b Hb) as (bs & Hok & Hl & E).
    unfold packed_signature. rewrite E, fromHexString_toHexString by done.
    by rewrite bool_decide_true, Hl.
Qed.

Lemma sample_published_well : published_well.
Proof.
  intros k v i c. cbn. destruct (negb (i =? 7)); [done|].
  destruct (String.eqb v "v1"); [|destruct (String.eqb v "v2"); [done|]];
    intros [= <-]; apply sample_published; unfold byte_ok; lia.
Qed.

Lemma sample_decodable : decodable routing_ism.
Proof.
  apply decodable_routing. intros chain m. cbn. case_decide; [|done]. intros [= <-]. right.
  apply decodable_aggregation; [by left|cbn; lia|].
  intros m Hm. rewrite !elem_of_cons, elem_of_nil in Hm.
  destruct Hm as [->|[->|[->|[->|[]]]]]; [by left|right..].
  - apply decodable_multisig. set_solver.
  - apply decodable_null. by left.
  - apply decodable_null. by left.
Qed.

Lemma multisig_build_spec_witness :
  let context := sample_context multisig_ism in
  let m := {| m_origin := 1; m_merkleTree := hook; m_messageId := "0x1d"; m_index := 7 |} in
  exists s' infos h c rest hs ps,
    multisig_build context MESSAGE_ID_MULTISIG "0x1" ["v1"; "v2"; "v3"]%string 2 hook fresh =
      (s', Ok (MultisigResult MESSAGE_ID_MULTISIG "0x1" 2 infos 7 (Some h))) /\
    (exists fs, reported ["v1"; "v2"; "v3"]%string m fs infos /\ signed_checkpoints m fs = c :: rest) /\
    Forall2 signed_as (take 2 (signature <$> c :: rest)) hs /\ mapM parts hs = Ok ps /\
    Multisig.decode h MESSAGE_ID_MULTISIG = Ok (MessageIdMultisig (md_checkpoint (checkpoint c)) ps).
Proof.
  intros context m.
  destruct (multisig_build_spec context MESSAGE_ID_MULTISIG "0x1" ["v1"; "v2"; "v3"]%string 2 hook 7 "ethereum" fresh
    sample_joins) as (s' & out & Hrun & Hcases).
  - by left.
  - vm_compute. reflexivity.
  - reflexivity.
  - assert (exists infos h, out = Ok (MultisigResult MESSAGE_ID_MULTISIG "0x1" 2 infos 7 (Some h))) as (infos & h & ->).
    { vm_compute in Hrun. injection Hrun as _ <-. eexists _, _. reflexivity. }
    destruct Hcases as [(k & vs & e & Hk & _)|(fs & _ & Hread & Hcases)]; [discriminate Hk|].
    destruct (head (omap hook_error fs)) as [e|]; [discriminate Hcases|].
    destruct Hcases as (infos' & Hrep & Hcases). destruct (signed_checkpoints _ fs) as [|c rest] eqn:Hs; [discriminate Hcases|].
    destruct (2 <=? length (c :: rest))%nat; [|discriminate Hcases]. destruct Hcases as [_ Hd].
    destruct Hd as (h' & hs & ps & [= -> <-] & Hsig & Hps & Hd).
    { rewrite <- Hs. by apply signed_well, Hread; apply sample_published_well. }
    exists s', infos', h, c, rest, hs, ps. split_and!; [exact Hrun|by exists fs|exact Hsig|exact Hps|exact Hd].
Defined.


(** Matching leaves the root out: a checkpoint with another root counts, and its signature is
    packed under the root of the first. *)
Lemma quorum_ignores_roots :
  result_metadata <$> snd (@build _ _ _ (world (Ok (Some (published 2 9)))) 10 (sample_context multisig_ism) fresh) =
  result_metadata <$> snd (build 10 (sample_context multisig_ism) fresh) /\
  exists h, result_metadata <$> snd (build 10 (sample_context multisig_ism) fresh) = Ok (Some h).
Proof. split; [vm_compute; reflexivity|]. eexists. vm_compute. reflexivity. Qed.

(** One published hook address that cannot be read stops the build, though another validator
    has signed and one is enough. *)
Definition unreadable : S3CheckpointWithId := {|
  checkpoint := {| cp_root := hash 1; cp_index := 7; mailbox_domain := 1;
                   cp_merkle_tree_hook_address := "0x12" |};
  message_id := "0x1d"; signature := SigHex (packed_signature 9) |}.
Lemma unreadable_checkpoint_stops_build :
  let ism := IsmConfig MESSAGE_ID_MULTISIG "0x1" "" ["v1"; "v3"]%string 1 [] None in
  snd (@build _ _ _ (world (Ok (Some unreadable))) 10 (sample_context ism) fresh) =
    Throw (Error "invalid address") /\
  exists h, result_metadata <$> snd (@build _ _ _ (world (Ok None)) 10 (sample_context ism) fresh) =
    Ok (Some h).
Proof. split; [vm_compute; reflexivity|]. eexists. vm_compute. reflexivity. Qed.

End BuilderSample.
