(* ===== verification/Relayer.v ===== *)
(** The relayer of messages, relayer/src/core: [HyperlaneRelayer.ts], [whitelist.ts] and
    [cache.ts]. [relayMessage] takes one message from its dispatch to its delivery, with the
    metadata of [MetadataBuilder]; the backlog is worked off by loops that run while dispatches
    come in, and is saved in a cache over restarts: [relayer_step]. What HyperlaneCore and the
    readers of the SDK answer is the class [RelayerCore]. *)
From Stdlib Require Import ZArith Lia String Ascii.
From stdpp Require Import base tactics list strings pretty.
From S2P Require Import Prelude JsMap Addresses Token Bytes Messages AddressEq Metadata MetadataBuilder.

#[local] Open Scope Z_scope.

Notation Receipt := string.

Class RelayerCore : Type := {
  c_messageId : string -> result string;
  c_isDelivered : nat -> DispatchedMessage -> result bool;
  c_getProcessedReceipt : nat -> DispatchedMessage -> result Receipt;
  c_estimateHandle : nat -> DispatchedMessage -> result unit;
  c_getRecipientIsmAddress : nat -> DispatchedMessage -> result string;
  c_getSenderHookAddress : nat -> DispatchedMessage -> result string;
  c_deriveIsmConfig : nat -> string -> string -> option DispatchedMessage -> result (option Ism);
  c_deriveHookConfig : nat -> string -> string -> option DispatchedMessage -> result (option Json);
  c_deliver : nat -> DispatchedMessage -> string -> result Receipt;
  c_getTransactionReceipt : nat -> Z -> string -> result (list Log);
  c_getDefaults : nat -> result (list (string * (string * string)))
}.

(** ** core/whitelist.ts *)

(** Addresses by chain; an empty set admits every address. *)
Notation MessageWhitelist := (list (string * list string)).

Section whitelist.
Context `{AddressLibs}.

(** One side of a message: the addresses of its chain are there, and are none or have it. *)
Definition side_matches (whitelist : MessageWhitelist) (chain : string) (address32 : string)
    : result bool :=
  match map_get chain whitelist with
  | None => Ok false
  | Some addresses =>
      address ← bytes32ToAddress address32;
      Ok (bool_decide (addresses = []) || bool_decide (address ∈ addresses))
  end.

Definition messageMatchesWhitelist (whitelist : MessageWhitelist) (m : DispatchedMessage)
    : result bool :=
  let parsed := dm_parsed m in
  sender_matches ← side_matches whitelist (default (pretty (origin parsed)) (dm_originChain m))
    (sender parsed);
  if (sender_matches : bool) then
    side_matches whitelist (default (pretty (destination parsed)) (dm_destinationChain m))
      (recipient parsed)
  else Ok false.

End whitelist.

(** ** State of the core *)

Inductive SkipReason : Type := ByWhitelist | AlreadyDelivered.
Inductive RelayerEvent : Type :=
| MessageRelayed (messageId : string)
| MessageFailed (messageId : string) (error : exn)
| MessageSkipped (messageId : string) (reason : SkipReason).

(** [cached] tells whether there is a cache; [deliveries] are the calls of [core.deliver]. *)
Record CoreState : Type := {
  builder : BuilderState;
  cached : bool;
  hook_cache : list (string * list (string * Json));
  ism_cache : list (string * list (string * Ism));
  core_calls : nat;
  deliveries : list (DispatchedMessage * string);
  events : list RelayerEvent
}.

Notation relay := (eff CoreState).

Section relayer.
Context `{AddressLibs} `{Signatures} `{AbiCoder} `{RelayerWorld} `{RelayerCore} `{Ethers}.
Context (whitelist : option MessageWhitelist).

Definition ask_core {A} (answer : nat -> A) : relay A := fun s =>
  ({| builder := builder s; cached := cached s; hook_cache := hook_cache s; ism_cache := ism_cache s;
      core_calls := S (core_calls s); deliveries := deliveries s; events := events s |},
   Ok (answer (core_calls s))).
Definition call_core {A} (answer : nat -> result A) : relay A := r ← ask_core answer; lift r.

Definition onEvent (e : RelayerEvent) : relay unit := modify (fun s =>
  {| builder := builder s; cached := cached s; hook_cache := hook_cache s; ism_cache := ism_cache s;
     core_calls := core_calls s; deliveries := deliveries s; events := events s ++ [e] |}).

Definition with_builder {A} (m : build_eff A) : relay A := fun s =>
  let '(b, r) := m (builder s) in
  ({| builder := b; cached := cached s; hook_cache := hook_cache s; ism_cache := ism_cache s;
      core_calls := core_calls s; deliveries := deliveries s; events := events s |}, r).

Definition deliver (m : DispatchedMessage) (metadata : string) : relay Receipt :=
  _ ← modify (fun s =>
        {| builder := builder s; cached := cached s; hook_cache := hook_cache s;
           ism_cache := ism_cache s; core_calls := core_calls s;
           deliveries := deliveries s ++ [(m, metadata)]; events := events s |});
  call_core (fun k => c_deliver k m metadata).

(** ** Configurations of hooks and ISMs, cached by chain *)

Definition set_hook (chain hook : string) (config : Json) (s : CoreState) : CoreState := {|
  builder := builder s; cached := cached s;
  hook_cache := if cached s
    then map_set chain (map_set hook config (default [] (map_get chain (hook_cache s)))) (hook_cache s)
    else hook_cache s;
  ism_cache := ism_cache s; core_calls := core_calls s; deliveries := deliveries s;
  events := events s |}.
Definition set_ism (chain key : string) (config : Ism) (s : CoreState) : CoreState := {|
  builder := builder s; cached := cached s; hook_cache := hook_cache s;
  ism_cache := if cached s
    then map_set chain (map_set key config (default [] (map_get chain (ism_cache s)))) (ism_cache s)
    else ism_cache s;
  core_calls := core_calls s; deliveries := deliveries s; events := events s |}.

Definition cached_hook (chain hook : string) (s : CoreState) : option Json :=
  if cached s then map_get chain (hook_cache s) ≫= map_get hook else None.
Definition cached_ism (chain key : string) (s : CoreState) : option Ism :=
  if cached s then map_get chain (ism_cache s) ≫= map_get key else None.

Definition getHookConfig (chain hook : string) (messageContext : option DispatchedMessage)
    : relay Json :=
  known ← gets (cached_hook chain hook);
  config ← match known with
           | Some config => mret (Some config)
           | None => call_core (fun k => c_deriveHookConfig k chain hook messageContext)
           end;
  match config with
  | None => throw (Error "Hook config not found")
  | Some config => _ ← modify (set_hook chain hook config); mret config
  end.

(** A configuration derived for a message is cached for that message alone. *)
Definition ism_key (ism : string) (messageContext : option DispatchedMessage) : string :=
  match messageContext with Some m => ism +:+ ":" +:+ dm_id m | None => ism end.

Definition getIsmConfig (chain ism : string) (messageContext : option DispatchedMessage)
    : relay Ism :=
  let cacheKey := ism_key ism messageContext in
  known ← gets (cached_ism chain cacheKey);
  config ← match known with
           | Some config => mret (Some config)
           | None => call_core (fun k => c_deriveIsmConfig k chain ism messageContext)
           end;
  match config with
  | None => throw (Error "ISM config not found")
  | Some config => _ ← modify (set_ism chain cacheKey config); mret config
  end.

Definition getSenderHookConfig (m : DispatchedMessage) : relay Json :=
  originChain ← lift (r_getChainName (origin (dm_parsed m)));
  hook ← call_core (fun k => c_getSenderHookAddress k m);
  getHookConfig originChain hook (Some m).

Definition getRecipientIsmConfig (m : DispatchedMessage) : relay Ism :=
  destinationChain ← lift (r_getChainName (destination (dm_parsed m)));
  ism ← call_core (fun k => c_getRecipientIsmAddress k m);
  getIsmConfig destinationChain ism (Some m).

(** ** One message *)

(** [{ originChain, destinationChain, ...message.parsed }]: names that are there stay. *)
Definition with_names (originChain destinationChain : string) (m : DispatchedMessage)
    : DispatchedMessage := {|
  dm_id := dm_id m; dm_message := dm_message m; dm_parsed := dm_parsed m;
  dm_originChain := Some (default originChain (dm_originChain m));
  dm_destinationChain := Some (default destinationChain (dm_destinationChain m)) |}.

(** The message, once the whitelist admits it. *)
Definition admit_message (originChain destinationChain : string) (m : DispatchedMessage)
    : relay DispatchedMessage :=
  match whitelist with
  | None => mret m
  | Some whitelist =>
      let m := with_names originChain destinationChain m in
      matches ← lift (messageMatchesWhitelist whitelist m);
      if (matches : bool) then mret m
      else _ ← onEvent (MessageSkipped (dm_id m) ByWhitelist);
           throw (Error "Message does not match whitelist")
  end.

(** [Promise.all] of the two configurations: the second is derived although the first fails. *)
Definition both_configs (m : DispatchedMessage) : relay (Ism * Json) :=
  ism ← settled (getRecipientIsmConfig m);
  hook ← settled (getSenderHookConfig m);
  lift (ism ← ism; hook ← hook; Ok (ism, hook)).

Definition default_depth : nat := 10.

Definition relay_undelivered (dispatchTx : list Log) (m : DispatchedMessage) : relay Receipt :=
  _ ← call_core (fun k => c_estimateHandle k m);
  '(ism, hook) ← both_configs m;
  metadataResult ← with_builder (build default_depth
    {| mc_message := m; mc_logs := dispatchTx; mc_ism := ism; mc_hook := hook |});
  match result_metadata metadataResult with
  | None => throw (Error "Unable to build metadata for message")
  | Some metadata =>
      receipt ← deliver m metadata;
      _ ← onEvent (MessageRelayed (dm_id m));
      mret receipt
  end.

Definition relayMessage (dispatchTx : list Log) (message : DispatchedMessage) : relay Receipt :=
  originChain ← lift (r_getChainName (origin (dm_parsed message)));
  destinationChain ← lift (r_getChainName (destination (dm_parsed message)));
  message ← admit_message originChain destinationChain message;
  isDelivered ← call_core (fun k => c_isDelivered k message);
  if (isDelivered : bool) then
    _ ← onEvent (MessageSkipped (dm_id message) AlreadyDelivered);
    call_core (fun k => c_getProcessedReceipt k message)
  else try_catch (relay_undelivered dispatchTx message)
    (fun error => _ ← onEvent (MessageFailed (dm_id message) error); throw error).

(** ** All messages of a transaction: by destination, those of one destination in order *)

Definition destinationMap (messages : list DispatchedMessage) : list (Z * list DispatchedMessage) :=
  js_sort (fun a b => fst a - fst b)
    (foldl (fun m message =>
       let d := destination (dm_parsed message) in
       map_set d (default [] (map_get d m) ++ [message]) m) [] messages).

Fixpoint relay_serially (dispatchTx : list Log) (messages : list DispatchedMessage)
    : relay (list Receipt) :=
  match messages with
  | [] => mret []
  | message :: rest =>
      relayed ← settled (relayMessage dispatchTx message);
      receipts ← relay_serially dispatchTx rest;
      mret (match relayed with Ok receipt => receipt :: receipts | Throw _ => receipts end)
  end.

Definition relayAll (dispatchTx : list Log) (messages : list DispatchedMessage)
    : relay (list (Z * list Receipt)) :=
  mapM (fun '(d, messages) => receipts ← relay_serially dispatchTx messages; mret (d, receipts))
    (destinationMap messages).

(** [hydrateDefaults], chain by chain. *)
Definition hydrateDefaults : relay unit :=
  caching ← gets cached;
  _ ← lift (js_assert caching "Caching not enabled");
  defaults ← call_core c_getDefaults;
  for_each (fun '(chain, (ism, hook)) =>
    _ ← getHookConfig chain hook None; _ ← getIsmConfig chain ism None; mret ()) defaults.

(** ** The backlog *)

Record BacklogMessage : Type := {
  attempts : nat; lastAttempt : Z; bm_message : string; bm_dispatchTx : string
}.

(** Where a loop of [flushBacklog] is: between messages, or awaiting one it has taken off the
    backlog. *)
Inductive Loop : Type := AtHead | Relaying (m : BacklogMessage).

(** Arrays are shared: [backlog] and [cache_backlog] are positions in the store of arrays.
    [running] is [stopRelayingHandler]; the events of loops are left out; [accepted] and [relayed] note the messages pushed for a
    dispatch and those whose [relayMessage] returned. *)
Record Relayer : Type := {
  arrays : list (list BacklogMessage);
  backlog : nat;
  cache_backlog : option nat;
  running : bool;
  loops : list Loop;
  core : CoreState;
  accepted : list (string * string);
  relayed : list (string * string)
}.

Definition contents (s : Relayer) (ref : nat) : list BacklogMessage := default [] (arrays s !! ref).
Definition same_message (m : BacklogMessage) : string * string := (bm_message m, bm_dispatchTx m).

(** [new HyperlaneRelayer]. *)
Definition new_core (caching : bool) : CoreState := {|
  builder := {| validatorCache := []; world_calls := 0 |}; cached := caching; hook_cache := [];
  ism_cache := []; core_calls := 0; deliveries := []; events := [] |}.
Definition new_relayer (caching : bool) : Relayer := {|
  arrays := [[]; []]; backlog := 0; cache_backlog := if caching then Some 1%nat else None;
  running := false; loops := []; core := new_core caching; accepted := []; relayed := [] |}.

(** A relayer that is given a saved cache, as every caller does right after its construction:
    merged into the empty cache it is the saved one. *)
Record RelayerCache : Type := {
  saved_hook : list (string * list (string * Json));
  saved_ism : list (string * list (string * Ism));
  saved_backlog : list BacklogMessage
}.

Definition hydrated_relayer (cache : RelayerCache) : Relayer := {|
  arrays := [[]; []; saved_backlog cache]; backlog := 0; cache_backlog := Some 2%nat;
  running := false; loops := [];
  core := {| builder := builder (new_core true); cached := true; hook_cache := saved_hook cache;
             ism_cache := saved_ism cache; core_calls := 0; deliveries := []; events := [] |};
  accepted := []; relayed := [] |}.

Definition start (s : Relayer) : result Relayer :=
  if running s then Throw (Error "Relayer already started")
  else Ok
    {| arrays := match cache_backlog s with Some _ => arrays s | None => arrays s ++ [[]] end;
       backlog := default (length (arrays s)) (cache_backlog s); cache_backlog := cache_backlog s;
       running := true; loops := loops s ++ [AtHead]; core := core s; accepted := accepted s;
       relayed := relayed s |}.

Definition stop (s : Relayer) : result Relayer :=
  if running s then Ok
    {| arrays := arrays s; backlog := backlog s;
       cache_backlog := match cache_backlog s with Some _ => Some (backlog s) | None => None end;
       running := false; loops := loops s; core := core s; accepted := accepted s;
       relayed := relayed s |}
  else Throw (Error "Relayer not started").

(** What [JSON.stringify(relayer.cache)] saves of the backlog. *)
Definition saved (s : Relayer) : list BacklogMessage :=
  match cache_backlog s with Some ref => contents s ref | None => [] end.

Definition set_contents (ref : nat) (ms : list BacklogMessage) (s : Relayer) : Relayer := {|
  arrays := <[ref := ms]> (arrays s); backlog := backlog s; cache_backlog := cache_backlog s;
  running := running s; loops := loops s; core := core s; accepted := accepted s;
  relayed := relayed s |}.
(** [this.backlog.push(m)]. *)
Definition push (m : BacklogMessage) (s : Relayer) : Relayer :=
  set_contents (backlog s) (contents s (backlog s) ++ [m]) s.
Definition set_loops (ls : list Loop) (s : Relayer) : Relayer := {|
  arrays := arrays s; backlog := backlog s; cache_backlog := cache_backlog s; running := running s;
  loops := ls; core := core s; accepted := accepted s; relayed := relayed s |}.
Definition set_core (c : CoreState) (s : Relayer) : Relayer := {|
  arrays := arrays s; backlog := backlog s; cache_backlog := cache_backlog s; running := running s;
  loops := loops s; core := c; accepted := accepted s; relayed := relayed s |}.
Definition note_accepted (x : string * string) (s : Relayer) : Relayer := {|
  arrays := arrays s; backlog := backlog s; cache_backlog := cache_backlog s; running := running s;
  loops := loops s; core := core s; accepted := accepted s ++ [x]; relayed := relayed s |}.
Definition note_relayed (x : string * string) (s : Relayer) : Relayer := {|
  arrays := arrays s; backlog := backlog s; cache_backlog := cache_backlog s; running := running s;
  loops := loops s; core := core s; accepted := accepted s; relayed := relayed s ++ [x] |}.

(** What the loop does with a message that is due: the [try] of [flushBacklog]. The id and the
    fields are read before it. *)
Definition dispatch_of (m : BacklogMessage) : result DispatchedMessage :=
  id ← c_messageId (bm_message m);
  parsed ← parseMessage (bm_message m);
  Ok {| dm_id := id; dm_message := bm_message m; dm_parsed := parsed; dm_originChain := None;
        dm_destinationChain := None |}.

Definition attempt (m : BacklogMessage) (d : DispatchedMessage) : relay Receipt :=
  dispatchReceipt ← call_core (fun k =>
    c_getTransactionReceipt k (origin (dm_parsed d)) (bm_dispatchTx m));
  relayMessage dispatchReceipt d.

Definition due (retryTimeout now : Z) (m : BacklogMessage) : Prop :=
  lastAttempt m + Z.of_nat (attempts m) * retryTimeout <= now.

(** The message of a dispatch event, with the names of its chains, if the whitelist admits it. *)
Definition accepts (message : string) : Prop :=
  exists id parsed o d,
    c_messageId message = Ok id /\ parseMessage message = Ok parsed /\
    r_getChainName (origin parsed) = Ok o /\ r_getChainName (destination parsed) = Ok d /\
    forall w, whitelist = Some w ->
      messageMatchesWhitelist w {| dm_id := id; dm_message := message; dm_parsed := parsed;
        dm_originChain := Some o; dm_destinationChain := Some d |} = Ok true.

(** The relayer as it runs. Dispatches come in at any time; a loop goes on between the calls it
    awaits; an attempt takes effect when it ends. *)
Inductive relayer_step (retryTimeout : Z) : Relayer -> Relayer -> Prop :=
| step_start s s' : start s = Ok s' -> relayer_step retryTimeout s s'
| step_stop s s' : stop s = Ok s' -> relayer_step retryTimeout s s'
| step_dispatch now message tx s :
    running s = true -> accepts message ->
    relayer_step retryTimeout s (note_accepted (message, tx)
      (push {| attempts := 0; lastAttempt := now; bm_message := message; bm_dispatchTx := tx |} s))
| step_ended i s :
    loops s !! i = Some AtHead -> running s = false ->
    relayer_step retryTimeout s (set_loops (delete i (loops s)) s)
| step_early i now m rest s :
    loops s !! i = Some AtHead -> running s = true -> contents s (backlog s) = m :: rest ->
    ~ due retryTimeout now m ->
    relayer_step retryTimeout s (set_contents (backlog s) (rest ++ [m]) s)
| step_take i now m rest s d :
    loops s !! i = Some AtHead -> running s = true -> contents s (backlog s) = m :: rest ->
    due retryTimeout now m -> dispatch_of m = Ok d ->
    relayer_step retryTimeout s
      (set_loops (<[i := Relaying m]> (loops s)) (set_contents (backlog s) rest s))
| step_crash i now m rest s e :
    loops s !! i = Some AtHead -> running s = true -> contents s (backlog s) = m :: rest ->
    due retryTimeout now m -> dispatch_of m = Throw e ->
    relayer_step retryTimeout s
      (set_loops (delete i (loops s)) (set_contents (backlog s) rest s))
| step_relayed i m d c receipt s :
    loops s !! i = Some (Relaying m) -> dispatch_of m = Ok d ->
    attempt m d (core s) = (c, Ok receipt) ->
    relayer_step retryTimeout s
      (note_relayed (same_message m) (set_loops (<[i := AtHead]> (loops s)) (set_core c s)))
| step_retry i m d c e now s :
    loops s !! i = Some (Relaying m) -> dispatch_of m = Ok d ->
    attempt m d (core s) = (c, Throw e) ->
    relayer_step retryTimeout s
      (set_loops (<[i := AtHead]> (loops s))
        (push {| attempts := S (attempts m); lastAttempt := now; bm_message := bm_message m;
                 bm_dispatchTx := bm_dispatchTx m |} (set_core c s))).

End relayer.
