(* ===== verification/RelayerFacts.v ===== *)
(** What the relayer guarantees: each call of [relayMessage] delivers at most once, only what is
    admitted and not delivered, with metadata that was built for it, and reports what it did;
    and the backlog loses no message and doubles none, by induction on the runs of the
    relayer. *)
From Stdlib Require Import ZArith Lia String Ascii.
From stdpp Require Import base tactics list sets strings relations.
From S2P Require Import Prelude JsMap Addresses Token Bytes Messages AddressEq Metadata MetadataBuilder.
From S2P Require Import Triples Relayer.

#[local] Open Scope Z_scope.

Section facts.
Context `{AddressLibs} `{Signatures} `{AbiCoder} `{RelayerWorld} `{RelayerCore} `{Ethers}.
Context (whitelist : option MessageWhitelist).

(** ** One message *)

(** Operations that only read and cache: no delivery, no event. *)
Definition quiet {A} (m : relay A) : Prop :=
  forall s, deliveries (fst (m s)) = deliveries s /\ events (fst (m s)) = events s.

Lemma wp_quiet {A} (m : relay A) s : quiet m ->
  wp m (fun s' _ => deliveries s' = deliveries s /\ events s' = events s) s.
Proof. intros Hq. apply Hq. Qed.

Lemma call_run {A} (answer : nat -> result A) s :
  wp (call_core answer) (fun s' r => (deliveries s' = deliveries s /\ events s' = events s) /\
    r = answer (core_calls s)) s.
Proof. done. Qed.

Lemma quiet_bind {A B} (m : relay A) (f : A -> relay B) :
  quiet m -> (forall a, quiet (f a)) -> quiet (m ≫= f).
Proof.
  intros Hm Hf s. rewrite eff_bind_run. specialize (Hm s). destruct (m s) as [s' [a|e]]; [|done].
  cbn in *. destruct (Hf a s') as [E1 E2]. by rewrite E1, E2.
Qed.
Lemma quiet_call {A} (answer : nat -> result A) : quiet (call_core answer).
Proof. done. Qed.
Lemma quiet_lift {A} (r : result A) : quiet (lift r).
Proof. done. Qed.
Lemma quiet_ret {A} (a : A) : quiet (mret a).
Proof. done. Qed.
Lemma quiet_throw {A} e : quiet (throw e : relay A).
Proof. done. Qed.
Lemma quiet_gets {A} (f : CoreState -> A) : quiet (gets f).
Proof. done. Qed.
Lemma quiet_settled {A} (m : relay A) : quiet m -> quiet (settled m).
Proof. intros Hm s. apply Hm. Qed.

Create HintDb quiet.
#[local] Hint Resolve quiet_call quiet_lift quiet_ret quiet_throw quiet_gets : quiet.

Lemma quiet_hook chain hook mc : quiet (getHookConfig chain hook mc).
Proof.
  unfold getHookConfig. apply quiet_bind; [auto with quiet|intros known].
  apply quiet_bind; [destruct known; auto with quiet|intros [config|]; [|auto with quiet]].
  apply quiet_bind; [by intros s|auto with quiet].
Qed.
Lemma quiet_ism chain ism mc : quiet (getIsmConfig chain ism mc).
Proof.
  unfold getIsmConfig. apply quiet_bind; [auto with quiet|intros known].
  apply quiet_bind; [destruct known; auto with quiet|intros [config|]; [|auto with quiet]].
  apply quiet_bind; [by intros s|auto with quiet].
Qed.
Lemma quiet_both m : quiet (both_configs m).
Proof.
  unfold both_configs, getRecipientIsmConfig, getSenderHookConfig.
  apply quiet_bind; [apply quiet_settled|intros ism; apply quiet_bind; [apply quiet_settled|auto with quiet]].
  - apply quiet_bind; [auto with quiet|intros c]. apply quiet_bind; [auto with quiet|intros a]. apply quiet_ism.
  - apply quiet_bind; [auto with quiet|intros c]. apply quiet_bind; [auto with quiet|intros a]. apply quiet_hook.
Qed.
Lemma quiet_builder {A} (m : build_eff A) : quiet (with_builder m).
Proof. intros s. unfold with_builder. by destruct (m (builder s)). Qed.

(** The metadata was built for the message from the logs of its dispatch. *)
Definition built_for (logs : list Log) (m : DispatchedMessage) (metadata : string) : Prop :=
  exists ism hook b b' r,
    build default_depth {| mc_message := m; mc_logs := logs; mc_ism := ism; mc_hook := hook |} b =
      (b', Ok r) /\ result_metadata r = Some metadata.

(** What a call leaves behind: the deliveries it made and the events it reported. *)
Definition leaves (s s' : CoreState) (ds : list (DispatchedMessage * string)) (es : list RelayerEvent)
    : Prop :=
  deliveries s' = deliveries s ++ ds /\ events s' = events s ++ es.

Lemma quiet_leaves s s' : deliveries s' = deliveries s /\ events s' = events s -> leaves s s' [] [].
Proof. intros [E1 E2]. split; by rewrite app_nil_r. Qed.

Lemma undelivered_run logs m s :
  wp (relay_undelivered logs m) (fun s' r =>
    exists ds, (ds = [] \/ exists metadata, ds = [(m, metadata)] /\ built_for logs m metadata) /\
    match r with
    | Ok _ => leaves s s' ds [MessageRelayed (dm_id m)] /\ ds <> []
    | Throw _ => leaves s s' ds []
    end) s.
Proof.
  unfold relay_undelivered. apply wp_bind. eapply wp_mono; [apply wp_quiet, quiet_call|].
  intros s1 [[]|e] L1%quiet_leaves; [|exists []; split; [by left|done]].
  apply wp_bind. eapply wp_mono; [apply wp_quiet, quiet_both|].
  intros s2 [[ism hook]|e] L2; cycle 1.
  { exists []. split; [by left|]. destruct L1, L2. split; congruence. }
  apply wp_bind. unfold with_builder. unfold wp at 1.
  destruct (build _ _ (builder s2)) as [b [r|e]] eqn:Hb; cbn; cycle 1.
  { exists []. split; [by left|]. destruct L1, L2. cbn. split; cbn; congruence. }
  destruct (result_metadata r) as [metadata|] eqn:Hm; cycle 1.
  { apply wp_throw. exists []. split; [by left|]. destruct L1, L2. split; cbn; congruence. }
  assert (built_for logs m metadata) as Hbuilt by (by exists ism, hook, (builder s2), b, r).
  apply wp_bind. unfold deliver. apply wp_bind, wp_modify.
  eapply wp_mono; [apply wp_quiet, quiet_call|]. cbn [deliveries events].
  destruct L1 as [D1 E1], L2 as [D2 E2]. intros s3 [receipt|e] [D3 E3].
  - apply wp_bind, wp_modify, wp_ret. exists [(m, metadata)]. split; [right; by eexists|].
    split; [|done]. split; cbn; rewrite ?D3, ?E3, ?D2, ?E2, ?D1, ?E1, ?app_nil_r; done.
  - exists [(m, metadata)]. split; [right; by eexists|].
    split; cbn; rewrite ?D3, ?E3, ?D2, ?E2, ?D1, ?E1, ?app_nil_r; done.
Qed.

(** The message as it is relayed: with the names of its chains if there is a whitelist. *)
Definition same_dispatch (m m' : DispatchedMessage) : Prop :=
  dm_id m' = dm_id m /\ dm_message m' = dm_message m /\ dm_parsed m' = dm_parsed m.
Definition admitted (m' : DispatchedMessage) : Prop :=
  forall w, whitelist = Some w -> messageMatchesWhitelist w m' = Ok true.

(** The outcomes of a call. *)
Inductive relay_outcome (logs : list Log) (m : DispatchedMessage) (s s' : CoreState)
    (r : result Receipt) : Prop :=
| outcome_refused :
    leaves s s' [] [] -> is_ok r = false -> relay_outcome logs m s s' r
| outcome_unlisted :
    leaves s s' [] [MessageSkipped (dm_id m) ByWhitelist] -> is_ok r = false ->
    relay_outcome logs m s s' r
| outcome_delivered_before m' k :
    same_dispatch m m' -> admitted m' -> c_isDelivered k m' = Ok true ->
    leaves s s' [] [MessageSkipped (dm_id m) AlreadyDelivered] -> relay_outcome logs m s s' r
| outcome_relayed m' k metadata receipt :
    same_dispatch m m' -> admitted m' -> c_isDelivered k m' = Ok false ->
    built_for logs m' metadata -> r = Ok receipt ->
    leaves s s' [(m', metadata)] [MessageRelayed (dm_id m)] -> relay_outcome logs m s s' r
| outcome_failed m' k ds e :
    same_dispatch m m' -> admitted m' -> c_isDelivered k m' = Ok false ->
    (ds = [] \/ exists metadata, ds = [(m', metadata)] /\ built_for logs m' metadata) ->
    r = Throw e -> leaves s s' ds [MessageFailed (dm_id m) e] -> relay_outcome logs m s s' r.

Lemma leaves_refl s : leaves s s [] [].
Proof. split; by rewrite app_nil_r. Qed.

Lemma relayMessage_run logs m s :
  wp (relayMessage whitelist logs m) (relay_outcome logs m s) s.
Proof.
  unfold relayMessage. apply wp_bind, wp_lift; [intros o Ho|intros e _; by apply outcome_refused; [apply leaves_refl|]].
  apply wp_bind, wp_lift; [intros d Hd|intros e _; by apply outcome_refused; [apply leaves_refl|]].
  apply wp_bind. assert (wp (admit_message whitelist o d m) (fun s' r => match r with
      | Ok m' => s' = s /\ same_dispatch m m' /\ admitted m'
      | Throw e => relay_outcome logs m s s' (Throw e) end) s) as Hadmit.
  { unfold admit_message, admitted. destruct whitelist as [w|]; [|by apply wp_ret].
    apply wp_bind, wp_lift; [intros [] Hw|intros e _; by apply outcome_refused; [apply leaves_refl|]].
    - apply wp_ret. split_and!; [done|done|]. by intros ? [= <-].
    - apply wp_bind, wp_modify, wp_throw. apply outcome_unlisted; [|done].
      split; cbn; [by rewrite app_nil_r|done]. }
  eapply wp_mono; [exact Hadmit|]. intros s0 [m'|e]; [intros (-> & Hsame & Had)|done].
  apply wp_bind. eapply wp_mono; [apply call_run|]. intros s1 r [[D1 E1] ->].
  destruct (c_isDelivered (core_calls s) m') as [[]|e] eqn:Hdel; cycle 2.
  { apply outcome_refused; [|done]. by apply quiet_leaves. }
  - apply wp_bind, wp_modify. eapply wp_mono; [apply call_run|]. cbn [deliveries events].
    intros s2 r [[D2 E2] _]. eapply outcome_delivered_before; [done|done|done|].
    destruct Hsame as [<- _]. split; rewrite ?D2, ?E2, ?D1, ?E1; [by rewrite app_nil_r|done].
  - apply wp_try_catch. eapply wp_mono; [apply undelivered_run|].
    intros s2 [receipt|e] (ds & Hds & Hl).
    + destruct Hl as [[D E] Hne]. destruct Hds as [->|(metadata & -> & Hb)]; [done|].
      eapply outcome_relayed; [done|done|done|done|done|].
      destruct Hsame as [<- _]. split; rewrite ?D, ?E, ?D1, ?E1; done.
    + destruct Hl as [D E]. apply wp_bind, wp_modify, wp_throw.
      eapply (outcome_failed _ _ _ _ _ m' (core_calls s) ds e); [done..|].
      destruct Hsame as [<- _]. split; cbn; rewrite ?D, ?E, ?D1, ?E1, ?app_nil_r; done.
Qed.

(** ** The backlog *)

Definition inflight_of (l : Loop) : option (string * string) :=
  match l with AtHead => None | Relaying m => Some (same_message m) end.
(** The messages taken off the backlog whose attempt has not ended. *)
Definition inflight (s : Relayer) : list (string * string) := omap inflight_of (loops s).

(** A message that can be parsed, as every one of a dispatch is. *)
Definition parses (m : BacklogMessage) : Prop := is_ok (dispatch_of m) = true.

Lemma omap_delete {A B} (f : A -> option B) (l : list A) i x : l !! i = Some x ->
  omap f l ≡ₚ option_list (f x) ++ omap f (delete i l).
Proof.
  intros Hi. rewrite (delete_Permutation l i x Hi) at 1. cbn. by destruct (f x).
Qed.

Lemma delete_insert_list {A} (l : list A) i y : delete i (<[i := y]> l) = delete i l.
Proof. revert i. induction l as [|x l IH]; intros [|i]; cbn; [done..|]. by rewrite IH. Qed.

Lemma elem_of_insert_list {A} (l : list A) i x y : x ∈ <[i := y]> l -> x = y \/ x ∈ l.
Proof.
  revert i. induction l as [|z l IH]; intros [|i]; cbn; [by right..| |].
  - intros [->|Hx]%elem_of_cons; [by left|right]. by apply list_elem_of_further.
  - intros [->|Hx]%elem_of_cons; [right; apply list_elem_of_here|].
    destruct (IH i Hx); [by left|right]. by apply list_elem_of_further.
Qed.

Lemma omap_replace {A B} (f : A -> option B) (l : list A) i x y : l !! i = Some x ->
  omap f (<[i := y]> l) ≡ₚ option_list (f y) ++ omap f (delete i l).
Proof.
  intros Hi. rewrite (omap_delete f (<[i := y]> l) i y).
  - by rewrite delete_insert_list.
  - apply list_lookup_insert_eq. by eapply lookup_lt_Some.
Qed.

(** The invariant: [ref] is the array of the cache, and of the loops once there is one; what came
    in is in it, with a loop, or relayed. *)
Record accounted (init : list (string * string)) (s : Relayer) : Prop := {
  ac_cache : exists ref, cache_backlog s = Some ref /\ (ref < length (arrays s))%nat /\
    (backlog s = ref \/ (running s = false /\ loops s = [])) /\
    Forall parses (contents s ref) /\
    init ++ accepted s ≡ₚ (same_message <$> contents s ref) ++ inflight s ++ relayed s;
  ac_loops : forall m, Relaying m ∈ loops s -> parses m
}.

Lemma contents_set ref ms s : (ref < length (arrays s))%nat ->
  contents (set_contents ref ms s) ref = ms.
Proof. intros Hr. unfold contents. cbn. by rewrite list_lookup_insert_eq. Qed.

Lemma contents_push m s : (backlog s < length (arrays s))%nat ->
  contents (push m s) (backlog s) = contents s (backlog s) ++ [m].
Proof. intros Hr. by apply contents_set. Qed.

Lemma accepts_parses message now tx : accepts whitelist message ->
  parses {| attempts := 0; lastAttempt := now; bm_message := message; bm_dispatchTx := tx |}.
Proof.
  intros (id & parsed & o & d & Hid & Hp & _). unfold parses, dispatch_of. cbn. by rewrite Hid, Hp.
Qed.

(** Where a loop is, the array of the cache is that of the relayer. *)
Lemma backlog_is_cached init s i l : accounted init s -> loops s !! i = Some l ->
  cache_backlog s = Some (backlog s) /\ (backlog s < length (arrays s))%nat /\
  Forall parses (contents s (backlog s)) /\
  init ++ accepted s ≡ₚ (same_message <$> contents s (backlog s)) ++ inflight s ++ relayed s.
Proof.
  intros [(ref & Hc & Hr & Hb & Hf & Hp) _] Hl. destruct Hb as [<-|[_ Hn]]; [done|]. by rewrite Hn in Hl.
Qed.

Lemma running_is_cached init s : accounted init s -> running s = true ->
  cache_backlog s = Some (backlog s) /\ (backlog s < length (arrays s))%nat /\
  Forall parses (contents s (backlog s)) /\
  init ++ accepted s ≡ₚ (same_message <$> contents s (backlog s)) ++ inflight s ++ relayed s.
Proof.
  intros [(ref & Hc & Hr & Hb & Hf & Hp) _] Hl. destruct Hb as [<-|[Hn _]]; [done|]. by rewrite Hn in Hl.
Qed.

Lemma accounted_step retryTimeout init s s' :
  accounted init s -> relayer_step whitelist retryTimeout s s' -> accounted init s'.
Proof.
  intros A Hs. destruct Hs as
    [s s' Hs|s s' Hs|now message tx s Hrun Hacc|i s Hl Hrun|i now m rest s Hl Hrun Hm Hdue
    |i now m rest s d Hl Hrun Hm Hdue Hd|i now m rest s e Hl Hrun Hm Hdue Hd
    |i m d c receipt s Hl Hd Hat|i m d c e now s Hl Hd Hat].
  - unfold start in Hs. destruct (running s) eqn:Hrun; [done|]. injection Hs as <-.
    destruct A as [(ref & Hc & Hr & Hb & Hf & Hp) Hlp]. split; cbn.
    + exists ref. rewrite Hc. unfold contents, inflight in *. cbn. split_and!; try done; [by left|].
      rewrite omap_app. cbn. by rewrite app_nil_r.
    + intros m [Hm|Hm%list_elem_of_singleton]%elem_of_app; [by apply Hlp|done].
  - unfold stop in Hs. destruct (running s) eqn:Hrun; [|done]. injection Hs as <-.
    destruct (running_is_cached init s A Hrun) as (Hc & Hr & Hf & Hp). destruct A as [_ Hlp].
    split; cbn; [|done]. exists (backlog s). rewrite Hc. split_and!; try done. by left.
  - destruct (running_is_cached init s A Hrun) as (Hc & Hr & Hf & Hp). destruct A as [_ Hlp].
    match goal with |- context [push ?x s] => pose proof (contents_push x s Hr) as Hcon; set (m := x) in * end.
    split; [|done]. exists (backlog s).
    change (contents (note_accepted (message, tx) (push m s)) (backlog s))
      with (contents (push m s) (backlog s)). rewrite Hcon. cbn [cache_backlog arrays note_accepted push set_contents].
    rewrite length_insert. split_and!; try done; [by left| |].
    + apply Forall_app. split; [done|]. constructor; [by apply accepts_parses|constructor].
    + rewrite fmap_app. unfold inflight. cbn. rewrite (app_assoc init), Hp. unfold inflight.
      rewrite <- !app_assoc. apply Permutation_app_head. cbn.
      rewrite (app_assoc (omap _ _)). rewrite <- Permutation_cons_append. done.
  - destruct (backlog_is_cached init s i _ A Hl) as (Hc & Hr & Hf & Hp). destruct A as [_ Hlp].
    split; cbn.
    + exists (backlog s). unfold contents, inflight in *. cbn. split_and!; try done; [by left|].
      rewrite Hp, (omap_delete inflight_of (loops s) i _ Hl). done.
    + intros m Hm. apply Hlp. by eapply list_elem_of_delete_inv.
  - destruct (running_is_cached init s A Hrun) as (Hc & Hr & Hf & Hp). destruct A as [_ Hlp].
    split; cbn; [|done]. exists (backlog s). rewrite contents_set, length_insert by done.
    rewrite Hm in Hf, Hp. split_and!; try done; [by left| |].
    + apply Forall_cons in Hf as [? ?]. apply Forall_app. split; [done|by constructor].
    + rewrite Hp, fmap_app. cbn. unfold inflight. cbn.
      rewrite <- Permutation_cons_append. done.
  - destruct (running_is_cached init s A Hrun) as (Hc & Hr & Hf & Hp). destruct A as [_ Hlp].
    rewrite Hm in Hf, Hp. apply Forall_cons in Hf as [Hfm Hf]. split; cbn.
    + exists (backlog s). unfold contents. cbn. rewrite list_lookup_insert_eq, length_insert by done. cbn.
      split_and!; try done; [by left|]. rewrite Hp. unfold inflight. cbn.
      rewrite (omap_replace inflight_of _ i _ (Relaying m) Hl), (omap_delete inflight_of _ i _ Hl). cbn.
      by rewrite Permutation_middle.
    + intros m' [[= ->]|Hm']%elem_of_insert_list; [done|by apply Hlp].
  - exfalso. destruct (running_is_cached init s A Hrun) as (_ & _ & Hf & _).
    rewrite Hm in Hf. apply Forall_cons in Hf as [Hfm _]. unfold parses in Hfm. by rewrite Hd in Hfm.
  - destruct (backlog_is_cached init s i _ A Hl) as (Hc & Hr & Hf & Hp). destruct A as [_ Hlp]. split; cbn.
    + exists (backlog s). unfold contents, inflight in *. cbn. split_and!; try done; [by left|].
      rewrite Hp, (omap_replace inflight_of _ i _ AtHead Hl), (omap_delete inflight_of _ i _ Hl). cbn.
      apply Permutation_app_head. rewrite app_assoc. by rewrite <- Permutation_cons_append.
    + intros m' [?|Hm']%elem_of_insert_list; [done|by apply Hlp].
  - destruct (backlog_is_cached init s i _ A Hl) as (Hc & Hr & Hf & Hp).
    assert (parses m) as Hpm by (apply (ac_loops _ _ A); by eapply list_elem_of_lookup_2).
    destruct A as [_ Hlp]. split; cbn.
    + exists (backlog s).
      match goal with |- context [push ?x ?t] => pose proof (contents_push x t Hr) as Hcon; set (m' := x) in * end.
      change (contents (set_loops (<[i:=AtHead]> (loops s)) (push m' (set_core c s))) (backlog s))
        with (contents (push m' (set_core c s)) (backlog (set_core c s))). rewrite Hcon.
      change (contents (set_core c s) (backlog (set_core c s))) with (contents s (backlog s)).
      unfold inflight in *. cbn. rewrite length_insert. split_and!; try done; [by left| |].
      * apply Forall_app. split; [done|]. by constructor.
      * rewrite Hp, fmap_app, (omap_replace inflight_of _ i _ AtHead Hl), (omap_delete inflight_of _ i _ Hl).
        cbn. rewrite <- app_assoc. done.
    + intros m' [?|Hm']%elem_of_insert_list; [done|by apply Hlp].
Qed.

End facts.

(** ** What the relayer guarantees *)

(** C27: a call of [relayMessage] ends in one of five ways: it is refused without a trace, skipped
    because the whitelist does not admit the message, skipped because it was delivered before,
    relayed, or failed. A message is delivered at most once, only if it is admitted and was not
    delivered, and only with metadata that was built for it from the logs of its dispatch; the
    observer is told exactly what happened. *)
Theorem relayMessage_outcomes `{AddressLibs} `{Signatures} `{AbiCoder} `{RelayerWorld} `{RelayerCore}
    (whitelist : option MessageWhitelist) logs m s :
  relay_outcome whitelist logs m s (fst (relayMessage whitelist logs m s))
    (snd (relayMessage whitelist logs m s)).
Proof. apply relayMessage_run. Qed.

(** C30: a relayer with a cache loses no message and doubles none: over any run of dispatches,
    attempts, failures, stops and restarts, what was in the saved backlog and what was accepted
    since is in the backlog, with a loop that has it in hand, or relayed, each exactly as often
    as it came in. *)
Theorem relayer_keeps_messages `{AddressLibs} `{Signatures} `{AbiCoder} `{RelayerWorld} `{RelayerCore} `{Ethers}
    (whitelist : option MessageWhitelist) retryTimeout cache s :
  Forall parses (saved_backlog cache) ->
  rtc (relayer_step whitelist retryTimeout) (hydrated_relayer cache) s ->
  (same_message <$> saved_backlog cache) ++ accepted s ≡ₚ
    (same_message <$> saved s) ++ inflight s ++ relayed s.
Proof.
  intros Hp Hr. set (init := same_message <$> saved_backlog cache).
  assert (accounted init (hydrated_relayer cache)) as A0.
  { split; cbn; [|by intros m ?%not_elem_of_nil]. exists 2%nat. unfold contents, inflight. cbn.
    split; [done|]. split; [lia|]. split; [by right|]. split; [done|]. by rewrite !app_nil_r. }
  revert A0. induction Hr as [s|s0 s1 s Hs _ IH]; intros A.
  - destruct A as [(ref & Hc & _ & _ & _ & Hperm) _]. unfold saved. by rewrite Hc.
  - by eapply IH, accounted_step.
Qed.

(** ** A concrete relayer: two chains, a trusted relayer as the ISM, and a mailbox that refuses the
    first delivery. *)
Module RelayerSample.

#[local] Existing Instance sample_address_libs.
#[local] Existing Instance plain_ethers.
#[local] Instance no_signatures : Signatures := {|
  joinSignature := fun _ => Throw (Error "none"); splitSignature := fun _ => Throw (Error "none") |}.
#[local] Instance no_abi : AbiCoder := {|
  abi_encode := fun _ _ => Throw (Error "none"); abi_decode := fun _ _ => Throw (Error "none") |}.
#[local] Instance two_chains : RelayerWorld := {|
  r_getChainName := fun d => if d =? 1 then Ok "ethereum"%string
                             else if d =? 2 then Ok "base"%string else Throw (Error "unknown");
  r_hasNumericChainId := fun _ => Ok true;
  r_getProvider := fun _ => Ok (); r_getSigner := fun _ => Ok ();
  r_parseInsertion := fun _ => Throw (Error "none");
  r_parseL2ToL1 := fun _ => None;
  r_parseError := fun _ => Throw (Error "none");
  r_getSignerAddress := fun _ _ => Ok "0x00000000000000000000000000000000000000aa"%string;
  r_getAnnouncedStorageLocations := fun _ _ _ => Ok [];
  r_getValidator := fun _ _ => Ok ();
  r_getCheckpoint := fun _ _ _ => Ok None;
  r_late := fun _ => false;
  r_deriveIsmConfig := fun _ _ _ => Throw (Error "none");
  r_route := fun _ _ _ _ => Throw (Error "none"); r_module := fun _ _ _ _ => Throw (Error "none");
  r_isVerified := fun _ _ _ _ => Ok false; r_arbStatus := fun _ _ _ => Ok CONFIRMED;
  r_getFirstExecutableBlock := fun _ => Ok None; r_getBlockNumber := fun _ => Ok 0;
  r_getOutboxProof := fun _ => Ok None; r_getOffchainVerifyInfo := fun _ _ _ _ => None;
  r_fetch := fun _ _ _ => Throw (Error "none") |}.
#[local] Instance sample_core : RelayerCore := {|
  c_messageId := fun m => Ok (String.substring 0 10 m);
  c_isDelivered := fun _ _ => Ok false;
  c_getProcessedReceipt := fun _ _ => Throw (Error "none");
  c_estimateHandle := fun _ _ => Ok ();
  c_getRecipientIsmAddress := fun _ _ => Ok "0x1"%string;
  c_getSenderHookAddress := fun _ _ => Ok "0x2"%string;
  c_deriveIsmConfig := fun _ _ a _ => Ok (Some (IsmConfig TRUSTED_RELAYER a
    "0x00000000000000000000000000000000000000aa" [] 0 [] None));
  c_deriveHookConfig := fun _ _ a _ => Ok (Some (JText a));
  c_deliver := fun k _ _ => if (k <? 10)%nat then Throw (Error "reverted") else Ok "0xreceipt"%string;
  c_getTransactionReceipt := fun _ _ _ => Ok [];
  c_getDefaults := fun _ => Ok [] |}.

Definition sample_message : string :=
  toHexString (be_bytes 1 3 ++ be_bytes 4 0 ++ be_bytes 4 1 ++ replicate 32 1 ++
               be_bytes 4 2 ++ replicate 32 2 ++ [7]).

Definition entry (n : nat) (now : Z) : BacklogMessage := {|
  attempts := n; lastAttempt := now; bm_message := sample_message; bm_dispatchTx := "0xtx" |}.
Definition sample_dispatch : DispatchedMessage :=
  match dispatch_of (entry 0 0) with
  | Ok d => d
  | Throw _ => {| dm_id := ""; dm_message := "";
      dm_parsed := {| version := 0; nonce := 0; origin := 0; sender := ""; destination := 0;
                      recipient := ""; body := "" |};
      dm_originChain := None; dm_destinationChain := None |}
  end.

Notation after d m c := (fst (attempt None m d c)).
Notation step := (relayer_step None 1000).

Lemma sample_accepts : accepts None sample_message.
Proof.
  eexists _, _, _, _. split_and!; [reflexivity|vm_compute; reflexivity|reflexivity|reflexivity|done].
Qed.

(** From a backlog of one message: it is taken, refused, and pushed again. *)
Definition saved_cache : RelayerCache := {|
  saved_hook := []; saved_ism := []; saved_backlog := [entry 1 5000] |}.

Definition taken : Relayer := {|
  arrays := [[]; []; []]; backlog := 2; cache_backlog := Some 2%nat; running := true;
  loops := [Relaying (entry 1 5000)]; core := core (hydrated_relayer saved_cache);
  accepted := []; relayed := [] |}.

Definition retried : Relayer := {|
  arrays := [[]; []; [entry 2 7000]]; backlog := 2; cache_backlog := Some 2%nat; running := true;
  loops := [AtHead];
  core := after sample_dispatch (entry 1 5000) (core taken);
  accepted := []; relayed := [] |}.

Lemma entry_dispatch n now : dispatch_of (entry n now) = Ok sample_dispatch.
Proof. vm_compute. reflexivity. Qed.

Lemma pair_of {A B} (p : A * B) b : snd p = b -> p = (fst p, b).
Proof. destruct p. by intros <-. Qed.

Lemma entry_refused :
  attempt None (entry 1 5000) sample_dispatch (core taken) =
  (after sample_dispatch (entry 1 5000) (core taken), Throw (Error "reverted")).
Proof. apply pair_of. vm_compute. reflexivity. Qed.

#[local] Opaque attempt.

Lemma taken_reachable : rtc step (hydrated_relayer saved_cache) taken.
Proof.
  eapply rtc_l; [by apply step_start|].
  eapply rtc_l; [by apply (step_take _ _ 0 6000 (entry 1 5000) [] _ sample_dispatch), entry_dispatch|].
  apply rtc_refl.
Qed.

Lemma retried_reachable : rtc step (hydrated_relayer saved_cache) retried.
Proof.
  eapply rtc_r; [exact taken_reachable|].
  exact (step_retry _ _ 0 (entry 1 5000) sample_dispatch
    (after sample_dispatch (entry 1 5000) (core taken)) (Error "reverted") 7000
    taken eq_refl (entry_dispatch _ _) entry_refused).
Qed.

Lemma relayer_keeps_messages_witness :
  Forall parses (saved_backlog saved_cache) /\
  (same_message <$> saved_backlog saved_cache) ++ accepted retried ≡ₚ
    (same_message <$> saved retried) ++ inflight retried ++ relayed retried.
Proof.
  assert (Forall parses (saved_backlog saved_cache)) as Hp.
  { constructor; [vm_compute; reflexivity|constructor]. }
  split; [exact Hp|].
  exact (relayer_keeps_messages None 1000 saved_cache retried Hp retried_reachable).
Defined.

(** A stop while a message is in hand saves a backlog without it. *)
Lemma stop_saves_without_inflight :
  exists s, rtc step (hydrated_relayer saved_cache) s /\ running s = false /\
    saved s = [] /\ relayed s = [] /\ inflight s = [same_message (entry 1 5000)].
Proof.
  exists {| arrays := arrays taken; backlog := 2; cache_backlog := Some 2%nat; running := false;
            loops := loops taken; core := core taken; accepted := []; relayed := [] |}.
  split_and!; try done. eapply rtc_r; [exact taken_reachable|]. by apply step_stop.
Qed.

(** Without a cache a restart forgets the backlog. *)
Lemma uncached_restart_forgets :
  exists s, rtc step (new_relayer false) s /\ running s = true /\
    accepted s = [(sample_message, "0xtx"%string)] /\
    contents s (backlog s) = [] /\ inflight s = [] /\ relayed s = [].
Proof.
  eexists. split.
  - eapply rtc_l; [by apply step_start|].
    eapply rtc_l; [apply (step_dispatch _ _ 0 sample_message "0xtx"); [done|exact sample_accepts]|].
    eapply rtc_l; [by apply step_stop|]. eapply rtc_l; [by apply step_start|]. apply rtc_refl.
  - done.
Qed.

End RelayerSample.
