(* ===== verification/RpcErrors.v ===== *)
(** Errors of RPC providers as JavaScript values, and how the SDK reads them:
    sdk/src/providers/SmartProvider/jsonRpcError.ts, the classification of provider errors and
    their combination in SmartProvider.ts, and the walks through nested errors of
    sdk/src/rpc/evm/utils.ts. [JSON.parse] is the class [Json]. Then asynchronous code that may throw any
    such value, or never settle, over a state; and [retryAsync] of utils/src/async.ts. *)
From Stdlib Require Import ZArith Lia String Ascii.
From stdpp Require Import base tactics list strings pretty.
From S2P Require Import Prelude JsMap Messages ErrorGraph.

#[local] Open Scope Z_scope.

(** ** Values

    What an [unknown] can be, as the code tells values apart. Objects are finite trees of
    fields; a number is an integer, [VOther] any other number, a symbol or a function. *)
Inductive ObjectClass : Type := PlainObject | ErrorObject | LogBlockRangeTooLargeError.

Inductive Value : Type :=
| VUndefined
| VNull
| VBoolean (b : bool)
| VNumber (n : Z)
| VBigInt (n : Z)
| VString (s : string)
| VArray (items : list Value)
| VObject (class : ObjectClass) (fields : list (string * Value))
| VOther.

#[export] Instance ObjectClass_eq_dec : EqDecision ObjectClass.
Proof. solve_decision. Defined.

Definition is_record (v : Value) : bool :=
  match v with VObject _ _ | VArray _ => true | _ => false end.
Definition is_nullish (v : Value) : bool :=
  match v with VUndefined | VNull => true | _ => false end.
Definition truthy (v : Value) : bool :=
  match v with
  | VUndefined | VNull | VBoolean false | VNumber 0 | VBigInt 0 | VString EmptyString => false
  | _ => true
  end.
Definition is_string (v : Value) (s : string) : bool :=
  match v with VString t => String.eqb t s | _ => false end.
Definition is_number (v : Value) (n : Z) : bool :=
  match v with VNumber m => m =? n | _ => false end.
Definition is_false (v : Value) : bool := match v with VBoolean false => true | _ => false end.
Definition is_error (v : Value) : bool :=
  match v with VObject (ErrorObject | LogBlockRangeTooLargeError) _ => true | _ => false end.
Definition is_range_error (v : Value) : bool :=
  match v with VObject LogBlockRangeTooLargeError _ => true | _ => false end.

(** [v?.key]. *)
Definition field (key : string) (v : Value) : Value :=
  match v with VObject _ fields => default VUndefined (map_get key fields) | _ => VUndefined end.

(** The text of a value, as a template string has it; that of [VOther] is left empty. *)
Fixpoint text_of (v : Value) : string :=
  match v with
  | VUndefined => "undefined"
  | VNull => "null"
  | VBoolean b => if b then "true" else "false"
  | VNumber n | VBigInt n => pretty n
  | VString s => s
  | VObject PlainObject _ => "[object Object]"
  | VObject ErrorObject _ =>
      match field "message" v with
      | VString (String _ _ as message) => "Error: " +:+ message
      | _ => "Error"
      end
  | VObject LogBlockRangeTooLargeError _ =>
      match field "message" v with
      | VString (String _ _ as message) => "LogBlockRangeTooLargeError: " +:+ message
      | _ => "LogBlockRangeTooLargeError"
      end
  | VArray items =>
      String.concat "," (map (fun item => if is_nullish item then EmptyString else text_of item) items)
  | VOther => EmptyString
  end.

(** [new Error(message, { cause })] with further fields. *)
Definition new_error (message : string) (cause : option Value) (more : list (string * Value)) : Value :=
  VObject ErrorObject
    ([("message"%string, VString message)] ++
     match cause with Some c => [("cause"%string, c)] | None => [] end ++ more).

(** [a ?? b], for what may be missing. *)
Definition first_known {A} (a b : option A) : option A := match a with Some _ => a | None => b end.

(** ** jsonRpcError.ts *)

Class Json : Type := { json_parse : string -> option Value }.

Section jsonRpcError.
Context `{Json}.

Definition getRecord (v : Value) : Value := if is_record v then v else VUndefined.

Definition getJsonRpcErrorCode (v : Value) : option Value :=
  match field "code" v with VNumber _ | VString _ => Some (field "code" v) | _ => None end.

Definition getJsonRpcErrorText (key : string) (v : Value) : option string :=
  match field key v with VString s => Some s | _ => None end.

(** The [error] of a body of JSON. *)
Definition parseJsonRpcErrorBody (body : Value) : Value :=
  match body with
  | VString text => match json_parse text with
                    | Some parsed => getRecord (field "error" (getRecord parsed))
                    | None => VUndefined
                    end
  | _ => VUndefined
  end.

Definition nested_parts (error : Value) : Value * Value * Value :=
  let nested := getRecord (field "error" (getRecord error)) in
  (getRecord (field "error" nested), nested, parseJsonRpcErrorBody (field "body" nested)).

(** The fields of [getNestedJsonRpcError(error)]. *)
Definition nested_code (error : Value) : option Value :=
  let '(inner, nested, body) := nested_parts error in
  first_known (getJsonRpcErrorCode inner) (first_known (getJsonRpcErrorCode nested) (getJsonRpcErrorCode body)).
Definition nested_message (error : Value) : option string :=
  let '(inner, nested, body) := nested_parts error in
  first_known (getJsonRpcErrorText "message" inner)
    (first_known (getJsonRpcErrorText "message" nested) (getJsonRpcErrorText "message" body)).

Definition has_revert_data (error : Value) : bool :=
  truthy (field "data" error) && negb (is_string (field "data" error) "0x").

Definition code_is_3 (error : Value) : bool :=
  match nested_code error with Some c => is_number c 3 | None => false end.

Definition isCallExceptionWithTransientRpcError (error : Value) : bool :=
  is_string (field "code" error) "CALL_EXCEPTION" &&
  (truthy (field "error" error) && negb (has_revert_data error) && negb (code_is_3 error)).

(** ** SmartProvider.ts: classes of errors *)

Definition RPC_SERVER_ERRORS : list string := ["SERVER_ERROR"; "TIMEOUT"; "UNKNOWN_ERROR"]%string.
Definition RPC_BLOCKCHAIN_ERRORS : list string :=
  ["CALL_EXCEPTION"; "INSUFFICIENT_FUNDS"; "INVALID_ARGUMENT"; "NETWORK_ERROR"; "NONCE_EXPIRED";
   "NOT_IMPLEMENTED"; "REPLACEMENT_UNDERPRICED"; "TRANSACTION_REPLACED";
   "UNPREDICTABLE_GAS_LIMIT"; "UNSUPPORTED_OPERATION"]%string.

Definition code_among (codes : list string) (error : Value) : bool :=
  existsb (is_string (field "code" error)) codes.

(** The test with which a provider's error ends the first phase. *)
Definition isPermanentBlockchainError (error : Value) : bool :=
  code_among RPC_BLOCKCHAIN_ERRORS error && negb (isCallExceptionWithTransientRpcError error).

(** The test with which [getCombinedProviderError] looks for one. *)
Definition is_rpc_blockchain_error (e : Value) : bool :=
  if negb (truthy (field "code" e)) || negb (code_among RPC_BLOCKCHAIN_ERRORS e) then false
  else if negb (is_string (field "code" e) "CALL_EXCEPTION") then true
  else has_revert_data e || code_is_3 e || negb (truthy (field "error" e)).

Definition is_rpc_server_error (e : Value) : bool :=
  (if truthy (field "code" e) then code_among RPC_SERVER_ERRORS e else false) ||
  isCallExceptionWithTransientRpcError e.

Definition is_timeout_result (e : Value) : bool := is_string (field "status" e) "timeout".

(** [isRecoverable === false]. *)
Definition unrecoverable (e : Value) : bool := is_false (field "isRecoverable" e).

(** [errorChainHasMessage], along the causes. *)
Fixpoint errorChainHasMessage (error : Value) (message : string) : bool :=
  match error with
  | VObject (ErrorObject | LogBlockRangeTooLargeError) fields =>
      is_string (field "message" error) message ||
      (fix cause_of (fs : list (string * Value)) : bool :=
         match fs with
         | [] => false
         | (key, v) :: fs' =>
             if String.eqb key "cause" then errorChainHasMessage v message else cause_of fs'
         end) fields
  | _ => false
  end.

Definition INVALID_RESPONSE : string := "Invalid response from provider".

Definition getSmartProviderErrorMessage (errorMsg : string) : string :=
  errorMsg +:+ ": RPC request failed. Check RPC validity. To override RPC URLs, see: https://docs.hyperlane.xyz/docs/deploy-hyperlane-troubleshooting#override-rpc-urls".

Definition most_diagnostic (errors : list Value) (otherwise : Value) : Value :=
  default otherwise
    (List.find (fun e => is_error e && errorChainHasMessage e INVALID_RESPONSE) errors).

Definition getMostDiagnosticUnhandledError (errors : list Value) : Value :=
  most_diagnostic errors (default VUndefined (head errors)).

(** The message of a combined server error. *)
Definition server_message (e : Value) : string :=
  match nested_message e with
  | Some message => message
  | None =>
      if is_nullish (field "message" (field "error" e))
      then getSmartProviderErrorMessage (text_of (field "code" e))
      else text_of (field "message" (field "error" e))
  end.

(** A [BlockchainError] is an error that is not recoverable and says so by its name. *)
Definition BlockchainError (message : string) (cause : Value) : Value :=
  new_error message (Some cause)
    [("isRecoverable", VBoolean false); ("name", VString "BlockchainError")]%string.

(** The error for a failure of every provider; what is looked for first decides. *)
Definition combine_errors (errors : list Value) (fallbackMsg : string) : Value :=
  let nonRecoverableError :=
    if forallb unrecoverable errors
    then first_known (List.find is_range_error errors) (head errors) else None in
  match List.find is_rpc_blockchain_error errors, nonRecoverableError,
        List.find is_rpc_server_error errors, List.find is_timeout_result errors with
  | Some e, _, _, _ =>
      BlockchainError
        (text_of (if is_nullish (field "reason" e) then field "code" e else field "reason" e)) e
  | None, Some e, _, _ =>
      new_error fallbackMsg (Some e) [("isRecoverable"%string, VBoolean false)]
  | None, None, Some e, _ => new_error (server_message e) (Some (most_diagnostic errors e)) []
  | None, None, None, Some e => new_error fallbackMsg (Some (most_diagnostic errors e)) []
  | None, None, None, None =>
      new_error fallbackMsg (Some (getMostDiagnosticUnhandledError errors)) []
  end.

Definition getCombinedProviderError (errors : list Value) (fallbackMsg : string) : Value :=
  match errors with
  | [] => new_error fallbackMsg None []
  | _ => combine_errors errors fallbackMsg
  end.

End jsonRpcError.

(** ** rpc/evm/utils.ts: what a failed read of logs means *)

Definition MAX_ERROR_INSPECTION_DEPTH : nat := 4.
Definition ERROR_TEXT_FIELDS : list string := ["message"; "reason"; "body"; "details"]%string.
Definition ERROR_NESTED_FIELDS : list string := ["error"; "cause"; "data"; "info"]%string.
Definition ERROR_HTTP_STATUS_FIELDS : list string := ["status"; "statusCode"]%string.
Definition TERMINAL_HTTP_STATUSES : list Z := [401; 403; 404; 405].
Definition METHOD_NOT_FOUND_RPC_CODE : Z := -32601.
Definition TERMINAL_ERROR_SIGNALS : list string :=
  ["unauthorized"; "forbidden"; "invalid api key"; "invalid project id"; "authentication failed";
   "must be authenticated"; "method not found"]%string.
Definition BLOCK_RANGE_ERROR_SIGNALS : list string :=
  ["block range"; "blockrange"; "block_range"; "range of blocks"; "range too large";
   "requested too many blocks"; "getlogs is limited to"; "query returned more than";
   "query exceeds max results"; "response size exceeded"; "result set too large";
   "too many results"; "too many logs"]%string.
Definition AMBIGUOUS_QUERY_LIMIT_SIGNAL : string := "limit your query to".
Definition REQUEST_RATE_ERROR_SIGNALS : list string :=
  ["per second"; "per minute"; "too many requests"; "rate limit"; "query rate"; "throttl"]%string.

Definition some_signal (signals : list string) (text : string) : bool :=
  existsb (fun signal => includes signal text) signals.

(** [room] is what is left of the inspection depth. *)
Fixpoint collectErrorText (room : nat) (error : Value) : string :=
  match error, room with
  | VString s, _ => s
  | VObject _ _, S room' | VArray _, S room' =>
      String.concat " "
        (omap (fun key => match field key error with VString s => Some s | _ => None end)
           ERROR_TEXT_FIELDS ++
         omap (fun key => if is_nullish (field key error) then None
                          else Some (collectErrorText room' (field key error)))
           ERROR_NESTED_FIELDS)
  | _, _ => EmptyString
  end.

Fixpoint someNestedError (matches : Value -> bool) (room : nat) (error : Value) : bool :=
  match room with
  | O => false
  | S room' =>
      is_record error &&
      (matches error ||
       existsb (fun key => negb (is_nullish (field key error)) &&
                           someNestedError matches room' (field key error)) ERROR_NESTED_FIELDS)
  end.

Definition isTerminalErrorNode (error : Value) : bool :=
  unrecoverable error || is_number (field "code" error) METHOD_NOT_FOUND_RPC_CODE ||
  existsb (fun key => existsb (is_number (field key error)) TERMINAL_HTTP_STATUSES)
    ERROR_HTTP_STATUS_FIELDS.

Definition lowered_text (error : Value) : string :=
  to_lower (collectErrorText MAX_ERROR_INSPECTION_DEPTH error).

Definition isTerminalLogReadError (error : Value) : bool :=
  someNestedError isTerminalErrorNode MAX_ERROR_INSPECTION_DEPTH error ||
  some_signal TERMINAL_ERROR_SIGNALS (lowered_text error).

Definition isBlockRangeError (error : Value) : bool :=
  someNestedError is_range_error MAX_ERROR_INSPECTION_DEPTH error ||
  (let text := lowered_text error in
   some_signal BLOCK_RANGE_ERROR_SIGNALS text ||
   (includes AMBIGUOUS_QUERY_LIMIT_SIGNAL text && negb (some_signal REQUEST_RATE_ERROR_SIGNALS text))).

(** How awaiting ends, if it does. *)
Inductive outcome (A : Type) : Type :=
| Returned (a : A)
| Thrown (error : Value)
| Hangs.
Arguments Returned {A} _.
Arguments Thrown {A} _.
Arguments Hangs {A}.

Definition act (S A : Type) : Type := S -> S * outcome A.

#[export] Instance act_ret {S} : MRet (act S) := fun _ a s => (s, Returned a).
#[export] Instance act_bind {S} : MBind (act S) := fun _ _ f m s =>
  match m s with
  | (s', Returned a) => f a s'
  | (s', Thrown e) => (s', Thrown e)
  | (s', Hangs) => (s', Hangs)
  end.
Definition raise {S A} (e : Value) : act S A := fun s => (s, Thrown e).

(** [try { m } catch (e) { h e }]. *)
Definition catch {S A} (m : act S A) (h : Value -> act S A) : act S A := fun s =>
  match m s with
  | (s', Thrown e) => h e s'
  | (s', r) => (s', r)
  end.

(** A [throw] of the prelude as a value. *)
Definition exn_value (e : exn) : Value :=
  match e with Error m | TypeError m | RangeError m | SyntaxError m => new_error m None [] end.
Definition of_result {S A} (r : result A) : act S A :=
  match r with Ok a => mret a | Throw e => raise (exn_value e) end.

(** ** [retryAsync]: it attempts at least once, and ends with an error that says it is not
    recoverable. [left] attempts come after this one, which is number [i] from 0. *)
Section retry.
Context {S : Type} (sleep : Z -> S -> S).

Fixpoint retry_from {A} (left i : nat) (runner : act S A) (baseRetryMs : Z) : act S A := fun s =>
  match runner s with
  | (s', Thrown error) =>
      if unrecoverable error then (s', Thrown error)
      else match left with
           | O => (s', Thrown error)
           | Datatypes.S left' =>
               retry_from left' (Datatypes.S i) runner baseRetryMs (sleep (baseRetryMs * 2 ^ Z.of_nat i) s')
           end
  | (s', r) => (s', r)
  end.

Definition retryAsync {A} (runner : act S A) (attempts : nat) (baseRetryMs : Z) : act S A :=
  retry_from (pred attempts) 0 runner baseRetryMs.

End retry.

(** ** Facts *)

Lemma act_bind_run {S A B} (m : act S A) (f : A -> act S B) s :
  (m ≫= f) s = match m s with
               | (s', Returned a) => f a s' | (s', Thrown e) => (s', Thrown e) | (s', Hangs) => (s', Hangs)
               end.
Proof. done. Qed.

Lemma act_bind_returned {S A B} (m : act S A) (f : A -> act S B) s s' b :
  (m ≫= f) s = (s', Returned b) -> exists s1 a, m s = (s1, Returned a) /\ f a s1 = (s', Returned b).
Proof. rewrite act_bind_run. destruct (m s) as [s1 [a|e|]]; naive_solver. Qed.

(** What is returned after retries was returned by one of the attempts. *)
Lemma retry_returned {S A} sleep (runner : act S A) left i base s s' a :
  retry_from sleep left i runner base s = (s', Returned a) ->
  exists s1, runner s1 = (s', Returned a).
Proof.
  revert i s. induction left as [|left IH]; intros i s; cbn [retry_from];
    destruct (runner s) as [s1 [b|e|]] eqn:E; try done; try (by intros [= <- <-]; eauto);
    destruct (unrecoverable e); try done.
  by apply IH.
Qed.

(** And so for what is thrown. *)
Lemma retry_thrown {S A} sleep (runner : act S A) left i base s s' e :
  retry_from sleep left i runner base s = (s', Thrown e) ->
  exists s1, runner s1 = (s', Thrown e).
Proof.
  revert i s. induction left as [|left IH]; intros i s; cbn [retry_from];
    destruct (runner s) as [s1 [b|x|]] eqn:E; try done;
    destruct (unrecoverable x); try (by intros [= <- <-]; eauto).
  by apply IH.
Qed.
