(* ===== verification/SmartProvider.v ===== *)
(** The provider that spreads requests over several RPC endpoints,
    sdk/src/providers/SmartProvider/SmartProvider.ts.
    Time is counted in milliseconds: a provider that is asked answers after a delay, or never;
    races are decided by who is first, and an answer that comes at the very moment of a timeout
    is late. What the endpoints answer is the class [Backends], as a function of all that
    happened before. Logging and connection headers are left out. *)
From Stdlib Require Import ZArith Lia String Ascii.
From stdpp Require Import base tactics list strings pretty.
From S2P Require Import Prelude RpcErrors.

#[local] Open Scope Z_scope.

(** ** Methods and providers: ProviderMethods.ts and the constructor *)

Inductive ProviderMethod : Type :=
| Call | EstimateGas | GetBalance | GetBlock | GetBlockNumber | GetCode | GetGasPrice
| GetStorageAt | GetTransaction | GetTransactionCount | GetTransactionReceipt | GetLogs
| SendTransaction | MaxPriorityFeePerGas.

#[export] Instance ProviderMethod_eq_dec : EqDecision ProviderMethod.
Proof. solve_decision. Defined.

Definition AllProviderMethods : list ProviderMethod :=
  [Call; EstimateGas; GetBalance; GetBlock; GetBlockNumber; GetCode; GetGasPrice; GetStorageAt;
   GetTransaction; GetTransactionCount; GetTransactionReceipt; GetLogs; SendTransaction;
   MaxPriorityFeePerGas].

Definition method_name (m : ProviderMethod) : string :=
  match m with
  | Call => "call" | EstimateGas => "estimateGas" | GetBalance => "getBalance"
  | GetBlock => "getBlock" | GetBlockNumber => "getBlockNumber" | GetCode => "getCode"
  | GetGasPrice => "getGasPrice" | GetStorageAt => "getStorageAt"
  | GetTransaction => "getTransaction" | GetTransactionCount => "getTransactionCount"
  | GetTransactionReceipt => "getTransactionReceipt" | GetLogs => "getLogs"
  | SendTransaction => "sendTransaction" | MaxPriorityFeePerGas => "maxPriorityFeePerGas"
  end.

Definition excludeProviderMethods (exclude : list ProviderMethod) : list ProviderMethod :=
  filter (fun m => m ∉ exclude) AllProviderMethods.

(** An explorer or an RPC endpoint. *)
Inductive Provider : Type := ExplorerProvider | RpcProvider.

Definition isExplorerProvider (p : Provider) : bool :=
  match p with ExplorerProvider => true | RpcProvider => false end.

Definition supportedMethods (p : Provider) : list ProviderMethod :=
  match p with
  | ExplorerProvider => excludeProviderMethods
      [Call; EstimateGas; GetGasPrice; GetTransactionCount; SendTransaction; MaxPriorityFeePerGas]
  | RpcProvider => AllProviderMethods
  end.

(** The family of an explorer; one of another family is not used. *)
Inductive ExplorerFamily : Type := Etherscan | OtherFamily.

(** The explorers come first. *)
Definition make_providers (blockExplorers : list (option ExplorerFamily)) (rpcUrls : nat)
    : result (list Provider) :=
  if (rpcUrls =? 0)%nat && bool_decide (blockExplorers = []) then
    Throw (Error "At least one RPC URL or block explorer is required")
  else Ok
    (omap (fun family => match family with
                         | None | Some Etherscan => Some ExplorerProvider
                         | Some OtherFamily => None
                         end) blockExplorers ++ replicate rpcUrls RpcProvider).

(** An option that is missing or zero has its default. *)
Record SmartProviderOptions : Type := {
  maxRetries : option nat; baseRetryDelayMs : option nat; fallbackStaggerMs : option nat
}.
Definition or_default (o : option nat) (d : nat) : nat :=
  match o with None | Some O => d | Some n => n end.

Definition DEFAULT_MAX_RETRIES : nat := 1.
Definition DEFAULT_BASE_RETRY_DELAY_MS : nat := 250.
Definition DEFAULT_STAGGER_DELAY_MS : nat := 1000.
Definition DEFAULT_PHASE2_WAIT_MULTIPLIER : Z := 20.

(** ** State and outcomes *)

(** [asked] lists the providers that were asked, by their position among those that support the
    method. *)
Record RpcState : Type := {
  now : Z;
  asked : list (nat * ProviderMethod);
  requestCount : nat
}.

Definition rpc (A : Type) : Type := act RpcState A.

(** [sleep(ms)]. *)
Definition wait_until (t : Z) (s : RpcState) : RpcState :=
  {| now := Z.max (now s) t; asked := asked s; requestCount := requestCount s |}.
Definition sleep (ms : Z) (s : RpcState) : RpcState := wait_until (now s + ms) s.

Definition note_asked (i : nat) (m : ProviderMethod) (s : RpcState) : RpcState :=
  {| now := now s; asked := asked s ++ [(i, m)]; requestCount := requestCount s |}.

(** ** [performWithFallback] *)

(** What a provider answers to a request: a value or an error. *)
Inductive reply (A : Type) : Type := Success (a : A) | Failure (error : Value).
Arguments Success {A} _.
Arguments Failure {A} _.

(** Delays are those after being asked. *)
Class Backends (A : Type) : Type := {
  answer : nat -> ProviderMethod -> RpcState -> option (nat * reply A);
  queryWaitTime : nat -> RpcState -> Z
}.

(** A reply on its way: when it arrives, if ever. *)
Notation pending A := (option (Z * reply A)).

Section perform.
Context `{Json} {A : Type} `{Backends A} (options : SmartProviderOptions).
Context (network params : string).

Definition staggerMs : Z := Z.of_nat (or_default (fallbackStaggerMs options) DEFAULT_STAGGER_DELAY_MS).

Definition timeout_result : Value := VObject PlainObject [("status", VString "timeout")]%string.

Definition failed_message (m : ProviderMethod) : string :=
  "All providers failed on chain " +:+ network +:+ " for method " +:+ method_name m +:+
  " and params " +:+ params.
Definition timed_out_message (m : ProviderMethod) : string :=
  "All providers timed out on chain " +:+ network +:+ " for method " +:+ method_name m.

(** *** Phase 2: the replies on their way *)

(** Who settles first: of two replies that are there at the start, the one asked first. *)
Definition settle_order (start : Z) (a b : pending A) : Z :=
  match a, b with
  | Some (t, _), Some (t', _) => Z.max start t - Z.max start t'
  | Some _, None => -1
  | None, Some _ => 1
  | None, None => 0
  end.

Inductive settlement : Type :=
| Won (t : Z) (a : A)
| AllFailed (t : Z) (errors : list Value)
| TimedOut.

(** [waitForProviderSuccess], raced against a deadline; [t] is the time of the last reply. *)
Fixpoint waitForProviderSuccess (deadline t : Z) (arrivals : list (pending A)) (errors : list Value)
    : settlement :=
  match arrivals with
  | [] => AllFailed t errors
  | None :: _ => TimedOut
  | Some (t', r) :: rest =>
      if t' <? deadline then
        match r with
        | Success a => Won t' a
        | Failure error => waitForProviderSuccess deadline t' rest (errors ++ [error])
        end
      else TimedOut
  end.

Definition phase2 (m : ProviderMethod) (promises : list (pending A)) (errors : list Value) : rpc A :=
  fun s =>
    match promises with
    | [] => (s, Thrown (getCombinedProviderError errors (failed_message m)))
    | _ =>
        let deadline := now s + staggerMs * DEFAULT_PHASE2_WAIT_MULTIPLIER in
        match waitForProviderSuccess deadline (now s) (js_sort (settle_order (now s)) promises) [] with
        | Won t a => (wait_until t s, Returned a)
        | TimedOut => (wait_until deadline s,
            Thrown (getCombinedProviderError (timeout_result :: errors) (timed_out_message m)))
        | AllFailed t late => (wait_until t s,
            Thrown (getCombinedProviderError (late ++ errors) (failed_message m)))
        end
    end.

(** *** Phase 1: one provider after the other *)

(** A provider in its cooldown is skipped, but not the last one, and not for logs. *)
Definition skipped (i : nat) (p : Provider) (is_last : bool) (m : ProviderMethod) (s : RpcState) : bool :=
  isExplorerProvider p && (0 <? queryWaitTime i s) && negb is_last && bool_decide (m <> GetLogs).

Fixpoint phase1 (m : ProviderMethod) (providers : list (nat * Provider))
    (promises : list (pending A)) (errors : list Value) : rpc A := fun s =>
  match providers with
  | [] => phase2 m promises errors s
  | (i, p) :: rest =>
      if skipped i p (bool_decide (rest = [])) m s then phase1 m rest promises errors s
      else
        let given := answer i m s in
        let s := note_asked i m s in
        if bool_decide (m = SendTransaction) then
          match given with
          | None => (s, Hangs)
          | Some (delay, Success a) => (wait_until (now s + Z.of_nat delay) s, Returned a)
          | Some (delay, Failure error) =>
              phase2 m promises (errors ++ [error]) (wait_until (now s + Z.of_nat delay) s)
          end
        else
          match given with
          | Some (delay, r) =>
              if Z.of_nat delay <? staggerMs then
                let s' := wait_until (now s + Z.of_nat delay) s in
                match r with
                | Success a => (s', Returned a)
                | Failure error =>
                    if isPermanentBlockchainError error
                    then phase2 m promises (errors ++ [error]) s'
                    else phase1 m rest promises (errors ++ [error]) s'
                end
              else phase1 m rest (promises ++ [Some (now s + Z.of_nat delay, r)]) errors
                     (wait_until (now s + staggerMs) s)
          | None => phase1 m rest (promises ++ [None]) errors (wait_until (now s + staggerMs) s)
          end
  end.

Definition performWithFallback (m : ProviderMethod) (providers : list Provider) : rpc A :=
  phase1 m (imap pair providers) [] [].

(** ** [perform] *)

Definition supported (m : ProviderMethod) (isMultiAddressGetLogs : bool) (providers : list Provider)
    : list Provider :=
  filter (fun p => m ∈ supportedMethods p /\
                   (isMultiAddressGetLogs = false \/ isExplorerProvider p = false)) providers.

Definition count_request (s : RpcState) : RpcState :=
  {| now := now s; asked := asked s; requestCount := S (requestCount s) |}.

(** [multi_address]: the filter of the request has an array of addresses. *)
Definition perform (all : list Provider) (m : ProviderMethod) (multi_address : bool) : rpc A :=
  let isMultiAddressGetLogs := bool_decide (m = GetLogs) && multi_address in
  match all with
  | [] => raise (new_error "No providers available" None [])
  | _ =>
      match supported m isMultiAddressGetLogs all with
      | [] => raise (new_error
          (if isMultiAddressGetLogs then "No RPC providers available for multi-address getLogs"
           else "No providers available for method " +:+ method_name m) None [])
      | providers => fun s =>
          let s := count_request s in
          if bool_decide (m = SendTransaction) then performWithFallback m providers s
          else retryAsync sleep (performWithFallback m providers)
                 (or_default (maxRetries options) DEFAULT_MAX_RETRIES)
                 (Z.of_nat (or_default (baseRetryDelayMs options) DEFAULT_BASE_RETRY_DELAY_MS)) s
      end
  end.

(** ** Fees

    [toBigNumber] is [BigNumber.from]; [None] for what it refuses. *)
Definition getPriorityFee (toBigNumber : A -> option Z) (all : list Provider) : rpc Z := fun s =>
  match perform all MaxPriorityFeePerGas false s with
  | (s', Returned a) => (s', Returned (default 1500000000 (toBigNumber a)))
  | (s', Thrown _) => (s', Returned 1500000000)
  | (s', Hangs) => (s', Hangs)
  end.

Record FeeData : Type := {
  lastBaseFeePerGas : option Z; maxFeePerGas : option Z; maxPriorityFeePerGas : option Z;
  gasPrice : option Z
}.

(** From the base fee of the latest block and the gas price, if they are known. *)
Definition getFeeData (toBigNumber : A -> option Z) (all : list Provider)
    (baseFeePerGas gasPrice : option Z) : rpc FeeData :=
  match baseFeePerGas with
  | None => mret {| lastBaseFeePerGas := None; maxFeePerGas := None; maxPriorityFeePerGas := None;
                    gasPrice := gasPrice |}
  | Some base =>
      fee ← getPriorityFee toBigNumber all;
      mret {| lastBaseFeePerGas := Some base; maxFeePerGas := Some (base * 2 + fee);
              maxPriorityFeePerGas := Some fee; gasPrice := gasPrice |}
  end.

End perform.
