(* ===== verification/SmartProviderFacts.v ===== *)
(** The SmartProvider: a transaction is submitted once; every other request ends, within bounds,
    with the answer of a provider or with an error that does not depend on the order in which
    the providers failed. *)
From Stdlib Require Import ZArith Lia String Ascii.
From stdpp Require Import base tactics list strings sets.
From S2P Require Import Prelude JsMap RpcErrors SmartProvider.

#[local] Open Scope Z_scope.

(** ** Searches in lists *)

Section find.
Context {A : Type} (f : A -> bool).

Lemma find_none_existsb l : List.find f l = None <-> existsb f l = false.
Proof. induction l as [|x l IH]; cbn; [done|]. by destruct (f x). Qed.

Lemma find_some_in l x : List.find f l = Some x -> x ∈ l /\ f x = true.
Proof. intros [Hx Hf]%List.find_some. split; [by apply list_elem_of_In|done]. Qed.

Lemma existsb_Exists l : existsb f l = true <-> Exists (fun x => f x = true) l.
Proof.
  induction l as [|x l IH]; cbn; [rewrite Exists_nil; done|].
  rewrite Exists_cons, orb_true_iff, IH. done.
Qed.

Lemma forallb_Forall l : forallb f l = true <-> Forall (fun x => f x = true) l.
Proof.
  induction l as [|x l IH]; cbn; [done|]. rewrite Forall_cons, andb_true_iff, IH. done.
Qed.

Lemma existsb_perm l l' : l ≡ₚ l' -> existsb f l = existsb f l'.
Proof. intros Hp. apply eq_true_iff_eq. rewrite !existsb_Exists. by rewrite Hp. Qed.

Lemma forallb_perm l l' : l ≡ₚ l' -> forallb f l = forallb f l'.
Proof. intros Hp. apply eq_true_iff_eq. rewrite !forallb_Forall. by rewrite Hp. Qed.

End find.

(** ** The combined error *)

Section combined.
Context `{Json}.

Definition is_blockchain (e : Value) : bool := is_string (field "name" e) "BlockchainError".

(** The test that ends the first phase and the test that finds the cause are one. *)
Lemma blockchain_tests_agree e : is_rpc_blockchain_error e = isPermanentBlockchainError e.
Proof.
  unfold is_rpc_blockchain_error, isPermanentBlockchainError, isCallExceptionWithTransientRpcError.
  destruct (truthy (field "code" e)) eqn:Ht; cbn [negb orb].
  - destruct (code_among RPC_BLOCKCHAIN_ERRORS e); [|done]. cbn [negb andb].
    destruct (is_string (field "code" e) "CALL_EXCEPTION"); [|done]. cbn [negb andb].
    by destruct (has_revert_data e), (code_is_3 e), (truthy (field "error" e)).
  - unfold code_among. destruct (field "code" e) as [| | | | |[|c s]| | |]; try done.
Qed.

(** What becomes of the errors, as tests that look at no order. *)
Lemma combined_verdict errors msg : errors <> [] ->
  let e := getCombinedProviderError errors msg in
  is_blockchain e = existsb isPermanentBlockchainError errors /\
  unrecoverable e = existsb isPermanentBlockchainError errors || forallb unrecoverable errors /\
  field "cause" e ∈ errors /\
  (is_blockchain e = false -> unrecoverable e = true ->
   is_range_error (field "cause" e) = existsb is_range_error errors).
Proof.
  intros Hne. destruct errors as [|e0 errors]; [done|].
  cbv zeta. set (es := e0 :: errors). assert (e0 ∈ es) as He0 by (subst es; set_solver).
  assert (existsb isPermanentBlockchainError es = existsb is_rpc_blockchain_error es) as ->.
  { clear. induction es as [|e es IH]; cbn; [done|]. by rewrite IH, blockchain_tests_agree. }
  assert (forall d, d ∈ es -> most_diagnostic es d ∈ es) as Hd.
  { intros d Hd. unfold most_diagnostic. destruct (List.find _ es) eqn:E; [|done].
    by apply find_some_in in E as [? _]. }
  change (getCombinedProviderError es msg) with (combine_errors es msg). unfold combine_errors.
  destruct (List.find is_rpc_blockchain_error es) as [e|] eqn:Eb.
  { apply find_some_in in Eb as [He Hf].
    assert (existsb is_rpc_blockchain_error es = true) as ->.
    { apply existsb_Exists, Exists_exists. by exists e. }
    split_and!; done. }
  apply find_none_existsb in Eb as ->. cbn [orb].
  destruct (forallb unrecoverable es) eqn:Hu.
  { destruct (List.find is_range_error es) as [e|] eqn:Er; cbn.
    - apply find_some_in in Er as [He Hf]. split_and!; [done..|]. intros _ _.
      assert (existsb is_range_error es = true) as E; [|by rewrite <- E in Hf].
      apply existsb_Exists, Exists_exists. by exists e.
    - apply find_none_existsb in Er. split_and!; [done..|]. intros _ _. subst es. etrans; [|symmetry; exact Er].
      cbn in Er. by apply orb_false_iff in Er as [Er _]. }
  destruct (List.find is_rpc_server_error es) as [e|] eqn:Es.
  { apply find_some_in in Es as [He _]. split_and!; [done|done|by apply Hd|done]. }
  destruct (List.find is_timeout_result es) as [e|] eqn:Et; [apply find_some_in in Et as [He _]|];
    split_and!; try done; by apply Hd.
Qed.

End combined.

(** ** How a request runs *)

(** The state after some requests of method [m], whose positions are below [n]. *)
Definition asks (m : ProviderMethod) (n most : nat) (ms : Z) (s s' : RpcState) : Prop :=
  exists ps, asked s' = asked s ++ ((fun i => (i, m)) <$> ps) /\ (length ps <= most)%nat /\
    Forall (fun i => (i < n)%nat) ps /\ now s <= now s' <= now s + ms.

(** A provider that was asked gave this value. *)
Definition given `{Backends A} (m : ProviderMethod) (n : nat) (a : A) : Prop :=
  exists i s delay, (i < n)%nat /\ answer i m s = Some (delay, Success a).

Lemma asks_refl m n s : asks m n 0 0 s s.
Proof. exists []. rewrite app_nil_r. split_and!; [done|done|constructor|lia|lia]. Qed.

Lemma asks_mono m n most most' ms ms' s s' :
  asks m n most ms s s' -> (most <= most')%nat -> ms <= ms' -> asks m n most' ms' s s'.
Proof. intros (ps & ? & ? & ? & ?) ??. exists ps. split_and!; [done|lia|done|lia|lia]. Qed.

Lemma asks_trans m n k1 k2 t1 t2 s1 s2 s3 :
  asks m n k1 t1 s1 s2 -> asks m n k2 t2 s2 s3 -> asks m n (k1 + k2) (t1 + t2) s1 s3.
Proof.
  intros (ps1 & E1 & L1 & F1 & T1) (ps2 & E2 & L2 & F2 & T2). exists (ps1 ++ ps2).
  split_and!; [|rewrite length_app; lia|by apply Forall_app|lia|lia].
  by rewrite E2, E1, <- app_assoc, fmap_app.
Qed.

Lemma asks_wait m n ms t s : 0 <= ms -> t <= now s + ms -> asks m n 0 ms s (wait_until t s).
Proof.
  intros ??. exists []. cbn. rewrite app_nil_r. split_and!; [done|done|constructor|lia|lia].
Qed.

Lemma asks_one m n i s : (i < n)%nat -> asks m n 1 0 s (note_asked i m s).
Proof. intros Hi. exists [i]. cbn. split_and!; [done|done|by repeat constructor|lia|lia]. Qed.

Lemma or_default_pos o d : (0 < d)%nat -> (0 < or_default o d)%nat.
Proof. intros ?. unfold or_default. destruct o as [[|k]|]; lia. Qed.

Section bounds.
Context `{Json} {A : Type} `{Backends A} (options : SmartProviderOptions) (network params : string).
Context (m : ProviderMethod) (n : nat).

Notation stagger := (staggerMs options).

Lemma stagger_pos : 0 < stagger.
Proof.
  unfold staggerMs. pose proof (or_default_pos (fallbackStaggerMs options) DEFAULT_STAGGER_DELAY_MS).
  unfold DEFAULT_STAGGER_DELAY_MS in *. lia.
Qed.

Definition ends_well (most : nat) (ms : Z) (s : RpcState) (run : RpcState * outcome A) : Prop :=
  asks m n most ms s run.1 /\
  match run.2 with Returned a => given m n a | Thrown _ => True | Hangs => False end.

Lemma ends_well_after k1 k2 t1 t2 k t s s' run :
  asks m n k1 t1 s s' -> ends_well k2 t2 s' run -> (k1 + k2 <= k)%nat -> t1 + t2 <= t ->
  ends_well k t s run.
Proof.
  intros H1 [H2 Hr] ??. split; [|done]. by eapply asks_mono; [eapply asks_trans|..].
Qed.

(** Replies on their way that are successes were given. *)
Definition given_pending (p : pending A) : Prop :=
  forall t a, p = Some (t, Success a) -> given m n a.

Lemma wait_settles deadline t l errors : Forall given_pending l ->
  match waitForProviderSuccess deadline t l errors with
  | Won t' a => given m n a /\ t' < deadline
  | AllFailed t' _ => t' = t \/ t' < deadline
  | TimedOut => True
  end.
Proof.
  intros Hl. revert t errors. induction Hl as [|p l Hp _ IH]; intros t errors; cbn; [by left|].
  destruct p as [[t' r]|]; [|done]. destruct (t' <? deadline) eqn:E; [|done]. apply Z.ltb_lt in E.
  destruct r as [a|e]; [by split; [eapply Hp|]|].
  specialize (IH t' (errors ++ [e])). destruct (waitForProviderSuccess _ _ _ _); try done.
  destruct IH as [->|?]; by right.
Qed.

Lemma phase2_ends promises errors s : Forall given_pending promises ->
  ends_well 0 (stagger * DEFAULT_PHASE2_WAIT_MULTIPLIER) s (phase2 options network params m promises errors s).
Proof.
  intros Hp. pose proof stagger_pos. unfold DEFAULT_PHASE2_WAIT_MULTIPLIER in *.
  unfold phase2. destruct promises as [|p promises].
  { split; [|done]. apply (asks_mono m n 0 0 0); [apply asks_refl|lia|lia]. }
  assert (Forall given_pending (js_sort (settle_order (now s)) (p :: promises))) as Hs.
  { eapply Forall_forall. intros q Hq. eapply Forall_forall; [exact Hp|].
    by rewrite <- (js_sort_perm (settle_order (now s)) (p :: promises)). }
  pose proof (wait_settles (now s + stagger * DEFAULT_PHASE2_WAIT_MULTIPLIER) (now s) _ [] Hs) as Hw.
  unfold DEFAULT_PHASE2_WAIT_MULTIPLIER in *.
  destruct (waitForProviderSuccess _ _ _ _) as [t a|t late|]; (split; [apply asks_wait; lia|done || apply Hw]).
Qed.

Lemma phase1_ends providers promises errors s : m <> SendTransaction ->
  Forall (fun '(i, _) => (i < n)%nat) providers -> Forall given_pending promises ->
  ends_well (length providers)
    (Z.of_nat (length providers) * stagger + stagger * DEFAULT_PHASE2_WAIT_MULTIPLIER) s
    (phase1 options network params m providers promises errors s).
Proof.
  intros Hm Hi. pose proof stagger_pos as Hst. revert promises errors s.
  induction Hi as [|[i p] rest Hi _ IH]; intros promises errors s Hp; [by apply phase2_ends|].
  cbn [phase1]. destruct (skipped _ _ _ _ _).
  { destruct (IH promises errors s Hp) as [Ha Hr]. split; [|done].
    eapply asks_mono; [exact Ha|cbn; lia|cbn [length]; lia]. }
  assert (forall ms t, 0 <= ms -> t <= now s + ms ->
    asks m n 1 ms s (wait_until t (note_asked i m s))) as Hstep.
  { intros ms t ??. apply (asks_mono m n (1 + 0) 1 (0 + ms)); [|lia|lia].
    eapply asks_trans; [by apply asks_one|]. by apply asks_wait. }
  rewrite bool_decide_eq_false_2 by done. cbn [length].
  assert (forall p', given_pending p' -> ends_well (S (length rest))
    (Z.of_nat (S (length rest)) * stagger + stagger * DEFAULT_PHASE2_WAIT_MULTIPLIER) s
    (phase1 options network params m rest (promises ++ [p']) errors
       (wait_until (now (note_asked i m s) + stagger) (note_asked i m s)))) as Hlate.
  { intros p' Hp'. eapply ends_well_after;
      [apply (Hstep stagger (now (note_asked i m s) + stagger)); cbn [now note_asked]; lia|apply IH|lia|lia].
    apply Forall_app. by split; [|constructor]. }
  destruct (answer i m s) as [[delay r]|] eqn:Ea; [|by apply Hlate].
  destruct (Z.of_nat delay <? stagger) eqn:Ed; [apply Z.ltb_lt in Ed|].
  - assert (asks m n 1 stagger s (wait_until (now (note_asked i m s) + Z.of_nat delay) (note_asked i m s)))
      as Hd by (apply Hstep; cbn [now note_asked]; lia).
    destruct r as [a|error].
    + split; [eapply asks_mono; [exact Hd|lia|unfold DEFAULT_PHASE2_WAIT_MULTIPLIER; nia]|].
      by exists i, s, delay.
    + destruct (isPermanentBlockchainError error).
      * eapply ends_well_after; [exact Hd|by apply phase2_ends|lia|].
        unfold DEFAULT_PHASE2_WAIT_MULTIPLIER; nia.
      * eapply ends_well_after; [exact Hd|by apply IH|lia|lia].
  - apply Hlate. intros t a [= <- ->]. by exists i, s, delay.
Qed.

Definition backoff_sum (base : Z) (left i : nat) : Z := base * (2 ^ Z.of_nat (i + left) - 2 ^ Z.of_nat i).

Lemma backoff_sum_S base left i :
  backoff_sum base (S left) i = base * 2 ^ Z.of_nat i + backoff_sum base left (S i).
Proof.
  unfold backoff_sum. rewrite (Nat.add_succ_r i left). cbn [Nat.add].
  rewrite (Nat2Z.inj_succ i), (Z.pow_succ_r 2 (Z.of_nat i)) by lia. lia.
Qed.

Lemma retry_ends (runner : rpc A) base k ms left i s : 0 <= base -> 0 <= ms ->
  (forall s, ends_well k ms s (runner s)) ->
  ends_well (S left * k) (Z.of_nat (S left) * ms + backoff_sum base left i) s
    (retry_from sleep left i runner base s).
Proof.
  intros Hb Hms Hrun. revert i s. induction left as [|left IH]; intros i s; cbn [retry_from].
  - specialize (Hrun s). unfold backoff_sum. rewrite Nat.add_0_r, Z.sub_diag.
    destruct Hrun as [Ha Hr]. destruct (runner s) as [s1 [a|e|]]; cbn in *; [|destruct (unrecoverable e)|done];
      (split; [eapply asks_mono; [exact Ha|lia|lia]|done]).
  - specialize (Hrun s). destruct Hrun as [Ha Hr].
    assert (0 <= backoff_sum base (S left) i).
    { unfold backoff_sum. assert (2 ^ Z.of_nat i <= 2 ^ Z.of_nat (i + S left)); [|nia].
      apply Z.pow_le_mono_r; lia. }
    destruct (runner s) as [s1 [a|e|]]; cbn [fst snd] in *; [|destruct (unrecoverable e)|done];
      try (split; [eapply asks_mono; [exact Ha|cbn; lia|nia]|done]).
    rewrite backoff_sum_S. unfold sleep.
    assert (0 <= base * 2 ^ Z.of_nat i) by (apply Z.mul_nonneg_nonneg; [done|apply Z.pow_nonneg; lia]).
    apply (ends_well_after (k + 0) (S left * k) (ms + base * 2 ^ Z.of_nat i)
      (Z.of_nat (S left) * ms + backoff_sum base left (S i)) _ _ s
      (wait_until (now s1 + base * 2 ^ Z.of_nat i) s1)); [|apply IH|lia|lia].
    eapply asks_trans; [exact Ha|]. apply asks_wait; lia.
Qed.

End bounds.

(** C33: The error that stands for several failures does not depend on the order in which they came:
    errors in any other order give an error that is a BlockchainError, and that is unrecoverable,
    exactly when this one is. It is a BlockchainError if some error is a permanent one, by the same
    test that ends the first phase, and unrecoverable if also when every error is; its cause is one
    of the errors, and a rejected block range if there is one and none is permanent. *)
Theorem combined_error_order `{Json} errors errors' msg : errors ≡ₚ errors' -> errors <> [] ->
  let e := getCombinedProviderError errors msg in
  let e' := getCombinedProviderError errors' msg in
  is_blockchain e' = is_blockchain e /\ unrecoverable e' = unrecoverable e /\
  (is_blockchain e = true <-> Exists (fun x => isPermanentBlockchainError x = true) errors) /\
  (unrecoverable e = true <-> is_blockchain e = true \/ Forall (fun x => unrecoverable x = true) errors) /\
  field "cause" e ∈ errors /\
  (is_blockchain e = false -> unrecoverable e = true ->
   (is_range_error (field "cause" e) = true <-> Exists (fun x => is_range_error x = true) errors)).
Proof.
  intros Hp Hne e e'. assert (errors' <> []) as Hne' by (by intros ->; apply Permutation_nil_r in Hp).
  destruct (combined_verdict errors msg Hne) as (Hb & Hu & Hc & Hr).
  destruct (combined_verdict errors' msg Hne') as (Hb' & Hu' & _).
  fold e in Hb, Hu, Hc, Hr. fold e' in Hb', Hu'.
  rewrite Hb', Hu', <- (existsb_perm _ _ _ Hp), <- (forallb_perm _ _ _ Hp), <- Hb.
  split_and!; [done|by rewrite Hu, Hb| | |done|].
  - by rewrite Hb, existsb_Exists.
  - by rewrite Hu, <- Hb, orb_true_iff, forallb_Forall.
  - intros H1 H2. by rewrite (Hr H1 H2), existsb_Exists.
Qed.

(** C31: a transaction is submitted at most once: [perform] with sendTransaction asks exactly one
    provider, the first that supports it, awaits its answer without a timeout, and returns it or
    throws an error for its failure; no other provider is asked and nothing is tried again. *)
Theorem sendTransaction_once `{Json} {A} `{Backends A} options network params all multi s :
  let run := perform options network params all SendTransaction multi s in
  match supported SendTransaction false all with
  | [] => asked run.1 = asked s /\ exists e, run.2 = Thrown e
  | _ => asked run.1 = asked s ++ [(0%nat, SendTransaction)] /\
      run.2 = match answer 0 SendTransaction (count_request s) with
              | None => Hangs
              | Some (_, Success a) => Returned a
              | Some (_, Failure error) => Thrown (getCombinedProviderError [error]
                  (failed_message network params SendTransaction))
              end
  end.
Proof.
  cbv zeta. unfold perform. destruct all as [|p0 all]; [cbn; eauto|].
  rewrite (bool_decide_eq_false_2 (SendTransaction = GetLogs)) by done. cbn [andb].
  destruct (supported SendTransaction false (p0 :: all)) as [|p rest] eqn:Hs; [cbn; eauto|].
  rewrite bool_decide_eq_true_2 by done.
  assert (p = RpcProvider) as ->.
  { assert (p ∈ supported SendTransaction false (p0 :: all)) as Hp by (rewrite Hs; set_solver).
    apply list_elem_of_filter in Hp as [[Hp _] _]. destruct p; [|done]. exfalso. revert Hp.
    apply (bool_decide_unpack (SendTransaction ∉ supportedMethods ExplorerProvider)).
    by vm_compute. }
  unfold performWithFallback. cbn [imap phase1]. unfold skipped. cbn [isExplorerProvider andb].
  rewrite bool_decide_eq_true_2 by done.
  destruct (answer 0 SendTransaction (count_request s)) as [[d [a|e]]|]; done.
Qed.

(** C32: every other request ends, whatever the providers do: after at most [attempts] rounds over
    the [n] providers that support it, in bounded time, and with a value only if a provider that
    supports the method gave it. *)
Theorem perform_settles `{Json} {A} `{Backends A} options network params all m multi s :
  m <> SendTransaction ->
  let n := length (supported m (bool_decide (m = GetLogs) && multi) all) in
  let attempts := or_default (maxRetries options) DEFAULT_MAX_RETRIES in
  let base := Z.of_nat (or_default (baseRetryDelayMs options) DEFAULT_BASE_RETRY_DELAY_MS) in
  ends_well m n (attempts * n)
    (Z.of_nat attempts * ((Z.of_nat n + 20) * staggerMs options) +
     base * (2 ^ (Z.of_nat attempts - 1) - 1)) s
    (perform options network params all m multi s).
Proof.
  intros Hm. cbv zeta. pose proof (stagger_pos options) as Hst.
  set (attempts := or_default (maxRetries options) _).
  assert (0 < attempts)%nat as Hat by (apply or_default_pos; unfold DEFAULT_MAX_RETRIES; lia).
  assert (1 <= 2 ^ (Z.of_nat attempts - 1)).
  { change 1 with (2 ^ 0) at 1. apply Z.pow_le_mono_r; lia. }
  assert (forall n e, ends_well m n (attempts * n)
    (Z.of_nat attempts * ((Z.of_nat n + 20) * staggerMs options) +
     Z.of_nat (or_default (baseRetryDelayMs options) DEFAULT_BASE_RETRY_DELAY_MS) *
     (2 ^ (Z.of_nat attempts - 1) - 1)) s (s, Thrown e : outcome A)) as Hthrow.
  { intros n e. split; [|done]. eapply asks_mono; [apply asks_refl|lia|].
    apply Z.add_nonneg_nonneg; apply Z.mul_nonneg_nonneg; nia. }
  unfold perform. destruct all as [|p0 all]; [apply Hthrow|].
  destruct (supported m _ (p0 :: all)) as [|p rest] eqn:Hs; [apply Hthrow|].
  rewrite (bool_decide_eq_false_2 (m = SendTransaction)) by done.
  set (ps := p :: rest). unfold retryAsync.
  fold attempts. destruct attempts as [|left] eqn:Ha; [lia|]. cbn [Init.Nat.pred].
  assert (forall s, ends_well m (length ps) (length ps)
    ((Z.of_nat (length ps) + 20) * staggerMs options) s
    (performWithFallback options network params m ps s)) as Hrun.
  { intros s'. unfold performWithFallback.
    destruct (phase1_ends options network params m (length ps) (imap pair ps) [] [] s') as [Hasks Hr];
      [done| |constructor|].
    - apply Forall_forall. intros [i q] Hq. apply elem_of_lookup_imap in Hq as (j & y & [= -> ->] & Hj).
      by apply lookup_lt_Some in Hj.
    - split; [|done]. eapply asks_mono; [exact Hasks|by rewrite length_imap|].
      rewrite length_imap. unfold DEFAULT_PHASE2_WAIT_MULTIPLIER. lia. }
  destruct (retry_ends m (length ps) (performWithFallback options network params m ps)
    (Z.of_nat (or_default (baseRetryDelayMs options) DEFAULT_BASE_RETRY_DELAY_MS))
    (length ps) ((Z.of_nat (length ps) + 20) * staggerMs options) left 0 (count_request s))
    as [Hasks Hr]; [lia|nia|done|].
  split; [|done]. destruct Hasks as (is0 & Hi & Hl & Hf & Ht). exists is0.
  change (now (count_request s)) with (now s) in Ht. destruct Ht as [Ht0 Ht].
  split_and!; [done..|]. unfold backoff_sum in Ht.
  etrans; [exact Ht|]. replace (Z.of_nat (S left) - 1) with (Z.of_nat (0 + left)) by lia. done.
Qed.

(** The first answer decides if it is in time. If the first provider in line is not in its
    cooldown and answers before the next would be asked, a value is returned at once and a
    permanent failure is thrown at once, as an unrecoverable error that it caused; no other
    provider is asked and there is no retry. *)
Theorem first_answer_decides `{Json} {A} `{Backends A} options network params all m multi s p rest delay r :
  m <> SendTransaction ->
  supported m (bool_decide (m = GetLogs) && multi) all = p :: rest ->
  skipped 0 p (bool_decide (rest = [])) m (count_request s) = false ->
  answer 0 m (count_request s) = Some (delay, r) -> Z.of_nat delay < staggerMs options ->
  match r with Success _ => True | Failure error => isPermanentBlockchainError error = true end ->
  let run := perform options network params all m multi s in
  asked run.1 = asked s ++ [(0%nat, m)] /\ now run.1 = now s + Z.of_nat delay /\
  match r with
  | Success a => run.2 = Returned a
  | Failure error => exists e, run.2 = Thrown e /\ unrecoverable e = true /\
      is_blockchain e = true /\ field "cause" e = error
  end.
Proof.
  intros Hm Hs Hk Ha Hd Hr. cbv zeta. unfold perform.
  destruct all as [|p0 all]; [done|]. rewrite Hs.
  rewrite (bool_decide_eq_false_2 (m = SendTransaction)) by done. unfold retryAsync.
  assert (forall left base, (r = r -> True) ->
    let run := retry_from sleep left 0 (performWithFallback options network params m (p :: rest)) base (count_request s) in
    run = (wait_until (now s + Z.of_nat delay) (note_asked 0 m (count_request s)),
           match r with Success a => Returned a
           | Failure error => Thrown (getCombinedProviderError [error] (failed_message network params m)) end))
    as Hrun.
  { intros left base _. cbv zeta.
    assert (performWithFallback options network params m (p :: rest) (count_request s) =
      (wait_until (now s + Z.of_nat delay) (note_asked 0 m (count_request s)),
       match r with Success a => Returned a
       | Failure error => Thrown (getCombinedProviderError [error] (failed_message network params m)) end)) as E.
    { unfold performWithFallback. cbn [imap phase1].
      assert (bool_decide (imap (pair ∘ S) rest = []) = bool_decide (rest = [])) as Hlast by by destruct rest.
      rewrite Hlast, Hk, (bool_decide_eq_false_2 (m = SendTransaction)), Ha by done.
      rewrite (proj2 (Z.ltb_lt _ _) Hd). destruct r as [a|error]; [done|]. rewrite Hr. done. }
    destruct left; cbn [retry_from]; rewrite E; (destruct r as [a|error]; [done|]);
      destruct (combined_verdict [error] (failed_message network params m)) as (_ & -> & _); try done;
      cbn [existsb]; by rewrite Hr. }
  rewrite (Hrun _ _ (fun _ => I)). cbn [fst snd asked now wait_until note_asked count_request].
  split; [done|]. split; [lia|]. destruct r as [a|error]; [done|].
  eexists. split; [done|].
  destruct (combined_verdict [error] (failed_message network params m)) as (Hb & Hu & Hc & _); [done|].
  rewrite Hb, Hu. cbn [existsb forallb]. rewrite Hr. split_and!; [done|done|].
  by apply list_elem_of_singleton in Hc.
Qed.

(** ** Concrete providers *)
Module SmartProviderSample.

#[local] Instance no_json : Json := {| json_parse := fun _ => None |}.

Definition two_attempts : SmartProviderOptions :=
  {| maxRetries := Some 2%nat; baseRetryDelayMs := None; fallbackStaggerMs := None |}.
Definition at_start : RpcState := {| now := 0; asked := []; requestCount := 0 |}.
Definition reverted : Value :=
  VObject ErrorObject [("code", VString "CALL_EXCEPTION"); ("data", VString "0x08c379a0")]%string.
Definition range_rejected : Value :=
  VObject LogBlockRangeTooLargeError [("isRecoverable", VBoolean false)]%string.
Definition no_history : Value := VObject ErrorObject [("isRecoverable", VBoolean false)]%string.

(** The same answers at every time. *)
Definition always (answers : list (option (nat * reply Z))) : Backends Z := {|
  answer := fun i _ _ => default None (answers !! i);
  queryWaitTime := fun _ _ => 0
|}.

Lemma combined_error_order_witness :
  [no_history; range_rejected] ≡ₚ [range_rejected; no_history] /\
  let e := getCombinedProviderError [no_history; range_rejected] "failed" in
  let e' := getCombinedProviderError [range_rejected; no_history] "failed" in
  is_blockchain e' = is_blockchain e /\ unrecoverable e' = unrecoverable e.
Proof.
  assert ([no_history; range_rejected] ≡ₚ [range_rejected; no_history]) as Hp by constructor.
  destruct (combined_error_order [no_history; range_rejected] [range_rejected; no_history] "failed" Hp
    ltac:(done)) as (Hb & Hu & _).
  split; [exact Hp|]. split; [exact Hb|exact Hu].
Defined.

(** The first provider is slow, the second fails: after a second it is asked, and half a second
    later the first answers. *)
#[local] Instance slow_first : Backends Z :=
  always [Some (1500%nat, Success 7); Some (100%nat, Failure no_history)].

Example slow_first_run :
  perform two_attempts "sepolia" "{}" [RpcProvider; RpcProvider] GetBalance false at_start =
  ({| now := 1500; asked := [(0%nat, GetBalance); (1%nat, GetBalance)]; requestCount := 1 |}, Returned 7).
Proof. vm_compute. reflexivity. Qed.

Lemma perform_settles_witness :
  GetBalance <> SendTransaction /\
  ends_well GetBalance 2 4 (2 * (22 * 1000) + 250) at_start
    (perform two_attempts "sepolia" "{}" [RpcProvider; RpcProvider] GetBalance false at_start).
Proof.
  split; [done|].
  exact (perform_settles two_attempts "sepolia" "{}" [RpcProvider; RpcProvider] GetBalance false at_start
    ltac:(done)).
Defined.

Lemma first_answer_decides_witness :
  let B := always [Some (10%nat, Failure reverted); Some (5%nat, Success 7)] in
  let run := @perform _ _ B two_attempts "sepolia" "{}" [RpcProvider; RpcProvider] Call false at_start in
  asked run.1 = [(0%nat, Call)] /\ now run.1 = 10 /\
  exists e, run.2 = Thrown e /\ unrecoverable e = true /\ is_blockchain e = true /\ field "cause" e = reverted.
Proof.
  exact (@first_answer_decides _ _ (always [Some (10%nat, Failure reverted); Some (5%nat, Success 7)])
    two_attempts "sepolia" "{}" [RpcProvider; RpcProvider] Call false at_start RpcProvider [RpcProvider] 10
    (Failure reverted) ltac:(done) eq_refl eq_refl eq_refl eq_refl eq_refl).
Defined.

(** A revert that is known when the deadline of the second phase comes is dropped for the
    timeout of another provider: the error is one to retry, and both are asked again. *)
Lemma late_revert_is_dropped :
  let B := always [Some (1500%nat, Failure reverted); None] in
  let run := @perform _ _ B two_attempts "sepolia" "{}" [RpcProvider; RpcProvider] Call false at_start in
  length (asked run.1) = 4%nat /\
  exists e, run.2 = Thrown e /\ unrecoverable e = false /\ is_timeout_result (field "cause" e) = true.
Proof. split; [by vm_compute|]. eexists. split; [by vm_compute|]. by vm_compute. Qed.

End SmartProviderSample.
