(* ===== verification/LogReads.v ===== *)
(** Reading event logs: numbers.ts of sdk/src/utils, the paginated reads of
    sdk/src/rpc/evm/utils.ts, the split of one request in
    sdk/src/providers/SmartProvider/HyperlaneJsonRpcProvider.ts, and the pages of explorers in
    sdk/src/block-explorer/etherscan.ts. What is read from is a class over the state of the
    outside; block numbers are integers in the range where numbers are exact. *)
From Stdlib Require Import ZArith Lia String Ascii.
From stdpp Require Import base tactics list strings pretty.
From Equations Require Import Equations.
From S2P Require Import Prelude JsMap Messages JsNumber RpcErrors.

#[local] Open Scope Z_scope.

(** ** numbers.ts *)

Definition MAX_SAFE_INTEGER : Z := 2 ^ 53 - 1.
Definition isSafeInteger (n : Z) : bool := Z.abs n <=? MAX_SAFE_INTEGER.

(** The value of [/^0x[0-9a-fA-F]*$/] and of [/^[0-9]+$/]; no digits at all read as zero. *)
Definition numeric_text (s : string) : option Z :=
  match s with
  | String "0" (String "x" digits) =>
      match take_digits 16 0 digits with (v, _, EmptyString) => Some v | _ => None end
  | _ => match take_digits 10 0 s with (v, S _, EmptyString) => Some v | _ => None end
  end.

Definition toNumber (value : Value) (name : string) : result Z :=
  match value with
  | VNumber n => if isSafeInteger n then Ok n else Throw (Error (name +:+ " is not a safe integer"))
  | VBigInt n =>
      if isSafeInteger n then Ok n
      else Throw (Error (name +:+ " bigint value exceeds safe integer range"))
  | VString s =>
      match numeric_text s with
      | None => Throw (Error (name +:+ " string is not a valid hex or decimal number"))
      | Some n =>
          if isSafeInteger n then Ok n
          else Throw (Error (name +:+ " string value exceeds safe integer range"))
      end
  | _ => Throw (Error ("Unable to convert " +:+ name +:+ " to number"))
  end.

Definition toString (value : Value) (name : string) : result string :=
  match value with
  | VString s => Ok s
  | _ => Throw (Error ("Unable to convert " +:+ name +:+ " to string"))
  end.

Definition toStringArray (value : Value) (name : string) : result (list string) :=
  match value with
  | VArray items => mapM (fun v => toString v name) items
  | _ => Throw (Error ("Unable to convert " +:+ name +:+ " to string[]"))
  end.

(** ** Logs, as they come and as they are returned *)

Record RawLog : Type := {
  raw_address : Value; raw_blockNumber : Value; raw_data : Value; raw_logIndex : Value;
  raw_topics : Value; raw_transactionHash : Value; raw_transactionIndex : Value
}.

(** [GetEventLogsResponse]. *)
Record EventLog : Type := {
  address : string; blockNumber : Z; data : string; logIndex : Z; topics : list string;
  transactionHash : string; transactionIndex : Z
}.

(** The conversion at the end of [getLogsFromRpc]. *)
Definition to_response (raw : RawLog) : result EventLog :=
  address ← toString (raw_address raw) "address";
  blockNumber ← toNumber (raw_blockNumber raw) "blockNumber";
  data ← toString (raw_data raw) "data";
  logIndex ← toNumber (raw_logIndex raw) "logIndex";
  topics ← toStringArray (raw_topics raw) "topics";
  transactionHash ← toString (raw_transactionHash raw) "transactionHash";
  transactionIndex ← toNumber (raw_transactionIndex raw) "transactionIndex";
  Ok {| address := address; blockNumber := blockNumber; data := data; logIndex := logIndex;
        topics := topics; transactionHash := transactionHash; transactionIndex := transactionIndex |}.

(** ** rpc/evm/utils.ts

    The provider of a chain, for one contract and one topic: its height, the logs of a range of
    blocks, and whether the contract has code (at a block). *)
Class LogSource (S : Type) : Type := {
  ls_sleep : Z -> S -> S;
  ls_getBlockNumber : act S Z;
  ls_getLogs : Z -> Z -> act S (list RawLog);
  ls_isContract : option Z -> act S bool
}.

Definition GENESIS_BLOCK_NUMBER : Z := 0.
Definition DEFAULT_LOG_PAGINATION_BLOCK_RANGE : Z := 500.
Definition MIN_LOG_PAGINATION_BLOCK_RANGE : Z := 1.
Definition LOG_PAGINATION_RETRY_BASE_MS : Z := 100.
Definition LOG_PAGINATION_RETRY_MAX_MS : Z := 1000.
Definition MAX_TRANSIENT_LOG_READ_RETRIES : nat := 3.
Definition MIN_UNRECOGNISED_FAILURE_BLOCK_RANGE : Z := 100.

Section source.
Context {S : Type} `{LogSource S}.

(** The last block of a chunk. *)
Definition chunk_end (endBlock start : Z) (range : positive) : Z :=
  Z.min (start + Z.pos range - 1) endBlock.

Definition reduced (attemptedRange : Z) : positive :=
  Z.to_pos (Z.max (attemptedRange / 2) MIN_LOG_PAGINATION_BLOCK_RANGE).

Definition backoffMs (transientRetries : nat) : Z :=
  Z.min (LOG_PAGINATION_RETRY_BASE_MS * 2 ^ Z.of_nat transientRetries) LOG_PAGINATION_RETRY_MAX_MS.

Definition narrowestRetriedRange (rangeRejected : bool) : Z :=
  if rangeRejected then MIN_LOG_PAGINATION_BLOCK_RANGE else MIN_UNRECOGNISED_FAILURE_BLOCK_RANGE.

(** What goes down with every request: the blocks that are left and the width of the chunk, each
    worth a round of retries. *)
Definition loop_measure (endBlock start : Z) (range : positive) (retries : nat) : nat :=
  (4 * Z.to_nat ((endBlock - start + 1) + (chunk_end endBlock start range - start + 1)) +
   (MAX_TRANSIENT_LOG_READ_RETRIES - retries))%nat.

(** The loop of [getLogsFromRpc]. *)
Equations? read_loop (endBlock start : Z) (range : positive) (retries : nat) (logs : list RawLog) (s : S)
    : S * outcome (list RawLog) by wf (loop_measure endBlock start range retries) lt :=
  read_loop endBlock start range retries logs s :=
    match decide (start <= endBlock) with
    | right _ => (s, Returned logs)
    | left _ =>
        let currentEndBlock := chunk_end endBlock start range in
        match ls_getLogs start currentEndBlock s with
        | (s', Returned currentLogs) =>
            read_loop endBlock (currentEndBlock + 1) range 0 (logs ++ currentLogs) s'
        | (s', Hangs) => (s', Hangs)
        | (s', Thrown error) =>
            let rangeRejected := isBlockRangeError error in
            if negb rangeRejected && isTerminalLogReadError error then (s', Thrown error)
            else
              let attemptedRange := currentEndBlock - start + 1 in
              match decide (rangeRejected = false /\ (retries < MAX_TRANSIENT_LOG_READ_RETRIES)%nat) with
              | left _ =>
                  read_loop endBlock start range (Datatypes.S retries) logs (ls_sleep (backoffMs retries) s')
              | right _ =>
                  match decide (attemptedRange <= narrowestRetriedRange rangeRejected) with
                  | left _ => (s', Thrown error)
                  | right _ => read_loop endBlock start (reduced attemptedRange) 0 logs s'
                  end
              end
        end
    end.
Proof.
  all: unfold loop_measure, chunk_end, reduced, narrowestRetriedRange, MIN_LOG_PAGINATION_BLOCK_RANGE,
    MIN_UNRECOGNISED_FAILURE_BLOCK_RANGE, MAX_TRANSIENT_LOG_READ_RETRIES in *.
  - lia.
  - lia.
  - assert (1 < attemptedRange) as Hw by (destruct rangeRejected; lia).
    rewrite Z2Pos.id by lia. assert (attemptedRange / 2 < attemptedRange) by (apply Z.div_lt; lia).
    subst attemptedRange currentEndBlock. lia.
Qed.

Definition getLogsFromRpc (fromBlock : Z) (toBlock range : option Z) : act S (list EventLog) :=
  let range := default DEFAULT_LOG_PAGINATION_BLOCK_RANGE range in
  _ ← of_result (js_assert (MIN_LOG_PAGINATION_BLOCK_RANGE <=? range)
                   "Log pagination range must be an integer of at least 1");
  endBlock ← match toBlock with Some b => mret b | None => ls_getBlockNumber end;
  logs ← read_loop endBlock fromBlock (Z.to_pos range) 0 [];
  of_result (mapM to_response logs).

(** The bisection of [getContractCreationBlockFromRpc]. *)
Equations? bisect (low high creationBlock : Z) (s : S) : S * outcome Z
    by wf (Z.to_nat (high - low + 1)) lt :=
  bisect low high creationBlock s :=
    match decide (low <= high) with
    | right _ => (s, Returned creationBlock)
    | left _ =>
        let mid := (low + high) / 2 in
        match ls_isContract (Some mid) s with
        | (s', Returned true) => bisect low (mid - 1) mid s'
        | (s', Returned false) => bisect (mid + 1) high creationBlock s'
        | (s', Thrown error) => (s', Thrown error)
        | (s', Hangs) => (s', Hangs)
        end
    end.
Proof.
  all: assert (low <= mid <= high) by (subst mid; split;
    [apply Z.div_le_lower_bound; lia|apply Z.div_le_upper_bound; lia]); lia.
Qed.

(** [assertIsContractAddress] of sdk/src/contracts/contracts.ts. *)
Definition assertIsContractAddress : act S unit :=
  isContract ← ls_isContract None;
  of_result (js_assert isContract "Address is not a contract").

Definition getContractCreationBlockFromRpc : act S Z :=
  _ ← assertIsContractAddress;
  latestBlock ← ls_getBlockNumber;
  bisect GENESIS_BLOCK_NUMBER latestBlock latestBlock.

End source.

(** ** HyperlaneJsonRpcProvider.ts: one request as several

    The endpoint itself: its height, and its logs for a filter as it is or for a range. *)
Class LogNode (S : Type) : Type := {
  ln_blockNumber : act S Z;
  ln_getLogs : Z -> Z -> act S (list RawLog);
  ln_superPerform : act S (list RawLog)
}.

(** A block tag: absent, a name, or a number. *)
Inductive BlockTag : Type := TagAbsent | TagLatest | TagEarliest | TagNumber (n : Z) | TagOther.

Record LogFilter : Type := { fromBlock : BlockTag; toBlock : BlockTag; by_blockHash : bool }.

(** Zero counts as absent for [maxBlockRange] and [maxBlockAge]. *)
Record Pagination : Type := {
  maxBlockRange : option N; minBlockNumber : option Z; maxBlockAge : option N
}.
Definition positive_of (o : option N) : option Z :=
  match o with Some (Npos p) => Some (Z.pos p) | _ => None end.

Definition NUM_PARALLEL_LOG_QUERIES : nat := 5.
Definition MAX_LOG_BLOCK_RANGES_TO_QUERY : Z := 10.

Definition history_unavailable (message : string) : Value :=
  new_error message None [("isRecoverable"%string, VBoolean false)].
Definition range_too_large (message : string) : Value :=
  VObject LogBlockRangeTooLargeError
    [("message", VString message); ("isRecoverable", VBoolean false)]%string.

(** The end of a filter, if it is a number or the height; the start likewise. *)
Definition end_block (tag : BlockTag) (current : Z) : option Z :=
  match tag with TagAbsent | TagLatest => Some current | TagNumber n => Some n | _ => None end.
Definition start_block (tag : BlockTag) : option Z :=
  match tag with TagAbsent | TagEarliest => Some 0 | TagNumber n => Some n | _ => None end.

(** The refusals of a request that starts below what is served. *)
Definition check_history (p : Pagination) (current startBlock endBlock : Z) : option Value :=
  let requested := "Blocks " +:+ pretty startBlock +:+ " to " +:+ pretty endBlock +:+ " were requested, but " in
  let below_floor :=
    match minBlockNumber p with
    | Some floor =>
        if startBlock <? floor
        then Some (history_unavailable (requested +:+ "this provider serves no block below " +:+ pretty floor))
        else None
    | None => None
    end in
  match positive_of (maxBlockAge p) with
  | Some age =>
      let earliest := current - age in
      if (startBlock <? earliest) &&
         match minBlockNumber p with None => true | Some floor => floor <=? earliest end
      then Some (history_unavailable (requested +:+ "at block height " +:+ pretty current +:+
             " a max block age of " +:+ pretty age +:+ " leaves this provider serving no block below " +:+
             pretty earliest))
      else below_floor
  | None => below_floor
  end.

(** [Math.ceil(a / b)] for a positive [b]. *)
Definition ceil_div (a b : Z) : Z := - ((- a) / b).

Definition check_range (p : Pagination) (startBlock endBlock : Z) : option Value :=
  match positive_of (maxBlockRange p) with
  | Some range =>
      let requiredQueries := ceil_div (endBlock - startBlock + 1) range in
      if MAX_LOG_BLOCK_RANGES_TO_QUERY <? requiredQueries
      then Some (range_too_large ("Serving blocks " +:+ pretty startBlock +:+ " to " +:+ pretty endBlock +:+
             " needs " +:+ pretty requiredQueries +:+ " queries at a block range of " +:+ pretty range +:+
             ", above the 10 this provider issues for one request"))
      else None
  | None => None
  end.

(** [for (let from = startBlock; from <= endBlock; from += blockChunkRange)]: every turn goes on by
    at least one block, so the number of blocks is fuel enough. *)
Fixpoint block_chunks (fuel : nat) (from endBlock blockChunkRange : Z) : list (Z * Z) :=
  match fuel with
  | O => []
  | S fuel' =>
      if from <=? endBlock then
        (from, Z.min (from + blockChunkRange - 1) endBlock) ::
          block_chunks fuel' (from + blockChunkRange) endBlock blockChunkRange
      else []
  end.

Definition blockChunks (p : Pagination) (startBlock endBlock : Z) : list (Z * Z) :=
  let blockChunkRange := default (endBlock - startBlock + 1) (positive_of (maxBlockRange p)) in
  block_chunks (Z.to_nat (endBlock - startBlock + 1)) startBlock endBlock blockChunkRange.

Section node.
Context {S : Type} `{LogNode S}.

(** The queries of one batch run although one of them fails; the first failure is thrown. *)
Fixpoint query_batch (batch : list (Z * Z)) (s : S) : S * outcome (list RawLog) :=
  match batch with
  | [] => (s, Returned [])
  | (from, to) :: rest =>
      let '(s1, r) := ln_getLogs from to s in
      let '(s2, rs) := query_batch rest s1 in
      (s2, match r, rs with
           | Returned logs, Returned more => Returned (logs ++ more)
           | Returned _, r => r
           | r, _ => r
           end)
  end.

(** Batches of [NUM_PARALLEL_LOG_QUERIES], one after the other. *)
Fixpoint query_batches (fuel : nat) (chunks : list (Z * Z)) : act S (list RawLog) :=
  match fuel, chunks with
  | Datatypes.S fuel', _ :: _ =>
      logs ← query_batch (take NUM_PARALLEL_LOG_QUERIES chunks);
      more ← query_batches fuel' (drop NUM_PARALLEL_LOG_QUERIES chunks);
      mret (logs ++ more)
  | _, _ => mret []
  end.

Definition performGetLogs (pagination : option Pagination) (filter : LogFilter) : act S (list RawLog) :=
  match pagination with
  | None => ln_superPerform
  | Some p =>
      if by_blockHash filter then ln_superPerform
      else
        match positive_of (maxBlockRange p), positive_of (maxBlockAge p), minBlockNumber p with
        | None, None, None => ln_superPerform
        | _, _, _ =>
            currentBlockNumber ← ln_blockNumber;
            match end_block (toBlock filter) currentBlockNumber, start_block (fromBlock filter) with
            | Some endBlock, Some startBlock =>
                let startBlock := if endBlock <? startBlock then endBlock else startBlock in
                match check_history p currentBlockNumber startBlock endBlock,
                      check_range p startBlock endBlock with
                | Some error, _ => raise error
                | None, Some error => raise error
                | None, None =>
                    let chunks := blockChunks p startBlock endBlock in
                    query_batches (length chunks) chunks
                end
            | _, _ => ln_superPerform
            end
        end
  end.

End node.

(** ** block-explorer/etherscan.ts: pages of logs

    A page of at most [offset] logs; [None] for an answer that is no list. *)
Class ExplorerApi (S : Type) : Type := {
  ex_sleep : Z -> S -> S;
  ex_readPage : nat -> nat -> act S (option (list RawLog))
}.

Definition EXPLORER_LOGS_PAGE_SIZE : nat := 1000.
Definition MAX_EXPLORER_LOG_PAGES : nat := 10.

(** The three fields that identify a log. *)
Definition logIdentity (log : RawLog) : result string :=
  block ← toNumber (raw_blockNumber log) "blockNumber";
  hash ← match raw_transactionHash log with
         | VString s => Ok (to_lower s)
         | _ => Throw (TypeError "transactionHash.toLowerCase is not a function")
         end;
  index ← toNumber (raw_logIndex log) "logIndex";
  Ok (pretty block +:+ ":" +:+ hash +:+ ":" +:+ pretty index).

Definition page_limit_error : Value :=
  new_error "Explorer served 10 full pages of 1000 logs, which is as far as it pages" None
    [("isRecoverable"%string, VBoolean false)].
Definition page_read_error (page : nat) (cause : Value) : Value :=
  new_error ("Explorer failed to serve page " +:+ pretty page +:+ " of the logs: " +:+
      (if is_error cause then text_of (field "message" cause) else text_of cause))
    (Some cause) [("isRecoverable"%string, VBoolean false)].

(** The logs of a page, noted under their identities. *)
Fixpoint note_logs (logs : list RawLog) (m : list (string * RawLog)) : result (list (string * RawLog)) :=
  match logs with
  | [] => Ok m
  | log :: rest => id ← logIdentity log; note_logs rest (map_set id log m)
  end.

Section explorer.
Context {S : Type} `{ExplorerApi S}.

(** [retryAsync] with its defaults. *)
Definition readExplorerLogPage (page : nat) : act S (option (list RawLog)) :=
  catch (retryAsync ex_sleep (ex_readPage page EXPLORER_LOGS_PAGE_SIZE) 5 50)
    (fun error => raise (page_read_error page error)).

Fixpoint read_pages (left page : nat) (logsByIdentity : list (string * RawLog)) : act S (list RawLog) :=
  match left with
  | O => raise page_limit_error
  | Datatypes.S left' =>
      pageLogs ← readExplorerLogPage page;
      match pageLogs with
      | None => raise (new_error "Explorer did not return a list of logs" None [])
      | Some pageLogs =>
          logsByIdentity ← of_result (note_logs pageLogs logsByIdentity);
          if (length pageLogs <? EXPLORER_LOGS_PAGE_SIZE)%nat then mret (map_values logsByIdentity)
          else read_pages left' (Datatypes.S page) logsByIdentity
      end
  end.

Definition readPaginatedExplorerLogs : act S (list RawLog) := read_pages MAX_EXPLORER_LOG_PAGES 1 [].

(** [toEventLogsResponse]: the texts of an explorer are taken as they are. *)
Definition toEventLogsResponse (raw : RawLog) : result EventLog :=
  blockNumber ← toNumber (raw_blockNumber raw) "blockNumber";
  logIndex ← toNumber (raw_logIndex raw) "logIndex";
  transactionIndex ← toNumber (raw_transactionIndex raw) "transactionIndex";
  Ok {| address := text_of (raw_address raw); blockNumber := blockNumber;
        data := text_of (raw_data raw); logIndex := logIndex;
        topics := match raw_topics raw with VArray items => text_of <$> items | _ => [] end;
        transactionHash := text_of (raw_transactionHash raw); transactionIndex := transactionIndex |}.

Definition getLogsFromEtherscanLikeExplorerAPI : act S (list EventLog) :=
  rawLogs ← readPaginatedExplorerLogs;
  of_result (mapM toEventLogsResponse rawLogs).

End explorer.
