(* ===== verification/LogReadsFacts.v ===== *)
(** Reading logs loses none: a read that returns has every log of its range, whether a range is
    read in chunks that shrink, split into queries, or paged through; a read ends after a bounded
    number of requests; and the bisection finds the block of a deployment. *)
From Stdlib Require Import ZArith Lia String Ascii.
From stdpp Require Import base tactics list strings sets.
From S2P Require Import Prelude JsMap RpcErrors LogReads.

#[local] Open Scope Z_scope.

(** ** The logs of a chain *)

(** The logs of the blocks from [from] to [to]. *)
Definition logs_between {L} (chain : Z -> list L) (from to : Z) : list L :=
  concat (chain <$> seqZ from (to - from + 1)).

Lemma logs_between_empty {L} (chain : Z -> list L) from to : to < from -> logs_between chain from to = [].
Proof. intros ?. unfold logs_between. by rewrite seqZ_nil by lia. Qed.

Lemma logs_between_split {L} (chain : Z -> list L) from mid to : from <= mid + 1 -> mid <= to ->
  logs_between chain from to = logs_between chain from mid ++ logs_between chain (mid + 1) to.
Proof.
  intros ??. unfold logs_between. rewrite <- concat_app, <- fmap_app.
  replace (to - from + 1) with ((mid - from + 1) + (to - (mid + 1) + 1)) by lia.
  rewrite seqZ_app by lia. by replace (from + (mid - from + 1)) with (mid + 1) by lia.
Qed.

(** ** Sources that answer completely

    A successful answer has the logs of exactly the blocks asked for, and requests are counted. *)
Class CompleteSource (S : Type) `{LogSource S} (chain : Z -> list RawLog) : Type := {
  requests : S -> nat;
  sleep_requests ms s : requests (ls_sleep ms s) = requests s;
  getLogs_requests from to s : (requests (ls_getLogs from to s).1 <= Datatypes.S (requests s))%nat;
  getBlockNumber_requests s : (requests (ls_getBlockNumber s).1 <= Datatypes.S (requests s))%nat;
  isContract_requests b s : (requests (ls_isContract b s).1 <= Datatypes.S (requests s))%nat;
  getLogs_complete from to s s' logs : from <= to ->
    ls_getLogs from to s = (s', Returned logs) -> logs = logs_between chain from to
}.

(** Failures that end a read of [width] blocks. *)
Definition fatal (error : Value) (width : Z) : Prop :=
  if isBlockRangeError error then width <= 1
  else isTerminalLogReadError error = true \/ width <= MIN_UNRECOGNISED_FAILURE_BLOCK_RANGE.

Section source.
Context {S : Type} `{LogSource S} (chain : Z -> list RawLog) `{!CompleteSource S chain}.

(** How a read may end, apart from its logs. *)
Definition read_fails (from to : Z) (r : outcome (list RawLog)) : Prop :=
  exists a b s, from <= a <= b /\ b <= to /\ (ls_getLogs a b s).2 = r /\
    match r with Thrown e => fatal e (b - a + 1) | Hangs => True | Returned _ => False end.

Lemma chunk_end_bounds endBlock start range : start <= endBlock ->
  start <= chunk_end endBlock start range <= endBlock.
Proof. unfold chunk_end. lia. Qed.

Lemma read_fails_mono from from' to r : from <= from' -> read_fails from' to r -> read_fails from to r.
Proof. intros ? (a & b & s & ? & ? & ?). exists a, b, s. split_and!; [lia|lia|lia|naive_solver..]. Qed.

(** The decreases of the loop, as arithmetic. *)
Lemma measure_next endBlock start range retries : start <= endBlock ->
  (loop_measure endBlock (chunk_end endBlock start range + 1) range 0 <
   loop_measure endBlock start range retries)%nat.
Proof.
  intros ?. unfold loop_measure, chunk_end, MAX_TRANSIENT_LOG_READ_RETRIES. lia.
Qed.

Lemma measure_retry endBlock start range retries : (retries < MAX_TRANSIENT_LOG_READ_RETRIES)%nat ->
  (loop_measure endBlock start range (Datatypes.S retries) < loop_measure endBlock start range retries)%nat.
Proof. unfold loop_measure, MAX_TRANSIENT_LOG_READ_RETRIES. lia. Qed.

Lemma measure_reduced endBlock start range retries : start <= endBlock ->
  1 < chunk_end endBlock start range - start + 1 ->
  (loop_measure endBlock start (reduced (chunk_end endBlock start range - start + 1)) 0 <
   loop_measure endBlock start range retries)%nat.
Proof.
  unfold loop_measure, reduced, MIN_LOG_PAGINATION_BLOCK_RANGE, MAX_TRANSIENT_LOG_READ_RETRIES.
  set (w := chunk_end endBlock start range - start + 1). intros ? Hw.
  assert (w / 2 < w) by (apply Z.div_lt; lia). unfold chunk_end at 1. rewrite Z2Pos.id by lia. lia.
Qed.

Lemma read_loop_spec endBlock start range retries logs s :
  let run := read_loop endBlock start range retries logs s in
  (requests run.1 <= requests s + loop_measure endBlock start range retries)%nat /\
  match run.2 with
  | Returned all => all = logs ++ logs_between chain start endBlock
  | r => read_fails start endBlock r
  end.
Proof.
  remember (loop_measure endBlock start range retries) as n eqn:Hn.
  revert start range retries logs s Hn. induction (lt_wf n) as [n _ IH].
  intros start range retries logs s ->. cbv zeta. rewrite read_loop_equation_1.
  destruct (decide (start <= endBlock)) as [Hle|Hgt];
    [|cbn; split; [lia|by rewrite logs_between_empty, app_nil_r by lia]].
  cbv zeta. pose proof (chunk_end_bounds endBlock start range Hle) as Hc.
  set (last := chunk_end endBlock start range) in *.
  pose proof (getLogs_requests start last s) as Hreq.
  pose proof (measure_next endBlock start range retries Hle) as Hm0. fold last in Hm0.
  destruct (ls_getLogs start last s) as [s1 [ls|e|]] eqn:E; cbn [fst snd] in *.
  - destruct (IH _ Hm0 (last + 1) range 0%nat (logs ++ ls) s1 eq_refl) as [IH1 IH2].
    split; [lia|]. destruct (read_loop _ _ _ _ _ _) as [s2 [all|e|]]; cbn [fst snd] in *.
    + rewrite IH2, (logs_between_split chain start last endBlock) by lia.
      rewrite (getLogs_complete start last s s1 ls) by (done || lia). by rewrite app_assoc.
    + by eapply read_fails_mono; [|exact IH2]; lia.
    + by eapply read_fails_mono; [|exact IH2]; lia.
  - assert (forall P : Prop, P -> fatal e (last - start + 1) ->
      P /\ read_fails start endBlock (Thrown e)) as Hstop.
    { intros P HP Hf. split; [done|]. exists start, last, s. rewrite E. split_and!; first [done|lia]. }
    unfold fatal in Hstop.
    destruct (negb (isBlockRangeError e) && isTerminalLogReadError e) eqn:Ht.
    { apply andb_true_iff in Ht as [Hr%negb_true_iff Ht]. rewrite Hr in Hstop.
      cbn. apply Hstop; [lia|by left]. }
    destruct (decide _) as [[Hr Hlt]|Hn].
    + pose proof (measure_retry endBlock start range retries Hlt) as Hm.
      destruct (IH _ Hm start range (Datatypes.S retries) logs (ls_sleep (backoffMs retries) s1) eq_refl)
        as [IH1 IH2]. rewrite sleep_requests in IH1. split; [lia|exact IH2].
    + destruct (decide _) as [Hn'|Hw]; unfold narrowestRetriedRange, MIN_LOG_PAGINATION_BLOCK_RANGE in *.
      * cbn. apply Hstop; [lia|]. destruct (isBlockRangeError e); [done|by right].
      * assert (1 < last - start + 1) as Hw1.
        { unfold MIN_UNRECOGNISED_FAILURE_BLOCK_RANGE in Hw. destruct (isBlockRangeError e); lia. }
        pose proof (measure_reduced endBlock start range retries Hle Hw1) as Hm. fold last in Hm.
        destruct (IH _ Hm start (reduced (last - start + 1)) 0%nat logs s1 eq_refl) as [IH1 IH2].
        split; [lia|exact IH2].
  - split; [lia|]. exists start, last, s. rewrite E. split_and!; first [done|lia].
Qed.

(** ** The bisection *)

Lemma log2_half n : 1 <= n / 2 -> Z.log2 n = Z.succ (Z.log2 (n / 2)).
Proof.
  intros Hn. assert (1 < n) by (destruct (Z_lt_le_dec 1 n); [done|];
    assert (n / 2 <= 1 / 2) by (apply Z.div_le_mono; lia); change (1 / 2) with 0 in *; lia).
  change (n / 2) with (n / 2 ^ 1). rewrite <- Z.shiftr_div_pow2, Z.log2_shiftr by lia.
  assert (0 < Z.log2 n) by (by apply Z.log2_pos). lia.
Qed.

(** The most requests to bisect [n] blocks. *)
Definition probes (n : Z) : nat := if decide (1 <= n) then Z.to_nat (Z.log2 n + 1) else 0.

Lemma probes_half n k : 1 <= n -> k <= n / 2 -> (1 + probes k <= probes n)%nat.
Proof.
  intros Hn Hk. unfold probes. rewrite (decide_True (P := 1 <= n)) by done.
  pose proof (Z.log2_nonneg n). destruct (decide (1 <= k)); [|lia].
  rewrite (log2_half n) by lia. assert (Z.log2 k <= Z.log2 (n / 2)) by (by apply Z.log2_le_mono).
  pose proof (Z.log2_nonneg k). lia.
Qed.

Lemma bisect_spec deployed low high creation s :
  (forall b s s' r, ls_isContract (Some b) s = (s', Returned r) -> r = (deployed <=? b)) ->
  low <= deployed <= creation -> high <= creation <= high + 1 ->
  let run := bisect low high creation s in
  (requests run.1 <= requests s + probes (high - low + 1))%nat /\
  match run.2 with
  | Returned c => c = deployed
  | Thrown e => exists b s0, (ls_isContract (Some b) s0).2 = Thrown e
  | Hangs => exists b s0, (ls_isContract (Some b) s0).2 = Hangs
  end.
Proof.
  intros Htrue. remember (Z.to_nat (high - low + 1)) as n eqn:Hn.
  revert low high creation s Hn. induction (lt_wf n) as [n _ IH].
  intros low high creation s -> Hd Hc. cbv zeta. rewrite bisect_equation_1.
  destruct (decide (low <= high)) as [Hle|Hgt]; [|cbn; split; lia].
  cbv zeta. set (mid := (low + high) / 2).
  assert (low <= mid <= high /\ mid - low <= (high - low + 1) / 2 /\ high - mid <= (high - low + 1) / 2)
    as (Hmid & Hl & Hr).
  { subst mid. pose proof (Z.div_mod (low + high) 2). pose proof (Z.mod_pos_bound (low + high) 2).
    split_and!; try (apply Z.div_le_lower_bound; lia); lia. }
  assert (forall k, k <= (high - low + 1) / 2 -> (1 + probes k <= probes (high - low + 1))%nat) as Hp
    by (intros k; apply probes_half; lia).
  pose proof (isContract_requests (Some mid) s) as Hcount.
  destruct (ls_isContract (Some mid) s) as [s1 [[]|e|]] eqn:E; cbn [fst] in Hcount.
  - apply Htrue in E. symmetry in E. apply Z.leb_le in E.
    destruct (IH (Z.to_nat (mid - 1 - low + 1)) ltac:(lia) low (mid - 1) mid s1 eq_refl) as [IH1 IH2]; [lia|lia|].
    split; [|exact IH2]. specialize (Hp (mid - 1 - low + 1)). lia.
  - apply Htrue in E. symmetry in E. apply Z.leb_gt in E.
    destruct (IH (Z.to_nat (high - (mid + 1) + 1)) ltac:(lia) (mid + 1) high creation s1 eq_refl) as [IH1 IH2];
      [lia|lia|].
    split; [|exact IH2]. specialize (Hp (high - (mid + 1) + 1)). lia.
  - specialize (Hp 0). assert (0 <= (high - low + 1) / 2) by (apply Z.div_pos; lia).
    cbn [fst snd]. split; [lia|]. exists mid, s. by rewrite E.
  - specialize (Hp 0). assert (0 <= (high - low + 1) / 2) by (apply Z.div_pos; lia).
    cbn [fst snd]. split; [lia|]. exists mid, s. by rewrite E.
Qed.

End source.

(** ** One request as several queries *)

Lemma ceil_div_le n r k : 0 < r -> ceil_div n r <= k <-> n <= k * r.
Proof.
  intros Hr. unfold ceil_div. pose proof (Z.div_mod (- n) r). pose proof (Z.mod_pos_bound (- n) r). nia.
Qed.

Lemma ceil_div_shift n r : 0 < r -> ceil_div n r = 1 + ceil_div (n - r) r.
Proof.
  intros Hr. unfold ceil_div. replace (- (n - r)) with (- n + 1 * r) by lia. rewrite Z.div_add by lia. lia.
Qed.

(** The chunks of a range: their bounds, how many they are, and that nothing is left out. *)
Lemma block_chunks_spec fuel from to r : 0 < r -> to - from + 1 <= Z.of_nat fuel ->
  let chunks := block_chunks fuel from to r in
  Forall (fun '(a, b) => from <= a <= b /\ b <= to /\ b - a + 1 <= r) chunks /\
  Z.of_nat (length chunks) = Z.max 0 (ceil_div (to - from + 1) r) /\
  forall L (chain : Z -> list L),
    concat ((fun '(a, b) => logs_between chain a b) <$> chunks) = logs_between chain from to.
Proof.
  intros Hr. revert from. induction fuel as [|fuel IH]; intros from Hf; cbv zeta; cbn [block_chunks].
  - assert (ceil_div (to - from + 1) r <= 0) by (apply ceil_div_le; lia).
    split_and!; [constructor|cbn; lia|]. intros. by rewrite logs_between_empty by lia.
  - destruct (from <=? to) eqn:E; [apply Z.leb_le in E|apply Z.leb_gt in E].
    + destruct (IH (from + r)) as (Hb & Hl & Hc); [lia|]. split_and!.
      * constructor; [lia|]. eapply Forall_impl; [exact Hb|]. intros [a b]. lia.
      * cbn [length]. rewrite Nat2Z.inj_succ, Hl.
        replace (to - (from + r) + 1) with (to - from + 1 - r) by lia.
        rewrite (ceil_div_shift (to - from + 1) r) by done.
        assert (~ ceil_div (to - from + 1) r <= 0) as Hn by (rewrite ceil_div_le by done; lia).
        rewrite (ceil_div_shift (to - from + 1) r) in Hn by done. lia.
      * intros L chain. cbn. rewrite Hc.
        destruct (Z.le_gt_cases (from + r - 1) to) as [Hle|Hgt].
        -- rewrite Z.min_l, (logs_between_split chain from (from + r - 1) to) by lia.
           by replace (from + r - 1 + 1) with (from + r) by lia.
        -- rewrite Z.min_r, (logs_between_empty chain (from + r)), app_nil_r by lia. done.
    + assert (ceil_div (to - from + 1) r <= 0) by (apply ceil_div_le; lia).
      split_and!; [constructor|cbn; lia|]. intros. by rewrite logs_between_empty by lia.
Qed.

(** A node whose answers are complete, and counted. *)
Class CompleteNode (S : Type) `{LogNode S} (chain : Z -> list RawLog) : Type := {
  queries : S -> nat;
  node_getLogs_queries from to s : queries (ln_getLogs from to s).1 = Datatypes.S (queries s);
  node_getLogs_complete from to s s' logs : from <= to ->
    ln_getLogs from to s = (s', Returned logs) -> logs = logs_between chain from to
}.

(** What an endpoint answers for: not below its floors, and in at most ten queries. *)
Definition served (p : Pagination) (current start last : Z) : Prop :=
  (forall floor, minBlockNumber p = Some floor -> floor <= start) /\
  (forall age, positive_of (maxBlockAge p) = Some age -> current - age <= start).
Definition narrow (p : Pagination) (start last : Z) : Prop :=
  forall range, positive_of (maxBlockRange p) = Some range -> last - start + 1 <= 10 * range.

Lemma positive_of_pos o r : positive_of o = Some r -> 0 < r.
Proof. destruct o as [[|q]|]; cbn; [done| |done]. intros [= <-]. lia. Qed.

Lemma check_history_spec p current start last :
  match check_history p current start last with
  | Some e => ~ served p current start last /\ unrecoverable e = true
  | None => served p current start last
  end.
Proof.
  unfold check_history, served. cbv zeta.
  destruct (minBlockNumber p) as [floor|]; [destruct (start <? floor) eqn:E1|];
    (destruct (positive_of (maxBlockAge p)) as [age|]; [destruct (start <? current - age) eqn:E2|]);
    try (destruct (floor <=? current - age) eqn:E3); cbn [andb];
    rewrite ?Z.ltb_lt, ?Z.ltb_ge, ?Z.leb_le, ?Z.leb_gt in *.
  all: first
    [ split; [intros [Hf Ha]; try specialize (Hf _ eq_refl); try specialize (Ha _ eq_refl); lia|reflexivity]
    | split; intros ? [= <-]; lia
    | split; [intros ? [= <-]; lia|done]
    | split; [done|intros ? [= <-]; lia]
    | done ].
Qed.

Lemma check_range_spec p start last :
  match check_range p start last with
  | Some e => ~ narrow p start last /\ unrecoverable e = true /\ isBlockRangeError e = true
  | None => narrow p start last
  end.
Proof.
  unfold check_range, narrow. destruct (positive_of (maxBlockRange p)) as [r|] eqn:Er; [|done].
  pose proof (positive_of_pos _ _ Er). cbv zeta. destruct (_ <? _) eqn:E.
  - apply Z.ltb_lt in E. split; [|done]. intros Hn. specialize (Hn r eq_refl).
    apply (ceil_div_le _ r 10) in Hn; [unfold MAX_LOG_BLOCK_RANGES_TO_QUERY in E; lia|done].
  - apply Z.ltb_ge in E. intros ? [= <-]. by apply ceil_div_le.
Qed.

Section node.
Context {S : Type} `{LogNode S} (chain : Z -> list RawLog) `{!CompleteNode S chain}.

(** How a list of queries may end, apart from its logs. *)
Definition query_ends (chunks : list (Z * Z)) (r : outcome (list RawLog)) : Prop :=
  match r with
  | Returned logs => logs = concat ((fun '(a, b) => logs_between chain a b) <$> chunks)
  | r => exists a b s, (a, b) ∈ chunks /\ (ln_getLogs a b s).2 = r
  end.

Definition ordered (chunks : list (Z * Z)) : Prop := Forall (fun '(a, b) => a <= b) chunks.

Lemma query_batch_ends chunks s : ordered chunks ->
  queries (query_batch chunks s).1 = (queries s + length chunks)%nat /\
  query_ends chunks (query_batch chunks s).2.
Proof.
  revert s. induction chunks as [|[a b] rest IH]; intros s Ho; cbn [query_batch]; [cbn; split; [lia|done]|].
  apply Forall_cons in Ho as [Hab Ho]. pose proof (node_getLogs_queries a b s) as Hq.
  destruct (ln_getLogs a b s) as [s1 r] eqn:E. cbn [fst] in Hq. destruct (IH s1 Ho) as [IH1 IH2].
  destruct (query_batch rest s1) as [s2 rs]. cbn [fst snd] in *. split; [cbn; lia|].
  assert (forall r', (r = r' -> match r' with Returned _ => False | _ => True end ->
    exists a' b' s', (a', b') ∈ (a, b) :: rest /\ (ln_getLogs a' b' s').2 = r')) as Hfst.
  { intros r' -> _. exists a, b, s. rewrite E. split; [set_solver|done]. }
  destruct r as [logs|e|]; [|by apply Hfst|by apply Hfst].
  destruct rs as [more|e|]; cbn in IH2 |- *.
  - rewrite IH2. by rewrite (node_getLogs_complete a b s s1 logs).
  - destruct IH2 as (a' & b' & s' & ? & ?). exists a', b', s'. split; [set_solver|done].
  - destruct IH2 as (a' & b' & s' & ? & ?). exists a', b', s'. split; [set_solver|done].
Qed.

Lemma query_batches_end fuel chunks s : (length chunks <= fuel)%nat -> ordered chunks ->
  (queries (query_batches fuel chunks s).1 <= queries s + length chunks)%nat /\
  query_ends chunks (query_batches fuel chunks s).2.
Proof.
  revert chunks s. induction fuel as [|fuel IH]; intros chunks s Hf Ho; cbn [query_batches].
  { destruct chunks; [|cbn in Hf; lia]. cbn. split; [lia|done]. }
  destruct chunks as [|c chunks]; [cbn; split; [lia|done]|]. set (cs := c :: chunks) in *.
  rewrite <- (take_drop NUM_PARALLEL_LOG_QUERIES cs) in Ho. apply Forall_app in Ho as [Ho1 Ho2].
  destruct (query_batch_ends (take NUM_PARALLEL_LOG_QUERIES cs) s Ho1) as [Hq1 He1].
  rewrite act_bind_run. destruct (query_batch _ s) as [s1 r]. cbn [fst snd] in *.
  pose proof (length_take cs NUM_PARALLEL_LOG_QUERIES). pose proof (length_drop cs NUM_PARALLEL_LOG_QUERIES).
  assert (forall x, x ∈ take NUM_PARALLEL_LOG_QUERIES cs -> x ∈ cs) as Hin1.
  { intros x Hx. rewrite <- (take_drop NUM_PARALLEL_LOG_QUERIES cs). set_solver. }
  assert (forall x, x ∈ drop NUM_PARALLEL_LOG_QUERIES cs -> x ∈ cs) as Hin2.
  { intros x Hx. rewrite <- (take_drop NUM_PARALLEL_LOG_QUERIES cs). set_solver. }
  assert (length (drop NUM_PARALLEL_LOG_QUERIES cs) <= fuel)%nat as Hf2.
  { unfold NUM_PARALLEL_LOG_QUERIES in *. subst cs. cbn [length] in *. lia. }
  destruct r as [logs|e|]; cbn [fst snd].
  - destruct (IH _ s1 Hf2 Ho2) as [Hq2 He2]. rewrite act_bind_run.
    destruct (query_batches fuel _ s1) as [s2 [more|e|]]; cbn [fst snd] in *.
    + unfold mret, act_ret. cbn [fst snd]. split; [lia|]. cbn. rewrite He1, He2, <- concat_app, <- fmap_app. by rewrite take_drop.
    + split; [lia|]. destruct He2 as (a & b & s' & ? & ?). exists a, b, s'. auto.
    + split; [lia|]. destruct He2 as (a & b & s' & ? & ?). exists a, b, s'. auto.
  - split; [lia|]. destruct He1 as (a & b & s' & ? & ?). exists a, b, s'. auto.
  - split; [lia|]. destruct He1 as (a & b & s' & ? & ?). exists a, b, s'. auto.
Qed.

End node.

(** ** Pages of an explorer *)

(** The pages an explorer serves, as long as it is asked. *)
Class PagedExplorer (S : Type) `{ExplorerApi S} (pages : nat -> list RawLog) : Type := {
  page_served page s s' o : ex_readPage page EXPLORER_LOGS_PAGE_SIZE s = (s', Returned o) -> o = Some (pages page)
}.

Section explorer.
Context {S : Type} `{ExplorerApi S} (pages : nat -> list RawLog) `{!PagedExplorer S pages}.

Lemma page_read page s s' o : readExplorerLogPage page s = (s', Returned o) -> o = Some (pages page).
Proof.
  unfold readExplorerLogPage, catch, retryAsync.
  destruct (retry_from _ _ _ _ _ s) as [s1 [a|e|]] eqn:E; intros [= <- <-].
  apply retry_returned in E as [s0 E]. by apply page_served in E.
Qed.

(** What is noted under the identities: one log for each, each under its own. *)
Definition identified (logs : list RawLog) (m : list (string * RawLog)) : Prop :=
  map_wf m /\
  (forall id log, (id, log) ∈ m -> log ∈ logs /\ logIdentity log = Ok id) /\
  (forall log, log ∈ logs -> exists id, logIdentity log = Ok id /\ id ∈ map_keys m).

Lemma identified_nil : identified [] [].
Proof. split_and!; [constructor|set_solver..]. Qed.

Lemma identified_snoc logs m log id : identified logs m -> logIdentity log = Ok id ->
  identified (logs ++ [log]) (map_set id log m).
Proof.
  intros (Hw & Hf & Hc) Hid. assert (map_wf (map_set id log m)) as Hw' by (by apply map_wf_set).
  split_and!; [done| |].
  - intros k v Hin%(map_elem_get _ _ _ Hw'). rewrite map_get_set in Hin. case_decide as Hk.
    + injection Hin as <-. subst k. split; [set_solver|done].
    + apply map_get_elem in Hin. destruct (Hf _ _ Hin). set_solver.
  - intros l Hl. rewrite map_keys_set. apply elem_of_app in Hl as [Hl|Hl%list_elem_of_singleton].
    + destruct (Hc l Hl) as (k & ? & ?). exists k. split; [done|]. case_decide; set_solver.
    + subst l. exists id. split; [done|]. case_decide; set_solver.
Qed.

Lemma note_logs_identified new logs m m' : identified logs m -> note_logs new m = Ok m' ->
  identified (logs ++ new) m'.
Proof.
  revert logs m. induction new as [|log new IH]; intros logs m Hi; cbn.
  - intros [= <-]. by rewrite app_nil_r.
  - destruct (logIdentity log) as [id|] eqn:E; [|done]. cbn. intros Hn.
    change (log :: new) with ([log] ++ new). rewrite app_assoc. by eapply IH; [apply identified_snoc|].
Qed.

Lemma note_logs_throws new m e : note_logs new m = Throw e -> exists log, log ∈ new /\ logIdentity log = Throw e.
Proof.
  revert m. induction new as [|log new IH]; intros m; cbn; [done|].
  destruct (logIdentity log) as [id|e'] eqn:E; cbn.
  - intros Hn. destruct (IH _ Hn) as (l & ? & ?). exists l. set_solver.
  - intros [= ->]. exists log. set_solver.
Qed.

(** One log for each identity among [all], under [all]. *)
Definition one_per_identity (all logs : list RawLog) : Prop :=
  logs ⊆ all /\ (exists ids, logIdentity <$> logs = Ok <$> ids /\ NoDup ids) /\
  forall log, log ∈ all -> exists id log', logIdentity log = Ok id /\ log' ∈ logs /\ logIdentity log' = Ok id.

Lemma identified_values all m : identified all m -> one_per_identity all (map_values m).
Proof.
  intros (Hw & Hf & Hc). split_and!.
  - intros log [id Hin]%elem_of_map_values. by destruct (Hf _ _ Hin).
  - exists (map_keys m). split; [|exact Hw]. unfold map_values, map_keys.
    rewrite <- !list_fmap_compose. apply list_fmap_ext. intros i [id log] Hi. cbn.
    by destruct (Hf id log (list_elem_of_lookup_2 _ _ _ Hi)).
  - intros log Hl. destruct (Hc _ Hl) as (id & ? & Hk). unfold map_keys in Hk.
    apply list_elem_of_fmap in Hk as ([id' log'] & -> & Hin). exists id', log'.
    destruct (Hf _ _ Hin). split_and!; [done| |done]. apply elem_of_map_values. by exists id'.
Qed.

Definition full (page : nat) : Prop := (EXPLORER_LOGS_PAGE_SIZE <= length (pages page))%nat.

(** How paging from [page] on may end, with [left] pages to go. *)
Definition paging_ends (left page : nat) (before : list RawLog) (r : outcome (list RawLog)) : Prop :=
  match r with
  | Returned logs =>
      exists k, (k < left)%nat /\ Forall full (seq page k) /\ ~ full (page + k) /\
        one_per_identity (before ++ concat (pages <$> seq page (Datatypes.S k))) logs
  | Thrown e =>
      (e = page_limit_error /\ Forall full (seq page left)) \/
      (exists p s, (p < page + left)%nat /\ (readExplorerLogPage p s).2 = Thrown e) \/
      (exists p log x, (p < page + left)%nat /\ log ∈ pages p /\ logIdentity log = Throw x /\ e = exn_value x)
  | Hangs => exists p s, (p < page + left)%nat /\ (readExplorerLogPage p s).2 = Hangs
  end.

Lemma paging_ends_next left page before r : full page ->
  paging_ends left (Datatypes.S page) (before ++ pages page) r ->
  paging_ends (Datatypes.S left) page before r.
Proof.
  intros Hf. destruct r as [logs|e|]; cbn [paging_ends].
  - intros (k & Hk & Hp & Hs & Ho). exists (Datatypes.S k). split_and!; [lia| | |].
    + cbn. by constructor.
    + by replace (page + Datatypes.S k)%nat with (Datatypes.S page + k)%nat by lia.
    + rewrite <- (app_assoc before) in Ho. exact Ho.
  - intros [[-> Hp]|[(p & s & ? & ?)|(p & log & x & ? & ?)]].
    + left. split; [done|]. cbn. by constructor.
    + right; left. exists p, s. split; [lia|done].
    + right; right. exists p, log, x. split; [lia|done].
  - intros (p & s & ? & ?). exists p, s. split; [lia|done].
Qed.

Lemma read_pages_end left page before m s : identified before m ->
  paging_ends left page before (read_pages left page m s).2.
Proof.
  revert page before m s. induction left as [|left IH]; intros page before m s Hi; cbn [read_pages].
  { left. split; [done|constructor]. }
  rewrite act_bind_run. destruct (readExplorerLogPage page s) as [s1 [o|e|]] eqn:E; cbn [snd].
  2: { right; left. exists page, s. rewrite E. split; [lia|done]. }
  2: { exists page, s. rewrite E. split; [lia|done]. }
  apply page_read in E as ->. rewrite act_bind_run.
  destruct (note_logs (pages page) m) as [m'|x] eqn:En; cbn [of_result].
  - pose proof (note_logs_identified _ _ _ _ Hi En) as Hi'. cbn [mret act_ret].
    destruct (length (pages page) <? EXPLORER_LOGS_PAGE_SIZE)%nat eqn:El.
    + apply Nat.ltb_lt in El. exists 0%nat. unfold full. rewrite Nat.add_0_r.
      split_and!; [lia|constructor|lia|]. cbn. rewrite app_nil_r. by apply identified_values.
    + apply Nat.ltb_ge in El. apply paging_ends_next; [done|]. by apply IH.
  - apply note_logs_throws in En as (log & Hl & Hx). right; right. exists page, log, x.
    split_and!; [lia|done..].
Qed.

End explorer.

(** ** Claims *)

(** C34: reading the logs of a range from an RPC endpoint loses none and ends. With a chunk of at
    least one block, at most [8 * blocks + 3] requests are made, however the endpoint fails and
    however the chunks shrink; a read that returns has every log of the blocks asked for, in
    order, each in the form it is returned in; and an error that is thrown is one that an
    endpoint has answered and that no smaller chunk could mend (a range error for a single block,
    a terminal error, or another error at a hundred blocks or less), or the error of a log that
    has no such form. *)
Theorem getLogsFromRpc_complete {S} `{LogSource S} (chain : Z -> list RawLog) `{!CompleteSource S chain}
    (fromBlock toBlock : Z) (range : option Z) (s : S) :
  1 <= default DEFAULT_LOG_PAGINATION_BLOCK_RANGE range ->
  let run := getLogsFromRpc fromBlock (Some toBlock) range s in
  (requests run.1 <= requests s + (8 * Z.to_nat (toBlock - fromBlock + 1) + 3))%nat /\
  match run.2 with
  | Returned logs => mapM to_response (logs_between chain fromBlock toBlock) = Ok logs
  | Thrown e =>
      read_fails fromBlock toBlock (Thrown e) \/
      exists x, mapM to_response (logs_between chain fromBlock toBlock) = Throw x /\ e = exn_value x
  | Hangs => read_fails fromBlock toBlock Hangs
  end.
Proof.
  intros Hr. cbv zeta. unfold getLogsFromRpc, MIN_LOG_PAGINATION_BLOCK_RANGE.
  set (r := default _ range) in *. rewrite (proj2 (Z.leb_le 1 r) Hr).
  change (js_assert true _) with (Ok ()). rewrite !act_bind_run. cbn [of_result mret act_ret].
  rewrite !act_bind_run. cbn [mret act_ret]. rewrite !act_bind_run.
  pose proof (read_loop_spec chain toBlock fromBlock (Z.to_pos r) 0 [] s) as [Hq He].
  destruct (read_loop _ _ _ _ _ s) as [s1 [logs|e|]]; cbn [fst snd] in *.
  - rewrite app_nil_l in He. subst logs.
    destruct (mapM to_response _) as [out|x] eqn:Ex; cbn [of_result].
    + unfold mret, act_ret. cbn [fst snd]. split; [|done].
      etrans; [exact Hq|]. unfold loop_measure, chunk_end, MAX_TRANSIENT_LOG_READ_RETRIES. lia.
    + unfold raise. cbn [fst snd]. split; [|right; eauto].
      etrans; [exact Hq|]. unfold loop_measure, chunk_end, MAX_TRANSIENT_LOG_READ_RETRIES. lia.
  - split; [|by left]. etrans; [exact Hq|]. unfold loop_measure, chunk_end, MAX_TRANSIENT_LOG_READ_RETRIES. lia.
  - split; [|done]. etrans; [exact Hq|]. unfold loop_measure, chunk_end, MAX_TRANSIENT_LOG_READ_RETRIES. lia.
Qed.

(** The bisection finds the block of a deployment. Of an endpoint that says truly whether the
    contract has code at a block, for a contract deployed at [deployed], no later than a height
    of [latest], what is returned is [deployed], after no more requests than two and one for
    every bit of the number of blocks; and nothing is thrown that the endpoint has not thrown,
    but for a contract that has no code. *)
Theorem creation_block_found {S} `{LogSource S} (chain : Z -> list RawLog) `{!CompleteSource S chain}
    (deployed latest : Z) (s : S) :
  0 <= deployed <= latest ->
  (forall b s s' r, ls_isContract (Some b) s = (s', Returned r) -> r = (deployed <=? b)) ->
  (forall s s' n, ls_getBlockNumber s = (s', Returned n) -> n = latest) ->
  (forall s s' r, ls_isContract None s = (s', Returned r) -> r = true) ->
  let run := getContractCreationBlockFromRpc s in
  (requests run.1 <= requests s + 2 + probes (latest + 1))%nat /\
  match run.2 with
  | Returned block => block = deployed
  | Thrown e => exists s0, (ls_getBlockNumber s0).2 = Thrown e \/ exists b, (ls_isContract b s0).2 = Thrown e
  | Hangs => exists s0, (ls_getBlockNumber s0).2 = Hangs \/ exists b, (ls_isContract b s0).2 = Hangs
  end.
Proof.
  intros Hd Htrue Hlatest Hcode. cbv zeta. unfold getContractCreationBlockFromRpc, assertIsContractAddress.
  rewrite !act_bind_run. pose proof (isContract_requests None s) as Hc.
  destruct (ls_isContract None s) as [s1 [c|e|]] eqn:E; cbn [fst snd] in *.
  2, 3: split; [lia|]; exists s; right; exists None; by rewrite E.
  apply Hcode in E as ->. change (js_assert true _) with (Ok ()). cbn [of_result mret act_ret].
  rewrite !act_bind_run. pose proof (getBlockNumber_requests s1) as Hb.
  destruct (ls_getBlockNumber s1) as [s2 [n|e|]] eqn:E; cbn [fst snd] in *.
  2, 3: split; [lia|]; exists s1; left; by rewrite E.
  apply Hlatest in E as ->. unfold GENESIS_BLOCK_NUMBER.
  pose proof (bisect_spec chain deployed 0 latest latest s2 Htrue) as [Hq He]; [lia..|].
  rewrite Z.sub_0_r in Hq. split; [lia|].
  destruct (bisect _ _ _ s2) as [s3 [n|e|]]; cbn [snd] in *; [done| |];
    destruct He as (b & s0 & He); exists s0; right; by exists (Some b).
Qed.

(** A paginated request for logs answers all of it or nothing. Where an endpoint has limits and
    a filter names a range, an answer has every log from the start of the range (or from its end,
    if the start is later) to its end, the range is one the endpoint serves (above its floors,
    and in no more than ten queries), and no more queries were made than it takes, each within
    the range that one query may have. A request that is not served is refused without a query,
    by an error that no retry mends, and, if the range is too large, by one that a reader answers
    with a smaller range. Otherwise an error is one that a query has ended with. *)
Theorem performGetLogs_complete {S} `{LogNode S} (chain : Z -> list RawLog) `{!CompleteNode S chain}
    (p : Pagination) (filter : LogFilter) (current start0 last : Z) (s s1 : S) :
  by_blockHash filter = false ->
  (positive_of (maxBlockRange p), positive_of (maxBlockAge p), minBlockNumber p) <> (None, None, None) ->
  ln_blockNumber s = (s1, Returned current) ->
  end_block (toBlock filter) current = Some last -> start_block (fromBlock filter) = Some start0 ->
  let start := Z.min start0 last in
  let chunks := blockChunks p start last in
  let run := performGetLogs (Some p) filter s in
  (queries run.1 <= queries s1 + length chunks)%nat /\
  (narrow p start last -> (positive_of (maxBlockRange p) <> None -> (length chunks <= 10)%nat) /\
     Forall (fun '(a, b) => start <= a <= b /\ b <= last /\
       forall r, positive_of (maxBlockRange p) = Some r -> b - a + 1 <= r) chunks) /\
  match run.2 with
  | Returned logs => served p current start last /\ narrow p start last /\ logs = logs_between chain start last
  | Thrown e =>
      (run.1 = s1 /\ unrecoverable e = true /\
         (~ served p current start last \/ ~ narrow p start last /\ isBlockRangeError e = true)) \/
      exists a b s0, (a, b) ∈ chunks /\ (ln_getLogs a b s0).2 = Thrown e
  | Hangs => exists a b s0, (a, b) ∈ chunks /\ (ln_getLogs a b s0).2 = Hangs
  end.
Proof.
  intros Hh Hp Hn Hend Hstart. cbv zeta. set (start := Z.min start0 last). set (chunks := blockChunks p start last).
  set (r := default (last - start + 1) (positive_of (maxBlockRange p))).
  assert (0 < r) as Hr.
  { subst r. destruct (positive_of _) eqn:Er; cbn; [by eapply positive_of_pos|]. subst start. lia. }
  destruct (block_chunks_spec (Z.to_nat (last - start + 1)) start last r Hr) as (Hb & Hl & Hall); [lia|].
  change (block_chunks _ start last r) with chunks in Hb, Hl, Hall.
  unfold performGetLogs. rewrite Hh.
  assert (forall (a b : act S (list RawLog)),
    match positive_of (maxBlockRange p), positive_of (maxBlockAge p), minBlockNumber p with
    | None, None, None => a | _, _, _ => b end = b) as -> by (intros; repeat case_match; done).
  rewrite act_bind_run, Hn, Hend, Hstart. fold start.
  replace (if last <? start0 then last else start0) with start
    by (subst start; destruct (Z.ltb_spec last start0); lia).
  pose proof (check_history_spec p current start last) as Hserved.
  pose proof (check_range_spec p start last) as Hnarrow.
  assert (ordered chunks) as Ho by (eapply Forall_impl; [exact Hb|]; intros [a b]; lia).
  assert (narrow p start last -> (positive_of (maxBlockRange p) <> None -> (length chunks <= 10)%nat) /\
    Forall (fun '(a, b) => start <= a <= b /\ b <= last /\
       forall r0, positive_of (maxBlockRange p) = Some r0 -> b - a + 1 <= r0) chunks) as Hchunks.
  { intros Hnar. split.
    - intros Hsome. unfold narrow in Hnar. subst r. destruct (positive_of _) as [r0|]; [|done].
      cbn in *. specialize (Hnar _ eq_refl). apply (ceil_div_le _ r0 10) in Hnar; lia.
    - eapply Forall_impl; [exact Hb|]. intros [a b] (? & ? & ?). split_and!; [lia..|].
      intros r0 Er. subst r. rewrite Er in *. done. }
  destruct (check_history p current start last) as [e|].
  { destruct Hserved. cbn. split_and!; [lia|done|]. left. auto. }
  destruct (check_range p start last) as [e|].
  { destruct Hnarrow as (? & ? & ?). cbn. split_and!; [lia|done|]. left. auto. }
  fold chunks. destruct (query_batches_end chain (length chunks) chunks s1) as [Hq He]; [done|done|].
  split_and!; [done|done|]. destruct (query_batches _ _ s1) as [s2 [logs|e|]]; cbn [snd] in *; [|by right|done].
  split_and!; [done|done|]. by rewrite He, Hall.
Qed.

(** Paging through an explorer returns all of its logs, each once, or fails. A read that
    returns has met a page that is not full, within ten, after full pages only, and has one log
    for every identity (block, transaction, index) on those pages; ten full pages are an error,
    never a cut list, and so is a page that is not served. *)
Theorem explorer_pages_complete {S} `{ExplorerApi S} (pages : nat -> list RawLog)
    `{!PagedExplorer S pages} (s : S) :
  match (readPaginatedExplorerLogs s).2 with
  | Returned logs =>
      exists k, (k < 10)%nat /\ Forall (full pages) (seq 1 k) /\ ~ full pages (1 + k) /\
        one_per_identity (concat (pages <$> seq 1 (Datatypes.S k))) logs
  | Thrown e =>
      (e = page_limit_error /\ unrecoverable e = true /\ Forall (full pages) (seq 1 10)) \/
      (exists page s0, (page <= 10)%nat /\ (readExplorerLogPage page s0).2 = Thrown e) \/
      (exists page log x, (page <= 10)%nat /\ log ∈ pages page /\ logIdentity log = Throw x /\ e = exn_value x)
  | Hangs => exists page s0, (page <= 10)%nat /\ (readExplorerLogPage page s0).2 = Hangs
  end.
Proof.
  pose proof (read_pages_end pages MAX_EXPLORER_LOG_PAGES 1 [] [] s identified_nil) as He.
  change (readPaginatedExplorerLogs s) with (read_pages MAX_EXPLORER_LOG_PAGES 1 [] s).
  destruct (read_pages _ _ _ s) as [s1 [logs|e|]]; cbn [snd paging_ends] in *.
  - exact He.
  - destruct He as [[-> He]|[(p & s0 & Hp & ?)|(p & log & x & Hp & ?)]].
    + by left.
    + right; left. exists p, s0. unfold MAX_EXPLORER_LOG_PAGES in Hp. split; [lia|done].
    + right; right. exists p, log, x. unfold MAX_EXPLORER_LOG_PAGES in Hp. split; [lia|done].
  - destruct He as (p & s0 & Hp & ?). exists p, s0. unfold MAX_EXPLORER_LOG_PAGES in Hp. split; [lia|done].
Qed.

(** ** Samples *)
Module LogReadsSample.

(** One log in each of ten blocks. *)
Definition log_at (block : Z) : RawLog := {|
  raw_address := VString "0xa1"; raw_blockNumber := VNumber block; raw_data := VString "0x";
  raw_logIndex := VString "0x1f"; raw_topics := VArray [VString "0x70"];
  raw_transactionHash := VString "0xAB"; raw_transactionIndex := VBigInt 2
|}.
Definition chain (block : Z) : list RawLog :=
  if (0 <=? block) && (block <=? 9) then [log_at block] else [].

(** An endpoint that serves two blocks at a time, of a contract deployed at block 5 of 9; its state
    counts requests. *)
#[local] Instance two_blocks : LogSource nat := {|
  ls_sleep := fun _ n => n;
  ls_getBlockNumber := fun n => (Datatypes.S n, Returned 9);
  ls_getLogs := fun from to n =>
    (Datatypes.S n, if to - from + 1 <=? 2 then Returned (logs_between chain from to)
                    else Thrown (range_too_large "block range is too large"));
  ls_isContract := fun b n => (Datatypes.S n, Returned (match b with Some b => 5 <=? b | None => true end))
|}.

#[local] Instance two_blocks_complete : CompleteSource nat chain.
Proof.
  refine {| requests := fun n => n |}; cbn; try lia.
  intros from to n n' logs _. destruct (_ <=? _); by intros [= _ <-].
Defined.

Lemma getLogsFromRpc_complete_witness :
  1 <= default DEFAULT_LOG_PAGINATION_BLOCK_RANGE (Some 4) /\
  exists logs, (getLogsFromRpc 1 (Some 5) (Some 4) 0%nat).2 = Returned logs /\
    blockNumber <$> logs = [1; 2; 3; 4; 5].
Proof.
  split; [done|].
  pose proof (getLogsFromRpc_complete chain 1 5 (Some 4) 0%nat ltac:(done)) as [_ He].
  assert (forall r, read_fails 1 5 r -> False) as Hnone.
  { intros r (a & b & s & _ & _ & <- & Hr). cbn in Hr.
    destruct (Z.leb_spec (b - a + 1) 2); [done|].
    unfold fatal in Hr. change (isBlockRangeError _) with true in Hr. cbn in Hr. lia. }
  destruct (getLogsFromRpc 1 (Some 5) (Some 4) 0%nat) as [s1 [logs|e|]]; cbn [snd] in *.
  - exists logs. split; [done|]. vm_compute in He. by injection He as <-.
  - destruct He as [He|(x & He & _)]; [by apply Hnone in He|by vm_compute in He].
  - by apply Hnone in He.
Defined.

Lemma creation_block_found_witness :
  0 <= 5 <= 9 /\ (getContractCreationBlockFromRpc 0%nat).2 = Returned 5.
Proof.
  split; [lia|].
  pose proof (creation_block_found (S := nat) (H := two_blocks) chain 5 9 0%nat ltac:(lia)
    ltac:(cbn; congruence) ltac:(cbn; congruence) ltac:(cbn; congruence))
    as [_ He].
  destruct (getContractCreationBlockFromRpc 0%nat) as [s1 [block|e|]]; cbn [snd] in *.
  - by rewrite He.
  - by destruct He as (s0 & [He|(b & He)]).
  - by destruct He as (s0 & [He|(b & He)]).
Defined.

(** The endpoint behind a provider: three blocks for a query, none older than six blocks. *)
#[local] Instance node : LogNode nat := {|
  ln_blockNumber := fun n => (n, Returned 9);
  ln_getLogs := fun from to n => (Datatypes.S n, Returned (logs_between chain from to));
  ln_superPerform := fun n => (n, Returned [])
|}.

#[local] Instance node_complete : CompleteNode nat chain.
Proof. refine {| queries := fun n => n |}; [done|]. cbn. congruence. Defined.

Definition limits : Pagination := {| maxBlockRange := Some 3%N; minBlockNumber := None; maxBlockAge := Some 6%N |}.
Definition from_block (n : Z) : LogFilter := {| fromBlock := TagNumber n; toBlock := TagLatest; by_blockHash := false |}.

Lemma performGetLogs_complete_witness :
  by_blockHash (from_block 4) = false /\
  performGetLogs (Some limits) (from_block 4) 0%nat = (2%nat, Returned (log_at <$> [4; 5; 6; 7; 8; 9])) /\
  served limits 9 4 9.
Proof.
  split; [done|]. split; [by vm_compute|].
  pose proof (performGetLogs_complete chain limits (from_block 4) 9 4 9 0%nat 0%nat eq_refl ltac:(done) eq_refl
    eq_refl eq_refl) as (_ & _ & He).
  assert (performGetLogs (Some limits) (from_block 4) 0%nat = (2%nat, Returned (log_at <$> [4; 5; 6; 7; 8; 9])))
    as Hrun by (by vm_compute).
  rewrite Hrun in He. by destruct He as [? _].
Defined.

Example too_old :
  exists e, performGetLogs (Some limits) (from_block 2) 0%nat = (0%nat, Thrown e) /\ unrecoverable e = true.
Proof. eexists. by split; [vm_compute|]. Qed.

(** An explorer with two logs, one of them twice. *)
#[local] Instance explorer : ExplorerApi nat := {|
  ex_sleep := fun _ n => n;
  ex_readPage := fun page _ n => (Datatypes.S n, Returned (Some [log_at 1; log_at 2; log_at 1]))
|}.
#[local] Instance explorer_pages : PagedExplorer nat (fun _ => [log_at 1; log_at 2; log_at 1]).
Proof. constructor. cbn. congruence. Defined.

Lemma explorer_pages_complete_witness :
  (readPaginatedExplorerLogs 0%nat).2 = Returned [log_at 1; log_at 2] /\
  one_per_identity [log_at 1; log_at 2; log_at 1] [log_at 1; log_at 2].
Proof.
  assert ((readPaginatedExplorerLogs 0%nat).2 = Returned [log_at 1; log_at 2]) as Hrun by (by vm_compute).
  split; [exact Hrun|].
  pose proof (explorer_pages_complete (fun _ => [log_at 1; log_at 2; log_at 1]) 0%nat) as He.
  rewrite Hrun in He. destruct He as (k & _ & Hk & _ & Ho). destruct k as [|k]; [exact Ho|].
  exfalso. apply Forall_cons in Hk as [Hk _]. unfold full, EXPLORER_LOGS_PAGE_SIZE in Hk.
  apply Nat.leb_le in Hk. by vm_compute in Hk.
Defined.

End LogReadsSample.
