(* ===== verification/LogReader.v ===== *)
(** The reader of event logs with its fallbacks, sdk/src/rpc/evm/EvmEventLogsReader.ts: block
    explorers first, one after the other, then the RPC endpoints, with the deployment blocks it
    has found in two caches. A strategy is a record of the two operations of
    [IEvmEventLogsReaderStrategy], for one contract and one topic. *)
From Stdlib Require Import ZArith Lia String Ascii.
From stdpp Require Import base tactics list strings.
From S2P Require Import Prelude JsMap Messages RpcErrors LogReads.

#[local] Open Scope Z_scope.

(** ** Strategies *)

Record LogStrategy (S : Type) : Type := {
  getContractDeploymentBlockNumber : act S Z;
  getContractLogs : Z -> Z -> act S (list EventLog)
}.
Arguments getContractDeploymentBlockNumber {S} _.
Arguments getContractLogs {S} _.

(** [EvmRpcEventLogsReader]. *)
Definition EvmRpcEventLogsReader {S} `{LogSource S} (paginationBlockRange : option Z) : LogStrategy S := {|
  getContractDeploymentBlockNumber := getContractCreationBlockFromRpc;
  getContractLogs := fun from to => getLogsFromRpc from (Some to) paginationBlockRange
|}.

(** What an explorer says of a deployment: the block, as it comes, and the transaction. *)
Class DeploymentApi (S : Type) : Type := {
  da_deploymentTx : act S (option (Value * string));
  da_receiptBlock : string -> act S (option Z)
}.

Section explorer.
Context {S : Type} `{DeploymentApi S}.

(** [getContractDeploymentTransaction] of block-explorer/etherscan.ts. *)
Definition getContractDeploymentTransaction : act S (option Z * string) :=
  deploymentTx ← da_deploymentTx;
  match deploymentTx with
  | None => raise (new_error "No deployment transaction found for contract" None
                    [("isRecoverable"%string, VBoolean false)])
  | Some (block, txHash) =>
      if is_nullish block then mret (None, txHash)
      else n ← of_result (toNumber block "blockNumber"); mret (Some n, txHash)
  end.

Definition explorer_deployment_block : act S Z :=
  '(block, txHash) ← getContractDeploymentTransaction;
  match block with
  | Some n => mret n
  | None =>
      receipt ← da_receiptBlock txHash;
      match receipt with
      | Some n => mret n
      | None => raise (new_error "No deployment receipt block number for contract" None [])
      end
  end.

End explorer.

(** [EvmEtherscanLikeEventLogsReader]: the logs of an explorer for a range. *)
Definition EvmEtherscanLikeEventLogsReader {S} `{DeploymentApi S}
    (api : Z -> Z -> ExplorerApi S) : LogStrategy S := {|
  getContractDeploymentBlockNumber := explorer_deployment_block;
  getContractLogs := fun from to => @getLogsFromEtherscanLikeExplorerAPI S (api from to)
|}.

(** ** [FallbackEvmEventLogsReader] *)

Definition ExplorerFallbackError (errors : list Value) : Value :=
  new_error "All configured block explorers failed" (Some (default VUndefined (last errors)))
    (if forallb (fun e => is_record e && unrecoverable e) errors
     then [("isRecoverable"%string, VBoolean false)] else []).

Fixpoint try_readers {S A} (operations : list (act S A)) (errors : list Value) : act S A := fun s =>
  match operations with
  | [] => (s, Thrown (ExplorerFallbackError errors))
  | operation :: rest =>
      match operation s with
      | (s', Thrown error) => try_readers rest (errors ++ [error]) s'
      | (s', r) => (s', r)
      end
  end.

Definition executeWithFallback {S A} (operations : list (act S A)) (fallbackEnabled : bool) : act S A :=
  if fallbackEnabled then try_readers operations []
  else match operations with
       | operation :: _ => operation
       | [] => raise (exn_value (TypeError "Cannot read properties of undefined"))
       end.

(** Which operations fall back to another explorer; both, if not said otherwise. *)
Record ExplorerFallbackConfig : Type := {
  fallback_deployment : option bool; fallback_logs : option bool
}.

Definition FallbackEvmEventLogsReader {S} (readers : list (LogStrategy S))
    (config : ExplorerFallbackConfig) : LogStrategy S := {|
  getContractDeploymentBlockNumber :=
    executeWithFallback (getContractDeploymentBlockNumber <$> readers)
      (default true (fallback_deployment config));
  getContractLogs := fun from to =>
    executeWithFallback ((fun r => getContractLogs r from to) <$> readers)
      (default true (fallback_logs config))
|}.

(** ** [EvmEventLogsReader] *)

(** The caches, by contract, around the state of the outside. *)
Record ReaderState (S : Type) : Type := {
  deploymentBlockCache : list (string * Z);
  explorerDeploymentBlockCache : list (string * Z);
  outside : S
}.
Arguments Build_ReaderState {S} _ _ _.
Arguments deploymentBlockCache {S} _.
Arguments explorerDeploymentBlockCache {S} _.
Arguments outside {S} _.

(** The strategies of [fromConfig]: explorers come before the RPC, if there are any. *)
Definition reader_strategies {S} (explorerReaders : list (LogStrategy S)) (rpc : LogStrategy S)
    (explorerFallback : ExplorerFallbackConfig) : LogStrategy S * option (LogStrategy S) :=
  match explorerReaders with
  | [] => (rpc, None)
  | _ => (FallbackEvmEventLogsReader explorerReaders explorerFallback, Some rpc)
  end.

Section reader.
Context {S : Type} `{LogSource S}.
Context (contractAddress eventTopic : string).
Context (logReaderStrategy : LogStrategy S) (fallbackLogReaderStrategy : option (LogStrategy S)).

Notation reader A := (act (ReaderState S) A).

Definition with_outside (f : S -> S) (s : ReaderState S) : ReaderState S :=
  Build_ReaderState (deploymentBlockCache s) (explorerDeploymentBlockCache s) (f (outside s)).

Definition run_outside {A} (m : act S A) : reader A := fun s =>
  let '(o, r) := m (outside s) in
  (Build_ReaderState (deploymentBlockCache s) (explorerDeploymentBlockCache s) o, r).

Definition remember (block : Z) : reader unit := fun s =>
  (Build_ReaderState (map_set contractAddress block (deploymentBlockCache s))
     (explorerDeploymentBlockCache s) (outside s), Returned ()).
Definition remember_explorer (block : Z) : reader unit := fun s =>
  (Build_ReaderState (deploymentBlockCache s)
     (map_set contractAddress block (explorerDeploymentBlockCache s)) (outside s), Returned ()).

Definition retry_default {A} (runner : reader A) : reader A :=
  retryAsync (fun ms => with_outside (ls_sleep ms)) runner 5 50.

Definition getDeploymentBlock (strategy : LogStrategy S) : reader Z := fun s =>
  match map_get contractAddress (deploymentBlockCache s) with
  | Some cached => (s, Returned cached)
  | None =>
      (block ← run_outside (getContractDeploymentBlockNumber strategy);
       _ ← remember block; mret block) s
  end.

(** Only a reader whose strategy is that of explorers has it; [None] for another one. *)
Definition getContractDeploymentBlockFromExplorer (explorerReader : option (LogStrategy S)) : reader Z :=
  match explorerReader with
  | None => raise (new_error "No block explorer is configured" None [])
  | Some explorerReader => fun s =>
      match map_get contractAddress (explorerDeploymentBlockCache s) with
      | Some cached => (s, Returned cached)
      | None =>
          (block ← retry_default (run_outside (getContractDeploymentBlockNumber explorerReader));
           _ ← remember_explorer block; _ ← remember block; mret block) s
      end
  end.

(** Retries of the first strategy, then the other one, once. *)
Definition with_fallback {A} (attempt : LogStrategy S -> reader A) : reader A :=
  catch (retry_default (attempt logReaderStrategy))
    (fun err => match fallbackLogReaderStrategy with
                | None => raise err
                | Some fallback => attempt fallback
                end).

Definition getContractDeploymentBlock : reader Z := with_fallback getDeploymentBlock.

(** What every log has to say of itself. *)
Definition log_matches (from to : Z) (log : EventLog) : result unit :=
  _ ← js_assert (String.eqb (to_lower (address log)) (to_lower contractAddress))
        "Log address does not match requested contract";
  _ ← js_assert (match topics log with
                 | topic :: _ => String.eqb (to_lower topic) (to_lower eventTopic)
                 | [] => false
                 end) "Log topic does not match requested topic";
  js_assert ((from <=? blockNumber log) && (blockNumber log <=? to))
    "Log block is outside requested range".
Definition assertLogsMatchQuery (from to : Z) (logs : list EventLog) : result unit :=
  _ ← mapM (log_matches from to) logs; Ok ().

Definition getLogsByTopicWithStrategy (fromBlock : option Z) (toBlock : Z) (strategy : LogStrategy S)
    : reader (list EventLog) :=
  fromBlock ← match fromBlock with Some b => mret b | None => getDeploymentBlock strategy end;
  _ ← of_result (js_assert (fromBlock <=? toBlock) "Log range start exceeds end");
  logs ← run_outside (getContractLogs strategy fromBlock toBlock);
  _ ← of_result (assertLogsMatchQuery fromBlock toBlock logs);
  mret logs.

Definition getLogsByTopic (fromBlock toBlock : option Z) : reader (list EventLog) :=
  _ ← run_outside assertIsContractAddress;
  toBlock ← match toBlock with Some b => mret b | None => run_outside ls_getBlockNumber end;
  with_fallback (getLogsByTopicWithStrategy fromBlock toBlock).

End reader.
