(* ===== verification/LogReaderFacts.v ===== *)
(** The reader of event logs, whichever of its strategies answers: all logs of the range, each of
    the contract and topic that were asked for; its caches hold the block of the deployment only. *)
From Stdlib Require Import ZArith Lia String Ascii.
From stdpp Require Import base tactics list strings sets.
From S2P Require Import Prelude JsMap Messages RpcErrors LogReads LogReadsFacts LogReader.

#[local] Open Scope Z_scope.

(** ** Conversions of whole lists *)

Lemma mapM_concat {A B} (f : A -> result B) (chain : Z -> list A) (out : Z -> list B) blocks :
  (forall b, mapM f (chain b) = Ok (out b)) ->
  mapM f (concat (chain <$> blocks)) = Ok (concat (out <$> blocks)).
Proof.
  intros Hf. induction blocks as [|b blocks IH]; [done|]. cbn.
  assert (forall l l' o o', mapM f l = Ok o -> mapM f l' = Ok o' -> mapM f (l ++ l') = Ok (o ++ o')) as Happ.
  { induction l as [|x l IHl]; intros l' o o'; cbn; [by intros [= <-]|].
    destruct (f x) as [y|]; [cbn|done]. destruct (mapM f l) as [ys|]; cbn; [|done].
    intros [= <-] Hl'. by rewrite (IHl l' ys o'). }
  by apply Happ.
Qed.

Lemma mapM_ok {A B} (f : A -> result B) l o : mapM f l = Ok o -> Forall (fun x => exists y, f x = Ok y) l.
Proof.
  revert o. induction l as [|x l IH]; intros o; cbn; [constructor|].
  destruct (f x) as [y|] eqn:E; [cbn|done]. destruct (mapM f l) as [ys|]; cbn; [|done].
  intros _. constructor; eauto.
Qed.

(** ** Strategies that tell the truth

    Of a contract deployed at [deployed] with the logs [events]. *)
Section truth.
Context {S : Type} (deployed : Z) (events : Z -> list EventLog).

Record truthful (strategy : LogStrategy S) : Prop := {
  truthful_deployment s s' n :
    getContractDeploymentBlockNumber strategy s = (s', Returned n) -> n = deployed;
  truthful_logs from to s s' logs : from <= to ->
    getContractLogs strategy from to s = (s', Returned logs) -> logs ≡ₚ logs_between events from to
}.

(** What a list of attempts returns, one of them has returned. *)
Lemma try_readers_returned {A} (operations : list (act S A)) errors s s' a :
  try_readers operations errors s = (s', Returned a) ->
  exists operation s0, operation ∈ operations /\ operation s0 = (s', Returned a).
Proof.
  revert errors s. induction operations as [|operation rest IH]; intros errors s; cbn; [done|].
  destruct (operation s) as [s1 [b|e|]] eqn:E; intros Hr; [|apply IH in Hr as (o & s0 & ? & ?)|done].
  - injection Hr as <- <-. exists operation, s. split; [set_solver|done].
  - exists o, s0. split; [set_solver|done].
Qed.

Lemma fallback_returned {A} (operations : list (act S A)) enabled s s' a :
  executeWithFallback operations enabled s = (s', Returned a) ->
  exists operation s0, operation ∈ operations /\ operation s0 = (s', Returned a).
Proof.
  unfold executeWithFallback. destruct enabled; [apply try_readers_returned|].
  destruct operations as [|operation rest]; [done|]. intros E. exists operation, s. split; [set_solver|done].
Qed.

Lemma fallback_truthful readers config : Forall truthful readers ->
  truthful (FallbackEvmEventLogsReader readers config).
Proof.
  rewrite Forall_forall. intros Hr. split.
  - intros s s' n (o & s0 & (r & -> & Hin)%list_elem_of_fmap & E)%fallback_returned.
    by eapply truthful_deployment; [apply Hr|].
  - intros from to s s' logs Hle (o & s0 & (r & -> & Hin)%list_elem_of_fmap & E)%fallback_returned.
    by eapply truthful_logs; [apply Hr|..].
Qed.

Lemma rpc_truthful `{LogSource S} (chain : Z -> list RawLog) `{!CompleteSource S chain} range :
  (forall b s s' r, ls_isContract (Some b) s = (s', Returned r) -> r = (deployed <=? b)) ->
  (forall s s' n, ls_getBlockNumber s = (s', Returned n) -> deployed <= n) -> 0 <= deployed ->
  (forall b, mapM to_response (chain b) = Ok (events b)) ->
  truthful (EvmRpcEventLogsReader range).
Proof.
  intros Hcode Hheight Hd Hevents. split; cbn.
  - intros s s' n. unfold getContractCreationBlockFromRpc.
    intros (s1 & [] & _ & E)%act_bind_returned.
    apply act_bind_returned in E as (s2 & latest & El & E). apply Hheight in El.
    pose proof (bisect_spec chain deployed GENESIS_BLOCK_NUMBER latest latest s2 Hcode) as [_ Hb];
      [unfold GENESIS_BLOCK_NUMBER; lia..|]. by rewrite E in Hb.
  - intros from to s s' logs Hle. unfold getLogsFromRpc.
    intros (s1 & [] & _ & E)%act_bind_returned.
    apply act_bind_returned in E as (s2 & last & [= -> ->] & E).
    apply act_bind_returned in E as (s3 & raw & El & E).
    match type of El with read_loop ?e ?f ?r ?n ?l ?s = _ =>
      pose proof (read_loop_spec chain e f r n l s) as [_ Hl]; rewrite El in Hl; cbn in Hl end.
    rewrite Hl in E. unfold logs_between at 1 in E.
    rewrite (mapM_concat _ _ _ _ Hevents) in E. by injection E as _ <-.
Qed.

Lemma strategies_truthful explorers rpc config : Forall truthful explorers -> truthful rpc ->
  let '(first, fallback) := reader_strategies explorers rpc config in
  truthful first /\ (forall other, fallback = Some other -> truthful other).
Proof.
  intros He Hr. destruct explorers as [|e explorers]; cbn; [done|].
  split; [by apply fallback_truthful|]. by intros ? [= <-].
Qed.

End truth.

(** ** The reader *)
Section reader.
Context {S : Type} `{LogSource S} (contractAddress eventTopic : string).
Context (deployed : Z) (events : Z -> list EventLog).
Context (strategy : LogStrategy S) (fallback : option (LogStrategy S)).

Notation reader A := (act (ReaderState S) A).

(** What both caches have for the contract is the block of its deployment. *)
Definition caches_true (s : ReaderState S) : Prop :=
  forall cache n, cache = deploymentBlockCache s \/ cache = explorerDeploymentBlockCache s ->
    map_get contractAddress cache = Some n -> n = deployed.

(** A step that keeps the caches true, and returns what satisfies [Q] only. *)
Definition keeps {A} (m : reader A) (Q : A -> Prop) : Prop :=
  forall s, caches_true s ->
    caches_true (m s).1 /\ match (m s).2 with Returned a => Q a | _ => True end.

Lemma keeps_ret {A} (a : A) (Q : A -> Prop) : Q a -> keeps (mret a) Q.
Proof. by intros ? s. Qed.

Lemma keeps_bind {A B} (m : reader A) (f : A -> reader B) Q R :
  keeps m Q -> (forall a, Q a -> keeps (f a) R) -> keeps (m ≫= f) R.
Proof.
  intros Hm Hf s Hs. rewrite act_bind_run. destruct (Hm s Hs) as [H1 H2].
  destruct (m s) as [s1 [a|e|]]; cbn in *; [by apply Hf|done|done].
Qed.

Lemma keeps_weaken {A} (m : reader A) (Q R : A -> Prop) : keeps m Q -> (forall a, Q a -> R a) -> keeps m R.
Proof.
  intros Hm HQ s Hs. destruct (Hm s Hs) as [H1 H2]. split; [done|]. destruct ((m s).2); auto.
Qed.

Lemma keeps_result {A} (r : result A) : keeps (of_result r) (fun a => r = Ok a).
Proof. intros s Hs. by destruct r. Qed.

Lemma keeps_outside {A} (m : act S A) : keeps (run_outside m) (fun a => exists o o', m o = (o', Returned a)).
Proof.
  intros s Hs. unfold run_outside. destruct (m (outside s)) as [o r] eqn:E. cbn. split; [exact Hs|].
  destruct r; [|done..]. by exists (outside s), o.
Qed.

Lemma keeps_catch {A} (m : reader A) (h : Value -> reader A) Q :
  keeps m Q -> (forall e, keeps (h e) Q) -> keeps (catch m h) Q.
Proof.
  intros Hm Hh s Hs. unfold catch. destruct (Hm s Hs) as [H1 H2].
  destruct (m s) as [s1 [a|e|]]; cbn in *; [done|by apply Hh|done].
Qed.

Lemma keeps_retry {A} (m : reader A) Q : keeps m Q -> keeps (retry_default m) Q.
Proof.
  intros Hm. unfold retry_default, retryAsync. set (left := pred 5). generalize 0%nat as i. clearbody left.
  induction left as [|left IH]; intros i s Hs; cbn [retry_from]; destruct (Hm s Hs) as [H1 H2];
    (destruct (m s) as [s1 [a|e|]]; cbn in *; [done| |done]); destruct (unrecoverable e); try done.
  by apply IH.
Qed.

Lemma keeps_remember : keeps (remember contractAddress deployed) (fun _ => True).
Proof.
  intros s Hs. split; [|done]. intros cache n [->| ->]; cbn; [|by apply Hs; right].
  rewrite map_get_set_eq. by intros [= <-].
Qed.

Lemma keeps_remember_explorer : keeps (remember_explorer contractAddress deployed) (fun _ => True).
Proof.
  intros s Hs. split; [|done]. intros cache n [->| ->]; cbn; [by apply Hs; left|].
  rewrite map_get_set_eq. by intros [= <-].
Qed.

Lemma keeps_deployment st : truthful deployed events st ->
  keeps (getDeploymentBlock contractAddress st) (fun n => n = deployed).
Proof.
  intros Ht s Hs. unfold getDeploymentBlock. destruct (map_get _ _) as [n|] eqn:E.
  { split; [done|]. cbn. by eapply Hs; [left|]. }
  revert s Hs E. cut (keeps (block ← run_outside (getContractDeploymentBlockNumber st);
    _ ← remember contractAddress block; mret block) (fun n => n = deployed)); [auto|].
  eapply keeps_bind; [apply keeps_outside|]. intros n (o & o' & E).
  apply (truthful_deployment _ _ _ Ht) in E as ->.
  eapply keeps_bind; [apply keeps_remember|]. intros _ _. by apply keeps_ret.
Qed.

(** Logs that answer a query: all of them, each of the contract, the topic and the range. *)
Definition answers (from : option Z) (to : Z) (logs : list EventLog) : Prop :=
  let from := default deployed from in
  from <= to /\ logs ≡ₚ logs_between events from to /\
  Forall (fun log => log_matches contractAddress eventTopic from to log = Ok ()) logs.

Lemma keeps_attempt st from to : truthful deployed events st ->
  keeps (getLogsByTopicWithStrategy contractAddress eventTopic from to st) (answers from to).
Proof.
  intros Ht. unfold getLogsByTopicWithStrategy.
  eapply (keeps_bind _ _ (fun b => b = default deployed from)).
  { destruct from; [by apply keeps_ret|by apply keeps_deployment]. }
  intros b ->. eapply keeps_bind; [apply keeps_result|]. intros [] Ha.
  assert (default deployed from <= to) as Hle.
  { apply Z.leb_le. by destruct (default deployed from <=? to). }
  eapply keeps_bind; [apply keeps_outside|]. intros logs (o & o' & El).
  apply (truthful_logs _ _ _ Ht _ _ _ _ _ Hle) in El.
  eapply keeps_bind; [apply keeps_result|]. intros [] Hm. apply keeps_ret. split_and!; [done|done|].
  unfold assertLogsMatchQuery in Hm. destruct (mapM _ _) as [us|] eqn:E in Hm; [|done].
  apply mapM_ok in E. eapply Forall_impl; [exact E|]. by intros log [[] ?].
Qed.

Lemma keeps_with_fallback {A} (attempt : LogStrategy S -> reader A) Q :
  keeps (attempt strategy) Q -> (forall other, fallback = Some other -> keeps (attempt other) Q) ->
  keeps (with_fallback strategy fallback attempt) Q.
Proof.
  intros Hf Ho. unfold with_fallback. apply keeps_catch; [by apply keeps_retry|]. intros e.
  destruct fallback as [other|]; [by apply Ho|]. by intros s.
Qed.

(** An error, with a fallback, is one of the fallback. *)
Lemma with_fallback_throws {A} (attempt : LogStrategy S -> reader A) other s e :
  fallback = Some other -> (with_fallback strategy fallback attempt s).2 = Thrown e ->
  exists s1, (attempt other s1).2 = Thrown e.
Proof.
  intros ->. unfold with_fallback, catch. destruct (retry_default _ s) as [s1 [a|x|]]; cbn; [done| |done]. eauto.
Qed.

End reader.

(** ** Claims *)

Section config.
Context {S : Type} `{LogSource S} (chain : Z -> list RawLog) `{!CompleteSource S chain}.
Context (deployed : Z) (events : Z -> list EventLog).
Context (explorers : list (LogStrategy S)) (range : option Z) (config : ExplorerFallbackConfig).
Context (contractAddress eventTopic : string).

(** The reader of [fromConfig]. *)
Notation rpc := (EvmRpcEventLogsReader range).
Notation first := (reader_strategies explorers rpc config).1.
Notation fallback := (reader_strategies explorers rpc config).2.

(** What a reader throws is an error of the endpoint. *)
Lemma reader_throws fromBlock toBlock s e :
  (getLogsByTopic contractAddress eventTopic first fallback fromBlock toBlock s).2 = Thrown e ->
  (exists o, (assertIsContractAddress o).2 = Thrown e \/ (ls_getBlockNumber o).2 = Thrown e) \/
  exists to s1, (getLogsByTopicWithStrategy contractAddress eventTopic fromBlock to rpc s1).2 = Thrown e.
Proof.
  unfold getLogsByTopic. rewrite act_bind_run. unfold run_outside at 1.
  destruct (assertIsContractAddress (outside s)) as [o [[]|x|]] eqn:E; cbn [snd]; [| |done].
  2: { intros [= ->]. left. exists (outside s). left. by rewrite E. }
  rewrite act_bind_run. set (s1 := Build_ReaderState _ _ _). clearbody s1. clear E.
  assert (forall to s2, (with_fallback first fallback
    (getLogsByTopicWithStrategy contractAddress eventTopic fromBlock to) s2).2 = Thrown e ->
    exists to s1, (getLogsByTopicWithStrategy contractAddress eventTopic fromBlock to rpc s1).2 = Thrown e) as Hw.
  { intros to s2. destruct explorers as [|e0 es] eqn:Ex; cbn [reader_strategies fst snd].
    - unfold with_fallback, catch, retry_default, retryAsync.
      destruct (retry_from _ _ _ _ _ s2) as [s3 [a|x|]] eqn:E; cbn [snd raise]; [done| |done].
      intros [= ->]. apply retry_thrown in E as [s4 E]. exists to, s4. by rewrite E.
    - intros [s3 E]%(with_fallback_throws _ _ _ rpc); [by exists to, s3|done]. }
  destruct toBlock as [to|]; cbn [mret act_ret].
  - intros E. right. by eapply Hw.
  - unfold run_outside. destruct (ls_getBlockNumber (outside s1)) as [o' [n|x|]] eqn:E; cbn [snd]; [| |done].
    + intros E'. right. by eapply Hw.
    + intros [= ->]. left. exists (outside s1). right. by rewrite E.
Qed.

(** C35: a reader of event logs returns all logs of a query and nothing else, whichever strategy
    answers. Let the endpoint and every explorer tell the truth whenever they answer, of a
    contract deployed at [deployed] with the logs [events]. Whatever fails on the way, the
    caches keep holding the block of the deployment only; the logs that are returned are those
    from the start of the range (the deployment, if no start is given) to its end (a height the
    endpoint gave, if no end is given), and each is of the contract, the topic and the range that
    were asked for; and what is thrown is an error of the endpoint: the explorers' never reach
    the caller. *)
Theorem getLogsByTopic_complete (fromBlock toBlock : option Z) (s : ReaderState S) :
  0 <= deployed ->
  (forall b s s' r, ls_isContract (Some b) s = (s', Returned r) -> r = (deployed <=? b)) ->
  (forall s s' n, ls_getBlockNumber s = (s', Returned n) -> deployed <= n) ->
  (forall b, mapM to_response (chain b) = Ok (events b)) ->
  Forall (truthful deployed events) explorers ->
  caches_true contractAddress deployed s ->
  let run := getLogsByTopic contractAddress eventTopic first fallback fromBlock toBlock s in
  caches_true contractAddress deployed run.1 /\
  match run.2 with
  | Returned logs =>
      exists to, match toBlock with
                 | Some b => to = b
                 | None => exists o, (ls_getBlockNumber o).2 = Returned to
                 end /\
        answers contractAddress eventTopic deployed events fromBlock to logs
  | Thrown e =>
      (exists o, (assertIsContractAddress o).2 = Thrown e \/ (ls_getBlockNumber o).2 = Thrown e) \/
      exists to s1, (getLogsByTopicWithStrategy contractAddress eventTopic fromBlock to rpc s1).2 = Thrown e
  | Hangs => True
  end.
Proof.
  intros Hd Hcode Hheight Hevents Hex Hs.
  pose proof (rpc_truthful deployed events chain range Hcode Hheight Hd Hevents) as Hrpc.
  pose proof (strategies_truthful deployed events explorers rpc config Hex Hrpc) as Hst.
  destruct (reader_strategies explorers rpc config) as [st fb] eqn:Est. destruct Hst as [Hst Hfb].
  pose proof (reader_throws fromBlock toBlock s) as Hthrows. rewrite Est in Hthrows.
  cbv zeta. cbn [fst snd] in *.
  assert (keeps contractAddress deployed (getLogsByTopic contractAddress eventTopic st fb fromBlock toBlock)
    (fun logs => exists to, match toBlock with
        | Some b => to = b | None => exists o, (ls_getBlockNumber o).2 = Returned to end /\
        answers contractAddress eventTopic deployed events fromBlock to logs)) as Hk.
  { unfold getLogsByTopic. eapply keeps_bind; [apply keeps_outside|]. intros _ _.
    eapply (keeps_bind _ _ _ _ (fun to => match toBlock with
      | Some b => to = b | None => exists o, (ls_getBlockNumber o).2 = Returned to end)).
    { destruct toBlock as [b|]; [by apply keeps_ret|].
      eapply keeps_weaken; [apply keeps_outside|]. intros n (o & o' & E). exists o. by rewrite E. }
    intros to Hto. eapply keeps_weaken.
    - apply keeps_with_fallback; [by apply keeps_attempt|]. intros other Ho. apply keeps_attempt. by apply Hfb.
    - intros logs Ha. by exists to. }
  destruct (Hk s Hs) as [Hk1 Hk2]. split; [exact Hk1|].
  destruct (getLogsByTopic _ _ st fb fromBlock toBlock s) as [s1 [logs|e|]]; cbn [snd] in *; auto.
Qed.

End config.

(** ** Samples *)
Module LogReaderSample.
Import LogReadsFacts.LogReadsSample.

#[local] Existing Instance two_blocks.
#[local] Existing Instance two_blocks_complete.

Definition event_at (block : Z) : EventLog := {|
  address := "0xa1"; blockNumber := block; data := "0x"; logIndex := 31; topics := ["0x70"];
  transactionHash := "0xAB"; transactionIndex := 2
|}.
Definition events (block : Z) : list EventLog :=
  if (0 <=? block) && (block <=? 9) then [event_at block] else [].

Lemma chain_events b : mapM to_response (chain b) = Ok (events b).
Proof.
  unfold chain, events. destruct ((0 <=? b) && (b <=? 9)) eqn:E; [|done].
  apply andb_true_iff in E as [E1%Z.leb_le E2%Z.leb_le]. cbn. unfold to_response; cbn [toNumber raw_blockNumber log_at].
  assert (isSafeInteger b = true) as Hs by (apply Z.leb_le; unfold MAX_SAFE_INTEGER; lia).
  cbn. by rewrite Hs.
Qed.

(** An explorer that answers nothing. *)
Definition down : LogStrategy nat := {|
  getContractDeploymentBlockNumber := fun n => (n, Thrown (VString "down"));
  getContractLogs := fun _ _ n => (n, Thrown (VString "down"))
|}.
Definition at_start : ReaderState nat := Build_ReaderState [] [("0xa2"%string, 3)] 0%nat.
Definition no_preference : ExplorerFallbackConfig := {| fallback_deployment := None; fallback_logs := None |}.

Lemma getLogsByTopic_complete_witness :
  caches_true "0xA1" 5 at_start /\
  let strategies := reader_strategies [down] (EvmRpcEventLogsReader (Some 2)) no_preference in
  let run := getLogsByTopic "0xA1" "0x70" strategies.1 strategies.2 None None at_start in
  caches_true "0xA1" 5 run.1 /\
  forall logs, run.2 = Returned logs -> answers "0xA1" "0x70" 5 events None 9 logs.
Proof.
  assert (caches_true "0xA1" 5 at_start) as Hs by (by intros cache n [->| ->]).
  split; [exact Hs|].
  assert (Forall (truthful 5 events) [down]) as Hd by (by repeat constructor).
  pose proof (getLogsByTopic_complete (H := two_blocks) chain 5 events [down] (Some 2) no_preference "0xA1" "0x70"
    None None at_start ltac:(lia) ltac:(cbn; congruence) ltac:(cbn; intros s s' n [= _ <-]; lia) chain_events
    Hd Hs) as [Hc He].
  split; [exact Hc|]. intros logs Hr. rewrite Hr in He. destruct He as (to & (o & [= <-]) & Ha). exact Ha.
Defined.

End LogReaderSample.
