(* ===== verification/WarpTokens.v ===== *)
(** Tokens of warp routes: the tables of sdk/src/token/TokenStandard.ts, TokenMetadata.ts (what a
    token is, and which tokens are the same asset), TokenConnection.ts, TokenAmount.ts,
    sdk/src/warp/resolveDestinationToken.ts, and the choice of an adapter in Token.ts and the
    factories of sdk/src/token/adapters. *)
From Stdlib Require Import ZArith Lia String Ascii.
From stdpp Require Import base tactics list strings.
From S2P Require Import Prelude JsMap Addresses Amount Token Messages AddressEq.

#[local] Open Scope Z_scope.

(** ** Tables of TokenStandard.ts *)

(** Deploy types of tokens, config.ts; [unknown] is left out of the tables. *)
Inductive TokenType : Type :=
| TySynthetic | TySyntheticRebase | TySyntheticUri | TyCollateral | TyCollateralVault
| TyCollateralVaultRebase | TyXERC20 | TyXERC20Lockbox | TyCollateralFiat | TyCollateralUri
| TyCollateralCctp | TyNative | TyNativeOpL2 | TyNativeOpL1 | TyNativeScaled | TyEthEverclear
| TyCollateralEverclear | TyCollateralDepositAddress | TyCollateralOft | TyAtomicLocalRebalancing
| TyCrossCollateral | TyUnknown.

#[export] Instance TokenType_eq_dec : EqDecision TokenType.
Proof. solve_decision. Defined.

Definition TOKEN_STANDARD_TO_PROTOCOL (s : TokenStandard) : ProtocolType :=
  match s with
  | ERC20 | ERC721 | EvmNative | EvmHypNative | EvmHypCollateral | EvmHypOwnerCollateral
  | EvmHypRebaseCollateral | EvmHypCollateralFiat | EvmHypSynthetic | EvmHypSyntheticRebase
  | EvmHypXERC20 | EvmHypXERC20Lockbox | EvmHypVSXERC20 | EvmHypVSXERC20Lockbox | EvmM0PortalLite
  | EvmM0Portal | EvmHypEverclearCollateral | EvmHypEverclearEth | EvmHypCrossCollateralRouter
  | EvmAtomicLocalRebalancingBridge => PEthereum
  | SealevelSpl | SealevelSpl2022 | SealevelNative | SealevelHypNative | SealevelHypCollateral
  | SealevelHypSynthetic | SealevelHypCrossCollateral => PSealevel
  | CosmosIcs20 | CosmosIcs721 | CosmosNative | CosmosIbc => PCosmos
  | CosmNativeHypCollateral | CosmNativeHypSynthetic => PCosmosNative
  | CW20 | CWNative | CW721 | CwHypNative | CwHypCollateral | CwHypSynthetic => PCosmos
  | StarknetNative | StarknetHypCollateral | StarknetHypNative | StarknetHypSynthetic => PStarknet
  | RadixNative | RadixHypCollateral | RadixHypSynthetic => PRadix
  | AleoNative | AleoHypNative | AleoHypCollateral | AleoHypSynthetic => PAleo
  | TRC20 | TRC721 | TronNative | TronHypNative | TronHypCollateral | TronHypOwnerCollateral
  | TronHypRebaseCollateral | TronHypCollateralFiat | TronHypSynthetic | TronHypSyntheticRebase
  | TronHypXERC20 | TronHypXERC20Lockbox | TronHypVSXERC20 | TronHypVSXERC20Lockbox
  | TronM0PortalLite | TronHypEverclearCollateral | TronHypEverclearEth
  | TronHypCrossCollateralRouter | TronAtomicLocalRebalancingBridge => PTron
  end.

Inductive ProviderType : Type :=
| EthersV5 | SolanaWeb3 | CosmJs | CosmJsNative | CosmJsWasm | StarknetProvider | RadixProvider
| AleoProvider | TronProvider.

#[export] Instance ProviderType_eq_dec : EqDecision ProviderType.
Proof. solve_decision. Defined.

Definition PROTOCOL_TO_DEFAULT_PROVIDER_TYPE (p : ProtocolType) : option ProviderType :=
  match p with
  | PEthereum => Some EthersV5
  | PSealevel => Some SolanaWeb3
  | PCosmos => Some CosmJsWasm
  | PCosmosNative => Some CosmJsNative
  | PStarknet => Some StarknetProvider
  | PRadix => Some RadixProvider
  | PAleo => Some AleoProvider
  | PTron => Some TronProvider
  | PUnknown => None
  end.

(** By the name of the standard: [CosmosNative] itself, and [CosmosNativeHyp..]. *)
Definition TOKEN_STANDARD_TO_PROVIDER_TYPE (s : TokenStandard) : option ProviderType :=
  if String.prefix "CosmosNative" (standard_value s) then Some CosmJsNative
  else if String.prefix "Cosmos" (standard_value s) then Some CosmJs
  else PROTOCOL_TO_DEFAULT_PROVIDER_TYPE (TOKEN_STANDARD_TO_PROTOCOL s).

Definition TOKEN_NFT_STANDARDS : list TokenStandard := [ERC721; TRC721; CosmosIcs721; CW721].
Definition TOKEN_CROSS_COLLATERAL_STANDARDS : list TokenStandard :=
  [EvmHypCrossCollateralRouter; SealevelHypCrossCollateral; TronHypCrossCollateralRouter].
Definition XERC20_STANDARDS : list TokenStandard :=
  [EvmHypXERC20; EvmHypXERC20Lockbox; EvmHypVSXERC20; EvmHypVSXERC20Lockbox; TronHypXERC20;
   TronHypXERC20Lockbox; TronHypVSXERC20; TronHypVSXERC20Lockbox].
Definition LOCKBOX_STANDARDS : list TokenStandard :=
  [EvmHypXERC20Lockbox; EvmHypVSXERC20Lockbox; TronHypXERC20Lockbox; TronHypVSXERC20Lockbox].
Definition ERC4626_COLLATERAL_STANDARDS : list TokenStandard :=
  [EvmHypOwnerCollateral; EvmHypRebaseCollateral; TronHypOwnerCollateral; TronHypRebaseCollateral].
Definition MINT_LIMITED_STANDARDS : list TokenStandard :=
  [EvmHypXERC20; EvmHypXERC20Lockbox; EvmHypVSXERC20; EvmHypVSXERC20Lockbox; EvmHypCollateralFiat;
   TronHypXERC20; TronHypXERC20Lockbox; TronHypVSXERC20; TronHypVSXERC20Lockbox;
   TronHypCollateralFiat].
Definition TOKEN_MULTI_CHAIN_STANDARDS : list TokenStandard := TOKEN_HYP_STANDARDS ++ [CosmosIbc].

Definition PROTOCOL_TO_NATIVE_STANDARD (p : ProtocolType) : option TokenStandard :=
  match p with
  | PEthereum => Some EvmNative
  | PCosmos | PCosmosNative => Some CosmosNative
  | PSealevel => Some SealevelNative
  | PStarknet => Some StarknetNative
  | PRadix => Some RadixNative
  | PAleo => Some AleoNative
  | PTron => Some TronNative
  | PUnknown => None
  end.

(** [KnownProtocolType]. *)
Definition known_protocols : list ProtocolType :=
  [PEthereum; PSealevel; PCosmos; PCosmosNative; PStarknet; PRadix; PAleo; PTron].

(** What a deployed type of an EVM chain becomes. *)
Definition EVM_TOKEN_TYPE_TO_STANDARD (t : TokenType) : option TokenStandard :=
  match t with
  | TyNative | TyNativeScaled | TyNativeOpL1 | TyNativeOpL2 => Some EvmHypNative
  | TyCollateral | TyCollateralUri | TyCollateralCctp | TyCollateralDepositAddress
  | TyCollateralOft => Some EvmHypCollateral
  | TyCollateralFiat => Some EvmHypCollateralFiat
  | TyXERC20 => Some EvmHypXERC20
  | TyXERC20Lockbox => Some EvmHypXERC20Lockbox
  | TyCollateralVault => Some EvmHypOwnerCollateral
  | TyCollateralVaultRebase => Some EvmHypRebaseCollateral
  | TySynthetic | TySyntheticUri => Some EvmHypSynthetic
  | TySyntheticRebase => Some EvmHypSyntheticRebase
  | TyEthEverclear => Some EvmHypEverclearEth
  | TyCollateralEverclear => Some EvmHypEverclearCollateral
  | TyAtomicLocalRebalancing => Some EvmAtomicLocalRebalancingBridge
  | TyCrossCollateral => Some EvmHypCrossCollateralRouter
  | TyUnknown => None
  end.

Definition TRON_TOKEN_TYPE_TO_STANDARD (t : TokenType) : option TokenStandard :=
  match t with
  | TyNative | TyNativeScaled | TyNativeOpL1 | TyNativeOpL2 => Some TronHypNative
  | TyCollateral | TyCollateralUri | TyCollateralCctp | TyCollateralDepositAddress
  | TyCollateralOft => Some TronHypCollateral
  | TyCollateralFiat => Some TronHypCollateralFiat
  | TyXERC20 => Some TronHypXERC20
  | TyXERC20Lockbox => Some TronHypXERC20Lockbox
  | TyCollateralVault => Some TronHypOwnerCollateral
  | TyCollateralVaultRebase => Some TronHypRebaseCollateral
  | TySynthetic | TySyntheticUri => Some TronHypSynthetic
  | TySyntheticRebase => Some TronHypSyntheticRebase
  | TyEthEverclear => Some TronHypEverclearEth
  | TyCollateralEverclear => Some TronHypEverclearCollateral
  | TyAtomicLocalRebalancing => Some TronAtomicLocalRebalancingBridge
  | TyCrossCollateral => Some TronHypCrossCollateralRouter
  | TyUnknown => None
  end.

Definition COSMOS_NATIVE_TOKEN_TYPE_TO_STANDARD (t : TokenType) : option TokenStandard :=
  match t with
  | TyCollateral => Some CosmNativeHypCollateral
  | TySynthetic => Some CosmNativeHypSynthetic
  | _ => None
  end.
Definition SEALEVEL_TOKEN_TYPE_TO_STANDARD (t : TokenType) : option TokenStandard :=
  match t with
  | TyCollateral => Some SealevelHypCollateral
  | TySynthetic => Some SealevelHypSynthetic
  | TyNative => Some SealevelHypNative
  | TyCrossCollateral => Some SealevelHypCrossCollateral
  | _ => None
  end.
Definition STARKNET_TOKEN_TYPE_TO_STANDARD (t : TokenType) : option TokenStandard :=
  match t with
  | TyCollateral => Some StarknetHypCollateral
  | TyNative => Some StarknetHypNative
  | TySynthetic => Some StarknetHypSynthetic
  | _ => None
  end.
Definition RADIX_TOKEN_TYPE_TO_STANDARD (t : TokenType) : option TokenStandard :=
  match t with
  | TyCollateral => Some RadixHypCollateral
  | TySynthetic => Some RadixHypSynthetic
  | _ => None
  end.
Definition ALEO_TOKEN_TYPE_TO_STANDARD (t : TokenType) : option TokenStandard :=
  match t with
  | TyNative => Some AleoHypNative
  | TyCollateral => Some AleoHypCollateral
  | TySynthetic => Some AleoHypSynthetic
  | _ => None
  end.

Definition tokenTypeToStandard (protocolType : ProtocolType) (tokenType : TokenType)
    : result TokenStandard :=
  let unavailable : result TokenStandard := Throw (Error "token type not available on protocol") in
  let table lookup := match lookup tokenType with Some s => Ok s | None => unavailable end in
  _ ← js_assert (negb (bool_decide (tokenType = TyUnknown)))
        "Cannot determine token standard for unknown token type";
  match protocolType with
  | PEthereum => table EVM_TOKEN_TYPE_TO_STANDARD
  | PCosmosNative => table COSMOS_NATIVE_TOKEN_TYPE_TO_STANDARD
  | PRadix => table RADIX_TOKEN_TYPE_TO_STANDARD
  | PAleo => table ALEO_TOKEN_TYPE_TO_STANDARD
  | PTron => table TRON_TOKEN_TYPE_TO_STANDARD
  | PSealevel => table SEALEVEL_TOKEN_TYPE_TO_STANDARD
  | PStarknet => table STARKNET_TOKEN_TYPE_TO_STANDARD
  | PCosmos | PUnknown => Throw (Error "no token standard available for protocol type")
  end.

(** ** Tokens *)

(** [TokenArgs] without its connections. *)
Record TokenArgs : Type := {
  t_chainName : string;
  t_standard : TokenStandard;
  t_tokenType : option TokenType;
  t_decimals : Z;
  t_symbol : string;
  t_name : string;
  t_addressOrDenom : string;
  t_collateralAddressOrDenom : option string;
  t_igpTokenAddressOrDenom : option string;
  t_scale : option ScaleInput;
  t_warpRouteId : option string
}.

Inductive TokenConnectionType : Type := Hyperlane | Ibc | IbcHyperlane.
#[export] Instance TokenConnectionType_eq_dec : EqDecision TokenConnectionType.
Proof. solve_decision. Defined.

(** A connection, to a token of which the connections are not looked at. *)
Record TokenConnection : Type := { c_type : option TokenConnectionType; c_token : TokenArgs }.

(** A token of a warp route. *)
Record IToken : Type := { args : TokenArgs; connections : list TokenConnection }.

Definition t_protocol (t : TokenArgs) : ProtocolType := TOKEN_STANDARD_TO_PROTOCOL (t_standard t).

Definition among (standards : list TokenStandard) (t : TokenArgs) : bool :=
  bool_decide (t_standard t ∈ standards).

Definition isNft : TokenArgs -> bool := among TOKEN_NFT_STANDARDS.
Definition isNative : TokenArgs -> bool := among (omap PROTOCOL_TO_NATIVE_STANDARD known_protocols).
Definition isHypNative : TokenArgs -> bool := among (omap PROTOCOL_TO_HYP_NATIVE_STANDARD known_protocols).
Definition isCollateralizedToken : TokenArgs -> bool := among TOKEN_COLLATERALIZED_STANDARDS.
Definition isWarpToken : TokenArgs -> bool := among TOKEN_HYP_STANDARDS.
Definition isXerc20 : TokenArgs -> bool := among XERC20_STANDARDS.
Definition isIbcToken (t : TokenArgs) : bool := bool_decide (t_standard t = CosmosIbc).
Definition isMultiChainToken : TokenArgs -> bool := among TOKEN_MULTI_CHAIN_STANDARDS.
Definition isCrossCollateralToken : TokenArgs -> bool := among TOKEN_CROSS_COLLATERAL_STANDARDS.

Definition getConnectionForChain (t : IToken) (chain : string) : option TokenConnection :=
  head (filter (fun c => t_chainName (c_token c) = chain) (connections t)).

Definition addConnection (t : IToken) (c : TokenConnection) : IToken :=
  {| args := args t; connections := connections t ++ [c] |}.

Section identity.
Context `{AddressLibs}.

Definition tokenIdentifiersEqual (left right : option string) : bool :=
  match left, right with
  | Some a, Some b => String.eqb a b || eqAddress a b
  | None, None => true
  | _, _ => false
  end.

(** An optional text that is there and not empty. *)
Definition given (o : option string) : option string :=
  match o with Some (String _ _ as s) => Some s | _ => None end.

Definition matchesUnderlyingAsset (source target : TokenArgs) : bool :=
  (isCollateralizedToken source &&
     match given (t_collateralAddressOrDenom source) with
     | Some collateral => tokenIdentifiersEqual (Some collateral) (Some (t_addressOrDenom target))
     | None => isHypNative source && (isNative target || isHypNative target)
     end) ||
  (bool_decide (t_standard source = CosmosIbc) && bool_decide (t_standard target = CosmosNative) &&
   tokenIdentifiersEqual (Some (t_addressOrDenom source)) (Some (t_addressOrDenom target))).

(** [this.warpRouteId || token.warpRouteId]: an identifier is never empty. *)
Definition token_equals (t t' : TokenArgs) : bool :=
  bool_decide (given (t_warpRouteId t) = given (t_warpRouteId t')) &&
  bool_decide (t_protocol t = t_protocol t') &&
  bool_decide (t_chainName t = t_chainName t') &&
  bool_decide (t_standard t = t_standard t') &&
  (t_decimals t =? t_decimals t') &&
  tokenIdentifiersEqual (Some (t_addressOrDenom t)) (Some (t_addressOrDenom t')) &&
  tokenIdentifiersEqual (t_collateralAddressOrDenom t) (t_collateralAddressOrDenom t').

Definition isFungibleWith (t t' : TokenArgs) : bool :=
  bool_decide (t_chainName t' = t_chainName t) &&
  (token_equals t t' || matchesUnderlyingAsset t t' || matchesUnderlyingAsset t' t).

Definition removeConnection (t : IToken) (token : TokenArgs) : IToken :=
  {| args := args t;
     connections := match list_find (fun c => token_equals (c_token c) token = true) (connections t) with
                    | Some (i, _) => take i (connections t) ++ drop (S i) (connections t)
                    | None => connections t
                    end |}.

End identity.

(** ** TokenConnection.ts *)

Definition protocol_value (p : ProtocolType) : string :=
  match p with
  | PEthereum => "ethereum" | PSealevel => "sealevel" | PCosmos => "cosmos"
  | PCosmosNative => "cosmosnative" | PStarknet => "starknet" | PRadix => "radix"
  | PAleo => "aleo" | PTron => "tron" | PUnknown => "unknown"
  end.
Definition parse_protocol (s : string) : option ProtocolType :=
  List.find (fun p => String.eqb (protocol_value p) s) (known_protocols ++ [PUnknown]).

Fixpoint positions_of (c : ascii) (from : nat) (s : string) : list nat :=
  match s with
  | EmptyString => []
  | String c' s' =>
      (if Ascii.eqb c' c then [from] else []) ++ positions_of c (S from) s'
  end.

(** [/^(.+)\|(.+)\|(.+)$/]: two bars, with something before, between and after them; the first bar
    that something precedes and the last one that something follows decide. *)
Definition TokenConnectionRegex (s : string) : bool :=
  let bars := positions_of "|" 0 s in
  match head (filter (fun i => 1 <= i)%nat bars),
        last (filter (fun i => i + 2 <= String.length s)%nat bars) with
  | Some i, Some j => (i + 2 <=? j)%nat
  | _, _ => false
  end && string_all (fun c => negb (Ascii.eqb c "010" || Ascii.eqb c "013")) s.

Definition getTokenConnectionId (protocol : ProtocolType) (chainName address : string) : result string :=
  _ ← js_assert (negb (String.eqb chainName "") && negb (String.eqb address ""))
        "Invalid token connection id params";
  Ok (protocol_value protocol +:+ "|" +:+ chainName +:+ "|" +:+ address).

Record TokenConnectionId : Type := {
  ci_protocol : ProtocolType; ci_chainName : string; ci_addressOrDenom : string
}.

Definition parseTokenConnectionId (data : string) : result TokenConnectionId :=
  _ ← js_assert (TokenConnectionRegex data) "Invalid token connection id";
  match js_split "|" data with
  | protocol :: chainName :: addressOrDenom :: _ =>
      match parse_protocol protocol with
      | Some p => Ok {| ci_protocol := p; ci_chainName := chainName; ci_addressOrDenom := addressOrDenom |}
      | None => Throw (Error ("Invalid protocol: " +:+ protocol))
      end
  | _ => Throw (Error "Invalid token connection id")
  end.

(** ** Chains *)

Record NativeToken : Type := {
  nt_decimals : Z; nt_denom : option string; nt_name : string; nt_symbol : string
}.

Definition PROTOCOL_TO_DEFAULT_NATIVE_TOKEN (p : ProtocolType) : option NativeToken :=
  match p with
  | PEthereum => Some {| nt_decimals := 18; nt_denom := None; nt_name := "Ether"; nt_symbol := "ETH" |}
  | PSealevel => Some {| nt_decimals := 9; nt_denom := None; nt_name := "Solana"; nt_symbol := "SOL" |}
  | PCosmos | PCosmosNative =>
      Some {| nt_decimals := 6; nt_denom := Some "uatom"; nt_name := "Atom"; nt_symbol := "ATOM" |}
  | PStarknet =>
      Some {| nt_decimals := 18;
              nt_denom := Some "0x049d36570d4e46f48e99674bd3fcc84644ddd6b96f7c741b1562b82f9e004dc7";
              nt_name := "Ether"; nt_symbol := "ETH" |}
  | PRadix =>
      Some {| nt_decimals := 18;
              nt_denom := Some "resource_rdx1tknxxxxxxxxxradxrdxxxxxxxxx009923554798xxxxxxxxxradxrd";
              nt_name := "Radix"; nt_symbol := "XRD" |}
  | PAleo => Some {| nt_decimals := 6; nt_denom := Some "credits"; nt_name := "Aleo"; nt_symbol := "ALEO" |}
  | PTron => Some {| nt_decimals := 6; nt_denom := Some "SUN"; nt_name := "Tron"; nt_symbol := "TRX" |}
  | PUnknown => None
  end%string.

(** Of [ChainMetadata], what is read of it here. *)
Record ChainMetadata : Type := {
  cm_name : string; cm_protocol : ProtocolType; cm_domainId : option Z; cm_chainId : option Z;
  cm_bech32Prefix : option string; cm_nativeToken : option NativeToken; cm_seismic : bool;
  cm_mailbox : option string
}.

(** [ChainNameOrId]. *)
Inductive ChainNameOrId : Type := ByName (name : string) | ById (domainId : Z).

(** ChainMetadataManager.ts: the chains by their names, which are not numbers. *)
Definition tryGetChainMetadata (metadata : list (string * ChainMetadata)) (chain : ChainNameOrId)
    : option ChainMetadata :=
  match chain with
  | ByName name => map_get name metadata
  | ById n => List.find (fun m => bool_decide (cm_domainId m = Some n)) (map_values metadata)
  end.

Definition getChainMetadata (metadata : list (string * ChainMetadata)) (chain : ChainNameOrId)
    : result ChainMetadata :=
  match tryGetChainMetadata metadata chain with
  | Some m => Ok m
  | None => Throw (Error "No chain metadata set")
  end.

Definition getDomainId (metadata : list (string * ChainMetadata)) (chain : ChainNameOrId) : result Z :=
  m ← match tryGetChainMetadata metadata chain with
      | Some m => Ok m | None => Throw (Error "No domain id set") end;
  match cm_domainId m, cm_chainId m with
  | Some (Zpos _ as n), _ | Some (Zneg _ as n), _ => Ok n
  | _, Some 0 => Throw (Error "No domain id set")
  | _, Some n => Ok n
  | _, None => Throw (Error "Invalid chain metadata, no valid domainId")
  end.

(** [Token.FromChainMetadataNativeToken]. *)
Definition FromChainMetadataNativeToken (m : ChainMetadata) : result IToken :=
  match PROTOCOL_TO_NATIVE_STANDARD (cm_protocol m), PROTOCOL_TO_DEFAULT_NATIVE_TOKEN (cm_protocol m) with
  | Some standard, Some fallback =>
      let native := default fallback (cm_nativeToken m) in
      Ok {| args := {| t_chainName := cm_name m; t_standard := standard; t_tokenType := None;
                       t_decimals := nt_decimals native; t_symbol := nt_symbol native;
                       t_name := nt_name native;
                       t_addressOrDenom := default ""%string (nt_denom native);
                       t_collateralAddressOrDenom := None; t_igpTokenAddressOrDenom := None;
                       t_scale := None; t_warpRouteId := None |};
            connections := [] |}
  | _, _ => Throw (Error "Cannot create native token for unknown protocol")
  end.

(** ** TokenAmount.ts *)

Record TokenAmount : Type := { amount : Z; token : IToken }.

Definition plus (a : TokenAmount) (n : Z) : TokenAmount := {| amount := amount a + n; token := token a |}.
Definition minus (a : TokenAmount) (n : Z) : TokenAmount := {| amount := amount a - n; token := token a |}.

(** ** resolveDestinationToken.ts *)

Section resolve.
Context `{AddressLibs}.

Definition resolveDestinationToken (metadata : list (string * ChainMetadata)) (originToken : IToken)
    (destination : ChainNameOrId) (destinationToken : option TokenArgs) : result TokenArgs :=
  m ← getChainMetadata metadata destination;
  let destinationName := cm_name m in
  let candidates :=
    filter (fun t => t_chainName t = destinationName) (c_token <$> connections originToken) in
  _ ← js_assert (negb (bool_decide (candidates = []))) ("No connection found for " +:+ destinationName);
  match destinationToken with
  | Some wanted =>
      _ ← js_assert (String.eqb (t_chainName wanted) destinationName)
            ("Destination token chain mismatch for " +:+ destinationName);
      match List.find (fun candidate =>
              token_equals candidate wanted ||
              tokenIdentifiersEqual (Some (t_addressOrDenom candidate)) (Some (t_addressOrDenom wanted)))
              candidates with
      | Some matched => Ok matched
      | None => Throw (Error "Destination token is not connected")
      end
  | None =>
      match candidates with
      | [candidate] => Ok candidate
      | _ => Throw (Error ("Ambiguous route to " +:+ destinationName +:+ "; specify destination token"))
      end
  end.

End resolve.

(** ** Adapters

    Which class of adapter a token gets, with the addresses it is built on; the ports and
    channels of IBC connections are left out. *)
Inductive AdapterClass : Type :=
| EvmTokenAdapter | EvmNativeTokenAdapter | SealevelTokenAdapter | SealevelNativeTokenAdapter
| CosmNativeTokenAdapter | CwTokenAdapter | CwNativeTokenAdapter | StarknetTokenAdapter
| RadixNativeTokenAdapter | AleoNativeTokenAdapter
| EvmHypNativeAdapter | EvmHypOwnerCollateralAdapter | EvmMovableCollateralAdapter
| EvmHypCrossCollateralAdapter | EvmHypRebaseCollateralAdapter | EvmHypCollateralFiatAdapter
| EvmHypSyntheticAdapter | EvmHypSyntheticRebaseAdapter | EvmHypXERC20Adapter
| EvmHypXERC20LockboxAdapter
| SealevelHypNativeAdapter | SealevelHypCollateralAdapter | SealevelHypSyntheticAdapter
| SealevelHypCrossCollateralAdapter
| CwHypNativeAdapter | CwHypCollateralAdapter | CwHypSyntheticAdapter
| CosmNativeHypCollateralAdapter | CosmNativeHypSyntheticAdapter
| StarknetHypFeeAdapter | StarknetHypNativeAdapter | StarknetHypSyntheticAdapter
| StarknetHypCollateralAdapter
| RadixHypCollateralAdapter | RadixHypSyntheticAdapter
| AleoHypNativeAdapter | AleoHypCollateralAdapter | AleoHypSyntheticAdapter
| CosmIbcTokenAdapter | CosmIbcToWarpTokenAdapter | M0PortalLiteTokenAdapter | M0PortalTokenAdapter.

#[export] Instance AdapterClass_eq_dec : EqDecision AdapterClass.
Proof. solve_decision. Defined.

Record Adapter : Type := {
  a_class : AdapterClass; a_chain : string; a_address : string; a_second : option string
}.

Definition hasOnlyHyperlaneConnections (t : IToken) : bool :=
  negb (bool_decide (connections t = [])) &&
  forallb (fun c => bool_decide (default Hyperlane (c_type c) = Hyperlane)) (connections t).

Definition STARKNET_FEE_TOKEN_ADDRESSES (chainName : string) : option string :=
  map_get chainName
    [("starknet", "0x04718f5a0fc34cc1af16a1cdee98ffb20c31f5cd61d6ab07201858f4287c938d");
     ("starknetsepolia", "0x04718f5a0fc34cc1af16a1cdee98ffb20c31f5cd61d6ab07201858f4287c938d");
     ("paradex", "0x7348407ebad690fec0cc8597e87dc16ef7b269a655ff72587dafff83d462be2");
     ("paradexsepolia", "0x06f373b346561036d98ea10fb3e60d2f459c872b1933b50b21fe6ef4fda3b75e")]%string.

(** The standards of the EVM or of Tron in the order they are tried. *)
Record EvmLikeStandards : Type := {
  native : TokenStandard; hypNative : TokenStandard; hypCollateral : TokenStandard;
  hypOwnerCollateral : TokenStandard; hypCrossCollateralRouter : TokenStandard;
  hypRebaseCollateral : TokenStandard; hypCollateralFiat : TokenStandard;
  hypSynthetic : TokenStandard; hypSyntheticRebase : TokenStandard;
  hypXerc20 : list TokenStandard; hypXerc20Lockbox : list TokenStandard
}.

Definition evm_standards : EvmLikeStandards := {|
  native := EvmNative; hypNative := EvmHypNative; hypCollateral := EvmHypCollateral;
  hypOwnerCollateral := EvmHypOwnerCollateral; hypCrossCollateralRouter := EvmHypCrossCollateralRouter;
  hypRebaseCollateral := EvmHypRebaseCollateral; hypCollateralFiat := EvmHypCollateralFiat;
  hypSynthetic := EvmHypSynthetic; hypSyntheticRebase := EvmHypSyntheticRebase;
  hypXerc20 := [EvmHypXERC20; EvmHypVSXERC20]; hypXerc20Lockbox := [EvmHypXERC20Lockbox; EvmHypVSXERC20Lockbox]
|}.
Definition tron_standards : EvmLikeStandards := {|
  native := TronNative; hypNative := TronHypNative; hypCollateral := TronHypCollateral;
  hypOwnerCollateral := TronHypOwnerCollateral; hypCrossCollateralRouter := TronHypCrossCollateralRouter;
  hypRebaseCollateral := TronHypRebaseCollateral; hypCollateralFiat := TronHypCollateralFiat;
  hypSynthetic := TronHypSynthetic; hypSyntheticRebase := TronHypSyntheticRebase;
  hypXerc20 := [TronHypXERC20; TronHypVSXERC20]; hypXerc20Lockbox := [TronHypXERC20Lockbox; TronHypVSXERC20Lockbox]
|}.

(** What a factory makes: nothing, if the token is not of its standards. *)
Definition made (t : IToken) (c : AdapterClass) (second : option string) : result (option Adapter) :=
  Ok (Some {| a_class := c; a_chain := t_chainName (args t); a_address := t_addressOrDenom (args t);
              a_second := second |}).

Definition createEvmLikeHypAdapter (known : bool) (standards : EvmLikeStandards) (t : IToken)
    : result (option Adapter) :=
  let standard := t_standard (args t) in
  let eq s := bool_decide (standard = s) in
  if negb known then Ok None
  else if eq (native standards) && hasOnlyHyperlaneConnections t then made t EvmHypNativeAdapter None
  else if eq (hypNative standards) then made t EvmHypNativeAdapter None
  else if eq (hypOwnerCollateral standards) then made t EvmHypOwnerCollateralAdapter None
  else if eq (hypCollateral standards) then made t EvmMovableCollateralAdapter None
  else if eq (hypCrossCollateralRouter standards) then made t EvmHypCrossCollateralAdapter None
  else if eq (hypRebaseCollateral standards) then made t EvmHypRebaseCollateralAdapter None
  else if eq (hypCollateralFiat standards) then made t EvmHypCollateralFiatAdapter None
  else if eq (hypSynthetic standards) then made t EvmHypSyntheticAdapter None
  else if eq (hypSyntheticRebase standards) then made t EvmHypSyntheticRebaseAdapter None
  else if bool_decide (standard ∈ hypXerc20 standards) then made t EvmHypXERC20Adapter None
  else if bool_decide (standard ∈ hypXerc20Lockbox standards) then made t EvmHypXERC20LockboxAdapter None
  else Ok None.

(** An adapter on a second address, which has to be there. *)
Definition made_on_collateral (t : IToken) (c : AdapterClass) : result (option Adapter) :=
  match given (t_collateralAddressOrDenom (args t)) with
  | Some collateral => made t c (Some collateral)
  | None => Throw (Error "collateralAddressOrDenom required")
  end.

Definition createSealevelHypAdapter (m : option ChainMetadata) (t : IToken) : result (option Adapter) :=
  match m with
  | None => Ok None
  | Some m =>
      let with_mailbox r :=
        match given (cm_mailbox m) with
        | Some _ => r | None => Throw (Error "Mailbox required for Sealevel hyp tokens") end in
      match t_standard (args t) with
      | SealevelHypNative => with_mailbox (made t SealevelHypNativeAdapter None)
      | SealevelHypCollateral => with_mailbox (made_on_collateral t SealevelHypCollateralAdapter)
      | SealevelHypSynthetic => with_mailbox (made_on_collateral t SealevelHypSyntheticAdapter)
      | SealevelHypCrossCollateral => with_mailbox (made_on_collateral t SealevelHypCrossCollateralAdapter)
      | _ => Ok None
      end
  end.

Definition createCosmosHypAdapter (known : bool) (t : IToken) : result (option Adapter) :=
  if negb known then Ok None
  else match t_standard (args t) with
       | CwHypNative => made t CwHypNativeAdapter None
       | CwHypCollateral => made_on_collateral t CwHypCollateralAdapter
       | CwHypSynthetic => made_on_collateral t CwHypSyntheticAdapter
       | CosmNativeHypCollateral => made t CosmNativeHypCollateralAdapter None
       | CosmNativeHypSynthetic => made t CosmNativeHypSyntheticAdapter None
       | _ => Ok None
       end.

Definition createRadixHypAdapter (known : bool) (t : IToken) : result (option Adapter) :=
  if negb known then Ok None
  else match t_standard (args t) with
       | RadixHypCollateral => made t RadixHypCollateralAdapter None
       | RadixHypSynthetic => made t RadixHypSyntheticAdapter None
       | _ => Ok None
       end.

Definition createAleoHypAdapter (known : bool) (t : IToken) : result (option Adapter) :=
  if negb known then Ok None
  else match t_standard (args t) with
       | AleoHypNative => made t AleoHypNativeAdapter None
       | AleoHypCollateral => made t AleoHypCollateralAdapter None
       | AleoHypSynthetic => made t AleoHypSyntheticAdapter None
       | _ => Ok None
       end.

(** [a || b], of factories that may throw. *)
Definition or_else (a b : result (option Adapter)) : result (option Adapter) :=
  match a with Ok None => b | _ => a end.

Section adapters.
Context `{AddressLibs} (metadata : list (string * ChainMetadata)).

Definition isStarknetFeeToken (chainName address : string) : bool :=
  match STARKNET_FEE_TOKEN_ADDRESSES chainName with
  | Some fee => String.eqb (normalizeAddressStarknet address) (normalizeAddressStarknet fee)
  | None => false
  end.

Definition createStarknetHypAdapter (known : bool) (t : IToken) : result (option Adapter) :=
  if negb known then Ok None
  else match t_standard (args t) with
       | StarknetHypNative | StarknetHypSynthetic | StarknetHypCollateral =>
           if isStarknetFeeToken (t_chainName (args t)) (t_addressOrDenom (args t))
           then made t StarknetHypFeeAdapter None
           else made t (match t_standard (args t) with
                        | StarknetHypNative => StarknetHypNativeAdapter
                        | StarknetHypSynthetic => StarknetHypSyntheticAdapter
                        | _ => StarknetHypCollateralAdapter
                        end) None
       | _ => Ok None
       end.

(** [getIbcAdapter], by the type of the connection. *)
Definition getIbcAdapter (t : IToken) (c : TokenConnection) : result Adapter :=
  match c_type c with
  | Some Ibc =>
      Ok {| a_class := CosmIbcTokenAdapter; a_chain := t_chainName (args t);
            a_address := t_addressOrDenom (args t); a_second := None |}
  | Some IbcHyperlane =>
      Ok {| a_class := CosmIbcToWarpTokenAdapter; a_chain := t_chainName (args t);
            a_address := t_addressOrDenom (args t); a_second := Some (t_addressOrDenom (c_token c)) |}
  | _ => Throw (Error "Unsupported IBC connection type")
  end.

Definition on_second (t : IToken) (c : AdapterClass) : result Adapter :=
  match given (t_collateralAddressOrDenom (args t)) with
  | Some mToken => Ok {| a_class := c; a_chain := t_chainName (args t);
                         a_address := t_addressOrDenom (args t); a_second := Some mToken |}
  | None => Throw (Error "collateralAddressOrDenom (mToken address) required")
  end.

Definition getHypAdapter (t : IToken) (destination : option string) : result Adapter :=
  let standard := t_standard (args t) in
  let chainMetadata := tryGetChainMetadata metadata (ByName (t_chainName (args t))) in
  let known := bool_decide (is_Some chainMetadata) in
  _ ← js_assert (isMultiChainToken (args t) ||
                 (bool_decide (standard = EvmNative) || bool_decide (standard = TronNative)) &&
                 hasOnlyHyperlaneConnections t)
        ("Token standard " +:+ standard_value standard +:+ " not applicable to hyp adapter");
  _ ← js_assert (negb (isNft (args t))) "NFT adapters not yet supported";
  _ ← js_assert known ("Token chain " +:+ t_chainName (args t) +:+ " not found in multiProvider");
  hypAdapter ←
    or_else (createEvmLikeHypAdapter known evm_standards t)
    (or_else (createEvmLikeHypAdapter known tron_standards t)
    (or_else (createSealevelHypAdapter chainMetadata t)
    (or_else (createCosmosHypAdapter known t)
    (or_else (createStarknetHypAdapter known t)
    (or_else (createRadixHypAdapter known t)
             (createAleoHypAdapter known t))))));
  match hypAdapter, standard with
  | Some adapter, _ => Ok adapter
  | None, CosmosIbc =>
      match given destination with
      | None => Throw (Error "destination required for IBC token adapters")
      | Some destination =>
          match getConnectionForChain t destination with
          | None => Throw (Error ("No connection found for chain " +:+ destination))
          | Some connection => getIbcAdapter t connection
          end
      end
  | None, EvmM0PortalLite | None, TronM0PortalLite => on_second t M0PortalLiteTokenAdapter
  | None, EvmM0Portal => on_second t M0PortalTokenAdapter
  | None, _ => Throw (Error ("No hyp adapter found for token standard: " +:+ standard_value standard))
  end.

Definition getAdapter (t : IToken) : result Adapter :=
  let plain c := Ok {| a_class := c; a_chain := t_chainName (args t);
                       a_address := t_addressOrDenom (args t); a_second := None |} in
  _ ← js_assert (negb (isNft (args t))) "NFT adapters not yet supported";
  _ ← js_assert (bool_decide (is_Some (tryGetChainMetadata metadata (ByName (t_chainName (args t))))))
        ("Token chain " +:+ t_chainName (args t) +:+ " not found in multiProvider");
  match t_standard (args t) with
  | ERC20 | TRC20 => plain EvmTokenAdapter
  | EvmNative | TronNative => plain EvmNativeTokenAdapter
  | SealevelSpl | SealevelSpl2022 => plain SealevelTokenAdapter
  | SealevelNative => plain SealevelNativeTokenAdapter
  | CosmosIcs20 => Throw (Error "Cosmos ICS20 token adapter not yet supported")
  | CosmosNative => plain CosmNativeTokenAdapter
  | CW20 => plain CwTokenAdapter
  | CWNative => plain CwNativeTokenAdapter
  | StarknetNative => plain StarknetTokenAdapter
  | RadixNative => plain RadixNativeTokenAdapter
  | AleoNative => plain AleoNativeTokenAdapter
  | EvmAtomicLocalRebalancingBridge | TronAtomicLocalRebalancingBridge =>
      Throw (Error "AtomicLocalRebalancingBridge does not support user token transfers")
  | standard =>
      if isWarpToken (args t) then getHypAdapter t None
      else if isIbcToken (args t) then getIbcAdapter t {| c_type := Some Ibc; c_token := args t |}
      else Throw (Error ("No adapter found for token standard: " +:+ standard_value standard))
  end.

End adapters.

(** [isHypCrossCollateralAdapter]: the classes with both methods. *)
Definition isHypCrossCollateralAdapter (a : Adapter) : bool :=
  bool_decide (a_class a ∈ [EvmHypCrossCollateralAdapter; SealevelHypCrossCollateralAdapter]).

(** [isPredicateCapableAdapter]: the classes that extend [EvmHypSyntheticAdapter]. *)
Definition isPredicateCapableAdapter (a : Adapter) : bool :=
  bool_decide (a_class a ∈
    [EvmHypNativeAdapter; EvmHypOwnerCollateralAdapter; EvmMovableCollateralAdapter;
     EvmHypCrossCollateralAdapter; EvmHypRebaseCollateralAdapter; EvmHypCollateralFiatAdapter;
     EvmHypSyntheticAdapter; EvmHypSyntheticRebaseAdapter; EvmHypXERC20Adapter;
     EvmHypXERC20LockboxAdapter]).
