(* ===== verification/WarpTokensFacts.v ===== *)
(** What makes two tokens the same: equality of tokens is an equivalence, being the same asset is
    reflexive, symmetric and respects it; identifiers of connections parse back; and the
    destination token of a transfer. *)
From Stdlib Require Import ZArith Lia String Ascii.
From stdpp Require Import base tactics list strings sets.
From S2P Require Import Prelude JsMap Addresses Amount Token Messages AddressEq WarpTokens.

#[local] Open Scope Z_scope.

(** ** The same token, the same asset *)
Section identity.
Context `{AddressLibs}.

Definition same_id (a b : option string) : Prop := tokenIdentifiersEqual a b = true.

#[export] Instance same_id_equivalence : Equivalence same_id.
Proof.
  split.
  - intros [a|]; [|done]. unfold same_id; cbn. by rewrite String.eqb_refl.
  - unfold same_id. intros [a|] [b|]; cbn; try done. rewrite !orb_true_iff, !String.eqb_eq.
    intros [->|(p & n & ? & ? & ? & ?)%eqAddress_true]; [by left|]. right. apply eqAddress_true. eauto 7.
  - unfold same_id. intros [a|] [b|] [c|]; cbn; try done. rewrite !orb_true_iff, !String.eqb_eq.
    intros [->|(p & n & H1 & H2 & H3 & H4)%eqAddress_true]; [done|].
    intros [->|(p' & n' & H1' & H2' & H3' & H4')%eqAddress_true]; right; apply eqAddress_true; exists p, n;
      [done|]. rewrite H2 in H1'. injection H1' as <-. rewrite H3 in H3'. injection H3' as <-.
    by rewrite H4.
Qed.

Definition same_token (t t' : TokenArgs) : Prop := token_equals t t' = true.

Lemma same_token_fields t t' :
  same_token t t' <->
  given (t_warpRouteId t) = given (t_warpRouteId t') /\ t_chainName t = t_chainName t' /\
  t_standard t = t_standard t' /\ t_decimals t = t_decimals t' /\
  same_id (Some (t_addressOrDenom t)) (Some (t_addressOrDenom t')) /\
  same_id (t_collateralAddressOrDenom t) (t_collateralAddressOrDenom t').
Proof.
  unfold same_token, token_equals, same_id, t_protocol.
  rewrite !andb_true_iff, !bool_decide_eq_true, Z.eqb_eq. naive_solver congruence.
Qed.

#[export] Instance same_token_equivalence : Equivalence same_token.
Proof.
  split.
  - intros t. apply same_token_fields. split_and!; done.
  - intros t t' (? & ? & ? & ? & ? & ?)%same_token_fields. apply same_token_fields.
    split_and!; try done; by symmetry.
  - intros t t' t'' (? & ? & ? & ? & ? & ?)%same_token_fields (? & ? & ? & ? & ? & ?)%same_token_fields.
    apply same_token_fields. split_and!; try congruence; by etrans.
Qed.

(** An empty text is the same identifier as no other one. *)
Lemma same_id_given a b : same_id a b ->
  match given a, given b with
  | Some x, Some y => a = Some x /\ b = Some y
  | None, None => True
  | _, _ => False
  end.
Proof.
  assert (forall x, eqAddress x "" = true \/ eqAddress "" x = true -> False) as Hnone.
  { intros x [(p & n & E1 & E2 & _)%eqAddress_true|(p & n & E1 & E2 & _)%eqAddress_true]; done. }
  unfold same_id. destruct a as [[|c a]|], b as [[|c' b]|]; cbn; try done; intros Hs.
  - exact (Hnone _ (or_intror Hs)).
  - exact (Hnone _ (or_introl Hs)).
Qed.

#[export] Instance underlying_proper :
  Proper (same_token ==> same_token ==> eq) matchesUnderlyingAsset.
Proof.
  intros s s' (_ & _ & Hs & _ & Ha & Hc)%same_token_fields t t' (_ & _ & Ht & _ & Hta & _)%same_token_fields.
  assert (forall a b c d, same_id a b -> same_id c d ->
    tokenIdentifiersEqual a c = tokenIdentifiersEqual b d) as Hid.
  { intros a b c d Hab Hcd. apply eq_true_iff_eq. fold (same_id a c) (same_id b d). by rewrite Hab, Hcd. }
  unfold matchesUnderlyingAsset, isCollateralizedToken, isHypNative, isNative, among.
  rewrite Hs, Ht, (Hid _ _ _ _ Ha Hta).
  pose proof (same_id_given _ _ Hc) as Hg.
  destruct (given (t_collateralAddressOrDenom s)) as [c|], (given (t_collateralAddressOrDenom s')) as [c'|];
    try done.
  destruct Hg as [E1 E2]. rewrite E1, E2 in Hc. by rewrite (Hid _ _ _ _ Hc Hta).
Qed.

#[export] Instance fungible_proper : Proper (same_token ==> same_token ==> eq) isFungibleWith.
Proof.
  intros s s' Hs t t' Ht. unfold isFungibleWith.
  assert (token_equals s t = token_equals s' t') as ->.
  { apply eq_true_iff_eq. fold (same_token s t) (same_token s' t'). by rewrite Hs, Ht. }
  rewrite (underlying_proper s s' Hs t t' Ht), (underlying_proper t t' Ht s s' Hs).
  apply same_token_fields in Hs as (_ & -> & _). by apply same_token_fields in Ht as (_ & -> & _).
Qed.

Lemma fungible_symmetric t t' : isFungibleWith t t' = isFungibleWith t' t.
Proof.
  unfold isFungibleWith. rewrite (bool_decide_ext (t_chainName t' = t_chainName t) (t_chainName t = t_chainName t'))
    by done. f_equal. rewrite <- !orb_assoc, (orb_comm (matchesUnderlyingAsset t t')). f_equal.
  apply eq_true_iff_eq. fold (same_token t t') (same_token t' t). by split; intros; symmetry.
Qed.

End identity.

(** Being the same asset is well defined. Equality of tokens is an equivalence; a token is the
    same asset as itself, and as any token that is the same asset as it, whichever of the two is
    asked; and equal tokens are the same asset as the same tokens, so it does not matter which
    entry of a configuration a token is taken from. *)
Theorem fungible_asset `{AddressLibs} :
  Equivalence same_token /\
  (forall t, isFungibleWith t t = true) /\
  (forall t t', isFungibleWith t t' = isFungibleWith t' t) /\
  (forall s s' t t', same_token s s' -> same_token t t' -> isFungibleWith s t = isFungibleWith s' t').
Proof.
  split_and!; [apply same_token_equivalence| |apply fungible_symmetric|].
  - intros t. unfold isFungibleWith. rewrite bool_decide_eq_true_2 by done.
    assert (token_equals t t = true) as -> by (apply (reflexivity (R := same_token))). done.
  - intros s s' t t' Hs Ht. by apply fungible_proper.
Qed.

(** ** Destination tokens *)
Section resolve.
Context `{AddressLibs} (metadata : list (string * ChainMetadata)).

(** Whether a candidate is the one that was asked for. *)
Definition is_wanted (wanted candidate : TokenArgs) : Prop :=
  same_token candidate wanted \/
  same_id (Some (t_addressOrDenom candidate)) (Some (t_addressOrDenom wanted)).

Lemma resolve_spec originToken destination destinationToken t :
  resolveDestinationToken metadata originToken destination destinationToken = Ok t ->
  exists m, tryGetChainMetadata metadata destination = Some m /\ t_chainName t = cm_name m /\
    t ∈ c_token <$> connections originToken /\
    match destinationToken with
    | Some wanted => t_chainName wanted = cm_name m /\ is_wanted wanted t
    | None => forall t', t' ∈ c_token <$> connections originToken -> t_chainName t' = cm_name m -> t' = t
    end.
Proof.
  unfold resolveDestinationToken, getChainMetadata.
  destruct (tryGetChainMetadata metadata destination) as [m|]; [|done]. cbn. intros E. exists m.
  apply result_bind_ok in E as ([] & _ & E).
  set (candidates := filter _ _) in E.
  assert (forall x, x ∈ candidates <-> t_chainName x = cm_name m /\ x ∈ c_token <$> connections originToken)
    as Hc by (intros x; subst candidates; by rewrite list_elem_of_filter).
  destruct destinationToken as [wanted|].
  - apply result_bind_ok in E as ([] & Hw%js_assert_ok%String.eqb_eq & E).
    destruct (List.find _ candidates) as [t'|] eqn:Ef; [|done]. injection E as ->.
    apply List.find_some in Ef as [Hin Ef]. apply list_elem_of_In, Hc in Hin as [Hn Hin].
    split_and!; [done|done|done|done|]. by apply orb_true_iff in Ef.
  - destruct candidates as [|t0 [|]] eqn:Ec; try done. injection E as ->.
    assert (t ∈ [t]) as Hin by set_solver. apply Hc in Hin as [Hn Hin]. split_and!; [done|done|done|].
    intros t' Hin' Hn'. assert (t' ∈ [t]) as Ht by (apply Hc; done). by apply list_elem_of_singleton in Ht.
Qed.

Lemma find_first {A} (p q : A -> bool) l x :
  List.find p l = Some x -> (forall y, p y = q y) -> List.find q l = Some x.
Proof. intros Hf Hpq. induction l as [|y l IH]; [done|]. cbn in *. rewrite <- Hpq. by destruct (p y); auto. Qed.

(** Whether it is the same token does not matter for what is found: it has the same address. *)
Lemma wanted_by_address candidate wanted :
  token_equals candidate wanted ||
    tokenIdentifiersEqual (Some (t_addressOrDenom candidate)) (Some (t_addressOrDenom wanted)) =
  tokenIdentifiersEqual (Some (t_addressOrDenom candidate)) (Some (t_addressOrDenom wanted)).
Proof.
  destruct (token_equals candidate wanted) eqn:E; [|done].
  assert (same_token candidate wanted) as (_ & _ & _ & _ & Ha & _)%same_token_fields by done. by rewrite Ha.
Qed.

(** A destination token that was resolved resolves again, to itself. *)
Lemma resolve_again originToken destination destinationToken t :
  resolveDestinationToken metadata originToken destination destinationToken = Ok t ->
  resolveDestinationToken metadata originToken destination (Some t) = Ok t.
Proof.
  intros E. pose proof (resolve_spec _ _ _ _ E) as (m & Hm & Hn & Hin & Hw). revert E.
  unfold resolveDestinationToken, getChainMetadata. rewrite Hm. cbn [mbind result_bind].
  set (candidates := filter _ _). intros ([] & -> & E)%result_bind_ok. cbn [mbind result_bind].
  rewrite Hn, String.eqb_refl. cbn [js_assert mbind result_bind].
  assert (List.find (fun candidate => token_equals candidate t ||
    tokenIdentifiersEqual (Some (t_addressOrDenom candidate)) (Some (t_addressOrDenom t))) candidates = Some t)
    as ->; [|done].
  destruct destinationToken as [wanted|].
  - apply result_bind_ok in E as ([] & _ & E). destruct (List.find _ candidates) as [t'|] eqn:Ef; [|done].
    injection E as ->. eapply find_first; [exact Ef|]. intros y. cbv beta. rewrite !wanted_by_address.
    apply List.find_some in Ef as [_ Ef]. cbv beta in Ef. rewrite wanted_by_address in Ef.
    apply eq_true_iff_eq. fold (same_id (Some (t_addressOrDenom y)) (Some (t_addressOrDenom wanted))).
    fold (same_id (Some (t_addressOrDenom y)) (Some (t_addressOrDenom t))).
    fold (same_id (Some (t_addressOrDenom t)) (Some (t_addressOrDenom wanted))) in Ef. by rewrite Ef.
  - destruct candidates as [|t0 [|]]; try done. injection E as ->. cbn.
    by rewrite (reflexivity (R := same_token) t).
Qed.

End resolve.

(** ** Identifiers of connections *)

(** No bar and no line break. *)
Definition plain (s : string) : Prop :=
  string_all (fun c => negb (Ascii.eqb c "|" || Ascii.eqb c "010" || Ascii.eqb c "013")) s = true.

Lemma string_all_app p s s' : string_all p (s +:+ s') = string_all p s && string_all p s'.
Proof. induction s as [|c s IH]; [done|]. simpl. by rewrite IH, andb_assoc. Qed.

Lemma string_all_impl (p q : ascii -> bool) s : (forall c, p c = true -> q c = true) ->
  string_all p s = true -> string_all q s = true.
Proof.
  intros Hpq. induction s as [|c s IH]; [done|]. simpl. rewrite !andb_true_iff. intros [? ?]. auto.
Qed.

Lemma positions_app c from s s' :
  positions_of c from (s +:+ s') = positions_of c from s ++ positions_of c (from + String.length s) s'.
Proof.
  revert from. induction s as [|c' s IH]; intros from; simpl; [by rewrite Nat.add_0_r|].
  rewrite IH, <- app_assoc. by rewrite Nat.add_succ_r.
Qed.

(** The first of several texts is free of bars. *)
Lemma plain_cons c s : plain (String c s) -> Ascii.eqb c "|" = false /\ plain s.
Proof.
  unfold plain. simpl. rewrite andb_true_iff, negb_true_iff, !orb_false_iff. tauto.
Qed.

Lemma positions_plain from s : plain s -> positions_of "|" from s = [].
Proof.
  revert from. induction s as [|c s IH]; intros from; [done|].
  intros [Hc Hs]%plain_cons. simpl. rewrite Hc. by apply IH.
Qed.

Lemma positions_bar from s rest : plain s ->
  positions_of "|" from (s +:+ "|" +:+ rest) =
  (from + String.length s)%nat :: positions_of "|" (S (from + String.length s)) rest.
Proof. intros Hs. by rewrite positions_app, positions_plain by done. Qed.

Lemma js_split_plain s : plain s -> js_split "|" s = [s].
Proof.
  induction s as [|c s IH]; [done|]. intros [Hc Hs]%plain_cons. simpl. by rewrite Hc, (IH Hs).
Qed.

Lemma js_split_bar s rest : plain s -> js_split "|" (s +:+ "|" +:+ rest) = s :: js_split "|" rest.
Proof.
  induction s as [|c s IH]; [done|]. intros [Hc Hs]%plain_cons.
  rewrite append_cons. cbn [js_split]. by rewrite Hc, (IH Hs).
Qed.

Lemma regex_bars a b c : plain a -> plain b -> plain c -> a <> ""%string -> b <> ""%string -> c <> ""%string ->
  TokenConnectionRegex (a +:+ "|" +:+ b +:+ "|" +:+ c) = true.
Proof.
  intros Ha Hb Hc Ha0 Hb0 Hc0.
  assert (forall s, s <> ""%string -> 1 <= String.length s)%nat as Hlen by (intros [|? ?]; cbn; [done|lia]).
  pose proof (Hlen a Ha0). pose proof (Hlen b Hb0). pose proof (Hlen c Hc0).
  unfold TokenConnectionRegex.
  assert (positions_of "|" 0 (a +:+ "|" +:+ b +:+ "|" +:+ c) =
    [String.length a; S (String.length a + String.length b)]%nat) as ->.
  { by rewrite !positions_bar, positions_plain by done. }
  assert (String.length (a +:+ "|" +:+ b +:+ "|" +:+ c) =
    String.length a + (1 + (String.length b + (1 + String.length c))))%nat as -> by (by rewrite !length_app_string).
  rewrite !filter_cons_True by lia. cbn [head last filter list_filter].
  apply andb_true_iff. split; [apply Nat.leb_le; lia|].
  assert (forall s, plain s -> string_all (fun c => negb (Ascii.eqb c "010" || Ascii.eqb c "013")) s = true) as Hp.
  { intros s. apply string_all_impl. intros x. rewrite !negb_true_iff, !orb_false_iff. tauto. }
  rewrite !string_all_app, (Hp a), (Hp b), (Hp c) by done. done.
Qed.

(** The identifier of a connection reads back: of a known protocol, and a chain and an address
    without bars and line breaks, both there, [getTokenConnectionId] makes an identifier that
    [parseTokenConnectionId] takes apart into the same three. *)
Theorem connection_id_roundtrip protocol chainName address :
  chainName <> ""%string -> address <> ""%string -> plain chainName -> plain address ->
  exists data, getTokenConnectionId protocol chainName address = Ok data /\
    parseTokenConnectionId data =
      Ok {| ci_protocol := protocol; ci_chainName := chainName; ci_addressOrDenom := address |}.
Proof.
  intros Hc Ha Hpc Hpa. unfold getTokenConnectionId.
  apply String.eqb_neq in Hc as Hc'. apply String.eqb_neq in Ha as Ha'. rewrite Hc', Ha'. cbn [negb andb js_assert].
  eexists. split; [done|]. unfold parseTokenConnectionId.
  assert (plain (protocol_value protocol) /\ protocol_value protocol <> ""%string) as [Hpp Hp]
    by (by destruct protocol).
  rewrite regex_bars by done. cbn [js_assert mbind result_bind].
  rewrite !js_split_bar, js_split_plain by done. by destruct protocol.
Qed.

(** What follows a third bar is lost: the address read is shorter than the one written. *)
Example bar_in_address :
  getTokenConnectionId PCosmos "osmosis" "ibc|1" = Ok "cosmos|osmosis|ibc|1"%string /\
  parseTokenConnectionId "cosmos|osmosis|ibc|1" =
    Ok {| ci_protocol := PCosmos; ci_chainName := "osmosis"; ci_addressOrDenom := "ibc" |}.
Proof. split; vm_compute; reflexivity. Qed.

Lemma connection_id_roundtrip_witness :
  plain "base" /\ exists data, getTokenConnectionId PEthereum "base" "0xa1" = Ok data /\
    parseTokenConnectionId data =
      Ok {| ci_protocol := PEthereum; ci_chainName := "base"; ci_addressOrDenom := "0xa1" |}.
Proof.
  assert (plain "base") as Hb by reflexivity. split; [exact Hb|].
  exact (connection_id_roundtrip PEthereum "base" "0xa1" ltac:(done) ltac:(done) Hb eq_refl).
Defined.
