(* ===== verification/WarpCore.v ===== *)
(** A warp route as its users see it, sdk/src/warp/WarpCore.ts: quotes, the transactions of a
    transfer, the most that can be transferred, and the checks before a transfer. What adapters
    and chains answer is the class [WarpWorld]; what a quote was populated from is kept with
    each transaction. *)
From Stdlib Require Import ZArith QArith Qround Lia String Ascii.
From stdpp Require Import base tactics list strings.
From S2P Require Import Prelude JsMap Addresses Amount Token Messages AddressEq WarpTokens.

#[local] Open Scope Z_scope.

(** ** Data *)

(** [Quote] and [InterchainGasQuote] of ITokenAdapter.ts. *)
Record Quote : Type := { q_amount : Z; q_addressOrDenom : option string }.
Record InterchainGasQuote : Type := { igpQuote : Quote; tokenFeeQuote : option Quote }.

Inductive WarpTxCategory : Type := Approval | Revoke | Transfer.
#[export] Instance WarpTxCategory_eq_dec : EqDecision WarpTxCategory.
Proof. solve_decision. Defined.

(** What an adapter is asked to populate. *)
Inductive TxRequest : Type :=
| ApproveTx (adapter : Adapter) (weiAmountOrId : Z) (recipient : string)
    (interchainGas : option InterchainGasQuote)
| TransferRemoteTx (adapter : Adapter) (weiAmountOrId destination : Z)
    (fromAccountOwner recipient : string) (interchainGas : InterchainGasQuote)
    (customHook attestation : option string)
| TransferRemoteToTx (adapter : Adapter) (amount destination : Z) (recipient targetRouter : string)
    (interchainGas : InterchainGasQuote) (fromAccountOwner : string) (attestation : option string).

(** [WarpTypedTransaction], with its request; the generated key pairs are a flag. *)
Record WarpTx : Type := {
  tx_category : WarpTxCategory; tx_type : option ProviderType; tx_request : TxRequest;
  tx_body : string; tx_extraSigners : bool
}.

Record FeeConstant : Type := {
  fc_origin : string; fc_destination : string; fc_amount : Z; fc_addressOrDenom : option string
}.

Record WarpCore : Type := {
  w_metadata : list (string * ChainMetadata);
  w_tokens : list IToken;
  w_localFeeConstants : list FeeConstant;
  w_interchainFeeConstants : list FeeConstant;
  w_routeBlacklist : list (string * string)
}.

Record InterchainTransferFeeQuote : Type := { i_igpQuote : TokenAmount; i_tokenFeeQuote : option TokenAmount }.
Record WarpCoreFeeEstimate : Type := {
  f_interchainQuote : TokenAmount; f_localQuote : TokenAmount; f_tokenFeeQuote : option TokenAmount
}.

(** bignumber.js: the quotient of an integer by a power of ten. *)
Class BigNumberDiv : Type := { bn_div_pow10 : Z -> Z -> Q }.

(** Validity of addresses, beyond [AddressLibs]: [fromBech32] does not throw; the address of the
    bytes of another one. *)
Class AddressCodecs : Type := {
  is_bech32 : string -> bool;
  convert_address : string -> ProtocolType -> ProtocolType -> option string -> result string
}.

(** What is asked of adapters and of providers. *)
Class WarpWorld (S : Type) : Type := {
  ww_getBalance : Adapter -> string -> eff S Z;
  ww_getBridgedSupply : Adapter -> eff S (option Z);
  ww_getMinimumTransferAmount : Adapter -> string -> eff S Z;
  ww_isApproveRequired : Adapter -> string -> string -> Z -> eff S bool;
  ww_isRevokeApprovalRequired : Adapter -> string -> string -> eff S bool;
  (** destination, sender, hook, recipient, amount *)
  ww_quoteTransferRemoteGas :
    Adapter -> Z -> option string -> option string -> string -> Z -> eff S InterchainGasQuote;
  (** destination, recipient, amount, target router, sender *)
  ww_quoteTransferRemoteToGas :
    Adapter -> Z -> string -> Z -> string -> option string -> eff S InterchainGasQuote;
  ww_getMintLimit : Adapter -> eff S Z;
  ww_getMintMaxLimit : Adapter -> eff S Z;
  ww_getBurnLimit : Adapter -> eff S Z;
  ww_supportsAttestation : Adapter -> eff S bool;
  ww_populate : TxRequest -> eff S string;
  (** chain, transaction, sender, public key *)
  ww_estimateTransactionFee : string -> WarpTx -> string -> option string -> eff S Z;
  ww_feeForGasUnits : string -> Z -> eff S Z
}.

Definition EVM_TRANSFER_REMOTE_GAS_ESTIMATE : Z := 450000.

Definition isDestinationCollateralExemptToken (t : TokenArgs) : bool :=
  bool_decide (t_tokenType t = Some TyCollateralCctp) || bool_decide (t_tokenType t = Some TyCollateralOft).

(** ** amount.ts: amounts between tokens of different decimals *)
Section decimals.
Context `{BigNumberDiv}.

Definition convertDecimals (fromDecimals toDecimals value : Z) : Q :=
  if fromDecimals =? toDecimals then inject_Z value
  else if toDecimals <? fromDecimals then bn_div_pow10 value (fromDecimals - toDecimals)
  else inject_Z (value * 10 ^ (toDecimals - fromDecimals)).

Definition convertDecimalsToIntegerString (fromDecimals toDecimals value : Z) : Z :=
  Qfloor (convertDecimals fromDecimals toDecimals value).

End decimals.

(** ** addresses.ts *)
Section addresses.
Context `{AddressLibs} `{AddressCodecs}.

Definition non_empty (s : string) : bool := negb (String.eqb s "").
Definition isValidAddressEvm (address : string) : bool :=
  non_empty address && is_ok (al_getAddress address).
Definition isValidAddressSealevel (address : string) : bool :=
  non_empty address && match al_publicKey address with Ok a => non_empty a | Throw _ => false end.
Definition isValidAddressCosmos (address : string) : bool :=
  non_empty address &&
  (isCosmosIbcDenomAddress address || is_cosmos_factory_token address || is_bech32 address).
Definition isValidAddressTron (address : string) : bool :=
  non_empty address && (isAddressTron address || isValidAddressEvm address).

Definition valid_for (protocol : ProtocolType) : option (string -> bool) :=
  match protocol with
  | PEthereum => Some isValidAddressEvm
  | PSealevel => Some isValidAddressSealevel
  | PCosmos | PCosmosNative => Some isValidAddressCosmos
  | PStarknet => Some (fun a => non_empty a && isAddressStarknet a)
  | PRadix => Some (fun a => non_empty a && isAddressRadix a)
  | PAleo => Some (fun a => non_empty a && isAddressAleo a)
  | PTron => Some isValidAddressTron
  | PUnknown => None
  end.
Definition isValidAddress (address : string) (protocol : option ProtocolType) : bool :=
  routeAddressUtil valid_for address false protocol.

Definition convertToProtocolAddress (address : string) (protocol : ProtocolType) (prefix : option string)
    : result string :=
  match getAddressProtocolType address with
  | None => Throw (Error ("Unknown address protocol for " +:+ address))
  | Some current =>
      if bool_decide (current = protocol) then Ok address
      else convert_address address current protocol prefix
  end.

End addresses.

(** ** Tokens of a route *)
Section tokens.
Context `{AddressLibs} (warp : WarpCore).

Definition findToken (chainName : string) (addressOrDenom : option string) : result (option IToken) :=
  match given addressOrDenom with
  | None => Ok None
  | Some address =>
      match filter (fun t => t_chainName (args t) = chainName /\
                tokenIdentifiersEqual (Some (t_addressOrDenom (args t))) (Some address) = true)
              (w_tokens warp) with
      | [t] => Ok (Some t)
      | _ :: _ :: _ => Throw (Error ("Ambiguous token search results for " +:+ address))
      | [] =>
          m ← getChainMetadata (w_metadata warp) (ByName chainName);
          match cm_nativeToken m ≫= nt_denom with
          | Some denom =>
              if String.eqb denom address then Some <$> FromChainMetadataNativeToken m else Ok None
          | None => Ok None
          end
      end
  end.

Definition getTokenChains : list string := set_of ((fun t => t_chainName (args t)) <$> w_tokens warp).
Definition getTokensForChain (chainName : string) : list IToken :=
  filter (fun t => t_chainName (args t) = chainName) (w_tokens warp).
Definition getTokensForRoute (origin destination : string) : list IToken :=
  filter (fun t => t_chainName (args t) = origin /\ is_Some (getConnectionForChain t destination))
    (w_tokens warp).

Definition isCrossCollateralTransfer (originToken : IToken) (destinationToken : option TokenArgs) : bool :=
  match destinationToken with
  | None => false
  | Some t => isCrossCollateralToken (args originToken) && isCrossCollateralToken t
  end.

End tokens.

(** ** [FromConfig] *)

(** A token of a configuration and its connections, in text. *)
Record ConnectionConfig : Type := { cc_kind : option TokenConnectionType; cc_token : string }.

Section config.
Context `{AddressLibs}.

Definition connected_token (tokens : list IToken) (token1 : TokenArgs) (id : TokenConnectionId)
    : result TokenArgs :=
  match List.find (fun t =>
          String.eqb (t_chainName (args t)) (ci_chainName id) &&
          tokenIdentifiersEqual (Some (t_addressOrDenom (args t))) (Some (ci_addressOrDenom id)) &&
          match given (t_warpRouteId token1) with
          | None => true
          | Some route => bool_decide (t_warpRouteId (args t) = Some route)
          end) tokens with
  | Some t => Ok (args t)
  | None => Throw (Error "Connected token not found")
  end.

(** The connections of one token, added one after the other. *)
Fixpoint connect (tokens : list IToken) (token1 : IToken) (configs : list ConnectionConfig) : result IToken :=
  match configs with
  | [] => Ok token1
  | c :: rest =>
      id ← parseTokenConnectionId (cc_token c);
      token2 ← connected_token tokens (args token1) id;
      connect tokens (addConnection token1 {| c_type := cc_kind c; c_token := token2 |}) rest
  end.

Definition FromConfig (metadata : list (string * ChainMetadata))
    (config : list (TokenArgs * list ConnectionConfig)) (localFees interchainFees : list FeeConstant)
    (blacklist : list (string * string)) : result WarpCore :=
  let tokens := (fun c => {| args := fst c; connections := [] |}) <$> config in
  connected ← mapM (fun c => connect tokens {| args := fst c; connections := [] |} (snd c)) config;
  Ok {| w_metadata := metadata; w_tokens := connected; w_localFeeConstants := localFees;
        w_interchainFeeConstants := interchainFees; w_routeBlacklist := blacklist |}.

End config.

(** ** Quotes and transactions *)

Section core.
Context {S : Type} `{AddressLibs} `{AddressCodecs} `{BigNumberDiv} `{WarpWorld S}.

(** An offchain-quoting provider; its own transactions are not looked into. *)
Record QuotedTransferProvider : Type := {
  qt_protocol : ProtocolType;
  qt_buildQuotedTransferTxs :
    TokenAmount -> ChainNameOrId -> string -> string -> option TokenArgs -> eff S (list WarpTx)
}.

Context (warp : WarpCore).
#[local] Notation metadata := (w_metadata warp).

Definition chainName_of (chain : ChainNameOrId) : result string := cm_name <$> getChainMetadata metadata chain.

Definition is_native_address (o : option string) : bool :=
  match given o with None => true | Some a => isZeroishAddress a end.

Definition fee_constant (constants : list FeeConstant) (origin destination : string) : option FeeConstant :=
  List.find (fun q => String.eqb (fc_origin q) origin && String.eqb (fc_destination q) destination) constants.

(** The quote of the adapter of the route. *)
Definition adapter_quote (originToken : IToken) (amount : Z) (destination : ChainNameOrId)
    (destinationName : string) (sender : option string) (recipient : string)
    (destinationToken : option TokenArgs) : eff S InterchainGasQuote :=
  destinationDomainId ← lift (getDomainId metadata destination);
  if isCrossCollateralTransfer originToken destinationToken then
    resolved ← lift (resolveDestinationToken metadata originToken destination destinationToken);
    _ ← lift (js_assert (non_empty (t_addressOrDenom resolved)) "Destination token missing addressOrDenom");
    adapter ← lift (getHypAdapter metadata originToken (Some destinationName));
    _ ← lift (js_assert (isHypCrossCollateralAdapter adapter)
                "Adapter does not implement IHypCrossCollateralAdapter");
    ww_quoteTransferRemoteToGas adapter destinationDomainId recipient amount (t_addressOrDenom resolved) sender
  else
    adapter ← lift (getHypAdapter metadata originToken (Some destinationName));
    ww_quoteTransferRemoteGas adapter destinationDomainId sender
      (t_igpTokenAddressOrDenom (args originToken)) recipient amount.

Definition native_token_of (chainName : string) : result IToken :=
  m ← getChainMetadata metadata (ByName chainName); FromChainMetadataNativeToken m.

(** The token that the gas of an interchain transfer is paid in. *)
Definition igp_token (originName : string) (gasAddressOrDenom : option string) : result IToken :=
  if is_native_address gasAddressOrDenom then native_token_of originName
  else
    found ← findToken warp originName gasAddressOrDenom;
    match found with
    | Some t => Ok t
    | None => Throw (Error "Fee token is unknown")
    end.

(** The fee of a token route, in the native token or in the token of the route. *)
Definition token_fee (originToken : IToken) (fee : option Quote) : result (option TokenAmount) :=
  match fee with
  | None => Ok None
  | Some q =>
      if q_amount q =? 0 then Ok None
      else if is_native_address (q_addressOrDenom q) then
        native ← native_token_of (t_chainName (args originToken));
        Ok (Some {| amount := q_amount q; token := native |})
      else Ok (Some {| amount := q_amount q; token := originToken |})
  end.

Definition getInterchainTransferFee (originTokenAmount : TokenAmount) (destination : ChainNameOrId)
    (sender : option string) (recipient : string) (destinationToken : option TokenArgs)
    : eff S InterchainTransferFeeQuote :=
  let originToken := token originTokenAmount in
  let originName := t_chainName (args originToken) in
  destinationName ← lift (chainName_of destination);
  '(gas, fee) ←
    match fee_constant (w_interchainFeeConstants warp) originName destinationName with
    | Some q => mret ({| q_amount := fc_amount q; q_addressOrDenom := fc_addressOrDenom q |}, None)
    | None =>
        quote ← adapter_quote originToken (amount originTokenAmount) destination destinationName sender
                  recipient destinationToken;
        mret (igpQuote quote, tokenFeeQuote quote)
    end;
  igpToken ← lift (igp_token originName (q_addressOrDenom gas));
  feeTokenAmount ← lift (token_fee originToken fee);
  mret {| i_igpQuote := {| amount := q_amount gas; token := igpToken |}; i_tokenFeeQuote := feeTokenAmount |}.

Definition quote_of (a : TokenAmount) : Quote :=
  {| q_amount := amount a; q_addressOrDenom := Some (t_addressOrDenom (args (token a))) |}.

Definition populate (category : WarpTxCategory) (providerType : option ProviderType) (request : TxRequest)
    (extraSigners : bool) : eff S WarpTx :=
  body ← ww_populate request;
  mret {| tx_category := category; tx_type := providerType; tx_request := request; tx_body := body;
          tx_extraSigners := extraSigners |}.

(** [Promise.all] of two calls: the second runs although the first fails. *)
Definition both {A B} (m : eff S A) (n : eff S B) : eff S (A * B) :=
  a ← settled m; b ← settled n; a ← lift a; b ← lift b; mret (a, b).

Definition isApproveRequired (originTokenAmount : TokenAmount) (owner : string) : eff S bool :=
  adapter ← lift (getAdapter metadata (token originTokenAmount));
  ww_isApproveRequired adapter owner (t_addressOrDenom (args (token originTokenAmount)))
    (amount originTokenAmount).

(** The approvals before a transfer: the allowance is reset if it has to be. *)
Definition approvals (isApproveRequired isRevokeApprovalRequired : bool) (amountToApprove : Z)
    : list (Z * WarpTxCategory) :=
  (if isApproveRequired && isRevokeApprovalRequired then [(0, Revoke)] else []) ++
  (if isApproveRequired then [(amountToApprove, Approval)] else []).

(** The approval of the fee token of Starknet. *)
Definition starknet_fee_approval (t : IToken) (providerType : option ProviderType)
    (interchainFee : TokenAmount) (sender : string) : eff S (list WarpTx) :=
  if bool_decide (t_protocol (args (token interchainFee)) = PStarknet) then
    adapter ← lift (getAdapter metadata (token interchainFee));
    isRequired ← ww_isApproveRequired adapter sender (t_addressOrDenom (args t)) (amount interchainFee);
    if (isRequired : bool) then
      tx ← populate Approval providerType
             (ApproveTx adapter (amount interchainFee) (t_addressOrDenom (args t)) None) false;
      mret [tx]
    else mret []
  else mret [].

(** The fees of a transfer: those given, or a new quote if no interchain fee is. *)
Definition fees_or_quote (originTokenAmount : TokenAmount) (destination : ChainNameOrId)
    (sender recipient : string) (destinationToken : option TokenArgs)
    (interchainFee tokenFee : option TokenAmount) : eff S (TokenAmount * option TokenAmount) :=
  match interchainFee with
  | Some fee => mret (fee, tokenFee)
  | None =>
      fee ← getInterchainTransferFee originTokenAmount destination (Some sender) recipient destinationToken;
      mret (i_igpQuote fee, i_tokenFeeQuote fee)
  end.

Definition fee_amount (fee : option TokenAmount) : Z := default 0 (amount <$> fee).

Definition standard_transfer_txs (originTokenAmount : TokenAmount) (destination : ChainNameOrId)
    (sender recipient : string) (interchainFee tokenFee : option TokenAmount)
    (attestation : option string) (destinationToken : option TokenArgs) : eff S (list WarpTx) :=
  let t := token originTokenAmount in
  let address := t_addressOrDenom (args t) in
  let providerType := TOKEN_STANDARD_TO_PROVIDER_TYPE (t_standard (args t)) in
  destinationName ← lift (chainName_of destination);
  destinationDomainId ← lift (getDomainId metadata destination);
  hypAdapter ← lift (getHypAdapter metadata t (Some destinationName));
  '(interchainFee, tokenFee) ←
    fees_or_quote originTokenAmount destination sender recipient destinationToken interchainFee tokenFee;
  let interchainGas :=
    {| igpQuote := quote_of interchainFee; tokenFeeQuote := quote_of <$> tokenFee |} in
  let feeQuote := fee_amount tokenFee in
  '(isApproveRequired, isRevokeApprovalRequired) ←
    both (isApproveRequired (plus originTokenAmount feeQuote) sender)
         (ww_isRevokeApprovalRequired hypAdapter sender address);
  preTransferRemoteTxs ← mapM (fun '(approveAmount, category) =>
    populate category providerType (ApproveTx hypAdapter approveAmount address (Some interchainGas)) false)
    (approvals isApproveRequired isRevokeApprovalRequired (amount originTokenAmount + feeQuote));
  feeTxs ← starknet_fee_approval t providerType interchainFee sender;
  let extraSigners := bool_decide (providerType = Some SolanaWeb3) in
  _ ← lift (js_assert (bool_decide (attestation = None) || isPredicateCapableAdapter hypAdapter)
              "Attestation provided but adapter does not support predicate transfers");
  transferTx ← populate Transfer providerType
    (TransferRemoteTx hypAdapter (amount originTokenAmount) destinationDomainId sender recipient
       interchainGas (t_igpTokenAddressOrDenom (args t)) attestation) extraSigners;
  mret (preTransferRemoteTxs ++ feeTxs ++ [transferTx]).

Definition getCrossCollateralTransferTxs (originTokenAmount : TokenAmount) (destination : ChainNameOrId)
    (sender recipient : string) (destinationToken : TokenArgs) (attestation : option string)
    (interchainFee tokenFee : option TokenAmount) : eff S (list WarpTx) :=
  let originToken := token originTokenAmount in
  let address := t_addressOrDenom (args originToken) in
  destinationName ← lift (chainName_of destination);
  resolved ← lift (resolveDestinationToken metadata originToken destination (Some destinationToken));
  _ ← lift (js_assert (bool_decide (is_Some (given (t_collateralAddressOrDenom (args originToken)))))
              "Origin token missing collateralAddressOrDenom");
  _ ← lift (js_assert (non_empty (t_addressOrDenom resolved)) "Destination token missing addressOrDenom");
  let providerType := TOKEN_STANDARD_TO_PROVIDER_TYPE (t_standard (args originToken)) in
  adapter ← lift (getHypAdapter metadata originToken (Some destinationName));
  _ ← lift (js_assert (isHypCrossCollateralAdapter adapter)
              "Adapter does not implement IHypCrossCollateralAdapter");
  transferQuote ←
    match interchainFee with
    | Some fee => mret {| igpQuote := quote_of fee; tokenFeeQuote := quote_of <$> tokenFee |}
    | None =>
        domain ← lift (getDomainId metadata destination);
        ww_quoteTransferRemoteToGas adapter domain recipient (amount originTokenAmount)
          (t_addressOrDenom resolved) (Some sender)
    end;
  _ ← lift (js_assert (is_native_address (q_addressOrDenom (igpQuote transferQuote)) ||
                       bool_decide (q_addressOrDenom (igpQuote transferQuote) = Some "lamport"%string))
              "CrossCollateralRouter transferRemoteTo requires native IGP fee");
  let totalDebit := amount originTokenAmount + default 0 (q_amount <$> tokenFeeQuote transferQuote) in
  '(isApproveRequired, isRevokeApprovalRequired) ←
    both (ww_isApproveRequired adapter sender address totalDebit)
         (ww_isRevokeApprovalRequired adapter sender address);
  preTransferTxs ← mapM (fun '(approveAmount, category) =>
    populate category providerType (ApproveTx adapter approveAmount address None) false)
    (approvals isApproveRequired isRevokeApprovalRequired totalDebit);
  destinationDomainId ← lift (getDomainId metadata destination);
  originDomainId ← lift (getDomainId metadata (ByName (t_chainName (args originToken))));
  let extraSigners :=
    bool_decide (providerType = Some SolanaWeb3) && negb (destinationDomainId =? originDomainId) in
  transferTx ← populate Transfer providerType
    (TransferRemoteToTx adapter (amount originTokenAmount) destinationDomainId recipient
       (t_addressOrDenom resolved) transferQuote sender attestation) extraSigners;
  mret (preTransferTxs ++ [transferTx]).

Definition getTransferRemoteTxs (originTokenAmount : TokenAmount) (destination : ChainNameOrId)
    (sender recipient : string) (interchainFee tokenFee : option TokenAmount)
    (attestation : option string) (destinationToken : option TokenArgs)
    (quotedTransfer : option QuotedTransferProvider) : eff S (list WarpTx) :=
  _ ← lift (js_assert (bool_decide (quotedTransfer = None) || bool_decide (attestation = None))
              "quoted transfer and attestation cannot be used together");
  match quotedTransfer, destinationToken with
  | Some provider, _ =>
      let tokenProtocol := t_protocol (args (token originTokenAmount)) in
      _ ← lift (js_assert (bool_decide (qt_protocol provider = tokenProtocol) ||
                           isEVMLike (qt_protocol provider) && isEVMLike tokenProtocol)
                  "Quoted-transfer provider protocol does not match origin token protocol");
      qt_buildQuotedTransferTxs provider originTokenAmount destination sender recipient destinationToken
  | None, Some to =>
      if isCrossCollateralTransfer (token originTokenAmount) destinationToken then
        getCrossCollateralTransferTxs originTokenAmount destination sender recipient to attestation
          interchainFee tokenFee
      else standard_transfer_txs originTokenAmount destination sender recipient interchainFee tokenFee
             attestation destinationToken
  | None, None =>
      standard_transfer_txs originTokenAmount destination sender recipient interchainFee tokenFee
        attestation destinationToken
  end.

(** ** Local fees *)

(** The amount a transfer is simulated with, if none is given: one unit at the destination. *)
Definition estimation_amount (originToken : IToken) (destinationName : string) (given_amount : option Z) : Z :=
  match given_amount with
  | Some a => a
  | None =>
      match getConnectionForChain originToken destinationName with
      | Some c => 10 ^ Z.max 0 (t_decimals (args originToken) - t_decimals (c_token c))
      | None => 10 ^ 0
      end
  end.

(** The fee only, of the estimate. *)
Definition getLocalTransferFee (originToken : IToken) (destination : ChainNameOrId) (sender : string)
    (senderPubKey : option string) (interchainFee tokenFee : option TokenAmount)
    (attestation : option string) (given_amount : option Z) (destinationToken : option TokenArgs)
    : eff S Z :=
  originMetadata ← lift (getChainMetadata metadata (ByName (t_chainName (args originToken))));
  destinationMetadata ← lift (getChainMetadata metadata destination);
  match fee_constant (w_localFeeConstants warp) (cm_name originMetadata) (cm_name destinationMetadata) with
  | Some q => mret (fc_amount q)
  | None =>
      recipient ← lift (convertToProtocolAddress sender (cm_protocol destinationMetadata)
                          (cm_bech32Prefix destinationMetadata));
      txs ← getTransferRemoteTxs
        {| amount := estimation_amount originToken (cm_name destinationMetadata) given_amount;
           token := originToken |}
        destination sender recipient interchainFee tokenFee attestation destinationToken None;
      if bool_decide (t_protocol (args originToken) = PStarknet) then mret 0
      else if cm_seismic originMetadata then
        ww_feeForGasUnits (cm_name originMetadata) EVM_TRANSFER_REMOTE_GAS_ESTIMATE
      else
        match txs with
        | [tx] =>
            try_catch (ww_estimateTransactionFee (cm_name originMetadata) tx sender senderPubKey)
              (fun _ => throw (Error "Gas estimation failed, balance may be insufficient"))
        | _ :: _ :: _ =>
            if isEVMLike (t_protocol (args originToken))
            then ww_feeForGasUnits (cm_name originMetadata) EVM_TRANSFER_REMOTE_GAS_ESTIMATE
            else throw (Error "Cannot estimate local gas for multiple transactions")
        | [] => throw (Error "Cannot estimate local gas for multiple transactions")
        end
  end.

Definition getLocalTransferFeeAmount (originToken : IToken) (destination : ChainNameOrId) (sender : string)
    (senderPubKey : option string) (interchainFee tokenFee : option TokenAmount)
    (attestation : option string) (given_amount : option Z) (destinationToken : option TokenArgs)
    : eff S TokenAmount :=
  originMetadata ← lift (getChainMetadata metadata (ByName (t_chainName (args originToken))));
  _ ← lift (js_assert (bool_decide (is_Some (cm_nativeToken originMetadata)))
              ("No native token found for " +:+ cm_name originMetadata));
  fee ← getLocalTransferFee originToken destination sender senderPubKey interchainFee tokenFee
          attestation given_amount destinationToken;
  localGasToken ← lift (FromChainMetadataNativeToken originMetadata);
  mret {| amount := fee; token := localGasToken |}.

Definition estimateTransferRemoteFees (originTokenAmount : TokenAmount) (destination : ChainNameOrId)
    (recipient sender : string) (senderPubKey attestation : option string)
    (destinationToken : option TokenArgs) : eff S WarpCoreFeeEstimate :=
  let originToken := token originTokenAmount in
  (* the fees of a cross collateral transfer are those of its resolved destination *)
  resolved ←
    (if isCrossCollateralTransfer originToken destinationToken
     then t ← lift (resolveDestinationToken metadata originToken destination destinationToken); mret (Some t)
     else mret None);
  fee ← getInterchainTransferFee originTokenAmount destination (Some sender) recipient resolved;
  localQuote ← getLocalTransferFeeAmount originToken destination sender senderPubKey
    (Some (i_igpQuote fee)) (i_tokenFeeQuote fee) attestation
    (_ ← attestation; Some (amount originTokenAmount)) resolved;
  mret {| f_interchainQuote := i_igpQuote fee; f_localQuote := localQuote;
          f_tokenFeeQuote := i_tokenFeeQuote fee |}.

(** ** The most that can be transferred *)

(** [maxAmount.minus(..)], if the fee is paid in the token of the balance. *)
Definition less_fee (balance : TokenAmount) (fee : TokenAmount) : TokenAmount :=
  if isFungibleWith (args (token balance)) (args (token fee)) then minus balance (amount fee) else balance.

Definition getMaxTransferAmount (balance : TokenAmount) (destination : ChainNameOrId)
    (recipient sender : string) (senderPubKey : option string)
    (feeEstimate : option WarpCoreFeeEstimate) (destinationToken : option TokenArgs) : eff S TokenAmount :=
  let originToken := token balance in
  fees ←
    match feeEstimate with
    | Some fees => mret fees
    | None =>
        fee ← getInterchainTransferFee balance destination (Some sender) recipient destinationToken;
        localQuote ← getLocalTransferFeeAmount originToken destination sender senderPubKey
          (Some (i_igpQuote fee)) (i_tokenFeeQuote fee) None None destinationToken;
        mret {| f_interchainQuote := i_igpQuote fee; f_localQuote := localQuote;
                f_tokenFeeQuote := i_tokenFeeQuote fee |}
    end;
  let maxAmount := less_fee (less_fee balance (f_localQuote fees)) (f_interchainQuote fees) in
  maxAmount ←
    match f_tokenFeeQuote fees with
    | Some fee =>
        if isFungibleWith (args originToken) (args (token fee)) then
          newFee ← getInterchainTransferFee maxAmount destination (Some sender) recipient destinationToken;
          mret (minus maxAmount (fee_amount (i_tokenFeeQuote newFee)))
        else mret maxAmount
    | None => mret maxAmount
    end;
  if 0 <? amount maxAmount then mret maxAmount else mret {| amount := 0; token := originToken |}.

(** ** Collateral *)

(** A destination token, of which the connections are not looked at. *)
Definition unconnected (t : TokenArgs) : IToken := {| args := t; connections := [] |}.

Definition getTokenCollateral (t : TokenArgs) : eff S Z :=
  if among LOCKBOX_STANDARDS t || among ERC4626_COLLATERAL_STANDARDS t then
    adapter ← lift (getHypAdapter metadata (unconnected t) None);
    supply ← ww_getBridgedSupply adapter;
    match supply with
    | Some n => mret n
    | None => throw (Error "getBridgedSupply returned undefined")
    end
  else
    adapter ← lift (getAdapter metadata (unconnected t));
    ww_getBalance adapter (t_addressOrDenom t).

(** Whether [available], of the destination token, covers [amount] of the origin token: without
    scales, decimals are converted; with them, both are compared as amounts of a message. *)
Definition covers (originToken destinationToken : TokenArgs) (amount available : Z) : result bool :=
  if negb (t_decimals originToken =? t_decimals destinationToken) &&
     bool_decide (t_scale originToken = None) && bool_decide (t_scale destinationToken = None) then
    Ok (amount <=? convertDecimalsToIntegerString (t_decimals destinationToken) (t_decimals originToken) available)
  else
    required ← messageAmountFromLocal amount (t_scale originToken);
    offered ← messageAmountFromLocal available (t_scale destinationToken);
    Ok (required <=? offered).

Definition isDestinationCollateralSufficient (originTokenAmount : TokenAmount) (destination : ChainNameOrId)
    (destinationToken : option TokenArgs) : eff S bool :=
  let originToken := token originTokenAmount in
  resolved ← lift (resolveDestinationToken metadata originToken destination destinationToken);
  if isDestinationCollateralExemptToken resolved then mret true
  else if negb (isCollateralizedToken resolved) then mret true
  else
    destinationBalance ← getTokenCollateral resolved;
    lift (covers (args originToken) resolved (amount originTokenAmount) destinationBalance).

(** ** Checks before a transfer: nothing, or what is wrong and why *)

Definition problem : Type := option (string * string).
#[local] Notation fine := (None : problem).

Definition validateChains (origin destination : ChainNameOrId) : problem :=
  let missing c := match c with ByName n => String.eqb n "" | ById n => n =? 0 end in
  if missing origin then Some ("origin", "Origin chain required")%string
  else if missing destination then Some ("destination", "Destination chain required")%string
  else
    match tryGetChainMetadata metadata origin, tryGetChainMetadata metadata destination with
    | None, _ => Some ("origin", "Origin chain metadata missing")%string
    | _, None => Some ("destination", "Destination chain metadata missing")%string
    | Some o, Some d =>
        if bool_decide ((cm_name o, cm_name d) ∈ w_routeBlacklist warp)
        then Some ("destination", "Route is not currently allowed")%string
        else fine
    end.

Definition validateRecipient (recipient : string) (destination : ChainNameOrId) : result problem :=
  m ← getChainMetadata metadata destination;
  if negb (isValidAddress recipient (Some (cm_protocol m))) || isZeroishAddress recipient
  then Ok (Some ("recipient", "Invalid recipient")%string)
  else if bool_decide (cm_protocol m = PCosmos) || bool_decide (cm_protocol m = PCosmosNative) then
    match given (cm_bech32Prefix m) with
    | None => Ok (Some ("destination", "Invalid chain data")%string)
    | Some prefix =>
        if String.prefix prefix recipient then Ok fine
        else Ok (Some ("recipient", "Invalid recipient prefix")%string)
    end
  else Ok fine.

Definition validateAmount (originTokenAmount : TokenAmount) (destination : ChainNameOrId)
    (recipient : string) (destinationToken : option TokenArgs) : eff S problem :=
  let originToken := token originTokenAmount in
  if amount originTokenAmount <=? 0 then
    mret (Some ("amount", if isNft (args originToken) then "Invalid Token Id" else "Invalid amount")%string)
  else
    resolved ← lift (resolveDestinationToken metadata originToken destination destinationToken);
    adapter ← lift (getAdapter metadata (unconnected resolved));
    minDestinationTransferAmount ← ww_getMinimumTransferAmount adapter recipient;
    let minOriginTransferAmount :=
      convertDecimalsToIntegerString (t_decimals resolved) (t_decimals (args originToken))
        minDestinationTransferAmount in
    if amount originTokenAmount <? minOriginTransferAmount
    then mret (Some ("amount", "Below the minimum transfer amount")%string)
    else mret fine.

(** The most that the destination mints at once. *)
Definition mint_limit (resolved : TokenArgs) : eff S Z :=
  if isXerc20 resolved then
    adapter ← lift (getAdapter metadata (unconnected resolved));
    limit ← ww_getMintLimit adapter;
    if among [EvmHypVSXERC20; EvmHypVSXERC20Lockbox; TronHypVSXERC20; TronHypVSXERC20Lockbox] resolved then
      bufferCap ← ww_getMintMaxLimit adapter;
      mret (Z.min limit (Z.quot bufferCap 2))
    else mret limit
  else if among [EvmHypCollateralFiat; TronHypCollateralFiat] resolved then
    adapter ← lift (getAdapter metadata (unconnected resolved));
    ww_getMintLimit adapter
  else mret 0.

Definition validateDestinationRateLimit (originTokenAmount : TokenAmount) (destination : ChainNameOrId)
    (destinationToken : option TokenArgs) : eff S problem :=
  let originToken := token originTokenAmount in
  resolved ← lift (resolveDestinationToken metadata originToken destination destinationToken);
  if negb (among MINT_LIMITED_STANDARDS resolved) then mret fine
  else
    limit ← mint_limit resolved;
    isSufficient ← lift (covers (args originToken) resolved (amount originTokenAmount) limit);
    mret (if (isSufficient : bool) then fine else Some ("amount", "Rate limit exceeded on destination")%string).

Definition validateDestinationCollateral (originTokenAmount : TokenAmount) (destination : ChainNameOrId)
    (destinationToken : option TokenArgs) : eff S problem :=
  valid ← isDestinationCollateralSufficient originTokenAmount destination destinationToken;
  mret (if (valid : bool) then fine else Some ("amount", "Insufficient collateral on destination")%string).

(** The fee of a transfer, if it is known already. *)
Definition interchain_fee (fee : option InterchainTransferFeeQuote) (originTokenAmount : TokenAmount)
    (destination : ChainNameOrId) (sender : option string) (recipient : string)
    (destinationToken : option TokenArgs) : eff S InterchainTransferFeeQuote :=
  match fee with
  | Some fee => mret fee
  | None => getInterchainTransferFee originTokenAmount destination sender recipient destinationToken
  end.

Definition validateOriginCollateral (originTokenAmount : TokenAmount) (destination : ChainNameOrId)
    (recipient : string) (sender : option string) (destinationToken : option TokenArgs)
    (interchainFee : option InterchainTransferFeeQuote) : eff S problem :=
  let originToken := token originTokenAmount in
  adapter ← lift (getAdapter metadata originToken);
  if isXerc20 (args originToken) then
    fee ← interchain_fee interchainFee originTokenAmount destination sender recipient destinationToken;
    let originTokenFee :=
      match i_tokenFeeQuote fee with
      | Some fee => if isFungibleWith (args originToken) (args (token fee)) then amount fee else 0
      | None => 0
      end in
    burnLimit ← ww_getBurnLimit adapter;
    mret (if burnLimit <? amount originTokenAmount + originTokenFee
          then Some ("amount", "Insufficient burn limit on origin")%string else fine)
  else mret fine.

Definition getBalance (t : IToken) (address : string) : eff S TokenAmount :=
  adapter ← lift (getAdapter metadata t);
  balance ← ww_getBalance adapter address;
  mret {| amount := balance; token := t |}.

Definition validateTokenBalances (originTokenAmount : TokenAmount) (destination : ChainNameOrId)
    (sender recipient : string) (senderPubKey attestation : option string)
    (destinationToken : option TokenArgs) (interchainFee : option InterchainTransferFeeQuote)
    : eff S problem :=
  let originToken := token originTokenAmount in
  senderBalance ← getBalance originToken sender;
  if amount senderBalance <? amount originTokenAmount
  then mret (Some ("amount", "Insufficient balance")%string)
  else
    fee ← interchain_fee interchainFee originTokenAmount destination (Some sender) recipient destinationToken;
    let interchainQuote := i_igpQuote fee in
    interchainQuoteTokenBalance ←
      (if isFungibleWith (args originToken) (args (token interchainQuote)) then mret senderBalance
       else getBalance (token interchainQuote) sender);
    if amount interchainQuoteTokenBalance <? amount interchainQuote
    then mret (Some ("amount", "Insufficient funds for interchain gas")%string)
    else if negb (fee_amount (i_tokenFeeQuote fee) =? 0) &&
            (amount senderBalance <? amount originTokenAmount + fee_amount (i_tokenFeeQuote fee))
    then mret (Some ("amount", "Insufficient balance to cover token fee")%string)
    else
      localQuote ← getLocalTransferFeeAmount originToken destination sender senderPubKey
        (Some interchainQuote) (i_tokenFeeQuote fee) attestation (Some (amount originTokenAmount))
        destinationToken;
      maxTransfer ← getMaxTransferAmount senderBalance destination recipient sender senderPubKey
        (Some {| f_interchainQuote := interchainQuote; f_localQuote := localQuote; f_tokenFeeQuote := None |})
        destinationToken;
      mret (if amount maxTransfer <? amount originTokenAmount
            then Some ("amount", "Insufficient balance for gas and transfer")%string else fine).

(** The first check that fails ends it. *)
Definition and_then (check : eff S problem) (rest : eff S problem) : eff S problem :=
  p ← check;
  match p with Some _ => mret p | None => rest end.

Definition validateTransfer (originTokenAmount : TokenAmount) (destination : ChainNameOrId)
    (recipient sender : string) (senderPubKey attestation : option string)
    (destinationToken : option TokenArgs) : eff S problem :=
  let originToken := token originTokenAmount in
  and_then (mret (validateChains (ByName (t_chainName (args originToken))) destination))
  (and_then (lift (validateRecipient recipient destination))
  match resolveDestinationToken metadata originToken destination destinationToken with
  | Throw (Error message | TypeError message | RangeError message | SyntaxError message) =>
      mret (Some ("destinationToken"%string, message))
  | Ok resolved =>
      and_then (validateAmount originTokenAmount destination recipient (Some resolved))
      (and_then (validateDestinationRateLimit originTokenAmount destination (Some resolved))
      (and_then (validateDestinationCollateral originTokenAmount destination (Some resolved))
      (fee ← getInterchainTransferFee originTokenAmount destination (Some sender) recipient (Some resolved);
       and_then (validateOriginCollateral originTokenAmount destination recipient (Some sender)
                   (Some resolved) (Some fee))
                (validateTokenBalances originTokenAmount destination sender recipient senderPubKey
                   attestation (Some resolved) (Some fee)))))
  end).

Definition isPredicateSupported (t : IToken) (destination : option string) : eff S bool :=
  adapter ← lift (getHypAdapter metadata t destination);
  if isPredicateCapableAdapter adapter then ww_supportsAttestation adapter else mret false.

End core.
