(* ===== verification/WarpCoreFacts.v ===== *)
(** What WarpCore promises: the connections of a configured route, the transactions of a transfer
    and what they approve, when a destination can pay, the most that can be transferred, and what
    holds of a transfer that passes every check. What an adapter or a chain was asked is part of
    each statement: [answers m a] says that the program [m] returned [a]. *)
From Stdlib Require Import ZArith QArith Qround Lia String Ascii.
From stdpp Require Import base tactics list strings sets.
From S2P Require Import Prelude JsMap Addresses Amount Token Messages AddressEq WarpTokens.
From S2P Require Import WarpTokensFacts.
From S2P Require Import WarpCore.

#[local] Open Scope Z_scope.

(** ** What a program returned *)

Definition answers {S A} (m : eff S A) (a : A) : Prop := exists s s', m s = (s', Ok a).

Lemma answers_bind {S A B} (m : eff S A) (f : A -> eff S B) b :
  answers (m ≫= f) b -> exists a, answers m a /\ answers (f a) b.
Proof.
  intros (s & s'' & (s' & a & Hm & Hf)%eff_bind_inv).
  exists a. split; [by exists s, s'|by exists s', s''].
Qed.

Lemma answers_ret {S A} (a b : A) : answers (mret a : eff S A) b -> a = b.
Proof. by intros (s & s' & [= _ E]). Qed.

Lemma answers_lift {S A} (r : result A) a : answers (lift r : eff S A) a -> r = Ok a.
Proof. by intros (s & s' & [= _ E]). Qed.

Lemma answers_assert {S} cond msg u : answers (lift (js_assert cond msg) : eff S unit) u -> cond = true.
Proof. destruct u. by intros H%answers_lift%js_assert_ok. Qed.

Lemma answers_settled {S A} (m : eff S A) r a : answers (settled m) r -> r = Ok a -> answers m a.
Proof.
  intros (s & s' & E) ->. exists s, (m s).1. unfold settled in E. injection E as _ E.
  rewrite <- E. by destruct (m s).
Qed.

Lemma answers_both {S A B} (m : eff S A) (n : eff S B) a b :
  answers (both m n) (a, b) -> answers m a /\ answers n b.
Proof.
  intros (ra & Ha & (rb & Hb & (a' & Ea%answers_lift & (b' & Eb%answers_lift & E%answers_ret)
    %answers_bind)%answers_bind)%answers_bind)%answers_bind.
  injection E as -> ->. split; by eapply answers_settled.
Qed.

(** Names the next answer of a program. *)
Tactic Notation "next" hyp(H) simple_intropattern(a) ident(Ha) := apply answers_bind in H as (a & Ha & H).
Tactic Notation "next_value" hyp(H) simple_intropattern(a) ident(Ha) := next H a Ha; apply answers_lift in Ha.

(** ** [FromConfig] *)
Section config.
Context `{AddressLibs}.

(** The token a connection of the configuration names. *)
Definition names (token1 : TokenArgs) (c : ConnectionConfig) (t : TokenArgs) : Prop :=
  exists id, parseTokenConnectionId (cc_token c) = Ok id /\ t_chainName t = ci_chainName id /\
    same_id (Some (t_addressOrDenom t)) (Some (ci_addressOrDenom id)) /\
    (forall route, given (t_warpRouteId token1) = Some route -> t_warpRouteId t = Some route).

Definition connects (tokens : list TokenArgs) (token1 : TokenArgs) (conn : TokenConnection)
    (c : ConnectionConfig) : Prop :=
  c_type conn = cc_kind c /\ c_token conn ∈ tokens /\ names token1 c (c_token conn).

Lemma connected_token_spec tokens token1 id t : connected_token tokens token1 id = Ok t ->
  t ∈ args <$> tokens /\ t_chainName t = ci_chainName id /\
  same_id (Some (t_addressOrDenom t)) (Some (ci_addressOrDenom id)) /\
  (forall route, given (t_warpRouteId token1) = Some route -> t_warpRouteId t = Some route).
Proof.
  unfold connected_token. destruct (List.find _ _) as [t0|] eqn:E; [|done]. intros [= <-].
  apply List.find_some in E as [Hin E]. rewrite !andb_true_iff, String.eqb_eq in E.
  destruct E as [[Hc Ha] Hr]. split_and!; [|done|done|].
  - apply list_elem_of_fmap. exists t0. split; [done|]. by apply list_elem_of_In.
  - intros route Hg. rewrite Hg in Hr. by apply bool_decide_eq_true in Hr.
Qed.

Lemma connected_token_total tokens token1 c id t :
  parseTokenConnectionId (cc_token c) = Ok id -> t ∈ args <$> tokens -> names token1 c t ->
  exists t', connected_token tokens token1 id = Ok t'.
Proof.
  intros Hp (t0 & -> & Hin)%list_elem_of_fmap (id' & Hp' & Hc & Ha & Hr).
  assert (id' = id) as -> by congruence. unfold connected_token.
  destruct (List.find _ tokens) as [t1|] eqn:E; [eauto|].
  pose proof (List.find_none _ _ E t0 (proj1 (list_elem_of_In _ _) Hin)) as Hf. cbv beta in Hf.
  rewrite (proj2 (String.eqb_eq _ _) Hc), Ha in Hf. cbn in Hf.
  destruct (given (t_warpRouteId token1)) as [route|]; [|done].
  by rewrite bool_decide_eq_true_2 in Hf by (by apply Hr).
Qed.

Lemma connect_spec tokens token1 configs t : connect tokens token1 configs = Ok t ->
  args t = args token1 /\
  exists added, connections t = connections token1 ++ added /\
    Forall2 (connects (args <$> tokens) (args token1)) added configs.
Proof.
  revert token1. induction configs as [|c configs IH]; intros token1; cbn [connect].
  - intros [= <-]. split; [done|]. exists []. by rewrite app_nil_r.
  - intros (id & Hp & (token2 & Ht & E)%result_bind_ok)%result_bind_ok.
    apply connected_token_spec in Ht as (Hin & Hc & Ha & Hr).
    apply IH in E as (Hargs & added & Hadd & Hall). split; [done|].
    eexists (_ :: added). split; [rewrite Hadd; cbn; by rewrite <- app_assoc|].
    constructor; [|done]. split_and!; [done|done|]. by exists id.
Qed.

Lemma connect_total tokens token1 configs :
  Forall (fun c => exists t, t ∈ args <$> tokens /\ names (args token1) c t) configs ->
  exists t, connect tokens token1 configs = Ok t.
Proof.
  intros Hall. revert token1 Hall. induction configs as [|c configs IH]; intros token1; cbn [connect]; [eauto|].
  intros [(t & Hin & Hn) Hall]%Forall_cons. pose proof Hn as (id & Hp & _). rewrite Hp. cbn [mbind result_bind].
  destruct (connected_token_total _ _ _ _ _ Hp Hin Hn) as [t' ->]. cbn [mbind result_bind]. by apply IH.
Qed.

(** A configuration makes a route exactly if each connection it lists can be read and names one
    of its tokens: by chain and address, and by the identifier of the route if the token has one.
    The route then has the tokens of the configuration, in order, each with exactly the
    connections listed for it, in order, to a token they name. *)
Theorem from_config_connected metadata config localFees interchainFees blacklist :
  let tokens := fst <$> config in
  ((exists warp, FromConfig metadata config localFees interchainFees blacklist = Ok warp) <->
   Forall (fun c => Forall (fun cc => exists t, t ∈ tokens /\ names (fst c) cc t) (snd c)) config) /\
  forall warp, FromConfig metadata config localFees interchainFees blacklist = Ok warp ->
    args <$> w_tokens warp = tokens /\
    Forall2 (fun t c => Forall2 (connects tokens (args t)) (connections t) (snd c)) (w_tokens warp) config.
Proof.
  intros tokens.
  assert (args <$> ((fun c => {| args := fst c; connections := [] |}) <$> config) = tokens) as Htok.
  { rewrite <- list_fmap_compose. reflexivity. }
  assert (forall warp, FromConfig metadata config localFees interchainFees blacklist = Ok warp ->
    Forall2 (fun c t => args t = fst c /\ Forall2 (connects tokens (fst c)) (connections t) (snd c))
      config (w_tokens warp)) as Hspec.
  { intros warp (connected & E & [= <-])%result_bind_ok. apply mapM_result_ok_inv in E.
    eapply Forall2_impl; [exact E|]. intros c t (Ha & added & Hadd & Hall)%connect_spec.
    rewrite Htok in Hall. cbn in *. by rewrite Hadd. }
  split; [split|].
  - intros [warp Hw]. apply Hspec in Hw. clear Htok Hspec. revert Hw. generalize tokens, (w_tokens warp).
    clear. intros tokens ts. induction 1 as [|c t config ts [_ Hc] _ IH]; constructor; [|done].
    clear IH. induction Hc as [|conn cc ? ? (_ & Hin & Hn)]; constructor; eauto.
  - intros Hall. unfold FromConfig.
    destruct (mapM_result_total (fun c => connect ((fun c => {| args := fst c; connections := [] |}) <$> config)
      {| args := fst c; connections := [] |} (snd c)) config) as [connected ->]; [|cbn; eauto].
    intros c Hin. rewrite Forall_forall in Hall. apply connect_total. rewrite Htok. by apply Hall.
  - intros warp Hw%Hspec. split.
    + apply list_eq_Forall2, Forall2_fmap_2, Forall2_flip. eapply Forall2_impl; [exact Hw|]. by intros c t [? _].
    + apply Forall2_flip. eapply Forall2_impl; [exact Hw|]. by intros c t [-> ?].
Qed.

End config.

(** ** The transactions of a transfer *)
Section transactions.
Context {S : Type} `{AddressLibs} `{AddressCodecs} `{BigNumberDiv} `{WarpWorld S}.
Context (warp : WarpCore).

(** The amount a transaction approves or moves. *)
Definition request_amount (r : TxRequest) : Z :=
  match r with
  | ApproveTx _ n _ _ => n
  | TransferRemoteTx _ n _ _ _ _ _ _ => n
  | TransferRemoteToTx _ n _ _ _ _ _ _ => n
  end.

Definition summary (tx : WarpTx) : Z * WarpTxCategory := (request_amount (tx_request tx), tx_category tx).

(** Whom a transfer pays, on which domain. *)
Definition transfer_goal (r : TxRequest) : option (Z * string) :=
  match r with
  | ApproveTx _ _ _ _ => None
  | TransferRemoteTx _ _ destination _ recipient _ _ _ => Some (destination, recipient)
  | TransferRemoteToTx _ _ destination recipient _ _ _ _ => Some (destination, recipient)
  end.

Lemma populate_spec category providerType request extra tx :
  answers (populate (S := S) category providerType request extra) tx ->
  tx_category tx = category /\ tx_request tx = request /\ tx_type tx = providerType.
Proof. unfold populate. intros Hp. next Hp body Hb. by apply answers_ret in Hp as <-. Qed.

Lemma populated {A} (make : A -> eff S WarpTx) (what : A -> Z * WarpTxCategory) plans txs :
  (forall p tx, answers (make p) tx -> summary tx = what p) ->
  answers (mapM make plans) txs -> summary <$> txs = what <$> plans.
Proof.
  intros Hmake. revert txs. induction plans as [|p plans IH]; intros txs; cbn.
  - by intros <-%answers_ret.
  - intros Hm. next Hm tx Htx. next Hm rest Hrest. apply answers_ret in Hm as <-. cbn.
    f_equal; [by apply Hmake|by apply IH].
Qed.

(** The allowance of the sender for the contract, as the chain answered: whether the amount with
    the fee needs an approval, and whether there is one to reset. A transfer between collateral
    routers asks the adapter of the route, any other the adapter of the token. *)
Definition allowance_answered (oa : TokenAmount) (destination : ChainNameOrId) (sender : string)
    (destinationToken : option TokenArgs) (fee : Z) (required revoke : bool) : Prop :=
  exists name hyp adapter,
    chainName_of warp destination = Ok name /\
    getHypAdapter (w_metadata warp) (token oa) (Some name) = Ok hyp /\
    (if isCrossCollateralTransfer (token oa) destinationToken then Ok hyp
     else getAdapter (w_metadata warp) (token oa)) = Ok adapter /\
    answers (ww_isApproveRequired adapter sender (t_addressOrDenom (args (token oa))) (amount oa + fee)) required /\
    answers (ww_isRevokeApprovalRequired hyp sender (t_addressOrDenom (args (token oa)))) revoke.

(** The approval of an interchain fee that is paid in a token of Starknet, if the chain answers that
    it is needed; there is none elsewhere. *)
Definition fee_approval (oa : TokenAmount) (sender : string) (interchain : TokenAmount)
    (other : list (Z * WarpTxCategory)) : Prop :=
  if bool_decide (t_protocol (args (token interchain)) = PStarknet) then
    exists adapter required, getAdapter (w_metadata warp) (token interchain) = Ok adapter /\
      answers (ww_isApproveRequired adapter sender (t_addressOrDenom (args (token oa))) (amount interchain)) required /\
      other = if required then [(amount interchain, Approval)] else []
  else other = [].

Lemma starknet_fee_summary oa providerType fee sender txs :
  answers (starknet_fee_approval (S := S) warp (token oa) providerType fee sender) txs ->
  fee_approval oa sender fee (summary <$> txs).
Proof.
  unfold starknet_fee_approval, fee_approval. case_bool_decide as Hp; [|by intros <-%answers_ret].
  intros Hf. next_value Hf adapter Ha. next Hf required Hr. exists adapter, required.
  split_and!; [done|done|]. destruct required; [|by apply answers_ret in Hf as <-].
  next Hf tx Htx. apply populate_spec in Htx as (Hc & Hq & _). apply answers_ret in Hf as <-.
  cbn. unfold summary. by rewrite Hc, Hq.
Qed.

(** The fees of a transfer: those given, if an interchain fee is, and those of a new quote for it
    otherwise. The first is the interchain fee, the second the fee in the token. *)
Definition fees_used (oa : TokenAmount) (destination : ChainNameOrId) (sender recipient : string)
    (interchainFee tokenFee : option TokenAmount) (destinationToken : option TokenArgs)
    (interchain : option TokenAmount) (fee : Z) : Prop :=
  match interchainFee with
  | Some given_fee => interchain = Some given_fee /\ fee = fee_amount tokenFee
  | None =>
      if isCrossCollateralTransfer (token oa) destinationToken then
        exists adapter domain router quote,
          answers (ww_quoteTransferRemoteToGas (S := S) adapter domain recipient (amount oa) router (Some sender)) quote /\
          interchain = None /\ fee = default 0 (q_amount <$> tokenFeeQuote quote)
      else
        exists quote,
          answers (getInterchainTransferFee (S := S) warp oa destination (Some sender) recipient destinationToken) quote /\
          interchain = Some (i_igpQuote quote) /\ fee = fee_amount (i_tokenFeeQuote quote)
  end.

(** What the transactions of a transfer are. If the allowance does not cover the amount with the
    fee, they begin with an approval of exactly that, after a reset if there is something to
    reset. A fee in a token of Starknet may need an approval of its own. The last one is the
    transfer. *)
Definition transfer_plan (oa : TokenAmount) (destination : ChainNameOrId) (sender : string)
    (destinationToken : option TokenArgs) (interchain : option TokenAmount) (fee : Z)
    (goal : Z * string) (txs : list WarpTx) : Prop :=
  exists required revoke other last_tx,
    allowance_answered oa destination sender destinationToken fee required revoke /\
    (if isCrossCollateralTransfer (token oa) destinationToken then other = []
     else exists igp, interchain = Some igp /\ fee_approval oa sender igp other) /\
    summary <$> txs =
      (if required then (if revoke then [(0, Revoke)] else []) ++ [(amount oa + fee, Approval)] else []) ++
      other ++ [(amount oa, Transfer)] /\
    last txs = Some last_tx /\ transfer_goal (tx_request last_tx) = Some goal.

Lemma approvals_split required revoke n :
  approvals required revoke n =
    if required then (if revoke then [(0, Revoke)] else []) ++ [(n, Approval)] else [].
Proof. by destruct required, revoke. Qed.

Lemma approvals_populated adapter address gas providerType plans pre :
  answers (mapM (fun '(n, category) =>
    populate (S := S) category providerType (ApproveTx adapter n address gas) false) plans) pre ->
  summary <$> pre = plans.
Proof.
  intros Hpre. apply populated with (what := id) in Hpre; [by rewrite list_fmap_id in Hpre|].
  intros [n category] tx (Hc & Hq & _)%populate_spec. unfold summary. by rewrite Hc, Hq.
Qed.

Lemma summaries_of pre other txs tx n required revoke total goal :
  summary <$> pre = approvals required revoke total ->
  summary tx = (n, Transfer) -> transfer_goal (tx_request tx) = Some goal -> txs = pre ++ other ++ [tx] ->
  summary <$> txs =
    (if required then (if revoke then [(0, Revoke)] else []) ++ [(total, Approval)] else []) ++
    (summary <$> other) ++ [(n, Transfer)] /\
  last txs = Some tx /\ transfer_goal (tx_request tx) = Some goal.
Proof.
  intros Hpre Htx Hgoal ->. rewrite approvals_split in Hpre.
  by rewrite !fmap_app, Hpre, list_fmap_singleton, Htx, (app_assoc pre other [tx]), last_snoc.
Qed.

Lemma standard_plan oa destination sender recipient interchainFee tokenFee attestation destinationToken txs :
  answers (standard_transfer_txs (S := S) warp oa destination sender recipient interchainFee tokenFee
             attestation destinationToken) txs ->
  isCrossCollateralTransfer (token oa) destinationToken = false ->
  exists interchain fee domain,
    fees_used oa destination sender recipient interchainFee tokenFee destinationToken interchain fee /\
    getDomainId (w_metadata warp) destination = Ok domain /\
    transfer_plan oa destination sender destinationToken interchain fee (domain, recipient) txs.
Proof.
  unfold standard_transfer_txs. intros Ht Hcc. next_value Ht name Hn. next_value Ht domain Hd.
  next_value Ht hyp Hh. next Ht fees Hf. destruct fees as [igp tf]. next Ht req Hreq. destruct req as [required revoke].
  next Ht pre Hpre. next Ht other Ho. next Ht u Hu. next Ht tx Htx. apply answers_ret in Ht as <-.
  apply populate_spec in Htx as (Hc & Hq & _). apply answers_both in Hreq as [Hreq Hrev].
  unfold isApproveRequired in Hreq. next_value Hreq adapter Ha.
  exists (Some igp), (fee_amount tf), domain. split; [|split; [done|]].
  - unfold fees_or_quote in Hf. destruct interchainFee; [by apply answers_ret in Hf as [= <- <-]|].
    unfold fees_used. rewrite Hcc.
    next Hf quote Hquote. apply answers_ret in Hf as [= <- <-]. by exists quote.
  - exists required, revoke, (summary <$> other), tx. rewrite Hcc. split; [|split].
    + exists name, hyp, adapter. rewrite Hcc. by split_and!.
    + exists igp. split; [done|]. by eapply starknet_fee_summary.
    + apply (summaries_of pre other); [by eapply approvals_populated|..|done];
        [unfold summary; by rewrite Hc, Hq|by rewrite Hq].
Qed.

Lemma cross_collateral_plan oa destination sender recipient to attestation interchainFee tokenFee txs :
  answers (getCrossCollateralTransferTxs (S := S) warp oa destination sender recipient to attestation
             interchainFee tokenFee) txs ->
  isCrossCollateralTransfer (token oa) (Some to) = true ->
  exists interchain fee domain,
    fees_used oa destination sender recipient interchainFee tokenFee (Some to) interchain fee /\
    getDomainId (w_metadata warp) destination = Ok domain /\
    transfer_plan oa destination sender (Some to) interchain fee (domain, recipient) txs.
Proof.
  unfold getCrossCollateralTransferTxs. intros Ht Hcc. next_value Ht name Hn. next_value Ht resolved Hr.
  next Ht u1 Hu1. next Ht u2 Hu2. next_value Ht adapter Ha. next Ht u3 Hu3. next Ht quote Hq. next Ht u4 Hu4.
  next Ht req Hreq. destruct req as [required revoke]. next Ht pre Hpre. next_value Ht domain Hd.
  next_value Ht origin Ho. next Ht tx Htx. apply answers_ret in Ht as <-.
  apply populate_spec in Htx as (Hc & Hqr & _). apply answers_both in Hreq as [Hreq Hrev].
  exists interchainFee, (default 0 (q_amount <$> tokenFeeQuote quote)), domain. split; [|split; [done|]].
  - unfold fees_used. destruct interchainFee; [apply answers_ret in Hq as <-; by destruct tokenFee|].
    rewrite Hcc. next_value Hq d Hd'. eauto 7.
  - exists required, revoke, [], tx. rewrite Hcc. split; [|split; [done|]].
    + exists name, adapter, adapter. rewrite Hcc. by split_and!.
    + apply (summaries_of pre []); [by eapply approvals_populated|..|done];
        [unfold summary; by rewrite Hc, Hqr|by rewrite Hqr].
Qed.

(** C15: the transactions of a transfer without an offchain quote, if they can be made at all, are
    decided by what the chain answers of the sender's allowance. If it does not cover the amount
    with the fee in its token, there is an approval of exactly the two, and before it a reset to
    nothing if the chain answers that there is an allowance to reset; otherwise there is neither.
    Then comes an approval of the interchain fee, if that is paid in a token of Starknet and the
    chain answers that it is needed. Last is one transfer of exactly the amount, to the recipient,
    on the domain of the destination. The fees are those given, if an interchain fee is, and those
    of a new quote for this transfer otherwise. *)
Theorem transfer_txs_shape oa destination sender recipient interchainFee tokenFee attestation destinationToken txs :
  answers (getTransferRemoteTxs (S := S) warp oa destination sender recipient interchainFee tokenFee
             attestation destinationToken None) txs ->
  exists interchain fee domain,
    fees_used oa destination sender recipient interchainFee tokenFee destinationToken interchain fee /\
    getDomainId (w_metadata warp) destination = Ok domain /\
    transfer_plan oa destination sender destinationToken interchain fee (domain, recipient) txs.
Proof.
  unfold getTransferRemoteTxs. intros Ht. next Ht u Hu. destruct destinationToken as [to|].
  - destruct (isCrossCollateralTransfer (token oa) (Some to)) eqn:Hcc.
    + by eapply cross_collateral_plan.
    + by eapply standard_plan.
  - by eapply standard_plan.
Qed.

End transactions.

(** ** What a destination pays *)
Section collateral.

(** bignumber.js keeps twenty decimals of a quotient, so a quotient by a power of ten up to the
    twentieth is exact. *)
Class BigNumberDivLaws `{BigNumberDiv} : Prop := {
  bn_div_exact v k : 0 < k <= 20 -> bn_div_pow10 v k == v # Z.to_pos (10 ^ k)
}.

Context `{BigNumberDivLaws}.

Lemma convert_floor from to v : Z.abs (from - to) <= 20 ->
  convertDecimalsToIntegerString from to v =
    if to <? from then v / 10 ^ (from - to) else v * 10 ^ (to - from).
Proof.
  intros Hd. unfold convertDecimalsToIntegerString, convertDecimals.
  destruct (Z.eqb_spec from to) as [->|Hne].
  - rewrite Z.ltb_irrefl, Z.sub_diag, Z.mul_1_r. apply Qfloor_Z.
  - destruct (Z.ltb_spec to from) as [Hlt|]; [|apply Qfloor_Z].
    rewrite (Qfloor_comp _ _ (bn_div_exact v (from - to) ltac:(lia))).
    unfold Qfloor. by rewrite Z2Pos.id by (apply Z.pow_pos_nonneg; lia).
Qed.

(** Whether a route converts by decimals, not by scales. *)
Definition by_decimals (o d : TokenArgs) : bool :=
  negb (t_decimals o =? t_decimals d) &&
  bool_decide (t_scale o = None) && bool_decide (t_scale d = None).

(** What a transfer of an amount takes from the destination. *)
Definition delivered (o d : TokenArgs) (amount : Z) : result Z :=
  if by_decimals o d then Ok (convertDecimalsToIntegerString (t_decimals o) (t_decimals d) amount)
  else
    message ← messageAmountFromLocal amount (t_scale o);
    localAmountFromMessage message (t_scale d).

(** The conversions there and back are adjoint, up to the floor. *)
Lemma floor_covers amount available k : 0 < k ->
  (amount <= available / k -> amount * k <= available) /\
  (available / k < amount -> available <= amount * k) /\
  (amount <= available * k -> amount / k <= available) /\
  (available * k < amount -> available <= amount / k).
Proof.
  intros Hk. pose proof (Z.mul_div_le available k Hk). pose proof (Z.mul_succ_div_gt available k Hk).
  split_and!; intros Hle; [nia|nia| |].
  - apply Z.div_le_upper_bound; nia.
  - apply Z.div_le_lower_bound; nia.
Qed.

Lemma localAmountFromMessage_ok x scale : 0 <= x -> valid_scale scale ->
  localAmountFromMessage x scale =
    Ok (x * denominator (normalizeScale scale) / numerator (normalizeScale scale)).
Proof.
  intros Hx Hv. unfold localAmountFromMessage. rewrite js_assert_true by lia.
  rewrite (proj2 (assertValidScale_ok scale) Hv). cbn. destruct Hv. by rewrite Z.quot_div_nonneg by nia.
Qed.

(** C36: the check of collateral and limits is sound and tight. If [covers] says that an available
    amount of the destination covers a transfer, then what the transfer takes there is not more
    than what is available, whether amounts convert by scales or by decimals; and if it says that
    it does not, then the transfer takes all that is available, or more. *)
Theorem collateral_pays o d amount available b :
  Z.abs (t_decimals o - t_decimals d) <= 20 -> covers o d amount available = Ok b ->
  exists paid, delivered o d amount = Ok paid /\
    if b then paid <= available else available <= paid.
Proof.
  intros Hd. unfold covers, delivered. fold (by_decimals o d). destruct (by_decimals o d).
  - rewrite !convert_floor by lia. intros [= <-]. eexists. split; [done|].
    destruct (Z.ltb_spec (t_decimals o) (t_decimals d)) as [Hlt|Hle].
    + rewrite (proj2 (Z.ltb_ge _ _)) by lia.
      destruct (floor_covers amount available (10 ^ (t_decimals d - t_decimals o))) as (H1 & H2 & _);
        [apply Z.pow_pos_nonneg; lia|]. destruct (Z.leb_spec amount (available / 10 ^ (t_decimals d - t_decimals o))); auto.
    + destruct (Z.ltb_spec (t_decimals d) (t_decimals o)); [|].
      * destruct (floor_covers amount available (10 ^ (t_decimals o - t_decimals d))) as (_ & _ & H3 & H4);
          [apply Z.pow_pos_nonneg; lia|].
        destruct (Z.leb_spec amount (available * 10 ^ (t_decimals o - t_decimals d))); auto.
      * assert (t_decimals o - t_decimals d = 0) as E by lia. assert (t_decimals d - t_decimals o = 0) as -> by lia.
        rewrite E, !Z.mul_1_r. destruct (Z.leb_spec amount available); lia.
  - intros (req & Hreq & (off & Hoff & [= <-])%result_bind_ok)%result_bind_ok. rewrite Hreq. cbn.
    apply messageAmountFromLocal_ok in Hreq as (Ha & [Hn1 Hd1] & Hreq).
    apply messageAmountFromLocal_ok in Hoff as (Hv & Hs & Hoff). pose proof Hs as [Hn Hdn].
    rewrite localAmountFromMessage_ok by (try done; subst req; apply Z.div_pos; nia).
    eexists. split; [done|].
    pose proof (ceil_floor_galois available req _ _ Hn Hdn) as Hg. rewrite <- Hoff in Hg.
    set (n := numerator (normalizeScale (t_scale d))) in *. set (m := denominator (normalizeScale (t_scale d))) in *.
    pose proof (Z.mul_div_le (req * m) n Hn). pose proof (Z.mul_succ_div_gt (req * m) n Hn).
    destruct (Z.leb_spec req off) as [Hle|Hlt].
    + apply Hg in Hle. etrans; [|exact Hle]. apply Z.div_le_mono; lia.
    + assert (available < (req * m + n - 1) / n) as Hav by lia.
      apply Z.div_le_lower_bound; [done|]. pose proof (Z.mul_div_le (req * m + n - 1) n Hn). nia.
Qed.

End collateral.

(** ** The most that can be transferred *)
Section limits.
Context {S : Type} `{AddressLibs} `{AddressCodecs} `{BigNumberDiv} `{WarpWorld S}.
Context (warp : WarpCore).
#[local] Notation metadata := (w_metadata warp).

(** The part of a fee that is paid in the token itself. *)
Definition fungible_fee (t : IToken) (fee : TokenAmount) : Z :=
  if isFungibleWith (args t) (args (token fee)) then amount fee else 0.

Lemma less_fee_spec balance fee :
  less_fee balance fee = minus balance (fungible_fee (token balance) fee).
Proof.
  unfold less_fee, fungible_fee. destruct (isFungibleWith _ _); [done|].
  destruct balance. unfold minus; cbn. by rewrite Z.sub_0_r.
Qed.

(** The fees of a transfer as they are estimated for its most. *)
Definition fees_of_max (balance : TokenAmount) (destination : ChainNameOrId) (recipient sender : string)
    (senderPubKey : option string) (destinationToken : option TokenArgs) (fees : WarpCoreFeeEstimate) : Prop :=
  exists fee,
    answers (getInterchainTransferFee (S := S) warp balance destination (Some sender) recipient destinationToken) fee /\
    f_interchainQuote fees = i_igpQuote fee /\ f_tokenFeeQuote fees = i_tokenFeeQuote fee /\
    answers (getLocalTransferFeeAmount (S := S) warp (token balance) destination sender senderPubKey
      (Some (i_igpQuote fee)) (i_tokenFeeQuote fee) None None destinationToken) (f_localQuote fees).

(** The token fee of what the gas leaves, if the transfer has a fee in its own token. *)
Definition token_fee_of (left : TokenAmount) (destination : ChainNameOrId) (recipient sender : string)
    (destinationToken : option TokenArgs) (quoted : option TokenAmount) (fee : Z) : Prop :=
  match quoted with
  | Some q =>
      if isFungibleWith (args (token left)) (args (token q)) then
        exists quote,
          answers (getInterchainTransferFee (S := S) warp left destination (Some sender) recipient destinationToken) quote /\
          fee = fee_amount (i_tokenFeeQuote quote)
      else fee = 0
  | None => fee = 0
  end.

(** The most that can be transferred is exactly what the balance leaves after the gas of both
    chains, as far as it is paid in the token of the balance, and after the token fee, quoted anew
    for what the gas leaves; and nothing if that is not positive. The fees are those given, or are
    quoted for the whole balance. *)
Theorem max_transfer_exact balance destination recipient sender senderPubKey feeEstimate destinationToken most :
  answers (getMaxTransferAmount (S := S) warp balance destination recipient sender senderPubKey feeEstimate
             destinationToken) most ->
  exists fees fee,
    match feeEstimate with
    | Some given_fees => fees = given_fees
    | None => fees_of_max balance destination recipient sender senderPubKey destinationToken fees
    end /\
    let left := minus balance (fungible_fee (token balance) (f_localQuote fees) +
                               fungible_fee (token balance) (f_interchainQuote fees)) in
    token_fee_of left destination recipient sender destinationToken (f_tokenFeeQuote fees) fee /\
    token most = token balance /\ amount most = Z.max 0 (amount left - fee).
Proof.
  unfold getMaxTransferAmount. intros Hm. next Hm fees Hfees. next Hm maxAmount Hmax. exists fees.
  rewrite !less_fee_spec in Hmax. cbn [token minus] in Hmax.
  assert (forall a b, minus (minus balance a) b = minus balance (a + b)) as Hminus
    by (intros a b; unfold minus; cbn; f_equal; lia).
  rewrite Hminus in Hmax. set (left := minus balance _) in *.
  assert (exists fee, token_fee_of left destination recipient sender destinationToken (f_tokenFeeQuote fees) fee /\
    maxAmount = minus left fee) as (fee & Hfee & ->).
  { unfold token_fee_of. assert (left = minus left 0) as E0 by (subst left; unfold minus; cbn; f_equal; lia).
    destruct (f_tokenFeeQuote fees) as [q|]; [|apply answers_ret in Hmax as <-; by exists 0].
    change (token left) with (token balance). destruct (isFungibleWith _ _);
      [|apply answers_ret in Hmax as <-; by exists 0].
    next Hmax quote Hq. apply answers_ret in Hmax as <-. eauto. }
  change (amount (minus left fee)) with (amount left - fee) in Hm.
  exists fee. split; [|split; [done|]].
  - destruct feeEstimate; [by apply answers_ret in Hfees|].
    next Hfees quote Hq. next Hfees localQuote Hl. apply answers_ret in Hfees as <-. by exists quote.
  - destruct (Z.ltb_spec 0 (amount left - fee)); apply answers_ret in Hm as <-; (split; [done|]).
    + change (amount (minus left fee)) with (amount left - fee). lia.
    + change (0 = 0 `max` (amount left - fee)). lia.
Qed.

(** ** Checks before a transfer *)

(** What a transfer that passes every check has: its chains are known and their route is allowed,
    the recipient is a valid address there that is not zero, its amount is at least the minimum of
    the destination, ... *)
Record valid_route (oa : TokenAmount) (destination : ChainNameOrId) (recipient : string) (d : ChainMetadata)
    : Prop := {
  vr_origin : exists o, tryGetChainMetadata metadata (ByName (t_chainName (args (token oa)))) = Some o /\
    (cm_name o, cm_name d) ∉ w_routeBlacklist warp;
  vr_destination : tryGetChainMetadata metadata destination = Some d;
  vr_recipient : isValidAddress recipient (Some (cm_protocol d)) = true;
  vr_not_zero : isZeroishAddress recipient = false;
  vr_prefix : cm_protocol d = PCosmos \/ cm_protocol d = PCosmosNative ->
    exists prefix, cm_bech32Prefix d = Some prefix /\ prefix <> ""%string /\ String.prefix prefix recipient = true
}.

(** ... the destination mints and holds enough for it, and the origin burns enough, ... *)
Record valid_amounts (oa : TokenAmount) (recipient : string) (resolved : TokenArgs)
    (fee : InterchainTransferFeeQuote) : Prop := {
  va_positive : 0 < amount oa;
  va_minimum : exists adapter minimum,
    getAdapter metadata (unconnected resolved) = Ok adapter /\
    answers (ww_getMinimumTransferAmount (S := S) adapter recipient) minimum /\
    convertDecimalsToIntegerString (t_decimals resolved) (t_decimals (args (token oa))) minimum <= amount oa;
  va_mint : among MINT_LIMITED_STANDARDS resolved = true ->
    exists limit, answers (mint_limit (S := S) warp resolved) limit /\
      covers (args (token oa)) resolved (amount oa) limit = Ok true;
  va_collateral : isDestinationCollateralExemptToken resolved = false -> isCollateralizedToken resolved = true ->
    exists collateral, answers (getTokenCollateral (S := S) warp resolved) collateral /\
      covers (args (token oa)) resolved (amount oa) collateral = Ok true;
  va_burn : isXerc20 (args (token oa)) = true ->
    exists adapter limit, getAdapter metadata (token oa) = Ok adapter /\
      answers (ww_getBurnLimit (S := S) adapter) limit /\
      amount oa + default 0 (fungible_fee (token oa) <$> i_tokenFeeQuote fee) <= limit
}.

(** ... and the balances of the sender cover the amount with its token fee, the amount with the gas
    that is paid in the token, and gas that is paid in another token. *)
Record valid_balances (oa : TokenAmount) (destination : ChainNameOrId) (sender : string)
    (senderPubKey attestation : option string) (resolved : TokenArgs) (fee : InterchainTransferFeeQuote)
    : Prop := {
  vb_balance : exists balance localQuote,
    answers (getBalance (S := S) warp (token oa) sender) balance /\
    answers (getLocalTransferFeeAmount (S := S) warp (token oa) destination sender senderPubKey
      (Some (i_igpQuote fee)) (i_tokenFeeQuote fee) attestation (Some (amount oa)) (Some resolved)) localQuote /\
    amount oa <= amount balance /\
    amount oa + fee_amount (i_tokenFeeQuote fee) <= amount balance /\
    amount oa + fungible_fee (token oa) localQuote + fungible_fee (token oa) (i_igpQuote fee) <= amount balance;
  vb_gas : isFungibleWith (args (token oa)) (args (token (i_igpQuote fee))) = false ->
    exists balance, answers (getBalance (S := S) warp (token (i_igpQuote fee)) sender) balance /\
      amount (i_igpQuote fee) <= amount balance
}.

Lemma and_then_none (p q : eff S problem) : answers (and_then p q) None -> answers p None /\ answers q None.
Proof. unfold and_then. intros H'. next H' r Hr. destruct r; [by apply answers_ret in H'|done]. Qed.

Lemma given_some o s : given o = Some s -> o = Some s /\ s <> ""%string.
Proof. destruct o as [[|c o]|]; cbn; [done| |done]. by intros [= <-]. Qed.

Lemma valid_route_ok oa destination recipient :
  validateChains warp (ByName (t_chainName (args (token oa)))) destination = None ->
  validateRecipient warp recipient destination = Ok None ->
  exists d, valid_route oa destination recipient d.
Proof.
  unfold validateChains, validateRecipient, getChainMetadata.
  match goal with |- (if ?b then _ else if ?b' then _ else _) = _ -> _ => destruct b, b'; try done end.
  destruct (tryGetChainMetadata metadata (ByName _)) as [o|] eqn:Ho; [|done].
  destruct (tryGetChainMetadata metadata destination) as [d|] eqn:Hd; [|done].
  case_bool_decide as Hb; [done|]. intros _. cbn.
  destruct (negb _ || _) eqn:Hr; [done|]. apply orb_false_iff in Hr as [Hr Hz]. apply negb_false_iff in Hr.
  intros Hp. exists d. split; [eauto|done|done|done|].
  intros Hc. assert (bool_decide (cm_protocol d = PCosmos) || bool_decide (cm_protocol d = PCosmosNative) = true) as E
    by (rewrite orb_true_iff, !bool_decide_eq_true; tauto). rewrite E in Hp.
  destruct (given (cm_bech32Prefix d)) as [prefix|] eqn:Hg; [|done]. apply given_some in Hg as [Hg Hne].
  exists prefix. split_and!; [done|done|]. by destruct (String.prefix prefix recipient).
Qed.

(** A destination token that was resolved resolves again, to the same one. *)
Lemma valid_amount_ok oa destination recipient resolved :
  answers (validateAmount (S := S) warp oa destination recipient (Some resolved)) None ->
  exists resolved', resolveDestinationToken metadata (token oa) destination (Some resolved) = Ok resolved' /\
  0 < amount oa /\ exists adapter minimum,
    getAdapter metadata (unconnected resolved') = Ok adapter /\
    answers (ww_getMinimumTransferAmount (S := S) adapter recipient) minimum /\
    convertDecimalsToIntegerString (t_decimals resolved') (t_decimals (args (token oa))) minimum <= amount oa.
Proof.
  unfold validateAmount. destruct (Z.leb_spec (amount oa) 0); [by intros ?%answers_ret|].
  intros Hv. next_value Hv resolved' Hr. next_value Hv adapter Ha. next Hv minimum Hm. exists resolved'.
  destruct (Z.ltb_spec (amount oa) (convertDecimalsToIntegerString (t_decimals resolved')
    (t_decimals (args (token oa))) minimum)); [by apply answers_ret in Hv|]. eauto 8.
Qed.

Lemma valid_mint_ok oa destination resolved :
  answers (validateDestinationRateLimit (S := S) warp oa destination (Some resolved)) None ->
  exists resolved', resolveDestinationToken metadata (token oa) destination (Some resolved) = Ok resolved' /\
  (among MINT_LIMITED_STANDARDS resolved' = true ->
   exists limit, answers (mint_limit (S := S) warp resolved') limit /\
     covers (args (token oa)) resolved' (amount oa) limit = Ok true).
Proof.
  unfold validateDestinationRateLimit. intros Hv. next_value Hv resolved' Hr. exists resolved'. split; [done|].
  intros Hm. rewrite Hm in Hv. cbn [negb] in Hv. next Hv limit Hl. next_value Hv b Hb. apply answers_ret in Hv.
  destruct b; [eauto|done].
Qed.

Lemma valid_collateral_ok oa destination resolved :
  answers (validateDestinationCollateral (S := S) warp oa destination (Some resolved)) None ->
  exists resolved', resolveDestinationToken metadata (token oa) destination (Some resolved) = Ok resolved' /\
  (isDestinationCollateralExemptToken resolved' = false -> isCollateralizedToken resolved' = true ->
   exists collateral, answers (getTokenCollateral (S := S) warp resolved') collateral /\
     covers (args (token oa)) resolved' (amount oa) collateral = Ok true).
Proof.
  unfold validateDestinationCollateral, isDestinationCollateralSufficient.
  intros Hv. next Hv b Hs. apply answers_ret in Hv. destruct b; [|done]. next_value Hs resolved' Hr.
  exists resolved'. split; [done|]. intros He Hc. rewrite He, Hc in Hs. cbn [negb] in Hs.
  next Hs collateral Hcol. apply answers_lift in Hs. eauto.
Qed.

Lemma valid_burn_ok oa destination recipient sender resolved fee :
  answers (validateOriginCollateral (S := S) warp oa destination recipient sender resolved (Some fee)) None ->
  isXerc20 (args (token oa)) = true ->
  exists adapter limit, getAdapter metadata (token oa) = Ok adapter /\
    answers (ww_getBurnLimit (S := S) adapter) limit /\
    amount oa + default 0 (fungible_fee (token oa) <$> i_tokenFeeQuote fee) <= limit.
Proof.
  unfold validateOriginCollateral. intros Hv Hx. next_value Hv adapter Ha. rewrite Hx in Hv.
  next Hv fee' Hf. apply answers_ret in Hf as <-. next Hv limit Hl. apply answers_ret in Hv.
  exists adapter, limit. split_and!; [done|done|].
  unfold fungible_fee. destruct (i_tokenFeeQuote fee); cbn in *;
    match type of Hv with (if ?b then _ else _) = _ => destruct b eqn:E; [done|by apply Z.ltb_ge in E] end.
Qed.

Lemma valid_balances_ok oa destination sender recipient senderPubKey attestation resolved fee :
  0 < amount oa ->
  answers (validateTokenBalances (S := S) warp oa destination sender recipient senderPubKey attestation
             (Some resolved) (Some fee)) None ->
  valid_balances oa destination sender senderPubKey attestation resolved fee.
Proof.
  unfold validateTokenBalances. intros Hpos Hv. next Hv balance Hbal.
  destruct (Z.ltb_spec (amount balance) (amount oa)) as [|Henough]; [by apply answers_ret in Hv|].
  next Hv fee' Hf. apply answers_ret in Hf as <-. next Hv gas Hg.
  destruct (Z.ltb_spec (amount gas) (amount (i_igpQuote fee))) as [|Hgas]; [by apply answers_ret in Hv|].
  destruct (negb (fee_amount _ =? 0) && _) eqn:Hfee; [by apply answers_ret in Hv|].
  next Hv localQuote Hl. next Hv most Hm. apply answers_ret in Hv.
  destruct (Z.ltb_spec (amount most) (amount oa)) as [|Hmost]; [done|].
  split.
  - exists balance, localQuote. split_and!; [done|done|done| |].
    + apply andb_false_iff in Hfee as [Hz|Hlt]; [|by apply Z.ltb_ge in Hlt].
      apply negb_false_iff, Z.eqb_eq in Hz. lia.
    + unfold getMaxTransferAmount in Hm. next Hm fees Hfees. apply answers_ret in Hfees as <-.
      next Hm maxAmount Hmax. cbn [f_tokenFeeQuote] in Hmax. apply answers_ret in Hmax as <-.
      rewrite !less_fee_spec in Hm. cbn [f_localQuote f_interchainQuote amount token minus] in Hm.
      unfold getBalance in Hbal. next Hbal adapter Ha. next Hbal n Hn. apply answers_ret in Hbal as <-.
      cbn [amount token] in *.
      destruct (Z.ltb_spec 0 (n - fungible_fee (token oa) localQuote - fungible_fee (token oa) (i_igpQuote fee)));
        apply answers_ret in Hm as <-; unfold minus in Hmost; cbn [amount] in Hmost; lia.
  - intros Hnf. rewrite Hnf in Hg. eauto.
Qed.

(** C14: a transfer that [validateTransfer] finds nothing wrong with has a known, allowed route and a
    valid recipient; a destination token, connected to its own, that mints and holds what the
    transfer takes; an amount of at least the minimum, within what the origin may burn; and a sender
    who can pay the amount with its token fee, the amount with the gas that is paid in the same
    token, and the gas that is not, each taken by itself: not the amount with both the token fee and
    the gas. Each limit and balance is one a chain answered, and each fee is of the one quote the
    checks share. *)
Theorem validateTransfer_sound oa destination recipient sender senderPubKey attestation destinationToken :
  answers (validateTransfer (S := S) warp oa destination recipient sender senderPubKey attestation destinationToken)
    None ->
  exists d resolved fee,
    valid_route oa destination recipient d /\
    resolveDestinationToken metadata (token oa) destination destinationToken = Ok resolved /\
    answers (getInterchainTransferFee (S := S) warp oa destination (Some sender) recipient (Some resolved)) fee /\
    valid_amounts oa recipient resolved fee /\
    valid_balances oa destination sender senderPubKey attestation resolved fee.
Proof.
  unfold validateTransfer. intros [Hc%answers_ret [Hr%answers_lift Hv]%and_then_none]%and_then_none.
  destruct (valid_route_ok _ _ _ Hc Hr) as [d Hd].
  destruct (resolveDestinationToken metadata (token oa) destination destinationToken) as [resolved|[]] eqn:E;
    [|by apply answers_ret in Hv..].
  pose proof (resolve_again _ _ _ _ _ E) as E2.
  apply and_then_none in Hv as [(r1 & E1 & Hpos & Hmin)%valid_amount_ok Hv].
  assert (r1 = resolved) as -> by congruence.
  apply and_then_none in Hv as [(r1 & E1' & Hmint)%valid_mint_ok Hv]. assert (r1 = resolved) as -> by congruence.
  apply and_then_none in Hv as [(r1 & E1'' & Hcol)%valid_collateral_ok Hv].
  assert (r1 = resolved) as -> by congruence. next Hv fee Hfee.
  apply and_then_none in Hv as [Hburn Hbal]. exists d, resolved, fee.
  split_and!; [done|done|done| |by eapply valid_balances_ok].
  split; [done|done|done|done|]. by eapply valid_burn_ok.
Qed.

End limits.

(** ** A route between two chains: inputs of the witnesses *)
Module WarpSample.

#[local] Instance exact_div : BigNumberDiv := {| bn_div_pow10 v k := v # Z.to_pos (10 ^ k) |}.
#[local] Instance exact_div_laws : BigNumberDivLaws.
Proof. by split. Qed.

#[local] Instance plain_codecs : AddressCodecs :=
  {| is_bech32 _ := true; convert_address address _ _ _ := Ok address |}.

(** A chain that answers every balance and limit with [balance], and quotes gas and a token fee. *)
Definition world (balance gas fee localFee : Z) (allowance : bool) : WarpWorld unit := {|
  ww_getBalance _ _ := mret balance;
  ww_getBridgedSupply _ := mret (Some balance);
  ww_getMinimumTransferAmount _ _ := mret 0;
  ww_isApproveRequired _ _ _ _ := mret (negb allowance);
  ww_isRevokeApprovalRequired _ _ _ := mret true;
  ww_quoteTransferRemoteGas _ _ _ _ _ _ :=
    mret {| igpQuote := {| q_amount := gas; q_addressOrDenom := None |};
            tokenFeeQuote := Some {| q_amount := fee; q_addressOrDenom := None |} |};
  ww_quoteTransferRemoteToGas _ _ _ _ _ _ := throw (Error "unused");
  ww_getMintLimit _ := mret balance;
  ww_getMintMaxLimit _ := mret balance;
  ww_getBurnLimit _ := mret balance;
  ww_supportsAttestation _ := mret false;
  ww_populate _ := mret "tx"%string;
  ww_estimateTransactionFee _ _ _ _ := mret localFee;
  ww_feeForGasUnits _ _ := mret localFee
|}.

Definition chain (name : string) (domain : Z) : ChainMetadata := {|
  cm_name := name; cm_protocol := PEthereum; cm_domainId := Some domain; cm_chainId := Some domain;
  cm_bech32Prefix := None; cm_seismic := false; cm_mailbox := None;
  cm_nativeToken := Some {| nt_decimals := 18; nt_denom := None; nt_name := "Ether"; nt_symbol := "ETH" |}
|}.

Definition hyp_token (chainName address : string) (standard : TokenStandard) (decimals : Z) : TokenArgs := {|
  t_chainName := chainName; t_standard := standard; t_tokenType := None; t_decimals := decimals;
  t_symbol := "T"; t_name := "T"; t_addressOrDenom := address; t_collateralAddressOrDenom := None;
  t_igpTokenAddressOrDenom := None; t_scale := None; t_warpRouteId := None
|}.

Definition base_address : string := "0x00000000000000000000000000000000000000b1".
Definition other_address : string := "0x00000000000000000000000000000000000000e1".
Definition user : string := "0x00000000000000000000000000000000000000f1".
Definition base_token : TokenArgs := hyp_token "base" base_address EvmHypNative 18.
Definition other_token : TokenArgs := hyp_token "mainnet" other_address EvmHypCollateral 6.

Definition config : list (TokenArgs * list ConnectionConfig) :=
  [(base_token, [{| cc_kind := None; cc_token := "ethereum|mainnet|" +:+ other_address |}]);
   (other_token, [{| cc_kind := None; cc_token := "ethereum|base|" +:+ base_address |}])].
Definition chains : list (string * ChainMetadata) :=
  [("base", chain "base" 8453); ("mainnet", chain "mainnet" 1)]%string.

Definition base_itoken : IToken :=
  {| args := base_token; connections := [{| c_type := None; c_token := other_token |}] |}.
Definition other_itoken : IToken :=
  {| args := other_token; connections := [{| c_type := None; c_token := base_token |}] |}.
Definition route : WarpCore := {|
  w_metadata := chains; w_tokens := [base_itoken; other_itoken];
  w_localFeeConstants := []; w_interchainFeeConstants := []; w_routeBlacklist := []
|}.

Lemma from_config_connected_witness :
  FromConfig chains config [] [] [] = Ok route /\ args <$> w_tokens route = [base_token; other_token].
Proof.
  assert (FromConfig chains config [] [] [] = Ok route) as E by (vm_compute; reflexivity).
  split; [exact E|]. apply (proj2 (from_config_connected chains config [] [] []) route E).
Defined.

Definition sent (n : Z) : TokenAmount := {| amount := n; token := base_itoken |}.

(** A balance that covers everything. *)
Definition rich : WarpWorld unit := world (10 ^ 20) 5 5 5 false.

Lemma validateTransfer_sound_witness :
  exists d resolved fee,
    valid_route route (sent (10 ^ 18)) (ByName "mainnet") user d /\
    resolveDestinationToken chains base_itoken (ByName "mainnet") None = Ok resolved /\
    answers (getInterchainTransferFee (H2 := rich) route (sent (10 ^ 18)) (ByName "mainnet") (Some user) user
      (Some resolved)) fee /\
    valid_amounts (H2 := rich) route (sent (10 ^ 18)) user resolved fee /\
    valid_balances (H2 := rich) route (sent (10 ^ 18)) (ByName "mainnet") user None None resolved fee.
Proof.
  apply (validateTransfer_sound (H2 := rich) route (sent (10 ^ 18)) (ByName "mainnet") user user None None None).
  exists tt, tt. vm_compute. reflexivity.
Defined.

(** Two approvals, since there is an allowance to reset, and the transfer. *)
Lemma transfer_txs_shape_witness :
  exists txs,
    summary <$> txs = [(0, Revoke); (10 ^ 18 + 5, Approval); (10 ^ 18, Transfer)] /\
    exists interchain fee domain,
      fees_used (H2 := rich) route (sent (10 ^ 18)) (ByName "mainnet") user user None None None interchain fee /\
      getDomainId chains (ByName "mainnet") = Ok domain /\
      transfer_plan (H2 := rich) route (sent (10 ^ 18)) (ByName "mainnet") user None interchain fee (domain, user) txs.
Proof.
  set (run := getTransferRemoteTxs (H2 := rich) route (sent (10 ^ 18)) (ByName "mainnet") user user None None
    None None None tt).
  assert (exists txs, run = (tt, Ok txs) /\
    summary <$> txs = [(0, Revoke); (10 ^ 18 + 5, Approval); (10 ^ 18, Transfer)]) as (txs & Hrun & Hs).
  { eexists. split; vm_compute; reflexivity. }
  exists txs. split; [exact Hs|].
  apply (transfer_txs_shape (H2 := rich) route (sent (10 ^ 18)) (ByName "mainnet") user user None None None None txs).
  exists tt, tt. exact Hrun.
Defined.

(** Of 18 decimals there are 6 left: a payment of 1.5 parts takes one, which 1 covers only by
    rounding down; 2 cover it. *)
Lemma collateral_pays_witness :
  covers base_token other_token 1500000000000 2 = Ok true /\
  (exists paid, delivered base_token other_token 1500000000000 = Ok paid /\ paid <= 2) /\
  exists paid, delivered base_token other_token 1500000000000 = Ok paid /\ 1 <= paid.
Proof.
  split; [vm_compute; reflexivity|]. split.
  - apply (collateral_pays base_token other_token 1500000000000 2 true); [vm_compute; discriminate|].
    vm_compute. reflexivity.
  - apply (collateral_pays base_token other_token 1500000000000 1 false); [vm_compute; discriminate|].
    vm_compute. reflexivity.
Defined.

(** A balance of 1000 leaves 985 after gas, interchain gas and the token fee. *)
Definition scarce : WarpWorld unit := world 1000 5 5 5 true.

Lemma max_transfer_exact_witness :
  exists most, amount most = 985 /\
  exists fees fee,
    fees_of_max (H2 := scarce) route (sent 1000) (ByName "mainnet") user user None None fees /\
    let left := minus (sent 1000) (fungible_fee base_itoken (f_localQuote fees) +
                                   fungible_fee base_itoken (f_interchainQuote fees)) in
    token_fee_of (H2 := scarce) route left (ByName "mainnet") user user None (f_tokenFeeQuote fees) fee /\
    token most = base_itoken /\ amount most = Z.max 0 (amount left - fee).
Proof.
  exists (sent 985). split; [reflexivity|].
  apply (max_transfer_exact (H2 := scarce) route (sent 1000) (ByName "mainnet") user user None None None (sent 985)).
  exists tt, tt. vm_compute. reflexivity.
Defined.

(** Unlike its comment says, the last check of the balances leaves the token fee out: a transfer
    passes whose amount, fee and gas are together more than the balance they are all paid from. *)
Example token_fee_not_combined :
  answers (validateTransfer (H2 := scarce) route (sent 990) (ByName "mainnet") user user None None None) None /\
  answers (getBalance (H2 := scarce) route base_itoken user) (sent 1000) /\
  exists fees,
    answers (estimateTransferRemoteFees (H2 := scarce) route (sent 990) (ByName "mainnet") user user None None None)
      fees /\
    1000 < 990 + fungible_fee base_itoken (f_localQuote fees) +
      fungible_fee base_itoken (f_interchainQuote fees) +
      default 0 (fungible_fee base_itoken <$> f_tokenFeeQuote fees).
Proof.
  split; [exists tt, tt; vm_compute; reflexivity|]. split; [exists tt, tt; vm_compute; reflexivity|].
  eexists. split; [exists tt, tt; vm_compute; reflexivity|]. vm_compute. reflexivity.
Qed.

End WarpSample.
