(* ===== verification/KeyFunder.v ===== *)
(** The key funder, src/typescript/keyfunder: its configuration and core/KeyFunder.ts. What it asks
    of chains is data, so that a chain's funding is a program that waits for answers, the funding of
    all chains their interleaving, and a timeout a step that can come at any moment. *)
From Stdlib Require Import ZArith QArith Qround Lia String Ascii.
From stdpp Require Import base tactics list strings.
From S2P Require Import Prelude JsMap Addresses Amount AddressEq JsNumber.

#[local] Open Scope Z_scope.

(** ** Configuration, config/types.ts *)

Record IgpConfig : Type := { igp_address : string; claimThreshold : string }.
Record SweepConfig : Type := {
  enabled : bool; sweep_address : option string; targetMultiplier : Q; triggerMultiplier : Q;
  sweep_threshold : option string
}.
Record ChainConfig : Type := {
  balances : option (list (string * string)); igp : option IgpConfig; sweep : option SweepConfig
}.
Record KeyFunderConfig : Type := {
  roles : list (string * string); chains : list (string * ChainConfig); chainsToSkip : option (list string)
}.

(** The numbers of the schema, as doubles. *)
Definition MIN_TRIGGER_DIFFERENCE : Q := fl (5 # 100).
Definition MIN_TARGET : Q := fl (105 # 100).
Definition MIN_TRIGGER : Q := fl (11 # 10).
Definition MAX_TARGET : Q := 10.
Definition MAX_TRIGGER : Q := 200.

(** [/^0x[a-fA-F0-9]{40}$/]. *)
Definition AddressSchema (s : string) : bool := isAddressEvm s.

(** The digits a string starts with, and the rest. *)
Fixpoint span_digits (s : string) : nat * string :=
  match s with
  | String c s' => if is_digit c then let '(n, rest) := span_digits s' in (S n, rest) else (O, s)
  | EmptyString => (O, EmptyString)
  end.

(** [/^(?:\d+)(?:\.\d{1,18})?$/]. *)
Definition BalanceStringSchema (s : string) : bool :=
  let '(n, rest) := span_digits s in
  (0 <? n)%nat &&
  match rest with
  | EmptyString => true
  | String "." fraction =>
      let '(m, rest) := span_digits fraction in
      (1 <=? m)%nat && (m <=? 18)%nat && String.eqb rest ""
  | _ => false
  end.

Definition opt_all {A} (p : A -> bool) (o : option A) : bool := match o with Some a => p a | None => true end.
Definition given_text (o : option string) : bool := match o with Some s => negb (String.eqb s "") | None => false end.

Definition SweepConfigSchema (c : SweepConfig) : bool :=
  opt_all AddressSchema (sweep_address c) && opt_all BalanceStringSchema (sweep_threshold c) &&
  Qle_bool MIN_TARGET (targetMultiplier c) && Qle_bool (targetMultiplier c) MAX_TARGET &&
  Qle_bool MIN_TRIGGER (triggerMultiplier c) && Qle_bool (triggerMultiplier c) MAX_TRIGGER &&
  (negb (enabled c) || given_text (sweep_address c)) &&
  (negb (enabled c) || given_text (sweep_threshold c)) &&
  (negb (enabled c) ||
   Qle_bool (js_add (targetMultiplier c) MIN_TRIGGER_DIFFERENCE) (triggerMultiplier c)).

Definition ChainConfigSchema (c : ChainConfig) : bool :=
  opt_all (fun b => forallb BalanceStringSchema (map_values b)) (balances c) &&
  opt_all (fun i => AddressSchema (igp_address i) && BalanceStringSchema (claimThreshold i)) (igp c) &&
  opt_all SweepConfigSchema (sweep c).

Definition KeyFunderConfigSchema (c : KeyFunderConfig) : bool :=
  forallb AddressSchema (map_values (roles c)) &&
  forallb ChainConfigSchema (map_values (chains c)) &&
  forallb (fun chainConfig =>
    opt_all (fun b => forallb (fun roleName => map_has roleName (roles c)) (map_keys b)) (balances chainConfig))
    (map_values (chains c)).

(** [KeyFunderConfigLoader]. *)
Definition fromObject (c : KeyFunderConfig) : result KeyFunderConfig :=
  if KeyFunderConfigSchema c then Ok c else Throw (Error "Invalid keyfunder config").
Definition getConfiguredChains (c : KeyFunderConfig) : list string := map_keys (chains c).
Definition getChainsToProcess (c : KeyFunderConfig) : list string :=
  filter (fun chain => chain ∉ default [] (chainsToSkip c)) (getConfiguredChains c).

(** ** Programs that ask a chain *)

Inductive Call : Type :=
| GetSignerAddress
| GetSignerBalance
| GetBalance (address : string)
| PopulateClaim
| SendClaim
| SendTransaction (to : string) (value : Z).

(** A program that waits for the answers to its calls: numbers, or what they throw. *)
Inductive prog (A : Type) : Type :=
| Return (a : A)
| Throws (e : exn)
| Ask (c : Call) (k : result Z -> prog A).
Arguments Return {A} _.
Arguments Throws {A} _.
Arguments Ask {A} _ _.

Fixpoint prog_then {A B} (p : prog A) (f : A -> prog B) : prog B :=
  match p with
  | Return a => f a
  | Throws e => Throws e
  | Ask c k => Ask c (fun r => prog_then (k r) f)
  end.

#[export] Instance prog_ret : MRet prog := fun _ a => Return a.
#[export] Instance prog_bind : MBind prog := fun _ _ f p => prog_then p f.

Definition of_result {A} (r : result A) : prog A := match r with Ok a => Return a | Throw e => Throws e end.

(** [await] of a call. *)
Definition ask (c : Call) : prog Z := Ask c of_result.

(** [try { p } catch {}]. *)
Fixpoint ignoring (p : prog unit) : prog unit :=
  match p with
  | Return _ | Throws _ => Return ()
  | Ask c k => Ask c (fun r => ignoring (k r))
  end.

(** [for (const x of xs) await f(x)]. *)
Definition for_all {A} (f : A -> prog unit) (xs : list A) : prog unit :=
  foldr (fun x rest => _ ← f x; rest) (Return ()) xs.

(** ** Amounts *)

(** [BigNumber] of ethers divides rounding towards zero. *)
Definition calculateFundingAmount (currentBalance desiredBalance : Z) : Z :=
  if desiredBalance <=? currentBalance then 0
  else
    let delta := desiredBalance - currentBalance in
    let minDelta := Z.quot (desiredBalance * 6) 10 in
    if minDelta <? delta then delta else 0.

Definition calculateMultipliedBalance (base : Z) (multiplier : Q) : Z :=
  Z.quot (base * Qfloor (js_mul multiplier 100)) 100.

(** ** KeyFunder.ts *)

Record ResolvedKeyConfig : Type := { key_address : string; key_role : string; desiredBalance : string }.

(** [KeyFunderOptions]; the paymasters are there, or not. *)
Record KeyFunderOptions : Type := { skipIgpClaim : bool; has_igp : bool }.

(** Chains: the decimals of native tokens, if a chain and its token are known; whether a signer is;
    and the addresses of paymasters. *)
Class KeyChains : Type := {
  kc_nativeToken : string -> result (option Z);
  kc_getSigner : string -> result unit;
  kc_getProvider : string -> result unit;
  kc_paymaster : string -> result string
}.

Section funder.
Context `{BigNumberJs} `{KeyChains} (config : KeyFunderConfig) (options : KeyFunderOptions).

Definition getNativeDecimals (chain : string) : result Z := default 18 <$> kc_nativeToken chain.

Definition recordFunderBalance (chain : string) : prog unit :=
  _ ← of_result (kc_getSigner chain);
  _ ← ask GetSignerAddress;
  _ ← ask GetSignerBalance;
  _ ← of_result (getNativeDecimals chain);
  Return ().

Definition resolveKeysForChain (chainConfig : ChainConfig) : list ResolvedKeyConfig :=
  omap (fun '(roleName, desired) =>
    address ← map_get roleName (roles config);
    Some {| key_address := address; key_role := roleName; desiredBalance := desired |})
    (default [] (balances chainConfig)).

Definition claimFromIgp (chain : string) (chainConfig : ChainConfig) : prog unit :=
  match igp chainConfig with
  | None => Return ()
  | Some igpConfig =>
      if negb (has_igp options) then Return ()
      else
        _ ← of_result (kc_getProvider chain);
        paymaster ← of_result (kc_paymaster chain);
        decimals ← of_result (getNativeDecimals chain);
        igpBalance ← ask (GetBalance paymaster);
        threshold ← of_result (parse_units (claimThreshold igpConfig) decimals);
        if threshold <? igpBalance then _ ← ask PopulateClaim; _ ← ask SendClaim; Return ()
        else Return ()
  end.

Definition fundKey (chain : string) (key : ResolvedKeyConfig) : prog unit :=
  decimals ← of_result (getNativeDecimals chain);
  desired ← of_result (parse_units (desiredBalance key) decimals);
  _ ← of_result (kc_getProvider chain);
  currentBalance ← ask (GetBalance (key_address key));
  let fundingAmount := calculateFundingAmount currentBalance desired in
  if fundingAmount =? 0 then Return ()
  else
    _ ← ask GetSignerAddress;
    _ ← of_result (kc_getSigner chain);
    funderBalance ← ask GetSignerBalance;
    if funderBalance <? fundingAmount then Throws (Error ("Insufficient funder balance on " +:+ chain))
    else _ ← ask (SendTransaction (key_address key) fundingAmount); Return ().

Definition fundKeys (chain : string) (keys : list ResolvedKeyConfig) : prog unit := for_all (fundKey chain) keys.

Definition sweepExcessFunds (chain : string) (chainConfig : ChainConfig) : prog unit :=
  match sweep chainConfig with
  | None => Return ()
  | Some sweepConfig =>
      if negb (enabled sweepConfig) then Return ()
      else
        match sweep_address sweepConfig, sweep_threshold sweepConfig with
        | Some (String _ _ as address), Some (String _ _ as text) =>
            decimals ← of_result (getNativeDecimals chain);
            threshold ← of_result (parse_units text decimals);
            let targetBalance := calculateMultipliedBalance threshold (targetMultiplier sweepConfig) in
            let triggerThreshold := calculateMultipliedBalance threshold (triggerMultiplier sweepConfig) in
            _ ← of_result (kc_getSigner chain);
            funderBalance ← ask GetSignerBalance;
            if triggerThreshold <? funderBalance then
              _ ← ask (SendTransaction address (funderBalance - targetBalance)); Return ()
            else Return ()
        | _, _ => Throws (Error ("Sweep config is invalid for chain " +:+ chain))
        end
  end.

Definition fundChain (chain : string) : prog unit :=
  match map_get chain (chains config) with
  | None => Return ()
  | Some chainConfig =>
      _ ← (if negb (skipIgpClaim options) then claimFromIgp chain chainConfig else Return ());
      _ ← ignoring (recordFunderBalance chain);
      _ ← fundKeys chain (resolveKeysForChain chainConfig);
      sweepExcessFunds chain chainConfig
  end.

(** ** All chains at once *)

(** One chain: what is left of its program, what was asked and answered, and how the race between
    it and its timeout ended, if it did. *)
Record Funding : Type := {
  rest : prog unit; asked : list (Call * result Z); outcome : option (result unit)
}.

Definition start (chain : string) : Funding := {| rest := fundChain chain; asked := []; outcome := None |}.

Definition fundAllChains_start : list (string * Funding) :=
  (fun chain => (chain, start chain)) <$> getChainsToProcess config.

(** One step of one chain: an answer, the end of its program, or the timeout, after which the
    program goes on. *)
Inductive chain_step (chain : string) : Funding -> Funding -> Prop :=
| step_answer c k a log o :
    chain_step chain {| rest := Ask c k; asked := log; outcome := o |}
      {| rest := k a; asked := log ++ [(c, a)]; outcome := o |}
| step_return log :
    chain_step chain {| rest := Return (); asked := log; outcome := None |}
      {| rest := Return (); asked := log; outcome := Some (Ok ()) |}
| step_throws e log :
    chain_step chain {| rest := Throws e; asked := log; outcome := None |}
      {| rest := Throws e; asked := log; outcome := Some (Throw e) |}
| step_timeout p log :
    chain_step chain {| rest := p; asked := log; outcome := None |}
      {| rest := p; asked := log;
         outcome := Some (Throw (Error ("Funding timed out for chain " +:+ chain))) |}.

Inductive funder_step : list (string * Funding) -> list (string * Funding) -> Prop :=
| funder_step_chain before chain f f' after :
    chain_step chain f f' -> funder_step (before ++ (chain, f) :: after) (before ++ (chain, f') :: after).

(** How [fundAllChains] ends, when every race has ended. *)
Definition failed (f : Funding) : bool := match outcome f with Some (Throw _) => true | _ => false end.
Definition fundAllChains_end (s : list (string * Funding)) : option (result unit) :=
  if forallb (fun cf => bool_decide (is_Some (outcome (snd cf)))) s then
    Some (match filter (fun cf => failed (snd cf) = true) s with
          | [] => Ok ()
          | failures => Throw (Error (String.concat ", " (failures.*1)))
          end)
  else None.

End funder.
