(* ===== verification/KeyFunderFacts.v ===== *)
(** What the key funder does to the funder's balances, whatever chains answer and whenever they
    time out: each transfer is justified by the answers before it, a run without an error has looked
    after every key, and every run ends. A weakest precondition for programs that ask carries the
    first two from one chain to all interleavings. *)
From Stdlib Require Import ZArith QArith Qround Lqa Lia String Ascii.
From stdpp Require Import base tactics list strings sets relations.
From S2P Require Import Prelude JsMap Addresses Amount AddressEq JsNumber.
From S2P Require Import KeyFunder.

#[local] Open Scope Z_scope.

(** ** Programs that ask *)

Definition Log : Type := list (Call * result Z).

(** A program that got from one state to another by the answers in a log. *)
Inductive runs {A} : prog A -> Log -> prog A -> Prop :=
| runs_nil p : runs p [] p
| runs_ask c k a log p : runs (k a) log p -> runs (Ask c k) ((c, a) :: log) p.

Lemma runs_snoc {A} (p : prog A) log c k a : runs p log (Ask c k) -> runs p (log ++ [(c, a)]) (k a).
Proof.
  intros Hr. remember (Ask c k) as q eqn:Hq. revert Hq.
  induction Hr as [|? ? ? ? ? ? IH]; intros ->; cbn; constructor; [constructor|by apply IH].
Qed.

(** Every call the program makes after [log] is allowed by [P], and where it returns [Q] holds. *)
Fixpoint pwp {A} (P : Log -> Call -> Prop) (Q : Log -> A -> Prop) (log : Log) (p : prog A) : Prop :=
  match p with
  | Return a => Q log a
  | Throws _ => True
  | Ask c k => P log c /\ forall a, pwp P Q (log ++ [(c, a)]) (k a)
  end.

Section pwp.
Context (P : Log -> Call -> Prop).

Lemma pwp_mono {A} (Q Q' : Log -> A -> Prop) log p :
  (forall log' a, Q log' a -> Q' log' a) -> pwp P Q log p -> pwp P Q' log p.
Proof.
  intros HQ. revert log. induction p as [a|e|c k IH]; intros log; cbn; [apply HQ|done|].
  intros [Hc Hk]. split; [done|]. intros a. by apply IH.
Qed.

Lemma pwp_bind {A B} Q log (p : prog A) (f : A -> prog B) :
  pwp P (fun log' a => pwp P Q log' (f a)) log p -> pwp P Q log (p ≫= f).
Proof.
  revert log. induction p as [a|e|c k IH]; intros log; [done|done|].
  intros [Hc Hk]. split; [done|]. intros a. apply IH, Hk.
Qed.

Lemma pwp_result {A} (Q : Log -> A -> Prop) log r : (forall a, r = Ok a -> Q log a) -> pwp P Q log (of_result r).
Proof. destruct r; cbn; auto. Qed.

Lemma pwp_call Q log c :
  P log c -> (forall n, Q (log ++ [(c, Ok n)]) n) -> pwp P Q log (ask c).
Proof. intros Hc HQ. split; [done|]. intros [n|e]; cbn; [apply HQ|done]. Qed.

Lemma pwp_ignoring Q log p :
  (forall log', Q log' ()) -> pwp P (fun _ _ => True) log p -> pwp P Q log (ignoring p).
Proof.
  intros HQ. revert log. induction p as [a|e|c k IH]; intros log; cbn; [done|done|].
  intros [Hc Hk]. split; [done|]. intros a. by apply IH.
Qed.

(** What holds of a log and of what is asked after it, is kept. *)
Lemma pwp_runs {A} Q log (p : prog A) new p' : runs p new p' -> pwp P Q log p -> pwp P Q (log ++ new) p'.
Proof.
  intros Hr. revert log. induction Hr as [|c k a new p Hr IH]; intros log; [by rewrite app_nil_r|].
  intros [_ Hk]. replace (log ++ (c, a) :: new) with ((log ++ [(c, a)]) ++ new) by (by rewrite <- app_assoc).
  apply IH, Hk.
Qed.

Lemma pwp_asked {A} Q log (p : prog A) new p' before c a after :
  runs p new p' -> pwp P Q log p -> new = before ++ (c, a) :: after -> P (log ++ before) c.
Proof.
  intros Hr. revert log before. induction Hr as [|c' k a' new p Hr IH]; intros log before Hw E.
  - by destruct before.
  - destruct Hw as [Hc Hk]. destruct before as [|[c0 a0] before]; cbn in E; injection E as -> -> E; [by rewrite app_nil_r|].
    replace (log ++ (c0, a0) :: before) with ((log ++ [(c0, a0)]) ++ before) by (by rewrite <- app_assoc).
    by eapply IH.
Qed.

(** A loop, by an invariant on the items done. *)
Lemma pwp_for_all {A} (I : list A -> Log -> Prop) (f : A -> prog unit) xs log :
  I [] log ->
  (forall done x todo log, xs = done ++ x :: todo -> I done log ->
     pwp P (fun log' _ => I (done ++ [x]) log') log (f x)) ->
  pwp P (fun log' _ => I xs log') log (for_all f xs).
Proof.
  intros H0 Hstep.
  enough (forall todo done log, xs = done ++ todo -> I done log ->
    pwp P (fun log' _ => I xs log') log (for_all f todo)) as H by exact (H xs [] log eq_refl H0).
  clear H0 log. induction todo as [|x todo IH]; intros done log Hxs HI; cbn.
  - rewrite app_nil_r in Hxs. by subst.
  - apply pwp_bind. eapply pwp_mono; [|by apply (Hstep done x todo)].
    intros log' u HI'. apply (IH (done ++ [x])); [rewrite <- app_assoc; exact Hxs|exact HI'].
Qed.

End pwp.

(** The longest a program can go on asking. *)
Fixpoint asks_at_most {A} (n : nat) (p : prog A) {struct p} : Prop :=
  match p with
  | Return _ | Throws _ => True
  | Ask c k => match n with O => False | S n' => forall a, asks_at_most n' (k a) end
  end.

Lemma asks_weaken {A} n m (p : prog A) : (n <= m)%nat -> asks_at_most n p -> asks_at_most m p.
Proof.
  revert n m. induction p as [a|e|c k IH]; intros [|n] [|m] Hle Hp; try done; [lia|].
  intros a. eapply IH, Hp. lia.
Qed.

Lemma asks_bind {A B} n m (p : prog A) (f : A -> prog B) :
  asks_at_most n p -> (forall a, asks_at_most m (f a)) -> asks_at_most (n + m) (p ≫= f).
Proof.
  intros Hp Hf. revert n Hp. induction p as [a|e|c k IH]; intros n Hp.
  - eapply asks_weaken, Hf. lia.
  - exact I.
  - destruct n as [|n]; [done|]. intros a. apply IH, Hp.
Qed.

Lemma asks_result {A} n (r : result A) : asks_at_most n (of_result r).
Proof. by destruct r. Qed.

Lemma asks_call c : asks_at_most 1 (ask c).
Proof. intros r. apply asks_result. Qed.

Lemma asks_ignoring n p : asks_at_most n p -> asks_at_most n (ignoring p).
Proof.
  revert n. induction p as [a|e|c k IH]; intros n; try done.
  destruct n; [done|]. intros Hp r. apply IH, Hp.
Qed.

Lemma asks_runs {A} n (p : prog A) log p' : runs p log p' -> asks_at_most n p ->
  asks_at_most (n - length log) p' /\ (length log <= n)%nat.
Proof.
  intros Hr. revert n. induction Hr as [p|c k a log p Hr IH]; intros n Hp.
  - cbn. rewrite Nat.sub_0_r. split; [done|lia].
  - destruct n as [|n]; [done|]. destruct (IH n (Hp a)). cbn. split; [done|lia].
Qed.

(** Counts the calls of a program by its text. *)
Ltac asks_step :=
  cbv zeta;
  lazymatch goal with
  | |- asks_at_most _ (of_result _ ≫= _) => apply (asks_bind 0); [apply asks_result|intros ?]
  | |- asks_at_most (S ?n) (ask _ ≫= _) => apply (asks_bind 1 n); [apply asks_call|intros ?]
  | |- asks_at_most _ (Return _) => exact I
  | |- asks_at_most _ (Throws _) => exact I
  | |- asks_at_most _ (match ?x with _ => _ end) => destruct x
  end.

(** ** Amounts *)

(** A valid sweep leaves at least the threshold, and is only started above what it leaves. *)
Lemma floor_at_least n x : (inject_Z n <= x)%Q -> n <= Qfloor x.
Proof. intros Hx. rewrite <- (Qfloor_Z n). by apply Qfloor_resp_le. Qed.

Lemma sweep_multipliers c : SweepConfigSchema c = true -> enabled c = true ->
  100 <= Qfloor (js_mul (targetMultiplier c) 100) <= Qfloor (js_mul (triggerMultiplier c) 100).
Proof.
  unfold SweepConfigSchema. intros Hc He. rewrite He in Hc. cbn [negb orb] in Hc.
  rewrite !andb_true_iff, !Qle_bool_iff in Hc.
  destruct Hc as [[[[[[[[_ _] Hmin] Hmax] _] _] _] _] Hdiff].
  set (g := targetMultiplier c) in *. set (t := triggerMultiplier c) in *.
  pose proof (fl_error (105 # 100) ltac:(reflexivity)) as [H105 _]. fold MIN_TARGET in H105.
  pose proof (fl_error (5 # 100) ltac:(reflexivity)) as [H5 _]. fold MIN_TRIGGER_DIFFERENCE in H5.
  change (1 # 2 ^ 52)%Q with (1 # 4503599627370496)%Q in *. unfold MAX_TARGET in Hmax.
  assert (1 <= MIN_TARGET)%Q as Hone by lra. assert (0 < g)%Q as Hg by lra.
  unfold js_add in Hdiff.
  pose proof (fl_error (g + MIN_TRIGGER_DIFFERENCE) ltac:(lra)) as [Hsum _].
  change (1 # 2 ^ 52)%Q with (1 # 4503599627370496)%Q in *.
  unfold js_mul. pose proof (fl_error (g * 100) ltac:(lra)) as [Hg1 Hg2].
  pose proof (fl_error (t * 100) ltac:(lra)) as [Ht1 _].
  change (1 # 2 ^ 52)%Q with (1 # 4503599627370496)%Q in *.
  split; [apply floor_at_least; change (inject_Z 100) with (100 # 1)%Q; lra|]. apply Qfloor_resp_le. lra.
Qed.

Lemma sweep_amounts c t : SweepConfigSchema c = true -> enabled c = true -> 0 <= t ->
  t <= calculateMultipliedBalance t (targetMultiplier c) <= calculateMultipliedBalance t (triggerMultiplier c).
Proof.
  intros Hc He Ht. destruct (sweep_multipliers c Hc He) as [H1 H2]. unfold calculateMultipliedBalance.
  rewrite !Z.quot_div_nonneg by nia. split.
  - apply Z.div_le_lower_bound; [done|]. nia.
  - apply Z.div_le_mono; [done|]. nia.
Qed.

(** ** What a transfer needs *)

(** [parseUnits] of a balance string is not negative. *)
Class UnitLaws `{BigNumberJs} : Prop := {
  parse_units_nonneg s decimals n : BalanceStringSchema s = true -> parse_units s decimals = Ok n -> 0 <= n
}.

Section funder.
Context `{UnitLaws} `{KeyChains} (config : KeyFunderConfig) (options : KeyFunderOptions).

Definition only_reads (c : Call) : Prop :=
  match c with SendClaim | SendTransaction _ _ => False | _ => True end.

(** What the answers before a call have to be. *)
Inductive justified (chain : string) (cfg : ChainConfig) (log : Log) : Call -> Prop :=
| reading c : only_reads c -> justified chain cfg log c
| claiming i paymaster decimals threshold balance tx before :
    skipIgpClaim options = false -> igp cfg = Some i -> kc_paymaster chain = Ok paymaster ->
    getNativeDecimals chain = Ok decimals -> parse_units (claimThreshold i) decimals = Ok threshold ->
    log = before ++ [(GetBalance paymaster, Ok balance); (PopulateClaim, Ok tx)] ->
    threshold < balance ->
    justified chain cfg log SendClaim
| funding key decimals desired current signer funder before amount :
    key ∈ resolveKeysForChain config cfg -> getNativeDecimals chain = Ok decimals ->
    parse_units (desiredBalance key) decimals = Ok desired ->
    log = before ++ [(GetBalance (key_address key), Ok current); (GetSignerAddress, Ok signer);
                     (GetSignerBalance, Ok funder)] ->
    current + amount = desired -> 0 < amount -> Z.quot (desired * 6) 10 < amount -> amount <= funder ->
    justified chain cfg log (SendTransaction (key_address key) amount)
| sweeping s address text decimals threshold funder before amount :
    sweep cfg = Some s -> enabled s = true -> sweep_address s = Some address -> sweep_threshold s = Some text ->
    getNativeDecimals chain = Ok decimals -> parse_units text decimals = Ok threshold ->
    log = before ++ [(GetSignerBalance, Ok funder)] ->
    calculateMultipliedBalance threshold (triggerMultiplier s) < funder ->
    funder - amount = calculateMultipliedBalance threshold (targetMultiplier s) ->
    0 < amount -> threshold <= funder - amount ->
    justified chain cfg log (SendTransaction address amount).

(** A key that has been looked after: its balance was high enough, or it was sent the difference. *)
Definition looked_after (chain : string) (log : Log) (key : ResolvedKeyConfig) : Prop :=
  exists decimals desired current,
    getNativeDecimals chain = Ok decimals /\ parse_units (desiredBalance key) decimals = Ok desired /\
    (GetBalance (key_address key), Ok current) ∈ log /\
    let amount := calculateFundingAmount current desired in
    amount = 0 \/ exists tx, (SendTransaction (key_address key) amount, Ok tx) ∈ log.

Lemma looked_after_more chain log more key : looked_after chain log key -> looked_after chain (log ++ more) key.
Proof.
  intros (d & w & cur & Hd & Hw & Hin & Hs). exists d, w, cur. split_and!; [done|done|set_solver|].
  cbv zeta in *. destruct Hs as [Hz|[tx Htx]]; [by left|right; exists tx; set_solver].
Qed.

Context (chain : string) (cfg : ChainConfig).
#[local] Notation ok := (justified chain cfg).

Lemma read_ok log c : only_reads c -> ok log c.
Proof. apply reading. Qed.
#[local] Hint Resolve read_ok : core.

(** A reading call, whose answer is [n]. *)
Ltac reads n := apply pwp_bind, pwp_call; [by apply reading|intros n].
Ltac needs a Ha := apply pwp_bind, pwp_result; intros a Ha.

Lemma calculateFundingAmount_spec current desired amount :
  calculateFundingAmount current desired = amount ->
  amount = 0 \/ (current + amount = desired /\ 0 < amount /\ Z.quot (desired * 6) 10 < amount).
Proof.
  unfold calculateFundingAmount. destruct (Z.leb_spec desired current); [by left|].
  destruct (Z.ltb_spec (Z.quot (desired * 6) 10) (desired - current)); intros <-; [right; lia|by left].
Qed.

Lemma fundKey_wp log key (Q : Log -> unit -> Prop) :
  key ∈ resolveKeysForChain config cfg ->
  (forall more, looked_after chain (log ++ more) key -> Q (log ++ more) ()) ->
  pwp ok Q log (fundKey chain key).
Proof.
  intros Hkey HQ. unfold fundKey. needs decimals Hd. needs desired Hw. needs u Hu. reads current. cbv zeta.
  destruct (calculateFundingAmount_spec current desired _ eq_refl) as [Hz|(Heq & Hpos & Hmin)].
  - rewrite Hz, Z.eqb_refl. apply HQ. exists decimals, desired, current. split_and!; [done|done|set_solver|by left].
  - set (amount := calculateFundingAmount current desired) in *.
    rewrite (proj2 (Z.eqb_neq amount 0)) by lia. reads signer. needs u' Hs. reads funder.
    destruct (Z.ltb_spec funder amount); [exact I|]. apply pwp_bind, pwp_call.
    + apply (funding _ _ _ key decimals desired current signer funder log); try done.
      by rewrite <- !app_assoc.
    + intros tx. rewrite <- !app_assoc. apply HQ. exists decimals, desired, current.
      split_and!; [done|done|set_solver|]. right. exists tx. set_solver.
Qed.

Lemma fundKeys_wp log :
  pwp ok (fun log' _ => forall key, key ∈ resolveKeysForChain config cfg -> looked_after chain log' key) log
    (fundKeys chain (resolveKeysForChain config cfg)).
Proof.
  apply (pwp_for_all ok (fun todo log' => forall key, key ∈ todo -> looked_after chain log' key)); [set_solver|].
  intros before key todo log' Hkeys HI. apply fundKey_wp; [rewrite Hkeys; set_solver|].
  intros more Hmore key' [Hin|Hin]%elem_of_app; [by apply looked_after_more, HI|].
  by apply list_elem_of_singleton in Hin as ->.
Qed.

Lemma claim_wp log : skipIgpClaim options = false -> pwp ok (fun _ _ => True) log (claimFromIgp options chain cfg).
Proof.
  intros Hskip. unfold claimFromIgp. destruct (igp cfg) as [i|] eqn:Hi; [|done]. destruct (negb _); [done|].
  needs u Hu. needs paymaster Hp. needs decimals Hd. reads balance. needs threshold Ht.
  destruct (Z.ltb_spec threshold balance); [|done]. reads tx. apply pwp_bind, pwp_call; [|done].
  apply (claiming _ _ _ i paymaster decimals threshold balance tx log); try done. by rewrite <- app_assoc.
Qed.

Lemma sweep_wp log : ChainConfigSchema cfg = true -> pwp ok (fun log' _ => exists more, log' = log ++ more) log
  (sweepExcessFunds chain cfg).
Proof.
  unfold ChainConfigSchema. rewrite !andb_true_iff. intros [_ Hs]. unfold sweepExcessFunds.
  destruct (sweep cfg) as [s|] eqn:Hsweep; [|exists []; by rewrite app_nil_r]. cbn in Hs.
  destruct (enabled s) eqn:He; cbn [negb]; [|exists []; by rewrite app_nil_r].
  destruct (sweep_address s) as [[|a0 address]|] eqn:Ha; [exact I| |exact I].
  destruct (sweep_threshold s) as [[|t0 text]|] eqn:Ht; [exact I| |exact I].
  needs decimals Hd. needs threshold Hth. needs u Hu. reads funder.
  assert (0 <= threshold) as Hnn.
  { eapply parse_units_nonneg; [|exact Hth]. unfold SweepConfigSchema in Hs. rewrite !andb_true_iff, Ht in Hs. apply Hs. }
  destruct (sweep_amounts s threshold Hs He Hnn) as [Hleave Htrig].
  destruct (Z.ltb_spec (calculateMultipliedBalance threshold (triggerMultiplier s)) funder) as [Hlt|].
  - apply pwp_bind, pwp_call;
      [apply (sweeping _ _ _ s (String a0 address) (String t0 text) decimals threshold funder log); try done; lia|].
     intros tx. eexists. by rewrite <- app_assoc.
  - eexists. done.
Qed.

(** The funding of a chain: every call is justified, and where it returns every key of the chain
    has been looked after. *)
Lemma fundChain_wp log :
  map_get chain (chains config) = Some cfg -> ChainConfigSchema cfg = true ->
  pwp ok (fun log' _ => forall key, key ∈ resolveKeysForChain config cfg -> looked_after chain log' key) log
    (fundChain config options chain).
Proof.
  intros Hcfg Hvalid. unfold fundChain. rewrite Hcfg. apply pwp_bind.
  assert (forall log', pwp ok (fun log'' _ => forall key, key ∈ resolveKeysForChain config cfg ->
    looked_after chain log'' key) log'
    (_ ← ignoring (recordFunderBalance chain); _ ← fundKeys chain (resolveKeysForChain config cfg);
     sweepExcessFunds chain cfg)) as Hrest.
  { intros log'. apply pwp_bind, pwp_ignoring.
    - intros log''. apply pwp_bind. eapply pwp_mono; [|apply fundKeys_wp]. intros log3 [] Hkeys.
      eapply pwp_mono; [|by apply sweep_wp]. intros log4 [] [more ->] key Hkey. by apply looked_after_more, Hkeys.
    - unfold recordFunderBalance. needs u Hu. reads a. reads b. needs d Hd. done. }
  destruct (skipIgpClaim options) eqn:Hskip; cbn [negb]; [apply Hrest|].
  eapply pwp_mono; [|by apply claim_wp]. intros log' [] _. apply Hrest.
Qed.

(** At most seven calls besides four for each key. *)
Lemma fundKey_asks key : asks_at_most 4 (fundKey chain key).
Proof. unfold fundKey. repeat asks_step. Qed.

Lemma fundKeys_asks keys : asks_at_most (4 * length keys) (fundKeys chain keys).
Proof.
  induction keys as [|key keys IH]; [exact I|]. unfold fundKeys, for_all. cbn [foldr].
  replace (4 * length (key :: keys))%nat with (4 + 4 * length keys)%nat by (cbn; lia).
  apply asks_bind; [apply fundKey_asks|intros _; exact IH].
Qed.

Lemma resolved_length : (length (resolveKeysForChain config cfg) <= length (default [] (balances cfg)))%nat.
Proof.
  unfold resolveKeysForChain. generalize (default [] (balances cfg)). induction l as [|[r d] l IH]; cbn; [lia|].
  destruct (map_get r (roles config)); cbn; lia.
Qed.

Lemma fundChain_asks :
  map_get chain (chains config) = Some cfg ->
  asks_at_most (7 + 4 * length (default [] (balances cfg))) (fundChain config options chain).
Proof.
  intros Hcfg. unfold fundChain. rewrite Hcfg.
  replace (7 + 4 * length (default [] (balances cfg)))%nat
    with (3 + (2 + (4 * length (default [] (balances cfg)) + 2)))%nat by lia.
  apply asks_bind; [|intros _; apply asks_bind; [|intros _; apply asks_bind; [|intros _]]].
  - unfold claimFromIgp. repeat asks_step.
  - apply asks_ignoring. unfold recordFunderBalance. repeat asks_step.
  - eapply asks_weaken, fundKeys_asks. apply Nat.mul_le_mono_l, resolved_length.
  - unfold sweepExcessFunds. repeat asks_step.
Qed.

End funder.

(** ** All chains *)
Section all_chains.
Context `{UnitLaws} `{KeyChains} (config : KeyFunderConfig) (options : KeyFunderOptions).

Definition reachable (s : list (string * Funding)) : Prop :=
  rtc funder_step (fundAllChains_start config options) s.

(** One chain on its own: its program got where it is by the answers it had, and its race has the
    end of the program, or the timeout. *)
Definition consistent (cf : string * Funding) : Prop :=
  runs (fundChain config options (fst cf)) (asked (snd cf)) (rest (snd cf)) /\
  (outcome (snd cf) = Some (Ok ()) -> rest (snd cf) = Return ()).

Lemma consistent_step chain f f' : chain_step chain f f' -> consistent (chain, f) -> consistent (chain, f').
Proof.
  unfold consistent. intros [c k a log o|log|e log|p log]; cbn; intros [Hr Ho]; (split; [try done|by try intros ?%Ho]).
  by apply runs_snoc.
Qed.

Lemma reachable_consistent s : reachable s ->
  s.*1 = getChainsToProcess config /\ Forall consistent s.
Proof.
  revert s. apply (rtc_ind_r (fun s => s.*1 = getChainsToProcess config /\ Forall consistent s)).
  - unfold fundAllChains_start. split.
    + rewrite <- list_fmap_compose. apply list_fmap_id.
    + apply Forall_fmap, Forall_forall. intros chain _. split; [constructor|done].
  - intros s s' _ Hstep [Hkeys IH]. destruct Hstep as [before chain f f' after Hstep].
    apply Forall_app in IH as [Hb [Hf Ha]%Forall_cons]. split.
    + rewrite <- Hkeys. by rewrite !fmap_app, !fmap_cons.
    + apply Forall_app. split; [done|]. constructor; [by eapply consistent_step|done].
Qed.

Lemma processed_chain chain : chain ∈ getChainsToProcess config ->
  exists cfg, map_get chain (chains config) = Some cfg /\ chain ∉ default [] (chainsToSkip config).
Proof.
  unfold getChainsToProcess, getConfiguredChains. intros [Hskip Hin]%list_elem_of_filter.
  destruct (map_get chain (chains config)) as [cfg|] eqn:E; [by exists cfg|].
  by apply map_get_None in E.
Qed.

Lemma valid_chain chain cfg : KeyFunderConfigSchema config = true ->
  map_get chain (chains config) = Some cfg -> ChainConfigSchema cfg = true.
Proof.
  unfold KeyFunderConfigSchema. rewrite !andb_true_iff. intros [[_ Hc] _] Hget%map_get_elem.
  rewrite forallb_forall in Hc. apply Hc, list_elem_of_In. unfold map_values. apply list_elem_of_fmap.
  by exists (chain, cfg).
Qed.

Lemma reachable_chain s chain f : KeyFunderConfigSchema config = true -> reachable s -> (chain, f) ∈ s ->
  exists cfg, map_get chain (chains config) = Some cfg /\ chain ∉ default [] (chainsToSkip config) /\
    ChainConfigSchema cfg = true /\ consistent (chain, f).
Proof.
  intros Hv [Hkeys Hall]%reachable_consistent Hin. rewrite Forall_forall in Hall.
  assert (chain ∈ getChainsToProcess config) as Hc.
  { rewrite <- Hkeys. apply list_elem_of_fmap. by exists (chain, f). }
  destruct (processed_chain _ Hc) as (cfg & Hcfg & Hskip). exists cfg.
  split_and!; [done|done|by eapply valid_chain|by apply Hall].
Qed.

End all_chains.

(** C37: whatever the chains answer, in whatever order, and whenever they time out, each transfer the
    key funder sends is justified by what it was answered just before, with a valid configuration.
    It only acts on configured chains that are not to be skipped. It claims from a paymaster only
    with more than the threshold there; it sends a key exactly what its balance lacks of the desired
    one, more than six tenths of that, and no more than the funder has; and it sweeps a positive
    amount, only above the trigger, and leaves the target, which is at least the threshold. *)
Theorem funder_transfers_justified `{UnitLaws} `{KeyChains} config options s chain f before c a after :
  fromObject config = Ok config -> reachable config options s -> (chain, f) ∈ s ->
  asked f = before ++ (c, a) :: after ->
  exists cfg, map_get chain (chains config) = Some cfg /\ chain ∉ default [] (chainsToSkip config) /\
    justified config options chain cfg before c.
Proof.
  unfold fromObject. destruct (KeyFunderConfigSchema config) eqn:Hv; [|done]. intros _ Hs Hin Hasked.
  destruct (reachable_chain config options s chain f Hv Hs Hin) as (cfg & Hcfg & Hskip & Hvalid & [Hr _]).
  exists cfg. split_and!; [done|done|].
  exact (pwp_asked _ _ [] _ _ _ before c a after Hr (fundChain_wp config options chain cfg [] Hcfg Hvalid) Hasked).
Qed.

(** C38: if [fundAllChains] returns, every key of every chain that was not to be skipped has been
    looked after: its balance was read, and was not more than six tenths short of what is desired,
    or it was sent what was missing. If it throws, some chain failed; and it throws or returns once
    every chain has ended or timed out, each chain making at most seven calls and four for a key. *)
Theorem funder_looks_after_all `{UnitLaws} `{KeyChains} config options s :
  fromObject config = Ok config -> reachable config options s ->
  (fundAllChains_end s = Some (Ok ()) ->
   forall chain cfg key, chain ∈ getChainsToProcess config -> map_get chain (chains config) = Some cfg ->
     key ∈ resolveKeysForChain config cfg ->
     exists f, (chain, f) ∈ s /\ looked_after chain (asked f) key) /\
  (forall e, fundAllChains_end s = Some (Throw e) -> exists chain f, (chain, f) ∈ s /\ failed f = true) /\
  (forall chain f cfg, (chain, f) ∈ s -> map_get chain (chains config) = Some cfg ->
     (length (asked f) <= 7 + 4 * length (default [] (balances cfg)))%nat /\
     (outcome f = None -> exists f', chain_step chain f f' /\ outcome f' <> None)) /\
  (Forall (fun cf => outcome (snd cf) <> None) s -> fundAllChains_end s <> None).
Proof.
  unfold fromObject. destruct (KeyFunderConfigSchema config) eqn:Hv; [|done]. intros _ Hs.
  pose proof (reachable_consistent config options s Hs) as [Hkeys Hall]. unfold fundAllChains_end. split_and!.
  - destruct (forallb _ s) eqn:Hend; [|done]. destruct (filter _ s) as [|] eqn:Hf; [|done]. intros _.
    intros chain cfg key Hc Hcfg Hkey. rewrite <- Hkeys in Hc.
    apply list_elem_of_fmap in Hc as ([chain' f] & -> & Hin). cbn in *. exists f. split; [done|].
    destruct (reachable_chain config options s _ _ Hv Hs Hin) as (cfg' & Hcfg' & _ & Hvalid & Hr & Ho).
    assert (cfg' = cfg) as -> by congruence. cbn in *.
    assert (outcome f = Some (Ok ())) as Hok.
    { rewrite forallb_forall in Hend. specialize (Hend _ (proj1 (list_elem_of_In _ _) Hin)). cbn in Hend.
      apply bool_decide_eq_true in Hend as [[[]|e] He]; [done|].
      assert ((chain', f) ∈ filter (fun cf => failed (snd cf) = true) s) as Hfail
        by (apply list_elem_of_filter; unfold failed; cbn; by rewrite He). rewrite Hf in Hfail. set_solver. }
    rewrite (Ho Hok) in Hr.
    apply (pwp_runs _ _ [] _ _ _ Hr (fundChain_wp config options chain' cfg [] Hcfg Hvalid) key Hkey).
  - intros e. destruct (forallb _ s); [|done]. destruct (filter _ s) as [|[chain f] ?] eqn:Hf; [done|]. intros _.
    exists chain, f. assert ((chain, f) ∈ filter (fun cf => failed (snd cf) = true) s) as Hin
      by (rewrite Hf; set_solver). by apply list_elem_of_filter in Hin as [? ?].
  - intros chain f cfg Hin Hcfg. rewrite Forall_forall in Hall. destruct (Hall _ Hin) as [Hr _]. split.
    + apply (asks_runs _ _ _ _ Hr), fundChain_asks, Hcfg.
    + intros Ho. destruct f as [p log o]. cbn in Ho. subst o. eexists. split; [apply step_timeout|done].
  - intros Hend. destruct (forallb _ s) eqn:E; [done|]. exfalso. apply not_true_iff_false in E. apply E.
    apply forallb_forall. intros cf Hin%list_elem_of_In. rewrite Forall_forall in Hend.
    apply bool_decide_eq_true. specialize (Hend _ Hin). by destruct (outcome (snd cf)).
Qed.

(** ** A chain with one key: inputs of the witnesses *)
Module KeyFunderSample.

(** Whole numbers of tokens. *)
Fixpoint whole (acc : Z) (s : string) : option Z :=
  match s with
  | EmptyString => Some acc
  | String c s' => if is_digit c then whole (10 * acc + (Z.of_nat (nat_of_ascii c) - 48)) s' else None
  end.

#[local] Instance whole_units : BigNumberJs := {|
  bn_value _ := None; bn_to_string _ := ""%string;
  parse_units s decimals :=
    match whole 0 s with Some n => Ok (n * 10 ^ decimals) | None => Throw (Error "invalid decimal value") end
|}.

Lemma whole_nonneg s acc n : 0 <= acc -> whole acc s = Some n -> 0 <= n.
Proof.
  revert acc. induction s as [|c s IH]; intros acc Hacc; cbn; [by intros [= <-]|].
  destruct (is_digit c) eqn:E; [|done]. apply IH. unfold is_digit, ascii_between in E.
  apply andb_true_iff in E as [E%Nat.leb_le _]. change (nat_of_ascii "0") with 48%nat in E. lia.
Qed.

#[local] Instance whole_laws : UnitLaws.
Proof.
  split. intros s decimals n _. cbn. destruct (whole 0 s) as [m|] eqn:E; [|done]. intros [= <-].
  apply whole_nonneg in E; [|done]. pose proof (Z.pow_nonneg 10 decimals ltac:(done)). nia.
Qed.

#[local] Instance one_chain : KeyChains := {|
  kc_nativeToken _ := Ok None; kc_getSigner _ := Ok (); kc_getProvider _ := Ok ();
  kc_paymaster _ := Ok "0x00000000000000000000000000000000000000c1"%string
|}.

Definition relayer : string := "0x00000000000000000000000000000000000000a1".
Definition treasury : string := "0x00000000000000000000000000000000000000b1".
Definition config : KeyFunderConfig := {|
  roles := [("relayer", relayer)]%string;
  chains := [("base", {| balances := Some [("relayer", "2")]; igp := None;
    sweep := Some {| enabled := true; sweep_address := Some treasury; targetMultiplier := 3 # 2;
                     triggerMultiplier := 2; sweep_threshold := Some "4" |} |})]%string;
  chainsToSkip := None
|}.
Definition options : KeyFunderOptions := {| skipIgpClaim := true; has_igp := false |}.

(** Answers a program one call after the other. *)
Fixpoint drive (p : prog unit) (answers : list (result Z)) : Log * prog unit :=
  match p, answers with
  | Ask c k, a :: answers => let '(log, p') := drive (k a) answers in ((c, a) :: log, p')
  | _, _ => ([], p)
  end.

Lemma drive_steps chain answers p log o :
  rtc funder_step [(chain, {| rest := p; asked := log; outcome := o |})]
    [(chain, {| rest := (drive p answers).2; asked := log ++ (drive p answers).1; outcome := o |})].
Proof.
  revert p log. induction answers as [|a answers IH]; intros p log.
  - destruct p; cbn; by rewrite app_nil_r.
  - destruct p as [u|e|c k]; cbn; [by rewrite app_nil_r|by rewrite app_nil_r|].
    specialize (IH (k a) (log ++ [(c, a)])). destruct (drive (k a) answers) as [log' p']. cbn in *.
    rewrite <- app_assoc in IH. eapply rtc_l; [|exact IH].
    apply (funder_step_chain [] chain {| rest := Ask c k; asked := log; outcome := o |} _ []), step_answer.
Qed.

(** The funder holds 20 and pays 2 to a key that has none, of which 18 are left, 6 after a sweep. *)
Definition ether (n : Z) : result Z := Ok (n * 10 ^ 18).
Definition answers : list (result Z) :=
  [Ok 0; ether 20; ether 0; Ok 0; ether 20; Ok 0; ether 18; Ok 0].
Definition log : Log := Eval vm_compute in (drive (fundChain config options "base") answers).1.

Definition funded : Funding := {| rest := Return (); asked := log; outcome := Some (Ok ()) |}.

Lemma funded_reachable : reachable config options [("base"%string, funded)].
Proof.
  eapply rtc_r; [exact (drive_steps "base" answers (fundChain config options "base") [] None)|].
  apply (funder_step_chain [] "base"%string _ _ []). vm_compute. apply step_return.
Qed.

Lemma funder_transfers_justified_witness :
  exists before after,
    log = before ++ (SendTransaction treasury (12 * 10 ^ 18), Ok 0) :: after /\
    exists cfg, map_get "base"%string (chains config) = Some cfg /\
      "base"%string ∉ default [] (chainsToSkip config) /\
      justified config options "base" cfg before (SendTransaction treasury (12 * 10 ^ 18)).
Proof.
  exists (take 7 log), []. split; [vm_compute; reflexivity|].
  apply (funder_transfers_justified config options [("base"%string, funded)] "base"%string funded
    (take 7 log) (SendTransaction treasury (12 * 10 ^ 18)) (Ok 0) []).
  - vm_compute. reflexivity.
  - exact funded_reachable.
  - left.
  - vm_compute. reflexivity.
Defined.

Lemma funder_looks_after_all_witness :
  fundAllChains_end [("base"%string, funded)] = Some (Ok ()) /\
  forall cfg key, map_get "base"%string (chains config) = Some cfg -> key ∈ resolveKeysForChain config cfg ->
    exists f, ("base"%string, f) ∈ [("base"%string, funded)] /\ looked_after "base" (asked f) key.
Proof.
  split; [vm_compute; reflexivity|]. intros cfg key Hcfg Hkey.
  refine (proj1 (funder_looks_after_all config options [("base"%string, funded)] _ funded_reachable) _
    "base"%string cfg key _ Hcfg Hkey); vm_compute; [reflexivity|reflexivity|left].
Defined.

(** A multiplier is a double: a hundred times 1.15 is a little below 115, and its floor is 114, so a
    threshold is multiplied by one hundredth less than the configuration says. *)
Example multiplier_loses_a_hundredth :
  calculateMultipliedBalance (10 ^ 18) (fl (115 # 100)) = 114 * 10 ^ 16.
Proof. vm_compute. reflexivity. Qed.

End KeyFunderSample.
