(* ===== verification/ConfigJson.v ===== *)
(** Normalization and comparison of configuration objects, utils/src/config.ts and [deepEquals] of
    utils/src/objects.ts, on the JSON values that configurations are. *)
From Stdlib Require Import ZArith Lia String Ascii Sorted.
From stdpp Require Import base tactics list strings pretty sorting.
From S2P Require Import Prelude JsMap Messages.

#[local] Open Scope Z_scope.

(** No configuration has a [null]; a field that is [undefined] is absent. *)
Inductive Json : Type :=
| JNumber (n : Z)
| JBool (b : bool)
| JText (s : string)
| JArray (items : list Json)
| JFields (fields : list (string * Json)).

(** ** Sorting *)

(** The order of [<] on strings. *)
Definition text_cmp (a b : string) : Z :=
  match String.compare a b with Lt => -1 | Eq => 0 | Gt => 1 end.

(** [String(v)]. *)
Fixpoint js_text (v : Json) : string :=
  match v with
  | JNumber n => pretty n
  | JBool b => if b then "true" else "false"
  | JText s => s
  | JArray [] => ""
  | JArray (x :: items) => foldl (fun acc y => acc +:+ "," +:+ js_text y) (js_text x) items
  | JFields _ => "[object Object]"
  end.

(** The comparison of [a.type] and [b.type], which are texts or not there. *)
Definition type_cmp (a b : Json) : Z :=
  match a, b with
  | JFields f, JFields g =>
      match map_get "type" f, map_get "type" g with
      | Some (JText s), Some (JText t) => text_cmp s t
      | _, _ => 0
      end
  | _, _ => 0
  end.

Fixpoint sortArraysInConfig (config : Json) : Json :=
  match config with
  | JArray items => JArray (map sortArraysInConfig items)
  | JFields fields =>
      JFields (map (fun '(key, v) => (key,
        match v with
        | JArray items =>
            if String.eqb key "validators" then JArray (js_sort (fun a b => text_cmp (js_text a) (js_text b)) items)
            else if String.eqb key "modules" || String.eqb key "hooks" then JArray (js_sort type_cmp items)
            else sortArraysInConfig v
        | _ => sortArraysInConfig v
        end)) fields)
  | _ => config
  end.

(** ** Normalization *)

(** [lowerCaseConfig], which normalizes what is below with [normalize]. *)
Definition lowerCaseConfig (normalize : Json -> Json) (obj : Json) : Json :=
  match obj with
  | JArray items => JArray (map normalize items)
  | JFields fields =>
      JFields (omap (fun '(key, v) =>
        if String.eqb key "address" || String.eqb key "ownerOverrides" then None
        else Some (key, if String.eqb key "type" then v else normalize v)) fields)
  | JText s => JText (to_lower s)
  | _ => obj
  end.

Fixpoint normalizeConfig (obj : Json) : Json := sortArraysInConfig (lowerCaseConfig normalizeConfig obj).

(** [isEqual] of lodash: the order of fields does not matter. *)
Fixpoint deepEquals (v1 v2 : Json) : bool :=
  match v1, v2 with
  | JNumber a, JNumber b => a =? b
  | JBool a, JBool b => Bool.eqb a b
  | JText a, JText b => String.eqb a b
  | JArray xs, JArray ys =>
      (fix all_equal xs ys := match xs, ys with
       | [], [] => true
       | x :: xs, y :: ys => deepEquals x y && all_equal xs ys
       | _, _ => false
       end) xs ys
  | JFields f, JFields g =>
      (length f =? length g)%nat &&
      forallb (fun '(key, v) => match map_get key g with Some w => deepEquals v w | None => false end) f
  | _, _ => false
  end.

(** ** Facts *)

Lemma text_cmp_le a b : text_cmp a b < 0 <-> String.compare a b = Lt.
Proof. unfold text_cmp. destruct (String.compare a b); split; (done || lia). Qed.

Lemma text_cmp_trans a b c : String.compare a b = Lt -> String.compare b c = Lt -> String.compare a c = Lt.
Proof.
  revert b c. induction a as [|x a IH]; intros [|y b] [|z c]; cbn; try done.
  unfold Ascii.compare.
  destruct (N.compare_spec (N_of_ascii x) (N_of_ascii y)) as [Exy|Exy|Exy];
    destruct (N.compare_spec (N_of_ascii y) (N_of_ascii z)) as [Eyz|Eyz|Eyz];
    destruct (N.compare_spec (N_of_ascii x) (N_of_ascii z)) as [Exz|Exz|Exz]; try done; try lia.
  apply IH.
Qed.

Lemma text_cmp_total a b : ~ text_cmp a b < 0 -> ~ text_cmp b a < 0 -> a = b.
Proof.
  rewrite !text_cmp_le. intros Hab Hba. apply String.compare_eq_iff.
  destruct (String.compare a b) eqn:E; [done|done|].
  rewrite String.compare_antisym, E in Hba. done.
Qed.

Lemma text_cmp_weak : weak_order_cmp text_cmp.
Proof.
  split.
  - intros x y. rewrite !text_cmp_le, (String.compare_antisym y x). by intros ->.
  - intros x y z. rewrite !text_cmp_le. intros Hyx Hzy Hzx.
    destruct (String.compare x y) eqn:Exy.
    + apply String.compare_eq_iff in Exy as ->. done.
    + by apply Hzy, (text_cmp_trans z x y).
    + apply Hyx. rewrite String.compare_antisym, Exy. done.
Qed.

(** Sorting by an order in which only equal texts are equivalent depends on the elements alone. *)
Lemma sort_texts_perm l1 l2 : l1 ≡ₚ l2 <-> js_sort text_cmp l1 = js_sort text_cmp l2.
Proof.
  split.
  - intros Hp. eapply (StronglySorted_unique_strong (fun a b => ~ text_cmp b a < 0)).
    + intros a b _ _ Hab Hba. by apply text_cmp_total.
    + apply js_sort_sorted, text_cmp_weak.
    + apply js_sort_sorted, text_cmp_weak.
    + by rewrite !js_sort_perm.
  - intros E. by rewrite <- (js_sort_perm text_cmp l1), E, js_sort_perm.
Qed.

Lemma js_insert_map {A B} (f : A -> B) (cmp : B -> B -> Z) x l :
  js_insert cmp (f x) (map f l) = map f (js_insert (fun a b => cmp (f a) (f b)) x l).
Proof. induction l as [|y l IH]; [done|]. cbn. case_match; [done|]. cbn. by rewrite IH. Qed.

Lemma js_sort_map {A B} (f : A -> B) (cmp : B -> B -> Z) l :
  js_sort cmp (map f l) = map f (js_sort (fun a b => cmp (f a) (f b)) l).
Proof.
  unfold js_sort. change (@nil B) with (map f []). generalize (@nil A).
  induction l as [|x l IH]; intros acc; [done|]. cbn. by rewrite js_insert_map, IH.
Qed.

Lemma all_texts_equal l1 l2 : deepEquals (JArray (map JText l1)) (JArray (map JText l2)) = true <-> l1 = l2.
Proof.
  revert l2. induction l1 as [|x l1 IH]; intros [|y l2]; try done.
  cbn in *. rewrite andb_true_iff, String.eqb_eq, IH. naive_solver.
Qed.

Lemma normalize_texts l : normalizeConfig (JArray (map JText l)) = JArray (map JText (map to_lower l)).
Proof. cbn. f_equal. rewrite !map_map. by apply map_ext. Qed.

Lemma sort_texts l :
  js_sort (fun a b => text_cmp (js_text a) (js_text b)) (map JText l) = map JText (js_sort text_cmp l).
Proof. by rewrite js_sort_map. Qed.

(** A multisig configuration, normalized: its validators in lower case and sorted. *)
Lemma normalize_multisig type validators threshold :
  normalizeConfig (JFields [("type", JText type); ("validators", JArray (map JText validators));
    ("threshold", JNumber threshold)]) =
  JFields [("type", JText type); ("validators", JArray (map JText (js_sort text_cmp (map to_lower validators))));
    ("threshold", JNumber threshold)].
Proof. rewrite <- sort_texts, !map_map. cbn. by rewrite !map_map. Qed.
