(* ===== verification/IsmArtifacts.v ===== *)
(** Security modules as artifacts, provider-sdk/src/artifact.ts and ism.ts: configurations and what
    they become, which modules have to be deployed, and whom rate limits protect. Objects keyed by
    domain list their keys in ascending order. *)
From Stdlib Require Import ZArith Lia String Ascii Sorted.
From stdpp Require Import base tactics list strings pretty.
From S2P Require Import Prelude JsMap Addresses Messages ConfigJson.

#[local] Open Scope Z_scope.

(** ** Artifacts, artifact.ts *)

(** An artifact without [artifactState] is new; what is deployed is known by its address. *)
Inductive Artifact (C : Type) : Type :=
| NEW (config : C)
| DEPLOYED (config : C) (address : string)
| UNDERIVED (address : string).
Arguments NEW {C} _.
Arguments DEPLOYED {C} _ _.
Arguments UNDERIVED {C} _.

(** [ArtifactDeployed]. *)
Record Deployed (C : Type) : Type := { config : C; deployed : string }.
Arguments config {C} _.
Arguments deployed {C} _.
Arguments Build_Deployed {C} _ _.

(** [ArtifactOnChain]. *)
Inductive ArtifactOnChain (C : Type) : Type :=
| OnChain (artifact : Deployed C)
| AddressOnly (address : string).
Arguments OnChain {C} _.
Arguments AddressOnly {C} _.

Definition isArtifactNew {C} (a : Artifact C) : bool := match a with NEW _ => true | _ => false end.
Definition isArtifactDeployed {C} (a : Artifact C) : bool := match a with DEPLOYED _ _ => true | _ => false end.
Definition isArtifactUnderived {C} (a : Artifact C) : bool := match a with UNDERIVED _ => true | _ => false end.

Definition as_artifact {C} (a : Deployed C) : Artifact C := DEPLOYED (config a) (deployed a).
Definition on_chain {C} (a : ArtifactOnChain C) : Artifact C :=
  match a with OnChain d => as_artifact d | AddressOnly address => UNDERIVED address end.
Definition on_chain_address {C} (a : ArtifactOnChain C) : string :=
  match a with OnChain d => deployed d | AddressOnly address => address end.

(** [isEmptyAddress] of utils/src/addresses.ts. *)
Definition isEmptyAddress (address : option string) : bool :=
  match address with Some (String _ _ as a) => isZeroishAddress a | _ => true end.

Definition toDeployedOrUndefined {C} (artifact : ArtifactOnChain C) (name : string) : result (option (Deployed C)) :=
  match artifact with
  | OnChain d => Ok (Some d)
  | AddressOnly address =>
      _ ← js_assert (isEmptyAddress (Some address))
            ("Expected " +:+ name +:+ " to be DEPLOYED or UNDERIVED with zero address, got UNDERIVED with non-zero address " +:+ address);
      Ok None
  end.

Definition addressToUnderivedArtifact {C} (formatter : string -> string) (address : option string)
    : option (ArtifactOnChain C) :=
  if isEmptyAddress address then None else AddressOnly ∘ formatter <$> address.

Definition artifactOnChainToAddress {C} (formatter : string -> string) (artifact : option (ArtifactOnChain C))
    : option string :=
  let address := on_chain_address <$> artifact in
  if isEmptyAddress address then None else formatter <$> address.

(** ** Objects keyed by domain *)

(** [o[domain] = v]: keys that are integers are kept in ascending order. *)
Fixpoint domain_set {A} (k : Z) (v : A) (o : list (Z * A)) : list (Z * A) :=
  match o with
  | [] => [(k, v)]
  | (k', v') :: o' =>
      if k <? k' then (k, v) :: o
      else if k =? k' then (k, v) :: o'
      else (k', v') :: domain_set k v o'
  end.

(** An object filled by assignments in order. *)
Definition domain_object {A} (entries : list (Z * A)) : list (Z * A) :=
  foldl (fun o '(k, v) => domain_set k v o) [] entries.
Definition name_object {A} (entries : list (string * A)) : list (string * A) :=
  foldl (fun o '(k, v) => map_set k v o) [] entries.

(** ** Configurations, ism.ts *)

Inductive IsmType : Type :=
| ROUTING | MERKLE_ROOT_MULTISIG | MESSAGE_ID_MULTISIG | TEST_ISM | COMPOSITE | AGGREGATION | PAUSABLE.
#[export] Instance IsmType_eq_dec : EqDecision IsmType.
Proof. solve_decision. Defined.

Definition ism_type_text (t : IsmType) : string :=
  match t with
  | ROUTING => "domainRoutingIsm"
  | MERKLE_ROOT_MULTISIG => "merkleRootMultisigIsm"
  | MESSAGE_ID_MULTISIG => "messageIdMultisigIsm"
  | TEST_ISM => "testIsm"
  | COMPOSITE => "compositeIsm"
  | AGGREGATION => "staticAggregationIsm"
  | PAUSABLE => "pausableIsm"
  end.

Definition STATIC_ISM_TYPES : list IsmType := [TEST_ISM; MERKLE_ROOT_MULTISIG; MESSAGE_ID_MULTISIG].

Inductive MultisigType : Type := MerkleRoot | MessageId.
#[export] Instance MultisigType_eq_dec : EqDecision MultisigType.
Proof. solve_decision. Defined.

(** [CompositeIsmNodeConfig], and with domains as keys [CompositeIsmNodeArtifactConfig]. *)
Inductive CompositeIsmNode (K : Type) : Type :=
| TrustedRelayerNode (relayer : string)
| MultisigNode (validators : list string) (threshold : Z)
| AggregationNode (threshold : Z) (subIsms : list (CompositeIsmNode K))
| TestIsmNode (accept : bool)
| PausableNode (paused : bool)
| AmountRoutingNode (threshold : string) (lower upper : CompositeIsmNode K)
| RateLimitedNode (maxCapacity mailbox : string) (recipient : option string)
| RoutingNode (domains : option (list (K * CompositeIsmNode K)))
| FallbackRoutingNode (fallbackIsm : string) (domains : option (list (K * CompositeIsmNode K))).
Arguments TrustedRelayerNode {K} _.
Arguments MultisigNode {K} _ _.
Arguments AggregationNode {K} _ _.
Arguments TestIsmNode {K} _.
Arguments PausableNode {K} _.
Arguments AmountRoutingNode {K} _ _ _.
Arguments RateLimitedNode {K} _ _ _.
Arguments RoutingNode {K} _.
Arguments FallbackRoutingNode {K} _ _.

(** [IsmConfigs], [IsmArtifactConfigs] and [RawIsmArtifactConfigs]: one configuration per type,
    by what keys its domains and what its nested modules are. *)
Inductive IsmConfigs (K N : Type) : Type :=
| RoutingIsm (owner : string) (domains : list (K * N))
| MultisigIsm (type : MultisigType) (validators : list string) (threshold : Z)
| TestIsm
| CompositeIsm (owner : string) (root : CompositeIsmNode K)
| AggregationIsm (modules : list N) (threshold : Z)
| PausableIsm (owner : string) (paused : bool).
Arguments RoutingIsm {K N} _ _.
Arguments MultisigIsm {K N} _ _ _.
Arguments TestIsm {K N}.
Arguments CompositeIsm {K N} _ _.
Arguments AggregationIsm {K N} _ _.
Arguments PausableIsm {K N} _ _.

Definition ism_type {K N} (c : IsmConfigs K N) : IsmType :=
  match c with
  | RoutingIsm _ _ => ROUTING
  | MultisigIsm MerkleRoot _ _ => MERKLE_ROOT_MULTISIG
  | MultisigIsm MessageId _ _ => MESSAGE_ID_MULTISIG
  | TestIsm => TEST_ISM
  | CompositeIsm _ _ => COMPOSITE
  | AggregationIsm _ _ => AGGREGATION
  | PausableIsm _ _ => PAUSABLE
  end.

(** Configurations by chain name, whose nested modules may be addresses; what is deployed of them,
    each with its address; and configurations of artifacts, by domain. *)
Inductive IsmConfig : Type := Config (c : IsmConfigs string (IsmConfig + string)).
Inductive DerivedIsmConfig : Type :=
  Derived (address : string) (c : IsmConfigs string (DerivedIsmConfig + string)).
Inductive IsmArtifactConfig : Type :=
  ArtifactConfig (c : IsmConfigs Z (Artifact IsmArtifactConfig)).

Notation IsmArtifact := (Artifact IsmArtifactConfig).
Notation DeployedIsmArtifact := (Deployed IsmArtifactConfig).
(** What protocols work with: nested modules are on chain. *)
Notation RawIsmArtifactConfig := (IsmConfigs Z (ArtifactOnChain IsmArtifactConfig)).

Definition config_of (c : IsmArtifactConfig) : IsmConfigs Z IsmArtifact := let 'ArtifactConfig c := c in c.

(** ** Configurations as JSON *)

Definition texts (l : list string) : Json := JArray (map JText l).
Definition domains_json {A} (f : A -> Json) (domains : list (Z * A)) : Json :=
  JFields (map (fun '(domain, x) => (pretty domain, f x)) domains).
Definition typed (type : string) (fields : list (string * Json)) : Json := JFields (("type", JText type) :: fields).
Definition given {A} (key : string) (f : A -> Json) (o : option A) : list (string * Json) :=
  match o with Some x => [(key, f x)] | None => [] end.

Fixpoint node_json (node : CompositeIsmNode Z) : Json :=
  match node with
  | TrustedRelayerNode relayer => typed "trustedRelayer" [("relayer", JText relayer)]
  | MultisigNode validators threshold =>
      typed "multisigMessageId" [("validators", texts validators); ("threshold", JNumber threshold)]
  | AggregationNode threshold subIsms =>
      typed "aggregation" [("threshold", JNumber threshold); ("subIsms", JArray (map node_json subIsms))]
  | TestIsmNode accept => typed "test" [("accept", JBool accept)]
  | PausableNode paused => typed "pausable" [("paused", JBool paused)]
  | AmountRoutingNode threshold lower upper =>
      typed "amountRouting" [("threshold", JText threshold); ("lower", node_json lower); ("upper", node_json upper)]
  | RateLimitedNode maxCapacity mailbox recipient =>
      typed "rateLimited" ([("maxCapacity", JText maxCapacity); ("mailbox", JText mailbox)] ++
        given "recipient" JText recipient)
  | RoutingNode domains => typed "routing" (given "domains" (domains_json node_json) domains)
  | FallbackRoutingNode fallbackIsm domains =>
      typed "fallbackRouting" (("fallbackIsm", JText fallbackIsm) :: given "domains" (domains_json node_json) domains)
  end.

Definition artifact_json {C} (f : C -> Json) (a : Artifact C) : Json :=
  let at_address address := ("deployed", JFields [("address", JText address)]) in
  match a with
  | NEW c => JFields [("artifactState", JText "new"); ("config", f c)]
  | DEPLOYED c address => JFields [("artifactState", JText "deployed"); ("config", f c); at_address address]
  | UNDERIVED address => JFields [("artifactState", JText "underived"); at_address address]
  end.

Fixpoint config_json (config : IsmArtifactConfig) : Json :=
  let 'ArtifactConfig c := config in
  typed (ism_type_text (ism_type c))
    match c with
    | RoutingIsm owner domains =>
        [("owner", JText owner); ("domains", domains_json (artifact_json config_json) domains)]
    | MultisigIsm _ validators threshold => [("validators", texts validators); ("threshold", JNumber threshold)]
    | TestIsm => []
    | CompositeIsm owner root => [("owner", JText owner); ("root", node_json root)]
    | AggregationIsm modules threshold =>
        [("modules", JArray (map (artifact_json config_json) modules)); ("threshold", JNumber threshold)]
    | PausableIsm owner paused => [("owner", JText owner); ("paused", JBool paused)]
    end.

(** ** What has to be deployed *)

Definition readable_only (t : IsmType) : bool := bool_decide (t = AGGREGATION \/ t = PAUSABLE).
Definition assert_writable (t : IsmType) : result unit :=
  js_assert (negb (readable_only t)) "Aggregation and pausable ISM artifacts currently support reading only".
Definition is_static (t : IsmType) : bool := bool_decide (t ∈ STATIC_ISM_TYPES).

Definition shouldDeployNewIsm (actual expected : IsmArtifactConfig) : result bool :=
  let expectedType := ism_type (config_of expected) in
  _ ← assert_writable expectedType;
  if decide (ism_type (config_of actual) <> expectedType) then Ok true
  else
    let normalizedActual := normalizeConfig (config_json actual) in
    let normalizedExpected := normalizeConfig (config_json expected) in
    if is_static expectedType then Ok (negb (deepEquals normalizedActual normalizedExpected))
    else Ok false.

(** The deployed module of a domain, if there is one. *)
Definition deployed_domain (domains : list (Z * IsmArtifact)) (domain : Z) : option DeployedIsmArtifact :=
  match map_get domain domains with Some (DEPLOYED c address) => Some (Build_Deployed c address) | _ => None end.

(** [mergeIsmArtifacts] for an expected configuration that is deployed at [address] or new. *)
Fixpoint merge_config (current : option DeployedIsmArtifact) (address : option string) (expected : IsmArtifactConfig)
    : result IsmArtifact :=
  let expectedArtifact := match address with Some a => DEPLOYED expected a | None => NEW expected end in
  let expectedType := ism_type (config_of expected) in
  _ ← assert_writable expectedType;
  match current with
  | None => Ok expectedArtifact
  | Some current =>
      let deployedAddress := default (deployed current) address in
      if decide (ism_type (config_of (config current)) <> expectedType) then Ok (NEW expected)
      else if is_static expectedType then
        redeploy ← shouldDeployNewIsm (config current) expected;
        Ok (if (redeploy : bool) then NEW expected else DEPLOYED expected deployedAddress)
      else
        match expected, config_of (config current) with
        | ArtifactConfig (CompositeIsm _ _), _ => Ok (DEPLOYED expected deployedAddress)
        | ArtifactConfig (RoutingIsm owner domains), RoutingIsm _ currentDomains =>
            mergedDomains ← mapM (fun '(domain, expectedDomainIsm) =>
              let current := deployed_domain currentDomains domain in
              merged ← match expectedDomainIsm with
                       | NEW c => merge_config current None c
                       | DEPLOYED c a => merge_config current (Some a) c
                       | UNDERIVED a => Ok (UNDERIVED a)
                       end;
              Ok (domain, merged)) domains;
            Ok (DEPLOYED (ArtifactConfig (RoutingIsm owner (domain_object mergedDomains))) deployedAddress)
        | _, _ => Throw (Error "Expected both configs to be of type domainRoutingIsm")
        end
  end.

Definition mergeIsmArtifacts (current : option DeployedIsmArtifact) (expected : IsmArtifact) : result IsmArtifact :=
  match expected with
  | NEW c => merge_config current None c
  | DEPLOYED c a => merge_config current (Some a) c
  | UNDERIVED _ => Throw (TypeError "Cannot read properties of undefined (reading 'type')")
  end.

(** ** From names of chains to domains and back *)

Record ChainLookup : Type := { getChainName : Z -> option string; getDomainId : string -> option Z }.

(** A name that is empty is none. *)
Definition chain_name (lookup : ChainLookup) (domain : Z) : option string :=
  match getChainName lookup domain with Some (String _ _ as name) => Some name | _ => None end.

(** The entries of an object under new keys, without those that have none. *)
Definition rekey {K K' A} (key : K -> option K') (entries : list (K * A)) : list (K' * A) :=
  omap (fun '(k, x) => (fun k' => (k', x)) <$> key k) entries.

Fixpoint compositeIsmNodeArtifactToConfig (lookup : ChainLookup) (node : CompositeIsmNode Z) : CompositeIsmNode string :=
  let convert := map (fun '(k, n) => (k, compositeIsmNodeArtifactToConfig lookup n)) in
  match node with
  | AggregationNode threshold subIsms =>
      AggregationNode threshold (map (compositeIsmNodeArtifactToConfig lookup) subIsms)
  | AmountRoutingNode threshold lower upper =>
      AmountRoutingNode threshold (compositeIsmNodeArtifactToConfig lookup lower)
        (compositeIsmNodeArtifactToConfig lookup upper)
  | RoutingNode domains =>
      RoutingNode ((fun d => name_object (rekey (chain_name lookup) (convert d))) <$> domains)
  | FallbackRoutingNode fallbackIsm domains =>
      FallbackRoutingNode fallbackIsm ((fun d => name_object (rekey (chain_name lookup) (convert d))) <$> domains)
  | TrustedRelayerNode relayer => TrustedRelayerNode relayer
  | MultisigNode validators threshold => MultisigNode validators threshold
  | TestIsmNode accept => TestIsmNode accept
  | PausableNode paused => PausableNode paused
  | RateLimitedNode maxCapacity mailbox recipient => RateLimitedNode maxCapacity mailbox recipient
  end.

Fixpoint compositeIsmNodeConfigToArtifact (lookup : ChainLookup) (node : CompositeIsmNode string) : CompositeIsmNode Z :=
  let convert := map (fun '(k, n) => (k, compositeIsmNodeConfigToArtifact lookup n)) in
  match node with
  | AggregationNode threshold subIsms =>
      AggregationNode threshold (map (compositeIsmNodeConfigToArtifact lookup) subIsms)
  | AmountRoutingNode threshold lower upper =>
      AmountRoutingNode threshold (compositeIsmNodeConfigToArtifact lookup lower)
        (compositeIsmNodeConfigToArtifact lookup upper)
  | RoutingNode domains =>
      RoutingNode ((fun d => domain_object (rekey (getDomainId lookup) (convert d))) <$> domains)
  | FallbackRoutingNode fallbackIsm domains =>
      FallbackRoutingNode fallbackIsm ((fun d => domain_object (rekey (getDomainId lookup) (convert d))) <$> domains)
  | TrustedRelayerNode relayer => TrustedRelayerNode relayer
  | MultisigNode validators threshold => MultisigNode validators threshold
  | TestIsmNode accept => TestIsmNode accept
  | PausableNode paused => PausableNode paused
  | RateLimitedNode maxCapacity mailbox recipient => RateLimitedNode maxCapacity mailbox recipient
  end.

(** [ismArtifactToDerivedConfig] of what is deployed at [address]. *)
Fixpoint derive_config (lookup : ChainLookup) (address : string) (config : IsmArtifactConfig) : result DerivedIsmConfig :=
  let 'ArtifactConfig c := config in
  match c with
  | AggregationIsm modules threshold =>
      modules ← mapM (fun module =>
        match module with
        | DEPLOYED c a => d ← derive_config lookup a c; Ok (inl d)
        | UNDERIVED a => Ok (inr a)
        | NEW _ => Throw (Error "Cannot convert aggregation ISM to derived config: nested ISM is NEW and has no address")
        end) modules;
      Ok (Derived address (AggregationIsm modules threshold))
  | RoutingIsm owner domains =>
      named ← mapM (fun '(domain, domainArtifact) =>
        match chain_name lookup domain with
        | None => Ok None
        | Some chainName =>
            match domainArtifact with
            | DEPLOYED c a => d ← derive_config lookup a c; Ok (Some (chainName, inl d))
            | UNDERIVED a => Ok (Some (chainName, inr a))
            | NEW _ => Throw (Error ("Cannot convert routing ISM to derived config: nested ISM for domain " +:+ chainName
                +:+ " (" +:+ pretty domain +:+ ") is NEW and has no address"))
            end
        end) domains;
      Ok (Derived address (RoutingIsm owner (name_object (omap id named))))
  | MultisigIsm type validators threshold => Ok (Derived address (MultisigIsm type validators threshold))
  | PausableIsm owner paused => Ok (Derived address (PausableIsm owner paused))
  | TestIsm => Ok (Derived address TestIsm)
  | CompositeIsm owner root =>
      Ok (Derived address (CompositeIsm owner (compositeIsmNodeArtifactToConfig lookup root)))
  end.

Definition ismArtifactToDerivedConfig (artifact : DeployedIsmArtifact) (lookup : ChainLookup) : result DerivedIsmConfig :=
  derive_config lookup (deployed artifact) (config artifact).

Fixpoint config_to_artifact (lookup : ChainLookup) (config : IsmConfig) : IsmArtifactConfig :=
  let 'Config c := config in
  let nested x := match x with inl c => NEW (config_to_artifact lookup c) | inr address => UNDERIVED address end in
  ArtifactConfig
    match c with
    | AggregationIsm modules threshold => AggregationIsm (map nested modules) threshold
    | RoutingIsm owner domains =>
        RoutingIsm owner (domain_object (rekey (getDomainId lookup) (map (fun '(k, x) => (k, nested x)) domains)))
    | CompositeIsm owner root => CompositeIsm owner (compositeIsmNodeConfigToArtifact lookup root)
    | MultisigIsm type validators threshold => MultisigIsm type validators threshold
    | TestIsm => TestIsm
    | PausableIsm owner paused => PausableIsm owner paused
    end.

Definition ismConfigToArtifact (config : IsmConfig) (lookup : ChainLookup) : IsmArtifact :=
  NEW (config_to_artifact lookup config).

(** A derived configuration is a configuration with fields more. *)
Fixpoint underive (config : DerivedIsmConfig) : IsmConfig :=
  let 'Derived _ c := config in
  let nested x := match x with inl d => inl (underive d) | inr address => inr address end in
  Config
    match c with
    | RoutingIsm owner domains => RoutingIsm owner (map (fun '(k, x) => (k, nested x)) domains)
    | AggregationIsm modules threshold => AggregationIsm (map nested modules) threshold
    | MultisigIsm type validators threshold => MultisigIsm type validators threshold
    | TestIsm => TestIsm
    | CompositeIsm owner root => CompositeIsm owner root
    | PausableIsm owner paused => PausableIsm owner paused
    end.

(** ** Checks on trees of modules *)

(** [for (const x of xs) f(x)] for checks. *)
Definition each {A} (f : A -> result unit) (xs : list A) : result unit :=
  foldr (fun x rest => _ ← f x; rest) (Ok ()) xs.

(** The domains of a node that may have none. *)
Definition node_domains {K} (domains : option (list (K * CompositeIsmNode K))) : list (K * CompositeIsmNode K) :=
  default [] domains.

Fixpoint someCompositeIsmNode (predicate : CompositeIsmNode Z -> bool) (node : CompositeIsmNode Z) : bool :=
  predicate node ||
  match node with
  | AggregationNode _ subIsms => existsb (someCompositeIsmNode predicate) subIsms
  | AmountRoutingNode _ lower upper => someCompositeIsmNode predicate lower || someCompositeIsmNode predicate upper
  | RoutingNode domains | FallbackRoutingNode _ domains =>
      match domains with
      | Some domains => existsb (fun '(_, n) => someCompositeIsmNode predicate n) domains
      | None => false
      end
  | _ => false
  end.

Fixpoint assertCompositeIsmNodeSupportedAsMailboxDefault (context : string) (node : CompositeIsmNode Z) : result unit :=
  match node with
  | AggregationNode _ subIsms => each (assertCompositeIsmNodeSupportedAsMailboxDefault context) subIsms
  | AmountRoutingNode _ lower upper =>
      _ ← assertCompositeIsmNodeSupportedAsMailboxDefault context lower;
      assertCompositeIsmNodeSupportedAsMailboxDefault context upper
  | RoutingNode domains | FallbackRoutingNode _ domains =>
      match domains with
      | None => Ok ()
      | Some domains => each (fun '(_, n) => assertCompositeIsmNodeSupportedAsMailboxDefault context n) domains
      end
  | RateLimitedNode _ _ _ =>
      js_assert false ("A compositeIsm 'rateLimited' node is only supported on a warp route, but one was configured for "
        +:+ context +:+ ". Remove the rateLimited node.")
  | TrustedRelayerNode _ | MultisigNode _ _ | TestIsmNode _ | PausableNode _ => Ok ()
  end.

Fixpoint assertIsmConfigSupportedAsMailboxDefault (context : string) (config : IsmArtifactConfig) : result unit :=
  let nested a :=
    match a with
    | UNDERIVED _ => Ok ()
    | NEW c | DEPLOYED c _ => assertIsmConfigSupportedAsMailboxDefault context c
    end in
  let 'ArtifactConfig c := config in
  match c with
  | AggregationIsm modules _ => each nested modules
  | RoutingIsm _ domains => each (fun '(_, a) => nested a) domains
  | CompositeIsm _ root => assertCompositeIsmNodeSupportedAsMailboxDefault context root
  | MultisigIsm _ _ _ | PausableIsm _ _ | TestIsm => Ok ()
  end.

Definition assertIsmSupportedAsMailboxDefault (artifact : IsmArtifact) (context : string) : result unit :=
  match artifact with
  | UNDERIVED _ => Ok ()
  | NEW c | DEPLOYED c _ => assertIsmConfigSupportedAsMailboxDefault context c
  end.

Definition has_recipient (node : CompositeIsmNode Z) : bool :=
  match node with RateLimitedNode _ _ (Some _) => true | _ => false end.

Fixpoint ismArtifactHasExplicitRateLimitedRecipient (config : IsmArtifactConfig) : bool :=
  let nested a := match a with NEW c => ismArtifactHasExplicitRateLimitedRecipient c | _ => false end in
  let 'ArtifactConfig c := config in
  match c with
  | AggregationIsm modules _ => existsb nested modules
  | RoutingIsm _ domains => existsb (fun '(_, a) => nested a) domains
  | CompositeIsm _ root => someCompositeIsmNode has_recipient root
  | MultisigIsm _ _ _ | PausableIsm _ _ | TestIsm => false
  end.

Definition assertRateLimitedIsmRecipientsUnset (artifact : IsmArtifact) (context : string) : result unit :=
  match artifact with
  | NEW c =>
      js_assert (negb (ismArtifactHasExplicitRateLimitedRecipient c))
        ("compositeIsm rateLimited.recipient must not be set when deploying a new warp route for " +:+ context
         +:+ ": it is resolved to the router address being deployed. Remove the recipient field.")
  | _ => Ok ()
  end.

(** ** Recipients of rate limits *)

(** [/^0x[0-9a-fA-F]{64}$/]. *)
Definition RECIPIENT_BYTES32_REGEX (address : string) : bool :=
  match address with
  | String "0" (String "x" digits) => string_all is_hex_digit digits && (String.length digits =? 64)%nat
  | _ => false
  end.

Definition normalizeRecipientBytes32 (address : string) : result string :=
  _ ← js_assert (RECIPIENT_BYTES32_REGEX address) ("Expected a 32-byte Hyperlane address, got " +:+ address);
  Ok (to_lower address).

(** [toBytes32] is a thunk, which may throw. *)
Record ContextualAddress : Type := { router_address : string; toBytes32 : result string }.

Definition router_recipient (warpRouter : ContextualAddress) : result string :=
  toBytes32 warpRouter ≫= normalizeRecipientBytes32.

Fixpoint assertCompositeIsmNodeRecipientMatches (warpRouter : ContextualAddress) (context : string)
    (node : CompositeIsmNode Z) : result unit :=
  match node with
  | AggregationNode _ subIsms => each (assertCompositeIsmNodeRecipientMatches warpRouter context) subIsms
  | AmountRoutingNode _ lower upper =>
      _ ← assertCompositeIsmNodeRecipientMatches warpRouter context lower;
      assertCompositeIsmNodeRecipientMatches warpRouter context upper
  | RoutingNode domains | FallbackRoutingNode _ domains =>
      match domains with
      | None => Ok ()
      | Some domains => each (fun '(_, n) => assertCompositeIsmNodeRecipientMatches warpRouter context n) domains
      end
  | RateLimitedNode _ _ nodeRecipient =>
      recipient ← router_recipient warpRouter;
      match nodeRecipient with
      | None => Throw (Error ("Deployed compositeIsm rateLimited.recipient is missing for " +:+ context +:+ "."))
      | Some r =>
          normalized ← normalizeRecipientBytes32 r;
          js_assert (String.eqb normalized recipient)
            ("Deployed compositeIsm rateLimited.recipient " +:+ r +:+ " does not match the warp router it protects ("
             +:+ recipient +:+ ") for " +:+ context +:+ ".")
      end
  | TrustedRelayerNode _ | MultisigNode _ _ | TestIsmNode _ | PausableNode _ => Ok ()
  end.

Fixpoint assertIsmConfigRecipientsMatch (warpRouter : ContextualAddress) (context : string)
    (config : IsmArtifactConfig) : result unit :=
  let nested a :=
    match a with
    | UNDERIVED _ => Ok ()
    | NEW c | DEPLOYED c _ => assertIsmConfigRecipientsMatch warpRouter context c
    end in
  let 'ArtifactConfig c := config in
  match c with
  | AggregationIsm modules _ => each nested modules
  | RoutingIsm _ domains => each (fun '(_, a) => nested a) domains
  | CompositeIsm _ root => assertCompositeIsmNodeRecipientMatches warpRouter context root
  | MultisigIsm _ _ _ | PausableIsm _ _ | TestIsm => Ok ()
  end.

Fixpoint assertNoNewIsmDescendants (context : string) (config : IsmArtifactConfig) : result unit :=
  let nested (message : string) a :=
    match a with
    | NEW _ => Throw (Error message)
    | DEPLOYED c _ => assertNoNewIsmDescendants context c
    | UNDERIVED _ => Ok ()
    end in
  let 'ArtifactConfig c := config in
  match c with
  | AggregationIsm modules _ =>
      each (nested ("A DEPLOYED ISM used while creating " +:+ context +:+ " cannot contain a NEW aggregation module."))
        modules
  | RoutingIsm _ domains =>
      each (fun '(domain, a) =>
        nested ("A DEPLOYED ISM used while creating " +:+ context +:+ " cannot contain a NEW descendant for domain "
          +:+ pretty domain +:+ ". Update the deployed ISM first, or configure the root ISM as NEW.") a) domains
  | CompositeIsm _ _ | MultisigIsm _ _ _ | PausableIsm _ _ | TestIsm => Ok ()
  end.

(** The values of an object of domains, each resolved. *)
Fixpoint resolveCompositeIsmNodeRecipients (recipient context : string) (node : CompositeIsmNode Z)
    : result (CompositeIsmNode Z) :=
  let resolveCompositeIsmDomainRecipients domains :=
    match domains with
    | None => Ok None
    | Some domains =>
        resolved ← mapM (fun '(domain, n) =>
          n ← resolveCompositeIsmNodeRecipients recipient context n; Ok (domain, n)) domains;
        Ok (Some (domain_object resolved))
    end in
  match node with
  | TrustedRelayerNode relayer => Ok (TrustedRelayerNode relayer)
  | MultisigNode validators threshold => Ok (MultisigNode validators threshold)
  | TestIsmNode accept => Ok (TestIsmNode accept)
  | PausableNode paused => Ok (PausableNode paused)
  | AggregationNode threshold subIsms =>
      subIsms ← mapM (resolveCompositeIsmNodeRecipients recipient context) subIsms;
      Ok (AggregationNode threshold subIsms)
  | AmountRoutingNode threshold lower upper =>
      lower ← resolveCompositeIsmNodeRecipients recipient context lower;
      upper ← resolveCompositeIsmNodeRecipients recipient context upper;
      Ok (AmountRoutingNode threshold lower upper)
  | RateLimitedNode maxCapacity mailbox nodeRecipient =>
      _ ← match nodeRecipient with
          | None => Ok ()
          | Some r =>
              normalized ← normalizeRecipientBytes32 r;
              js_assert (String.eqb normalized recipient)
                ("compositeIsm rateLimited.recipient " +:+ r +:+ " does not match the warp router it protects ("
                 +:+ recipient +:+ ") for " +:+ context +:+ ". Remove the recipient field to have it resolved automatically.")
          end;
      Ok (RateLimitedNode maxCapacity mailbox (Some recipient))
  | RoutingNode domains =>
      domains ← resolveCompositeIsmDomainRecipients domains;
      Ok (RoutingNode domains)
  | FallbackRoutingNode fallbackIsm domains =>
      domains ← resolveCompositeIsmDomainRecipients domains;
      Ok (FallbackRoutingNode fallbackIsm domains)
  end.

(** With [resolveIsmArtifactRecipients] for what is nested. *)
Fixpoint resolveRateLimitedIsmRecipients (warpRouter : ContextualAddress) (context : string)
    (config : IsmArtifactConfig) : result IsmArtifactConfig :=
  let resolveIsmArtifactRecipients a :=
    match a with
    | UNDERIVED address => Ok (UNDERIVED address)
    | NEW c => c ← resolveRateLimitedIsmRecipients warpRouter context c; Ok (NEW c)
    | DEPLOYED c address => c ← resolveRateLimitedIsmRecipients warpRouter context c; Ok (DEPLOYED c address)
    end in
  let 'ArtifactConfig c := config in
  match c with
  | AggregationIsm modules threshold =>
      modules ← mapM resolveIsmArtifactRecipients modules;
      Ok (ArtifactConfig (AggregationIsm modules threshold))
  | RoutingIsm owner domains =>
      domains ← mapM (fun '(domain, a) => a ← resolveIsmArtifactRecipients a; Ok (domain, a)) domains;
      Ok (ArtifactConfig (RoutingIsm owner (domain_object domains)))
  | CompositeIsm owner root =>
      recipient ← router_recipient warpRouter;
      root ← resolveCompositeIsmNodeRecipients recipient context root;
      Ok (ArtifactConfig (CompositeIsm owner root))
  | MultisigIsm _ _ _ | PausableIsm _ _ | TestIsm => Ok config
  end.

Fixpoint resolveNewIsmConfigRecipients (warpRouter : ContextualAddress) (context : string)
    (config : IsmArtifactConfig) : result IsmArtifactConfig :=
  match config with
  | ArtifactConfig (RoutingIsm owner domains) =>
      domains ← mapM (fun '(domain, domainIsm) =>
        resolved ← match domainIsm with
                   | UNDERIVED address => Ok (UNDERIVED address)
                   | DEPLOYED c address =>
                       _ ← assertIsmConfigRecipientsMatch warpRouter context c;
                       Ok (DEPLOYED c address)
                   | NEW c => c ← resolveNewIsmConfigRecipients warpRouter context c; Ok (NEW c)
                   end;
        Ok (domain, resolved)) domains;
      Ok (ArtifactConfig (RoutingIsm owner (domain_object domains)))
  | _ => resolveRateLimitedIsmRecipients warpRouter context config
  end.

Inductive IsmArtifactResolutionOperation : Type := CREATE | UPDATE.

Definition resolveIsmArtifact (artifact : IsmArtifact) (operation : IsmArtifactResolutionOperation)
    (warpRouter : ContextualAddress) (context : string) : result IsmArtifact :=
  match artifact, operation with
  | NEW c, _ => c ← resolveNewIsmConfigRecipients warpRouter context c; Ok (NEW c)
  | DEPLOYED c address, CREATE =>
      _ ← assertNoNewIsmDescendants context c;
      _ ← assertIsmConfigRecipientsMatch warpRouter context c;
      Ok (DEPLOYED c address)
  | DEPLOYED c address, UPDATE =>
      c ← resolveRateLimitedIsmRecipients warpRouter context c;
      Ok (DEPLOYED c address)
  | UNDERIVED _, _ => Throw (TypeError "Cannot read properties of undefined (reading 'type')")
  end.
