(* ===== verification/IsmArtifactsFacts.v ===== *)
(** Facts on [IsmArtifacts]: induction on trees of modules, what a merge keeps, reuses and deploys,
    and that configurations read back. *)
From Stdlib Require Import ZArith Lia String Ascii Sorted.
From stdpp Require Import base tactics sets list strings pretty sorting.
From S2P Require Import Prelude JsMap Addresses Messages ConfigJson IsmArtifacts.

#[local] Open Scope Z_scope.

(** ** Trees *)

(** A predicate of all elements, by recursion on the list. *)
Definition every {A} (P : A -> Prop) (l : list A) : Prop := foldr (fun x rest => P x /\ rest) True l.

Lemma every_Forall {A} (P : A -> Prop) l : every P l <-> Forall P l.
Proof. induction l as [|x l IH]; [split; constructor|]. cbn. by rewrite Forall_cons, IH. Qed.

(** A predicate of the configuration an artifact has. *)
Definition on_config {C} (P : C -> Prop) (a : Artifact C) : Prop :=
  match a with NEW c | DEPLOYED c _ => P c | UNDERIVED _ => True end.

Section trees.
Context (P : IsmArtifactConfig -> Prop).
Hypothesis Hrouting : forall owner domains,
  Forall (fun d => on_config P d.2) domains -> P (ArtifactConfig (RoutingIsm owner domains)).
Hypothesis Haggregation : forall modules threshold,
  Forall (on_config P) modules -> P (ArtifactConfig (AggregationIsm modules threshold)).
Hypothesis Hmultisig : forall t v n, P (ArtifactConfig (MultisigIsm t v n)).
Hypothesis Htest : P (ArtifactConfig TestIsm).
Hypothesis Hcomposite : forall owner root, P (ArtifactConfig (CompositeIsm owner root)).
Hypothesis Hpausable : forall owner paused, P (ArtifactConfig (PausableIsm owner paused)).

Fixpoint IsmArtifactConfig_ind' (c : IsmArtifactConfig) : P c :=
  let nested (a : IsmArtifact) : on_config P a :=
    match a with
    | NEW c => IsmArtifactConfig_ind' c
    | DEPLOYED c _ => IsmArtifactConfig_ind' c
    | UNDERIVED _ => I
    end in
  match c with
  | ArtifactConfig (RoutingIsm owner domains) =>
      Hrouting owner domains
        ((fix all l : Forall (fun d => on_config P d.2) l :=
            match l with
            | [] => Forall_nil_2 _
            | d :: l => Forall_cons_2 _ d l (nested d.2) (all l)
            end) domains)
  | ArtifactConfig (AggregationIsm modules threshold) =>
      Haggregation modules threshold
        ((fix all l : Forall (on_config P) l :=
            match l with
            | [] => Forall_nil_2 _
            | a :: l => Forall_cons_2 _ a l (nested a) (all l)
            end) modules)
  | ArtifactConfig (MultisigIsm t v n) => Hmultisig t v n
  | ArtifactConfig TestIsm => Htest
  | ArtifactConfig (CompositeIsm owner root) => Hcomposite owner root
  | ArtifactConfig (PausableIsm owner paused) => Hpausable owner paused
  end.

End trees.

Section nodes.
Context {K : Type} (P : CompositeIsmNode K -> Prop).
Hypothesis Hrelayer : forall r, P (TrustedRelayerNode r).
Hypothesis Hmultisig : forall v t, P (MultisigNode v t).
Hypothesis Haggregation : forall t subs, Forall P subs -> P (AggregationNode t subs).
Hypothesis Htest : forall b, P (TestIsmNode b).
Hypothesis Hpausable : forall b, P (PausableNode b).
Hypothesis Hamount : forall t l u, P l -> P u -> P (AmountRoutingNode t l u).
Hypothesis Hrate : forall c m r, P (RateLimitedNode c m r).
Hypothesis Hrouting : forall domains,
  Forall (fun d => P d.2) (node_domains domains) -> P (RoutingNode domains).
Hypothesis Hfallback : forall ism domains,
  Forall (fun d => P d.2) (node_domains domains) -> P (FallbackRoutingNode ism domains).

Fixpoint CompositeIsmNode_ind' (n : CompositeIsmNode K) : P n :=
  let all_domains : forall l, Forall (fun d : K * CompositeIsmNode K => P d.2) l :=
    fix all l :=
      match l with
      | [] => Forall_nil_2 _
      | d :: l => Forall_cons_2 _ d l (CompositeIsmNode_ind' d.2) (all l)
      end in
  let in_domains o : Forall (fun d : K * CompositeIsmNode K => P d.2) (node_domains o) :=
    match o with Some l => all_domains l | None => Forall_nil_2 _ end in
  match n with
  | TrustedRelayerNode r => Hrelayer r
  | MultisigNode v t => Hmultisig v t
  | AggregationNode t subs =>
      Haggregation t subs
        ((fix all l : Forall P l :=
            match l with
            | [] => Forall_nil_2 _
            | x :: l => Forall_cons_2 _ x l (CompositeIsmNode_ind' x) (all l)
            end) subs)
  | TestIsmNode b => Htest b
  | PausableNode b => Hpausable b
  | AmountRoutingNode t l u => Hamount t l u (CompositeIsmNode_ind' l) (CompositeIsmNode_ind' u)
  | RateLimitedNode c m r => Hrate c m r
  | RoutingNode o => Hrouting o (in_domains o)
  | FallbackRoutingNode ism o => Hfallback ism o (in_domains o)
  end.

End nodes.

(** ** Objects keyed by domain *)

Definition sorted_domains {A} (domains : list (Z * A)) : Prop := StronglySorted Z.lt domains.*1.

Lemma domain_set_last {A} k (v : A) o : Forall (fun k' => k' < k) o.*1 -> domain_set k v o = o ++ [(k, v)].
Proof.
  induction o as [|[k' v'] o IH]; [done|]. cbn. intros [Hk Ho]%Forall_cons.
  rewrite (proj2 (Z.ltb_ge k k')), (proj2 (Z.eqb_neq k k')) by lia. by rewrite IH.
Qed.

Lemma domain_object_app {A} (o entries : list (Z * A)) :
  sorted_domains (o ++ entries) -> foldl (fun o '(k, v) => domain_set k v o) o entries = o ++ entries.
Proof.
  revert o. induction entries as [|[k v] entries IH]; intros o Hs; cbn; [by rewrite app_nil_r|].
  unfold sorted_domains in *. rewrite fmap_app in Hs. cbn in Hs.
  rewrite domain_set_last, IH; [by rewrite <- app_assoc| |].
  - by rewrite <- app_assoc, fmap_app.
  - apply Forall_forall. intros k' Hk'. apply StronglySorted_app in Hs as (Hlt & _ & _).
    apply (Hlt k' k); [done|apply list_elem_of_here].
Qed.

Lemma domain_object_sorted {A} (entries : list (Z * A)) : sorted_domains entries -> domain_object entries = entries.
Proof. apply (domain_object_app []). Qed.

Lemma sorted_NoDup {A} (domains : list (Z * A)) : sorted_domains domains -> NoDup domains.*1.
Proof.
  unfold sorted_domains. induction 1 as [|k ks _ IH Hk]; constructor; [|done].
  intros Hin. rewrite Forall_forall in Hk. specialize (Hk k Hin). lia.
Qed.

(** The values of an object, each changed by a function that may throw. *)
Lemma mapM_values {K A B} (f : A -> result B) (l : list (K * A)) l' :
  mapM (fun '(k, x) => y ← f x; Ok (k, y)) l = Ok l' <->
  Forall2 (fun x y => x.1 = y.1 /\ f x.2 = Ok y.2) l l'.
Proof.
  revert l'. induction l as [|[k x] l IH]; intros l'; cbn.
  - split; [intros [= <-]; constructor|by inversion 1].
  - split.
    + intros ([k' y] & H1 & (l'' & H2 & [= <-])%result_bind_ok)%result_bind_ok.
      apply result_bind_ok in H1 as (y' & H1 & [= <- <-]). constructor; [done|]. by apply IH.
    + inversion 1 as [|? [k' y] ? l'' [E1 E2] H2]; subst. cbn in *. subst. rewrite E2. cbn.
      apply IH in H2 as ->. done.
Qed.

Lemma Forall2_keys {K A B} (R : K * A -> K * B -> Prop) l l' :
  Forall2 (fun x y => x.1 = y.1 /\ R x y) l l' -> l'.*1 = l.*1.
Proof. induction 1 as [|x y l l' [Hk _] _ IH]; [done|]. cbn. by rewrite Hk, IH. Qed.

Lemma map_fst_values {K A B} (f : A -> B) (l : list (K * A)) : (map (fun '(k, x) => (k, f x)) l).*1 = l.*1.
Proof. induction l as [|[k x] l IH]; [done|]. cbn. by f_equal. Qed.

Lemma map_get_values {K A B} `{EqDecision K} (f : A -> B) (l : list (K * A)) k :
  map_get k (map (fun '(k, x) => (k, f x)) l) = f <$> map_get k l.
Proof. induction l as [|[k' x] l IH]; [done|]. cbn. by case_decide. Qed.

Lemma map_get_Forall2 {K A B} `{EqDecision K} (R : K * A -> K * B -> Prop) l l' k y :
  Forall2 (fun x y => x.1 = y.1 /\ R x y) l l' -> map_get k l' = Some y ->
  exists x, map_get k l = Some x /\ R (k, x) (k, y).
Proof.
  induction 1 as [|[k1 x] [k2 y'] l l' [Hk HR] _ IH]; [done|]. cbn in *. subst k2.
  case_decide; [|done]. subst. intros [= <-]. eauto.
Qed.

Lemma map_get_Forall2_l {K A B} `{EqDecision K} (R : K * A -> K * B -> Prop) l l' k x :
  Forall2 (fun x y => x.1 = y.1 /\ R x y) l l' -> map_get k l = Some x ->
  exists y, map_get k l' = Some y /\ R (k, x) (k, y).
Proof.
  induction 1 as [|[k1 x'] [k2 y] l l' [Hk HR] _ IH]; [done|]. cbn in *. subst k2.
  case_decide; [|done]. subst. intros [= <-]. eauto.
Qed.

(** ** What a configuration wants, whatever is deployed of it *)

Fixpoint as_new (c : IsmArtifactConfig) : IsmArtifactConfig :=
  let wanted (a : IsmArtifact) :=
    match a with NEW c | DEPLOYED c _ => NEW (as_new c) | UNDERIVED address => UNDERIVED address end in
  ArtifactConfig
    match config_of c with
    | RoutingIsm owner domains => RoutingIsm owner (map (fun '(k, a) => (k, wanted a)) domains)
    | AggregationIsm modules threshold => AggregationIsm (map wanted modules) threshold
    | c => c
    end.

Definition wanted (a : IsmArtifact) : IsmArtifact :=
  match a with NEW c | DEPLOYED c _ => NEW (as_new c) | UNDERIVED address => UNDERIVED address end.

(** Objects of domains are sorted everywhere, as objects are. *)
Fixpoint sorted_node (n : CompositeIsmNode Z) : Prop :=
  match n with
  | AggregationNode _ subIsms => every sorted_node subIsms
  | AmountRoutingNode _ lower upper => sorted_node lower /\ sorted_node upper
  | RoutingNode domains | FallbackRoutingNode _ domains =>
      match domains with
      | Some domains => sorted_domains domains /\ every (fun d => sorted_node d.2) domains
      | None => True
      end
  | _ => True
  end.

Fixpoint sorted_config (c : IsmArtifactConfig) : Prop :=
  match config_of c with
  | RoutingIsm _ domains => sorted_domains domains /\ every (fun d => on_config sorted_config d.2) domains
  | AggregationIsm modules _ => every (on_config sorted_config) modules
  | CompositeIsm _ root => sorted_node root
  | _ => True
  end.

(** The module reached by domains, and the configuration it has. *)
Definition domains_of (c : IsmArtifactConfig) : list (Z * IsmArtifact) :=
  match config_of c with RoutingIsm _ domains => domains | _ => [] end.

Fixpoint node_at (path : list Z) (a : IsmArtifact) : option IsmArtifact :=
  match path with
  | [] => Some a
  | domain :: path =>
      match a with
      | NEW c | DEPLOYED c _ => map_get domain (domains_of c) ≫= node_at path
      | UNDERIVED _ => None
      end
  end.

(** What is deployed there, reached through what is deployed. *)
Fixpoint deployed_at (path : list Z) (current : option DeployedIsmArtifact) : option DeployedIsmArtifact :=
  match path with
  | [] => current
  | domain :: path =>
      current ≫= fun cur => deployed_at path (deployed_domain (domains_of (config cur)) domain)
  end.

Definition config_at (path : list Z) (a : IsmArtifact) : option IsmArtifactConfig :=
  match node_at path a with Some (NEW c) | Some (DEPLOYED c _) => Some c | _ => None end.

(** What is deployed can serve for what is expected: multisig modules cannot be changed, and are the
    same when their thresholds and their validators are, up to case and order. *)
Definition reusable (actual expected : IsmArtifactConfig) : Prop :=
  match config_of actual, config_of expected with
  | MultisigIsm t v n, MultisigIsm t' v' n' => t = t' /\ n = n' /\ map to_lower v ≡ₚ map to_lower v'
  | a, e => ism_type a = ism_type e
  end.

Lemma multisig_json t v n :
  config_json (ArtifactConfig (MultisigIsm t v n)) =
  JFields [("type", JText (ism_type_text (ism_type (K := Z) (N := IsmArtifact) (MultisigIsm t v n))));
    ("validators", texts v); ("threshold", JNumber n)].
Proof. done. Qed.

Lemma static_multisig_equal t v n t' v' n' :
  deepEquals (normalizeConfig (config_json (ArtifactConfig (MultisigIsm t v n))))
    (normalizeConfig (config_json (ArtifactConfig (MultisigIsm t' v' n')))) = true <->
  t = t' /\ n = n' /\ map to_lower v ≡ₚ map to_lower v'.
Proof.
  rewrite !multisig_json. unfold texts. rewrite !normalize_multisig, sort_texts_perm, <- all_texts_equal.
  generalize (JArray (map JText (js_sort text_cmp (map to_lower v)))).
  generalize (JArray (map JText (js_sort text_cmp (map to_lower v')))). intros vs' vs.
  change (String.eqb (ism_type_text (ism_type (K := Z) (N := IsmArtifact) (MultisigIsm t v n)))
      (ism_type_text (ism_type (K := Z) (N := IsmArtifact) (MultisigIsm t' v' n'))) &&
    (deepEquals vs vs' && ((n =? n') && true)) = true <-> t = t' /\ n = n' /\ deepEquals vs vs' = true).
  rewrite !andb_true_iff, Z.eqb_eq. destruct t, t'; cbn; naive_solver.
Qed.

Lemma shouldDeployNewIsm_ok actual expected b :
  shouldDeployNewIsm actual expected = Ok b -> b = false <-> reusable actual expected.
Proof.
  destruct actual as [a], expected as [e]. unfold shouldDeployNewIsm. cbn [config_of].
  intros (_ & _ & H)%result_bind_ok. destruct (decide (ism_type a <> ism_type e)) as [Hne|Heq%dec_stable].
  - injection H as <-. split; [done|]. unfold reusable. cbn. intros Hr. exfalso. apply Hne.
    destruct a, e; try done. by destruct Hr as [-> _].
  - unfold is_static in H. case_bool_decide as Hst; injection H as <-.
    + rewrite negb_false_iff. unfold STATIC_ISM_TYPES in Hst.
      destruct e as [| t' v' n' | | | |]; [set_solver| | |set_solver..];
        destruct a as [| t v n | | | |]; try discriminate Heq;
        try (by destruct t'); try (by destruct t).
      * by apply static_multisig_equal.
      * by split.
    + split; [|done]. intros _. unfold reusable. cbn [config_of].
      destruct e as [| t' v' n' | | | |]; destruct a as [| t v n | | | |]; try done.
      exfalso. apply Hst. by destruct t'; set_solver.
Qed.

(** ** Merging *)

Definition expected_at (address : option string) (c : IsmArtifactConfig) : IsmArtifact :=
  match address with Some a => DEPLOYED c a | None => NEW c end.

(** The ways a merge ends: nothing is deployed, what is deployed cannot serve, it serves as it is, or
    it routes to modules that are merged one by one. *)
Lemma merge_config_cases current address expected out :
  merge_config current address expected = Ok out ->
  current = None /\ out = expected_at address expected \/
  exists cur, current = Some cur /\
    (~ reusable (config cur) expected /\ out = NEW expected \/
     reusable (config cur) expected /\
       (domains_of expected = [] /\ out = DEPLOYED expected (default (deployed cur) address) \/
        exists owner domains merged, expected = ArtifactConfig (RoutingIsm owner domains) /\
          out = DEPLOYED (ArtifactConfig (RoutingIsm owner (domain_object merged))) (default (deployed cur) address) /\
          Forall2 (fun e o => e.1 = o.1 /\
            match e.2 with
            | UNDERIVED a => o.2 = UNDERIVED a
            | NEW c => merge_config (deployed_domain (domains_of (config cur)) e.1) None c = Ok o.2
            | DEPLOYED c a => merge_config (deployed_domain (domains_of (config cur)) e.1) (Some a) c = Ok o.2
            end) domains merged)).
Proof.
  destruct expected as [e]. cbn [merge_config config_of]. intros ([] & Hw & H)%result_bind_ok.
  destruct current as [cur|]; [|injection H as <-; left; by destruct address].
  right. exists cur. split; [done|]. destruct (config cur) as [a] eqn:Hcur. cbn [config_of] in H.
  assert (Hrt : reusable (ArtifactConfig a) (ArtifactConfig e) -> ism_type a = ism_type e).
  { unfold reusable. cbn. destruct a, e; try done. by intros (-> & _). }
  destruct (decide (ism_type a <> ism_type e)) as [Hne|Heq%dec_stable].
  { injection H as <-. left. split; [|done]. by intros ?%Hrt. }
  unfold is_static in H. case_bool_decide as Hst.
  - apply result_bind_ok in H as (b & Hb & [= <-]). apply shouldDeployNewIsm_ok in Hb.
    destruct b; [left; split; [|done]; by intros ?%Hb|]. right. split; [by apply Hb|]. left. split; [|done].
    unfold STATIC_ISM_TYPES in Hst. destruct e; try done. set_solver.
  - right. unfold STATIC_ISM_TYPES in Hst.
    destruct e as [owner domains|t v n| |owner root|modules threshold|owner paused]; try done.
    + destruct a as [owner' domains'| | | | |]; try done.
      apply result_bind_ok in H as (merged & Hm & [= <-]). split; [done|]. right.
      exists owner, domains, merged. split_and!; [done..|].
      apply mapM_result_ok_inv in Hm.
      revert Hm. generalize merged. induction domains as [|[k x] domains IH]; intros l;
        inversion 1 as [|? [k' y] ? l' H1 H2]; subst; constructor; [|by apply IH].
      apply result_bind_ok in H1 as (z & H1 & [= <- <-]). split; [done|]. cbn in *.
      destruct x; [done..|]. by injection H1 as <-.
    + injection H as <-. split; [by destruct a|]. by left.
Qed.

Lemma mergeIsmArtifacts_config current expected out :
  mergeIsmArtifacts current expected = Ok out ->
  exists address c, expected = expected_at address c /\ merge_config current address c = Ok out.
Proof. destruct expected as [c|c a|a]; [exists None, c|exists (Some a), c|]; done. Qed.

Lemma sorted_merged {A B} (R : Z * A -> Z * B -> Prop) domains merged :
  sorted_domains domains -> Forall2 (fun e o => e.1 = o.1 /\ R e o) domains merged ->
  domain_object merged = merged.
Proof.
  intros Hs Hm. apply domain_object_sorted. unfold sorted_domains. by rewrite (Forall2_keys _ _ _ Hm).
Qed.

(** The configuration of what is merged is the one expected, whatever is deployed of it. *)
Lemma merge_wanted c : sorted_config c -> forall current address out,
  merge_config current address c = Ok out -> wanted out = NEW (as_new c).
Proof.
  induction c as [owner domains IH|modules threshold IH| | | |] using IsmArtifactConfig_ind';
    intros Hs current address out
      [(_ & ->)|(cur & _ & [(_ & ->)|(_ & [(_ & ->)|(o & ds & merged & [= ] & -> & Hm)])])]%merge_config_cases;
    try (by destruct address); try done.
  subst o ds. destruct Hs as [Hs Hall]. pose proof (sorted_merged _ _ _ Hs Hm) as Hmm. rewrite Hmm.
  cbn. do 3 f_equal. clear Hs Hmm. apply every_Forall in Hall. revert IH Hall.
  induction Hm as [|[k e] [k' x] domains merged [[= Hk] He] _ IHm]; intros IH Hall; [done|].
  apply Forall_cons in IH as [IHe IH], Hall as [Hse Hall]. cbn in *. subst k'. rewrite IHm by done.
  do 2 f_equal. change (wanted x = wanted e).
  destruct e as [c|c a|a]; [by eapply IHe|by eapply IHe|by rewrite He].
Qed.

Lemma node_below address c domain path :
  node_at (domain :: path) (expected_at address c) = map_get domain (domains_of c) ≫= node_at path.
Proof. by destruct address. Qed.

(** Where a merge of modules leads: to a merge of modules, or to a reference that is kept. *)
Lemma merged_node (merge : Z -> option string -> IsmArtifactConfig -> result IsmArtifact) domains merged k x :
  Forall2 (fun e o => e.1 = o.1 /\
    match e.2 with
    | UNDERIVED a => o.2 = UNDERIVED a
    | NEW c => merge e.1 None c = Ok o.2
    | DEPLOYED c a => merge e.1 (Some a) c = Ok o.2
    end) domains merged ->
  map_get k merged = Some x ->
  (exists a, x = UNDERIVED a) \/
  exists address c, (k, expected_at address c) ∈ domains /\ map_get k domains = Some (expected_at address c) /\
    merge k address c = Ok x.
Proof.
  intros Hm Hx. destruct (map_get_Forall2 _ _ _ _ _ Hm Hx) as (e & He & H). cbn in H.
  pose proof (map_get_elem _ _ _ He) as Hin.
  destruct e as [c|c a|a]; [right; by exists None, c|right; by exists (Some a), c|left; eauto].
Qed.

(** Induction along domains. *)
Lemma domains_ind (P : IsmArtifactConfig -> Prop) :
  (forall c, (forall k address c', (k, expected_at address c') ∈ domains_of c -> P c') -> P c) -> forall c, P c.
Proof.
  intros Hstep c. induction c as [owner domains IH|modules threshold IH| | | |] using IsmArtifactConfig_ind';
    apply Hstep; cbn; try (by set_solver).
  intros k address c' Hin. rewrite Forall_forall in IH. specialize (IH _ Hin). by destruct address.
Qed.

Lemma sorted_below c k address c' :
  sorted_config c -> (k, expected_at address c') ∈ domains_of c -> sorted_config c'.
Proof.
  destruct c as [[owner domains| | | | |]]; cbn; try (by set_solver).
  rewrite every_Forall, Forall_forall. intros [_ Hall] Hin. specialize (Hall _ Hin). by destruct address.
Qed.

(** A node of what is merged: it is a node of what was expected, or a node that serves, or what a merge
    leaves below. *)
Lemma merged_nodes current address c out path x :
  sorted_config c -> merge_config current address c = Ok out -> node_at path out = Some x ->
  ((current = None \/ exists cur, current = Some cur /\ ~ reusable (config cur) c) /\
   (node_at path (expected_at address c) = Some x \/ path = [] /\ x = NEW c)) \/
  exists cur, current = Some cur /\ reusable (config cur) c /\
    (path = [] /\ (exists c', x = DEPLOYED c' (default (deployed cur) address)) \/
     (exists a, x = UNDERIVED a) \/
     exists k rest address' c' x', path = k :: rest /\ (k, expected_at address' c') ∈ domains_of c /\
       map_get k (domains_of c) = Some (expected_at address' c') /\
       merge_config (deployed_domain (domains_of (config cur)) k) address' c' = Ok x' /\
       node_at rest x' = Some x).
Proof.
  intros Hs [(-> & ->)|(cur & -> & [(Hr & ->)|(Hr & [(Hleaf & ->)|(o & ds & merged & -> & -> & Hm)])])]%merge_config_cases
    Hx; [by left; split; [left|left]|left; split; [by right; eauto|]|right; exists cur; split_and!; [done..|]|
         right; exists cur; split_and!; [done..|]].
  - destruct path as [|k path]; [right; by injection Hx as <-|left]. by rewrite node_below.
  - destruct path as [|k path]; [left; injection Hx as <-; eauto|]. cbn in Hx. by rewrite Hleaf in Hx.
  - destruct path as [|k path]; [left; injection Hx as <-; eauto|right].
    destruct Hs as [Hs _]. cbn [node_at domains_of config_of] in Hx. rewrite (sorted_merged _ _ _ Hs Hm) in Hx.
    apply bind_Some in Hx as (x' & Hx' & Hx).
    eapply (merged_node (fun k => merge_config (deployed_domain (domains_of (config cur)) k)))
      in Hx' as [[a ->]|(a0 & c0 & Hin & Hget & Hmerge)]; [| |exact Hm].
    + left. destruct path; [injection Hx as <-; eauto|done].
    + right. by exists k, path, a0, c0, x'.
Qed.

Lemma merge_deployed_nodes c : sorted_config c -> forall current address out path c' d,
  merge_config current address c = Ok out -> node_at path out = Some (DEPLOYED c' d) ->
  (exists c0, node_at path (expected_at address c) = Some (DEPLOYED c0 d)) \/
  exists cc c0, deployed_at path current = Some (Build_Deployed cc d) /\
    node_at path (expected_at address c) = Some (NEW c0) /\ reusable cc c0.
Proof.
  induction c as [c IH] using domains_ind.
  intros Hs current address out path c' d Hm Hx.
  apply (merged_nodes _ _ _ _ _ _ Hs Hm) in Hx
    as [[_ [Hx|[_ ?]]]|([cc d'] & -> & Hr & [(-> & c0 & [= -> ->])|[[a ?]|
         (k & rest & a0 & c0 & x' & -> & Hin & Hget & Hm' & Hx)]])]; [by eauto|done| |done|].
  - destruct address as [a|]; [left; cbn; eauto|right; cbn; by eauto 6].
  - rewrite node_below, Hget. cbn. eapply IH; eauto using sorted_below.
Qed.

Lemma merge_new_nodes c : sorted_config c -> forall current address out path c',
  merge_config current address c = Ok out -> node_at path out = Some (NEW c') ->
  exists p, p `prefix_of` path /\ forall cur c0, deployed_at p current = Some cur ->
    config_at p (expected_at address c) = Some c0 -> ~ reusable (config cur) c0.
Proof.
  induction c as [c IH] using domains_ind.
  intros Hs current address out path c' Hm Hx.
  apply (merged_nodes _ _ _ _ _ _ Hs Hm) in Hx
    as [[Hno _]|(cur & -> & Hr & [(-> & c0 & ?)|[[a ?]|
         (k & rest & a0 & c0 & x' & -> & Hin & Hget & Hm' & Hx)]])]; [|done|done|].
  - exists []. split; [apply prefix_nil|]. intros cur c0 Hcur Hc0.
    assert (c0 = c) as -> by (unfold config_at in Hc0; destruct address; cbn in Hc0; congruence).
    destruct Hno as [->|(cur' & -> & Hr)]; [done|]. by injection Hcur as ->.
  - destruct (IH k a0 c0 Hin (sorted_below _ _ _ _ Hs Hin) _ _ _ _ _ Hm' Hx) as (p & Hp & H).
    exists (k :: p). split; [by apply prefix_cons|]. intros cur' c1 Hcur' Hc1. cbn in Hcur'.
    eapply H; [exact Hcur'|]. unfold config_at in *. rewrite node_below, Hget in Hc1. exact Hc1.
Qed.

(** C22: A merge of what is expected with what is deployed asks for exactly the configuration that is
    expected, whatever is deployed of it. Every module it counts as deployed is one that is
    deployed already: at the address that was expected there, or at the address where the chain has,
    on the same path, a module that can serve as it is (of the same type, and for multisig
    modules with the same threshold and validators up to case and order). And a module is deployed
    anew only below one that nothing on the chain could serve for. *)
Theorem merge_reuses_what_serves current expected out :
  on_config sorted_config expected -> mergeIsmArtifacts current expected = Ok out ->
  wanted out = wanted expected /\
  (forall path c address, node_at path out = Some (DEPLOYED c address) ->
     (exists c', node_at path expected = Some (DEPLOYED c' address)) \/
     exists actual c', deployed_at path current = Some (Build_Deployed actual address) /\
       node_at path expected = Some (NEW c') /\ reusable actual c') /\
  (forall path c, node_at path out = Some (NEW c) ->
     exists p, p `prefix_of` path /\ forall cur c', deployed_at p current = Some cur ->
       config_at p expected = Some c' -> ~ reusable (config cur) c').
Proof.
  intros Hs (address & c & -> & Hm)%mergeIsmArtifacts_config.
  assert (sorted_config c) as Hc by (by destruct address). split_and!.
  - rewrite (merge_wanted _ Hc _ _ _ Hm). by destruct address.
  - intros path c' a. by eapply merge_deployed_nodes.
  - intros path c'. by eapply merge_new_nodes.
Qed.
