(* ===== verification/IsmConfigFacts.v ===== *)
(** Configurations of security modules read back: names of chains become domains and domains names,
    and what is read from a chain, expected again, changes nothing. *)
From Stdlib Require Import ZArith Lia String Ascii Sorted.
From stdpp Require Import base tactics sets list strings pretty sorting.
From S2P Require Import Prelude JsMap Addresses Messages ConfigJson IsmArtifacts IsmArtifactsFacts.

#[local] Open Scope Z_scope.

(** ** Names and domains *)

(** A domain whose chain has a name that leads back to it. *)
Definition known (lookup : ChainLookup) (domain : Z) : Prop :=
  exists name, chain_name lookup domain = Some name /\ getDomainId lookup name = Some domain.

Definition known_domains {A} (lookup : ChainLookup) (domains : list (Z * A)) : Prop :=
  Forall (known lookup) domains.*1.

Fixpoint known_node (lookup : ChainLookup) (n : CompositeIsmNode Z) : Prop :=
  match n with
  | AggregationNode _ subIsms => every (known_node lookup) subIsms
  | AmountRoutingNode _ lower upper => known_node lookup lower /\ known_node lookup upper
  | RoutingNode domains | FallbackRoutingNode _ domains =>
      match domains with
      | Some domains => known_domains lookup domains /\ every (fun d => known_node lookup d.2) domains
      | None => True
      end
  | _ => True
  end.

Fixpoint known_config (lookup : ChainLookup) (c : IsmArtifactConfig) : Prop :=
  match config_of c with
  | RoutingIsm _ domains => known_domains lookup domains /\ every (fun d => on_config (known_config lookup) d.2) domains
  | AggregationIsm modules _ => every (on_config (known_config lookup)) modules
  | CompositeIsm _ root => known_node lookup root
  | _ => True
  end.

(** Nothing below is still to be deployed. *)
Fixpoint settled_config (c : IsmArtifactConfig) : Prop :=
  let settled a := match a with NEW _ => False | DEPLOYED c _ => settled_config c | UNDERIVED _ => True end in
  match config_of c with
  | RoutingIsm _ domains => every (fun d => settled d.2) domains
  | AggregationIsm modules _ => every settled modules
  | _ => True
  end.

(** Nothing that is deployed can only be read. *)
Fixpoint writable_config (c : IsmArtifactConfig) : Prop :=
  match config_of c with
  | RoutingIsm _ domains => every (fun d => on_config writable_config d.2) domains
  | c => readable_only (ism_type c) = false
  end.

Lemma name_object_app {A} (o entries : list (string * A)) :
  NoDup (o ++ entries).*1 -> foldl (fun o '(k, v) => map_set k v o) o entries = o ++ entries.
Proof.
  revert o. induction entries as [|[k v] entries IH]; intros o Hd; cbn; [by rewrite app_nil_r|].
  rewrite map_set_new, IH; [by rewrite <- app_assoc|by rewrite <- app_assoc|].
  apply map_get_None. unfold map_keys. rewrite fmap_app in Hd. cbn in Hd.
  apply NoDup_app in Hd as (_ & Hd & _). set_solver.
Qed.

(** Entries by name that stand for entries by domain come back as these. *)
Lemma names_back {A B C} lookup (f : B -> C) (g : A -> C) (es : list (Z * A)) (ns : list (string * B)) :
  Forall2 (fun e n => getDomainId lookup n.1 = Some e.1 /\ f n.2 = g e.2) es ns -> sorted_domains es ->
  name_object ns = ns /\
  domain_object (rekey (getDomainId lookup) (map (fun '(k, x) => (k, f x)) ns)) = map (fun '(k, x) => (k, g x)) es.
Proof.
  intros Hns Hs.
  assert (rekey (getDomainId lookup) (map (fun '(k, x) => (k, f x)) ns) = map (fun '(k, x) => (k, g x)) es) as ->.
  { clear Hs. induction Hns as [|[k x] [n y] es ns [Hk Hx] _ IH]; [done|]. cbn in *. rewrite Hk. cbn.
    by rewrite Hx, <- IH. }
  split; [|apply domain_object_sorted; unfold sorted_domains; by rewrite map_fst_values].
  apply (name_object_app []). cbn. apply sorted_NoDup in Hs.
  induction Hns as [|[k x] [n y] es ns [Hk _] Hns IH]; [constructor|]. cbn in *.
  apply NoDup_cons in Hs as [Hk' Hs]. constructor; [|by apply IH].
  intros Hin. apply Hk'. clear IH Hs Hk'. induction Hns as [|[k1 x1] [n1 y1] es ns [Hk1 _] _ IH]; [set_solver|].
  cbn in *. apply elem_of_cons. apply elem_of_cons in Hin as [->|Hin]; [left; congruence|right; by apply IH].
Qed.

(** ** Composite modules read back *)

Lemma known_names lookup (f : CompositeIsmNode Z -> CompositeIsmNode string) (g : CompositeIsmNode string -> CompositeIsmNode Z) ds :
  known_domains lookup ds -> sorted_domains ds -> Forall (fun d => g (f d.2) = d.2) ds ->
  domain_object (rekey (getDomainId lookup) (map (fun '(k, n) => (k, g n))
    (name_object (rekey (chain_name lookup) (map (fun '(k, n) => (k, f n)) ds))))) = ds.
Proof.
  intros Hk Hs Hg.
  destruct (names_back lookup g id ds (rekey (chain_name lookup) (map (fun '(k, n) => (k, f n)) ds)))
    as [-> ->]; [|done|].
  - clear Hs. unfold known_domains in Hk. induction ds as [|[k n] ds IH]; [constructor|]. cbn in *.
    apply Forall_cons in Hk as [(name & Hn & Hd) Hk], Hg as [Hx Hg]. rewrite Hn. constructor; [done|]. by apply IH.
  - clear. induction ds as [|[k n] ds IH]; [done|]. cbn. by f_equal.
Qed.

Lemma composite_reads_back lookup n : known_node lookup n -> sorted_node n ->
  compositeIsmNodeConfigToArtifact lookup (compositeIsmNodeArtifactToConfig lookup n) = n.
Proof.
  induction n as [| |t subs IH| | |t l u IHl IHu| |domains IH|ism domains IH] using CompositeIsmNode_ind';
    intros Hk Hs; cbn in *; try done.
  - f_equal. rewrite every_Forall in Hk, Hs. induction subs as [|n subs IHs]; [done|].
    apply Forall_cons in IH as [IHn IH], Hk as [Hkn Hk], Hs as [Hsn Hs]. cbn. f_equal; auto.
  - f_equal; naive_solver.
  - f_equal. destruct domains as [ds|]; [|done]. destruct Hk as [Hk Hkn], Hs as [Hs Hsn]. cbn. f_equal.
    apply known_names; [done..|]. rewrite every_Forall, Forall_forall in *. naive_solver.
  - f_equal. destruct domains as [ds|]; [|done]. destruct Hk as [Hk Hkn], Hs as [Hs Hsn]. cbn. f_equal.
    apply known_names; [done..|]. rewrite every_Forall, Forall_forall in *. naive_solver.
Qed.

(** ** Deployed modules read back *)

(** What a nested module of a derived configuration stands for. *)
Definition nested_artifact (lookup : ChainLookup) (x : IsmConfig + string) : IsmArtifact :=
  match x with inl c => NEW (config_to_artifact lookup c) | inr address => UNDERIVED address end.
Definition nested_config (x : DerivedIsmConfig + string) : IsmConfig + string :=
  match x with inl d => inl (underive d) | inr address => inr address end.
Definition derived_address (d : DerivedIsmConfig) : string := let 'Derived address _ := d in address.

Definition reads_back (lookup : ChainLookup) (c : IsmArtifactConfig) : Prop :=
  known_config lookup c -> sorted_config c -> settled_config c -> forall address,
  exists d, derive_config lookup address c = Ok d /\ derived_address d = address /\
    config_to_artifact lookup (underive d) = as_new c.

Lemma modules_read_back lookup modules :
  Forall (on_config (reads_back lookup)) modules ->
  Forall (on_config (known_config lookup)) modules -> Forall (on_config sorted_config) modules ->
  Forall (fun a => match a with NEW _ => False | DEPLOYED c _ => settled_config c | UNDERIVED _ => True end) modules ->
  exists ds, mapM (fun module =>
      match module with
      | DEPLOYED c a => d ← derive_config lookup a c; Ok (inl d)
      | UNDERIVED a => Ok (inr a)
      | NEW _ => Throw (Error "Cannot convert aggregation ISM to derived config: nested ISM is NEW and has no address")
      end) modules = Ok ds /\
    map (nested_artifact lookup) (map nested_config ds) = map wanted modules.
Proof.
  induction modules as [|a modules IH]; [by exists []|].
  intros [Ha Hm]%Forall_cons [Hk Hks]%Forall_cons [Hs Hss]%Forall_cons [Hn Hns]%Forall_cons.
  destruct (IH Hm Hks Hss Hns) as (ds & E & Hds). cbn. rewrite E.
  destruct a as [c|c address|address]; [done| |].
  - destruct (Ha Hk Hs Hn address) as (d & -> & _ & Hd). exists (inl d :: ds). split; [done|].
    cbn. by rewrite Hd, Hds.
  - exists (inr address :: ds). split; [done|]. cbn. by rewrite Hds.
Qed.

Lemma domains_read_back lookup domains :
  Forall (fun d => on_config (reads_back lookup) d.2) domains ->
  known_domains lookup domains -> Forall (fun d => on_config (known_config lookup) d.2) domains ->
  Forall (fun d => on_config sorted_config d.2) domains ->
  Forall (fun d => match d.2 with NEW _ => False | DEPLOYED c _ => settled_config c | UNDERIVED _ => True end) domains ->
  exists ns, mapM (fun '(domain, domainArtifact) =>
      match chain_name lookup domain with
      | None => Ok None
      | Some chainName =>
          match domainArtifact with
          | DEPLOYED c a => d ← derive_config lookup a c; Ok (Some (chainName, inl d))
          | UNDERIVED a => Ok (Some (chainName, inr a))
          | NEW _ => Throw (Error ("Cannot convert routing ISM to derived config: nested ISM for domain " +:+ chainName
                +:+ " (" +:+ pretty domain +:+ ") is NEW and has no address"))
          end
      end) domains = Ok (map Some ns) /\
    Forall2 (fun e n => getDomainId lookup n.1 = Some e.1 /\ nested_artifact lookup (nested_config n.2) = wanted e.2)
      domains ns.
Proof.
  unfold known_domains. induction domains as [|[k a] domains IH]; [by exists []|]. cbn.
  intros [Ha Hm]%Forall_cons [(name & Hn & Hd) Hd']%Forall_cons [Hk Hks]%Forall_cons [Hs Hss]%Forall_cons
    [Ht Hts]%Forall_cons. cbn in *.
  destruct (IH Hm Hd' Hks Hss Hts) as (ns & E & Hns). rewrite E, Hn.
  destruct a as [c|c address|address]; [done| |].
  - destruct (Ha Hk Hs Ht address) as (d & -> & _ & Hc). exists ((name, inl d) :: ns).
    split; [done|]. constructor; [|done]. cbn. by rewrite Hc.
  - by exists ((name, inr address) :: ns); split; [|constructor].
Qed.

Lemma omap_Some {A} (l : list A) : omap id (map Some l) = l.
Proof. induction l as [|x l IH]; [done|]. cbn. by f_equal. Qed.

Lemma derived_reads_back lookup c : reads_back lookup c.
Proof.
  induction c as [owner domains IH|modules threshold IH| | |owner root|] using IsmArtifactConfig_ind';
    intros Hk Hs Ht address; cbn in *; try (by eexists).
  - destruct Hk as [Hk Hks], Hs as [Hs Hss]. rewrite every_Forall in *.
    destruct (domains_read_back lookup domains IH Hk Hks Hss Ht) as (ns & -> & Hns). cbn. eexists.
    split_and!; [done..|]. rewrite omap_Some.
    destruct (names_back lookup (fun x => nested_artifact lookup (nested_config x)) wanted domains ns Hns Hs)
      as [-> E].
    cbn. do 2 f_equal. transitivity (map (fun '(k, x) => (k, wanted x)) domains); [|done].
    rewrite <- E, map_map. do 2 f_equal. apply map_ext. by intros [k x].
  - rewrite every_Forall in *.
    destruct (modules_read_back lookup modules IH Hk Hs Ht) as (ds & -> & Hds). cbn. eexists.
    split_and!; [done..|]. cbn. do 2 f_equal. exact Hds.
  - eexists. split_and!; [done..|]. cbn. by rewrite composite_reads_back.
Qed.

(** ** What is read and expected again *)

Lemma merge_domains_as_new domains :
  sorted_domains domains ->
  Forall (fun d => on_config (fun c => forall address,
    merge_config (Some (Build_Deployed c address)) None (as_new c) = Ok (DEPLOYED c address)) d.2) domains ->
  Forall (fun d => isArtifactNew d.2 = false) domains ->
  mapM (fun '(domain, expectedDomainIsm) =>
    let current := deployed_domain domains domain in
    merged ← match expectedDomainIsm with
             | NEW c => merge_config current None c
             | DEPLOYED c a => merge_config current (Some a) c
             | UNDERIVED a => Ok (UNDERIVED a)
             end;
    Ok (domain, merged)) (map (fun '(k, a) => (k, wanted a)) domains) = Ok domains.
Proof.
  intros Hs Hall Hn. apply mapM_result_ok_inv.
  assert (forall d, d ∈ domains -> map_get d.1 domains = Some d.2) as Hget.
  { intros [k x] Hin. apply map_elem_get; [by apply sorted_NoDup|done]. }
  revert Hget. generalize domains at 2 3 as all. intros all Hget. clear Hs.
  induction domains as [|[k a] domains IH]; [constructor|].
  apply Forall_cons in Hall as [Ha Hall], Hn as [Hna Hn]. cbn in *. constructor.
  - pose proof (Hget (k, a) ltac:(apply list_elem_of_here)) as E. cbn in E |- *.
    unfold deployed_domain. rewrite E. destruct a as [c|c address|address]; [done| |done].
    cbn [wanted on_config] in *. by rewrite Ha.
  - apply IH; [done..|]. intros d Hd. apply Hget. by apply list_elem_of_further.
Qed.

Lemma merge_as_new c : sorted_config c -> settled_config c -> writable_config c -> forall address,
  merge_config (Some (Build_Deployed c address)) None (as_new c) = Ok (DEPLOYED c address).
Proof.
  induction c as [owner domains IH|modules threshold IH|t v n| |owner root|owner paused] using IsmArtifactConfig_ind';
    intros Hs Ht Hw address; cbn in Hw; try done.
  - destruct Hs as [Hs Hss]. cbn in Ht. rewrite every_Forall in *.
    unshelve epose proof (merge_domains_as_new domains Hs _ _) as E.
    { rewrite Forall_forall in *. intros d Hd. specialize (IH d Hd). specialize (Hss d Hd).
      specialize (Ht d Hd). specialize (Hw d Hd). destruct (d.2); [done|intros a; by apply IH|done]. }
    { rewrite Forall_forall in *. intros d Hd. specialize (Ht d Hd). by destruct (d.2). }
    match type of E with
    | ?merging = _ =>
        change ((merging ≫= fun merged =>
          Ok (DEPLOYED (ArtifactConfig (RoutingIsm owner (domain_object merged))) address)) =
          Ok (DEPLOYED (ArtifactConfig (RoutingIsm owner domains)) address))
    end.
    rewrite E. cbn. by rewrite domain_object_sorted.
  - assert (deepEquals (normalizeConfig (config_json (ArtifactConfig (MultisigIsm t v n))))
      (normalizeConfig (config_json (ArtifactConfig (MultisigIsm t v n)))) = true) as E
      by (by apply static_multisig_equal).
    unfold merge_config, shouldDeployNewIsm, as_new. cbn [config_of config].
    destruct t; cbn -[deepEquals normalizeConfig config_json]; by rewrite E.
Qed.

