(* ===== verification/IsmRecipientFacts.v ===== *)
(** Whom rate limits protect: what resolving an artifact for a warp route leaves in its tree, and
    which artifacts a mailbox takes as its default. *)
From Stdlib Require Import ZArith Lia String Ascii Sorted.
From stdpp Require Import base tactics sets list strings pretty sorting.
From S2P Require Import Prelude JsMap Addresses Messages.
From S2P Require Import AddressEq ConfigJson IsmArtifacts IsmArtifactsFacts IsmConfigFacts.

#[local] Open Scope Z_scope.

(** ** Recipients of a tree *)

Fixpoint node_recipients (n : CompositeIsmNode Z) : list (option string) :=
  match n with
  | AggregationNode _ subIsms => concat (map node_recipients subIsms)
  | AmountRoutingNode _ lower upper => node_recipients lower ++ node_recipients upper
  | RateLimitedNode _ _ recipient => [recipient]
  | RoutingNode domains | FallbackRoutingNode _ domains =>
      match domains with Some domains => concat (map (fun d => node_recipients d.2) domains) | None => [] end
  | _ => []
  end.

Fixpoint config_recipients (c : IsmArtifactConfig) : list (option string) :=
  let nested a := match a with NEW c | DEPLOYED c _ => config_recipients c | UNDERIVED _ => [] end in
  match config_of c with
  | RoutingIsm _ domains => concat (map (fun d => nested d.2) domains)
  | AggregationIsm modules _ => concat (map nested modules)
  | CompositeIsm _ root => node_recipients root
  | _ => []
  end.

Definition recipients (a : IsmArtifact) : list (option string) :=
  match a with NEW c | DEPLOYED c _ => config_recipients c | UNDERIVED _ => [] end.

(** The tree with every recipient set to [r]. *)
Fixpoint set_node_recipients (r : option string) (n : CompositeIsmNode Z) : CompositeIsmNode Z :=
  let nested := map (fun '(k, n) => (k, set_node_recipients r n)) in
  match n with
  | AggregationNode threshold subIsms => AggregationNode threshold (map (set_node_recipients r) subIsms)
  | AmountRoutingNode threshold lower upper =>
      AmountRoutingNode threshold (set_node_recipients r lower) (set_node_recipients r upper)
  | RateLimitedNode maxCapacity mailbox _ => RateLimitedNode maxCapacity mailbox r
  | RoutingNode domains => RoutingNode (nested <$> domains)
  | FallbackRoutingNode fallbackIsm domains => FallbackRoutingNode fallbackIsm (nested <$> domains)
  | n => n
  end.

Fixpoint set_config_recipients (r : option string) (c : IsmArtifactConfig) : IsmArtifactConfig :=
  let nested a :=
    match a with
    | NEW c => NEW (set_config_recipients r c)
    | DEPLOYED c address => DEPLOYED (set_config_recipients r c) address
    | UNDERIVED address => UNDERIVED address
    end in
  ArtifactConfig
    match config_of c with
    | RoutingIsm owner domains => RoutingIsm owner (map (fun '(k, a) => (k, nested a)) domains)
    | AggregationIsm modules threshold => AggregationIsm (map nested modules) threshold
    | CompositeIsm owner root => CompositeIsm owner (set_node_recipients r root)
    | c => c
    end.

Definition set_recipients (r : option string) (a : IsmArtifact) : IsmArtifact :=
  match a with
  | NEW c => NEW (set_config_recipients r c)
  | DEPLOYED c address => DEPLOYED (set_config_recipients r c) address
  | UNDERIVED address => UNDERIVED address
  end.

(** A recipient that is given is [r]; one that protects [r] is given. *)
Definition allows (r : string) (o : option string) : Prop :=
  match o with Some s => normalizeRecipientBytes32 s = Ok r | None => True end.
Definition protects (r : string) (o : option string) : Prop :=
  match o with Some s => normalizeRecipientBytes32 s = Ok r | None => False end.

(** ** Composite nodes *)

Lemma each_ok {A} (f : A -> result unit) l : each f l = Ok () <-> Forall (fun x => f x = Ok ()) l.
Proof.
  induction l as [|x l IH]; cbn; [split; [constructor|done]|].
  rewrite Forall_cons, <- IH, result_bind_ok. split; [by intros ([] & ? & ?)|intros [? ?]; by exists ()].
Qed.

Lemma Forall_concat_map {A B} (P : B -> Prop) (f : A -> list B) l :
  Forall P (concat (map f l)) <-> Forall (fun x => Forall P (f x)) l.
Proof. induction l as [|x l IH]; cbn; [split; constructor|]. by rewrite Forall_app, Forall_cons, IH. Qed.

Lemma Forall_iff_elem {A} (P Q : A -> Prop) l : (forall x, x ∈ l -> P x <-> Q x) -> Forall P l <-> Forall Q l.
Proof. rewrite !Forall_forall. naive_solver. Qed.

(** Changing each element by a function that may throw, when each throws or is changed as [g] does. *)
Lemma mapM_exact {A} (P : A -> Prop) (f : A -> result A) (g : A -> A) l l' :
  Forall (fun x => forall y, f x = Ok y <-> P x /\ y = g x) l ->
  mapM f l = Ok l' <-> Forall P l /\ l' = map g l.
Proof.
  rewrite mapM_result_ok_inv. revert l'. induction l as [|x l IH]; intros l' Hl.
  - split; [inversion 1; by repeat constructor|intros [_ ->]; constructor].
  - apply Forall_cons in Hl as [Hx Hl]. rewrite Forall_cons. cbn. split.
    + inversion 1 as [|? y ? l1 H1 H2]; subst. apply Hx in H1 as [? ->].
      apply (IH _ Hl) in H2 as [? ->]. done.
    + intros [[? ?] ->]. constructor; [by apply Hx|by apply IH].
Qed.

Lemma mapM_domains_exact {A} (P : A -> Prop) (f : A -> result A) (g : A -> A) (l l' : list (Z * A)) :
  Forall (fun d => forall y, f d.2 = Ok y <-> P d.2 /\ y = g d.2) l ->
  mapM (fun '(k, x) => y ← f x; Ok (k, y)) l = Ok l' <->
  Forall (fun d => P d.2) l /\ l' = map (fun '(k, x) => (k, g x)) l.
Proof.
  intros Hl. rewrite (mapM_exact (fun d => P d.2) _ (fun '(k, x) => (k, g x))); [done|].
  eapply Forall_impl; [exact Hl|]. intros [k x] Hx [k' y]. cbn in *. rewrite result_bind_ok. split.
  - intros (y' & Hy & [= <- <-]). apply Hx in Hy as [? ->]. done.
  - intros [? [= -> ->]]. exists (g x). split; [by apply Hx|done].
Qed.

Lemma sorted_values {A B} (f : A -> B) (l : list (Z * A)) :
  sorted_domains l -> domain_object (map (fun '(k, x) => (k, f x)) l) = map (fun '(k, x) => (k, f x)) l.
Proof. intros Hs. apply domain_object_sorted. unfold sorted_domains. by rewrite map_fst_values. Qed.

Lemma matches_recipient s r msg :
  (normalized ← normalizeRecipientBytes32 s; js_assert (String.eqb normalized r) msg) = Ok () <->
  normalizeRecipientBytes32 s = Ok r.
Proof.
  rewrite result_bind_ok. split.
  - by intros (x & Hx & ->%js_assert_ok%String.eqb_eq).
  - intros H. exists r. split; [done|]. by apply js_assert_ok, String.eqb_eq.
Qed.

Lemma resolve_domains_exact (P : CompositeIsmNode Z -> Prop) (f : CompositeIsmNode Z -> result (CompositeIsmNode Z)) g ds o :
  sorted_domains ds -> Forall (fun d => forall y, f d.2 = Ok y <-> P d.2 /\ y = g d.2) ds ->
  (resolved ← mapM (fun '(domain, n) => n ← f n; Ok (domain, n)) ds; Ok (Some (domain_object resolved))) = Ok o <->
  Forall (fun d => P d.2) ds /\ o = Some (map (fun '(k, n) => (k, g n)) ds).
Proof.
  intros Hs Hf. rewrite result_bind_ok. split.
  - intros (l & [HP ->]%(mapM_domains_exact P f g) & [= <-]); [|done]. by rewrite sorted_values.
  - intros [HP ->]. exists (map (fun '(k, n) => (k, g n)) ds).
    split; [by apply (mapM_domains_exact P f g)|]. by rewrite sorted_values.
Qed.

Lemma resolve_node_exact r context n : sorted_node n -> forall n',
  resolveCompositeIsmNodeRecipients r context n = Ok n' <->
  Forall (allows r) (node_recipients n) /\ n' = set_node_recipients (Some r) n.
Proof.
  assert (forall (l : list (Z * CompositeIsmNode Z)),
    every (fun d => sorted_node d.2) l ->
    Forall (fun d => sorted_node d.2 -> forall n', resolveCompositeIsmNodeRecipients r context d.2 = Ok n' <->
      Forall (allows r) (node_recipients d.2) /\ n' = set_node_recipients (Some r) d.2) l ->
    Forall (fun d => forall n', resolveCompositeIsmNodeRecipients r context d.2 = Ok n' <->
      Forall (allows r) (node_recipients d.2) /\ n' = set_node_recipients (Some r) d.2) l) as Hsub.
  { intros l Hl. rewrite every_Forall in Hl. rewrite !Forall_forall in *. naive_solver. }
  induction n as [| |t subs IH| | |t l u IHl IHu|c m o|domains IH|ism domains IH] using CompositeIsmNode_ind';
    intros Hs n'; cbn in Hs |- *;
    try (split; [intros [= <-]; by repeat constructor|by intros [_ ->]]).
  - rewrite Forall_concat_map, result_bind_ok. rewrite every_Forall in Hs.
    assert (Forall (fun n => forall n', resolveCompositeIsmNodeRecipients r context n = Ok n' <->
      Forall (allows r) (node_recipients n) /\ n' = set_node_recipients (Some r) n) subs) as Hf.
    { rewrite !Forall_forall in *. naive_solver. }
    split.
    + intros (l & [HP ->]%(mapM_exact (fun n => Forall (allows r) (node_recipients n)) _ _ _ _ Hf) & [= <-]). done.
    + intros [HP ->]. eexists. split; [by apply (mapM_exact (fun n => Forall (allows r) (node_recipients n)) _ _ _ _ Hf)|done].
  - destruct Hs as [Hl Hu]. rewrite Forall_app, result_bind_ok. split.
    + intros (l' & [? ->]%IHl & (u' & [? ->]%IHu & [= <-])%result_bind_ok); done.
    + intros [[H1 H2] ->]. eexists. split; [by apply IHl|]. apply result_bind_ok.
      eexists. split; [by apply IHu|done].
  - rewrite result_bind_ok. destruct o as [s|].
    + split.
      * intros ([] & Hm%matches_recipient & [= <-]). by repeat constructor.
      * intros [[Hm _]%Forall_cons ->]. exists (). split; [by apply matches_recipient|done].
    + split; [intros ([] & _ & [= <-]); by repeat constructor|intros [_ ->]; by exists ()].
  - destruct domains as [ds|]; cbn in IH; [|split; [intros [= <-]; by repeat constructor|by intros [_ ->]]].
    destruct Hs as [Hs Hss]. rewrite Forall_concat_map, result_bind_ok.
    split.
    + intros (o & [HP ->]%(resolve_domains_exact (fun n => Forall (allows r) (node_recipients n)) _ _ _ _ Hs (Hsub ds Hss IH)) & [= <-]). done.
    + intros [HP ->]. eexists. split; [by apply (resolve_domains_exact (fun n => Forall (allows r) (node_recipients n)) _ _ _ _ Hs (Hsub ds Hss IH))|done].
  - destruct domains as [ds|]; cbn in IH; [|split; [intros [= <-]; by repeat constructor|by intros [_ ->]]].
    destruct Hs as [Hs Hss]. rewrite Forall_concat_map, result_bind_ok.
    split.
    + intros (o & [HP ->]%(resolve_domains_exact (fun n => Forall (allows r) (node_recipients n)) _ _ _ _ Hs (Hsub ds Hss IH)) & [= <-]). done.
    + intros [HP ->]. eexists. split; [by apply (resolve_domains_exact (fun n => Forall (allows r) (node_recipients n)) _ _ _ _ Hs (Hsub ds Hss IH))|done].
Qed.

(** ** Letter case *)

Lemma to_lower_length s : String.length (to_lower s) = String.length s.
Proof. induction s as [|c s IH]; [done|]. cbn. by f_equal. Qed.

Lemma lower_hex s : string_all is_hex_digit s = true -> string_all is_hex_digit (to_lower s) = true.
Proof.
  induction s as [|c s IH]; [done|]. cbn. rewrite !andb_true_iff. intros [Hc Hs]. split; [|by apply IH].
  clear IH Hs s. destruct c as [[] [] [] [] [] [] [] []]; vm_compute in Hc |- *; done.
Qed.

(** ** Trees of modules *)

Section router.
Context (warpRouter : ContextualAddress) (context r : string).
Hypothesis Hr : router_recipient warpRouter = Ok r.

Definition resolve_nested (a : IsmArtifact) : result IsmArtifact :=
  match a with
  | UNDERIVED address => Ok (UNDERIVED address)
  | NEW c => c ← resolveRateLimitedIsmRecipients warpRouter context c; Ok (NEW c)
  | DEPLOYED c address => c ← resolveRateLimitedIsmRecipients warpRouter context c; Ok (DEPLOYED c address)
  end.

(** Resolution succeeds exactly if the recipients that are given are the router, and sets them all. *)
Definition resolves_exactly (c : IsmArtifactConfig) : Prop :=
  sorted_config c -> forall c', resolveRateLimitedIsmRecipients warpRouter context c = Ok c' <->
    Forall (allows r) (config_recipients c) /\ c' = set_config_recipients (Some r) c.

Lemma resolve_nested_exact a : on_config resolves_exactly a -> on_config sorted_config a ->
  forall y, resolve_nested a = Ok y <-> Forall (allows r) (recipients a) /\ y = set_recipients (Some r) a.
Proof.
  intros Ha Hs y. destruct a as [c|c address|address]; cbn in *.
  - rewrite result_bind_ok. split; [by intros (c' & [? ->]%(Ha Hs) & [= <-])|].
    intros [? ->]. eexists. split; [by apply (Ha Hs)|done].
  - rewrite result_bind_ok. split; [by intros (c' & [? ->]%(Ha Hs) & [= <-])|].
    intros [? ->]. eexists. split; [by apply (Ha Hs)|done].
  - split; [intros [= <-]; by repeat constructor|by intros [_ ->]].
Qed.

Lemma resolve_config_exact c : resolves_exactly c.
Proof.
  induction c as [owner domains IH|modules threshold IH| | |owner root|] using IsmArtifactConfig_ind';
    intros Hs c'; cbn in Hs; try (split; [intros [= <-]; by repeat constructor|by intros [_ ->]]).
  - destruct Hs as [Hs Hss]. rewrite every_Forall in Hss.
    assert (Forall (fun d => forall y, resolve_nested d.2 = Ok y <->
      Forall (allows r) (recipients d.2) /\ y = set_recipients (Some r) d.2) domains) as Hf.
    { rewrite !Forall_forall in *. intros d Hd. by apply resolve_nested_exact; [apply IH|apply Hss]. }
    change ((domains ← mapM (fun '(domain, a) => a ← resolve_nested a; Ok (domain, a)) domains;
      Ok (ArtifactConfig (RoutingIsm owner (domain_object domains)))) = Ok c' <->
      Forall (allows r) (concat (map (fun d => recipients d.2) domains)) /\
      c' = ArtifactConfig (RoutingIsm owner (map (fun '(k, a) => (k, set_recipients (Some r) a)) domains))).
    rewrite Forall_concat_map, result_bind_ok. split.
    + intros (l & [HP ->]%(mapM_domains_exact (fun a => Forall (allows r) (recipients a)) _ _ _ _ Hf) & [= <-]).
      by rewrite sorted_values.
    + intros [HP ->]. eexists. split.
      * by apply (mapM_domains_exact (fun a => Forall (allows r) (recipients a)) _ _ _ _ Hf).
      * by rewrite sorted_values.
  - rewrite every_Forall in Hs.
    assert (Forall (fun a => forall y, resolve_nested a = Ok y <->
      Forall (allows r) (recipients a) /\ y = set_recipients (Some r) a) modules) as Hf.
    { rewrite !Forall_forall in *. intros d Hd. by apply resolve_nested_exact; [apply IH|apply Hs]. }
    change ((modules ← mapM resolve_nested modules; Ok (ArtifactConfig (AggregationIsm modules threshold))) = Ok c' <->
      Forall (allows r) (concat (map recipients modules)) /\
      c' = ArtifactConfig (AggregationIsm (map (set_recipients (Some r)) modules) threshold)).
    rewrite Forall_concat_map, result_bind_ok. split.
    + intros (l & [HP ->]%(mapM_exact (fun a => Forall (allows r) (recipients a)) _ _ _ _ Hf) & [= <-]). done.
    + intros [HP ->]. eexists. split; [|done].
      by apply (mapM_exact (fun a => Forall (allows r) (recipients a)) _ _ _ _ Hf).
  - cbn. rewrite Hr. cbn. rewrite result_bind_ok. split.
    + intros (n & [? ->]%resolve_node_exact & [= <-]); done.
    + intros [HP ->]. eexists. split; [by apply resolve_node_exact|done].
Qed.

(** ** What is deployed already *)

Lemma node_matches_exact n :
  assertCompositeIsmNodeRecipientMatches warpRouter context n = Ok () <-> Forall (protects r) (node_recipients n).
Proof.
  induction n as [| |t subs IH| | |t l u IHl IHu|c m o|domains IH|ism domains IH] using CompositeIsmNode_ind'; cbn;
    try (split; [by constructor|done]).
  - rewrite each_ok, Forall_concat_map. apply Forall_iff_elem. by apply Forall_forall.
  - rewrite Forall_app, <- IHl, <- IHu, result_bind_ok. split; [by intros ([] & ? & ?)|intros [? ?]; by exists ()].
  - rewrite Hr. cbn. rewrite Forall_singleton. destruct o as [s|]; [|done]. apply matches_recipient.
  - destruct domains as [ds|]; [|split; [by constructor|done]]. rewrite each_ok, Forall_concat_map.
    apply Forall_iff_elem. rewrite Forall_forall in IH. intros [k n] Hn. by apply (IH (k, n)).
  - destruct domains as [ds|]; [|split; [by constructor|done]]. rewrite each_ok, Forall_concat_map.
    apply Forall_iff_elem. rewrite Forall_forall in IH. intros [k n] Hn. by apply (IH (k, n)).
Qed.

Lemma config_matches_exact c :
  assertIsmConfigRecipientsMatch warpRouter context c = Ok () <-> Forall (protects r) (config_recipients c).
Proof.
  induction c as [owner domains IH|modules threshold IH| | |owner root|] using IsmArtifactConfig_ind'; cbn;
    try (split; [by constructor|done]); [| |apply node_matches_exact].
  - rewrite each_ok, Forall_concat_map. apply Forall_iff_elem. rewrite Forall_forall in IH.
    intros [k a] Ha. specialize (IH _ Ha). destruct a; cbn in *; [done..|by split; [constructor|]].
  - rewrite each_ok, Forall_concat_map. apply Forall_iff_elem. rewrite Forall_forall in IH.
    intros a Ha. specialize (IH _ Ha). destruct a; cbn in *; [done..|by split; [constructor|]].
Qed.

Lemma no_new_exact c : assertNoNewIsmDescendants context c = Ok () <-> settled_config c.
Proof.
  induction c as [owner domains IH|modules threshold IH| | | |] using IsmArtifactConfig_ind'; cbn; try done.
  - rewrite each_ok, every_Forall. apply Forall_iff_elem. rewrite Forall_forall in IH.
    intros [k a] Ha. specialize (IH _ Ha). by destruct a; cbn in *.
  - rewrite each_ok, every_Forall. apply Forall_iff_elem. rewrite Forall_forall in IH.
    intros a Ha. specialize (IH _ Ha). by destruct a; cbn in *.
Qed.

(** ** What is new *)

Fixpoint protect_new (c : IsmArtifactConfig) : IsmArtifactConfig :=
  match c with
  | ArtifactConfig (RoutingIsm owner domains) =>
      ArtifactConfig (RoutingIsm owner (map (fun '(k, a) => (k,
        match a with NEW c => NEW (protect_new c) | a => a end)) domains))
  | c => set_config_recipients (Some r) c
  end.

Fixpoint can_protect_new (c : IsmArtifactConfig) : Prop :=
  match c with
  | ArtifactConfig (RoutingIsm owner domains) =>
      every (fun d =>
        match d.2 with
        | NEW c => can_protect_new c
        | DEPLOYED c _ => Forall (protects r) (config_recipients c)
        | UNDERIVED _ => True
        end) domains
  | c => Forall (allows r) (config_recipients c)
  end.

Lemma resolve_new_exact c : sorted_config c -> forall c',
  resolveNewIsmConfigRecipients warpRouter context c = Ok c' <-> can_protect_new c /\ c' = protect_new c.
Proof.
  induction c as [owner domains IH|modules threshold IH| | |owner root|] using IsmArtifactConfig_ind';
    intros Hs c'; try (by apply resolve_config_exact).
  destruct Hs as [Hs Hss]. rewrite every_Forall in Hss. cbn.
  set (f := fun domainIsm =>
    match domainIsm with
    | UNDERIVED address => Ok (UNDERIVED address)
    | DEPLOYED c address => _ ← assertIsmConfigRecipientsMatch warpRouter context c; Ok (DEPLOYED c address)
    | NEW c => c ← resolveNewIsmConfigRecipients warpRouter context c; Ok (NEW c)
    end).
  set (P := fun a : IsmArtifact =>
    match a with
    | NEW c => can_protect_new c
    | DEPLOYED c _ => Forall (protects r) (config_recipients c)
    | UNDERIVED _ => True
    end).
  set (g := fun a : IsmArtifact => match a with NEW c => NEW (protect_new c) | a => a end).
  assert (Forall (fun d => forall y, f d.2 = Ok y <-> P d.2 /\ y = g d.2) domains) as Hf.
  { rewrite !Forall_forall in *. intros [k a] Hd y. specialize (IH _ Hd). specialize (Hss _ Hd). cbn in *.
    destruct a as [c|c address|address]; cbn in *; [| |naive_solver].
    - rewrite result_bind_ok. specialize (IH Hss). split; [by intros (c1 & [? ->]%IH & [= <-])|].
      intros [? ->]. eexists. split; [by apply IH|done].
    - rewrite result_bind_ok. split; [intros ([] & ?%config_matches_exact & [= <-]); done|].
      intros [? ->]. exists (). split; [by apply config_matches_exact|done]. }
  change ((domains ← mapM (fun '(domain, a) => a ← f a; Ok (domain, a)) domains;
    Ok (ArtifactConfig (RoutingIsm owner (domain_object domains)))) = Ok c' <->
    every (fun d => P d.2) domains /\
    c' = ArtifactConfig (RoutingIsm owner (map (fun '(k, a) => (k, g a)) domains))).
  rewrite every_Forall, result_bind_ok. split.
  - intros (l & [HP ->]%(mapM_domains_exact P _ _ _ _ Hf) & [= <-]). by rewrite sorted_values.
  - intros [HP ->]. eexists. split; [by apply (mapM_domains_exact P _ _ _ _ Hf)|]. by rewrite sorted_values.
Qed.

(** ** What the results hold *)

Lemma router_protects : protects r (Some r).
Proof.
  unfold router_recipient in Hr. apply result_bind_ok in Hr as (s & _ & Hs).
  unfold normalizeRecipientBytes32 in Hs. apply result_bind_ok in Hs as ([] & Hs%js_assert_ok & [= <-]).
  unfold protects, normalizeRecipientBytes32.
  assert (RECIPIENT_BYTES32_REGEX (to_lower s) = true) as ->.
  { destruct s as [|c s]; [done|]. destruct c as [[] [] [] [] [] [] [] []]; try done.
    destruct s as [|c s]; [done|]. destruct c as [[] [] [] [] [] [] [] []]; try done.
    change (to_lower (String "0" (String "x" s))) with (String "0" (String "x" (to_lower s))).
    cbn [RECIPIENT_BYTES32_REGEX] in *. apply andb_true_iff in Hs as [Hd Hl].
    by rewrite to_lower_length, Hl, lower_hex. }
  cbn. by rewrite to_lower_idemp.
Qed.

Lemma set_node_protects n : Forall (protects r) (node_recipients (set_node_recipients (Some r) n)).
Proof.
  pose proof router_protects as Hp.
  induction n as [| |t subs IH| | |t l u IHl IHu|c m o|domains IH|ism domains IH] using CompositeIsmNode_ind'; cbn;
    try (by constructor).
  - by rewrite Forall_concat_map, Forall_map.
  - by apply Forall_app.
  - destruct domains as [ds|]; [|by constructor]. cbn. rewrite Forall_concat_map, Forall_map.
    eapply Forall_impl; [exact IH|]. by intros [].
  - destruct domains as [ds|]; [|by constructor]. cbn. rewrite Forall_concat_map, Forall_map.
    eapply Forall_impl; [exact IH|]. by intros [].
Qed.

Lemma set_config_protects c : Forall (protects r) (config_recipients (set_config_recipients (Some r) c)).
Proof.
  induction c as [owner domains IH|modules threshold IH| | |owner root|] using IsmArtifactConfig_ind'; cbn;
    try (by constructor); [| |apply set_node_protects].
  - rewrite Forall_concat_map, Forall_map. eapply Forall_impl; [exact IH|].
    intros [k []]; cbn; [done..|constructor].
  - rewrite Forall_concat_map, Forall_map. eapply Forall_impl; [exact IH|]. intros []; cbn; [done..|constructor].
Qed.

Lemma protect_new_protects c : can_protect_new c -> Forall (protects r) (config_recipients (protect_new c)).
Proof.
  induction c as [owner domains IH|modules threshold IH| | |owner root|] using IsmArtifactConfig_ind';
    intros Hc; try apply set_config_protects.
  cbn in *. rewrite every_Forall in Hc. rewrite Forall_concat_map, Forall_map.
  rewrite !Forall_forall in *. intros [k a] Ha. specialize (IH _ Ha). specialize (Hc _ Ha). cbn in *.
  destruct a; cbn; [by apply IH|done|constructor].
Qed.

Lemma protect_new_keeps c path c' address :
  node_at path (NEW c) = Some (DEPLOYED c' address) -> node_at path (NEW (protect_new c)) = Some (DEPLOYED c' address).
Proof.
  revert path. induction c as [owner domains IH|modules threshold IH| | | |] using IsmArtifactConfig_ind';
    intros [|k path]; try done.
  cbn. intros (a & Ha & Hx)%bind_Some. rewrite Forall_forall in IH.
  specialize (IH _ (map_get_elem _ _ _ Ha)). rewrite map_get_values, Ha. cbn.
  destruct a as [c|c a|a]; cbn in *; [by apply IH|done..].
Qed.

End router.

(** Everything but recipients is kept. *)
Lemma set_node_twice r n : set_node_recipients None (set_node_recipients r n) = set_node_recipients None n.
Proof.
  induction n as [| |t subs IH| | |t l u IHl IHu|c m o|domains IH|ism domains IH] using CompositeIsmNode_ind'; cbn;
    try done.
  - f_equal. rewrite map_map. apply map_ext_Forall. done.
  - by f_equal.
  - f_equal. destruct domains as [ds|]; [|done]. cbn. f_equal. rewrite map_map. apply map_ext_Forall.
    eapply Forall_impl; [exact IH|]. intros [k n] Hn. cbn in *. by f_equal.
  - f_equal. destruct domains as [ds|]; [|done]. cbn. f_equal. rewrite map_map. apply map_ext_Forall.
    eapply Forall_impl; [exact IH|]. intros [k n] Hn. cbn in *. by f_equal.
Qed.

Lemma set_config_twice r c : set_config_recipients None (set_config_recipients r c) = set_config_recipients None c.
Proof.
  induction c as [owner domains IH|modules threshold IH| | |owner root|] using IsmArtifactConfig_ind'; cbn; try done.
  - do 2 f_equal. rewrite map_map. apply map_ext_Forall. eapply Forall_impl; [exact IH|].
    intros [k []] Ha; cbn in *; by rewrite ?Ha.
  - do 2 f_equal. rewrite map_map. apply map_ext_Forall. eapply Forall_impl; [exact IH|].
    intros [] Ha; cbn in *; by rewrite ?Ha.
  - by rewrite set_node_twice.
Qed.

Lemma protect_new_wants r c : set_config_recipients None (protect_new r c) = set_config_recipients None c.
Proof.
  induction c as [owner domains IH|modules threshold IH| | |owner root|] using IsmArtifactConfig_ind';
    try apply set_config_twice.
  cbn. do 2 f_equal. rewrite map_map. apply map_ext_Forall. eapply Forall_impl; [exact IH|].
  intros [k []] Ha; cbn in *; by rewrite ?Ha.
Qed.

(** ** Resolution *)

(** When an artifact can be resolved for the router [r]. *)
Definition resolvable (r : string) (operation : IsmArtifactResolutionOperation) (a : IsmArtifact) : Prop :=
  match a, operation with
  | NEW c, _ => can_protect_new r c
  | DEPLOYED c _, CREATE => settled_config c /\ Forall (protects r) (config_recipients c)
  | DEPLOYED c _, UPDATE => Forall (allows r) (config_recipients c)
  | UNDERIVED _, _ => False
  end.

Lemma resolve_artifact_exact warpRouter context r operation a out :
  router_recipient warpRouter = Ok r -> on_config sorted_config a ->
  resolveIsmArtifact a operation warpRouter context = Ok out <->
  resolvable r operation a /\
  out = match a, operation with
        | NEW c, _ => NEW (protect_new r c)
        | DEPLOYED c address, UPDATE => DEPLOYED (set_config_recipients (Some r) c) address
        | a, _ => a
        end.
Proof.
  intros Hr Hs. destruct a as [c|c address|address], operation; cbn in *; rewrite ?result_bind_ok; try (by split; [|intros []]).
  - split; [by intros (c' & [? ->]%(resolve_new_exact _ _ _ Hr _ Hs) & [= <-])|].
    intros [? ->]. eexists. split; [by apply (resolve_new_exact _ _ _ Hr _ Hs)|done].
  - split; [by intros (c' & [? ->]%(resolve_new_exact _ _ _ Hr _ Hs) & [= <-])|].
    intros [? ->]. eexists. split; [by apply (resolve_new_exact _ _ _ Hr _ Hs)|done].
  - split.
    + by intros ([] & ?%no_new_exact & ([] & ?%(config_matches_exact _ _ _ Hr) & [= <-])%result_bind_ok).
    + intros [[? ?] ->]. exists (). split; [by apply no_new_exact|]. apply result_bind_ok.
      exists (). split; [by apply (config_matches_exact _ _ _ Hr)|done].
  - split; [by intros (c' & [? ->]%(resolve_config_exact _ _ _ Hr _ Hs) & [= <-])|].
    intros [? ->]. eexists. split; [by apply (resolve_config_exact _ _ _ Hr _ Hs)|done].
Qed.


(** ** Defaults of mailboxes *)

Lemma node_default_exact context n :
  assertCompositeIsmNodeSupportedAsMailboxDefault context n = Ok () <-> Forall (fun _ => False) (node_recipients n).
Proof.
  induction n as [| |t subs IH| | |t l u IHl IHu|c m o|domains IH|ism domains IH] using CompositeIsmNode_ind'; cbn;
    try (split; [by constructor|done]).
  - rewrite each_ok, Forall_concat_map. apply Forall_iff_elem. by apply Forall_forall.
  - rewrite Forall_app, <- IHl, <- IHu, result_bind_ok. split; [by intros ([] & ? & ?)|intros [? ?]; by exists ()].
  - rewrite Forall_singleton. done.
  - destruct domains as [ds|]; [|split; [by constructor|done]]. rewrite each_ok, Forall_concat_map.
    apply Forall_iff_elem. rewrite Forall_forall in IH. intros [k n] Hn. by apply (IH (k, n)).
  - destruct domains as [ds|]; [|split; [by constructor|done]]. rewrite each_ok, Forall_concat_map.
    apply Forall_iff_elem. rewrite Forall_forall in IH. intros [k n] Hn. by apply (IH (k, n)).
Qed.

Lemma config_default_exact context c :
  assertIsmConfigSupportedAsMailboxDefault context c = Ok () <-> Forall (fun _ => False) (config_recipients c).
Proof.
  induction c as [owner domains IH|modules threshold IH| | |owner root|] using IsmArtifactConfig_ind'; cbn;
    try (split; [by constructor|done]); [| |apply node_default_exact].
  - rewrite each_ok, Forall_concat_map. apply Forall_iff_elem. rewrite Forall_forall in IH.
    intros [k a] Ha. specialize (IH _ Ha). destruct a; cbn in *; [done..|by split; [constructor|]].
  - rewrite each_ok, Forall_concat_map. apply Forall_iff_elem. rewrite Forall_forall in IH.
    intros a Ha. specialize (IH _ Ha). destruct a; cbn in *; [done..|by split; [constructor|]].
Qed.

(** A mailbox takes an artifact as its default exactly if its tree has no rate limit. *)
Lemma mailbox_default_without_rate_limits artifact context :
  assertIsmSupportedAsMailboxDefault artifact context = Ok () <-> recipients artifact = [].
Proof.
  transitivity (Forall (fun _ => False) (recipients artifact)).
  - destruct artifact; cbn; [apply config_default_exact..|]. by split; [constructor|].
  - split; [|intros ->; constructor]. destruct (recipients artifact); [done|]. by intros [[] _]%Forall_cons.
Qed.
