(* ===== verification/IsmWriters.v ===== *)
(** Reading, deploying and updating security modules, deploy-sdk/src/ism: [IsmReader] of
    generic-ism.ts, [IsmWriter] of generic-ism-writer.ts and [RoutingIsmWriter] of routing-ism.ts,
    over what a protocol's own readers and writers do. *)
From Stdlib Require Import ZArith Lia String Ascii.
From stdpp Require Import base tactics list strings pretty.
From S2P Require Import Prelude JsMap Addresses Messages ConfigJson IsmArtifacts.

#[local] Open Scope Z_scope.

(** ** Protocols *)

Definition with_nested {K N M} (f : N -> M) (c : IsmConfigs K N) : IsmConfigs K M :=
  match c with
  | RoutingIsm owner domains => RoutingIsm owner (map (fun '(k, x) => (k, f x)) domains)
  | MultisigIsm type validators threshold => MultisigIsm type validators threshold
  | TestIsm => TestIsm
  | CompositeIsm owner root => CompositeIsm owner root
  | AggregationIsm modules threshold => AggregationIsm (map f modules) threshold
  | PausableIsm owner paused => PausableIsm owner paused
  end.

(** A configuration without nested modules, as it is for a protocol. *)
Definition leaf {K N M} (c : IsmConfigs K N) : option (IsmConfigs K M) :=
  match c with
  | RoutingIsm _ _ | AggregationIsm _ _ => None
  | MultisigIsm type validators threshold => Some (MultisigIsm type validators threshold)
  | TestIsm => Some TestIsm
  | CompositeIsm owner root => Some (CompositeIsm owner root)
  | PausableIsm owner paused => Some (PausableIsm owner paused)
  end.

(** [RawRoutingIsmArtifactConfig]. *)
Record RawRouting : Type := {
  routing_owner : string; routing_domains : list (Z * ArtifactOnChain IsmArtifactConfig)
}.

(** [IRawIsmArtifactManager]: reading a module of any type, and the writers of [createWriter] for
    routing modules and for those of another type. *)
Class RawIsmManager (S Tx Receipt : Type) : Type := {
  readIsm : string -> eff S (Deployed RawIsmArtifactConfig);
  createRouting : RawRouting -> eff S (Deployed RawRouting * list Receipt);
  createRaw : RawIsmArtifactConfig -> eff S (Deployed RawIsmArtifactConfig * list Receipt);
  updateRouting : Deployed RawRouting -> eff S (list Tx);
  updateRaw : Deployed RawIsmArtifactConfig -> eff S (list Tx)
}.

Section ism.
Context {S Tx Receipt : Type} `{RawIsmManager S Tx Receipt} (chainLookup : ChainLookup).

(** What protocols return is an artifact configuration. *)
Definition from_raw (d : Deployed RawIsmArtifactConfig) : DeployedIsmArtifact :=
  Build_Deployed (ArtifactConfig (with_nested on_chain (config d))) (deployed d).

(** ** Reading *)

(** Modules refer to modules, in principle in circles: [fuel] bounds how deep they are followed. *)
Fixpoint read_ism (fuel : nat) (address : string) : eff S DeployedIsmArtifact :=
  match fuel with
  | O => throw (Error "out of fuel")
  | Datatypes.S fuel' =>
      raw ← readIsm address;
      match config raw with
      | RoutingIsm owner domains =>
          expanded ← mapM (fun '(domain, domainIsmConfig) =>
            match chain_name chainLookup domain with
            | None => mret None
            | Some _ =>
                nestedIsm ← match domainIsmConfig with
                            | OnChain d => mret d
                            | AddressOnly a => read_ism fuel' a
                            end;
                mret (Some (domain, as_artifact nestedIsm))
            end) domains;
          mret (Build_Deployed (ArtifactConfig (RoutingIsm owner (domain_object (omap id expanded)))) (deployed raw))
      | AggregationIsm modules threshold =>
          modules ← mapM (fun module =>
            d ← match module with OnChain d => mret d | AddressOnly a => read_ism fuel' a end;
            mret (as_artifact d)) modules;
          mret (Build_Deployed (ArtifactConfig (AggregationIsm modules threshold)) (deployed raw))
      | _ => mret (from_raw raw)
      end
  end.

Definition deriveIsmConfig (fuel : nat) (address : string) : eff S DerivedIsmConfig :=
  artifact ← read_ism fuel address;
  lift (ismArtifactToDerivedConfig artifact chainLookup).

(** [RoutingIsmWriter.read]. *)
Definition read_routing (fuel : nat) (address : string) : eff S DeployedIsmArtifact :=
  artifact ← read_ism fuel address;
  match config_of (config artifact) with
  | RoutingIsm _ _ => mret artifact
  | c => throw (Error ("Expected ROUTING ISM at " +:+ address +:+ ", got " +:+ ism_type_text (ism_type c)))
  end.

(** ** Deploying *)

(** [IsmWriter.create] and [deployDomainIsm], with [RoutingIsmWriter.create] for what routes. *)
Fixpoint create_ism (config : IsmArtifactConfig) : eff S (DeployedIsmArtifact * list Receipt) :=
  _ ← lift (assert_writable (ism_type (config_of config)));
  match config with
  | ArtifactConfig (RoutingIsm owner domains) =>
      deployedDomains ← mapM (fun '(domain, nestedArtifact) =>
        '(onChain, receipts) ← match nestedArtifact with
                               | DEPLOYED c a => mret (OnChain (Build_Deployed c a), [])
                               | UNDERIVED a => mret (AddressOnly a, [])
                               | NEW c => '(d, receipts) ← create_ism c; mret (OnChain d, receipts)
                               end;
        mret ((domain, onChain), receipts)) domains;
      let deployedDomainIsms := domain_object deployedDomains.*1 in
      '(d, routingIsmReceipts) ← createRouting {| routing_owner := owner; routing_domains := deployedDomainIsms |};
      mret (Build_Deployed
              (ArtifactConfig (RoutingIsm (routing_owner (IsmArtifacts.config d))
                (map (fun '(k, x) => (k, on_chain x)) deployedDomainIsms)))
              (deployed d),
            concat deployedDomains.*2 ++ routingIsmReceipts)
  | ArtifactConfig c =>
      match leaf c with
      | Some raw => '(d, receipts) ← createRaw raw; mret (from_raw d, receipts)
      | None => throw (TypeError "not a module that can be written")
      end
  end.

(** ** Updating *)

(** [RoutingIsmWriter.update]: what is deployed below is updated first, what is new deployed. *)
Fixpoint update_routing (config : IsmArtifactConfig) (address : string) : eff S (list Tx) :=
  match config with
  | ArtifactConfig (RoutingIsm owner domains) =>
      updated ← mapM (fun '(domain, domainIsm) =>
        match chain_name chainLookup domain with
        | None => mret None
        | Some _ =>
            '(onChain, txs) ← match domainIsm with
                              | DEPLOYED c a =>
                                  _ ← lift (assert_writable (ism_type (config_of c)));
                                  txs ← match leaf (config_of c) with
                                        | None => update_routing c a
                                        | Some raw => updateRaw (Build_Deployed raw a)
                                        end;
                                  mret (OnChain (Build_Deployed c a), txs)
                              | UNDERIVED a => mret (AddressOnly a, [])
                              | NEW c => '(d, _) ← create_ism c; mret (OnChain d, [])
                              end;
            mret (Some ((domain, onChain), txs))
        end) domains;
      let deployedDomains := domain_object (omap id updated).*1 in
      routingUpdateTxs ← updateRouting
        (Build_Deployed {| routing_owner := owner; routing_domains := deployedDomains |} address);
      mret (concat (omap id updated).*2 ++ routingUpdateTxs)
  | _ => throw (TypeError "not a routing module")
  end.

(** [IsmWriter.update]. *)
Definition update_ism (artifact : DeployedIsmArtifact) : eff S (list Tx) :=
  _ ← lift (assert_writable (ism_type (config_of (config artifact))));
  match config_of (config artifact) with
  | RoutingIsm _ _ => update_routing (config artifact) (deployed artifact)
  | CompositeIsm owner root => updateRaw (Build_Deployed (CompositeIsm owner root) (deployed artifact))
  | _ => mret []
  end.

(** ** Modules of a mailbox or a route *)

(** [deployOrUpdateIsm] of core/core-writer.ts. *)
Definition deployOrUpdateIsm (currentIsmArtifact : option DeployedIsmArtifact) (expectedIsm : IsmArtifact)
    : eff S (string * list Tx) :=
  match expectedIsm with
  | UNDERIVED a => mret (a, [])
  | _ =>
      mergedArtifact ← lift (mergeIsmArtifacts currentIsmArtifact expectedIsm);
      match mergedArtifact with
      | NEW c => '(d, _) ← create_ism c; mret (deployed d, [])
      | DEPLOYED c a => updateTxs ← update_ism (Build_Deployed c a); mret (a, updateTxs)
      | UNDERIVED _ => throw (TypeError "Cannot read properties of undefined (reading 'type')")
      end
  end.

(** The step of [WarpTokenWriter.update], warp/warp-writer.ts, that settles the module of a route. *)
Definition resolve_ism_update (currentIsm : option DeployedIsmArtifact) (expectedIsm : option IsmArtifact)
    (warpRouter : ContextualAddress) (context : string) : eff S (option string * list Tx) :=
  match expectedIsm with
  | None => mret (None, [])
  | Some (UNDERIVED a) => mret (Some a, [])
  | Some expected =>
      resolvedIsm ← lift (resolveIsmArtifact expected UPDATE warpRouter context);
      mergedIsmConfig ← lift (mergeIsmArtifacts currentIsm resolvedIsm);
      match mergedIsmConfig with
      | NEW c => '(d, _) ← create_ism c; mret (Some (deployed d), [])
      | DEPLOYED c a => txs ← update_ism (Build_Deployed c a); mret (Some a, txs)
      | UNDERIVED _ => mret (None, [])
      end
  end.

End ism.
