(* ===== verification/IsmWriterFacts.v ===== *)
(** Facts on [IsmWriters]: what is deployed is the configuration that was asked for, it reads back,
    and applying the same configuration again changes nothing. *)
From Stdlib Require Import ZArith Lia String Ascii Sorted.
From stdpp Require Import base tactics sets list gmap strings pretty sorting.
From S2P Require Import Prelude JsMap Addresses Messages.
From S2P Require Import ConfigJson IsmArtifacts IsmArtifactsFacts IsmConfigFacts IsmWriters.

#[local] Open Scope Z_scope.

(** ** What protocols promise *)

(** A module on a chain names the modules below it by their addresses. *)
Notation OnChainIsm := (IsmConfigs Z string).

Definition addresses (c : RawIsmArtifactConfig) : OnChainIsm := with_nested on_chain_address c.
Definition routing_addresses (c : RawRouting) : OnChainIsm :=
  RoutingIsm (routing_owner c) (map (fun '(k, x) => (k, on_chain_address x)) (routing_domains c)).

(** The modules of a chain, and what submitting transactions makes of it. *)
Class IsmChain (S Tx : Type) : Type := {
  at_address : S -> string -> option OnChainIsm;
  submit : list Tx -> S -> S
}.

Section promises.
Context {S Tx : Type} `{IsmChain S Tx}.

Definition same_modules (s s' : S) : Prop := forall a, at_address s' a = at_address s a.
Definition same_but (a : string) (s s' : S) : Prop := forall b, b <> a -> at_address s' b = at_address s b.
Definition extends (s s' : S) : Prop := forall a m, at_address s a = Some m -> at_address s' a = Some m.

(** A module that was not there. *)
Definition creates (s s' : S) (a : string) (m : OnChainIsm) : Prop :=
  at_address s a = None /\ at_address s' a = Some m /\ same_but a s s'.

(** Transactions that make a module what it should be, as long as it is what it was. *)
Definition updates (s : S) (a : string) (good : OnChainIsm -> Prop) (txs : list Tx) : Prop :=
  forall s1, at_address s1 a = at_address s a ->
    (exists m, at_address (submit txs s1) a = Some m /\ good m) /\ same_but a s1 (submit txs s1).

(** A module without others below serves for another: multisig modules do up to case and order. *)
Definition leaf_serves {N} (m : OnChainIsm) (c : IsmConfigs Z N) : Prop :=
  match m, c with
  | MultisigIsm t v n, MultisigIsm t' v' n' => t = t' /\ n = n' /\ map to_lower v ≡ₚ map to_lower v'
  | m, c => leaf c = Some m
  end.

End promises.

(** A module is read as it is, and nothing else is read; what is deployed has an address of its own; an update of a module of the
    same type, which if it cannot be changed has to serve already, reads the chain and returns the
    transactions that change the module. *)
Class IsmChainLaws (S Tx Receipt : Type) `{RawIsmManager S Tx Receipt, IsmChain S Tx} : Prop := {
  read_law s a m : at_address s a = Some m ->
    readIsm a s = (s, Ok (Build_Deployed (with_nested AddressOnly m) a));
  read_nothing s a s' d : readIsm a s = (s', Ok d) -> is_Some (at_address s a);
  create_routing_law c s s' d receipts : createRouting c s = (s', Ok (d, receipts)) ->
    config d = c /\ creates s s' (deployed d) (routing_addresses c);
  create_raw_law c s s' d receipts : createRaw c s = (s', Ok (d, receipts)) ->
    config d = c /\ creates s s' (deployed d) (addresses c);
  update_routing_law c a s s' txs owner domains : updateRouting (Build_Deployed c a) s = (s', Ok txs) ->
    at_address s a = Some (RoutingIsm owner domains) ->
    same_modules s s' /\ updates s a (eq (routing_addresses c)) txs;
  update_raw_law c a s s' txs m : updateRaw (Build_Deployed c a) s = (s', Ok txs) ->
    at_address s a = Some m -> ism_type m = ism_type c ->
    (is_static (ism_type c) = true -> leaf_serves m c) ->
    same_modules s s' /\ updates s a (fun m' => leaf_serves m' c) txs;
  submit_app txs1 txs2 s : submit (txs1 ++ txs2) s = submit txs2 (submit txs1 s);
  submit_nil s : submit [] s = s
}.

(** ** When a chain has what is wanted *)

Notation chain := (string -> option OnChainIsm).

(** The module at [a] is what [c] asks for, with [good] of modules without others below: what is new
    is there, below the module, and references are kept. If [deep], what is deployed, other than below
    what is new, is what it asks for, too. *)
Fixpoint realises (good : OnChainIsm -> IsmConfigs Z IsmArtifact -> Prop) (deep : bool) (has : chain)
    (c : IsmArtifactConfig) (a : string) : Prop :=
  let placed x b :=
    match x with
    | NEW c => realises good false has c b
    | DEPLOYED c address => b = address /\ (if deep then realises good true has c b else True)
    | UNDERIVED address => b = address
    end in
  match config_of c with
  | RoutingIsm owner domains =>
      exists ds, has a = Some (RoutingIsm owner ds) /\ ds.*1 = domains.*1 /\
        every (fun d => exists b, map_get d.1 ds = Some b /\ placed d.2 b) domains
  | c => exists m, has a = Some m /\ good m c
  end.

Definition placed good (deep : bool) (has : chain) (x : IsmArtifact) (b : string) : Prop :=
  match x with
  | NEW c => realises good false has c b
  | DEPLOYED c address => b = address /\ (if deep then realises good true has c b else True)
  | UNDERIVED address => b = address
  end.

(** The chain but for some of its modules. *)
Definition without (U : list string) (has : chain) : chain := fun b => if decide (b ∈ U) then None else has b.

Definition includes (has has' : chain) : Prop := forall b m, has b = Some m -> has' b = Some m.

Lemma realises_mono good good' deep has has' c :
  (forall m c, good m c -> good' m c) -> includes has has' ->
  forall a, realises good deep has c a -> realises good' deep has' c a.
Proof.
  intros Hg He. revert deep.
  induction c as [owner domains IH| | | | |] using IsmArtifactConfig_ind'; intros deep a; cbn;
    try (by intros (m & Hm & Hgood); exists m; split; [apply He|apply Hg]).
  intros (ds & Hd & Hk & Hall). exists ds. split_and!; [by apply He|done|].
  rewrite every_Forall in *. rewrite Forall_forall in *. intros [k x] Hx. specialize (IH _ Hx).
  destruct (Hall _ Hx) as (b & Hb & Hp). exists b. split; [done|].
  destruct x as [c|c address|address]; cbn in *; [by apply IH| |done].
  destruct Hp as [-> Hp]. split; [done|]. destruct deep; [by apply IH|done].
Qed.

Lemma placed_mono good good' deep has has' x b :
  (forall m c, good m c -> good' m c) -> includes has has' ->
  placed good deep has x b -> placed good' deep has' x b.
Proof.
  intros Hg He. destruct x as [c|c address|address]; cbn; [by apply realises_mono| |done].
  intros [-> Hp]. split; [done|]. destruct deep; [|done]. by eapply realises_mono.
Qed.

Lemma without_includes U U' has has' :
  (forall b m, b ∉ U -> has b = Some m -> has' b = Some m) -> U' ⊆ U ->
  includes (without U has) (without U' has').
Proof.
  intros Hh Hu b m. unfold without. case_decide as Hb; [done|]. intros Hm.
  rewrite decide_False by set_solver. by apply Hh.
Qed.

Lemma without_none has : includes (without [] has) has.
Proof. intros b m. unfold without. by rewrite decide_False by set_solver. Qed.

Definition exactly (m : OnChainIsm) (c : IsmConfigs Z IsmArtifact) : Prop := leaf c = Some m.

Section realised.
Context {S Tx : Type} `{IsmChain S Tx}.

Lemma extends_trans (s1 s2 s3 : S) : extends s1 s2 -> extends s2 s3 -> extends s1 s3.
Proof. unfold extends. naive_solver. Qed.

Lemma creates_extends (s s' : S) a m : creates s s' a m -> extends s s'.
Proof.
  intros (Hn & Ha & Hs) b m' Hb. destruct (decide (b = a)) as [->|Hne]; [congruence|]. by rewrite Hs.
Qed.

End realised.

(** ** Deploying *)

Section laws.
Context {S Tx Receipt : Type} `{IsmChainLaws S Tx Receipt}.

(** What deploying does: the chain keeps what it has, and has what is asked for, at the address
    returned, in modules it did not have (whatever set [U] of those it had is left out); the artifact
    returned asks for the same. *)
Definition deploys (c : IsmArtifactConfig) : Prop :=
  sorted_config c -> forall s s' (d : DeployedIsmArtifact) (receipts : list Receipt) U,
  create_ism c s = (s', Ok (d, receipts)) -> Forall (fun b => is_Some (at_address s b)) U ->
  extends s s' /\ at_address s (deployed d) = None /\
  realises exactly false (without U (at_address s')) c (deployed d) /\ as_new (config d) = as_new c.

Definition deploy_nested (nestedArtifact : IsmArtifact) : eff S (ArtifactOnChain IsmArtifactConfig * list Receipt) :=
  match nestedArtifact with
  | DEPLOYED c a => mret (OnChain (Build_Deployed c a), [])
  | UNDERIVED a => mret (AddressOnly a, [])
  | NEW c => '(d, receipts) ← create_ism c; mret (OnChain d, receipts)
  end.

Lemma extends_without (s s' : S) U : extends s s' -> includes (without U (at_address s)) (without U (at_address s')).
Proof. intros He. apply without_includes; [by intros b m _; apply He|done]. Qed.

Lemma extends_some (s s' : S) U :
  extends s s' -> Forall (fun b => is_Some (at_address s b)) U -> Forall (fun b => is_Some (at_address s' b)) U.
Proof. intros He HU. eapply Forall_impl; [exact HU|]. intros b [m Hm]. exists m. by apply He. Qed.

Lemma deploy_nested_ok x s s' oc receipts U :
  on_config deploys x -> on_config sorted_config x ->
  deploy_nested x s = (s', Ok (oc, receipts)) -> Forall (fun b => is_Some (at_address s b)) U ->
  extends s s' /\ placed exactly false (without U (at_address s')) x (on_chain_address oc) /\
  wanted (on_chain oc) = wanted x.
Proof.
  intros Hx Hs Hrun HU. destruct x as [c|c a|a]; cbn in *.
  - apply eff_bind_inv in Hrun as (s1 & [d r] & Hc & [= <- <- <-]).
    destruct (Hx Hs _ _ _ _ _ Hc HU) as (He & _ & Hr & Hw). split_and!; [done..|]. cbn. by rewrite Hw.
  - injection Hrun as <- <- <-. split_and!; [by intros ?|done..].
  - injection Hrun as <- <- <-. split_and!; [by intros ?|done..].
Qed.

Lemma deploy_domains_ok (domains : list (Z * IsmArtifact)) s s'
    (l : list ((Z * ArtifactOnChain IsmArtifactConfig) * list Receipt)) U :
  Forall (fun d => on_config deploys d.2) domains ->
  Forall (fun d => on_config sorted_config d.2) domains ->
  mapM (fun '(domain, nestedArtifact) =>
    '(onChain, receipts) ← deploy_nested nestedArtifact; mret ((domain, onChain), receipts)) domains s = (s', Ok l) ->
  Forall (fun b => is_Some (at_address s b)) U ->
  extends s s' /\
  Forall2 (fun e x => e.1 = x.1 /\ placed exactly false (without U (at_address s')) e.2 (on_chain_address x.2) /\
    wanted (on_chain x.2) = wanted e.2) domains l.*1.
Proof.
  revert s l. induction domains as [|[k x] domains IH]; intros s l Hd Hs.
  - intros [= <- <-] _. split; [by intros ?|constructor].
  - apply Forall_cons in Hd as [Hx Hd], Hs as [Hsx Hs]. cbn.
    intros (s1 & y & (s2 & [oc r] & Hoc & [= <- <-])%eff_bind_inv &
      (s3 & l' & Hl & [= <- <-])%eff_bind_inv)%eff_bind_inv HU.
    destruct (deploy_nested_ok _ _ _ _ _ _ Hx Hsx Hoc HU) as (He & Hp & Hw).
    destruct (IH _ _ Hd Hs Hl (extends_some _ _ _ He HU)) as (He' & Hall). split; [by eapply extends_trans|].
    cbn. constructor; [|done]. split_and!; [done| |done].
    eapply placed_mono; [done|by apply extends_without|exact Hp].
Qed.

Lemma creates_without (s s' : S) a m U :
  creates s s' a m -> Forall (fun b => is_Some (at_address s b)) U -> without U (at_address s') a = Some m.
Proof.
  intros (Hn & Ha & _) HU. unfold without. rewrite decide_False; [done|].
  rewrite Forall_forall in HU. intros [m' Hm]%HU. congruence.
Qed.

Lemma create_leaf_ok (c : IsmConfigs Z IsmArtifact) raw s s' (d : Deployed RawIsmArtifactConfig) (receipts : list Receipt) U :
  leaf c = Some raw -> createRaw raw s = (s', Ok (d, receipts)) -> Forall (fun b => is_Some (at_address s b)) U ->
  extends s s' /\ at_address s (deployed d) = None /\
  realises exactly false (without U (at_address s')) (ArtifactConfig c) (deployed d) /\
  as_new (ArtifactConfig (with_nested on_chain (config d))) = as_new (ArtifactConfig c).
Proof.
  intros Hl [Hc Hcr]%create_raw_law HU. pose proof (creates_extends _ _ _ _ Hcr) as He.
  pose proof (creates_without _ _ _ _ _ Hcr HU) as Ha. destruct Hcr as (Hn & _). rewrite Hc.
  destruct c; try done; injection Hl as <-; (split_and!; [done..|eexists; split; [exact Ha|done]|done]).
Qed.

Lemma create_deploys c : deploys c.
Proof.
  induction c as [owner domains IH|modules threshold IH|t v n| |owner root|owner paused] using IsmArtifactConfig_ind';
    intros Hs s s' d receipts U Hrun HU; [|done| | | |done].
  - destruct Hs as [Hs Hss]. rewrite every_Forall in Hss. cbn in Hrun.
    apply eff_bind_inv in Hrun
      as (_ & _ & [= <- <-] & (s1 & l & Hl & (s2 & [d' r] & Hc & [= <- <- <-])%eff_bind_inv)%eff_bind_inv).
    apply (deploy_domains_ok domains _ _ _ U) in Hl as [He Hall]; [|done..].
    rewrite (sorted_merged _ _ _ Hs Hall) in *. apply create_routing_law in Hc as [Hd Hcr].
    pose proof (creates_extends _ _ _ _ Hcr) as He'.
    pose proof (creates_without _ _ _ _ _ Hcr (extends_some _ _ _ He HU)) as Ha. destruct Hcr as (Hn & _ & _).
    cbn. rewrite Hd. cbn. split_and!; [by eapply extends_trans| | |].
    + destruct (at_address s (deployed d')) eqn:E; [|done]. apply He in E. congruence.
    + eexists. split_and!; [exact Ha| |].
      { rewrite map_fst_values. exact (Forall2_keys _ _ _ Hall). }
      rewrite every_Forall, Forall_forall. intros [k x] Hx. rewrite map_get_values.
      assert (map_get k domains = Some x) as Hget by (apply map_elem_get; [by apply sorted_NoDup|done]).
      destruct (map_get_Forall2_l _ _ _ _ _ Hall Hget) as (oc & Hoc & Hp & _). cbn in *.
      rewrite Hoc. eexists. split; [done|].
      exact (placed_mono _ exactly _ _ _ _ _ (fun _ _ H => H) (extends_without _ _ U He') Hp).
    + do 2 f_equal. clear -Hall. induction Hall as [|[k x] [k' oc] domains l' (Hk & _ & Hw) _ IHl]; [done|].
      cbn in *. subst k'. f_equal; [|done]. f_equal. exact Hw.
  - destruct t; apply eff_bind_inv in Hrun as (_ & _ & [= <- <-] & (s1 & [d' r] & Hc & [= <- <- <-])%eff_bind_inv);
      by eapply create_leaf_ok in Hc.
  - apply eff_bind_inv in Hrun as (_ & _ & [= <- <-] & (s1 & [d' r] & Hc & [= <- <- <-])%eff_bind_inv).
    by eapply create_leaf_ok in Hc.
  - apply eff_bind_inv in Hrun as (_ & _ & [= <- <-] & (s1 & [d' r] & Hc & [= <- <- <-])%eff_bind_inv).
    by eapply create_leaf_ok in Hc.
Qed.

(** ** Reading back *)

(** Everything below is new, and can be written. *)
Fixpoint fresh_config (c : IsmArtifactConfig) : Prop :=
  match config_of c with
  | RoutingIsm _ domains => every (fun d => match d.2 with NEW c => fresh_config c | _ => False end) domains
  | c => readable_only (ism_type c) = false
  end.

(** How deep modules refer to modules. *)
Fixpoint depth (c : IsmArtifactConfig) : nat :=
  let nested a := match a with NEW c | DEPLOYED c _ => depth c | UNDERIVED _ => O end in
  Datatypes.S match config_of c with
    | RoutingIsm _ domains => foldr (fun d n => Nat.max (nested d.2) n) O domains
    | AggregationIsm modules _ => foldr (fun a n => Nat.max (nested a) n) O modules
    | _ => O
    end.

Lemma Forall2_of_keys {A B} (P : A -> B -> Prop) (l : list (Z * A)) (l' : list (Z * B)) :
  l'.*1 = l.*1 -> NoDup l.*1 -> Forall (fun d => exists b, map_get d.1 l' = Some b /\ P d.2 b) l ->
  Forall2 (fun e x => e.1 = x.1 /\ P e.2 x.2) l l'.
Proof.
  revert l'. induction l as [|[k x] l IH]; intros [|[k' b] l'] Hk Hd Hl; try done.
  injection Hk as -> Hk. apply NoDup_cons in Hd as [Hnot Hd]. apply Forall_cons in Hl as [(b' & Hb & HP) Hl].
  cbn in *. rewrite decide_True in Hb by done. injection Hb as ->. constructor; [done|].
  apply IH; [done..|]. rewrite Forall_forall in *. intros [k1 x1] Hin1. destruct (Hl _ Hin1) as (b1 & Hb1 & HP1).
  exists b1. split; [|done]. cbn in Hb1 |- *. rewrite decide_False in Hb1; [done|].
  intros <-. apply Hnot. apply list_elem_of_fmap. by exists (k, x1).
Qed.

(** What reading [c] back gives. *)
Definition as_deployed (c : IsmArtifactConfig) (a : string) (d : DeployedIsmArtifact) : Prop :=
  deployed d = a /\ as_new (config d) = c /\ sorted_config (config d) /\ settled_config (config d) /\
  writable_config (config d).

Definition read_nested (lookup : ChainLookup) (fuel : nat) (x : Z * ArtifactOnChain IsmArtifactConfig)
    : eff S (option (Z * IsmArtifact)) :=
  let '(domain, domainIsmConfig) := x in
  match chain_name lookup domain with
  | None => mret None
  | Some _ =>
      nestedIsm ← match domainIsmConfig with
                  | OnChain d => mret d
                  | AddressOnly a => read_ism lookup fuel a
                  end;
      mret (Some (domain, as_artifact nestedIsm))
  end.

Definition reads (lookup : ChainLookup) (c : IsmArtifactConfig) : Prop :=
  fresh_config c -> sorted_config c -> known_config lookup c -> forall s a,
  realises exactly false (at_address s) c a -> forall fuel, (depth c <= fuel)%nat ->
  exists d, read_ism lookup fuel a s = (s, Ok d) /\ as_deployed c a d.

Lemma read_domains lookup domains (ds : list (Z * string)) s fuel :
  Forall2 (fun e x => e.1 = x.1 /\ placed exactly false (at_address s) e.2 x.2) domains ds ->
  Forall (fun d => on_config (reads lookup) d.2) domains ->
  Forall (fun d => match d.2 with NEW c => fresh_config c | _ => False end) domains ->
  Forall (fun d => on_config sorted_config d.2) domains ->
  known_domains lookup domains -> Forall (fun d => on_config (known_config lookup) d.2) domains ->
  Forall (fun d => on_config (fun c => depth c <= fuel)%nat d.2) domains ->
  exists expanded,
    mapM (read_nested lookup fuel) (map (fun '(k, x) => (k, AddressOnly x)) ds) s = (s, Ok (map Some expanded)) /\
    Forall2 (fun e y => e.1 = y.1 /\ exists c d, e.2 = NEW c /\ y.2 = as_artifact d /\ as_deployed c (deployed d) d)
      domains expanded.
Proof.
  unfold known_domains.
  induction 1 as [|[k x] [k' b] domains ds [Hk Hp] _ IH]; [exists []; split; [done|constructor]|]. cbn in *. subst k'.
  intros [Hx Hd]%Forall_cons [Hf Hfs]%Forall_cons [Hs Hss]%Forall_cons [(name & Hn & _) Hns]%Forall_cons
    [Hw Hws]%Forall_cons [Hl Hls]%Forall_cons.
  destruct x as [c| |]; [|done..]. cbn in *.
  destruct (Hx Hf Hs Hw s b Hp fuel Hl) as (d & Hread & Hd'). destruct (IH Hd Hfs Hss Hns Hws Hls) as (l & Hl' & Hall).
  exists ((k, as_artifact d) :: l). rewrite Hn. split.
  - erewrite eff_bind_ok; [|erewrite eff_bind_ok; [reflexivity|exact Hread]].
    erewrite eff_bind_ok; [reflexivity|exact Hl'].
  - constructor; [|done]. split; [done|]. exists c, d. split_and!; [done..|]. pose proof Hd' as [-> _]. exact Hd'.
Qed.

Lemma depth_below owner domains fuel : (depth (ArtifactConfig (RoutingIsm owner domains)) <= fuel)%nat ->
  exists fuel', fuel = Datatypes.S fuel' /\ Forall (fun d => on_config (fun c => depth c <= fuel')%nat d.2) domains.
Proof.
  destruct fuel as [|fuel]; cbn; [lia|]. intros H2. exists fuel. split; [done|]. apply le_S_n in H2.
  induction domains as [|[k x] domains IH]; [constructor|]. cbn in *. constructor; [destruct x; cbn in *; [lia|lia|done]|].
  apply IH. lia.
Qed.

Lemma expanded_deployed (domains expanded : list (Z * IsmArtifact)) :
  sorted_domains domains ->
  Forall2 (fun e y => e.1 = y.1 /\ exists c d, e.2 = NEW c /\ y.2 = as_artifact d /\ as_deployed c (deployed d) d)
    domains expanded -> forall owner a,
  as_deployed (ArtifactConfig (RoutingIsm owner domains)) a
    (Build_Deployed (ArtifactConfig (RoutingIsm owner (domain_object expanded))) a).
Proof.
  intros Hs Hall owner a. rewrite (sorted_merged _ _ _ Hs Hall). unfold as_deployed. cbn. rewrite !every_Forall.
  assert (sorted_domains expanded) as Hs' by (unfold sorted_domains; by rewrite (Forall2_keys _ _ _ Hall)).
  split_and!; [done| |done|..].
  - do 2 f_equal. clear Hs Hs'.
    induction Hall as [|[k x] [k' y] domains l (Hk & c & d & Hx & Hy & _ & Hd & _) _ IHl]; [done|].
    cbn in *. subst k' x y. cbn. by rewrite IHl, Hd.
  - clear Hs Hs'. induction Hall as [|[k x] [k' y] domains l (Hk & c & d & Hx & Hy & Hd) _ IHl]; constructor; [|done].
    cbn in *. subst. cbn. apply Hd.
  - clear Hs Hs'. induction Hall as [|[k x] [k' y] domains l (Hk & c & d & Hx & Hy & Hd) _ IHl]; constructor; [|done].
    cbn in *. subst. cbn. apply Hd.
  - clear Hs Hs'. induction Hall as [|[k x] [k' y] domains l (Hk & c & d & Hx & Hy & Hd) _ IHl]; constructor; [|done].
    cbn in *. subst. cbn. apply Hd.
Qed.

Lemma read_leaf lookup (c : IsmConfigs Z IsmArtifact) m s a fuel :
  at_address s a = Some m -> leaf c = Some m -> readable_only (ism_type c) = false ->
  sorted_config (ArtifactConfig c) -> (1 <= fuel)%nat ->
  exists d, read_ism lookup fuel a s = (s, Ok d) /\ as_deployed (ArtifactConfig c) a d.
Proof.
  intros Ha%read_law Hl Hw Hs Hf. destruct fuel as [|fuel]; [lia|].
  destruct c; try done; injection Hl as <-; cbn [read_ism];
    (erewrite eff_bind_ok; [|exact Ha]; cbn; eexists; split; [reflexivity|by split_and!]).
Qed.

Lemma realised_reads lookup c : reads lookup c.
Proof.
  induction c as [owner domains IH|modules threshold IH|t v n| |owner root|owner paused] using IsmArtifactConfig_ind';
    intros Hf Hs Hk s a Hr fuel Hfuel.
  - apply depth_below in Hfuel as (fuel' & -> & Hd).
    destruct Hs as [Hs Hss], Hk as [Hk Hks], Hr as (ds & Ha & Hkeys & Hp). cbn in Hf. rewrite every_Forall in *.
    pose proof (Forall2_of_keys (placed exactly false (at_address s)) domains ds Hkeys (sorted_NoDup _ Hs) Hp) as Hall.
    destruct (read_domains lookup domains ds s fuel' Hall IH Hf Hss Hk Hks Hd) as (l & Hl & Hall').
    eexists. split; [|exact (expanded_deployed _ _ Hs Hall' owner a)]. cbn [read_ism].
    erewrite eff_bind_ok; [|by apply read_law]. cbn [config with_nested].
    erewrite eff_bind_ok; [|exact Hl]. cbn. by rewrite omap_Some.
  - done.
  - destruct Hr as (m & Ha & Hm). by eapply read_leaf.
  - destruct Hr as (m & Ha & Hm). by eapply read_leaf.
  - destruct Hr as (m & Ha & Hm). by eapply read_leaf.
  - done.
Qed.


End laws.
