(* ===== verification/IsmUpdateFacts.v ===== *)
(** Updates of security modules: the transactions of [IsmWriter.update], once submitted, leave the chain
    with what was expected, modules that are new below included. *)
From Stdlib Require Import ZArith Lia String Ascii Sorted.
From stdpp Require Import base tactics sets list gmap strings pretty sorting.
From S2P Require Import Prelude JsMap Addresses Messages ConfigJson.
From S2P Require Import IsmArtifacts IsmArtifactsFacts IsmConfigFacts IsmWriters IsmWriterFacts.

#[local] Open Scope Z_scope.

(** ** What an update changes *)

(** The modules an update of [c] changes below it: those deployed, other than below what is new. *)
Fixpoint deployed_addresses (c : IsmArtifactConfig) : list string :=
  match config_of c with
  | RoutingIsm _ domains =>
      concat (map (fun d => match d.2 with DEPLOYED c a => a :: deployed_addresses c | _ => [] end) domains)
  | _ => []
  end.

Definition item_addresses (x : IsmArtifact) : list string :=
  match x with DEPLOYED c a => a :: deployed_addresses c | _ => [] end.

(** A chain on which an update of [c] at [a] can work: each module it changes is there, of the same
    type, and serves already if it cannot be changed. *)
Fixpoint serviceable (has : chain) (c : IsmArtifactConfig) (a : string) : Prop :=
  match config_of c with
  | RoutingIsm _ domains =>
      (exists owner ds, has a = Some (RoutingIsm owner ds)) /\
      every (fun d => match d.2 with DEPLOYED c b => serviceable has c b | _ => True end) domains
  | c => exists m, has a = Some m /\ ism_type m = ism_type c /\ (is_static (ism_type c) = true -> leaf_serves m c)
  end.

Definition item_serviceable (has : chain) (x : IsmArtifact) : Prop :=
  match x with DEPLOYED c a => serviceable has c a | _ => True end.

Lemma serviceable_mono has has' c : includes has has' -> forall a, serviceable has c a -> serviceable has' c a.
Proof.
  intros Hi. induction c as [owner domains IH| | | | |] using IsmArtifactConfig_ind'; intros a; cbn;
    try (by intros (m & Hm & Hrest); exists m; split; [apply Hi|]).
  intros [(o & ds & Hd) Hall]. split; [exists o, ds; by apply Hi|]. rewrite every_Forall in *.
  rewrite Forall_forall in *. intros [k x] Hx. specialize (IH _ Hx). specialize (Hall _ Hx).
  destruct x; cbn in *; [done|by apply IH|done].
Qed.

Lemma item_serviceable_mono has has' x : includes has has' -> item_serviceable has x -> item_serviceable has' x.
Proof. intros Hi. destruct x; cbn; [done|by apply serviceable_mono|done]. Qed.

Lemma serviceable_some has c : forall a, serviceable has c a ->
  Forall (fun b => is_Some (has b)) (a :: deployed_addresses c).
Proof.
  induction c as [owner domains IH| | | | |] using IsmArtifactConfig_ind'; intros a; cbn;
    try (by intros (m & Hm & _); repeat constructor; eauto).
  intros [(o & ds & Hd) Hall]. constructor; [eauto|]. rewrite every_Forall in Hall.
  apply Forall_concat, Forall_map. rewrite Forall_forall in *. intros [k x] Hx.
  specialize (IH _ Hx). specialize (Hall _ Hx). destruct x; cbn in *; [constructor|by apply IH|constructor].
Qed.

Lemma items_some has domains :
  Forall (fun d : Z * IsmArtifact => item_serviceable has d.2) domains ->
  Forall (fun b => is_Some (has b)) (concat (map (fun d => item_addresses d.2) domains)).
Proof.
  intros Hall. apply Forall_concat, Forall_map. eapply Forall_impl; [exact Hall|].
  intros [k []]; cbn; [constructor|apply serviceable_some|constructor].
Qed.

Lemma leaf_serves_raw (m : OnChainIsm) (c : IsmConfigs Z IsmArtifact) (raw : RawIsmArtifactConfig) :
  leaf c = Some raw -> (leaf_serves m raw <-> leaf_serves m c) /\ ism_type raw = ism_type c.
Proof. destruct c; try done; intros [= <-]; by destruct m. Qed.

Section laws.
Context {S Tx Receipt : Type} `{IsmChainLaws S Tx Receipt} (lookup : ChainLookup).

(** ** One module, and its domains *)

(** What [txs], collected while the chain went from [s] to [s'], do to any chain that has what [s'] has but
    for modules [U], which others change: they give [c] at [a], and change only its modules. *)
Definition accomplishes (s s' : S) (txs : list Tx) (D : list string) (done_in : chain -> Prop) : Prop :=
  extends s s' /\ forall U s1, D ## U -> Forall (fun b => is_Some (at_address s b)) U ->
    (forall b m, b ∉ U -> at_address s' b = Some m -> at_address s1 b = Some m) ->
    done_in (without U (at_address (submit txs s1))) /\
    forall b, b ∉ D -> at_address (submit txs s1) b = at_address s1 b.

Definition updates_to (c : IsmArtifactConfig) : Prop :=
  sorted_config c -> known_config lookup c -> forall s s' a (txs : list Tx),
  serviceable (at_address s) c a -> NoDup (a :: deployed_addresses c) ->
  update_routing lookup c a s = (s', Ok txs) ->
  accomplishes s s' txs (a :: deployed_addresses c) (fun has => realises leaf_serves true has c a).

Definition update_nested (x : IsmArtifact) : eff S (ArtifactOnChain IsmArtifactConfig * list Tx) :=
  match x with
  | DEPLOYED c a =>
      _ ← lift (assert_writable (ism_type (config_of c)));
      txs ← match leaf (config_of c) with
            | None => update_routing lookup c a
            | Some raw => updateRaw (Build_Deployed raw a)
            end;
      mret (OnChain (Build_Deployed c a), txs)
  | UNDERIVED a => mret (AddressOnly a, [])
  | NEW c => '(d, _) ← create_ism c; mret (OnChain d, [])
  end.

Lemma same_extends (s s' : S) : same_modules s s' -> extends s s'.
Proof. intros Hs b m Hb. by rewrite Hs. Qed.

Lemma submit_none (s : S) b : at_address (submit [] s) b = at_address s b.
Proof. by rewrite submit_nil. Qed.

Lemma update_leaf_accomplishes (c : IsmConfigs Z IsmArtifact) raw a s s' txs :
  leaf c = Some raw -> serviceable (at_address s) (ArtifactConfig c) a ->
  updateRaw (Build_Deployed raw a) s = (s', Ok txs) ->
  accomplishes s s' txs [a] (fun has => realises leaf_serves true has (ArtifactConfig c) a).
Proof.
  intros Hl Hs Hrun.
  assert (exists m, at_address s a = Some m /\ ism_type m = ism_type c /\
    (is_static (ism_type c) = true -> leaf_serves m c)) as (m & Hm & Ht & Hst) by (destruct c; done).
  pose proof (fun m => leaf_serves_raw m c raw Hl) as Hls.
  eapply update_raw_law in Hrun as [Hsame Hup]; [|exact Hm|by rewrite (proj2 (Hls m))|].
  2: { rewrite (proj2 (Hls m)). intros ?%Hst. by apply Hls. }
  split; [by apply same_extends|]. intros U s1 HD HU Hs1.
  destruct (Hup s1) as [(m' & Hm' & Hgood) Hother].
  { rewrite Hm. apply Hs1; [set_solver|]. by rewrite Hsame. }
  split; [|intros b Hb; apply Hother; set_solver].
  assert (without U (at_address (submit txs s1)) a = Some m') as Ha.
  { unfold without. rewrite decide_False by set_solver. done. }
  apply Hls in Hgood. destruct c; try done; by exists m'.
Qed.

Definition monotone (P : chain -> Prop) : Prop := forall has has', includes has has' -> P has -> P has'.

(** Transactions that change other modules do not disturb each other. *)
Lemma accomplishes_app (s s1 s2 : S) t1 t2 D1 D2 P1 P2 :
  accomplishes s s1 t1 D1 P1 -> accomplishes s1 s2 t2 D2 P2 -> D1 ## D2 ->
  Forall (fun b => is_Some (at_address s b)) D1 -> Forall (fun b => is_Some (at_address s b)) D2 ->
  monotone P1 -> monotone P2 ->
  accomplishes s s2 (t1 ++ t2) (D1 ++ D2) (fun has => P1 has /\ P2 has).
Proof.
  intros [He1 H1'] [He2 H2'] HD HD1 HD2 HP1 HP2. split; [by eapply extends_trans|].
  intros U s0 HU Hsome Hs0. rewrite submit_app.
  destruct (H1' (U ++ D2) s0) as [Hdone1 Hother1]; [set_solver|by apply Forall_app| |].
  { intros b m Hb Hm. apply Hs0; [set_solver|by apply He2]. }
  destruct (H2' (U ++ D1) (submit t1 s0)) as [Hdone2 Hother2]; [set_solver| | |].
  { apply Forall_app; split; by eapply extends_some. }
  { intros b m Hb Hm. rewrite Hother1 by set_solver. apply Hs0; [set_solver|done]. }
  split_and!.
  - eapply HP1; [|exact Hdone1]. apply without_includes; [|set_solver].
    intros b m Hb Hm. by rewrite Hother2 by set_solver.
  - eapply HP2; [|exact Hdone2]. apply without_includes; [done|set_solver].
  - intros b Hb. rewrite Hother2, Hother1 by set_solver. done.
Qed.

Lemma placed_monotone good deep x b : monotone (fun has => placed good deep has x b).
Proof. intros has has' Hi. by apply placed_mono. Qed.

Lemma update_nested_ok x s s' oc txs :
  on_config updates_to x -> on_config sorted_config x -> on_config (known_config lookup) x ->
  item_serviceable (at_address s) x -> NoDup (item_addresses x) ->
  update_nested x s = (s', Ok (oc, txs)) ->
  accomplishes s s' txs (item_addresses x) (fun has => placed leaf_serves true has x (on_chain_address oc)).
Proof.
  intros Hx Hs Hk Hserv Hd Hrun. destruct x as [c|c a|a]; cbn in *.
  - apply eff_bind_inv in Hrun as (s1 & [d r] & Hc & [= <- <- <-]).
    destruct (create_deploys c Hs _ _ _ _ [] Hc (Forall_nil_2 _)) as (He & _).
    split; [done|]. intros U s2 _ HU Hs2. split; [|intros b _; apply submit_none].
    destruct (create_deploys c Hs _ _ _ _ U Hc HU) as (_ & _ & Hr & _).
    eapply realises_mono; [|apply (without_includes U U); [|done]|exact Hr].
    + intros m c' Hm. red in Hm. by destruct m, c'; try done; injection Hm as -> -> ->.
    + intros b m Hb Hm. rewrite submit_none. by apply Hs2.
  - apply eff_bind_inv in Hrun as (s0 & [] & Hw & (s1 & t & Ht & [= <- <- <-])%eff_bind_inv).
    injection Hw as <- Hw. destruct (leaf (config_of c)) as [raw|] eqn:Hl.
    + destruct c as [c]. cbn [config_of] in *.
      destruct (update_leaf_accomplishes c raw a s s1 t Hl Hserv Ht) as [He Hacc].
      assert (deployed_addresses (ArtifactConfig c) = []) as -> by (by destruct c).
      split; [done|]. intros U s2 HD HU Hs2. destruct (Hacc U s2 HD HU Hs2) as [Hr Ho]. cbn. by split.
    + destruct (Hx Hs Hk s s1 a t Hserv Hd Ht) as [He Hacc]. split; [done|]. intros U s2 HD HU Hs2.
      destruct (Hacc U s2 HD HU Hs2) as [Hr Ho]. cbn. by split.
  - injection Hrun as <- <- <-. split; [by intros ?|]. intros U s2 _ _ _. split; [done|].
    intros b _. apply submit_none.
Qed.

Lemma update_domains_ok domains s s' l :
  Forall (fun d => on_config updates_to d.2) domains -> Forall (fun d => on_config sorted_config d.2) domains ->
  known_domains lookup domains -> Forall (fun d => on_config (known_config lookup) d.2) domains ->
  Forall (fun d => item_serviceable (at_address s) d.2) domains ->
  NoDup (concat (map (fun d => item_addresses d.2) domains)) ->
  mapM (fun '(domain, domainIsm) =>
    match chain_name lookup domain with
    | None => mret None
    | Some _ => '(oc, txs) ← update_nested domainIsm; mret (Some ((domain, oc), txs))
    end) domains s = (s', Ok l) ->
  exists items, l = map Some items /\
    accomplishes s s' (concat items.*2) (concat (map (fun d => item_addresses d.2) domains))
      (fun has => Forall2 (fun e x => e.1 = x.1 /\ placed leaf_serves true has e.2 (on_chain_address x.2))
        domains items.*1).
Proof.
  unfold known_domains. revert s l. induction domains as [|[k x] domains IH]; intros s l.
  - intros _ _ _ _ _ _ [= <- <-]. exists []. split; [done|]. split; [by intros ?|].
    intros U s1 _ _ _. split; [constructor|]. intros b _. apply submit_none.
  - intros [Hx Hd]%Forall_cons [Hs Hss]%Forall_cons [(name & Hn & _) Hns]%Forall_cons [Hk Hks]%Forall_cons
      [Hv Hvs]%Forall_cons (Hd1 & Hd2 & Hd3)%NoDup_app. cbn in *. rewrite Hn.
    intros (s1 & y & (s2 & [oc t] & Hoc & [= <- <-])%eff_bind_inv &
      (s3 & l' & Hl & [= <- <-])%eff_bind_inv)%eff_bind_inv.
    pose proof (update_nested_ok x s s2 oc t Hx Hs Hk Hv Hd1 Hoc) as Hacc.
    destruct (IH s2 l' Hd Hss Hns Hks) as (items & -> & Haccs); [|done|done|].
    { eapply Forall_impl; [exact Hvs|]. intros d. apply item_serviceable_mono. apply Hacc. }
    exists (((k, oc), t) :: items). split; [done|]. cbn.
    assert (accomplishes s s3 (t ++ concat items.*2)
      (item_addresses x ++ concat (map (fun d => item_addresses d.2) domains)) (fun has =>
        placed leaf_serves true has x (on_chain_address oc) /\
        Forall2 (fun e x => e.1 = x.1 /\ placed leaf_serves true has e.2 (on_chain_address x.2)) domains items.*1))
      as [He Hboth].
    { eapply accomplishes_app; [exact Hacc|exact Haccs|set_solver| | |apply placed_monotone|].
      - destruct x; cbn; [constructor|by apply serviceable_some|constructor].
      - by apply items_some.
      - intros has has' Hi Hall. eapply Forall2_impl; [exact Hall|]. intros e y' [Hky Hp]. split; [done|].
        by eapply placed_monotone. }
    split; [done|]. intros U s0 HD HU Hs0. destruct (Hboth U s0 HD HU Hs0) as [[Hp Hps] Ho].
    split; [by constructor|done].
Qed.

Lemma update_routing_updates c : updates_to c.
Proof.
  induction c as [owner domains IH|modules threshold IH|t v n| |owner root|owner paused] using IsmArtifactConfig_ind';
    intros Hs Hk s s' a txs Hserv Hd Hrun; try done.
  destruct Hs as [Hs Hss], Hk as [Hk Hks], Hserv as [(o & ds & Ha) Hv]. rewrite every_Forall in *.
  cbn [update_routing] in Hrun.
  apply eff_bind_inv in Hrun as (s1 & l & Hl & (s2 & t & Ht & [= <- <-])%eff_bind_inv).
  change (deployed_addresses (ArtifactConfig (RoutingIsm owner domains))) with
    (concat (map (fun d => item_addresses d.2) domains)) in *.
  apply NoDup_cons in Hd as [Hnot Hd].
  pose proof (update_domains_ok domains s s1 l IH Hss Hk Hks Hv) as Hok.
  specialize (Hok Hd).
  specialize (Hok Hl).
  destruct Hok as (items & -> & He & Hacc).
  revert Hnot Hacc. generalize (concat (map (fun d => item_addresses d.2) domains)) as D. intros D Hnot Hacc.
  rewrite omap_Some in *.
  assert (at_address s1 a = Some (RoutingIsm o ds)) as Ha1 by (by apply He).
  destruct (update_routing_law _ _ _ _ _ _ _ Ht Ha1) as [Hsame Hup].
  pose proof (same_extends _ _ Hsame) as He2. split; [by eapply extends_trans|].
  intros U s0 HD HU Hs0. rewrite submit_app.
  destruct (Hacc (a :: U) s0) as [Hps Ho]; [set_solver|by constructor; eauto| |].
  { intros b m Hb Hm. apply Hs0; [set_solver|by apply He2]. }
  destruct (Hup (submit (concat items.*2) s0)) as [(m & Hm & <-) Hother].
  { rewrite Ho by done. rewrite Ha1. apply Hs0; [set_solver|by apply He2]. }
  pose proof (sorted_merged _ _ _ Hs Hps) as Hobj. rewrite Hobj in *. split.
  - eexists. split; [unfold without; rewrite decide_False by set_solver; exact Hm|].
    split; [cbn; rewrite map_fst_values; exact (Forall2_keys _ _ _ Hps)|].
    rewrite every_Forall, Forall_forall. intros [k x] Hx. cbn. rewrite map_get_values.
    assert (map_get k domains = Some x) as Hget by (apply map_elem_get; [by apply sorted_NoDup|done]).
    destruct (map_get_Forall2_l _ _ _ _ _ Hps Hget) as (oc & Hoc & Hp). rewrite Hoc. eexists. split; [done|].
    eapply (placed_monotone leaf_serves true x); [|exact Hp]. apply without_includes; [|set_solver].
    intros b m' Hb Hm'. by rewrite Hother by set_solver.
  - intros b Hb. rewrite Hother, Ho by set_solver. done.
Qed.

Lemma update_ism_accomplishes (d : DeployedIsmArtifact) s s' (txs : list Tx) :
  sorted_config (config d) -> known_config lookup (config d) ->
  serviceable (at_address s) (config d) (deployed d) -> NoDup (deployed d :: deployed_addresses (config d)) ->
  update_ism lookup d s = (s', Ok txs) ->
  accomplishes s s' txs (deployed d :: deployed_addresses (config d))
    (fun has => realises leaf_serves true has (config d) (deployed d)).
Proof.
  intros Hs Hk Hserv Hd Hrun.
  unfold update_ism in Hrun. apply eff_bind_inv in Hrun as (s0 & [] & Hw & Hrun). injection Hw as <- Hw.
  destruct d as [[[owner domains|t v n| |owner root|modules threshold|owner paused]] a]; cbn [config deployed config_of] in *;
    try done.
  - by eapply update_routing_updates.
  - injection Hrun as <- <-. split; [by intros ?|]. intros U s1 HD HU Hs1. split; [|intros b _; apply submit_none].
    destruct Hserv as (m & Hm & _ & Hst). exists m.
    split; [unfold without; rewrite decide_False, submit_none by set_solver; apply Hs1; [set_solver|done]|].
    apply Hst. by destruct t.
  - injection Hrun as <- <-. split; [by intros ?|]. intros U s1 HD HU Hs1. split; [|intros b _; apply submit_none].
    destruct Hserv as (m & Hm & _ & Hst). exists m.
    split; [unfold without; rewrite decide_False, submit_none by set_solver; apply Hs1; [set_solver|done]|].
    by apply Hst.
  - eapply (update_leaf_accomplishes (CompositeIsm owner root)); [reflexivity|done|exact Hrun].
Qed.

(** The same on any chain [s1] that has the modules of [s']. *)
Lemma update_ism_realises (d : DeployedIsmArtifact) s s' (txs : list Tx) :
  sorted_config (config d) -> known_config lookup (config d) ->
  serviceable (at_address s) (config d) (deployed d) -> NoDup (deployed d :: deployed_addresses (config d)) ->
  update_ism lookup d s = (s', Ok txs) ->
  extends s s' /\ forall s1, extends s' s1 ->
    realises leaf_serves true (at_address (submit txs s1)) (config d) (deployed d) /\
    forall b, b ∉ deployed d :: deployed_addresses (config d) ->
      at_address (submit txs s1) b = at_address s1 b.
Proof.
  intros Hs Hk Hserv Hd Hrun. destruct (update_ism_accomplishes d s s' txs Hs Hk Hserv Hd Hrun) as [He Hacc].
  split; [done|]. intros s1 Hs1. destruct (Hacc [] s1) as [Hr Ho]; [set_solver|done|by intros b m _; apply Hs1|]. split; [|done].
  eapply realises_mono; [|apply without_none|exact Hr]. done.
Qed.

End laws.

(** ** What a merge leaves can be updated *)

Lemma concat_once {A B} (f : A -> list B) l x y b :
  NoDup (concat (map f l)) -> x ∈ l -> y ∈ l -> b ∈ f x -> b ∈ f y -> x = y.
Proof.
  induction l as [|z l IH]; [set_solver|]. cbn. intros (_ & Hd & Hn)%NoDup_app.
  assert (forall x, x ∈ l -> b ∈ f x -> b ∈ concat (map f l)) as Hin.
  { intros x' Hx Hb. apply list_elem_of_In, in_concat. exists (f x').
    split; [apply in_map|]; by apply list_elem_of_In. }
  intros [->|Hx]%elem_of_cons [->|Hy]%elem_of_cons Hbx Hby; [done| | |by apply IH].
  - exfalso. by apply (Hd b Hbx), (Hin y).
  - exfalso. by apply (Hd b Hby), (Hin x).
Qed.

(** What of a chain's modules is left to change, by domain: all the addresses are those of modules the
    chain has below the same domain, once each. *)
Lemma addresses_below (current merged : list (Z * IsmArtifact)) :
  NoDup (concat (map (fun d => item_addresses d.2) current)) -> NoDup merged.*1 ->
  Forall (fun d => NoDup (item_addresses d.2) /\ forall b, b ∈ item_addresses d.2 ->
    exists x, (d.1, x) ∈ current /\ b ∈ item_addresses x) merged ->
  NoDup (concat (map (fun d => item_addresses d.2) merged)) /\
  concat (map (fun d => item_addresses d.2) merged) ⊆ concat (map (fun d => item_addresses d.2) current).
Proof.
  intros Hc. induction merged as [|[k x] merged IH]; intros Hk Hm; [split; [constructor|set_solver]|].
  apply NoDup_cons in Hk as [Hnot Hk]. apply Forall_cons in Hm as [[Hx Hin] Hm]. destruct (IH Hk Hm) as [IHd IHs]. cbn in *.
  assert (forall k' b, (exists y, (k', y) ∈ current /\ b ∈ item_addresses y) ->
    b ∈ concat (map (fun d => item_addresses d.2) current)) as Hsub.
  { intros k' b (y & Hy & Hb). apply list_elem_of_In, in_concat. exists (item_addresses y).
    split; [|by apply list_elem_of_In]. apply in_map_iff. exists (k', y). split; [done|]. by apply list_elem_of_In. }
  split; [|intros b [Hb|Hb]%elem_of_app; [by eapply Hsub, Hin|by apply IHs]].
  apply NoDup_app. split_and!; [done| |done]. intros b Hb Hb'.
  destruct (Hin b Hb) as (y & Hy & Hby).
  apply list_elem_of_In, in_concat in Hb' as (l & Hl & Hbl%list_elem_of_In).
  apply in_map_iff in Hl as ([k' x'] & <- & Hx'%list_elem_of_In). cbn in Hbl.
  rewrite Forall_forall in Hm. destruct (proj2 (Hm _ Hx') b Hbl) as (y' & Hy' & Hby').
  pose proof (concat_once (fun d : Z * IsmArtifact => item_addresses d.2) _ _ _ b Hc Hy Hy' Hby Hby') as [= <- _].
  apply Hnot. apply list_elem_of_fmap. by exists (k, x').
Qed.

(** New modules have nothing but new ones below, deployed ones may have both. *)
Fixpoint mixed_config (c : IsmArtifactConfig) : Prop :=
  match config_of c with
  | RoutingIsm _ domains =>
      every (fun d => match d.2 with NEW c => fresh_config c | DEPLOYED c _ => mixed_config c | UNDERIVED _ => True end)
        domains
  | _ => True
  end.

Definition updatable (has : chain) (cur : DeployedIsmArtifact) (c : IsmArtifactConfig) (out : IsmArtifact) : Prop :=
  match out with
  | NEW c' => c' = c
  | DEPLOYED c' a => a = deployed cur /\ serviceable has c' a /\ mixed_config c' /\ sorted_config c' /\
      NoDup (a :: deployed_addresses c') /\ a :: deployed_addresses c' ⊆ a :: deployed_addresses (config cur)
  | UNDERIVED _ => False
  end.

(** What is read of a module without others below is the module itself; of one that can only be read,
    that it is there. *)
Definition mirrors (m : OnChainIsm) (c : IsmConfigs Z IsmArtifact) : Prop :=
  readable_only (ism_type c) = true \/ leaf c = Some m.

Lemma reused_leaf_updatable has c cur :
  fresh_config c -> sorted_config c -> realises mirrors true has (config cur) (deployed cur) ->
  reusable (config cur) c -> domains_of c = [] -> updatable has cur c (DEPLOYED c (deployed cur)).
Proof.
  intros Hf Hs Hr Hre Hleaf. destruct cur as [[cc] a], c as [c]. cbn [config deployed] in *.
  assert (deployed_addresses (ArtifactConfig c) = []) as Hno by (destruct c; try done; cbn in *; by subst).
  assert (mixed_config (ArtifactConfig c)) as Hmix by (destruct c; try done; cbn in *; by subst).
  cbn [updatable config deployed]. rewrite Hno. split_and!; [done| |done|done|apply NoDup_singleton|set_solver].
  destruct c as [owner domains|t v n| |owner root|modules threshold|owner paused]; try done;
    destruct cc as [o ds|t' v' n'| |o r|ms th|o p]; try done; try (by destruct t); try (by destruct t').
  - destruct Hr as (l & Ha & _). cbn in Hleaf. subst domains. split; [eauto|done].
  - destruct Hr as (m & Ha & [?|[= <-]]); [by destruct t'|]. exists (MultisigIsm t' v' n'). destruct Hre as (-> & -> & Hp). by split_and!.
  - destruct Hr as (m & Ha & [?|[= <-]]); [done|]. by exists TestIsm.
  - destruct Hr as (m & Ha & [?|[= <-]]); [done|]. by eexists.
Qed.

(** The module deployed below a domain is on the chain, where it says, with modules of its own. *)
Lemma deployed_domain_realised has domains ds k cur :
  every (fun d => exists b, map_get d.1 ds = Some b /\ placed mirrors true has d.2 b) domains ->
  NoDup (concat (map (fun d => item_addresses d.2) domains)) ->
  deployed_domain domains k = Some cur ->
  realises mirrors true has (config cur) (deployed cur) /\ NoDup (deployed cur :: deployed_addresses (config cur)) /\
  exists x, (k, x) ∈ domains /\ item_addresses x = deployed cur :: deployed_addresses (config cur).
Proof.
  unfold deployed_domain. intros Hall Hd Hcur.
  destruct (map_get k domains) as [[c|c a|a]|] eqn:E; try done. injection Hcur as <-. apply map_get_elem in E.
  rewrite every_Forall, Forall_forall in Hall. destruct (Hall _ E) as (b & _ & Hb & Hr). cbn in *. subst b.
  split_and!; [done| |eauto].
  clear Hall Hr. induction domains as [|d domains IH]; [set_solver|]. cbn in Hd. apply NoDup_app in Hd as (Hd & _ & Hds).
  apply elem_of_cons in E as [<-|E]; [exact Hd|by apply IH].
Qed.

Definition merges_updatable (has : chain) (c : IsmArtifactConfig) : Prop :=
  fresh_config c -> sorted_config c -> forall cur out,
  realises mirrors true has (config cur) (deployed cur) -> NoDup (deployed cur :: deployed_addresses (config cur)) ->
  merge_config (Some cur) None c = Ok out -> updatable has cur c out.

(** What a merge leaves below a domain, where the chain has [curds]. *)
Definition merged_item (has : chain) (curds : list (Z * IsmArtifact)) (d : Z * IsmArtifact) : Prop :=
  match d.2 with
  | NEW c => fresh_config c /\ sorted_config c
  | DEPLOYED c b => serviceable has c b /\ mixed_config c /\ sorted_config c
  | UNDERIVED _ => False
  end /\
  NoDup (item_addresses d.2) /\
  forall b, b ∈ item_addresses d.2 -> exists x, (d.1, x) ∈ curds /\ b ∈ item_addresses x.

Lemma merged_item_ok has curds ds k c y :
  every (fun d => exists b, map_get d.1 ds = Some b /\ placed mirrors true has d.2 b) curds ->
  NoDup (concat (map (fun d => item_addresses d.2) curds)) ->
  merges_updatable has c -> fresh_config c -> sorted_config c ->
  merge_config (deployed_domain curds k) None c = Ok y -> merged_item has curds (k, y).
Proof.
  intros Hall Hd IH Hf Hs Hm. unfold merged_item. cbn. destruct (deployed_domain curds k) as [cur|] eqn:Hcur.
  - destruct (deployed_domain_realised has curds ds k cur Hall Hd Hcur) as (Hr & Hdc & x & Hx & Hxa).
    pose proof (IH Hf Hs cur y Hr Hdc Hm) as Hup.
    destruct y as [c'|c' b|b]; cbn in *; [subst c'| |done].
    + split_and!; [done..|constructor|set_solver].
    + destruct Hup as (-> & Hserv & Hmix & Hs' & Hnd & Hsub). split_and!; [done..|].
      intros b Hb. exists x. split; [done|]. rewrite Hxa. by apply Hsub.
  - apply merge_config_cases in Hm as [[_ ->]|(cur' & ? & _)]; [|done]. cbn.
    split_and!; [done..|constructor|set_solver].
Qed.

Lemma merged_items_updatable has curds owner a o merged :
  Forall (merged_item has curds) merged -> sorted_domains merged ->
  has a = Some o -> ism_type o = ROUTING -> NoDup (a :: concat (map (fun d => item_addresses d.2) curds)) ->
  let c := ArtifactConfig (RoutingIsm owner merged) in
  serviceable has c a /\ mixed_config c /\ sorted_config c /\ NoDup (a :: deployed_addresses c) /\
  a :: deployed_addresses c ⊆ a :: concat (map (fun d => item_addresses d.2) curds).
Proof.
  intros Hm Hs Ha Ho [Hnot Hd]%NoDup_cons c.
  destruct (addresses_below curds merged Hd (sorted_NoDup _ Hs)) as [Hnd Hsub].
  { eapply Forall_impl; [exact Hm|]. intros d Hx. apply Hx. }
  change (deployed_addresses c) with (concat (map (fun d => item_addresses d.2) merged)).
  cbn. rewrite !every_Forall. split_and!; [| | |done| |constructor; [set_solver|done]|set_solver].
  - destruct o as [ow l|[]| | | |]; try done. eauto.
  - eapply Forall_impl; [exact Hm|]. intros [k []] [Hx _]; cbn in *; tauto.
  - eapply Forall_impl; [exact Hm|]. intros [k []] [Hx _]; cbn in *; tauto.
  - eapply Forall_impl; [exact Hm|]. intros [k []] [Hx _]; cbn in *; tauto.
Qed.

Lemma merged_updatable has c : merges_updatable has c.
Proof.
  induction c as [c IH] using domains_ind. intros Hf Hs cur out Hr Hd Hm.
  apply merge_config_cases in Hm
    as [[[=] _]|(cur' & [= <-] & [(_ & ->)|(Hre & [(Hleaf & ->)|(owner & domains & merged & -> & -> & Hm)])])];
    [done|by apply reused_leaf_updatable|].
  destruct Hs as [Hs Hss]. rewrite (sorted_merged _ _ _ Hs Hm).
  assert (sorted_domains merged) as Hs' by (unfold sorted_domains; by rewrite (Forall2_keys _ _ _ Hm)).
  destruct cur as [[cc] a]. cbn [config deployed default] in *.
  destruct cc as [o curds|t v n| |o r|ms th|o p]; try done; [|by destruct t].
  destruct Hr as (ds & Ha & Hkeys & Hall). cbn [domains_of config_of] in *.
  change (deployed_addresses (ArtifactConfig (RoutingIsm o curds))) with
    (concat (map (fun d => item_addresses d.2) curds)) in *.
  assert (Forall (merged_item has curds) merged) as Hmerged.
  { apply NoDup_cons in Hd as [_ Hd]. cbn in Hf. rewrite every_Forall in Hf, Hss.
    clear Hkeys Hs Hs' Hre. induction Hm as [|[k x] [k' y] domains merged [Hk Hy] _ IHm]; constructor.
    - apply Forall_cons in Hf as [Hfx _], Hss as [Hsx _]. cbn in *. subst k'.
      destruct x as [c|c b|b]; [|done..]. eapply merged_item_ok; try done.
      apply (IH k None). apply list_elem_of_here.
    - apply Forall_cons in Hf as [_ Hf], Hss as [_ Hss]. apply IHm; [done..|].
      intros k1 a1 c1 Hin. apply (IH k1 a1 c1). by apply list_elem_of_further. }
  split; [done|]. eapply merged_items_updatable; done.
Qed.

(** ** Asking for what is there *)

Lemma fresh_as_new c : fresh_config c -> as_new c = c.
Proof.
  induction c as [owner domains IH|modules threshold IH| | | |] using IsmArtifactConfig_ind'; intros Hf; try done.
  cbn in *. do 2 f_equal. rewrite every_Forall in Hf.
  induction domains as [|[k x] domains IHd]; [done|]. apply Forall_cons in IH as [Hx IH], Hf as [Hfx Hf]. cbn in *.
  destruct x; [|done..]. rewrite IHd by done. by rewrite Hx.
Qed.

Lemma known_as_new lookup c : known_config lookup (as_new c) -> known_config lookup c.
Proof.
  induction c as [owner domains IH|modules threshold IH| | | |] using IsmArtifactConfig_ind'; cbn; try done.
  - intros [Hk Hks]. unfold known_domains in *. rewrite map_fst_values in Hk. split; [done|].
    rewrite every_Forall, Forall_map in Hks. rewrite every_Forall, Forall_forall in *. intros [k x] Hx.
    specialize (IH _ Hx). specialize (Hks _ Hx). destruct x; cbn in *; [by apply IH..|done].
  - rewrite !every_Forall, Forall_map, !Forall_forall. rewrite Forall_forall in IH. intros Hks x Hx.
    specialize (IH _ Hx). specialize (Hks _ Hx). destruct x; cbn in *; [by apply IH..|done].
Qed.

Lemma realised_as_new has c : mixed_config c -> forall a,
  realises leaf_serves true has c a -> realises leaf_serves false has (as_new c) a.
Proof.
  induction c as [owner domains IH|modules threshold IH| | | |] using IsmArtifactConfig_ind'; intros Hm a; try done.
  - cbn in Hm |- *. intros (ds & Ha & Hk & Hall). exists ds. rewrite map_fst_values. split_and!; [done..|].
    rewrite every_Forall in *. rewrite Forall_map. rewrite Forall_forall in *. intros [k x] Hx.
    specialize (IH _ Hx). specialize (Hm _ Hx). destruct (Hall _ Hx) as (b & Hb & Hp). exists b. split; [done|].
    cbn in *. destruct x as [c|c b'|b']; cbn in *; [by rewrite fresh_as_new| |done].
    destruct Hp as [-> Hp]. by apply IH.
Qed.

(** ** Reading a chain *)

Section reading.
Context {S Tx Receipt : Type} `{IsmChainLaws S Tx Receipt} (lookup : ChainLookup).

(** The routing modules of a chain know their domains, and list them in order. *)
Definition known_chain (s : S) : Prop := forall a owner ds,
  at_address s a = Some (RoutingIsm owner ds) -> sorted_domains ds /\ known_domains lookup ds.

Definition read_mirrors (fuel : nat) (s : S) : Prop := forall a s' d,
  read_ism lookup fuel a s = (s', Ok d) ->
  s' = s /\ deployed d = a /\ realises mirrors true (at_address s) (config d) a.

Lemma read_domains_mirror fuel s (ds : list (Z * string)) s' l :
  read_mirrors fuel s -> known_domains lookup ds ->
  mapM (read_nested lookup fuel) (map (fun '(k, x) => (k, AddressOnly x)) ds) s = (s', Ok l) ->
  s' = s /\ exists expanded, l = map Some expanded /\
    Forall2 (fun x e => x.1 = e.1 /\ placed mirrors true (at_address s) e.2 x.2) ds expanded.
Proof.
  intros Hread Hk. revert l. induction ds as [|[k b] ds IH]; intros l.
  - intros [= <- <-]. split; [done|]. by exists [].
  - apply Forall_cons in Hk as [(name & Hn & _) Hk]. cbn in *. rewrite Hn.
    intros (s1 & y & (s2 & d & (-> & Hb & Hr)%Hread & [= <- <-])%eff_bind_inv &
      (s3 & l' & Hl & [= <- <-])%eff_bind_inv)%eff_bind_inv.
    destruct (IH Hk _ Hl) as (-> & expanded & -> & Hall). split; [done|].
    exists ((k, as_artifact d) :: expanded). split; [done|]. constructor; [|done]. cbn. rewrite Hb. by split_and!.
Qed.

Lemma read_realised fuel s : known_chain s -> read_mirrors fuel s.
Proof.
  intros Hc. induction fuel as [|fuel IH]; intros a s' d; [done|]. cbn [read_ism].
  intros (s1 & raw & Hraw & Hrun)%eff_bind_inv. destruct (read_nothing _ _ _ _ Hraw) as [m Ha].
  rewrite (read_law _ _ _ Ha) in Hraw. injection Hraw as <- <-. cbn [config] in Hrun.
  destruct m as [owner ds|t v n| |owner root|modules threshold|owner paused]; cbn [with_nested] in Hrun;
    try (injection Hrun as <- <-; split_and!; [done..|]; eexists; split; [exact Ha|by right]).
  - apply eff_bind_inv in Hrun as (s2 & l & Hl & [= <- <-]). destruct (Hc _ _ _ Ha) as [Hs Hk].
    apply (read_domains_mirror fuel) in Hl as (-> & expanded & -> & Hall); [|done..].
    rewrite omap_Some, (sorted_merged _ _ _ Hs Hall). split_and!; [done..|].
    exists ds. split_and!; [done|symmetry; exact (Forall2_keys _ _ _ Hall)|].
    rewrite every_Forall, Forall_forall. intros [k x] Hx. apply map_elem_get in Hx;
      [|unfold map_wf, map_keys; rewrite (Forall2_keys _ _ _ Hall); by apply sorted_NoDup].
    destruct (map_get_Forall2 _ _ _ _ _ Hall Hx) as (b & Hb & Hp). by exists b.
  - apply eff_bind_inv in Hrun as (s2 & l & Hl & [= <- <-]). split; [|split; [done|]].
    + clear Ha. revert l Hl. induction modules as [|b modules IHm]; intros l; [by intros [= <- <-]|]. cbn.
      intros (s1 & y & (s3 & d & (-> & _)%IH & [= <- <-])%eff_bind_inv &
        (s4 & l' & Hl & [= <- <-])%eff_bind_inv)%eff_bind_inv.
      by eapply IHm.
    + eexists. split; [exact Ha|by left].
Qed.

(** ** Applying a configuration *)

(** What was read of the module that is configured now, if there is one. *)
Definition read_before (s : S) (current : option DeployedIsmArtifact) : Prop :=
  match current with
  | Some cur =>
      (exists fuel a, read_ism lookup fuel a s = (s, Ok cur)) /\
      NoDup (deployed cur :: deployed_addresses (config cur))
  | None => True
  end.

Definition tree_addresses (current : option DeployedIsmArtifact) : list string :=
  match current with Some cur => deployed cur :: deployed_addresses (config cur) | None => [] end.

(** What applying a configuration does on any chain [s1] that has the modules of the one it ended with. *)
Lemma applied_configuration_works current c s s' a (txs : list Tx) :
  known_chain s -> read_before s current ->
  fresh_config c -> sorted_config c -> known_config lookup c ->
  deployOrUpdateIsm lookup current (NEW c) s = (s', Ok (a, txs)) ->
  extends s s' /\
  (if current is Some cur then
     reusable (config cur) c /\ a = deployed cur \/ ~ reusable (config cur) c /\ at_address s a = None
   else at_address s a = None) /\
  forall s1, extends s' s1 ->
    realises leaf_serves false (at_address (submit txs s1)) c a /\
    forall b m, b ∉ tree_addresses current -> at_address s1 b = Some m -> at_address (submit txs s1) b = Some m.
Proof.
  intros Hchain Hread Hf Hs Hk Hrun. unfold deployOrUpdateIsm in Hrun.
  apply eff_bind_inv in Hrun as (s0 & out & Hm & Hrun). injection Hm as <- Hm.
  assert (forall s' d (receipts : list Receipt), create_ism c s = (s', Ok (d, receipts)) ->
    extends s s' /\ at_address s (deployed d) = None /\ forall s1, extends s' s1 ->
    realises leaf_serves false (at_address (submit [] s1)) c (deployed d) /\
    forall b m, at_address s1 b = Some m -> at_address (submit [] s1) b = Some m) as Hcreate.
  { intros s2 d receipts Hc. destruct (create_deploys c Hs _ _ _ _ [] Hc (Forall_nil_2 _)) as (He & Hn & Hr & _).
    split_and!; [done..|]. intros s1 Hs1. rewrite submit_nil. split; [|done].
    eapply realises_mono; [| |exact Hr].
    - intros m c' Hx. red in Hx. by destruct m, c'; try done; injection Hx as -> -> ->.
    - intros b m Hb%without_none. by apply Hs1. }
  cbn in Hm. destruct current as [cur|].
  - destruct Hread as [(fuel & a0 & Hread) Hd].
    destruct (read_realised fuel s Hchain _ _ _ Hread) as (_ & Ha0 & Hr). subst a0.
    pose proof (merged_updatable (at_address s) c Hf Hs cur out Hr Hd Hm) as Hup.
    pose proof (merge_wanted c Hs _ _ _ Hm) as Hwant.
    apply merge_config_cases in Hm as [[[=] _]|(cur' & [= <-] & Hcases)].
    destruct out as [c'|c' a'|a']; [| |done].
    + cbn in Hup. subst c'. apply eff_bind_inv in Hrun as (s2 & [d r] & Hc & [= <- <- <-]).
      destruct (Hcreate _ _ _ Hc) as (He & Hnone & Hreal). split_and!; [done| |].
      * right. split; [|done]. by destruct Hcases as [[? _]|(_ & [(_ & [=])|(? & ? & ? & _ & [=] & _)])].
      * intros s1 Hs1. destruct (Hreal s1 Hs1) as [Hr1 Hk1]. split; [done|]. intros b m _. apply Hk1.
    + destruct Hup as (-> & Hserv & Hmix & Hs' & Hnd & Hsub). injection Hwant as Hwant.
      rewrite (fresh_as_new c Hf) in Hwant. apply eff_bind_inv in Hrun as (s2 & t & Hupd & [= <- <- <-]).
      assert (known_config lookup c') as Hk' by (apply known_as_new; by rewrite Hwant).
      destruct (update_ism_realises lookup (Build_Deployed c' (deployed cur)) _ _ _ Hs' Hk' Hserv Hnd Hupd) as (He & Hreal). cbn in *.
      split_and!; [done| |].
      * left. split; [|done]. by destruct Hcases as [[_ [=]]|[? _]].
      * intros s1 Hs1. destruct (Hreal s1 Hs1) as [Hr1 Hk1]. split.
        -- rewrite <- Hwant. by apply realised_as_new.
        -- intros b m Hb Hbm. by rewrite Hk1 by (by intros ?%Hsub).
  - apply merge_config_cases in Hm as [[_ ->]|(cur' & [=] & _)]. cbn in Hrun.
    apply eff_bind_inv in Hrun as (s2 & [d r] & Hc & [= <- <- <-]).
    destruct (Hcreate _ _ _ Hc) as (He & Hnone & Hreal). split_and!; [done..|].
    intros s1 Hs1. destruct (Hreal s1 Hs1) as [Hr1 Hk1]. split; [done|]. intros b m _. apply Hk1.
Qed.

(** C16: Applying a new configuration to what was read from the chain gives it: when the transactions
    returned are submitted, the chain has exactly what the configuration asks for, at the address returned,
    whatever was deployed anew, updated or left on the way. That address is the one of the module that was
    there if it can serve, and a free one otherwise; and modules outside of the tree that was read stay as
    they are. What was read is a tree: no module is below it twice (two domains that share one module get
    what the last of them asks for). The configuration is new throughout: every module below a routing
    module is NEW, and of a type that a writer can deploy, so neither an aggregation nor a pausable module;
    its domains are known and in order, and so are those that the modules of the chain route. *)
Theorem applied_configuration_is_realised current c s s' a (txs : list Tx) :
  known_chain s -> read_before s current ->
  fresh_config c -> sorted_config c -> known_config lookup c ->
  deployOrUpdateIsm lookup current (NEW c) s = (s', Ok (a, txs)) ->
  realises leaf_serves false (at_address (submit txs s')) c a /\
  (if current is Some cur then
     reusable (config cur) c /\ a = deployed cur \/ ~ reusable (config cur) c /\ at_address s a = None
   else at_address s a = None) /\
  forall b m, b ∉ tree_addresses current -> at_address s b = Some m -> at_address (submit txs s') b = Some m.
Proof.
  intros Hchain Hread Hf Hs Hk Hrun.
  destruct (applied_configuration_works current c s s' a txs Hchain Hread Hf Hs Hk Hrun) as (He & Ha & Hworks).
  destruct (Hworks s') as [Hreal Hkeep]; [by intros b m|]. split_and!; [done..|].
  intros b m Hb Hm. apply Hkeep; [done|by apply He].
Qed.

End reading.
