(* ===== verification/HookArtifacts.v ===== *)
(** Hooks as artifacts, provider-sdk/src/hook.ts: configurations by chain name and by domain, what has
    to be deployed anew, and the readers and writers of deploy-sdk/src/hook. *)
From Stdlib Require Import ZArith Lia String Ascii Sorted.
From stdpp Require Import base tactics list strings pretty.
From S2P Require Import Prelude JsMap Addresses Messages ConfigJson IsmArtifacts.

#[local] Open Scope Z_scope.

(** ** Configurations *)

(** [HookType] of altvm.ts. *)
Inductive AltVmHookType : Type :=
| CUSTOM | MERKLE_TREE | INTERCHAIN_GAS_PAYMASTER | HOOK_AGGREGATION | PROTOCOL_FEE | OP_STACK | HOOK_ROUTING
| FALLBACK_ROUTING | AMOUNT_ROUTING | HOOK_PAUSABLE | ARB_L2_TO_L1 | MAILBOX_DEFAULT | CCIP.

Definition altvm_hook_type_text (t : AltVmHookType) : string :=
  match t with
  | CUSTOM => "custom"
  | MERKLE_TREE => "merkleTreeHook"
  | INTERCHAIN_GAS_PAYMASTER => "interchainGasPaymaster"
  | HOOK_AGGREGATION => "aggregationHook"
  | PROTOCOL_FEE => "protocolFee"
  | OP_STACK => "opStackHook"
  | HOOK_ROUTING => "domainRoutingHook"
  | FALLBACK_ROUTING => "fallbackRoutingHook"
  | AMOUNT_ROUTING => "amountRoutingHook"
  | HOOK_PAUSABLE => "pausableHook"
  | ARB_L2_TO_L1 => "arbL2ToL1Hook"
  | MAILBOX_DEFAULT => "defaultHook"
  | CCIP => "ccipHook"
  end.

Inductive HookType : Type := IgpType | ProtocolFeeType | MerkleTreeType | UnknownType.
#[export] Instance HookType_eq_dec : EqDecision HookType.
Proof. solve_decision. Defined.

Definition hook_type_text (t : HookType) : string :=
  match t with
  | IgpType => "interchainGasPaymaster"
  | ProtocolFeeType => "protocolFee"
  | MerkleTreeType => "merkleTreeHook"
  | UnknownType => "unknownHook"
  end.

Definition altVmHookTypeToProviderHookType (hookType : AltVmHookType) : result HookType :=
  match hookType with
  | INTERCHAIN_GAS_PAYMASTER => Ok IgpType
  | PROTOCOL_FEE => Ok ProtocolFeeType
  | MERKLE_TREE => Ok MerkleTreeType
  | t => Throw (Error ("Unsupported hook type in provider API: " +:+ altvm_hook_type_text t))
  end.

Definition MUTABLE_HOOK_TYPE : list HookType := [IgpType; ProtocolFeeType].

(** A value of [oracleConfig]. *)
Record OracleData : Type := { gasPrice : string; tokenExchangeRate : string; tokenDecimals : option Z }.

(** [IgpHookModuleConfig] by chain name, [IgpHookConfig] by domain. *)
Record IgpConfig (K : Type) : Type := {
  igp_owner : string;
  igp_beneficiary : string;
  oracleKey : string;
  overhead : list (K * Z);
  oracleConfig : list (K * OracleData);
  igp_contractVersion : option string;
  igp_quoteSigners : option (list string)
}.
Arguments Build_IgpConfig {K} _ _ _ _ _ _ _.
Arguments igp_owner {K} _.
Arguments igp_beneficiary {K} _.
Arguments oracleKey {K} _.
Arguments overhead {K} _.
Arguments oracleConfig {K} _.
Arguments igp_contractVersion {K} _.
Arguments igp_quoteSigners {K} _.

(** [ProtocolFeeHookConfig]; readers that cannot read the maximum set [__maxProtocolFeeUnknown]. *)
Record ProtocolFeeHookConfig : Type := {
  pf_owner : string;
  pf_beneficiary : string;
  maxProtocolFee : string;
  protocolFee : string;
  maxProtocolFeeUnknown : bool
}.

(** [HookConfigs] and [HookArtifactConfigs]. *)
Inductive HookConfigs (K : Type) : Type :=
| IgpHook (config : IgpConfig K)
| ProtocolFeeHook (config : ProtocolFeeHookConfig)
| MerkleTreeHook
| UnknownHook (fields : list (string * Json)).
Arguments IgpHook {K} _.
Arguments ProtocolFeeHook {K} _.
Arguments MerkleTreeHook {K}.
Arguments UnknownHook {K} _.

Notation HookConfig := (HookConfigs string).
Notation HookArtifactConfig := (HookConfigs Z).
Notation HookArtifact := (Artifact HookArtifactConfig).
Notation DeployedHookArtifact := (Deployed HookArtifactConfig).

Definition hook_type {K} (c : HookConfigs K) : HookType :=
  match c with
  | IgpHook _ => IgpType
  | ProtocolFeeHook _ => ProtocolFeeType
  | MerkleTreeHook => MerkleTreeType
  | UnknownHook _ => UnknownType
  end.

(** [WithAddress]. *)
Record WithAddress (C : Type) : Type := { address_of : string; config_at_address : C }.
Arguments Build_WithAddress {C} _ _.
Arguments address_of {C} _.
Arguments config_at_address {C} _.
Notation DerivedHookConfig := (WithAddress HookConfig).

(** ** Configurations as JSON *)

Definition oracle_json (o : OracleData) : Json :=
  JFields ([("gasPrice", JText (gasPrice o)); ("tokenExchangeRate", JText (tokenExchangeRate o))] ++
    given "tokenDecimals" JNumber (tokenDecimals o)).

Definition hook_json (c : HookArtifactConfig) : Json :=
  match c with
  | IgpHook c =>
      typed "interchainGasPaymaster" ([("owner", JText (igp_owner c)); ("beneficiary", JText (igp_beneficiary c));
        ("oracleKey", JText (oracleKey c)); ("overhead", domains_json JNumber (overhead c));
        ("oracleConfig", domains_json oracle_json (oracleConfig c))] ++
        given "contractVersion" JText (igp_contractVersion c) ++ given "quoteSigners" texts (igp_quoteSigners c))
  | ProtocolFeeHook c =>
      typed "protocolFee" ([("owner", JText (pf_owner c)); ("beneficiary", JText (pf_beneficiary c));
        ("maxProtocolFee", JText (maxProtocolFee c)); ("protocolFee", JText (protocolFee c))] ++
        if maxProtocolFeeUnknown c then [("__maxProtocolFeeUnknown", JBool true)] else [])
  | MerkleTreeHook => typed "merkleTreeHook" []
  | UnknownHook fields => typed "unknownHook" fields
  end.

(** ** From names of chains to domains and back *)

(** Fields other than those by chain or domain are kept. *)
Definition with_domains {K K'} (f : forall A, list (K * A) -> list (K' * A)) (c : IgpConfig K) : IgpConfig K' := {|
  igp_owner := igp_owner c;
  igp_beneficiary := igp_beneficiary c;
  oracleKey := oracleKey c;
  overhead := f Z (overhead c);
  oracleConfig := f OracleData (oracleConfig c);
  igp_contractVersion := igp_contractVersion c;
  igp_quoteSigners := igp_quoteSigners c
|}.

(** A record by chain name as one by domain, and back: chains and domains not known are left out. *)
Definition domains_of_names (lookup : ChainLookup) (A : Type) (entries : list (string * A)) : list (Z * A) :=
  domain_object (rekey (getDomainId lookup) entries).
Definition names_of_domains (lookup : ChainLookup) (A : Type) (entries : list (Z * A)) : list (string * A) :=
  name_object (rekey (chain_name lookup) entries).
Arguments domains_of_names _ {A} _.
Arguments names_of_domains _ {A} _.

(** A protocol fee as the conversions copy it: its four fields. *)
Definition copy_protocol_fee (c : ProtocolFeeHookConfig) : ProtocolFeeHookConfig := {|
  pf_owner := pf_owner c;
  pf_beneficiary := pf_beneficiary c;
  maxProtocolFee := maxProtocolFee c;
  protocolFee := protocolFee c;
  maxProtocolFeeUnknown := false
|}.

Definition hook_to_artifact (config : HookConfig) (lookup : ChainLookup) : HookArtifactConfig :=
  match config with
  | IgpHook c => IgpHook (with_domains (@domains_of_names lookup) c)
  | MerkleTreeHook => MerkleTreeHook
  | UnknownHook _ => UnknownHook []
  | ProtocolFeeHook c => ProtocolFeeHook (copy_protocol_fee c)
  end.

Definition hookConfigToArtifact (config : HookConfig) (lookup : ChainLookup) : HookArtifact :=
  NEW (hook_to_artifact config lookup).

Definition hookArtifactToDerivedConfig (artifact : DeployedHookArtifact) (lookup : ChainLookup) : DerivedHookConfig :=
  Build_WithAddress (deployed artifact)
    match config artifact with
    | IgpHook c => IgpHook (with_domains (@names_of_domains lookup) c)
    | MerkleTreeHook => MerkleTreeHook
    | UnknownHook _ => UnknownHook []
    | ProtocolFeeHook c => ProtocolFeeHook (copy_protocol_fee c)
    end.

(** ** What has to be deployed *)

Definition shouldDeployNewHook (actual expected : HookArtifactConfig) : result bool :=
  if decide (hook_type actual <> hook_type expected) then Ok true
  else
    let normalizedActual := normalizeConfig (hook_json actual) in
    let normalizedExpected := normalizeConfig (hook_json expected) in
    match expected with
    | MerkleTreeHook => Ok (negb (deepEquals normalizedActual normalizedExpected))
    | UnknownHook _ => Ok false
    | IgpHook _ => Ok false
    | ProtocolFeeHook expectedProtocolFee =>
        match actual with
        | ProtocolFeeHook actual =>
            if maxProtocolFeeUnknown actual then
              Throw (Error "Cannot compare protocolFee maxProtocolFee because the current hook does not expose a readable maxProtocolFee")
            else Ok (negb (String.eqb (maxProtocolFee actual) (maxProtocolFee expectedProtocolFee)))
        | _ => Throw (Error "expected protocolFee hook config")
        end
    end.

(** A merge of artifacts without others below: [shouldDeployNew] tells whether what is deployed has to
    be replaced. [mergeHookArtifacts] and [mergeFeeArtifacts] have this shape. *)
Definition merge_artifacts {C} (shouldDeployNew : C -> C -> result bool) (currentArtifact : option (Deployed C))
    (expectedArtifact : Artifact C) : result (Artifact C) :=
  match currentArtifact with
  | None => Ok expectedArtifact
  | Some current =>
      match expectedArtifact with
      | NEW c =>
          redeploy ← shouldDeployNew (config current) c;
          Ok (if (redeploy : bool) then NEW c else DEPLOYED c (deployed current))
      | DEPLOYED c a =>
          redeploy ← shouldDeployNew (config current) c;
          Ok (if (redeploy : bool) then NEW c else DEPLOYED c a)
      | UNDERIVED _ => Throw (TypeError "Cannot read properties of undefined (reading 'type')")
      end
  end.

Definition mergeHookArtifacts : option DeployedHookArtifact -> HookArtifact -> result HookArtifact :=
  merge_artifacts shouldDeployNewHook.

(** ** Reading and writing, deploy-sdk/src/hook *)

(** [IRawHookArtifactManager], made for a mailbox that may be known: reading a hook of any type, and what
    the writers of [createWriter] do. *)
Class RawHookManager (S Tx Receipt : Type) : Type := {
  readHook : option string -> string -> eff S DeployedHookArtifact;
  createHook : option string -> HookArtifactConfig -> eff S (DeployedHookArtifact * list Receipt);
  updateHook : option string -> DeployedHookArtifact -> eff S (list Tx)
}.

Section hooks.
Context {S Tx Receipt : Type} `{RawHookManager S Tx Receipt} (chainLookup : ChainLookup) (mailbox : option string).

(** [HookReader.read]. *)
Definition read_hook (address : string) : eff S DeployedHookArtifact := readHook mailbox address.

Definition deriveHookConfig (address : string) : eff S DerivedHookConfig :=
  artifact ← read_hook address;
  mret (hookArtifactToDerivedConfig artifact chainLookup).

(** [HookWriter.create]. *)
Definition create_hook (config : HookArtifactConfig) : eff S (DeployedHookArtifact * list Receipt) :=
  createHook mailbox config.

(** [HookWriter.update]. *)
Definition update_hook (artifact : DeployedHookArtifact) : eff S (list Tx) :=
  if negb (bool_decide (hook_type (config artifact) ∈ MUTABLE_HOOK_TYPE)) then mret []
  else updateHook mailbox artifact.

(** [HookWriter.deployOrUpdate]. *)
Definition deployOrUpdate (actualAddress : option string) (expectedConfig : HookConfig) : eff S (string * list Tx) :=
  let expectedArtifact := hook_to_artifact expectedConfig chainLookup in
  let deploy := '(d, _) ← create_hook expectedArtifact; mret (deployed d, []) in
  match actualAddress with
  | Some a =>
      if isEmptyAddress (Some a) then deploy
      else
        actualArtifact ← read_hook a;
        redeploy ← lift (shouldDeployNewHook (config actualArtifact) expectedArtifact);
        if (redeploy : bool) then deploy
        else
          transactions ← update_hook (Build_Deployed expectedArtifact (deployed actualArtifact));
          mret (a, transactions)
  | None => deploy
  end.

End hooks.
