(* ===== verification/FeeArtifacts.v ===== *)
(** Warp fees as artifacts, provider-sdk/src/fee.ts. Amounts and basis points: basis points are numbers of
    JavaScript, amounts big integers; a number here is finite, zero or in the normal range. Then strategies,
    configurations by chain name and by domain, what is derived from what is deployed, and what has to be
    deployed anew; readers and writers of deploy-sdk/src/fee. *)
From Stdlib Require Import ZArith QArith Qround Qabs Lqa Lia String Ascii Sorted.
From stdpp Require Import base tactics list strings pretty.
From S2P Require Import Prelude JsMap Addresses Messages JsNumber ConfigJson IsmArtifacts.
From S2P Require Import HookArtifacts.

#[local] Open Scope Z_scope.

(** ** Numbers *)

(** The double nearest to [x]. *)
Definition to_double (x : Q) : Q := if Qle_bool 0 x then fl x else (- fl (- x))%Q.
Definition num_mul (a b : Q) : Q := to_double (a * b).
Definition num_div (a b : Q) : Q := to_double (a / b).
Definition num_sub (a b : Q) : Q := to_double (a - b).
(** [Number(n)] of a big integer. *)
Definition num_of_bigint (n : Z) : Q := to_double (inject_Z n).
(** [Math.round]: ties go up. *)
Definition math_round (x : Q) : Z := Qfloor (x + (1 # 2)).

(** ** Basis points *)

Definition MAX_BPS : Z := 10000.
Definition BPS_PRECISION : Z := 10000.
Definition MAX_BPS_DECIMALS : Z := 4.

Definition isBpsPrecisionValid (bps : Q) : bool :=
  let factor := inject_Z (10 ^ MAX_BPS_DECIMALS) in
  let scaled := num_mul bps factor in
  Qle_bool (Qabs (num_sub (inject_Z (math_round scaled)) scaled)) (to_double (1 # 10 ^ 9)).

Definition assertBpsPrecision (bps : Q) : result unit :=
  js_assert (isBpsPrecisionValid bps) "bps must have at most 4 decimal places".

Record RawFeeParams : Type := { rp_maxFee : Z; rp_halfAmount : Z }.

Definition computeBps (maxFee halfAmount : Z) : result Q :=
  _ ← js_assert (negb (halfAmount =? 0)) "halfAmount must be > 0";
  scaledBps ← bigint_div (maxFee * MAX_BPS * BPS_PRECISION) (halfAmount * 2);
  let factor := inject_Z (10 ^ MAX_BPS_DECIMALS) in
  Ok (num_div
        (inject_Z (math_round (num_mul (num_div (num_of_bigint scaledBps) (num_of_bigint BPS_PRECISION)) factor)))
        factor).

Definition bpsToRawFeeParams (bps : Q) (maxInt assumedMaxAmount : Z) : result RawFeeParams :=
  _ ← js_assert (negb (Qle_bool bps 0)) "bps must be > 0 to prevent division by zero";
  _ ← assertBpsPrecision bps;
  maxFee ← bigint_div maxInt assumedMaxAmount;
  let scaledBps := math_round (num_mul bps (num_of_bigint BPS_PRECISION)) in
  halfFee ← bigint_div maxFee 2;
  halfAmount ← bigint_div (halfFee * MAX_BPS * BPS_PRECISION) scaledBps;
  _ ← js_assert (halfAmount <=? maxInt) "halfAmount must fit in max integer";
  Ok {| rp_maxFee := maxFee; rp_halfAmount := halfAmount |}.

(** [s] ten-thousandths of a basis point, as the number that a configuration has: the double nearest to
    [s / 10000]. *)
Definition bps_of (s : Z) : Q := num_div (inject_Z s) (inject_Z 10000).

(** On most numbers with four decimals the check passes; on a few above 838 basis points the product with
    10000 is off by one in the last place, by more than the check allows. *)
Example four_decimals_pass :
  map (fun s => isBpsPrecisionValid (bps_of s)) [1; 25000; 10001; 5000000; 10000000; 12345678] =
  [true; true; true; true; true; true].
Proof. vm_compute. reflexivity. Qed.
Example four_decimals_refused : isBpsPrecisionValid (bps_of 10240004) = false.
Proof. vm_compute. reflexivity. Qed.
Example five_decimals_refused : isBpsPrecisionValid (num_div (inject_Z 123456) (inject_Z 100000)) = false.
Proof. vm_compute. reflexivity. Qed.
Example fifty_bps :
  bpsToRawFeeParams (bps_of 500000) (2 ^ 64 - 1) (10 ^ 8) =
    Ok {| rp_maxFee := 184467440737; rp_halfAmount := 18446744073600 |} /\
  computeBps 184467440737 18446744073600 = Ok (bps_of 500000).
Proof. vm_compute. done. Qed.

(** ** Rounding *)

#[local] Notation eps := (1 # 2 ^ 52)%Q.

Lemma to_double_near x : (0 < x)%Q -> (x * (1 - eps) <= to_double x <= x * (1 + eps))%Q.
Proof.
  intros Hx. unfold to_double. destruct (Qle_bool 0 x) eqn:E; [by apply fl_error|].
  apply Qle_bool_iff in Hx || (assert (Qle_bool 0 x = true); [apply Qle_bool_iff; lra|congruence]).
Qed.

Lemma to_double_of x y : (x == y)%Q -> (0 < y)%Q -> (y * (1 - eps) <= to_double x <= y * (1 + eps))%Q.
Proof. intros E Hy. assert (0 < x)%Q as Hx by (by rewrite E). pose proof (to_double_near x Hx) as [Hl Hu]. by rewrite <- E. Qed.

Lemma to_double_small x b : (Qabs x <= b)%Q -> (Qabs (to_double x) <= b * (1 + eps))%Q.
Proof.
  intros [Hl Hu]%Qabs_Qle_condition. apply Qabs_Qle_condition.
  change (1 # 2 ^ 52)%Q with (1 # 4503599627370496)%Q in *.
  destruct (Qlt_le_dec 0 x) as [Hpos|Hneg].
  - pose proof (to_double_near x Hpos). change (1 # 2 ^ 52)%Q with (1 # 4503599627370496)%Q in *. split; lra.
  - unfold to_double. destruct (Qle_bool 0 x) eqn:E.
    + apply Qle_bool_iff in E. unfold fl. assert (Qle_bool x 0 = true) as -> by (apply Qle_bool_iff; lra). split; lra.
    + assert (0 < - x)%Q as Hp.
      { destruct (Qlt_le_dec 0 (- x)); [done|]. exfalso. assert (Qle_bool 0 x = true); [apply Qle_bool_iff; lra|congruence]. }
      pose proof (fl_error (- x) Hp). change (1 # 2 ^ 52)%Q with (1 # 4503599627370496)%Q in *. split; lra.
Qed.

Lemma math_round_near (s : Z) x : (inject_Z s - (1 # 2) < x)%Q -> (x < inject_Z s + (1 # 2))%Q -> math_round x = s.
Proof.
  intros Hl Hu. unfold math_round. apply Z.le_antisymm.
  - assert (Qfloor (x + (1 # 2)) < s + 1); [|lia]. rewrite Zlt_Qlt.
    pose proof (Qfloor_le (x + (1 # 2))). rewrite inject_Z_plus. change (inject_Z 1) with 1%Q. lra.
  - rewrite <- (Qfloor_Z s) at 1. apply Qfloor_resp_le. lra.
Qed.

(** A number near [s / 10000], times 10000. *)
Lemma scaled_near s v q : 0 < s <= 2 * 10 ^ 6 -> (q == 10000)%Q ->
  (inject_Z s / 10000 * (1 - 3 * eps) <= v <= inject_Z s / 10000 * (1 + 3 * eps))%Q ->
  math_round (num_mul v q) = s /\
  ((inject_Z s / 10000 * (1 - eps) <= v <= inject_Z s / 10000 * (1 + eps))%Q ->
   (Qabs (inject_Z s - num_mul v q) <= 9 # 10 ^ 10)%Q).
Proof.
  intros [Hs1 Hs2] Hq Hv. change (1 # 2 ^ 52)%Q with (1 # 4503599627370496)%Q in *.
  change (9 # 10 ^ 10)%Q with (9 # 10000000000)%Q.
  assert (1 <= inject_Z s)%Q as Hq1 by (change 1%Q with (inject_Z 1); rewrite <- Zle_Qle; lia).
  assert (inject_Z s <= 2000000)%Q as Hq2 by (change 2000000%Q with (inject_Z 2000000); rewrite <- Zle_Qle; lia).
  assert (inject_Z s / 10000 == inject_Z s * (1 # 10000))%Q as E by (by unfold Qdiv). rewrite E in Hv |- *.
  assert (v * q == v * 10000)%Q as Ev by (by rewrite Hq). unfold num_mul.
  change (1 # 2 ^ 52)%Q with (1 # 4503599627370496)%Q in Hv.
  pose proof (to_double_of _ _ Ev ltac:(lra)) as Ht.
  change (1 # 2 ^ 52)%Q with (1 # 4503599627370496)%Q in *. split.
  - apply math_round_near; lra.
  - intros Hv'. apply Qabs_Qle_condition. split; lra.
Qed.

Lemma positive_number s : 0 < s -> (0 < inject_Z s)%Q.
Proof. intros Hs. change 0%Q with (inject_Z 0). by rewrite <- Zlt_Qlt. Qed.

Lemma bps_of_near s : 0 < s ->
  (inject_Z s / 10000 * (1 - eps) <= bps_of s <= inject_Z s / 10000 * (1 + eps))%Q.
Proof.
  intros Hs. unfold bps_of, num_div. change (inject_Z 10000) with 10000%Q. apply to_double_near.
  pose proof (positive_number s Hs). assert (inject_Z s / 10000 == inject_Z s * (1 # 10000))%Q as -> by (by unfold Qdiv). lra.
Qed.

(** ** Basis points are read back *)

Lemma bps_precision_valid s : 0 < s <= 2 * 10 ^ 6 -> isBpsPrecisionValid (bps_of s) = true.
Proof.
  intros Hs. unfold isBpsPrecisionValid. pose proof (bps_of_near s ltac:(lia)) as Hn.
  pose proof (positive_number s ltac:(lia)).
  destruct (scaled_near s (bps_of s) (inject_Z (10 ^ MAX_BPS_DECIMALS)) Hs) as [-> Hd]; [done| |].
  { assert (inject_Z s / 10000 == inject_Z s * (1 # 10000))%Q as E by (by unfold Qdiv). rewrite E in *.
    change (1 # 2 ^ 52)%Q with (1 # 4503599627370496)%Q in *. lra. }
  unfold num_sub. apply Qle_bool_iff. eapply Qle_trans; [apply to_double_small, Hd, Hn|].
  vm_compute. discriminate.
Qed.

Lemma bps_scaled s q : 0 < s <= 2 * 10 ^ 6 -> (q == 10000)%Q -> math_round (num_mul (bps_of s) q) = s.
Proof.
  intros Hs Hq. pose proof (bps_of_near s ltac:(lia)) as Hn. pose proof (positive_number s ltac:(lia)).
  apply (scaled_near s (bps_of s) q Hs Hq).
  assert (inject_Z s / 10000 == inject_Z s * (1 # 10000))%Q as E by (by unfold Qdiv). rewrite E in *.
  change (1 # 2 ^ 52)%Q with (1 # 4503599627370496)%Q in *. lra.
Qed.

(** What [computeBps] makes of scaled basis points. *)
Lemma scaled_back s q q' : 0 < s <= 2 * 10 ^ 6 -> (q == 10000)%Q -> (q' == 10000)%Q ->
  math_round (num_mul (num_div (num_of_bigint s) q) q') = s.
Proof.
  intros Hs Hq Hq'. pose proof (positive_number s ltac:(lia)) as Hp.
  pose proof (to_double_near _ Hp) as Hn. apply (scaled_near s _ q' Hs Hq').
  unfold num_div, num_of_bigint in *.
  assert (to_double (inject_Z s) / q == to_double (inject_Z s) * (1 # 10000))%Q as E by (rewrite Hq; by unfold Qdiv).
  assert (inject_Z s / 10000 == inject_Z s * (1 # 10000))%Q as E' by (by unfold Qdiv). rewrite E'.
  change (1 # 2 ^ 52)%Q with (1 # 4503599627370496)%Q in *.
  pose proof (to_double_of _ _ E ltac:(lra)) as Hn'.
  change (1 # 2 ^ 52)%Q with (1 # 4503599627370496)%Q in *. lra.
Qed.

(** The rounding of the half amount, which is large compared with the basis points, is undone. *)
Lemma scaled_bps_exact f s : 0 < s <= 2 * 10 ^ 6 -> 2 * (10 ^ 6 + 5 * 10 ^ 7) <= f ->
  let h := Z.quot (Z.quot f 2 * MAX_BPS * BPS_PRECISION) s in
  0 < h /\ Z.quot (f * MAX_BPS * BPS_PRECISION) (h * 2) = s.
Proof.
  intros Hs Hf. unfold MAX_BPS, BPS_PRECISION. rewrite (Z.quot_div_nonneg f 2) by lia.
  set (m := f / 2). assert (2 * m <= f <= 2 * m + 1) as Hm.
  { subst m. pose proof (Z.div_mod f 2 ltac:(lia)). pose proof (Z.mod_pos_bound f 2 ltac:(lia)). lia. }
  rewrite (Z.quot_div_nonneg _ s) by lia. set (h := m * 10000 * 10000 / s).
  assert (h * s <= m * 10000 * 10000 < h * s + s) as Hh.
  { subst h. pose proof (Z.div_mod (m * 10000 * 10000) s ltac:(lia)).
    pose proof (Z.mod_pos_bound (m * 10000 * 10000) s ltac:(lia)). lia. }
  assert (2 * 10 ^ 6 + 5 * 10 ^ 7 < h) as Hlarge by nia.
  cbn zeta. split; [lia|]. rewrite Z.quot_div_nonneg by lia. symmetry.
  apply Z.div_unique_pos with (r := f * 10000 * 10000 - h * 2 * s); nia.
Qed.

(** The half amount is in range if the largest transfer that is assumed is not too small for the fee. *)
Lemma half_amount_fits maxInt assumedMaxAmount s :
  0 < s -> 0 < assumedMaxAmount -> 0 <= maxInt -> 5 * 10 ^ 7 <= assumedMaxAmount * s ->
  maxInt / assumedMaxAmount / 2 * 10 ^ 8 / s <= maxInt.
Proof.
  intros Hs Ha Hm Hb. pose proof (Z.mul_div_le maxInt assumedMaxAmount Ha) as Hf.
  set (f := maxInt / assumedMaxAmount) in *. pose proof (Z.mul_div_le f 2 ltac:(lia)) as Hh. set (h := f / 2) in *.
  assert (0 <= f) by (by apply Z.div_pos; lia).
  assert (h * 10 ^ 8 <= maxInt * s) by nia.
  transitivity (maxInt * s / s); [apply Z.div_le_mono; lia|rewrite Z.div_mul; lia].
Qed.

(** C40: A fee given in basis points with up to four decimals, up to two percent, reads back as the same
    number, whatever floating point rounds on the way: [bpsToRawFeeParams] makes of it the maximum fee, which
    is the largest integer divided by the largest transfer that is assumed, and a positive half amount, and
    [computeBps] gives of these two exactly the number they were made from. It accepts them exactly if the
    half amount fits the integers of the machine, and reports an error otherwise; and it fits if the largest
    transfer assumed, times the fee in units of the fourth decimal, is at least 50 million, so for every fee
    with the limits that svm-sdk (10^8) and sdk (10^36) assume. The maximum fee has to be at least 102 million,
    as it is with these limits: below, the rounding of the half amount could show. *)
Theorem basis_points_read_back s maxInt assumedMaxAmount :
  let maxFee := maxInt / assumedMaxAmount in
  let halfAmount := maxFee / 2 * 10 ^ 8 / s in
  0 < s <= 2 * 10 ^ 6 -> 0 < assumedMaxAmount -> 2 * (10 ^ 6 + 5 * 10 ^ 7) <= maxFee ->
  bpsToRawFeeParams (bps_of s) maxInt assumedMaxAmount =
    (if halfAmount <=? maxInt then Ok {| rp_maxFee := maxFee; rp_halfAmount := halfAmount |}
     else Throw (Error "halfAmount must fit in max integer")) /\
  0 < halfAmount /\ (5 * 10 ^ 7 <= assumedMaxAmount * s -> halfAmount <= maxInt) /\
  computeBps maxFee halfAmount = Ok (bps_of s).
Proof.
  intros f h Hs Ha Hf. destruct (scaled_bps_exact f s Hs Hf) as [Hpos Hscaled].
  assert (0 <= maxInt) by (pose proof (Z.mul_div_le maxInt assumedMaxAmount Ha) as Hle; fold f in Hle; nia).
  assert (Z.quot (Z.quot f 2 * MAX_BPS * BPS_PRECISION) s = h) as Hh.
  { unfold MAX_BPS, BPS_PRECISION. rewrite (Z.quot_div_nonneg f 2) by lia.
    pose proof (Z.div_pos f 2 ltac:(lia) ltac:(lia)). rewrite (Z.quot_div_nonneg _ s) by lia.
    subst h. f_equal. lia. }
  rewrite Hh in Hpos, Hscaled. split_and!; [|done|by intros Hfit; apply half_amount_fits; lia|].
  - unfold bpsToRawFeeParams, assertBpsPrecision. rewrite bps_precision_valid by done.
    rewrite (bps_scaled s (num_of_bigint BPS_PRECISION)) by done.
    pose proof (bps_of_near s ltac:(lia)) as Hn. pose proof (positive_number s ltac:(lia)).
    destruct (Qle_bool (bps_of s) 0) eqn:E.
    { apply Qle_bool_iff in E. assert (inject_Z s / 10000 == inject_Z s * (1 # 10000))%Q as E' by (by unfold Qdiv).
      rewrite E' in *. change (1 # 2 ^ 52)%Q with (1 # 4503599627370496)%Q in *. exfalso. lra. }
    cbn. unfold bigint_div. rewrite !(proj2 (Z.eqb_neq _ _)) by lia. cbn.
    rewrite Z.quot_div_nonneg by lia. fold f. unfold MAX_BPS, BPS_PRECISION in *. rewrite Hh. by destruct (h <=? maxInt).
  - unfold computeBps. rewrite (proj2 (Z.eqb_neq _ 0)) by lia. cbn [negb js_assert mbind result_bind].
    unfold bigint_div. rewrite (proj2 (Z.eqb_neq _ 0)) by lia. cbn [mbind result_bind].
    rewrite Hscaled. by rewrite (scaled_back s (num_of_bigint BPS_PRECISION) (inject_Z (10 ^ MAX_BPS_DECIMALS))).
Qed.

Lemma basis_points_read_back_witness :
  bpsToRawFeeParams (bps_of 12345) (2 ^ 64 - 1) (10 ^ 8) =
    Ok {| rp_maxFee := 184467440737; rp_halfAmount := 747134227363304 |} /\
  747134227363304 <= 2 ^ 64 - 1 /\ computeBps 184467440737 747134227363304 = Ok (bps_of 12345).
Proof.
  destruct (basis_points_read_back 12345 (2 ^ 64 - 1) (10 ^ 8)) as (Hp & _ & Hfits & Hc).
  - by split; vm_compute.
  - by vm_compute.
  - by vm_compute.
  - split; [exact Hp|]. split; [by apply Hfits; vm_compute|exact Hc].
Defined.

(** Not every fee is accepted: a small one for a small transfer limit has a half amount that does not fit. *)
Example half_amount_refused :
  bpsToRawFeeParams (bps_of 1) (2 ^ 64 - 1) (10 ^ 4) = Throw (Error "halfAmount must fit in max integer").
Proof. vm_compute. reflexivity. Qed.

(** ** Strategies *)

Inductive FeeParams : Type :=
| BpsParams (bps : Q) (maxFee halfAmount : option string)
| RawParams (maxFee halfAmount : string).

Inductive LeafFeeType : Type := LinearFee | RegressiveFee | ProgressiveFee.
#[export] Instance LeafFeeType_eq_dec : EqDecision LeafFeeType.
Proof. solve_decision. Defined.

Inductive FeeStrategy : Type :=
| LeafStrategy (type : LeafFeeType) (params : FeeParams)
| OffchainQuotedStrategy (params : FeeParams) (quoteSigners : list string).

Definition strategy_params (s : FeeStrategy) : FeeParams :=
  match s with LeafStrategy _ p | OffchainQuotedStrategy p _ => p end.

(** ** Configurations *)

Record BaseFeeConfig : Type := { fee_owner : string; fee_beneficiary : string; fee_token : option string }.

(** [FeeConfig] by chain name, [FeeArtifactConfig] by domain. *)
Inductive FeeConfigs (K : Type) : Type :=
| LeafFee (type : LeafFeeType) (base : BaseFeeConfig) (params : FeeParams)
| OffchainQuotedLinearFee (base : BaseFeeConfig) (params : FeeParams) (quoteSigners : list string)
| RoutingFee (base : BaseFeeConfig) (routes : list (K * FeeStrategy))
| CrossCollateralRoutingFee (base : BaseFeeConfig) (routes : list (K * list (string * FeeStrategy))).
Arguments LeafFee {K} _ _ _.
Arguments OffchainQuotedLinearFee {K} _ _ _.
Arguments RoutingFee {K} _ _.
Arguments CrossCollateralRoutingFee {K} _ _.

Notation FeeConfig := (FeeConfigs string).
Notation FeeArtifactConfig := (FeeConfigs Z).
Notation FeeArtifact := (Artifact FeeArtifactConfig).
Notation DeployedFeeArtifact := (Deployed FeeArtifactConfig).

Inductive FeeType : Type := LeafType (type : LeafFeeType) | OffchainQuotedType | RoutingType | CrossCollateralType.
#[export] Instance FeeType_eq_dec : EqDecision FeeType.
Proof. solve_decision. Defined.

Definition fee_type {K} (c : FeeConfigs K) : FeeType :=
  match c with
  | LeafFee t _ _ => LeafType t
  | OffchainQuotedLinearFee _ _ _ => OffchainQuotedType
  | RoutingFee _ _ => RoutingType
  | CrossCollateralRoutingFee _ _ => CrossCollateralType
  end.

Definition fee_base {K} (c : FeeConfigs K) : BaseFeeConfig :=
  match c with
  | LeafFee _ b _ | OffchainQuotedLinearFee b _ _ | RoutingFee b _ | CrossCollateralRoutingFee b _ => b
  end.

(** [DerivedLeafFeeConfig] without its type. *)
Record DerivedAmounts : Type := {
  da_token : string; da_owner : string; da_beneficiary : string;
  da_maxFee : Z; da_halfAmount : Z; da_bps : Q; da_address : string
}.

Inductive DerivedFeeConfig : Type :=
| DerivedLeafFee (type : LeafFeeType) (amounts : DerivedAmounts)
| DerivedOffchainQuotedLinearFee (amounts : DerivedAmounts) (quoteSigners : list string)
| DerivedRoutingFee (token owner beneficiary : string) (feeContracts : list (string * DerivedFeeConfig)) (address : string)
| DerivedCrossCollateralRoutingFee (owner beneficiary : string)
    (feeContracts : list (string * list (string * DerivedFeeConfig))) (address : string).

(** [FeeReadContext]: sets of routers by domain. *)
Notation FeeReadContext := (list (Z * list string)).

(** ** Amounts of strategies *)

Definition resolveRawParams (params : FeeParams) : result RawFeeParams :=
  '(maxFee, halfAmount) ← match params with
                          | RawParams maxFee halfAmount => Ok (maxFee, halfAmount)
                          | BpsParams _ (Some maxFee) (Some halfAmount) => Ok (maxFee, halfAmount)
                          | BpsParams _ _ _ =>
                              Throw (Error "bps FeeParams must have maxFee/halfAmount resolved for derived config")
                          end;
  maxFee ← js_BigInt maxFee;
  halfAmount ← js_BigInt halfAmount;
  Ok {| rp_maxFee := maxFee; rp_halfAmount := halfAmount |}.

Definition derived_amounts (params : FeeParams) (token owner beneficiary address : string) : result DerivedAmounts :=
  p ← resolveRawParams params;
  bps ← computeBps (rp_maxFee p) (rp_halfAmount p);
  Ok {| da_token := token; da_owner := owner; da_beneficiary := beneficiary;
        da_maxFee := rp_maxFee p; da_halfAmount := rp_halfAmount p; da_bps := bps; da_address := address |}.

Definition strategyToDerivedFeeConfig (strategy : FeeStrategy) (token owner beneficiary address : string)
    : result DerivedFeeConfig :=
  base ← derived_amounts (strategy_params strategy) token owner beneficiary address;
  Ok match strategy with
     | LeafStrategy type _ => DerivedLeafFee type base
     | OffchainQuotedStrategy _ quoteSigners => DerivedOffchainQuotedLinearFee base quoteSigners
     end.

(** ** From names of chains to domains and back *)

Definition fee_to_artifact (config : FeeConfig) (lookup : ChainLookup) : FeeArtifactConfig :=
  match config with
  | LeafFee type base params => LeafFee type base params
  | OffchainQuotedLinearFee base params quoteSigners => OffchainQuotedLinearFee base params quoteSigners
  | RoutingFee base routes => RoutingFee base (domains_of_names lookup routes)
  | CrossCollateralRoutingFee base routes => CrossCollateralRoutingFee base (domains_of_names lookup routes)
  end.

Definition feeConfigToArtifact (config : FeeConfig) (lookup : ChainLookup) : FeeArtifact :=
  NEW (fee_to_artifact config lookup).

(** [objMap] with a function that may throw. *)
Definition obj_map {K A B} (f : A -> result B) (o : list (K * A)) : result (list (K * B)) :=
  mapM (fun '(k, x) => y ← f x; Ok (k, y)) o.

Definition feeArtifactToDerivedConfig (artifact : DeployedFeeArtifact) (lookup : ChainLookup) (token : string)
    : result DerivedFeeConfig :=
  let address := deployed artifact in
  let owner := fee_owner (fee_base (config artifact)) in
  let beneficiary := fee_beneficiary (fee_base (config artifact)) in
  let derive strategy := strategyToDerivedFeeConfig strategy token owner beneficiary address in
  match config artifact with
  | LeafFee type _ params =>
      amounts ← derived_amounts params token owner beneficiary address;
      Ok (DerivedLeafFee type amounts)
  | OffchainQuotedLinearFee _ params quoteSigners =>
      amounts ← derived_amounts params token owner beneficiary address;
      Ok (DerivedOffchainQuotedLinearFee amounts quoteSigners)
  | RoutingFee _ routes =>
      feeContracts ← obj_map derive (names_of_domains lookup routes);
      Ok (DerivedRoutingFee token owner beneficiary feeContracts address)
  | CrossCollateralRoutingFee _ routes =>
      feeContracts ← obj_map (obj_map derive) (names_of_domains lookup routes);
      Ok (DerivedCrossCollateralRoutingFee owner beneficiary feeContracts address)
  end.

(** ** What has to be deployed *)

Definition feeParamsEqual (a b : FeeParams) : bool :=
  match a, b with
  | BpsParams bps _ _, BpsParams bps' _ _ => Qeq_bool bps bps'
  | RawParams maxFee halfAmount, RawParams maxFee' halfAmount' =>
      String.eqb maxFee maxFee' && String.eqb halfAmount halfAmount'
  | BpsParams _ maxFee halfAmount, RawParams maxFee' halfAmount'
  | RawParams maxFee' halfAmount', BpsParams _ maxFee halfAmount =>
      match maxFee, halfAmount with
      | Some maxFee, Some halfAmount => String.eqb maxFee maxFee' && String.eqb halfAmount halfAmount'
      | _, _ => false
      end
  end.

(** The parameters of a configuration that [isLeafFeeConfig]. *)
Definition leaf_params (c : FeeArtifactConfig) : option FeeParams :=
  match c with
  | LeafFee _ _ params | OffchainQuotedLinearFee _ params _ => Some params
  | _ => None
  end.

Definition shouldDeployNewFee (actual expected : FeeArtifactConfig) : bool :=
  if decide (fee_type actual <> fee_type expected) then true
  else
    match expected with
    | LeafFee _ _ params | OffchainQuotedLinearFee _ params _ =>
        match leaf_params actual with
        | None => true
        | Some actualParams => negb (feeParamsEqual actualParams params)
        end
    | RoutingFee _ _ | CrossCollateralRoutingFee _ _ => false
    end.

Definition with_token (base : BaseFeeConfig) (token : option string) : BaseFeeConfig :=
  {| fee_owner := fee_owner base; fee_beneficiary := fee_beneficiary base; fee_token := token |}.

Definition withFeeAssetConfig (config : FeeArtifactConfig) (token : option string) : FeeArtifactConfig :=
  match config with
  | LeafFee type base params => LeafFee type (with_token base token) params
  | OffchainQuotedLinearFee base params quoteSigners => OffchainQuotedLinearFee (with_token base token) params quoteSigners
  | RoutingFee base routes => RoutingFee (with_token base token) routes
  | CrossCollateralRoutingFee base routes => CrossCollateralRoutingFee (with_token base token) routes
  end.

Definition mergeFeeArtifacts : option DeployedFeeArtifact -> FeeArtifact -> result FeeArtifact :=
  merge_artifacts (fun actual expected => Ok (shouldDeployNewFee actual expected)).

(** ** Reading and writing, deploy-sdk/src/fee *)

(** [IRawFeeArtifactManager], which is [null] where a protocol has no fees, made for a context. *)
Class RawFeeManager (S Tx Receipt : Type) : Type := {
  supports_fees : bool;
  readFee : FeeReadContext -> string -> eff S DeployedFeeArtifact;
  createFee : FeeReadContext -> FeeArtifactConfig -> eff S (DeployedFeeArtifact * list Receipt);
  updateFee : FeeReadContext -> DeployedFeeArtifact -> eff S (list Tx)
}.

(** [FeeReader.read], [FeeWriter.create] and [FeeWriter.update] with their context. *)
Section fees.
Context {S Tx Receipt : Type} `{RawFeeManager S Tx Receipt} (context : FeeReadContext).

Definition read_fee (address : string) : eff S DeployedFeeArtifact := readFee context address.
Definition create_fee (config : FeeArtifactConfig) : eff S (DeployedFeeArtifact * list Receipt) := createFee context config.
Definition update_fee (artifact : DeployedFeeArtifact) : eff S (list Tx) := updateFee context artifact.

End fees.
