(* ===== verification/WarpArtifacts.v ===== *)
(** Warp routes and the core of a chain as artifacts. Warp routes, provider-sdk/src/warp.ts: configurations
    by chain name and by domain, the routers to enroll and to unenroll, and the cost of a deployment. The
    core, provider-sdk/src/mailbox.ts and core.ts: a mailbox with its default module and its two hooks, and
    the addresses of what was deployed. Then facts on routers: enrolling and unenrolling what is computed
    gives the routers and the gas that were expected, once and for all. *)
From Stdlib Require Import ZArith QArith Lia String Ascii Sorted.
From stdpp Require Import base tactics list strings pretty sets.
From S2P Require Import Prelude JsMap Addresses Amount Messages JsNumber ConfigJson IsmArtifacts.
From S2P Require Import IsmArtifactsFacts HookArtifacts FeeArtifacts.

#[local] Open Scope Z_scope.

(** ** Configurations *)

(** What a kind of token adds to a configuration by chain name ([WarpConfig]). *)
Inductive WarpConfigKind : Type :=
| CollateralConfig (token : string)
| SyntheticConfig (name symbol : option string) (decimals : option Z) (metadataUri token : option string)
| NativeConfig
| CrossCollateralConfig (token : string) (crossCollateralRouters : option (list (string * list string))).

(** A nested configuration is one or an address. *)
Record WarpConfig : Type := {
  wc_owner : string;
  wc_mailbox : string;
  wc_ism : option (IsmConfig + string);
  wc_hook : option (HookConfig + string);
  wc_fee : option (FeeConfig + string);
  wc_remoteRouters : option (list (string * string));
  wc_destinationGas : option (list (string * string));
  wc_scale : option Q;
  wc_contractVersion : option string;
  wc_kind : WarpConfigKind
}.

Inductive TokenType : Type := Synthetic | Collateral | Native | CrossCollateral.
#[export] Instance TokenType_eq_dec : EqDecision TokenType.
Proof. solve_decision. Defined.

Definition token_type_text (t : TokenType) : string :=
  match t with
  | Synthetic => "synthetic" | Collateral => "collateral" | Native => "native" | CrossCollateral => "crossCollateral"
  end.

(** What a kind adds to a configuration by domain. The routers of a domain are a set. *)
Inductive WarpKind : Type :=
| CollateralWarp (token : string)
| SyntheticWarp (metadataUri token : option string)
| NativeWarp
| CrossCollateralWarp (token : string) (crossCollateralRouters : list (Z * list string)).

(** [WarpArtifactConfig] with [Artifact] nested, [RawWarpArtifactConfig] with [ArtifactOnChain]. *)
Record WarpConfigs (N : Type -> Type) : Type := {
  w_owner : string;
  w_mailbox : string;
  interchainSecurityModule : option (N IsmArtifactConfig);
  hook : option (N HookArtifactConfig);
  fee : option (N FeeArtifactConfig);
  remoteRouters : list (Z * string);
  destinationGas : list (Z * string);
  w_name : option string;
  w_symbol : option string;
  w_decimals : option Z;
  w_scale : option Q;
  w_contractVersion : option string;
  kind : WarpKind
}.
Arguments Build_WarpConfigs {N} _ _ _ _ _ _ _ _ _ _ _ _ _.
Arguments w_owner {N} _.
Arguments w_mailbox {N} _.
Arguments interchainSecurityModule {N} _.
Arguments hook {N} _.
Arguments fee {N} _.
Arguments remoteRouters {N} _.
Arguments destinationGas {N} _.
Arguments w_name {N} _.
Arguments w_symbol {N} _.
Arguments w_decimals {N} _.
Arguments w_scale {N} _.
Arguments w_contractVersion {N} _.
Arguments kind {N} _.

Notation WarpArtifactConfig := (WarpConfigs Artifact).
Notation RawWarpArtifactConfig := (WarpConfigs ArtifactOnChain).
Notation DeployedWarpArtifact := (Deployed WarpArtifactConfig).

Definition token_type {N} (c : WarpConfigs N) : TokenType :=
  match kind c with
  | CollateralWarp _ => Collateral
  | SyntheticWarp _ _ => Synthetic
  | NativeWarp => Native
  | CrossCollateralWarp _ _ => CrossCollateral
  end.

(** [{...config, owner, interchainSecurityModule, hook, fee}]. *)
Definition with_nested_artifacts {N M : Type -> Type} (c : WarpConfigs N) (owner : string) (ism : option (M IsmArtifactConfig))
    (h : option (M HookArtifactConfig)) (f : option (M FeeArtifactConfig)) : WarpConfigs M := {|
  w_owner := owner; w_mailbox := w_mailbox c; interchainSecurityModule := ism; hook := h; fee := f;
  remoteRouters := remoteRouters c; destinationGas := destinationGas c; w_name := w_name c; w_symbol := w_symbol c;
  w_decimals := w_decimals c; w_scale := w_scale c; w_contractVersion := w_contractVersion c; kind := kind c
|}.

(** ** From names of chains to domains *)

(** A configuration or an address as an artifact; an address that is zero is none. *)
Definition nested_to_artifact {C D} (convert : C -> Artifact D) (config : option (C + string)) : option (Artifact D) :=
  match config with
  | None => None
  | Some (inr address) => on_chain <$> addressToUnderivedArtifact id (Some address)
  | Some (inl c) => Some (convert c)
  end.

(** A field that may be missing or empty. *)
Definition truthy_text (o : option string) : bool := match o with Some (String _ _) => true | _ => false end.

(** [new Set(routers)] for every domain. *)
Definition convertCrossCollateralRoutersToArtifact (routers : option (list (string * list string))) (lookup : ChainLookup)
    : list (Z * list string) :=
  match routers with
  | None => []
  | Some routers => domains_of_names lookup (map (fun '(chain, rs) => (chain, set_of rs)) routers)
  end.

Definition warp_to_artifact (config : WarpConfig) (lookup : ChainLookup) : result WarpArtifactConfig :=
  let base name symbol decimals kind : WarpArtifactConfig := {|
    w_owner := wc_owner config; w_mailbox := wc_mailbox config;
    interchainSecurityModule := nested_to_artifact (fun c => ismConfigToArtifact c lookup) (wc_ism config);
    hook := nested_to_artifact (fun c => hookConfigToArtifact c lookup) (wc_hook config);
    fee := nested_to_artifact (fun c => feeConfigToArtifact c lookup) (wc_fee config);
    remoteRouters := domains_of_names lookup (default [] (wc_remoteRouters config));
    destinationGas := domains_of_names lookup (default [] (wc_destinationGas config));
    w_name := name; w_symbol := symbol; w_decimals := decimals; w_scale := wc_scale config;
    w_contractVersion := wc_contractVersion config; kind := kind |} in
  match wc_kind config with
  | CollateralConfig token => Ok (base None None None (CollateralWarp token))
  | SyntheticConfig name symbol decimals metadataUri token =>
      _ ← js_assert (truthy_text name) "name is required for synthetic token deployment";
      _ ← js_assert (truthy_text symbol) "symbol is required for synthetic token deployment";
      _ ← js_assert (bool_decide (is_Some decimals)) "decimals is required for synthetic token deployment";
      Ok (base name symbol decimals (SyntheticWarp metadataUri token))
  | NativeConfig => Ok (base None None None NativeWarp)
  | CrossCollateralConfig token crossCollateralRouters =>
      Ok (base None None None
            (CrossCollateralWarp token (convertCrossCollateralRoutersToArtifact crossCollateralRouters lookup)))
  end.

Definition warpConfigToArtifact (config : WarpConfig) (lookup : ChainLookup) : result (Artifact WarpArtifactConfig) :=
  c ← warp_to_artifact config lookup; Ok (NEW c).

(** ** And back *)

Inductive DerivedWarpKind : Type :=
| DerivedCollateral (token : string)
| DerivedSynthetic (metadataUri token : option string)
| DerivedNative
| DerivedCrossCollateral (token : string) (crossCollateralRouters : list (string * list string)).

Record DerivedWarpConfig : Type := {
  dw_owner : string;
  dw_mailbox : string;
  dw_ism : DerivedIsmConfig + string;
  dw_hook : DerivedHookConfig + string;
  dw_tokenFee : option DerivedFeeConfig;
  dw_remoteRouters : list (string * string);
  dw_destinationGas : list (string * string);
  dw_name : option string;
  dw_symbol : option string;
  dw_decimals : option Z;
  dw_scale : option Q;
  dw_contractVersion : option string;
  dw_kind : DerivedWarpKind
}.

Definition ZERO_ADDRESS : string := "0x0000000000000000000000000000000000000000".

Definition resolveFeeTokenFromWarpArtifactConfig {N} (config : WarpConfigs N) : option string :=
  match kind config with
  | CollateralWarp token | CrossCollateralWarp token _ => Some token
  | SyntheticWarp _ token => token
  | NativeWarp => None
  end.

(** A nested artifact of what is deployed: derived, or its address, or zero. *)
Definition derive_nested {C D} (name : string) (derive : Deployed C -> result D) (artifact : option (Artifact C))
    : result (D + string) :=
  match artifact with
  | None => Ok (inr ZERO_ADDRESS)
  | Some (NEW _) => Throw (Error ("Expected " +:+ name +:+ " to be a deployed or underived artifact"))
  | Some (DEPLOYED c a) => d ← derive (Build_Deployed c a); Ok (inl d)
  | Some (UNDERIVED a) => Ok (inr a)
  end.

Definition warpArtifactToDerivedConfig (artifact : DeployedWarpArtifact) (lookup : ChainLookup) : result DerivedWarpConfig :=
  let c := config artifact in
  ismConfig ← derive_nested "ISM" (fun d => ismArtifactToDerivedConfig d lookup) (interchainSecurityModule c);
  hookConfig ← derive_nested "hook" (fun d => Ok (hookArtifactToDerivedConfig d lookup)) (hook c);
  feeConfig ← match fee c with
              | None => Ok None
              | Some (NEW _) => Throw (Error "Expected fee to be a deployed or underived artifact")
              | Some (UNDERIVED _) => Throw (Error "Expected fee to be a deployed artifact for derived config")
              | Some (DEPLOYED f a) =>
                  d ← feeArtifactToDerivedConfig (Build_Deployed f a) lookup
                        (default ZERO_ADDRESS (resolveFeeTokenFromWarpArtifactConfig c));
                  Ok (Some d)
              end;
  Ok {|
    dw_owner := w_owner c; dw_mailbox := w_mailbox c; dw_ism := ismConfig; dw_hook := hookConfig; dw_tokenFee := feeConfig;
    dw_remoteRouters := names_of_domains lookup (remoteRouters c);
    dw_destinationGas := names_of_domains lookup (destinationGas c);
    dw_name := w_name c; dw_symbol := w_symbol c; dw_decimals := w_decimals c; dw_scale := w_scale c;
    dw_contractVersion := w_contractVersion c;
    dw_kind := match kind c with
               | CollateralWarp token => DerivedCollateral token
               | SyntheticWarp metadataUri token => DerivedSynthetic metadataUri token
               | NativeWarp => DerivedNative
               | CrossCollateralWarp token routers => DerivedCrossCollateral token (names_of_domains lookup routers)
               end
  |}.

(** ** Routers that fees are read for *)

Definition DEFAULT_CROSS_COLLATERAL_FEE_ROUTER_KEY : string :=
  "0x6e086cd647d6eb8b516856666e2c1465fb8a6a58d3a75938362acc674eacaf47".

(** [known[domain] = new Set([...existing, ...routers, DEFAULT])]. *)
Definition add_known_routers (known : FeeReadContext) (domain : Z) (routers : list string) : FeeReadContext :=
  domain_set domain
    (set_of (default [] (map_get domain known) ++ routers ++ [DEFAULT_CROSS_COLLATERAL_FEE_ROUTER_KEY])) known.

Definition add_known_config {N} (known : FeeReadContext) (config : WarpConfigs N) : FeeReadContext :=
  let known := foldl (fun known '(domain, router) => add_known_routers known domain [router]) known (remoteRouters config) in
  match kind config with
  | CrossCollateralWarp _ routers =>
      foldl (fun known '(domain, routers) => add_known_routers known domain routers) known routers
  | _ => known
  end.

Definition buildFeeReadContextFromWarpArtifactConfig {N} (configs : list (WarpConfigs N)) : FeeReadContext :=
  foldl add_known_config [] configs.

(** ** Routers to enroll *)

Record Enrollment : Type := { e_domainId : Z; e_routerAddress : string; e_gas : string }.
Record WarpRouterDiff : Type := { toEnroll : list Enrollment; toUnenroll : list Z }.

(** The part of a configuration that is compared. *)
Record RemoteRoutersConfig : Type := { rr_remoteRouters : list (Z * string); rr_destinationGas : list (Z * string) }.

(** What [domainId] needs to be enrolled with, if it does. *)
Definition enrollment (compareAddresses : string -> string -> bool) (current expected : RemoteRoutersConfig)
    (domainId : Z) (expectedRouter : string) : option Enrollment :=
  let currentRouterAddress := map_get domainId (rr_remoteRouters current) in
  let currentDestinationGas := default "0" (map_get domainId (rr_destinationGas current)) in
  let expectedDestinationGas :=
    default (if truthy_text currentRouterAddress then currentDestinationGas else "0")
      (map_get domainId (rr_destinationGas expected)) in
  let needsUpdate :=
    match currentRouterAddress with
    | Some (String _ _ as current) =>
        negb (compareAddresses current expectedRouter) || negb (String.eqb currentDestinationGas expectedDestinationGas)
    | _ => true
    end in
  if needsUpdate then
    Some {| e_domainId := domainId; e_routerAddress := expectedRouter; e_gas := expectedDestinationGas |}
  else None.

Definition computeRemoteRoutersUpdates (current expected : RemoteRoutersConfig)
    (compareAddresses : string -> string -> bool) : WarpRouterDiff :=
  let currentDomains := set_of (map_keys (rr_remoteRouters current)) in
  let desiredDomains := set_of (map_keys (rr_remoteRouters expected)) in {|
    toUnenroll := filter (fun domainId => domainId ∉ desiredDomains) currentDomains;
    toEnroll := omap (fun '(domainId, router) => enrollment compareAddresses current expected domainId router)
                  (rr_remoteRouters expected)
  |}.

(** [difference] of utils/src/sets.ts. *)
Definition difference (a b : list string) : list string := filter (fun x => x ∉ b) a.

(** A domain to unenroll with [None] is removed as a whole. *)
Record CrossCollateralRouterDiff : Type := {
  cc_toEnroll : list (Z * list string);
  cc_toUnenroll : list (Z * option (list string))
}.

Section ethers.
Context `{Ethers}.

Definition canonical_router (router : string) : result string := to_lower <$> addressToBytes32 router.
Definition canonicalize : list (Z * list string) -> result (list (Z * list string)) :=
  obj_map (fun routerSet => rs ← mapM canonical_router routerSet; Ok (set_of rs)).

Definition domain_unenrolled (canonicalExpected : list (Z * list string)) (domain : Z) (currentSet : list string)
    : option (option (list string)) :=
  match map_get domain canonicalExpected with
  | Some ((_ :: _) as expectedSet) =>
      let removed := difference currentSet expectedSet in
      if (0 <? length removed)%nat then Some (Some removed) else None
  | _ => Some None
  end.

Definition domain_enrolled (canonicalCurrent : list (Z * list string)) (domain : Z) (expectedSet : list string)
    : option (list string) :=
  let added := difference expectedSet (default [] (map_get domain canonicalCurrent)) in
  if (0 <? length added)%nat then Some added else None.

(** The entries of an object for which there is a value. *)
Definition object_of {A B} (f : Z -> A -> option B) (entries : list (Z * A)) : list (Z * B) :=
  domain_object (omap (fun '(k, x) => pair k <$> f k x) entries).

(** The difference of routers that are canonical. *)
Definition canonical_updates (canonicalCurrent canonicalExpected : list (Z * list string)) : CrossCollateralRouterDiff := {|
  cc_toUnenroll := object_of (domain_unenrolled canonicalExpected) canonicalCurrent;
  cc_toEnroll := object_of (domain_enrolled canonicalCurrent) canonicalExpected
|}.

Definition computeCrossCollateralRouterUpdates (current expected : list (Z * list string))
    : result CrossCollateralRouterDiff :=
  canonicalCurrent ← canonicalize current;
  canonicalExpected ← canonicalize expected;
  Ok (canonical_updates canonicalCurrent canonicalExpected).

End ethers.

Record CCGasConfigDiff : Type := { gas_toEnroll : list (Z * string); gas_toUnenroll : list Z }.

(** What to do about the gas of a domain that has routers for collateral only. *)
Inductive GasChange : Type := SetGas (gas : string) | UnsetGas | KeepGas.

Definition gas_change (currentGas expectedGas : option string) (hasExpectedCCRouters : bool) : GasChange :=
  match expectedGas with
  | Some (String _ _ as gas) =>
      if hasExpectedCCRouters && negb (bool_decide (currentGas = Some gas)) then SetGas gas
      else if negb hasExpectedCCRouters && truthy_text currentGas then UnsetGas else KeepGas
  | _ => if negb hasExpectedCCRouters && truthy_text currentGas then UnsetGas else KeepGas
  end.

Definition computeCCRouterGasConfigUpdates (currentDestinationGas expectedDestinationGas : list (Z * string))
    (expectedRemoteRouterDomains : list Z) (currentCCRouters expectedCCRouters : list (Z * list string)) : CCGasConfigDiff :=
  let allCCDomains := set_of (map_keys currentCCRouters ++ map_keys expectedCCRouters) in
  let change domain :=
    if bool_decide (domain ∈ expectedRemoteRouterDomains) then KeepGas
    else gas_change (map_get domain currentDestinationGas) (map_get domain expectedDestinationGas)
           (0 <? length (default [] (map_get domain expectedCCRouters)))%nat in {|
    gas_toEnroll := omap (fun domain => match change domain with SetGas gas => Some (domain, gas) | _ => None end) allCCDomains;
    gas_toUnenroll := omap (fun domain => match change domain with UnsetGas => Some domain | _ => None end) allCCDomains
  |}.

(** ** Costs *)

Record WarpDeployGasBreakdown : Type := {
  base_gas : Z; crossCollateralExtra : Z; feeProgram : Z; customIsm : Z; customHook : Z
}.

Definition composeWarpDeployGas (warpConfig : WarpArtifactConfig) (breakdown : WarpDeployGasBreakdown) : Z :=
  let is_new {C} (a : option (Artifact C)) := match a with Some a => isArtifactNew a | None => false end in
  let total := base_gas breakdown in
  let total := if bool_decide (token_type warpConfig = CrossCollateral) then total + crossCollateralExtra breakdown else total in
  let total := if is_new (fee warpConfig) then total + feeProgram breakdown else total in
  let total := if is_new (interchainSecurityModule warpConfig) then total + customIsm breakdown else total in
  if is_new (hook warpConfig) then total + customHook breakdown else total.

Definition nativeAmountFromGasUnits (gasUnits : Z) (gasPriceAmount : string) : result Z :=
  let '(whole, fraction) :=
    match js_split "." gasPriceAmount with
    | whole :: fraction :: _ => (whole, fraction)
    | [whole] => (whole, EmptyString)
    | [] => (EmptyString, EmptyString)
    end in
  let scale := Z.of_nat (String.length fraction) in
  scaledPrice ← js_BigInt (match whole +:+ fraction with EmptyString => "0" | digits => digits end);
  let denominator := 10 ^ scale in
  bigint_div (gasUnits * scaledPrice + denominator - 1) denominator.

Example gas_price_up :
  map (nativeAmountFromGasUnits 1001) ["0.025"; "2"; ".5"; ""; "1.2.3"; "x"] =
  [Ok 26; Ok 2002; Ok 501; Ok 0; Ok 1202; Throw NOT_A_BIGINT].
Proof. vm_compute. reflexivity. Qed.

(** [CoreConfig]: nested configurations are such or addresses. *)
Record CoreConfig : Type := {
  cc_owner : string;
  cc_defaultIsm : IsmConfig + string;
  cc_defaultHook : HookConfig + string;
  cc_requiredHook : HookConfig + string;
  cc_contractVersion : option string
}.

(** [MailboxArtifactConfig], and [MailboxOnChain]. *)
Record MailboxConfigs (N : Type -> Type) : Type := {
  m_owner : string;
  defaultIsm : N IsmArtifactConfig;
  defaultHook : N HookArtifactConfig;
  requiredHook : N HookArtifactConfig;
  m_contractVersion : option string
}.
Arguments Build_MailboxConfigs {N} _ _ _ _ _.
Arguments m_owner {N} _.
Arguments defaultIsm {N} _.
Arguments defaultHook {N} _.
Arguments requiredHook {N} _.
Arguments m_contractVersion {N} _.

Notation MailboxArtifactConfig := (MailboxConfigs Artifact).
Notation MailboxOnChain := (MailboxConfigs ArtifactOnChain).
Notation DeployedMailboxArtifact := (Deployed MailboxOnChain).

(** A configuration or an address as an artifact. *)
Definition core_nested {C D} (convert : C -> Artifact D) (config : C + string) : Artifact D :=
  match config with inl c => convert c | inr address => UNDERIVED address end.

Definition coreConfigToArtifact (config : CoreConfig) (lookup : ChainLookup) : Artifact MailboxArtifactConfig :=
  NEW {|
    m_owner := cc_owner config;
    defaultIsm := core_nested (fun c => ismConfigToArtifact c lookup) (cc_defaultIsm config);
    defaultHook := core_nested (fun c => hookConfigToArtifact c lookup) (cc_defaultHook config);
    requiredHook := core_nested (fun c => hookConfigToArtifact c lookup) (cc_requiredHook config);
    m_contractVersion := cc_contractVersion config
  |}.

(** ** What is derived from a mailbox *)

Definition ZERO_ADDRESS_HEX_32 : string := "0x0000000000000000000000000000000000000000000000000000000000000000".

(** [DerivedCoreConfig]: an artifact that is not set is the zero address. *)
Record DerivedCoreConfig : Type := {
  dc_owner : string;
  dc_defaultIsm : DerivedIsmConfig + string;
  dc_defaultHook : DerivedHookConfig + string;
  dc_requiredHook : DerivedHookConfig + string;
  dc_contractVersion : option string
}.

Definition fromOnChainArtifact {C R} (artifact : ArtifactOnChain C) (fieldName : string) (convert : Deployed C -> result R)
    : result (R + string) :=
  d ← toDeployedOrUndefined artifact fieldName;
  match d with
  | Some d => r ← convert d; Ok (inl r)
  | None => Ok (inr ZERO_ADDRESS_HEX_32)
  end.

Definition mailboxArtifactToDerivedCoreConfig (artifact : DeployedMailboxArtifact) (lookup : ChainLookup)
    : result DerivedCoreConfig :=
  let c := config artifact in
  ism ← fromOnChainArtifact (defaultIsm c) "defaultIsm" (fun a => ismArtifactToDerivedConfig a lookup);
  hook ← fromOnChainArtifact (defaultHook c) "defaultHook" (fun a => Ok (hookArtifactToDerivedConfig a lookup));
  required ← fromOnChainArtifact (requiredHook c) "requiredHook" (fun a => Ok (hookArtifactToDerivedConfig a lookup));
  Ok {| dc_owner := m_owner c; dc_defaultIsm := ism; dc_defaultHook := hook; dc_requiredHook := required;
        dc_contractVersion := m_contractVersion c |}.

(** ** Addresses *)

(** The fields of [DeployedCoreAddresses] that can be set; the others are empty. *)
Record DeployedCoreAddresses : Type := {
  a_mailbox : string;
  a_validatorAnnounce : string;
  staticMerkleRootMultisigIsmFactory : string;
  staticMessageIdMultisigIsmFactory : string;
  domainRoutingIsmFactory : string;
  merkleTreeHook : option string;
  interchainGasPaymaster : option string;
  a_protocolFee : option string
}.

(** The address of what is deployed as a type. *)
Definition address_if {C} (is_type : C -> bool) (artifact : ArtifactOnChain C) : option string :=
  match artifact with
  | OnChain d => if is_type (config d) then Some (deployed d) else None
  | AddressOnly _ => None
  end.

(** [first ??= second]. *)
Definition or_else (first second : option string) : option string :=
  match first with Some a => Some a | None => second end.

Definition coreResultToDeployedAddresses (mailbox : DeployedMailboxArtifact) (validatorAnnounce : option (Deployed string))
    : DeployedCoreAddresses :=
  let c := config mailbox in
  let ism t := default EmptyString (address_if (fun c => bool_decide (ism_type (config_of c) = t)) (defaultIsm c)) in
  let hook t :=
    let is_type c := bool_decide (hook_type c = t) in
    or_else (address_if is_type (defaultHook c)) (address_if is_type (requiredHook c)) in {|
    a_mailbox := deployed mailbox;
    a_validatorAnnounce := default EmptyString (deployed <$> validatorAnnounce);
    staticMerkleRootMultisigIsmFactory := ism MERKLE_ROOT_MULTISIG;
    staticMessageIdMultisigIsmFactory := ism MESSAGE_ID_MULTISIG;
    domainRoutingIsmFactory := ism ROUTING;
    merkleTreeHook := hook MerkleTreeType;
    interchainGasPaymaster := hook IgpType;
    a_protocolFee := hook ProtocolFeeType
  |}.

(** ** Remote routers *)

(** What a route has after a difference was applied; what gas is left to a domain that is unenrolled is
    up to the protocol. *)
Definition applied (before after : RemoteRoutersConfig) (d : WarpRouterDiff) : Prop :=
  (forall k, k ∈ toUnenroll d -> map_get k (rr_remoteRouters after) = None) /\
  (forall e, e ∈ toEnroll d ->
    map_get (e_domainId e) (rr_remoteRouters after) = Some (e_routerAddress e) /\
    map_get (e_domainId e) (rr_destinationGas after) = Some (e_gas e)) /\
  (forall k, k ∉ toUnenroll d -> k ∉ map e_domainId (toEnroll d) ->
    map_get k (rr_remoteRouters after) = map_get k (rr_remoteRouters before) /\
    map_get k (rr_destinationGas after) = map_get k (rr_destinationGas before)).

(** Whether [k] is enrolled, and the gas a route has for it. *)
Definition enrolled (c : RemoteRoutersConfig) (k : Z) : bool := truthy_text (map_get k (rr_remoteRouters c)).
Definition gas_of (c : RemoteRoutersConfig) (k : Z) : string := default "0" (map_get k (rr_destinationGas c)).

(** The gas that is expected of [k]: what is not configured is kept, zero for what is new. *)
Definition gas_expected (current expected : RemoteRoutersConfig) (k : Z) : string :=
  default (if enrolled current k then gas_of current k else "0") (map_get k (rr_destinationGas expected)).

(** The router and the gas of [k] are right. *)
Definition settled_router (compare : string -> string -> bool) (c expected : RemoteRoutersConfig) (k : Z) (router : string) : Prop :=
  exists a, map_get k (rr_remoteRouters c) = Some a /\ a <> EmptyString /\ compare a router = true /\
    gas_of c k = gas_expected c expected k.

Lemma enrollment_none compare current expected k router :
  enrollment compare current expected k router = None <-> settled_router compare current expected k router.
Proof.
  unfold enrollment, settled_router, gas_expected, enrolled, gas_of.
  destruct (map_get k (rr_remoteRouters current)) as [[|ch a]|] eqn:E; cbn [truthy_text];
    [split; [done|by intros (? & [= <-] & ? & _)]| |split; [done|by intros (? & ? & _)]].
  destruct (compare (String ch a) router) eqn:Ec; cbn [negb orb];
    [|split; [done|intros (? & [= <-] & _ & ? & _); congruence]].
  match goal with |- context [String.eqb ?x ?y] => destruct (String.eqb_spec x y) as [Eg|Eg] end;
    cbn [negb]; (split; [try done; intros _; by exists (String ch a)|]); [done|].
  by intros (? & [= <-] & _ & _ & ?).
Qed.

Lemma enrollment_some compare current expected k router e :
  enrollment compare current expected k router = Some e ->
  e = {| e_domainId := k; e_routerAddress := router; e_gas := gas_expected current expected k |}.
Proof. unfold enrollment. case_match; [|done]. intros [= <-]. done. Qed.

Lemma map_has_is_Some {K V} `{EqDecision K} (k : K) (m : list (K * V)) : map_has k m = true <-> is_Some (map_get k m).
Proof. unfold map_has. destruct (map_get k m); split; (done || by intros []). Qed.

Lemma list_omap_none {A B} (f : A -> option B) l : (forall x, x ∈ l -> f x = None) -> omap f l = [].
Proof. induction l as [|x l IH]; intros Hl; [done|]. cbn. rewrite Hl by set_solver. apply IH. set_solver. Qed.

Lemma list_empty_iff_elem {A} (l : list A) : (forall x, x ∉ l) -> l = [].
Proof. destruct l as [|x l]; [done|]. intros Hl. exfalso. apply (Hl x). by left. Qed.

Lemma list_filter_none {A} (P : A -> Prop) `{forall x, Decision (P x)} l : (forall x, x ∈ l -> ~ P x) -> filter P l = [].
Proof.
  induction l as [|x l IH]; intros Hl; [done|]. rewrite filter_cons_False by (apply Hl; set_solver). apply IH. set_solver.
Qed.

Section remote.
Context (compare : string -> string -> bool) (current expected : RemoteRoutersConfig).
Notation diff := (computeRemoteRoutersUpdates current expected compare).
Hypothesis Hwf : map_wf (rr_remoteRouters expected).
Hypothesis Hrouters : forall k router, map_get k (rr_remoteRouters expected) = Some router ->
  router <> EmptyString /\ compare router router = true.

Lemma elem_of_unenroll k :
  k ∈ toUnenroll diff <-> k ∈ map_keys (rr_remoteRouters current) /\ k ∉ map_keys (rr_remoteRouters expected).
Proof. cbn. rewrite list_elem_of_filter, !elem_of_set_of. naive_solver. Qed.

Lemma elem_of_enroll e :
  e ∈ toEnroll diff <-> exists router, map_get (e_domainId e) (rr_remoteRouters expected) = Some router /\
    enrollment compare current expected (e_domainId e) router = Some e.
Proof.
  cbn. rewrite list_elem_of_omap. split.
  - intros ([k router] & Hin & He). pose proof (enrollment_some _ _ _ _ _ _ He) as ->. cbn. exists router.
    split; [by apply map_elem_get|done].
  - intros (router & Hin & He). exists (e_domainId e, router). split; [by apply map_get_elem|done].
Qed.

Lemma applied_router after k router :
  applied current after diff -> map_get k (rr_remoteRouters expected) = Some router ->
  settled_router compare after expected k router /\ gas_of after k = gas_expected current expected k.
Proof.
  intros (Hun & Hen & Hsame) Hk. destruct (Hrouters k router Hk) as [Hne Hrefl].
  destruct (enrollment compare current expected k router) as [e|] eqn:He.
  - pose proof (enrollment_some _ _ _ _ _ _ He) as ->.
    destruct (Hen {| e_domainId := k; e_routerAddress := router; e_gas := gas_expected current expected k |}) as [Ha Hg].
    { apply elem_of_enroll. cbn. eauto. }
    cbn in *. unfold settled_router, gas_of. rewrite Hg. cbn. split; [|done]. exists router. split_and!; [done..|].
    unfold gas_expected at 2. unfold enrolled, gas_of. rewrite Ha, Hg. cbn [default].
    destruct router; [done|]. cbn. unfold gas_expected. by destruct (map_get k (rr_destinationGas expected)).
  - apply enrollment_none in He as (a & Ha & Hna & Hc & Hg).
    destruct (Hsame k) as [Ha' Hg'].
    { rewrite elem_of_unenroll. intros [_ Hnot]. apply Hnot. apply map_has_true.
      unfold map_has. by rewrite Hk. }
    { intros (e & Ek & Hin)%list_elem_of_fmap. apply elem_of_enroll in Hin as (r & Hr & He').
      rewrite <- Ek in *. assert (r = router) as -> by congruence.
      assert (enrollment compare current expected k router = None) by (apply enrollment_none; by exists a).
      congruence. }
    split; [|unfold gas_of in *; by rewrite Hg'].
    exists a. rewrite Ha'. split_and!; [done..|].
    unfold gas_expected, enrolled, gas_of in *. by rewrite Ha', Hg'.
Qed.

(** C25: Enrolling and unenrolling what [computeRemoteRoutersUpdates] returns gives a warp route the routers
    that are expected: exactly the expected domains, each with the expected router up to the comparison of
    addresses, and with the expected gas, where gas that is not configured is kept for a router that is
    enrolled and is zero for a new one. Computed once more, nothing is left to do. No domain is both enrolled
    and unenrolled, and only what is not right is enrolled. *)
Theorem remote_routers_converge after :
  applied current after diff ->
  (forall k, is_Some (map_get k (rr_remoteRouters after)) <-> is_Some (map_get k (rr_remoteRouters expected))) /\
  (forall k router, map_get k (rr_remoteRouters expected) = Some router ->
    settled_router compare after expected k router /\ gas_of after k = gas_expected current expected k) /\
  computeRemoteRoutersUpdates after expected compare = Build_WarpRouterDiff [] [] /\
  (forall e, e ∈ toEnroll diff -> e_domainId e ∉ toUnenroll diff /\
    ~ settled_router compare current expected (e_domainId e) (e_routerAddress e)).
Proof.
  intros Happ. assert (forall k, is_Some (map_get k (rr_remoteRouters after)) <-> is_Some (map_get k (rr_remoteRouters expected))) as Hdom.
  { intros k. split.
    - intros [a Ha]. apply map_has_is_Some, map_has_true. destruct (decide (k ∈ map_keys (rr_remoteRouters expected))) as [|Hnot]; [done|].
      exfalso. destruct Happ as (Hun & Hen & Hsame).
      destruct (decide (k ∈ map_keys (rr_remoteRouters current))) as [Hin|Hnone].
      { rewrite Hun in Ha; [done|]. by apply elem_of_unenroll. }
      destruct (Hsame k) as [Hr _]; [by rewrite elem_of_unenroll; intros []| |].
      { intros (e & -> & (r & Hr & _)%elem_of_enroll)%list_elem_of_fmap. by apply Hnot, map_has_true, map_has_is_Some. }
      apply map_get_None in Hnone. congruence.
    - intros [router Hk]. destruct (applied_router after k router Happ Hk) as [(a & Ha & _) _]. by exists a. }
  split_and!; [done|intros k router Hk; by apply applied_router| |].
  - unfold computeRemoteRoutersUpdates. f_equal.
    + apply list_omap_none. intros [k router] Hin. apply enrollment_none.
      by apply (applied_router after k router Happ), map_elem_get.
    + apply list_filter_none. intros k Hin Hnot. rewrite !elem_of_set_of in *. apply Hnot.
      apply map_has_true, map_has_is_Some, Hdom, map_has_is_Some. by apply map_has_true.
  - intros e He. pose proof He as (router & Hk & Hsome)%elem_of_enroll. split.
    + rewrite elem_of_unenroll. intros [_ Hnot]. apply Hnot. by apply map_has_true, map_has_is_Some.
    + rewrite <- enrollment_none. pose proof (enrollment_some _ _ _ _ _ _ Hsome) as E. rewrite E in Hsome |- *. cbn in *. congruence.
Qed.

End remote.

(** ** Routers of other collateral *)

(** The routers a route has for a domain. *)
Definition routers_of (m : list (Z * list string)) (k : Z) : list string := default [] (map_get k m).

(** Whether a difference removes a router of a domain. *)
Definition removes (d : CrossCollateralRouterDiff) (k : Z) (r : string) : Prop :=
  match map_get k (cc_toUnenroll d) with
  | Some None => True
  | Some (Some removed) => r ∈ removed
  | None => False
  end.

Definition cc_applied (before after : list (Z * list string)) (d : CrossCollateralRouterDiff) : Prop :=
  forall k r, r ∈ routers_of after k <->
    (r ∈ routers_of before k /\ ~ removes d k r) \/ r ∈ routers_of (cc_toEnroll d) k.

Lemma omap_values_sorted {A B} (f : Z -> A -> option B) (l : list (Z * A)) :
  sorted_domains l -> sorted_domains (omap (fun '(k, x) => pair k <$> f k x) l).
Proof.
  unfold sorted_domains. induction l as [|[k x] l IH]; [done|]. cbn. intros [Hs Hk]%StronglySorted_inv.
  destruct (f k x); cbn; [|by apply IH]. constructor; [by apply IH|]. clear IH Hs.
  induction l as [|[k' x'] l IH]; [constructor|]. cbn in *. apply Forall_cons in Hk as [Hk Hks].
  destruct (f k' x'); cbn; [constructor|]; auto.
Qed.

Lemma object_of_get {A B} (f : Z -> A -> option B) (l : list (Z * A)) k :
  sorted_domains l -> map_get k (object_of f l) = map_get k l ≫= f k.
Proof.
  intros Hs. unfold object_of. rewrite domain_object_sorted by by apply omap_values_sorted.
  induction l as [|[k' x] l IH]; [done|]. cbn. unfold sorted_domains in Hs. cbn in Hs.
  apply StronglySorted_inv in Hs as [Hs Hk]. specialize (IH Hs). case_decide as E.
  - subst k'. cbn. destruct (f k x) eqn:Ef; cbn; [by rewrite decide_True|]. rewrite IH.
    assert (map_get k l = None) as ->; [|done]. apply map_get_None. intros Hin. rewrite Forall_forall in Hk.
    specialize (Hk _ Hin). lia.
  - destruct (f k' x); cbn; [by rewrite decide_False|done].
Qed.

Lemma elem_of_removed a b (r : string) : r ∈ difference a b <-> r ∈ a /\ r ∉ b.
Proof. unfold difference. rewrite list_elem_of_filter. naive_solver. Qed.

Lemma some_nonempty {A} (l : list A) x : x ∈ l -> (0 <? length l)%nat = true.
Proof. destruct l; [set_solver|done]. Qed.

Lemma not_nonempty {A} (l : list A) : (0 <? length l)%nat = false -> l = [].
Proof. by destruct l. Qed.

Section collateral.
Context (current expected : list (Z * list string)).
Hypothesis Hc : sorted_domains current.
Hypothesis He : sorted_domains expected.
Notation d := (canonical_updates current expected).

Lemma removes_iff k r : r ∈ routers_of current k -> (removes d k r <-> r ∉ routers_of expected k).
Proof.
  unfold removes, routers_of. cbn [cc_toUnenroll canonical_updates]. rewrite object_of_get by done.
  destruct (map_get k current) as [cur|]; [cbn|by intros ?%not_elem_of_nil]. intros Hr. unfold domain_unenrolled.
  destruct (map_get k expected) as [[|x expd]|]; cbn [default id]; [split; [intros _; apply not_elem_of_nil|done]| |
    split; [intros _; apply not_elem_of_nil|done]].
  destruct ((0 <? length (difference cur (x :: expd)))%nat) eqn:E.
  - rewrite elem_of_removed. naive_solver.
  - split; [done|]. intros Hn. apply not_nonempty in E. exfalso.
    assert (r ∈ difference cur (x :: expd)) as Hd by by apply elem_of_removed. rewrite E in Hd. by apply not_elem_of_nil in Hd.
Qed.

Lemma enrolls_iff k r : r ∈ routers_of (cc_toEnroll d) k <-> r ∈ routers_of expected k /\ r ∉ routers_of current k.
Proof.
  unfold routers_of at 1. cbn [cc_toEnroll canonical_updates]. rewrite object_of_get by done.
  unfold routers_of at 1, domain_enrolled.
  destruct (map_get k expected) as [expd|]; cbn [mbind option_bind default id]; [|set_solver]. fold (routers_of current k).
  destruct ((0 <? length (difference expd (routers_of current k)))%nat) eqn:E; cbn [default id]; [apply elem_of_removed|].
  apply not_nonempty in E. rewrite <- elem_of_removed, E. done.
Qed.

Lemma applied_routers after k r : cc_applied current after d -> (r ∈ routers_of after k <-> r ∈ routers_of expected k).
Proof.
  intros Happ. rewrite (Happ k r), enrolls_iff. split.
  - intros [[Hin Hnot]|[Hin _]]; [|done]. rewrite removes_iff in Hnot by done.
    destruct (decide (r ∈ routers_of expected k)); [done|]. by destruct Hnot.
  - intros Hin. destruct (decide (r ∈ routers_of current k)) as [Hr|Hr]; [left|by right].
    split; [done|]. rewrite removes_iff by done. naive_solver.
Qed.

End collateral.

(** Where the routers are those expected, nothing is enrolled, and only domains without routers are unenrolled. *)
Lemma settled_routers after expected :
  sorted_domains after -> sorted_domains expected ->
  (forall k r, r ∈ routers_of after k <-> r ∈ routers_of expected k) ->
  (forall k, routers_of (cc_toEnroll (canonical_updates after expected)) k = []) /\
  (forall k r, r ∈ routers_of after k -> ~ removes (canonical_updates after expected) k r).
Proof.
  intros Ha He Hsame. split.
  - intros k. apply list_empty_iff_elem. intros r. rewrite enrolls_iff by done. rewrite <- Hsame. naive_solver.
  - intros k r Hr. rewrite removes_iff by done. rewrite <- Hsame. naive_solver.
Qed.

Lemma canonical_sorted `{Ethers} m m' : canonicalize m = Ok m' -> sorted_domains m -> sorted_domains m'.
Proof.
  unfold canonicalize, obj_map, sorted_domains. intros Hm. apply mapM_result_ok_inv in Hm.
  assert (m'.*1 = m.*1) as ->; [|done]. induction Hm as [|[k x] y l l' Hx _ IH]; [done|].
  apply result_bind_ok in Hx as (rs & _ & [= <-]). cbn. by rewrite IH.
Qed.

(** C26: Enrolling and unenrolling what [computeCrossCollateralRouterUpdates] returns gives a route exactly the
    routers of other collateral that are expected, in canonical spelling, for every domain. Computed once
    more, no router is enrolled or unenrolled. What is enrolled was not there, and what is unenrolled, of a
    domain as a whole or by router, was not expected. *)
Theorem cross_collateral_routers_converge `{Ethers} current expected d :
  sorted_domains current -> sorted_domains expected ->
  computeCrossCollateralRouterUpdates current expected = Ok d ->
  exists cur expd, canonicalize current = Ok cur /\ canonicalize expected = Ok expd /\
    (forall k r, r ∈ routers_of (cc_toEnroll d) k -> r ∉ routers_of cur k) /\
    (forall k r, r ∈ routers_of cur k -> removes d k r -> r ∉ routers_of expd k) /\
    forall after, cc_applied cur after d -> sorted_domains after ->
      (forall k r, r ∈ routers_of after k <-> r ∈ routers_of expd k) /\
      (forall k, routers_of (cc_toEnroll (canonical_updates after expd)) k = []) /\
      (forall k r, r ∈ routers_of after k -> ~ removes (canonical_updates after expd) k r).
Proof.
  intros Hs He (cur & Hc & (expd & Hx & [= <-])%result_bind_ok)%result_bind_ok.
  pose proof (canonical_sorted _ _ Hc Hs) as Hsc. pose proof (canonical_sorted _ _ Hx He) as Hsx.
  exists cur, expd. split_and!; [done..| | |].
  - intros k r. rewrite enrolls_iff by done. naive_solver.
  - intros k r Hr. rewrite removes_iff by done. done.
  - intros after Happ Hsa. pose proof (fun k r => applied_routers cur expd Hsc Hsx after k r Happ) as Hsame.
    split; [done|]. by apply settled_routers.
Qed.

(** ** Gas of domains with other collateral only *)

Definition gas_applied (before after : list (Z * string)) (d : CCGasConfigDiff) : Prop :=
  (forall k g, (k, g) ∈ gas_toEnroll d -> map_get k after = Some g) /\
  (forall k, k ∈ gas_toUnenroll d -> map_get k after = None) /\
  (forall k, k ∉ (gas_toEnroll d).*1 -> k ∉ gas_toUnenroll d -> map_get k after = map_get k before).

(** A domain that has routers of other collateral only has the gas that is configured, and none once it has
    no routers. Remote routers have the gas that [remote_routers_converge] states. *)
Lemma collateral_gas_converges gas expectedGas remote current expected after k :
  let d := computeCCRouterGasConfigUpdates gas expectedGas remote current expected in
  gas_applied gas after d -> k ∉ remote -> k ∈ map_keys current \/ k ∈ map_keys expected ->
  (routers_of expected k = [] -> truthy_text (map_get k after) = false) /\
  (forall g, routers_of expected k <> [] -> map_get k expectedGas = Some g -> g <> EmptyString -> map_get k after = Some g).
Proof.
  intros d (Hset & Hunset & Hkeep) Hremote Hk.
  set (change := gas_change (map_get k gas) (map_get k expectedGas) (0 <? length (routers_of expected k))%nat).
  assert (k ∈ set_of (map_keys current ++ map_keys expected)) as Hin by (rewrite elem_of_set_of, elem_of_app; naive_solver).
  assert (forall g, change = SetGas g -> (k, g) ∈ gas_toEnroll d) as Hset'.
  { intros g Hg. apply list_elem_of_omap. exists k. split; [done|]. rewrite bool_decide_eq_false_2 by done.
    fold (routers_of expected k). fold change. by rewrite Hg. }
  assert (change = UnsetGas -> k ∈ gas_toUnenroll d) as Hunset'.
  { intros Hg. apply list_elem_of_omap. exists k. split; [done|]. rewrite bool_decide_eq_false_2 by done.
    fold (routers_of expected k). fold change. by rewrite Hg. }
  assert (change = KeepGas -> map_get k after = map_get k gas) as Hkeep'.
  { intros Hg. apply Hkeep.
    - intros ([k' g] & -> & (k'' & _ & Hx)%list_elem_of_omap)%list_elem_of_fmap. cbn [fst] in *.
      destruct (bool_decide (k'' ∈ remote)); [done|]. fold (routers_of expected k'') in Hx.
      match type of Hx with context [gas_change ?a ?b ?c] => destruct (gas_change a b c) eqn:E end; try done.
      injection Hx as -> ->. subst change. congruence.
    - intros (k'' & _ & Hx)%list_elem_of_omap. destruct (bool_decide (k'' ∈ remote)); [done|].
      fold (routers_of expected k'') in Hx. match type of Hx with context [gas_change ?a ?b ?c] => destruct (gas_change a b c) eqn:E end; try done.
      injection Hx as ->. subst change. congruence. }
  split.
  - intros Hnone. subst change. rewrite Hnone in *. cbn [length Nat.ltb Nat.leb] in *. unfold gas_change in *. cbn [negb andb] in *.
    destruct (truthy_text (map_get k gas)) eqn:Et.
    + rewrite Hunset; [done|]. apply Hunset'. by destruct (map_get k expectedGas) as [[|]|].
    + rewrite Hkeep'; [done|]. by destruct (map_get k expectedGas) as [[|]|].
  - intros g Hsome Hg Hne. subst change. unfold gas_change in *. rewrite Hg in *.
    destruct g as [|ch g]; [done|]. destruct (routers_of expected k) as [|r rs]; [done|]. cbn [length Nat.ltb Nat.leb negb andb] in *.
    case_bool_decide as E; cbn [negb] in *; [by rewrite Hkeep'|]. apply Hset, Hset'. done.
Qed.
