(* ===== verification/DeployWriters.v ===== *)
(** Reading, deploying and updating warp routes and the core of a chain: [WarpTokenReader] and
    [WarpTokenWriter] of deploy-sdk/src/warp, [CoreArtifactReader] and [CoreWriter] of deploy-sdk/src/core,
    over the readers and writers of modules, hooks and fees. *)
From Stdlib Require Import ZArith QArith Lia String Ascii.
From stdpp Require Import base tactics list strings pretty.
From S2P Require Import Prelude JsMap Addresses Messages AddressEq ConfigJson IsmArtifacts.
From S2P Require Import IsmWriters HookArtifacts FeeArtifacts WarpArtifacts.

#[local] Open Scope Z_scope.

(** [ISigner]: whose transactions these are, and sending one. *)
Class Signer (S Tx Receipt : Type) : Type := {
  getSignerAddress : string;
  sendAndConfirmTransaction : Tx -> eff S Receipt
}.
Arguments getSignerAddress _ _ _ {_}.

(** [IRawWarpArtifactManager]: reading a route of any type, and what the writers of [createWriter] do. *)
Class RawWarpManager (S Tx Receipt : Type) : Type := {
  readWarpToken : string -> eff S (Deployed RawWarpArtifactConfig);
  createWarpToken : RawWarpArtifactConfig -> eff S (Deployed RawWarpArtifactConfig * list Receipt);
  updateWarpToken : Deployed RawWarpArtifactConfig -> eff S (list Tx);
  supportsHookUpdates : bool
}.
Arguments supportsHookUpdates _ _ _ {_}.

(** An artifact that is on chain, as any artifact. *)
Definition raw_config (c : RawWarpArtifactConfig) : WarpArtifactConfig :=
  with_nested_artifacts c (w_owner c) (on_chain <$> interchainSecurityModule c) (on_chain <$> hook c) (on_chain <$> fee c).

(** [{artifactState: UNDERIVED, deployed: {address}}]. *)
Definition underived {C} (a : ArtifactOnChain C) : ArtifactOnChain C := AddressOnly (on_chain_address a).

Section routes.
Context {S Tx Receipt : Type} `{Ethers} `{AddressLibs} `{RawIsmManager S Tx Receipt} `{RawHookManager S Tx Receipt}
  `{RawFeeManager S Tx Receipt} `{RawWarpManager S Tx Receipt} `{Signer S Tx Receipt}.
Context (chainName : string) (chainLookup : ChainLookup).

Definition warpRouterContext (address : string) : ContextualAddress := {|
  router_address := address; toBytes32 := to_lower <$> addressToBytes32 address
|}.

(** ** Reading *)

(** [expandIsmArtifact], [expandHookArtifact] and [expandFeeArtifact], with what reads an address. *)
Definition expand_artifact {C} (read : string -> eff S (Deployed C)) (artifact : option (ArtifactOnChain C))
    : eff S (option (Deployed C)) :=
  match artifact with
  | None => mret None
  | Some (AddressOnly a) => d ← read a; mret (Some d)
  | Some (OnChain d) => mret (Some d)
  end.

(** The reader of the fee of a route. *)
Definition fee_reader (context : FeeReadContext) (address : string) : eff S DeployedFeeArtifact :=
  if supports_fees then read_fee context address
  else throw (Error "Fee artifact present on warp config but protocol has no fee artifact manager").

(** [WarpTokenReader.read]: what is nested is deployed, so it is returned with the rest. *)
Definition read_route (fuel : nat) (address : string) : eff S (Deployed (WarpConfigs Deployed)) :=
  rawArtifact ← readWarpToken address;
  let c := config rawArtifact in
  expandedIsm ← expand_artifact (read_ism chainLookup fuel) (interchainSecurityModule c);
  expandedHook ← expand_artifact (read_hook (Some (w_mailbox c))) (hook c);
  expandedFee ← expand_artifact (fee_reader (buildFeeReadContextFromWarpArtifactConfig [c])) (fee c);
  mret (Build_Deployed (with_nested_artifacts c (w_owner c) expandedIsm expandedHook expandedFee) (deployed rawArtifact)).

Definition expanded_config (c : WarpConfigs Deployed) : WarpArtifactConfig :=
  with_nested_artifacts c (w_owner c) (as_artifact <$> interchainSecurityModule c) (as_artifact <$> hook c) (as_artifact <$> fee c).

Definition deriveWarpConfig (fuel : nat) (address : string) : eff S DerivedWarpConfig :=
  artifact ← read_route fuel address;
  lift (warpArtifactToDerivedConfig (Build_Deployed (expanded_config (config artifact)) (deployed artifact)) chainLookup).

(** ** Updating *)

Definition needs_mailbox {C} (artifact : option (Artifact C)) : bool :=
  match artifact with Some a => negb (isArtifactUnderived a) | None => false end.

Definition MAILBOX_REQUIRED : string := "Mailbox is required when hook configuration is provided".

(** The step that settles the hook. *)
Definition resolve_hook_update (mailbox : string) (currentHook : option DeployedHookArtifact)
    (expectedHook : option HookArtifact) : eff S (option (ArtifactOnChain HookArtifactConfig) * list Tx) :=
  match expectedHook with
  | None => mret (None, [])
  | Some (UNDERIVED a) => mret (Some (AddressOnly a), [])
  | Some expectedHook =>
      if negb (supportsHookUpdates S Tx Receipt) then mret (OnChain <$> currentHook, [])
      else
        mergedHookConfig ← lift (mergeHookArtifacts currentHook expectedHook);
        match mergedHookConfig with
        | NEW c => '(d, _) ← create_hook (Some mailbox) c; mret (Some (AddressOnly (deployed d)), [])
        | DEPLOYED c a => txs ← update_hook (Some mailbox) (Build_Deployed c a); mret (Some (AddressOnly a), txs)
        | UNDERIVED _ => mret (None, [])
        end
  end.

(** The step that settles the fee, of a route whose token is [feeAsset]. *)
Definition resolve_fee_update (feeContext : FeeReadContext) (feeAsset : option string)
    (currentFee : option DeployedFeeArtifact) (expectedFee : option FeeArtifact)
    : eff S (option (ArtifactOnChain FeeArtifactConfig) * list Tx) :=
  match expectedFee with
  | None => mret (None, [])
  | Some (UNDERIVED a) => mret (Some (AddressOnly a), [])
  | Some expectedFee =>
      if negb supports_fees then mret (OnChain <$> currentFee, [])
      else
        mergedFeeConfig ← lift (mergeFeeArtifacts currentFee expectedFee);
        match mergedFeeConfig with
        | NEW c =>
            '(d, _) ← create_fee feeContext (withFeeAssetConfig c feeAsset);
            mret (Some (AddressOnly (deployed d)), [])
        | DEPLOYED c a =>
            txs ← update_fee feeContext (Build_Deployed (withFeeAssetConfig c feeAsset) a);
            mret (Some (AddressOnly a), txs)
        | UNDERIVED _ => throw (TypeError "Cannot read properties of undefined (reading 'type')")
        end
  end.

(** [WarpTokenWriter.update]: [fuel] is for reading the module of the route. *)
Definition update_route (fuel : nat) (artifact : DeployedWarpArtifact) : eff S (list Tx) :=
  let c := config artifact in
  let address := deployed artifact in
  _ ← lift (js_assert (negb (needs_mailbox (hook c)) || truthy_text (Some (w_mailbox c))) MAILBOX_REQUIRED);
  currentArtifact ← read_route fuel address;
  let current := config currentArtifact in
  _ ← lift (js_assert (bool_decide (token_type current = token_type c))
        ("Cannot change warp token type from '" +:+ token_type_text (token_type current) +:+ "' to '"
         +:+ token_type_text (token_type c) +:+ "'. Token type is immutable after deployment."));
  '(onChainIsm, ismTxs) ← resolve_ism_update chainLookup (interchainSecurityModule current) (interchainSecurityModule c)
                            (warpRouterContext address) chainName;
  '(onChainHook, hookTxs) ← resolve_hook_update (w_mailbox c) (hook current) (hook c);
  let feeAsset := match resolveFeeTokenFromWarpArtifactConfig current with
                  | Some token => Some token
                  | None => resolveFeeTokenFromWarpArtifactConfig c
                  end in
  '(onChainFee, feeTxs) ← resolve_fee_update (buildFeeReadContextFromWarpArtifactConfig [c; expanded_config current])
                            feeAsset (fee current) (fee c);
  warpUpdateTxs ← updateWarpToken
    (Build_Deployed (with_nested_artifacts c (w_owner c) (AddressOnly <$> onChainIsm) onChainHook onChainFee) address);
  mret (ismTxs ++ hookTxs ++ feeTxs ++ warpUpdateTxs).

(** ** Deploying *)

(** [for (const tx of txs) receipts.push(await signer.sendAndConfirmTransaction(tx))]. *)
Definition send_all (txs : list Tx) : eff S (list Receipt) := mapM sendAndConfirmTransaction txs.

(** The hook that a route is deployed with. *)
Definition create_route_hook (mailbox : string) (configured : option HookArtifact)
    : eff S (option (ArtifactOnChain HookArtifactConfig) * list Receipt) :=
  match configured with
  | None => mret (None, [])
  | Some configured =>
      if negb (supportsHookUpdates S Tx Receipt) then mret (None, [])
      else
        match configured with
        | NEW c => '(d, receipts) ← create_hook (Some mailbox) c; mret (Some (OnChain d), receipts)
        | DEPLOYED c a => mret (Some (OnChain (Build_Deployed c a)), [])
        | UNDERIVED a => mret (Some (AddressOnly a), [])
        end
  end.

(** The module of a route that was deployed at [address]. *)
Definition create_route_ism (address : string) (configured : option IsmArtifact)
    : eff S (option (ArtifactOnChain IsmArtifactConfig) * list Receipt) :=
  match configured with
  | None => mret (None, [])
  | Some (UNDERIVED a) => mret (Some (AddressOnly a), [])
  | Some configured =>
      resolvedIsm ← lift (resolveIsmArtifact configured CREATE (warpRouterContext address) chainName);
      match resolvedIsm with
      | NEW c => '(d, receipts) ← create_ism c; mret (Some (OnChain d), receipts)
      | DEPLOYED c a => mret (Some (OnChain (Build_Deployed c a)), [])
      | UNDERIVED a => mret (Some (AddressOnly a), [])
      end
  end.

(** The fee of a route that was deployed as [c]. *)
Definition create_route_fee {N} (c : WarpConfigs N) (configured : option FeeArtifact)
    : eff S (option (ArtifactOnChain FeeArtifactConfig) * list Receipt) :=
  match configured with
  | None => mret (None, [])
  | Some configured =>
      if negb supports_fees then mret (None, [])
      else
        match configured with
        | NEW feeConfig =>
            '(d, receipts) ← create_fee (buildFeeReadContextFromWarpArtifactConfig [c])
                               (withFeeAssetConfig feeConfig (resolveFeeTokenFromWarpArtifactConfig c));
            mret (Some (OnChain d), receipts)
        | DEPLOYED f a => mret (Some (OnChain (Build_Deployed f a)), [])
        | UNDERIVED a => mret (Some (AddressOnly a), [])
        end
  end.

(** [WarpTokenWriter.create]. *)
Definition create_route (fuel : nat) (c : WarpArtifactConfig)
    : eff S (Deployed RawWarpArtifactConfig * list Receipt) :=
  let signerAddress := getSignerAddress S Tx Receipt in
  _ ← lift (js_assert (negb (bool_decide (is_Some (hook c))) || truthy_text (Some (w_mailbox c))) MAILBOX_REQUIRED);
  _ ← lift (match interchainSecurityModule c with
            | Some configuredIsm => assertRateLimitedIsmRecipientsUnset configuredIsm chainName
            | None => Ok ()
            end);
  '(onChainHook, hookReceipts) ← create_route_hook (w_mailbox c) (hook c);
  '(d, tokenReceipts) ← createWarpToken (with_nested_artifacts c signerAddress None onChainHook None);
  '(onChainIsm, ismReceipts) ← create_route_ism (deployed d) (interchainSecurityModule c);
  '(onChainFee, feeReceipts) ← create_route_fee (config d) (fee c);
  attachReceipts ←
    (if bool_decide (is_Some onChainIsm) || bool_decide (is_Some onChainFee) || negb (eqAddress signerAddress (w_owner c)) then
       attachTxs ← update_route fuel
         (Build_Deployed
            (with_nested_artifacts c (w_owner c) (on_chain ∘ underived <$> onChainIsm) (on_chain ∘ underived <$> onChainHook)
               (on_chain ∘ underived <$> onChainFee))
            (deployed d));
       send_all attachTxs
     else mret []);
  mret (Build_Deployed (with_nested_artifacts (config d) (w_owner c) onChainIsm onChainHook onChainFee) (deployed d),
        hookReceipts ++ tokenReceipts ++ ismReceipts ++ feeReceipts ++ attachReceipts).

End routes.

(** [IRawMailboxArtifactManager] and [IRawValidatorAnnounceArtifactManager], which a protocol may not have:
    an announcement is deployed for a mailbox. *)
Class RawMailboxManager (S Tx Receipt : Type) : Type := {
  readMailbox : string -> eff S DeployedMailboxArtifact;
  createMailbox : MailboxOnChain -> eff S (DeployedMailboxArtifact * list Receipt);
  updateMailbox : DeployedMailboxArtifact -> eff S (list Tx);
  supports_announce : bool;
  createAnnounce : string -> eff S (Deployed string * list Receipt)
}.

Section core.
Context {S Tx Receipt : Type} `{RawIsmManager S Tx Receipt} `{RawHookManager S Tx Receipt}
  `{RawMailboxManager S Tx Receipt} `{Signer S Tx Receipt}.
Context (chainName : string) (isStarknet : bool) (chainLookup : ChainLookup).

(** ** Reading *)

(** What an address refers to, unless it is empty. *)
Definition expand_at {C} (read : string -> eff S (Deployed C)) (artifact : ArtifactOnChain C) : eff S (ArtifactOnChain C) :=
  let address := on_chain_address artifact in
  if isEmptyAddress (Some address) then mret artifact else d ← read address; mret (OnChain d).

(** [CoreArtifactReader.read]. *)
Definition read_core (fuel : nat) (mailboxAddress : string) : eff S DeployedMailboxArtifact :=
  rawMailbox ← readMailbox mailboxAddress;
  let c := config rawMailbox in
  ism ← expand_at (read_ism chainLookup fuel) (defaultIsm c);
  default_hook ← expand_at (read_hook (Some mailboxAddress)) (defaultHook c);
  required_hook ← expand_at (read_hook (Some mailboxAddress)) (requiredHook c);
  mret (Build_Deployed {| m_owner := m_owner c; defaultIsm := ism; defaultHook := default_hook;
                          requiredHook := required_hook; m_contractVersion := m_contractVersion c |} (deployed rawMailbox)).

Definition deriveCoreConfig (fuel : nat) (mailboxAddress : string) : eff S DerivedCoreConfig :=
  artifact ← read_core fuel mailboxAddress;
  lift (mailboxArtifactToDerivedCoreConfig artifact chainLookup).

(** ** Deploying *)

Definition getInitialHookArtifact (hookArtifact : HookArtifact) : ArtifactOnChain HookArtifactConfig :=
  match hookArtifact with
  | DEPLOYED c a => if isStarknet then OnChain (Build_Deployed c a) else AddressOnly ZERO_ADDRESS_HEX_32
  | UNDERIVED a => if isStarknet then AddressOnly a else AddressOnly ZERO_ADDRESS_HEX_32
  | NEW _ => AddressOnly ZERO_ADDRESS_HEX_32
  end.

(** What is new is deployed, what is on chain kept. *)
Definition deploy_artifact {C} (create : C -> eff S (Deployed C * list Receipt)) (artifact : Artifact C)
    : eff S (ArtifactOnChain C * list Receipt) :=
  match artifact with
  | NEW c => '(d, receipts) ← create c; mret (OnChain d, receipts)
  | DEPLOYED c a => mret (OnChain (Build_Deployed c a), [])
  | UNDERIVED a => mret (AddressOnly a, [])
  end.

(** [CoreWriter.create]: the mailbox, the announcement, and the receipts. *)
Definition create_core (c : MailboxArtifactConfig)
    : eff S (DeployedMailboxArtifact * option (Deployed string) * list Receipt) :=
  _ ← lift (assertIsmSupportedAsMailboxDefault (defaultIsm c) ("the default ISM of " +:+ chainName));
  '(onChainIsm, ismReceipts) ← deploy_artifact create_ism (defaultIsm c);
  '(deployedMailbox, mailboxReceipts) ← createMailbox {|
    m_owner := getSignerAddress S Tx Receipt;
    defaultIsm := onChainIsm;
    defaultHook := getInitialHookArtifact (defaultHook c);
    requiredHook := getInitialHookArtifact (requiredHook c);
    m_contractVersion := None |};
  let mailboxAddress := deployed deployedMailbox in
  '(onChainDefaultHook, defaultHookReceipts) ← deploy_artifact (create_hook (Some mailboxAddress)) (defaultHook c);
  '(onChainRequiredHook, requiredHookReceipts) ← deploy_artifact (create_hook (Some mailboxAddress)) (requiredHook c);
  let updatedMailbox := Build_Deployed {|
    m_owner := m_owner c; defaultIsm := onChainIsm; defaultHook := onChainDefaultHook;
    requiredHook := onChainRequiredHook; m_contractVersion := None |} mailboxAddress in
  updateTxs ← updateMailbox updatedMailbox;
  updateReceipts ← send_all updateTxs;
  '(validatorAnnounce, vaReceipts) ←
    (if supports_announce then '(d, receipts) ← createAnnounce mailboxAddress; mret (Some d, receipts)
     else mret (None, []));
  mret (updatedMailbox, validatorAnnounce,
        ismReceipts ++ mailboxReceipts ++ defaultHookReceipts ++ requiredHookReceipts ++ updateReceipts ++ vaReceipts).

(** ** Updating *)

Definition deployOrUpdateHook (currentHookArtifact : option DeployedHookArtifact) (expectedHook : HookArtifact)
    (mailboxAddress : string) : eff S (string * list Tx) :=
  match expectedHook with
  | UNDERIVED a => mret (a, [])
  | _ =>
      mergedArtifact ← lift (mergeHookArtifacts currentHookArtifact expectedHook);
      match mergedArtifact with
      | NEW c => '(d, _) ← create_hook (Some mailboxAddress) c; mret (deployed d, [])
      | DEPLOYED c a => updateTxs ← update_hook (Some mailboxAddress) (Build_Deployed c a); mret (a, updateTxs)
      | UNDERIVED _ => throw (TypeError "Cannot read properties of undefined (reading 'type')")
      end
  end.

(** [CoreWriter.update]: [fuel] is for reading the default module. *)
Definition update_core (fuel : nat) (expectedArtifact : Deployed MailboxArtifactConfig) : eff S (list Tx) :=
  let expected := config expectedArtifact in
  let mailboxAddress := deployed expectedArtifact in
  _ ← lift (assertIsmSupportedAsMailboxDefault (defaultIsm expected) ("the default ISM of " +:+ chainName));
  currentArtifact ← read_core fuel mailboxAddress;
  let current := config currentArtifact in
  currentIsm ← lift (toDeployedOrUndefined (defaultIsm current) "defaultIsm");
  currentDefaultHook ← lift (toDeployedOrUndefined (defaultHook current) "defaultHook");
  currentRequiredHook ← lift (toDeployedOrUndefined (requiredHook current) "requiredHook");
  '(newIsmAddress, ismTxs) ← deployOrUpdateIsm chainLookup currentIsm (defaultIsm expected);
  '(newDefaultHookAddress, defaultHookTxs) ← deployOrUpdateHook currentDefaultHook (defaultHook expected) mailboxAddress;
  '(newRequiredHookAddress, requiredHookTxs) ← deployOrUpdateHook currentRequiredHook (requiredHook expected) mailboxAddress;
  mailboxUpdateTxs ← updateMailbox (Build_Deployed {|
    m_owner := m_owner expected;
    defaultIsm := AddressOnly newIsmAddress;
    defaultHook := AddressOnly newDefaultHookAddress;
    requiredHook := AddressOnly newRequiredHookAddress;
    m_contractVersion := m_contractVersion expected |} (deployed currentArtifact));
  mret (ismTxs ++ defaultHookTxs ++ requiredHookTxs ++ mailboxUpdateTxs).

End core.
