(* ===== verification/DeployLaws.v ===== *)
(** What protocols promise about hooks, fees, routes and mailboxes: the interfaces of their readers and
    writers as laws, against which the writers of deploy-sdk are proved; and what reading, deploying and
    updating modules leaves as it is. *)
From Stdlib Require Import ZArith QArith Lia String Ascii Sorted.
From stdpp Require Import base tactics sets list strings pretty.
From S2P Require Import Prelude JsMap Addresses Messages AddressEq ConfigJson IsmArtifacts.
From S2P Require Import IsmArtifactsFacts IsmConfigFacts IsmWriters IsmWriterFacts IsmUpdateFacts.
From S2P Require Import HookArtifacts FeeArtifacts WarpArtifacts DeployWriters.

#[local] Open Scope Z_scope.

(** ** The parts of a chain *)

(** Routes and mailboxes on a chain name what they refer to by address. *)
Notation OnChainWarp := (WarpConfigs (fun _ => string)).
Notation OnChainMailbox := (MailboxConfigs (fun _ => string)).

Definition warp_addresses (c : RawWarpArtifactConfig) : OnChainWarp :=
  with_nested_artifacts (M := fun _ => string) c (w_owner c) (on_chain_address <$> interchainSecurityModule c)
    (on_chain_address <$> hook c) (on_chain_address <$> fee c).
Definition warp_references (c : OnChainWarp) : RawWarpArtifactConfig :=
  with_nested_artifacts c (w_owner c) (AddressOnly <$> interchainSecurityModule c) (AddressOnly <$> hook c)
    (AddressOnly <$> fee c).
Definition mailbox_references (c : OnChainMailbox) : MailboxOnChain := {|
  m_owner := m_owner c; defaultIsm := AddressOnly (defaultIsm c); defaultHook := AddressOnly (defaultHook c);
  requiredHook := AddressOnly (requiredHook c); m_contractVersion := m_contractVersion c
|}.

Inductive Part : Type := Isms | Hooks | Fees | Routes | Mailboxes | Announcements.
#[export] Instance Part_eq_dec : EqDecision Part.
Proof. solve_decision. Defined.

(** What a chain has of each part at an address; an announcement has the mailbox it is for. *)
Definition content (p : Part) : Type :=
  match p with
  | Isms => OnChainIsm
  | Hooks => HookArtifactConfig
  | Fees => FeeArtifactConfig
  | Routes => OnChainWarp
  | Mailboxes => OnChainMailbox
  | Announcements => string
  end.

Class DeployChain (S Tx : Type) `{IsmChain S Tx} : Type := {
  hook_at : S -> string -> option HookArtifactConfig;
  fee_at : S -> string -> option FeeArtifactConfig;
  route_at : S -> string -> option OnChainWarp;
  mailbox_at : S -> string -> option OnChainMailbox;
  announcement_at : S -> string -> option string
}.

Definition part_at {S Tx} `{DeployChain S Tx} (p : Part) : S -> string -> option (content p) :=
  match p with
  | Isms => at_address
  | Hooks => hook_at
  | Fees => fee_at
  | Routes => route_at
  | Mailboxes => mailbox_at
  | Announcements => announcement_at
  end.

Section parts.
Context {S Tx : Type} `{DeployChain S Tx}.

Definition same_part (p : Part) (s s' : S) : Prop := forall a, part_at p s' a = part_at p s a.
(** Nothing changes, or only one part does. *)
Definition unchanged (s s' : S) : Prop := forall p, same_part p s s'.
Definition only (p : Part) (s s' : S) : Prop := forall q, q <> p -> same_part q s s'.

(** Something of a part that was not there. *)
Definition creates_part (p : Part) (s s' : S) (a : string) (x : content p) : Prop :=
  part_at p s a = None /\ part_at p s' a = Some x /\
  (forall b, b <> a -> part_at p s' b = part_at p s b) /\ only p s s'.

(** Transactions that make something of a part what it should be, as long as it is what it was. *)
Definition updates_part (p : Part) (s : S) (a : string) (good : content p -> Prop) (txs : list Tx) : Prop :=
  forall s1, part_at p s1 a = part_at p s a ->
    (exists x, part_at p (submit txs s1) a = Some x /\ good x) /\
    (forall b, b <> a -> part_at p (submit txs s1) b = part_at p s1 b) /\ only p s1 (submit txs s1).

#[export] Instance same_part_preorder p : PreOrder (same_part p).
Proof. split; [by intros s a|]. intros s1 s2 s3 H12 H23 a. by rewrite H23, H12. Qed.
#[export] Instance only_preorder p : PreOrder (only p).
Proof. split; [by intros s q _ a|]. intros s1 s2 s3 H12 H23 q Hq. by etrans; [apply H12|apply H23]. Qed.
#[export] Instance unchanged_preorder : PreOrder unchanged.
Proof. split; [by intros s q a|]. intros s1 s2 s3 H12 H23 q. by etrans; [apply H12|apply H23]. Qed.

Lemma unchanged_only p s s' : unchanged s s' -> only p s s'.
Proof. intros Hu q _. apply Hu. Qed.

End parts.

(** ** Promises *)

(** Reading, deploying and updating modules changes nothing else. *)
Class IsmFrames (S Tx Receipt : Type) `{RawIsmManager S Tx Receipt, DeployChain S Tx} : Prop := {
  read_ism_frame a : preserves (only Isms) (readIsm a);
  create_routing_frame c : preserves (only Isms) (createRouting c);
  create_raw_frame c : preserves (only Isms) (createRaw c);
  update_routing_frame d s s' txs : updateRouting d s = (s', Ok txs) ->
    only Isms s s' /\ forall s1, only Isms s1 (submit txs s1);
  update_raw_frame d s s' txs : updateRaw d s = (s', Ok txs) ->
    only Isms s s' /\ forall s1, only Isms s1 (submit txs s1)
}.

(** A hook is read as it is; what is deployed has an address of its own; an update of a hook that need not
    be deployed anew makes it what it should be. *)
Class HookLaws (S Tx Receipt : Type) `{RawHookManager S Tx Receipt, DeployChain S Tx} : Prop := {
  read_hook_law m a s c : hook_at s a = Some c -> readHook m a s = (s, Ok (Build_Deployed c a));
  read_hook_nothing m a s s' d : readHook m a s = (s', Ok d) -> is_Some (hook_at s a);
  create_hook_law m c s s' d receipts : createHook m c s = (s', Ok (d, receipts)) ->
    config d = c /\ creates_part Hooks s s' (deployed d) c;
  update_hook_law m c a s s' txs c0 : updateHook m (Build_Deployed c a) s = (s', Ok txs) ->
    hook_at s a = Some c0 -> shouldDeployNewHook c0 c = Ok false ->
    unchanged s s' /\ updates_part Hooks s a (eq c) txs
}.

(** A fee on chain is what a configuration asks for; tokens are not kept by all protocols, and basis
    points are kept as amounts. *)
Definition fee_serves (m c : FeeArtifactConfig) : Prop :=
  shouldDeployNewFee m c = false /\ fee_owner (fee_base m) = fee_owner (fee_base c) /\
  fee_beneficiary (fee_base m) = fee_beneficiary (fee_base c) /\
  match m, c with
  | RoutingFee _ routes, RoutingFee _ routes' => routes = routes'
  | CrossCollateralRoutingFee _ routes, CrossCollateralRoutingFee _ routes' => routes = routes'
  | OffchainQuotedLinearFee _ _ signers, OffchainQuotedLinearFee _ _ signers' => signers = signers'
  | _, _ => True
  end.

(** A fee is read as far as its context lets it be. *)
Class FeeLaws (S Tx Receipt : Type) `{RawFeeManager S Tx Receipt, DeployChain S Tx} : Prop := {
  read_fee_law context a s s' d : readFee context a s = (s', Ok d) ->
    s' = s /\ deployed d = a /\ exists c, fee_at s a = Some c /\
    fee_type c = fee_type (config d) /\ leaf_params c = leaf_params (config d);
  create_fee_law context c s s' d receipts : createFee context c s = (s', Ok (d, receipts)) ->
    exists m, creates_part Fees s s' (deployed d) m /\ fee_serves m c;
  update_fee_law context c a s s' txs c0 : updateFee context (Build_Deployed c a) s = (s', Ok txs) ->
    fee_at s a = Some c0 -> shouldDeployNewFee c0 c = false ->
    unchanged s s' /\ updates_part Fees s a (fun m => fee_serves m c) txs
}.

(** The part of a route that is compared. *)
Definition routers_config {N : Type -> Type} (c : WarpConfigs N) : RemoteRoutersConfig :=
  {| rr_remoteRouters := remoteRouters c; rr_destinationGas := destinationGas c |}.

(** What a route refers to when [expected] is written over [kept]: exactly that if it is [proper], which is to
    say spelled as the chain spells it and not the empty address; and where nothing is expected, nothing or
    what there was, since some protocols remove it and others leave it. *)
Definition refers (proper : string -> Prop) (kept expected now : option string) : Prop :=
  match expected with
  | Some a => proper a -> now = Some a
  | None => now = None \/ now = kept
  end.

(** A route on chain is what a configuration asks for, where [kept_hook], [kept_fee] and [kept_ism] are what
    there was: its owner, what it refers to, and its routers, up to a comparison of addresses. A protocol
    without hooks of routes, or without fees, leaves those as they are. *)
Section serves.
Context {S Tx Receipt : Type} `{RawFeeManager S Tx Receipt} `{RawWarpManager S Tx Receipt}.
Context (compare : string -> string -> bool) (proper : string -> Prop).

Record route_serves (kept_ism kept_hook kept_fee : option string) (m : OnChainWarp) (c : RawWarpArtifactConfig) : Prop := {
  serves_owner : proper (w_owner c) -> w_owner m = w_owner c;
  serves_type : token_type m = token_type c;
  serves_ism : refers proper kept_ism (on_chain_address <$> interchainSecurityModule c) (interchainSecurityModule m);
  serves_hook :
    if supportsHookUpdates S Tx Receipt then refers proper kept_hook (on_chain_address <$> hook c) (hook m)
    else hook m = kept_hook;
  serves_fee :
    if supports_fees then refers proper kept_fee (on_chain_address <$> fee c) (fee m) else fee m = kept_fee;
  serves_routers k router : map_get k (remoteRouters c) = Some router ->
    settled_router compare (routers_config m) (routers_config c) k router
}.

End serves.

Definition proper_reference (proper : string -> Prop) (a : option string) : Prop :=
  match a with Some a => proper a | None => True end.

Lemma refers_proper proper kept expected now :
  refers proper kept expected now -> proper_reference proper expected ->
  now = expected \/ expected = None /\ now = kept.
Proof. destruct expected as [a|]; cbn; [|intros [->| ->] _; by auto]. intros Ha Hp. left. by apply Ha. Qed.

(** What a route is deployed as: the configuration, where the token of a synthetic route is deployed with it. *)
Definition deployed_as (c c' : RawWarpArtifactConfig) : Prop :=
  w_owner c' = w_owner c /\ w_mailbox c' = w_mailbox c /\ interchainSecurityModule c' = interchainSecurityModule c /\
  hook c' = hook c /\ fee c' = fee c /\ remoteRouters c' = remoteRouters c /\ destinationGas c' = destinationGas c /\
  token_type c' = token_type c.

(** A route is read as it is, and has an address of its own, which has a canonical spelling of 32 bytes. A
    route is deployed with the signer as its owner. An update of a route reads the chain and returns
    transactions, which the owner of the route can send. What something is found at is a proper address. *)
Class RouteLaws (S Tx Receipt : Type)
    `{Ethers, RawFeeManager S Tx Receipt, RawWarpManager S Tx Receipt, Signer S Tx Receipt, DeployChain S Tx} : Type := {
  compare_routers : string -> string -> bool;
  proper : string -> Prop;
  proper_part p s a : is_Some (part_at p s a) -> proper a;
  read_route_law a s m : route_at s a = Some m -> readWarpToken a s = (s, Ok (Build_Deployed (warp_references m) a));
  read_route_nothing a s s' d : readWarpToken a s = (s', Ok d) -> is_Some (route_at s a);
  create_route_law c s s' d receipts : createWarpToken c s = (s', Ok (d, receipts)) ->
    w_owner c = getSignerAddress S Tx Receipt ->
    deployed_as c (config d) /\
    (exists m, creates_part Routes s s' (deployed d) m /\ route_serves compare_routers proper None None None m c) /\
    exists r, router_recipient (warpRouterContext (deployed d)) = Ok r;
  update_route_law c a s s' txs m : updateWarpToken (Build_Deployed c a) s = (s', Ok txs) ->
    route_at s a = Some m -> token_type m = token_type c ->
    unchanged s s' /\
    updates_part Routes s a
      (fun m' => route_serves compare_routers proper (interchainSecurityModule m) (hook m) (fee m) m' c) txs /\
    (w_owner m = getSignerAddress S Tx Receipt -> forall s1, route_at s1 a = Some m ->
       exists receipts, send_all txs s1 = (submit txs s1, Ok receipts))
}.

(** A mailbox on chain is what a configuration asks for. *)
Definition mailbox_serves (m : OnChainMailbox) (c : MailboxOnChain) : Prop :=
  m_owner m = m_owner c /\ defaultIsm m = on_chain_address (defaultIsm c) /\
  defaultHook m = on_chain_address (defaultHook c) /\ requiredHook m = on_chain_address (requiredHook c).

(** The hooks of a new mailbox may be others for those that are zero. *)
Class MailboxLaws (S Tx Receipt : Type) `{RawMailboxManager S Tx Receipt, Signer S Tx Receipt, DeployChain S Tx} : Prop := {
  read_mailbox_law a s m : mailbox_at s a = Some m -> readMailbox a s = (s, Ok (Build_Deployed (mailbox_references m) a));
  read_mailbox_nothing a s s' d : readMailbox a s = (s', Ok d) -> is_Some (mailbox_at s a);
  create_mailbox_law c s s' d receipts : createMailbox c s = (s', Ok (d, receipts)) ->
    exists m, creates_part Mailboxes s s' (deployed d) m /\ m_owner m = m_owner c;
  update_mailbox_law c a s s' txs m : updateMailbox (Build_Deployed c a) s = (s', Ok txs) ->
    mailbox_at s a = Some m ->
    unchanged s s' /\ updates_part Mailboxes s a (fun m' => mailbox_serves m' c) txs /\
    (m_owner m = getSignerAddress S Tx Receipt -> forall s1, mailbox_at s1 a = Some m ->
       exists receipts, send_all txs s1 = (submit txs s1, Ok receipts));
  create_announce_law mailbox s s' d receipts : createAnnounce mailbox s = (s', Ok (d, receipts)) ->
    creates_part Announcements s s' (deployed d) mailbox
}.

(** ** Modules *)

Section isms.
Context {S Tx Receipt : Type} `{IsmChainLaws S Tx Receipt} `{!DeployChain S Tx} `{!IsmFrames S Tx Receipt}
  (lookup : ChainLookup).

(** Transactions that change modules only, on any chain. *)
Definition ism_txs (txs : list Tx) : Prop := forall s1, only Isms s1 (submit txs s1).

Lemma read_ism_only fuel a : preserves (only Isms) (read_ism lookup fuel a).
Proof.
  revert a. induction fuel as [|fuel IH]; intros a; [apply preserves_throw; exact _|]. cbn.
  apply preserves_bind; [exact _|apply read_ism_frame|intros raw]. destruct (config raw); try (apply preserves_ret; exact _).
  - apply preserves_bind; [exact _| |intros l; apply preserves_ret; exact _].
    apply preserves_mapM; [exact _|]. intros [k x] _. destruct (chain_name lookup k); [|apply preserves_ret; exact _].
    apply preserves_bind; [exact _| |intros d; apply preserves_ret; exact _]. destruct x; [apply preserves_ret; exact _|apply IH].
  - apply preserves_bind; [exact _| |intros l; apply preserves_ret; exact _].
    apply preserves_mapM; [exact _|]. intros x _.
    apply preserves_bind; [exact _| |intros d; apply preserves_ret; exact _]. destruct x; [apply preserves_ret; exact _|apply IH].
Qed.

Lemma create_ism_only c : preserves (only Isms) (create_ism c).
Proof.
  assert (forall c : IsmConfigs Z IsmArtifact, preserves (only Isms)
    match leaf c with
    | Some raw => '(d, receipts) ← createRaw raw; mret (from_raw d, receipts)
    | None => throw (TypeError "not a module that can be written")
    end) as Hleaf.
  { intros c0. destruct (leaf c0); [|apply preserves_throw; exact _].
    apply preserves_bind; [exact _|apply create_raw_frame|]. intros []. apply preserves_ret. exact _. }
  induction c as [owner domains IH|modules threshold IH|t v n| |owner root|owner paused] using IsmArtifactConfig_ind';
    cbn [create_ism]; (apply preserves_bind; [exact _|apply preserves_lift; exact _|intros []]); try (by apply Hleaf).
  apply preserves_bind; [exact _| |].
  - apply preserves_mapM; [exact _|]. intros [k x] Hx. rewrite Forall_forall in IH. specialize (IH _ Hx).
    apply preserves_bind; [exact _| |intros []; apply preserves_ret; exact _].
    destruct x; cbn in *; [|apply preserves_ret; exact _..].
    apply preserves_bind; [exact _|done|]. intros []. apply preserves_ret. exact _.
  - intros l. apply preserves_bind; [exact _|apply create_routing_frame|]. intros []. apply preserves_ret. exact _.
Qed.

Lemma ism_txs_nil : ism_txs [].
Proof. intros s1. rewrite submit_nil. reflexivity. Qed.

Lemma ism_txs_app t1 t2 : ism_txs t1 -> ism_txs t2 -> ism_txs (t1 ++ t2).
Proof. intros Ht1 Ht2 s1. rewrite submit_app. etrans; [apply Ht1|apply Ht2]. Qed.

Definition updates_isms (m : eff S (list Tx)) : Prop := forall s s' txs, m s = (s', Ok txs) -> only Isms s s' /\ ism_txs txs.

Lemma create_only_ok c s s' r : create_ism c s = (s', Ok r) -> only Isms s s'.
Proof. intros Hc. pose proof (create_ism_only c s) as Hp. by rewrite Hc in Hp. Qed.

Lemma update_nested_only x s s' oc txs :
  on_config (fun c => forall a, updates_isms (update_routing lookup c a)) x ->
  update_nested lookup x s = (s', Ok (oc, txs)) -> only Isms s s' /\ ism_txs txs.
Proof.
  intros Hx. destruct x as [c|c a|a]; cbn.
  - intros (s1 & [d r] & Hc%create_only_ok & [= <- <- <-])%eff_bind_inv. split; [done|apply ism_txs_nil].
  - intros (s1 & [] & [= <- _] & (s2 & t & Ht & [= <- <- <-])%eff_bind_inv)%eff_bind_inv.
    destruct (leaf (config_of c)); [by eapply update_raw_frame|by eapply Hx].
  - intros [= <- <- <-]. split; [done|apply ism_txs_nil].
Qed.

Lemma update_routing_only c a : updates_isms (update_routing lookup c a).
Proof.
  revert a. induction c as [owner domains IH| | | | |] using IsmArtifactConfig_ind'; intros a s s' txs; try done.
  cbn [update_routing]. intros (s1 & l & Hl & (s2 & t & Ht & [= <- <-])%eff_bind_inv)%eff_bind_inv.
  apply update_routing_frame in Ht as [Hs2 Ht].
  assert (only Isms s s1 /\ ism_txs (concat (omap id l).*2)) as [Hs1 Hl'].
  { revert s l Hl. induction domains as [|[k x] domains IHd]; intros s l; cbn.
    - intros [= <- <-]. split; [done|apply ism_txs_nil].
    - apply Forall_cons in IH as [Hx IH].
      intros (s5 & y & Hy & (s3 & l' & Hl' & [= <- <-])%eff_bind_inv)%eff_bind_inv.
      destruct (IHd IH _ _ Hl') as [Hd Hds].
      assert (only Isms s s5 /\ ism_txs (match y with Some (_, t) => t | None => [] end)) as [Hs5 Hy'].
      { destruct (chain_name lookup k); [|injection Hy as <- <-; split; [done|apply ism_txs_nil]].
        apply eff_bind_inv in Hy as (s4 & [oc t'] & Hoc & [= <- <-]). by apply (update_nested_only x s s4 oc t'). }
      split; [by etrans|]. destruct y as [[? t']|]; cbn; [by apply ism_txs_app|done]. }
  split; [by etrans|by apply ism_txs_app].
Qed.

Lemma update_ism_only d : updates_isms (update_ism lookup d).
Proof.
  intros s s' txs. unfold update_ism. intros (s1 & [] & [= <- _] & Hrun)%eff_bind_inv.
  destruct (config_of (config d)); try (injection Hrun as <- <-; split; [done|apply ism_txs_nil]).
  - by eapply update_routing_only.
  - by eapply update_raw_frame.
Qed.

Lemma deployOrUpdateIsm_only current expected s s' a (txs : list Tx) :
  deployOrUpdateIsm lookup current expected s = (s', Ok (a, txs)) -> only Isms s s' /\ ism_txs txs.
Proof.
  assert ((mergedArtifact ← lift (mergeIsmArtifacts current expected);
    match mergedArtifact with
    | NEW c => '(d, _) ← create_ism c; mret (deployed d, [])
    | DEPLOYED c a => updateTxs ← update_ism lookup (Build_Deployed c a); mret (a, updateTxs)
    | UNDERIVED _ => throw (TypeError "Cannot read properties of undefined (reading 'type')")
    end) s = (s', Ok (a, txs)) -> only Isms s s' /\ ism_txs txs) as Hmerged.
  { intros (s1 & out & [= <- _] & Hrun)%eff_bind_inv. destruct out as [c|c b|b]; [| |done].
    - apply eff_bind_inv in Hrun as (s2 & [d r] & Hc%create_only_ok & [= <- <- <-]). split; [done|apply ism_txs_nil].
    - apply eff_bind_inv in Hrun as (s2 & t & Ht & [= <- <- <-]). by eapply update_ism_only. }
  destruct expected; [exact Hmerged|exact Hmerged|]. intros [= <- <- <-]. split; [done|apply ism_txs_nil].
Qed.

End isms.
