(* ===== verification/DeployFacts.v ===== *)
(** Facts on [DeployWriters]: a warp route that is deployed is what its configuration asks for, and the
    owner it asks for gets it in the end; settling the hook and the fee of a route or a mailbox leaves
    something that serves, on any chain on which what is changed is still there; the core of a chain is
    deployed as its configuration asks; and submitting the transactions of an update leaves the core, or
    the route, that is asked for. *)
From Stdlib Require Import ZArith QArith Lia String Ascii Sorted.
From stdpp Require Import base tactics sets list strings pretty.
From S2P Require Import Prelude JsMap Addresses Messages AddressEq ConfigJson IsmArtifacts.
From S2P Require Import IsmArtifactsFacts IsmConfigFacts IsmRecipientFacts IsmWriters.
From S2P Require Import IsmWriterFacts IsmUpdateFacts HookArtifacts FeeArtifacts WarpArtifacts.
From S2P Require Import DeployWriters DeployLaws.

#[local] Open Scope Z_scope.

(** ** Parts that are extended *)

Section parts.
Context {S Tx : Type} `{DeployChain S Tx}.

(** What a part has is kept. *)
Definition keeps (p : Part) (s s' : S) : Prop := forall a x, part_at p s a = Some x -> part_at p s' a = Some x.

#[export] Instance keeps_preorder p : PreOrder (keeps p).
Proof. split; [by intros s a x|]. intros s1 s2 s3 H12 H23 a x Hx. by apply H23, H12. Qed.

Lemma same_keeps p s s' : same_part p s s' -> keeps p s s'.
Proof. intros Hs a x. by rewrite Hs. Qed.

Lemma creates_keeps p s s' a x : creates_part p s s' a x -> keeps p s s'.
Proof.
  intros (Hn & Ha & Ho & _) b y Hb. destruct (decide (b = a)) as [->|Hne]; [congruence|]. by rewrite Ho.
Qed.

(** Only [p] changed, and there nothing was lost. *)
Definition grows (p : Part) (s s' : S) : Prop := only p s s' /\ keeps p s s'.

Lemma unchanged_grows p s s' : unchanged s s' -> grows p s s'.
Proof. intros Hu. split; [by apply unchanged_only|apply same_keeps, Hu]. Qed.

Lemma grows_keeps p q s s' : grows p s s' -> keeps q s s'.
Proof. intros [Ho Hk]. destruct (decide (q = p)) as [->|Hne]; [done|]. by apply same_keeps, Ho. Qed.

Lemma creates_grows p s s' a x : creates_part p s s' a x -> grows p s s'.
Proof. intros Hc. split; [apply Hc|by eapply creates_keeps]. Qed.

End parts.

(** ** Resolved modules are in order, of known domains and new *)

(** Changing what a record by domain has, and not its domains. *)
Lemma map_values_keys {A} (K : list Z -> Prop) (P Q : A -> Prop) (f : A -> A) (l : list (Z * A)) :
  Forall (fun d => P d.2 -> Q (f d.2)) l -> K l.*1 /\ every (fun d => P d.2) l ->
  K (map (fun '(k, x) => (k, f x)) l).*1 /\ every (fun d => Q d.2) (map (fun '(k, x) => (k, f x)) l).
Proof.
  intros Hf [Hs Hl]. split; [by rewrite map_fst_values|].
  rewrite every_Forall in *. rewrite Forall_map. rewrite Forall_forall in *. intros [k x] Hx.
  by apply (Hf _ Hx), (Hl _ Hx).
Qed.

Lemma map_every {A} (P Q : A -> Prop) (f : A -> A) (l : list A) :
  Forall (fun x => P x -> Q (f x)) l -> every P l -> every Q (map f l).
Proof. rewrite !every_Forall, Forall_map, !Forall_forall. auto. Qed.

Lemma set_node_sorted r n : sorted_node n -> sorted_node (set_node_recipients r n).
Proof.
  induction n as [| |t subs IH| | |t l u IHl IHu|cap m o|domains IH|ism domains IH] using CompositeIsmNode_ind'; cbn; try done.
  - by apply map_every.
  - intros [? ?]. split; auto.
  - destruct domains; [|done]. by apply (map_values_keys (StronglySorted Z.lt) sorted_node).
  - destruct domains; [|done]. by apply (map_values_keys (StronglySorted Z.lt) sorted_node).
Qed.

Lemma set_node_known lookup r n : known_node lookup n -> known_node lookup (set_node_recipients r n).
Proof.
  induction n as [| |t subs IH| | |t l u IHl IHu|cap m o|domains IH|ism domains IH] using CompositeIsmNode_ind'; cbn; try done.
  - by apply map_every.
  - intros [? ?]. split; auto.
  - destruct domains; [|done]. by apply (map_values_keys (Forall (known lookup)) (known_node lookup)).
  - destruct domains; [|done]. by apply (map_values_keys (Forall (known lookup)) (known_node lookup)).
Qed.

Lemma set_config_sorted r c : sorted_config c -> sorted_config (set_config_recipients r c).
Proof.
  induction c as [owner domains IH|modules threshold IH| | |owner root|] using IsmArtifactConfig_ind'; cbn; try done.
  - apply (map_values_keys (StronglySorted Z.lt) (on_config sorted_config)).
    eapply Forall_impl; [exact IH|]. intros [k []]; cbn; auto.
  - apply map_every. eapply Forall_impl; [exact IH|]. intros []; cbn; auto.
  - apply set_node_sorted.
Qed.

Lemma set_config_known lookup r c : known_config lookup c -> known_config lookup (set_config_recipients r c).
Proof.
  induction c as [owner domains IH|modules threshold IH| | |owner root|] using IsmArtifactConfig_ind'; cbn; try done.
  - apply (map_values_keys (Forall (known lookup)) (on_config (known_config lookup))).
    eapply Forall_impl; [exact IH|]. intros [k []]; cbn; auto.
  - apply map_every. eapply Forall_impl; [exact IH|]. intros []; cbn; auto.
  - apply set_node_known.
Qed.

Lemma protect_new_sorted r c : sorted_config c -> sorted_config (protect_new r c).
Proof.
  induction c as [owner domains IH|modules threshold IH| | |owner root|] using IsmArtifactConfig_ind';
    try apply set_config_sorted.
  cbn. apply (map_values_keys (StronglySorted Z.lt) (on_config sorted_config)).
  eapply Forall_impl; [exact IH|]. intros [k []]; cbn; auto.
Qed.

Lemma protect_new_known lookup r c : known_config lookup c -> known_config lookup (protect_new r c).
Proof.
  induction c as [owner domains IH|modules threshold IH| | |owner root|] using IsmArtifactConfig_ind';
    try apply set_config_known.
  cbn. apply (map_values_keys (Forall (known lookup)) (on_config (known_config lookup))).
  eapply Forall_impl; [exact IH|]. intros [k []]; cbn; auto.
Qed.

Lemma protect_new_fresh r c : fresh_config c -> fresh_config (protect_new r c).
Proof.
  induction c as [owner domains IH|modules threshold IH| | |owner root|] using IsmArtifactConfig_ind'; try done.
  cbn. set (new := fun x : IsmArtifact => match x with NEW c => fresh_config c | _ => False end).
  intros Hd. apply (map_values_keys (fun _ => True) new new); [|done].
  eapply Forall_impl; [exact IH|]. intros [k []]; cbn; auto.
Qed.

(** ** The steps *)

Section routes.
Context {S Tx Receipt : Type} `{Ethers} `{AddressLibs} `{IsmChainLaws S Tx Receipt} `{!DeployChain S Tx}
  `{!IsmFrames S Tx Receipt} `{!RawHookManager S Tx Receipt} `{!HookLaws S Tx Receipt}
  `{!RawFeeManager S Tx Receipt} `{!FeeLaws S Tx Receipt} `{!RawWarpManager S Tx Receipt} `{!Signer S Tx Receipt}
  `{!RouteLaws S Tx Receipt}.
Context (chainName : string) (lookup : ChainLookup).

Lemma read_hook_unchanged m a s s' d : read_hook m a s = (s', Ok d) -> s' = s.
Proof.
  unfold read_hook. intros Hr. destruct (read_hook_nothing _ _ _ _ _ Hr) as [c Hc].
  rewrite (read_hook_law _ _ _ _ Hc) in Hr. by injection Hr as <- _.
Qed.

(** The hook a route refers to after its hook was settled, with [has] of hooks. *)
Definition hook_placed (had has : string -> option HookArtifactConfig) (configured : option HookArtifact)
    (placed : option string) : Prop :=
  match configured with
  | Some (NEW c) =>
      if supportsHookUpdates S Tx Receipt then exists a, placed = Some a /\ had a = None /\ has a = Some c else placed = None
  | Some (DEPLOYED _ a) | Some (UNDERIVED a) => placed = if supportsHookUpdates S Tx Receipt then Some a else None
  | None => placed = None
  end.

Lemma create_route_hook_ok mailbox configured s s' o receipts :
  create_route_hook mailbox configured s = (s', Ok (o, receipts)) ->
  grows Hooks s s' /\ hook_placed (hook_at s) (hook_at s') configured (on_chain_address <$> o).
Proof.
  unfold create_route_hook, hook_placed.
  destruct configured as [h|]; [|intros [= <- <- <-]; split; [by apply unchanged_grows|done]].
  destruct (supportsHookUpdates S Tx Receipt); cbn [negb];
    [|intros [= <- <- <-]; split; [by apply unchanged_grows|by destruct h]].
  destruct h as [c|c a|a]; [|intros [= <- <- <-]; split; [by apply unchanged_grows|done]..].
  intros (s1 & [d r] & Hc & [= <- <- <-])%eff_bind_inv. apply create_hook_law in Hc as [_ Hc].
  split; [by eapply creates_grows|]. exists (deployed d). split; [done|]. split; apply Hc.
Qed.

(** The fee a route of token [asset] refers to. *)
Definition fee_placed (had has : string -> option FeeArtifactConfig) (asset : option string) (configured : option FeeArtifact)
    (placed : option string) : Prop :=
  match configured with
  | Some (NEW c) =>
      if supports_fees then
        exists a m, placed = Some a /\ had a = None /\ has a = Some m /\ fee_serves m (withFeeAssetConfig c asset)
      else placed = None
  | Some (DEPLOYED _ a) | Some (UNDERIVED a) => placed = if supports_fees then Some a else None
  | None => placed = None
  end.

Lemma create_route_fee_ok {N : Type -> Type} (c : WarpConfigs N) configured s s' o receipts :
  create_route_fee c configured s = (s', Ok (o, receipts)) ->
  grows Fees s s' /\
  fee_placed (fee_at s) (fee_at s') (resolveFeeTokenFromWarpArtifactConfig c) configured (on_chain_address <$> o).
Proof.
  unfold create_route_fee, fee_placed.
  destruct configured as [f|]; [|intros [= <- <- <-]; split; [by apply unchanged_grows|done]].
  destruct supports_fees; cbn [negb];
    [|intros [= <- <- <-]; split; [by apply unchanged_grows|by destruct f]].
  destruct f as [fc|fc a|a]; [|intros [= <- <- <-]; split; [by apply unchanged_grows|done]..].
  intros (s1 & [d r] & Hc & [= <- <- <-])%eff_bind_inv. apply create_fee_law in Hc as (m & Hc & Hm).
  split; [by eapply creates_grows|]. exists (deployed d), m. split_and!; [done|apply Hc|apply Hc|done].
Qed.

(** The module a route with recipient [r] refers to: its rate limits protect the route. *)
Definition ism_placed (s s' : S) (r : string) (configured : option IsmArtifact) (placed : option string) : Prop :=
  match configured with
  | Some (NEW c) =>
      exists a, placed = Some a /\ at_address s a = None /\
        realises exactly false (at_address s') (protect_new r c) a /\
        Forall (protects r) (config_recipients (protect_new r c))
  | Some (DEPLOYED c a) => placed = Some a /\ Forall (protects r) (config_recipients c)
  | Some (UNDERIVED a) => placed = Some a
  | None => placed = None
  end.

Lemma create_route_ism_ok address r configured s s' o receipts :
  router_recipient (warpRouterContext address) = Ok r ->
  match configured with Some a => on_config sorted_config a | None => True end ->
  create_route_ism chainName address configured s = (s', Ok (o, receipts)) ->
  grows Isms s s' /\ ism_placed s s' r configured (on_chain_address <$> o).
Proof.
  intros Hr Hs. unfold create_route_ism, ism_placed.
  destruct configured as [i|]; [|intros [= <- <- <-]; split; [by apply unchanged_grows|done]].
  destruct i as [c|c a|a]; [| |intros [= <- <- <-]; split; [by apply unchanged_grows|done]].
  - intros (s1 & out & Hout & Hrun)%eff_bind_inv. injection Hout as <- Hout.
    destruct (proj1 (resolve_artifact_exact _ chainName r CREATE _ _ Hr Hs) Hout) as [Hp ->].
    apply eff_bind_inv in Hrun as (s2 & [d rs] & Hc & [= <- <- <-]).
    pose proof (create_only_ok _ _ _ _ Hc) as Honly.
    destruct (create_deploys _ (protect_new_sorted r c Hs) _ _ _ _ [] Hc (Forall_nil_2 _)) as (He & Hn & Hreal & _).
    split; [by split|]. exists (deployed d). split_and!; [done|done| |by eapply protect_new_protects].
    exact (realises_mono _ exactly _ _ _ _ (fun _ _ H => H) (without_none _) _ Hreal).
  - intros (s1 & out & Hout & Hrun)%eff_bind_inv. injection Hout as <- Hout.
    destruct (proj1 (resolve_artifact_exact _ chainName r CREATE _ _ Hr Hs) Hout) as [[_ Hp] ->]. injection Hrun as <- <- <-.
    split; [by apply unchanged_grows|done].
Qed.

Lemma hook_placed_mono had had' has has' configured placed :
  (forall a, had' a = had a) -> (forall a c, has a = Some c -> has' a = Some c) ->
  hook_placed had has configured placed -> hook_placed had' has' configured placed.
Proof.
  intros Hd Hs. unfold hook_placed. destruct configured as [[c|c a|a]|]; try done.
  destruct (supportsHookUpdates S Tx Receipt); [|done]. intros (a & -> & Hn & Ha). exists a. rewrite Hd. auto.
Qed.

Lemma fee_placed_mono had had' has has' asset configured placed :
  (forall a, had' a = had a) -> (forall a c, has a = Some c -> has' a = Some c) ->
  fee_placed had has asset configured placed -> fee_placed had' has' asset configured placed.
Proof.
  intros Hd Hs. unfold fee_placed. destruct configured as [[c|c a|a]|]; try done.
  destruct supports_fees; [|done]. intros (a & m & -> & Hn & Ha & Hm). exists a, m. rewrite Hd. auto.
Qed.

Lemma ism_placed_mono s1 s1' s2 s2' r configured placed :
  same_part Isms s1 s2 -> keeps Isms s1' s2' -> ism_placed s1 s1' r configured placed -> ism_placed s2 s2' r configured placed.
Proof.
  intros Hd Hs. unfold ism_placed. destruct configured as [[c|c a|a]|]; try done.
  intros (a & -> & Hn & Hr & Hp). exists a. split_and!; [done|by rewrite <- Hn; apply Hd| |done].
  exact (realises_mono _ exactly _ _ _ _ (fun _ _ H => H) Hs _ Hr).
Qed.

(** The update that attaches what was deployed to a new route, at [a]. *)
Definition attached (c : WarpArtifactConfig) owner (oi : option (ArtifactOnChain IsmArtifactConfig))
    (oh : option (ArtifactOnChain HookArtifactConfig)) (ofee : option (ArtifactOnChain FeeArtifactConfig)) : RawWarpArtifactConfig :=
  with_nested_artifacts c owner (underived <$> oi) (underived <$> oh) (underived <$> ofee).

Lemma attach_ok fuel c owner oi oh ofee a s s' txs m :
  route_at s a = Some m -> interchainSecurityModule m = None -> fee m = None ->
  update_route chainName lookup fuel
    (Build_Deployed (with_nested_artifacts c owner (on_chain ∘ underived <$> oi) (on_chain ∘ underived <$> oh)
      (on_chain ∘ underived <$> ofee)) a) s = (s', Ok txs) ->
  unchanged s s' /\
  updates_part Routes s a
    (fun m' => route_serves compare_routers proper None (hook m) None m' (attached c owner oi oh ofee)) txs /\
  (w_owner m = getSignerAddress S Tx Receipt -> forall s1, route_at s1 a = Some m ->
     exists receipts, send_all txs s1 = (submit txs s1, Ok receipts)).
Proof.
  intros Hm Hi Hf. unfold update_route.
  intros (s1 & [] & [= <- _] & (s2 & cur & Hread & (s3 & [] & [= -> Hty] & Hrun)%eff_bind_inv)%eff_bind_inv)%eff_bind_inv.
  cbn [deployed] in Hread. unfold read_route in Hread.
  erewrite eff_bind_ok in Hread by by apply read_route_law. cbn [config deployed] in Hread.
  assert (interchainSecurityModule (warp_references m) = None) as Hi' by (cbn; by rewrite Hi).
  assert (fee (warp_references m) = None) as Hf' by (cbn; by rewrite Hf).
  rewrite Hi', Hf' in Hread. cbn [expand_artifact] in Hread.
  apply eff_bind_inv in Hread as (s4 & eh & [= <- <-] & (s5 & oh' & Hhook & (s6 & ef & [= <- <-] & [= <- <-])%eff_bind_inv)%eff_bind_inv).
  assert (s5 = s) as ->.
  { cbn in Hhook. destruct (hook m) as [ha|]; cbn in Hhook; [|by injection Hhook as <- _].
    apply eff_bind_inv in Hhook as (s7 & d & Hd%read_hook_unchanged & [= <- _]). done. }
  apply js_assert_ok, bool_decide_eq_true in Hty.
  cbn [config deployed interchainSecurityModule hook fee with_nested_artifacts] in *.
  apply eff_bind_inv in Hrun as (s7 & [oi' t1] & H1' & (s8 & [oh'' t2] & H2' & (s9 & [ofee' t3] & H3' &
    (s10 & t4 & H4' & [= <- <-])%eff_bind_inv)%eff_bind_inv)%eff_bind_inv).
  assert (s7 = s /\ oi' = on_chain_address <$> oi /\ t1 = []) as (-> & -> & ->)
    by (by destruct oi as [[]|]; injection H1' as <- <- <-).
  assert (s8 = s /\ oh'' = underived <$> oh /\ t2 = []) as (-> & -> & ->)
    by (by destruct oh as [[]|]; injection H2' as <- <- <-).
  assert (s9 = s /\ ofee' = underived <$> ofee /\ t3 = []) as (-> & -> & ->)
    by (by destruct ofee as [[]|]; injection H3' as <- <- <-).
  cbn [app] in *.
  eapply update_route_law in H4' as (Hsame & Hup & Hsend); [|exact Hm|exact Hty].
  split_and!; [done| |done]. intros s11 Hs11. destruct (Hup s11 Hs11) as [(x & Hx & Hgood) Hrest]. split; [|done].
  exists x. split; [done|]. rewrite Hi, Hf in Hgood. by destruct oi as [[]|].
Qed.

Lemma realises_some good deep has (c : IsmArtifactConfig) a : realises good deep has c a -> is_Some (has a).
Proof. destruct c as [[]]; cbn; [by intros (ds & -> & _)|by intros (m & -> & _)..]. Qed.

(** What was placed is proper, if what the configuration names is. *)
Definition names_proper {C} (a : option (Artifact C)) : Prop :=
  match a with Some (DEPLOYED _ a) | Some (UNDERIVED a) => proper a | _ => True end.

Lemma ism_placed_proper s s' r i placed : ism_placed s s' r i placed -> names_proper i -> proper_reference proper placed.
Proof.
  destruct i as [[c|c a|a]|]; cbn; [|by intros [-> _]|by intros ->|by intros ->].
  intros (a & -> & _ & Hr & _) _. apply (proper_part Isms s'). by eapply realises_some.
Qed.
Lemma hook_placed_proper (s s' : S) h placed :
  hook_placed (hook_at s) (hook_at s') h placed -> names_proper h -> proper_reference proper placed.
Proof.
  destruct h as [[c|c a|a]|]; cbn; [|by intros ->; destruct (supportsHookUpdates S Tx Receipt)..|by intros ->].
  destruct (supportsHookUpdates S Tx Receipt); [|by intros ->]. intros (a & -> & _ & Ha) _.
  apply (proper_part Hooks s'). by exists c.
Qed.
Lemma fee_placed_proper (s s' : S) asset f placed :
  fee_placed (fee_at s) (fee_at s') asset f placed -> names_proper f -> proper_reference proper placed.
Proof.
  destruct f as [[c|c a|a]|]; cbn; [|by intros ->; destruct supports_fees..|by intros ->].
  destruct supports_fees; [|by intros ->]. intros (a & m & -> & _ & Ha & _) _. apply (proper_part Fees s'). by exists m.
Qed.

Lemma unsupported_fee had has asset f placed : supports_fees = false -> fee_placed had has asset f placed -> placed = None.
Proof. intros Hf. unfold fee_placed. rewrite Hf. by destruct f as [[]|]. Qed.
Lemma unsupported_hook had has h placed : supportsHookUpdates S Tx Receipt = false -> hook_placed had has h placed -> placed = None.
Proof. intros Hf. unfold hook_placed. rewrite Hf. by destruct h as [[]|]. Qed.

(** A reference over nothing. *)
Lemma refers_new expected now : refers proper None expected now -> proper_reference proper expected -> now = expected.
Proof. intros Hr Hp. by destruct (refers_proper _ _ _ _ Hr Hp) as [->|[-> ->]]. Qed.

Definition supported_if {A} (supported : bool) (o : option A) : Prop := if supported then True else o = None.

(** Sending what attaches the parts of a new route gives the route that is asked for. *)
Lemma attach_route_ok fuel (c : WarpArtifactConfig) oi oh ofee a s s' receipts (m : OnChainWarp) :
  proper (w_owner c) -> proper_reference proper (on_chain_address <$> oi) ->
  proper_reference proper (on_chain_address <$> oh) -> proper_reference proper (on_chain_address <$> ofee) ->
  supported_if supports_fees ofee ->
  route_at s a = Some m -> w_owner m = getSignerAddress S Tx Receipt ->
  interchainSecurityModule m = None -> fee m = None -> hook m = on_chain_address <$> oh -> token_type m = token_type c ->
  (forall k router, map_get k (remoteRouters c) = Some router ->
    exists r, map_get k (remoteRouters m) = Some r /\ compare_routers r router = true) ->
  (if bool_decide (is_Some oi) || bool_decide (is_Some ofee) || negb (eqAddress (getSignerAddress S Tx Receipt) (w_owner c))
   then attachTxs ← update_route chainName lookup fuel
     (Build_Deployed (with_nested_artifacts c (w_owner c) (on_chain ∘ underived <$> oi) (on_chain ∘ underived <$> oh)
        (on_chain ∘ underived <$> ofee)) a);
     send_all attachTxs
   else mret []) s = (s', Ok receipts) ->
  only Routes s s' /\ (forall b, b <> a -> route_at s' b = route_at s b) /\
  exists m' : OnChainWarp, route_at s' a = Some m' /\
    (w_owner m' = w_owner c \/
     w_owner m' = getSignerAddress S Tx Receipt /\ eqAddress (getSignerAddress S Tx Receipt) (w_owner c) = true) /\
    token_type m' = token_type c /\ interchainSecurityModule m' = on_chain_address <$> oi /\
    hook m' = on_chain_address <$> oh /\ fee m' = on_chain_address <$> ofee /\
    forall k router, map_get k (remoteRouters c) = Some router ->
      exists r, map_get k (remoteRouters m') = Some r /\ compare_routers r router = true.
Proof.
  intros Hpo Hpi Hph Hpf Hsf Hm Hown Hi Hf Hh Hty Hrr Hrun. destruct (bool_decide (is_Some oi) || _ || _) eqn:E.
  - apply eff_bind_inv in Hrun as (s1 & txs & Hup & Hsend).
    destruct (attach_ok _ _ _ _ _ _ _ _ _ _ _ Hm Hi Hf Hup) as (Hu & Hupd & Hs).
    assert (route_at s1 a = Some m) as Hm1 by (rewrite <- Hm; apply (Hu Routes)).
    destruct (Hs Hown s1 Hm1) as [rs Hrs]. rewrite Hrs in Hsend. injection Hsend as <- <-.
    destruct (Hupd s1) as [(m' & Hm' & [Hown' Hty' Hi' Hh' Hf' Hrr']) [Ho Hrest]]; [exact (Hu Routes a)|].
    split_and!.
    + etrans; [by apply unchanged_only|exact Hrest].
    + intros b Hb. etrans; [by apply (Ho b)|apply (Hu Routes)].
    + assert (forall C (o : option (ArtifactOnChain C)), on_chain_address <$> (underived <$> o) = on_chain_address <$> o) as Hsame
        by (by intros C []).
      cbn in Hown', Hty', Hi', Hh', Hf', Hrr'. rewrite Hsame in Hi', Hh', Hf'.
      exists m'. split_and!; [done|left; by apply Hown'|done|by apply refers_new| | |].
      * destruct (supportsHookUpdates S Tx Receipt); [|by rewrite Hh'].
        by destruct (refers_proper _ _ _ _ Hh' Hph) as [->|[_ ->]].
      * destruct supports_fees; [by apply refers_new|]. cbn in Hsf. by rewrite Hf', Hsf.
      * intros k router Hk. destruct (Hrr' k router Hk) as (r & Hr & _ & Hc & _). by exists r.
  - injection Hrun as <- <-. apply orb_false_iff in E as [[Eoi Eof]%orb_false_iff Eo].
    apply bool_decide_eq_false, eq_None_not_Some in Eoi, Eof. subst oi ofee. apply negb_false_iff in Eo.
    split_and!; [done..|]. exists m. split_and!; [done|by right|done..].
Qed.

(** C17: Deploying a warp route gives the route that is asked for. When [WarpTokenWriter.create] returns, there
    is a route at the address returned, which was free, and it has: the owner of the configuration (unless
    the signer is that owner, in another spelling), although the signer had to own the route for its parts
    to be attached; its type and its routers, up to the comparison of addresses of the protocol; the hook of
    the configuration, deployed if it is new, where the protocol supports hooks of routes, and no hook where
    it does not; the module of the configuration, deployed if it is new, every rate limit of it protecting
    this route; and the fee of the configuration, deployed if it is new for the token of the route, where the
    protocol supports fees, and no fee where it does not. The artifact returned says the same, nothing the
    chain had is lost, and no other route has changed. The signer, the owner and the addresses that the
    configuration names for a module, a hook or a fee are spelled as the chain spells them and are not the
    empty address, which protocols take for nothing. *)
Theorem created_route_is_configured fuel (c : WarpArtifactConfig) s s' d receipts :
  match interchainSecurityModule c with Some a => on_config sorted_config a | None => True end ->
  proper (getSignerAddress S Tx Receipt) -> proper (w_owner c) ->
  names_proper (interchainSecurityModule c) -> names_proper (hook c) -> names_proper (fee c) ->
  create_route chainName lookup fuel c s = (s', Ok (d, receipts)) ->
  route_at s (deployed d) = None /\
  (exists (m : OnChainWarp) r, route_at s' (deployed d) = Some m /\ router_recipient (warpRouterContext (deployed d)) = Ok r /\
    (w_owner m = w_owner c \/
     w_owner m = getSignerAddress S Tx Receipt /\ eqAddress (getSignerAddress S Tx Receipt) (w_owner c) = true) /\
    token_type m = token_type c /\
    hook_placed (hook_at s) (hook_at s') (hook c) (hook m) /\
    ism_placed s s' r (interchainSecurityModule c) (interchainSecurityModule m) /\
    fee_placed (fee_at s) (fee_at s') (resolveFeeTokenFromWarpArtifactConfig (config d)) (fee c) (fee m) /\
    (forall k router, map_get k (remoteRouters c) = Some router ->
      exists r, map_get k (remoteRouters m) = Some r /\ compare_routers r router = true) /\
    w_owner (config d) = w_owner c /\ interchainSecurityModule m = on_chain_address <$> interchainSecurityModule (config d) /\
    hook m = on_chain_address <$> hook (config d) /\ fee m = on_chain_address <$> fee (config d)) /\
  (forall p, p <> Routes -> keeps p s s') /\
  (forall b, b <> deployed d -> route_at s' b = route_at s b).
Proof.
  intros Hs Hps Hpo Hpi Hph Hpf. unfold create_route.
  intros (s0 & [] & [= <- _] & (s0' & [] & [= <- _] & (s1 & [oh r1] & Hhook & (s2 & [rd r2] & Hroute &
    (s3 & [oi r3] & Hism & (s4 & [ofee r4] & Hfee & (s5 & r5 & Hattach & [= <- <- <-])%eff_bind_inv)%eff_bind_inv)
    %eff_bind_inv)%eff_bind_inv)%eff_bind_inv)%eff_bind_inv)%eff_bind_inv.
  apply create_route_hook_ok in Hhook as [Hg1 Hhook].
  apply create_route_law in Hroute as ((Hown & _ & Hi & Hh & Hf & Hrr & _ & Hty) &
    (m0 & Hroute & [Hown0 Hty0 Hi0 Hh0 Hf0 Hrr0]) & r & Hr); [|done].
  pose proof (creates_grows _ _ _ _ _ Hroute) as Hg2. destruct Hroute as (Hfree & Hm & Hother & _).
  destruct (create_route_ism_ok _ r _ _ _ _ _ Hr Hs Hism) as [Hg3 Hism'].
  apply create_route_fee_ok in Hfee as [Hg4 Hfee].
  cbn [deployed config w_owner interchainSecurityModule hook fee remoteRouters with_nested_artifacts] in *.
  pose proof (hook_placed_proper _ _ _ _ Hhook Hph) as Hpho. pose proof (ism_placed_proper _ _ _ _ _ Hism' Hpi) as Hpio.
  pose proof (fee_placed_proper _ _ _ _ _ Hfee Hpf) as Hpfo.
  assert (hook m0 = on_chain_address <$> oh) as Hh0'.
  { destruct (supportsHookUpdates S Tx Receipt) eqn:Es; [by apply refers_new|].
    by rewrite (unsupported_hook _ _ _ _ Es Hhook). }
  assert (fee m0 = None) as Hf0' by (destruct supports_fees; [by apply refers_new|done]).
  assert (supported_if supports_fees ofee) as Hsf.
  { destruct supports_fees eqn:Es; [done|]. by apply (unsupported_fee _ _ _ _ _ Es), fmap_None in Hfee. }
  assert (forall p s s', p <> Routes -> grows p s s' -> same_part Routes s s') as Hroutes by (intros p t t' Hp [Ho _]; by apply Ho).
  assert (same_part Routes s2 s4) as H24 by (etrans; [by apply (Hroutes Isms)|by apply (Hroutes Fees)]).
  assert (route_at s4 (deployed rd) = Some m0) as Hm4 by (etrans; [apply (H24 (deployed rd))|exact Hm]).
  apply (attach_route_ok _ _ _ _ _ _ _ _ _ m0 Hpo Hpio Hpho Hpfo Hsf Hm4)
    in Hattach as (Ho5 & Hother5 & m & Hm5 & Howner & Htype & Hmi & Hmh & Hmf & Hmr);
    [|by apply Hown0|by apply refers_new|done|done|done|].
  2: { intros k router Hk. destruct (Hrr0 k router Hk) as (x & Hx & _ & Hc & _). by exists x. }
  assert (forall p, p <> Routes -> keeps p s4 s5) as Hk5 by (intros p Hp; apply same_keeps, Ho5; done).
  split_and!.
  - etrans; [|exact Hfree]. symmetry. by apply (Hroutes Hooks).
  - exists m, r. rewrite Hmi, Hmh, Hmf. split_and!; [done..| | | |done|done|done|done|done].
    + eapply hook_placed_mono; [| |exact Hhook]; [done|]. intros a x Hx. apply (Hk5 Hooks); [done|].
      by apply (grows_keeps _ Hooks _ _ Hg4), (grows_keeps _ Hooks _ _ Hg3), (grows_keeps _ Hooks _ _ Hg2).
    + eapply ism_placed_mono; [| |exact Hism'].
      * intros a. symmetry. etrans; [by apply (proj1 Hg2 Isms)|]. by apply (proj1 Hg1 Isms).
      * etrans; [apply (grows_keeps _ Isms _ _ Hg4)|by apply (Hk5 Isms)].
    + eapply fee_placed_mono; [| |exact Hfee]; [|by intros a x; apply (Hk5 Fees)].
      intros a. symmetry. etrans; [by apply (proj1 Hg3 Fees)|]. etrans; [by apply (proj1 Hg2 Fees)|]. by apply (proj1 Hg1 Fees).
  - intros p Hp. etrans; [apply (grows_keeps _ p _ _ Hg1)|]. etrans; [apply (grows_keeps _ p _ _ Hg2)|].
    etrans; [apply (grows_keeps _ p _ _ Hg3)|]. etrans; [apply (grows_keeps _ p _ _ Hg4)|by apply Hk5].
  - intros b Hb. rewrite Hother5 by done. etrans; [apply H24|]. etrans; [by apply Hother|]. by apply (Hroutes Hooks).
Qed.

End routes.

(** ** Merges *)

(** A merge for a new configuration: it is new where nothing is deployed or what is deployed has to be
    replaced, and otherwise reuses what is deployed. *)
Lemma merge_artifacts_new {C} (f : C -> C -> result bool) current c out :
  merge_artifacts f current (NEW c) = Ok out ->
  (out = NEW c /\ (forall d, current = Some d -> f (config d) c = Ok true)) \/
  (exists d, current = Some d /\ f (config d) c = Ok false /\ out = DEPLOYED c (deployed d)).
Proof.
  unfold merge_artifacts. destruct current as [d|]; [|intros [= <-]; by left].
  intros (b & Hb & [= <-])%result_bind_ok. destruct b; [left|right; by exists d].
  split; [done|]. by intros d' [= <-].
Qed.

(** What serves as a hook: the hook itself, or one that the code does not know either. *)
Definition hook_serves (m c : HookArtifactConfig) : Prop :=
  m = c \/ exists f g, m = UnknownHook f /\ c = UnknownHook g.

Lemma immutable_hook_serves m c :
  shouldDeployNewHook m c = Ok false -> hook_type c ∉ MUTABLE_HOOK_TYPE -> hook_serves m c.
Proof.
  unfold shouldDeployNewHook. case_decide as Ht; [done|]. intros _ Hn.
  destruct m, c; try done; cbn in *; try (by destruct Ht); [destruct Hn; set_solver..|by left|right; by eexists _, _].
Qed.

(** ** Settling *)

Section settle.
Context {S Tx Receipt : Type} `{IsmChainLaws S Tx Receipt} `{!DeployChain S Tx}.

(** What was collected between [s] and [s'] leaves, on any chain that has at [a] what [s'] has, something [good]
    of [p] at [a], and changes nothing else; if it changes [a] that was there before. *)
Record settles (p : Part) (s s' : S) (txs : list Tx) (a : string) (good : content p -> Prop) : Prop := {
  settles_grows : grows p s s';
  settles_fresh : part_at p s a = None -> forall s1 b, part_at p (submit txs s1) b = part_at p s1 b;
  settles_some : is_Some (part_at p s' a);
  settles_only : forall s1, part_at p s1 a = part_at p s' a -> only p s1 (submit txs s1);
  settles_others : forall s1 b, part_at p s1 a = part_at p s' a -> b <> a ->
    part_at p (submit txs s1) b = part_at p s1 b;
  settles_good : forall s1, part_at p s1 a = part_at p s' a -> exists x, part_at p (submit txs s1) a = Some x /\ good x
}.

Lemma created_settles p s s' a x (good : content p -> Prop) :
  creates_part p s s' a x -> good x -> settles p s s' [] a good.
Proof.
  intros Hc Hx. pose proof Hc as (_ & Ha & _ & _). split.
  - by eapply creates_grows.
  - intros _ s1 b. by rewrite submit_nil.
  - by exists x.
  - intros s1 _. rewrite submit_nil. reflexivity.
  - intros s1 b _ _. by rewrite submit_nil.
  - intros s1 Hs1. exists x. rewrite submit_nil, Hs1. by split.
Qed.

Lemma kept_settles p s a x (good : content p -> Prop) : part_at p s a = Some x -> good x -> settles p s s [] a good.
Proof.
  intros Ha Hx. split.
  - by apply unchanged_grows.
  - intros _ s1 b. by rewrite submit_nil.
  - by exists x.
  - intros s1 _. rewrite submit_nil. reflexivity.
  - intros s1 b _ _. by rewrite submit_nil.
  - intros s1 Hs1. exists x. rewrite submit_nil, Hs1. by split.
Qed.

Lemma updated_settles p s s' txs a x (good : content p -> Prop) :
  part_at p s a = Some x -> unchanged s s' -> updates_part p s a good txs -> settles p s s' txs a good.
Proof.
  intros Ha Hu Hup. pose proof (Hu p a) as Ha'. split.
  - by apply unchanged_grows.
  - congruence.
  - rewrite Ha'. eauto.
  - intros s1 Hs1. apply Hup. by rewrite Hs1.
  - intros s1 b Hs1 Hb. destruct (Hup s1) as (_ & Ho & _); [by rewrite Hs1|]. by apply Ho.
  - intros s1 Hs1. apply Hup. by rewrite Hs1.
Qed.

(** What is deployed is what was read of it. *)
Definition hook_read (s : S) (current : option DeployedHookArtifact) : Prop :=
  match current with Some d => hook_at s (deployed d) = Some (config d) | None => True end.

Section hooks.
Context `{!RawHookManager S Tx Receipt} `{!HookLaws S Tx Receipt}.

Lemma settle_hook mailbox current c s s' (a : string) (txs : list Tx) :
  hook_read s current ->
  (mergedHookConfig ← lift (mergeHookArtifacts current (NEW c));
   match mergedHookConfig with
   | NEW c => '(d, _) ← create_hook mailbox c; mret (deployed d, [])
   | DEPLOYED c a => txs ← update_hook mailbox (Build_Deployed c a); mret (a, txs)
   | UNDERIVED _ => throw (TypeError "Cannot read properties of undefined (reading 'type')")
   end) s = (s', Ok (a, txs)) ->
  settles Hooks s s' txs a (fun m => hook_serves m c) /\
  (hook_at s a = None \/ exists d, current = Some d /\ a = deployed d).
Proof.
  intros Hread (s1 & out & [= <- Hm] & Hrun)%eff_bind_inv.
  apply merge_artifacts_new in Hm as [[-> _]|(d & -> & Hs & ->)].
  - apply eff_bind_inv in Hrun as (s2 & [d r] & [Hd Hc]%create_hook_law & [= <- <- <-]).
    split; [|left; apply Hc]. eapply created_settles; [exact Hc|by left].
  - apply eff_bind_inv in Hrun as (s2 & t & Ht & [= <- <- <-]). split; [|right; by exists d].
    unfold update_hook in Ht. cbn in Hread. cbn [config] in Ht.
    destruct (bool_decide (hook_type c ∈ MUTABLE_HOOK_TYPE)) eqn:E; cbn [negb] in Ht.
    + destruct (update_hook_law _ _ _ _ _ _ _ Ht Hread Hs) as [Hu Hup].
      eapply updated_settles; [exact Hread|exact Hu|]. intros s1 Hs1.
      destruct (Hup s1 Hs1) as [(x & Hx & <-) Hrest]. split; [|done]. exists c. split; [done|by left].
    + injection Ht as <- <-. eapply kept_settles; [exact Hread|].
      apply immutable_hook_serves; [done|]. by apply bool_decide_eq_false in E.
Qed.

End hooks.

Section fees.
Context `{!RawFeeManager S Tx Receipt} `{!FeeLaws S Tx Receipt}.

(** What is deployed is of the type and has the parameters that were read of it. *)
Definition fee_read (s : S) (current : option DeployedFeeArtifact) : Prop :=
  match current with
  | Some d => exists c, fee_at s (deployed d) = Some c /\ fee_type c = fee_type (config d) /\
      leaf_params c = leaf_params (config d)
  | None => True
  end.

Lemma same_params_serve m m' c :
  fee_type m = fee_type m' -> leaf_params m = leaf_params m' -> shouldDeployNewFee m' c = false -> shouldDeployNewFee m c = false.
Proof. intros Ht Hp. unfold shouldDeployNewFee. by rewrite Ht, Hp. Qed.

Lemma asset_same_fee m c asset : shouldDeployNewFee m (withFeeAssetConfig c asset) = shouldDeployNewFee m c.
Proof. by destruct c. Qed.

Lemma settle_fee context asset current c s s' (a : string) (txs : list Tx) :
  fee_read s current ->
  (mergedFeeConfig ← lift (mergeFeeArtifacts current (NEW c));
   match mergedFeeConfig with
   | NEW c => '(d, _) ← create_fee context (withFeeAssetConfig c asset); mret (deployed d, [])
   | DEPLOYED c a => txs ← update_fee context (Build_Deployed (withFeeAssetConfig c asset) a); mret (a, txs)
   | UNDERIVED _ => throw (TypeError "Cannot read properties of undefined (reading 'type')")
   end) s = (s', Ok (a, txs)) ->
  settles Fees s s' txs a (fun m => fee_serves m (withFeeAssetConfig c asset)) /\
  (fee_at s a = None \/ exists d, current = Some d /\ a = deployed d).
Proof.
  intros Hread (s1 & out & [= <- Hm] & Hrun)%eff_bind_inv.
  apply merge_artifacts_new in Hm as [[-> _]|(d & -> & [= Hs] & ->)].
  - apply eff_bind_inv in Hrun as (s2 & [d r] & (m & Hc & Hm)%create_fee_law & [= <- <- <-]).
    split; [|left; apply Hc]. by eapply created_settles.
  - apply eff_bind_inv in Hrun as (s2 & t & Ht & [= <- <- <-]). split; [|right; by exists d].
    destruct Hread as (c0 & Hc0 & Hty & Hp).
    destruct (update_fee_law _ _ _ _ _ _ _ Ht Hc0) as [Hu Hup].
    { rewrite asset_same_fee. by eapply same_params_serve. }
    by eapply updated_settles.
Qed.

End fees.

End settle.

Section core.
Context {S Tx Receipt : Type} `{IsmChainLaws S Tx Receipt} `{!DeployChain S Tx}
  `{!IsmFrames S Tx Receipt} `{!RawHookManager S Tx Receipt} `{!HookLaws S Tx Receipt}
  `{!RawMailboxManager S Tx Receipt} `{!Signer S Tx Receipt} `{!MailboxLaws S Tx Receipt}.
Context (chainName : string) (isStarknet : bool) (lookup : ChainLookup).

(** ** Deploying *)

(** A hook of a new mailbox. *)
Definition hook_deployed (had has : string -> option HookArtifactConfig) (configured : HookArtifact) (a : string) : Prop :=
  match configured with
  | NEW c => had a = None /\ has a = Some c
  | DEPLOYED _ b | UNDERIVED b => a = b
  end.

(** The default module of a new mailbox. *)
Definition ism_deployed (had has : string -> option OnChainIsm) (configured : IsmArtifact) (a : string) : Prop :=
  match configured with
  | NEW c => had a = None /\ realises exactly false has c a
  | DEPLOYED _ b | UNDERIVED b => a = b
  end.

Lemma deploy_hook_ok mailbox h s s' o (receipts : list Receipt) :
  deploy_artifact (create_hook mailbox) h s = (s', Ok (o, receipts)) ->
  grows Hooks s s' /\ hook_deployed (hook_at s) (hook_at s') h (on_chain_address o).
Proof.
  destruct h as [c|c a|a]; cbn; [|intros [= <- <- <-]; split; [by apply unchanged_grows|done]..].
  intros (s1 & [d r] & [_ Hc]%create_hook_law & [= <- <- <-])%eff_bind_inv.
  split; [by eapply creates_grows|]. split; apply Hc.
Qed.

Lemma deploy_ism_ok i s s' o (receipts : list Receipt) :
  on_config sorted_config i -> deploy_artifact create_ism i s = (s', Ok (o, receipts)) ->
  grows Isms s s' /\ ism_deployed (at_address s) (at_address s') i (on_chain_address o).
Proof.
  intros Hs. destruct i as [c|c a|a]; cbn; [|intros [= <- <- <-]; split; [by apply unchanged_grows|done]..].
  intros (s1 & [d r] & Hc & [= <- <- <-])%eff_bind_inv. pose proof (create_only_ok _ _ _ _ Hc) as Ho.
  destruct (create_deploys c Hs _ _ _ _ [] Hc (Forall_nil_2 _)) as (He & Hn & Hr & _).
  split; [by split|]. split; [done|]. exact (realises_mono _ exactly _ _ _ _ (fun _ _ Hx => Hx) (without_none _) _ Hr).
Qed.

Lemma hook_deployed_mono had had' has has' h a :
  (forall b, had b = None -> had' b = None) -> (forall b c, has b = Some c -> has' b = Some c) ->
  hook_deployed had has h a -> hook_deployed had' has' h a.
Proof. intros Hd Hs. destruct h; cbn; [|done..]. naive_solver. Qed.

Lemma keeps_none p (s s' : S) b : keeps p s s' -> part_at p s' b = None -> part_at p s b = None.
Proof. intros Hk Hb. destruct (part_at p s b) eqn:E; [|done]. apply Hk in E. congruence. Qed.

Lemma ism_deployed_mono had had' has has' i a :
  (forall b, had' b = had b) -> includes has has' -> ism_deployed had has i a -> ism_deployed had' has' i a.
Proof.
  intros Hd Hs. destruct i; cbn; [|done..]. rewrite Hd. intros [Hn Hr]. split; [done|].
  exact (realises_mono _ exactly _ _ _ _ (fun _ _ Hx => Hx) Hs _ Hr).
Qed.


End core.

(** ** Updating the core *)

Section core.
Context {S Tx Receipt : Type} `{IsmChainLaws S Tx Receipt} `{!DeployChain S Tx}
  `{!IsmFrames S Tx Receipt} `{!RawHookManager S Tx Receipt} `{!HookLaws S Tx Receipt}
  `{!RawMailboxManager S Tx Receipt} `{!Signer S Tx Receipt} `{!MailboxLaws S Tx Receipt}.
Context (chainName : string) (lookup : ChainLookup).

(** What a nested address is read as: what is there, unless the address is empty. *)
Definition current_at {C} (read : string -> eff S (Deployed C)) (s : S) (a : string) (current : option (Deployed C)) : Prop :=
  match current with
  | Some d => read a s = (s, Ok d) /\ isEmptyAddress (Some a) = false
  | None => True
  end.

Lemma expanded_current {C} (read : string -> eff S (Deployed C)) a s s' o name current :
  (forall s' d, read a s = (s', Ok d) -> s' = s) ->
  expand_at read (AddressOnly a) s = (s', Ok o) -> toDeployedOrUndefined o name = Ok current ->
  s' = s /\ current_at read s a current.
Proof.
  intros Hread. unfold expand_at. cbn [on_chain_address]. destruct (isEmptyAddress (Some a)) eqn:E.
  - intros [= <- <-]. unfold toDeployedOrUndefined. rewrite E. by intros [= <-].
  - intros (s1 & d & Hd & [= <- <-])%eff_bind_inv. cbn. intros [= <-]. rewrite (Hread _ _ Hd) in Hd |- *. by split_and!.
Qed.

(** The hook [a] is what [h] asks for. *)
Definition hook_applied (has : string -> option HookArtifactConfig) (h : HookArtifact) (a : string) : Prop :=
  match h with
  | NEW c => exists m, has a = Some m /\ hook_serves m c
  | DEPLOYED _ b | UNDERIVED b => a = b
  end.

(** A configured hook is new or an address. *)
Definition configured {C} (a : Artifact C) : Prop := isArtifactDeployed a = false.

Lemma current_hook_read mailbox s a current :
  current_at (read_hook mailbox) s a current -> hook_read s current /\ forall d, current = Some d -> deployed d = a /\ isEmptyAddress (Some a) = false.
Proof.
  destruct current as [d|]; [|done]. cbn. intros [Hd He]. unfold read_hook in Hd.
  destruct (read_hook_nothing _ _ _ _ _ Hd) as [c Hc]. rewrite (read_hook_law _ _ _ _ Hc) in Hd. injection Hd as <-.
  split; [done|]. by intros ? [= <-].
Qed.

(** What settling a hook leaves of the hooks of any chain that has those of [s'] at its address. *)
Lemma hook_step current h mailbox s s' a (txs : list Tx) :
  configured h -> hook_read s current ->
  deployOrUpdateHook current h mailbox s = (s', Ok (a, txs)) ->
  grows Hooks s s' /\ match h with
  | NEW c => settles Hooks s s' txs a (fun m => hook_serves m c) /\
      (hook_at s a = None \/ exists d, current = Some d /\ a = deployed d)
  | UNDERIVED b => a = b /\ txs = []
  | DEPLOYED _ _ => False
  end.
Proof.
  intros Hc Hread. destruct h as [c|c b|b]; [|done|].
  - intros Hrun. destruct (settle_hook _ _ _ _ _ _ _ Hread Hrun) as [Hs Ha]. split; [apply Hs|done].
  - intros [= <- <- <-]. split; [by apply unchanged_grows|done].
Qed.

Lemma settled_at p s s' txs a (good : content p -> Prop) u :
  settles p s s' txs a good -> part_at p u a = part_at p s' a ->
  only p u (submit txs u) /\ (forall b, b <> a -> part_at p (submit txs u) b = part_at p u b) /\
  exists x, part_at p (submit txs u) a = Some x /\ good x.
Proof.
  intros Hs Hu. split_and!; [by eapply settles_only|intros b Hb; by eapply settles_others|by eapply settles_good].
Qed.

(** Both hooks of a mailbox: the transactions on the first do not undo what is done about the second. *)
Lemma hooks_applied cd cr hd hr mailbox s1 s2 s3 u ad ar (td tr : list Tx) :
  configured hd -> configured hr -> hook_read s1 cd -> hook_read s1 cr ->
  (forall d d', cd = Some d -> cr = Some d' -> deployed d <> deployed d') ->
  deployOrUpdateHook cd hd mailbox s1 = (s2, Ok (ad, td)) -> deployOrUpdateHook cr hr mailbox s2 = (s3, Ok (ar, tr)) ->
  same_part Hooks s3 u ->
  grows Hooks s1 s3 /\ only Hooks u (submit tr (submit td u)) /\
  hook_applied (hook_at (submit tr (submit td u))) hd ad /\ hook_applied (hook_at (submit tr (submit td u))) hr ar.
Proof.
  intros Hcd Hcr Hrd Hrr Hne Hd Hr Hu.
  destruct (hook_step _ _ _ _ _ _ _ Hcd Hrd Hd) as [Hg1 Hd'].
  assert (hook_read s2 cr) as Hrr2.
  { destruct cr as [d|]; [|done]. by apply (grows_keeps _ Hooks _ _ Hg1). }
  destruct (hook_step _ _ _ _ _ _ _ Hcr Hrr2 Hr) as [Hg2 Hr'].
  split; [split; [etrans; [apply Hg1|apply Hg2]|etrans; [apply Hg1|apply Hg2]]|].
  assert (match hd with NEW c => part_at Hooks u ad = part_at Hooks s2 ad | _ => True end) as Hud.
  { destruct hd as [c| |]; [|done..]. destruct Hd' as [Hs _]. destruct (settles_some _ _ _ _ _ _ Hs) as [x Hx].
    rewrite Hx, (Hu ad). by apply (grows_keeps _ Hooks _ _ Hg2). }
  assert (only Hooks u (submit td u) /\ hook_applied (hook_at (submit td u)) hd ad /\
    (match hr with NEW c => part_at Hooks (submit td u) ar = part_at Hooks s3 ar /\
       match hd with NEW _ => ar <> ad | _ => True end | _ => True end)) as (Ho1 & Ha1 & Hu2).
  { destruct hd as [c|c b|b]; [|done|].
    - destruct Hd' as [Hs Hwhere]. destruct (settled_at _ _ _ _ _ _ _ Hs Hud) as (Ho & Hother & x & Hx & Hgood).
      split_and!; [done|by exists x|]. destruct hr as [c'|c' b|b]; [|done..].
      assert (ar <> ad) as Hdiff; [|split; [rewrite Hother by done; apply Hu|done]]. intros ->.
      destruct Hr' as [_ [Hnone|(d' & -> & Had)]].
      + destruct (settles_some _ _ _ _ _ _ Hs) as [y Hy]. change (hook_at s2 ad) with (part_at Hooks s2 ad) in Hnone. congruence.
      + destruct Hwhere as [Hnone|(d & -> & ->)]; [|by apply (Hne d d')].
        cbn in Hrr. rewrite Had in Hnone. congruence.
    - destruct Hd' as [-> ->]. rewrite submit_nil. split_and!; [reflexivity|done|].
      destruct hr; [|done..]. split; [apply Hu|done]. }
  destruct hr as [c'|c' b|b]; [|done|].
  - destruct Hu2 as [Hu2 Hdiff]. destruct (settled_at _ _ _ _ _ _ _ (proj1 Hr') Hu2) as (Ho & Hother & x & Hx & Hgood).
    split_and!; [by etrans| |by exists x]. destruct hd as [c|c b|b]; [|done|done].
    destruct Ha1 as (m & Hm & Hserves). exists m. split; [|done]. rewrite <- Hm. by apply Hother.
  - destruct Hr' as [-> ->]. rewrite submit_nil. done.
Qed.

(** The module [a] is what [i] asks for. *)
Definition ism_applied (has : string -> option OnChainIsm) (i : IsmArtifact) (a : string) : Prop :=
  match i with
  | NEW c => realises leaf_serves false has c a
  | DEPLOYED _ b | UNDERIVED b => a = b
  end.

(** A configuration of a module that comes from names of chains. *)
Definition from_names (i : IsmArtifact) : Prop :=
  match i with
  | NEW c => fresh_config c /\ sorted_config c /\ known_config lookup c
  | DEPLOYED _ _ | UNDERIVED _ => True
  end.

Lemma ism_step current i s s' a (txs : list Tx) :
  known_chain lookup s -> read_before lookup s current -> configured i -> from_names i ->
  deployOrUpdateIsm lookup current i s = (s', Ok (a, txs)) ->
  only Isms s s' /\ forall u, same_part Isms s' u ->
    only Isms u (submit txs u) /\ ism_applied (at_address (submit txs u)) i a.
Proof.
  intros Hchain Hread Hc Hi Hrun. destruct (deployOrUpdateIsm_only _ _ _ _ _ _ _ Hrun) as [Ho Hot].
  split; [done|]. intros u Hu. split; [apply Hot|]. destruct i as [c|c b|b]; [|done|by injection Hrun as _ <- _].
  destruct Hi as (Hf & Hs & Hk).
  destruct (applied_configuration_works lookup current c s s' a txs Hchain Hread Hf Hs Hk Hrun) as (_ & _ & Hworks).
  apply Hworks. intros b m Hb. etrans; [apply (Hu b)|exact Hb].
Qed.

Lemma ism_applied_same has has' i a : (forall b, has' b = has b) -> ism_applied has i a -> ism_applied has' i a.
Proof.
  intros Hs. destruct i; [|done..]. apply realises_mono; [done|]. intros b m. by rewrite Hs.
Qed.

Lemma hook_applied_same has has' h a : (forall b, has' b = has b) -> hook_applied has h a -> hook_applied has' h a.
Proof. intros Hs. destruct h; [|done..]. cbn. by rewrite Hs. Qed.

(** What is read of a mailbox before it is updated. *)
Lemma read_core_current fuel mailbox (m0 : OnChainMailbox) s s' cur ci cd cr n1 n2 n3 :
  mailbox_at s mailbox = Some m0 -> known_chain lookup s -> read_core lookup fuel mailbox s = (s', Ok cur) ->
  toDeployedOrUndefined (defaultIsm (config cur)) n1 = Ok ci ->
  toDeployedOrUndefined (defaultHook (config cur)) n2 = Ok cd ->
  toDeployedOrUndefined (requiredHook (config cur)) n3 = Ok cr ->
  s' = s /\ deployed cur = mailbox /\ current_at (read_ism lookup fuel) s (defaultIsm m0) ci /\
  current_at (read_hook (Some mailbox)) s (defaultHook m0) cd /\ current_at (read_hook (Some mailbox)) s (requiredHook m0) cr.
Proof.
  intros Hm Hchain. unfold read_core. rewrite (eff_bind_ok _ _ _ _ _ (read_mailbox_law _ _ _ Hm)). cbn [config deployed].
  intros (s1 & oi & Hi & (s2 & od & Hd & (s3 & orq & Hr & [= <- <-])%eff_bind_inv)%eff_bind_inv)%eff_bind_inv.
  cbn [config deployed defaultIsm defaultHook requiredHook mailbox_references] in *. intros Hci Hcd Hcr.
  apply (fun Hread => expanded_current _ _ _ _ _ _ _ Hread Hi) in Hci as [-> Hci];
    [|intros t d Ht; by apply (read_realised lookup fuel s Hchain) in Ht as [-> _]].
  apply (fun Hread => expanded_current _ _ _ _ _ _ _ Hread Hd) in Hcd as [-> Hcd]; [|intros t d; apply read_hook_unchanged].
  apply (fun Hread => expanded_current _ _ _ _ _ _ _ Hread Hr) in Hcr as [-> Hcr]; [|intros t d; apply read_hook_unchanged].
  by split_and!.
Qed.

(** C20: Updating the core of a chain gives the core that is asked for. [CoreWriter.update] may deploy modules
    and hooks, but leaves the mailbox as it is; submitting the transactions it returns leaves the mailbox with
    the owner that is expected, a default module that has what is expected, and hooks that serve as what is
    expected, whether they were deployed anew, changed or kept, and no rate limit in the default module;
    other mailboxes, and everything that is not a module, a hook or a mailbox, stay as they are. The mailbox
    does not use one hook for both of its hooks, unless that is the empty address; its default modules are a
    tree, and the modules of the chain route domains that are known, in order. The module and the hooks that
    are expected are new, the module from names of chains and new throughout, or are addresses. *)
Theorem updated_core_is_configured fuel (c : MailboxArtifactConfig) mailbox (m0 : OnChainMailbox) s s' (txs : list Tx) :
  mailbox_at s mailbox = Some m0 -> known_chain lookup s ->
  (forall cur, read_ism lookup fuel (defaultIsm m0) s = (s, Ok cur) -> NoDup (deployed cur :: deployed_addresses (config cur))) ->
  (defaultHook m0 = requiredHook m0 -> isEmptyAddress (Some (defaultHook m0)) = true) ->
  configured (defaultIsm c) -> from_names (defaultIsm c) -> configured (defaultHook c) -> configured (requiredHook c) ->
  update_core chainName lookup fuel (Build_Deployed c mailbox) s = (s', Ok txs) ->
  mailbox_at s' mailbox = Some m0 /\
  (exists m : OnChainMailbox, mailbox_at (submit txs s') mailbox = Some m /\ m_owner m = m_owner c /\
    ism_applied (at_address (submit txs s')) (defaultIsm c) (defaultIsm m) /\
    hook_applied (hook_at (submit txs s')) (defaultHook c) (defaultHook m) /\
    hook_applied (hook_at (submit txs s')) (requiredHook c) (requiredHook m)) /\
  recipients (defaultIsm c) = [] /\
  (forall b, b <> mailbox -> mailbox_at (submit txs s') b = mailbox_at s b) /\
  (forall p, p <> Isms -> p <> Hooks -> p <> Mailboxes -> same_part p s (submit txs s')).
Proof.
  intros Hm Hchain Htree Hhooks Hci Hni Hcd Hcr. unfold update_core. cbn [config deployed].
  intros (s0 & [] & [= <- Hdef] & (s1 & cur & Hread & (t1 & ci & [= <- Ei] & (t2 & cd & [= <- Ed] & (t3 & cr & [= <- Er] &
    Hrun)%eff_bind_inv)%eff_bind_inv)%eff_bind_inv)%eff_bind_inv)%eff_bind_inv.
  apply mailbox_default_without_rate_limits in Hdef.
  destruct (read_core_current _ _ _ _ _ _ _ _ _ _ _ _ Hm Hchain Hread Ei Ed Er) as (-> & Hat & Hcuri & Hcurd & Hcurr).
  apply current_hook_read in Hcurd as [Hrd Hd0], Hcurr as [Hrr Hr0].
  apply eff_bind_inv in Hrun as (s1 & [ai ti] & Hism & (s2 & [ad td] & Hd & (s3 & [ar tr] & Hr & (s4 & tm & Hmb &
    [= <- <-])%eff_bind_inv)%eff_bind_inv)%eff_bind_inv).
  rewrite Hat in Hmb.
  apply ism_step in Hism as [Ho1 Hism]; [|done| |done|done].
  2: { destruct ci as [d|]; [|done]. destruct Hcuri as [Hx _]. split; [by eexists _, _|by apply Htree]. }
  assert (hook_read s1 cd /\ hook_read s1 cr) as [Hrd1 Hrr1].
  { split; [destruct cd as [d|]|destruct cr as [d|]]; try done; (etrans; [by apply (Ho1 Hooks)|done]). }
  assert (forall d d', cd = Some d -> cr = Some d' -> deployed d <> deployed d') as Hne.
  { intros d d' Hx Hy E. destruct (Hd0 _ Hx) as [Ea Hemp], (Hr0 _ Hy) as [Eb _]. rewrite Hhooks in Hemp; congruence. }
  assert (forall u, same_part Hooks s3 u -> grows Hooks s1 s3 /\ only Hooks u (submit tr (submit td u)) /\
    hook_applied (hook_at (submit tr (submit td u))) (defaultHook c) ad /\
    hook_applied (hook_at (submit tr (submit td u))) (requiredHook c) ar) as Hboth
    by (intros u; by apply (hooks_applied cd cr _ _ mailbox s1 s2 s3)).
  destruct (Hboth s3) as [[Ho3 _] _]; [by intros b|].
  assert (mailbox_at s3 mailbox = Some m0) as Hm3.
  { etrans; [by apply (Ho3 Mailboxes)|]. etrans; [by apply (Ho1 Mailboxes)|]. exact Hm. }
  apply (update_mailbox_law _ _ _ _ _ m0) in Hmb as (Hu4 & Hupd & _); [|exact Hm3].
  rewrite !submit_app. set (u1 := submit ti s4).
  destruct (Hism s4) as [Hou1 Hi1]; [etrans; [by apply Ho3|apply Hu4]|]. fold u1 in Hou1, Hi1.
  destruct (Hboth u1) as (_ & Hou3 & Hd3 & Hr3); [etrans; [apply Hu4|by apply Hou1]|].
  set (u3 := submit tr (submit td u1)) in *.
  destruct (Hupd u3) as ((m & Hmm & Hmo & Hmi & Hmd & Hmr) & Hothers & Hou4).
  { etrans; [by apply (Hou3 Mailboxes)|]. etrans; [by apply (Hou1 Mailboxes)|]. apply (Hu4 Mailboxes). }
  set (u4 := submit tm u3) in *. cbn in Hmo, Hmi, Hmd, Hmr. split_and!.
  - etrans; [apply (Hu4 Mailboxes)|exact Hm3].
  - exists m. rewrite Hmi, Hmd, Hmr. split_and!; [done..| | |].
    + eapply ism_applied_same; [|exact Hi1]. intros b. etrans; [by apply (Hou4 Isms)|by apply (Hou3 Isms)].
    + eapply hook_applied_same; [|exact Hd3]. intros b. by apply (Hou4 Hooks).
    + eapply hook_applied_same; [|exact Hr3]. intros b. by apply (Hou4 Hooks).
  - done.
  - intros b Hb. etrans; [by apply Hothers|]. etrans; [by apply (Hou3 Mailboxes)|]. etrans; [by apply (Hou1 Mailboxes)|].
    etrans; [apply (Hu4 Mailboxes)|]. etrans; [by apply (Ho3 Mailboxes)|by apply (Ho1 Mailboxes)].
  - intros p Hp1 Hp2 Hp3. etrans; [by apply Ho1|]. etrans; [by apply Ho3|]. etrans; [apply Hu4|].
    etrans; [by apply Hou1|]. etrans; [by apply Hou3|by apply Hou4].
Qed.

End core.

(** ** Updating a route *)

Section routes.
Context {S Tx Receipt : Type} `{Ethers} `{AddressLibs} `{IsmChainLaws S Tx Receipt} `{!DeployChain S Tx}
  `{!IsmFrames S Tx Receipt} `{!RawHookManager S Tx Receipt} `{!HookLaws S Tx Receipt}
  `{!RawFeeManager S Tx Receipt} `{!FeeLaws S Tx Receipt} `{!RawWarpManager S Tx Receipt} `{!Signer S Tx Receipt}
  `{!RouteLaws S Tx Receipt}.
Context (chainName : string) (lookup : ChainLookup).

(** The steps of an update settle an artifact in one way, and return its address in theirs. *)
Lemma settled_as {C O : Type} (merged : result (Artifact C)) (create : C -> eff S (Deployed C * list Receipt))
    (update : C -> string -> eff S (list Tx)) (g : string -> O) (bad : eff S (O * list Tx)) (bad' : eff S (string * list Tx))
    s s' o (txs : list Tx) :
  (forall out, merged = Ok out -> isArtifactUnderived out = false) ->
  (out ← lift merged;
   match out with
   | NEW c => '(d, _) ← create c; mret (g (deployed d), [])
   | DEPLOYED c a => t ← update c a; mret (g a, t)
   | UNDERIVED _ => bad
   end) s = (s', Ok (o, txs)) ->
  exists a, o = g a /\
    (out ← lift merged;
     match out with
     | NEW c => '(d, _) ← create c; mret (deployed d, [])
     | DEPLOYED c a => t ← update c a; mret (a, t)
     | UNDERIVED _ => bad'
     end) s = (s', Ok (a, txs)).
Proof.
  intros Hmerged (s1 & out & Hout & Hrun)%eff_bind_inv. pose proof Hout as [= <- Hm]. specialize (Hmerged _ Hm).
  rewrite (eff_bind_ok _ _ _ _ _ Hout). destruct out as [c|c a|a]; [| |done].
  - apply eff_bind_inv in Hrun as (s2 & [d r] & Hc & [= <- <- <-]). exists (deployed d).
    by rewrite (eff_bind_ok _ _ _ _ _ Hc).
  - apply eff_bind_inv in Hrun as (s2 & t & Ht & [= <- <- <-]). exists a. by rewrite (eff_bind_ok _ _ _ _ _ Ht).
Qed.

Definition configured_if {C} (a : option (Artifact C)) : Prop := match a with Some a => configured a | None => True end.

(** What the steps of an update settle on, where [r] is the recipient of the route and [kept] what it had. *)
Definition ism_settled (has : string -> option OnChainIsm) (r : string) (i : option IsmArtifact) (o : option string) : Prop :=
  match i with
  | Some (NEW c) => Forall (protects r) (config_recipients (protect_new r c)) /\
      exists a, o = Some a /\ realises leaf_serves false has (protect_new r c) a
  | Some (DEPLOYED _ a) | Some (UNDERIVED a) => o = Some a
  | None => o = None
  end.
Definition hook_settled (has : string -> option HookArtifactConfig) (kept : option string) (h : option HookArtifact)
    (o : option string) : Prop :=
  match h with
  | Some (NEW c) =>
      if supportsHookUpdates S Tx Receipt then exists a m, o = Some a /\ has a = Some m /\ hook_serves m c else o = kept
  | Some (DEPLOYED _ a) | Some (UNDERIVED a) => o = Some a
  | None => o = None
  end.
Definition fee_settled (has : string -> option FeeArtifactConfig) (kept asset : option string) (f : option FeeArtifact)
    (o : option string) : Prop :=
  match f with
  | Some (NEW c) =>
      if supports_fees then exists a m, o = Some a /\ has a = Some m /\ fee_serves m (withFeeAssetConfig c asset)
      else o = kept
  | Some (DEPLOYED _ a) | Some (UNDERIVED a) => o = Some a
  | None => o = None
  end.

(** What a route refers to in the end, where [kept] is what it referred to: what serves as what is new, the
    address that is named, or, where nothing is configured, nothing or what it had. Where the protocol does
    not support it, the route keeps what it had. *)
Definition part_now {C} (serves : C -> string -> Prop) (kept : option string) (x : option (Artifact C)) (now : option string) : Prop :=
  match x with
  | Some (NEW c) => exists a, now = Some a /\ serves c a
  | Some (DEPLOYED _ a) | Some (UNDERIVED a) => now = Some a
  | None => now = None \/ now = kept
  end.
Definition ism_now (has : string -> option OnChainIsm) (r : string) (kept : option string) (i : option IsmArtifact) : option string -> Prop :=
  part_now (fun c a => Forall (protects r) (config_recipients (protect_new r c)) /\
    realises leaf_serves false has (protect_new r c) a) kept i.
Definition hook_now (has : string -> option HookArtifactConfig) (kept : option string) (h : option HookArtifact)
    (now : option string) : Prop :=
  if supportsHookUpdates S Tx Receipt then part_now (fun c a => exists m, has a = Some m /\ hook_serves m c) kept h now
  else now = kept.
Definition fee_now (has : string -> option FeeArtifactConfig) (kept asset : option string) (f : option FeeArtifact)
    (now : option string) : Prop :=
  if supports_fees then
    part_now (fun c a => exists m, has a = Some m /\ fee_serves m (withFeeAssetConfig c asset)) kept f now
  else now = kept.

(** Writing what was settled: the addresses named are proper, and so is what something is found at. *)
Lemma part_written {C} (serves : C -> string -> Prop) kept (x : option (Artifact C)) o now :
  (forall c a, serves c a -> proper a) ->
  match x with
  | Some (NEW c) => exists a, o = Some a /\ serves c a
  | Some (DEPLOYED _ a) | Some (UNDERIVED a) => o = Some a
  | None => o = None
  end -> names_proper x -> refers proper kept o now -> part_now serves kept x now.
Proof.
  intros Hp. destruct x as [[c|c a|a]|]; cbn.
  - intros (a & -> & Ha) _ Hr. exists a. split; [by apply Hr, (Hp c)|done].
  - intros -> Ha Hr. by apply Hr.
  - intros -> Ha Hr. by apply Hr.
  - intros -> _ Hr. exact Hr.
Qed.

Lemma ism_written (u : S) r kept i o now :
  ism_settled (at_address u) r i o -> names_proper i -> refers proper kept o now -> ism_now (at_address u) r kept i now.
Proof.
  intros Hs. apply (part_written _ _ _ o).
  - intros c a [_ Ha]. apply (proper_part Isms u). by eapply realises_some.
  - destruct i as [[]|]; [|done..]. destruct Hs as (Hp & a & -> & Hr). by exists a.
Qed.
Lemma hook_written (u : S) kept h o now :
  hook_settled (hook_at u) kept h o -> names_proper h ->
  (if supportsHookUpdates S Tx Receipt then refers proper kept o now else now = kept) -> hook_now (hook_at u) kept h now.
Proof.
  unfold hook_settled, hook_now. destruct (supportsHookUpdates S Tx Receipt); [|done]. intros Hs. apply (part_written _ _ _ o).
  - intros c a (m & Ha & _). apply (proper_part Hooks u). by exists m.
  - destruct h as [[]|]; [|done..]. destruct Hs as (a & m & -> & Hm). eauto.
Qed.
Lemma fee_written (u : S) kept asset f o now :
  fee_settled (fee_at u) kept asset f o -> names_proper f ->
  (if supports_fees then refers proper kept o now else now = kept) -> fee_now (fee_at u) kept asset f now.
Proof.
  unfold fee_settled, fee_now. destruct supports_fees; [|done]. intros Hs. apply (part_written _ _ _ o).
  - intros c a (m & Ha & _). apply (proper_part Fees u). by exists m.
  - destruct f as [[]|]; [|done..]. destruct Hs as (a & m & -> & Hm). eauto.
Qed.

(** What a step leaves: [p] may grow, and the transactions make it what is [wanted]. *)
Definition steps (p : Part) (s s' : S) (txs : list Tx) (wanted : (string -> option (content p)) -> Prop) : Prop :=
  only p s s' /\ forall u, same_part p s' u -> only p u (submit txs u) /\ wanted (part_at p (submit txs u)).

Lemma no_step p s wanted : (forall has, wanted has) -> steps p s s [] wanted.
Proof. intros Hw. split; [done|]. intros u _. by rewrite submit_nil. Qed.

Lemma settled_steps p s s' txs a good (wanted : (string -> option (content p)) -> Prop) :
  settles p s s' txs a good -> (forall has x, has a = Some x -> good x -> wanted has) -> steps p s s' txs wanted.
Proof.
  intros Hs Hw. split; [apply Hs|]. intros u Hu.
  destruct (settled_at _ _ _ _ _ _ _ Hs (Hu a)) as (Ho & _ & x & Hx & Hgood). split; [done|]. by eapply Hw.
Qed.

Lemma ism_update_step current i router r s s' o (txs : list Tx) :
  known_chain lookup s -> read_before lookup s current -> configured_if i ->
  match i with Some i => from_names lookup i | None => True end -> router_recipient router = Ok r ->
  resolve_ism_update lookup current i router chainName s = (s', Ok (o, txs)) ->
  steps Isms s s' txs (fun has => ism_settled has r i o).
Proof.
  intros Hchain Hread Hc Hi Hr. destruct i as [[c|c a|a]|]; cbn in Hc;
    [|done|intros [= <- <- <-]; by apply no_step|intros [= <- <- <-]; by apply no_step].
  destruct Hi as (Hf & Hs & Hk). unfold resolve_ism_update.
  intros (s1 & out & [= <- Hout] & Hrun)%eff_bind_inv.
  destruct (proj1 (resolve_artifact_exact _ chainName r UPDATE (NEW c) _ Hr Hs) Hout) as [Hp ->].
  apply (settled_as _ create_ism (fun c a => update_ism lookup (Build_Deployed c a)) Some _
    (throw (TypeError "Cannot read properties of undefined (reading 'type')"))) in Hrun as (a & -> & Hrun).
  2: { intros m [[_ ->]|(cur & _ & [[_ ->]|[_ [[_ ->]|(? & ? & ? & _ & -> & _)]]])]%merge_config_cases; done. }
  destruct (ism_step lookup current (NEW (protect_new r c)) s s' a txs Hchain Hread eq_refl) as [Ho Hworks];
    [split_and!; [by apply protect_new_fresh|by apply protect_new_sorted|by apply protect_new_known]|exact Hrun|].
  split; [done|]. intros u Hu. destruct (Hworks u Hu) as [Hou Hreal]. split; [done|].
  split; [by eapply protect_new_protects|by exists a].
Qed.

Lemma hook_update_step mailbox current h s s' o (txs : list Tx) :
  hook_read s current -> configured_if h ->
  resolve_hook_update mailbox current h s = (s', Ok (o, txs)) ->
  steps Hooks s s' txs (fun has => hook_settled has (deployed <$> current) h (on_chain_address <$> o)).
Proof.
  intros Hread Hc. destruct h as [[c|c a|a]|]; cbn in Hc;
    [|done|intros [= <- <- <-]; by apply no_step|intros [= <- <- <-]; by apply no_step].
  unfold resolve_hook_update, hook_settled. destruct (supportsHookUpdates S Tx Receipt); cbn [negb];
    [|intros [= <- <- <-]; apply no_step; intros _; by destruct current].
  intros Hrun. apply (settled_as _ (create_hook (Some mailbox)) (fun c a => update_hook (Some mailbox) (Build_Deployed c a))
    (fun a => Some (AddressOnly a)) _ (throw (TypeError "Cannot read properties of undefined (reading 'type')")))
    in Hrun as (a & -> & Hrun).
  2: { by intros m [[-> _]|(? & _ & _ & ->)]%merge_artifacts_new. }
  apply (settle_hook _ _ _ _ _ _ _ Hread) in Hrun as [Hs _]. eapply settled_steps; [exact Hs|].
  intros has m Hm Hserves. by exists a, m.
Qed.

Lemma fee_update_step context asset current f s s' o (txs : list Tx) :
  fee_read s current -> configured_if f ->
  resolve_fee_update context asset current f s = (s', Ok (o, txs)) ->
  steps Fees s s' txs (fun has => fee_settled has (deployed <$> current) asset f (on_chain_address <$> o)).
Proof.
  intros Hread Hc. destruct f as [[c|c a|a]|]; cbn in Hc;
    [|done|intros [= <- <- <-]; by apply no_step|intros [= <- <- <-]; by apply no_step].
  unfold resolve_fee_update, fee_settled. destruct supports_fees; cbn [negb];
    [|intros [= <- <- <-]; apply no_step; intros _; by destruct current].
  intros Hrun. apply (settled_as _ (fun c => create_fee context (withFeeAssetConfig c asset))
    (fun c a => update_fee context (Build_Deployed (withFeeAssetConfig c asset) a))
    (fun a => Some (AddressOnly a)) _ (throw (TypeError "Cannot read properties of undefined (reading 'type')")))
    in Hrun as (a & -> & Hrun).
  2: { by intros m [[-> _]|(? & _ & _ & ->)]%merge_artifacts_new. }
  apply (settle_fee _ _ _ _ _ _ _ _ Hread) in Hrun as [Hs _]. eapply settled_steps; [exact Hs|].
  intros has m Hm Hserves. by exists a, m.
Qed.

(** What is read of a route before it is updated. *)
Definition route_read fuel (s : S) (m0 : OnChainWarp) (current : WarpConfigs Deployed) : Prop :=
  token_type current = token_type m0 /\
  resolveFeeTokenFromWarpArtifactConfig current = resolveFeeTokenFromWarpArtifactConfig m0 /\
  match interchainSecurityModule current with
  | Some d => exists a, interchainSecurityModule m0 = Some a /\ read_ism lookup fuel a s = (s, Ok d)
  | None => True
  end /\
  hook_read s (hook current) /\ deployed <$> hook current = hook m0 /\
  fee_read s (fee current) /\ deployed <$> fee current = fee m0.

Lemma expanded_reference {C} (read : string -> eff S (Deployed C)) (reference : option string) s s' o :
  (forall a s' d, read a s = (s', Ok d) -> s' = s /\ deployed d = a) ->
  expand_artifact read (AddressOnly <$> reference) s = (s', Ok o) ->
  s' = s /\ deployed <$> o = reference /\ match o with Some d => read (deployed d) s = (s, Ok d) | None => True end.
Proof.
  intros Hread. destruct reference as [a|]; cbn; [|by intros [= <- <-]].
  intros (s1 & d & Hd & [= <- <-])%eff_bind_inv. destruct (Hread _ _ _ Hd) as [-> <-]. done.
Qed.

Lemma read_route_current fuel a (m0 : OnChainWarp) s s' current :
  route_at s a = Some m0 -> known_chain lookup s -> read_route lookup fuel a s = (s', Ok current) ->
  s' = s /\ route_read fuel s m0 (config current).
Proof.
  intros Hm Hchain. unfold read_route. rewrite (eff_bind_ok _ _ _ _ _ (read_route_law _ _ _ Hm)).
  intros (s1 & oi & Hi & (s2 & oh & Hh & (s3 & ofee & Hf & [= <- <-])%eff_bind_inv)%eff_bind_inv)%eff_bind_inv.
  apply expanded_reference in Hi as (-> & Ei & Hi).
  2: { intros b t d Hd. by apply (read_realised lookup fuel s Hchain) in Hd as (-> & -> & _). }
  apply expanded_reference in Hh as (-> & Eh & Hh).
  2: { intros b t d Hd. pose proof (read_hook_unchanged _ _ _ _ _ Hd) as ->. split; [done|].
       destruct (read_hook_nothing _ _ _ _ _ Hd) as [c Hc]. unfold read_hook in Hd.
       rewrite (read_hook_law _ _ _ _ Hc) in Hd. by injection Hd as <-. }
  apply expanded_reference in Hf as (-> & Ef & Hf).
  2: { intros b t d. unfold fee_reader. destruct supports_fees; [|done]. by intros (-> & -> & _)%read_fee_law. }
  split; [done|]. unfold route_read. cbn. split_and!; [done|done| | |done| |done].
  - destruct oi as [d|]; [|done]. exists (deployed d). by rewrite <- Ei.
  - destruct oh as [d|]; [|done]. destruct (read_hook_nothing _ _ _ _ _ Hh) as [c Hc]. unfold read_hook in Hh.
    rewrite (read_hook_law _ _ _ _ Hc) in Hh. by injection Hh as <-.
  - destruct ofee as [d|]; [|done]. unfold fee_reader in Hf. destruct supports_fees; [|done].
    apply read_fee_law in Hf as (_ & _ & c & Hc & Ht & Hp). by exists c.
Qed.

(** What is there at an address does not depend on other parts, nor on how a chain is written. *)
Lemma ism_settled_same has has' r i placed : (forall b, has' b = has b) -> ism_settled has r i placed -> ism_settled has' r i placed.
Proof.
  intros Hs. destruct i as [[c| |]|]; [|done..]. intros (Hp & a & -> & Hr). split; [done|]. exists a. split; [done|].
  eapply realises_mono; [done| |exact Hr]. intros b m. by rewrite Hs.
Qed.
Lemma hook_settled_same has has' kept h placed : (forall b, has' b = has b) -> hook_settled has kept h placed -> hook_settled has' kept h placed.
Proof.
  intros Hs. destruct h as [[c| |]|]; [|done..]. cbn. destruct (supportsHookUpdates S Tx Receipt); [|done].
  intros (a & m & -> & Hm & Hc). exists a, m. by rewrite Hs.
Qed.
Lemma fee_settled_same has has' kept asset f placed :
  (forall b, has' b = has b) -> fee_settled has kept asset f placed -> fee_settled has' kept asset f placed.
Proof.
  intros Hs. destruct f as [[c| |]|]; [|done..]. cbn. destruct supports_fees; [|done].
  intros (a & m & -> & Hm & Hc). exists a, m. by rewrite Hs.
Qed.

(** C19: Updating a warp route gives the route that is asked for. [WarpTokenWriter.update] may deploy modules,
    hooks and fees, but leaves the route as it is; submitting the transactions it returns leaves the route with
    the owner and the routers that are expected, a module that has what is expected and whose rate limits
    protect the route, a hook and a fee that serve as what is expected, and its type, which has to be the one
    expected. Where the protocol does not support hooks of routes, or fees, the route keeps what it had; where
    no module, hook or fee is configured, it has none or keeps what it had, as the protocol has it. Other
    routes, and everything that is not a module, a hook, a fee or a route, stay as they are. The modules of the
    route are a tree and those of the chain route domains that are known, in order; what is configured is new,
    with modules that come from names of chains and are new throughout, or is an address; the owner and these
    addresses are spelled as the chain spells them, and are not the empty address. *)
Theorem updated_route_is_configured fuel (c : WarpArtifactConfig) a r (m0 : OnChainWarp) s s' (txs : list Tx) :
  route_at s a = Some m0 -> known_chain lookup s ->
  (forall b cur, interchainSecurityModule m0 = Some b -> read_ism lookup fuel b s = (s, Ok cur) ->
    NoDup (deployed cur :: deployed_addresses (config cur))) ->
  router_recipient (warpRouterContext a) = Ok r ->
  configured_if (interchainSecurityModule c) -> configured_if (hook c) -> configured_if (fee c) ->
  match interchainSecurityModule c with Some i => from_names lookup i | None => True end ->
  proper (w_owner c) -> names_proper (interchainSecurityModule c) -> names_proper (hook c) -> names_proper (fee c) ->
  update_route chainName lookup fuel (Build_Deployed c a) s = (s', Ok txs) ->
  route_at s' a = Some m0 /\ token_type m0 = token_type c /\
  (exists m : OnChainWarp, route_at (submit txs s') a = Some m /\ w_owner m = w_owner c /\ token_type m = token_type c /\
    ism_now (at_address (submit txs s')) r (interchainSecurityModule m0) (interchainSecurityModule c) (interchainSecurityModule m) /\
    hook_now (hook_at (submit txs s')) (hook m0) (hook c) (hook m) /\
    fee_now (fee_at (submit txs s')) (fee m0)
      (match resolveFeeTokenFromWarpArtifactConfig m0 with Some t => Some t | None => resolveFeeTokenFromWarpArtifactConfig c end)
      (fee c) (fee m) /\
    forall k router, map_get k (remoteRouters c) = Some router ->
      settled_router compare_routers (routers_config m) (routers_config c) k router) /\
  (forall b, b <> a -> route_at (submit txs s') b = route_at s b) /\
  (forall p, p <> Isms -> p <> Hooks -> p <> Fees -> p <> Routes -> same_part p s (submit txs s')).
Proof.
  intros Hm Hchain Htree Hr Hci Hch Hcf Hni Hpo Hpi Hph Hpf. unfold update_route. cbn [config deployed].
  intros (s0 & [] & [= <- _] & (s1 & cur & Hread & (s2 & [] & [= -> Hty] & Hrun)%eff_bind_inv)%eff_bind_inv)%eff_bind_inv.
  destruct (read_route_current _ _ _ _ _ _ Hm Hchain Hread) as (-> & Ety & Easset & Hri & Hrh & Eh & Hrf & Ef).
  apply js_assert_ok, bool_decide_eq_true in Hty. rewrite Ety in Hty. rewrite Easset in Hrun. clear Hread.
  apply eff_bind_inv in Hrun as (s1 & [oi ti] & Hi & (s2 & [oh th] & Hh & (s3 & [ofee tf] & Hf & (s4 & tr & Hup &
    [= <- <-])%eff_bind_inv)%eff_bind_inv)%eff_bind_inv).
  eapply ism_update_step in Hi as [Ho1 Hi]; [|done| |done|done|done].
  2: { destruct (interchainSecurityModule (config cur)) as [d|]; [|done]. destruct Hri as (b & Hb & Hrb).
       split; [by eexists _, _|by apply (Htree b)]. }
  apply hook_update_step in Hh as [Ho2 Hh]; [| |done].
  2: { destruct (hook (config cur)) as [d|]; [|done]. etrans; [by apply (Ho1 Hooks)|done]. }
  apply fee_update_step in Hf as [Ho3 Hf]; [| |done].
  2: { destruct (fee (config cur)) as [d|]; [|done]. destruct Hrf as (f & Hf0 & Hrest). exists f. split; [|done].
       etrans; [by apply (Ho2 Fees)|]. etrans; [by apply (Ho1 Fees)|done]. }
  rewrite Eh in Hh. rewrite Ef in Hf.
  assert (same_part Routes s s3) as Hroutes.
  { etrans; [by apply Ho1|]. etrans; [by apply Ho2|by apply Ho3]. }
  eapply update_route_law in Hup as (Hu4 & Hup & _); [|etrans; [apply (Hroutes a)|exact Hm]|exact Hty].
  rewrite !submit_app. set (u1 := submit ti s4).
  destruct (Hi s4) as [Hou1 Hi1]; [etrans; [by apply Ho2|]; etrans; [by apply Ho3|apply Hu4]|]. fold u1 in Hou1, Hi1.
  destruct (Hh u1) as [Hou2 Hh2]; [etrans; [by apply Ho3|]; etrans; [apply Hu4|by apply Hou1]|].
  set (u2 := submit th u1) in *.
  destruct (Hf u2) as [Hou3 Hf3]; [etrans; [apply Hu4|]; etrans; [by apply Hou1|by apply Hou2]|].
  set (u3 := submit tf u2) in *.
  assert (same_part Routes s4 u3) as Hroutes'.
  { etrans; [by apply Hou1|]. etrans; [by apply Hou2|by apply Hou3]. }
  destruct (Hup u3) as ((m & Hmm & [Hmo Hmt Hmi Hmh Hmf Hmr]) & Hothers & Hou4).
  { etrans; [apply (Hroutes' a)|apply (Hu4 Routes)]. }
  set (u4 := submit tr u3) in *. cbn in Hmo, Hmi, Hmh, Hmf. split_and!.
  - etrans; [apply (Hu4 Routes)|]. etrans; [apply (Hroutes a)|exact Hm].
  - done.
  - exists m. split_and!; [done|by apply Hmo|done| | | |done].
    + replace (on_chain_address <$> (AddressOnly <$> oi)) with oi in Hmi by (by destruct oi).
      eapply ism_written; [|done|exact Hmi].
      eapply ism_settled_same; [|exact Hi1]. intros b. etrans; [by apply (Hou4 Isms)|]. etrans; [by apply (Hou3 Isms)|by apply (Hou2 Isms)].
    + eapply hook_written; [|done|exact Hmh]. eapply hook_settled_same; [|exact Hh2]. intros b. etrans; [by apply (Hou4 Hooks)|by apply (Hou3 Hooks)].
    + eapply fee_written; [|done|exact Hmf]. eapply fee_settled_same; [|exact Hf3]. intros b. by apply (Hou4 Fees).
  - intros b Hb. etrans; [by apply Hothers|]. etrans; [apply (Hroutes' b)|]. etrans; [apply (Hu4 Routes)|apply (Hroutes b)].
  - intros p Hp1 Hp2 Hp3 Hp4. etrans; [by apply Ho1|]. etrans; [by apply Ho2|]. etrans; [by apply Ho3|]. etrans; [apply Hu4|].
    etrans; [by apply Hou1|]. etrans; [by apply Hou2|]. etrans; [by apply Hou3|by apply Hou4].
Qed.

End routes.
