(* ===== verification/DeploySamples.v ===== *)
(** Chains in memory that keep the promises of protocols, with concrete inputs of the theorems on
    artifacts: [IsmSample] has modules only (the promises of [IsmWriterFacts]), [DeploySample] modules, hooks,
    fees, routes and mailboxes (those of [DeployLaws]). *)
From Stdlib Require Import ZArith Lia String Ascii Sorted QArith.
From stdpp Require Import base tactics sets list gmap strings pretty sorting infinite fin_sets.
From S2P Require Import Prelude JsMap Addresses Messages AddressEq ConfigJson IsmArtifacts.
From S2P Require Import IsmArtifactsFacts IsmConfigFacts IsmRecipientFacts IsmWriters.
From S2P Require Import IsmWriterFacts IsmUpdateFacts HookArtifacts FeeArtifacts WarpArtifacts.
From S2P Require Import DeployWriters DeployLaws DeployFacts.

#[local] Open Scope Z_scope.

Module IsmSample.

(** ** A chain in memory *)

Definition Memory : Type := gmap string OnChainIsm.
Definition Change : Type := string * OnChainIsm.

Definition free_address (s : Memory) : string := fresh (dom s : gset string).

#[export] Instance memory_manager : RawIsmManager Memory Change unit := {
  readIsm a := fun s =>
    match s !! a with
    | Some m => (s, Ok (Build_Deployed (with_nested AddressOnly m) a))
    | None => (s, Throw (Error "no module"))
    end;
  createRouting c := fun s =>
    let a := free_address s in (<[a := routing_addresses c]> s, Ok (Build_Deployed c a, [()]));
  createRaw c := fun s =>
    let a := free_address s in (<[a := addresses c]> s, Ok (Build_Deployed c a, [()]));
  updateRouting d := fun s => (s, Ok [(deployed d, routing_addresses (config d))]);
  updateRaw d := fun s =>
    match config d with
    | RoutingIsm _ _ | AggregationIsm _ _ => (s, Throw (Error "not this writer"))
    | c => (s, Ok (if is_static (ism_type c) then [] else [(deployed d, addresses c)]))
    end
}.

#[export] Instance memory_chain : IsmChain Memory Change := {
  at_address s a := s !! a;
  submit txs s := foldl (fun s '(a, m) => <[a := m]> s) s txs
}.

Lemma memory_creates (s : Memory) m : creates s (<[free_address s := m]> s) (free_address s) m.
Proof.
  split_and!; cbn.
  - apply not_elem_of_dom. apply (is_fresh (dom s : gset string)).
  - apply lookup_insert_eq.
  - intros b Hb. by apply lookup_insert_ne.
Qed.

#[export] Instance memory_laws : IsmChainLaws Memory Change unit.
Proof.
  split.
  - intros s a m Ha. cbn in *. by rewrite Ha.
  - intros s a s' d. cbn. destruct (s !! a); [eauto|done].
  - intros c s s' d r [= <- <- <-]. split; [done|apply memory_creates].
  - intros c s s' d r [= <- <- <-]. split; [done|apply memory_creates].
  - intros c a s s' txs owner ds [= <- <-] _. split; [done|]. intros s1 _. split.
    + eexists. split; [apply lookup_insert_eq|done].
    + intros b Hb. by apply lookup_insert_ne.
  - intros c a s s' txs m Hrun Ha Ht Hst. cbn [updateRaw memory_manager config deployed] in Hrun.
    destruct (is_static (ism_type c)) eqn:Est.
    + assert (txs = [] /\ s' = s) as [-> ->] by (by destruct c; try done; rewrite Est in Hrun; injection Hrun as <- <-).
      split; [done|]. intros s1 Hs1. split; [|done]. exists m. split; [cbn in *; congruence|by apply Hst].
    + assert (txs = [(a, addresses c)] /\ s' = s /\ leaf c = Some (addresses c)) as (-> & -> & Hl).
      { destruct c; try done; rewrite Est in Hrun; by injection Hrun as <- <-. }
      split; [done|]. intros s1 _. split; [|intros b Hb; by apply lookup_insert_ne].
      eexists. split; [apply lookup_insert_eq|]. by destruct c.
  - intros t1 t2 s. apply foldl_app.
  - done.
Qed.

(** ** Concrete modules *)

Definition lookup : ChainLookup := {|
  getChainName d := if d =? 1 then Some "one" else if d =? 2 then Some "two" else None;
  getDomainId n := if String.eqb n "one" then Some 1 else if String.eqb n "two" then Some 2 else None
|}.

Definition validators_of (v : list string) : IsmArtifactConfig := ArtifactConfig (MultisigIsm MessageId v 1).

(** A module that routes two domains, and the same under another owner, with the validators of one
    domain in another order and those of the other changed. *)
Definition first : IsmArtifactConfig :=
  ArtifactConfig (RoutingIsm "owner" [(1, NEW (validators_of ["0xA"; "0xB"])); (2, NEW (validators_of ["0xC"]))]).
Definition second : IsmArtifactConfig :=
  ArtifactConfig (RoutingIsm "other" [(1, NEW (validators_of ["0xb"; "0xa"])); (2, NEW (validators_of ["0xD"]))]).

Lemma known_one : known lookup 1.
Proof. by exists "one". Qed.
Lemma known_two : known lookup 2.
Proof. by exists "two". Qed.

Lemma first_known : known_config lookup first.
Proof. split; [repeat constructor; (apply known_one || apply known_two)|]. by repeat split. Qed.
Lemma second_known : known_config lookup second.
Proof. split; [repeat constructor; (apply known_one || apply known_two)|]. by repeat split. Qed.
Lemma first_sorted : sorted_config first.
Proof. split; [repeat constructor; lia|]. by repeat split. Qed.
Lemma second_sorted : sorted_config second.
Proof. split; [repeat constructor; lia|]. by repeat split. Qed.

(** The chain after [first] was deployed, and what is read of it. *)
Definition after : Memory := fst (create_ism first (∅ : Memory)).
Definition there : DeployedIsmArtifact :=
  Build_Deployed (ArtifactConfig (RoutingIsm "owner"
    [(1, DEPLOYED (validators_of ["0xA"; "0xB"]) "0"); (2, DEPLOYED (validators_of ["0xC"]) "1")])) "2".
(** What applying [second] ends with: one module deployed anew, and one change. *)
Definition last : Memory := fst (deployOrUpdateIsm lookup (Some there) (NEW second) after).
Definition changes : list Change := [("2", RoutingIsm "other" [(1, "0"); (2, "3")])].

Example first_is_there : create_ism first (∅ : Memory) = (after, Ok (there, [(); (); ()])).
Proof. vm_compute. reflexivity. Qed.
Example second_is_applied :
  deployOrUpdateIsm lookup (Some there) (NEW second) after = (last, Ok ("2", changes)).
Proof. vm_compute. reflexivity. Qed.

Lemma after_reads : read_ism lookup 3 "2" after = (after, Ok there).
Proof. vm_compute. reflexivity. Qed.

Lemma after_known : known_chain lookup after.
Proof.
  intros a owner ds Ha. cbn in Ha. change after with
    (<["2" := RoutingIsm "owner" [(1, "0"); (2, "1")]]> (<["1" := MultisigIsm MessageId ["0xC"] 1]>
      (<["0" := MultisigIsm MessageId ["0xA"; "0xB"] 1]> (∅ : Memory)))) in Ha.
  apply lookup_insert_Some in Ha as [[_ [= <- <-]]|[_ Ha]].
  - split; [repeat constructor; lia|]. repeat constructor; (apply known_one || apply known_two).
  - by apply lookup_insert_Some in Ha as [[_ [=]]|[_ [[_ [=]]|[_ Ha]]%lookup_insert_Some]].
Qed.

(** ** Witnesses *)

Definition merged_second : IsmArtifact :=
  DEPLOYED (ArtifactConfig (RoutingIsm "other"
    [(1, DEPLOYED (validators_of ["0xb"; "0xa"]) "0"); (2, NEW (validators_of ["0xD"]))])) "2".

Lemma merge_reuses_what_serves_witness :
  mergeIsmArtifacts (Some there) (NEW second) = Ok merged_second /\ wanted merged_second = NEW second.
Proof.
  split; [vm_compute; reflexivity|].
  apply (merge_reuses_what_serves (Some there) (NEW second) merged_second); [apply second_sorted|].
  vm_compute. reflexivity.
Defined.



Lemma applied_configuration_is_realised_witness :
  realises leaf_serves false (at_address (submit changes last)) second "2".
Proof.
  apply (applied_configuration_is_realised (S := Memory) (Tx := Change) (Receipt := unit)
    lookup (Some there) second after last "2" changes).
  - apply after_known.
  - split; [exists 3%nat, "2"; vm_compute; reflexivity|]. apply (bool_decide_unpack _). vm_compute. exact I.
  - by repeat split.
  - apply second_sorted.
  - apply second_known.
  - vm_compute. reflexivity.
Defined.

(** A route's module to be deployed: a limit whose recipient is not given, and one that is deployed. *)
Definition router_bytes : string := "0x00000000000000000000000000000000000000000000000000000000000000Ab".
Definition recipient_bytes : string := "0x00000000000000000000000000000000000000000000000000000000000000ab".
Definition router : ContextualAddress := {| router_address := "0xAb"; toBytes32 := Ok router_bytes |}.
Definition limit (recipient : option string) : IsmArtifactConfig :=
  ArtifactConfig (CompositeIsm "owner" (AggregationNode 1 [RateLimitedNode "100" "mailbox" recipient; TestIsmNode true])).
Definition limited (recipient : option string) : IsmArtifact :=
  NEW (ArtifactConfig (RoutingIsm "owner"
    [(1, NEW (limit recipient)); (2, DEPLOYED (limit (Some router_bytes)) "0xDe")])).


Example wrong_recipient_is_refused : is_ok (resolveIsmArtifact (limited (Some "0x")) CREATE router "one") = false.
Proof. reflexivity. Qed.

(** Two domains that share a routing module, expected to differ below: both merges reuse it, and the
    update that comes last wins for both domains. *)
Definition nested_route (owner : string) : IsmArtifactConfig := ArtifactConfig (RoutingIsm owner []).
Definition shared : DeployedIsmArtifact :=
  Build_Deployed (ArtifactConfig (RoutingIsm "owner"
    [(1, DEPLOYED (nested_route "owner") "s"); (2, DEPLOYED (nested_route "owner") "s")])) "r".
Definition shared_chain : Memory :=
  <["r" := RoutingIsm "owner" [(1, "s"); (2, "s")]]> (<["s" := RoutingIsm "owner" []]> ∅).
Definition split_route : IsmArtifactConfig :=
  ArtifactConfig (RoutingIsm "owner" [(1, NEW (nested_route "one")); (2, NEW (nested_route "two"))]).

Example shared_module_ends_as_last :
  read_ism lookup 3 "r" shared_chain = (shared_chain, Ok shared) /\
  match deployOrUpdateIsm lookup (Some shared) (NEW split_route) shared_chain with
  | (s', Ok (_, txs)) =>
      at_address (submit txs s') "r" = Some (RoutingIsm "owner" [(1, "s"); (2, "s")]) /\
      at_address (submit txs s') "s" = Some (RoutingIsm "two" [])
  | _ => False
  end.
Proof. vm_compute. by split. Qed.

End IsmSample.

Module DeploySample.

(** ** A chain in memory *)

Record Chain : Type := {
  the_isms : gmap string (content Isms);
  the_hooks : gmap string (content Hooks);
  the_fees : gmap string (content Fees);
  the_routes : gmap string (content Routes);
  the_mailboxes : gmap string (content Mailboxes);
  the_announcements : gmap string (content Announcements)
}.

Definition part (p : Part) : Chain -> gmap string (content p) :=
  match p with
  | Isms => the_isms | Hooks => the_hooks | Fees => the_fees
  | Routes => the_routes | Mailboxes => the_mailboxes | Announcements => the_announcements
  end.

Definition set_part (p : Part) : gmap string (content p) -> Chain -> Chain :=
  match p with
  | Isms => fun m s => Build_Chain m (the_hooks s) (the_fees s) (the_routes s) (the_mailboxes s) (the_announcements s)
  | Hooks => fun m s => Build_Chain (the_isms s) m (the_fees s) (the_routes s) (the_mailboxes s) (the_announcements s)
  | Fees => fun m s => Build_Chain (the_isms s) (the_hooks s) m (the_routes s) (the_mailboxes s) (the_announcements s)
  | Routes => fun m s => Build_Chain (the_isms s) (the_hooks s) (the_fees s) m (the_mailboxes s) (the_announcements s)
  | Mailboxes => fun m s => Build_Chain (the_isms s) (the_hooks s) (the_fees s) (the_routes s) m (the_announcements s)
  | Announcements => fun m s => Build_Chain (the_isms s) (the_hooks s) (the_fees s) (the_routes s) (the_mailboxes s) m
  end.

Definition write (p : Part) (a : string) (x : content p) (s : Chain) : Chain := set_part p (<[a := x]> (part p s)) s.
(** An address that is free, and not taken for zero. *)
Definition free (p : Part) (s : Chain) : string := fresh ({["0"; "1"]} ∪ dom (part p s) : gset string).

(** A transaction sets what is at an address; the owner of a route or mailbox has to send it. *)
Definition Change : Type := {p : Part & (string * content p)%type}.
Definition change (p : Part) (a : string) (x : content p) : Change := existT p (a, x).
Definition apply_change (s : Chain) (c : Change) : Chain := let 'existT p (a, x) := c in write p a x s.

Definition may_send (sender : string) (c : Change) (s : Chain) : bool :=
  match c with
  | existT Routes (a, _) => bool_decide (w_owner <$> the_routes s !! a = Some sender)
  | existT Mailboxes (a, _) => bool_decide (m_owner <$> the_mailboxes s !! a = Some sender)
  | _ => true
  end.

Definition SIGNER : string := "0x5165165165165165165165165165165165165165".

#[export] Instance sample_signer : Signer Chain Change unit := {
  getSignerAddress := SIGNER;
  sendAndConfirmTransaction c := fun s =>
    if may_send SIGNER c s then (apply_change s c, Ok ()) else (s, Throw (Error "not the owner"))
}.

#[export] Instance sample_ism_chain : IsmChain Chain Change := {
  at_address s a := the_isms s !! a;
  submit txs s := foldl apply_change s txs
}.

#[export] Instance sample_chain : DeployChain Chain Change := {
  hook_at s a := the_hooks s !! a;
  fee_at s a := the_fees s !! a;
  route_at s a := the_routes s !! a;
  mailbox_at s a := the_mailboxes s !! a;
  announcement_at s a := the_announcements s !! a
}.

(** ** What is deployed and updated *)

(** What is at an address, if something is. *)
Definition look {A} (f : Chain -> option A) : eff Chain A :=
  fun s => match f s with Some x => (s, Ok x) | None => (s, Throw (Error "nothing there")) end.
(** Something new. *)
Definition make {C} (p : Part) (x : content p) (c : C) : eff Chain (Deployed C * list unit) :=
  fun s => let a := free p s in (write p a x s, Ok (Build_Deployed c a, [()])).

#[export] Instance sample_isms : RawIsmManager Chain Change unit := {
  readIsm a := m ← look (fun s => the_isms s !! a); mret (Build_Deployed (with_nested AddressOnly m) a);
  createRouting c := make Isms (routing_addresses c) c;
  createRaw c := make Isms (addresses c) c;
  updateRouting d := mret [change Isms (deployed d) (routing_addresses (config d))];
  updateRaw d :=
    match config d with
    | RoutingIsm _ _ | AggregationIsm _ _ => throw (Error "not this writer")
    | c => mret (if is_static (ism_type c) then [] else [change Isms (deployed d) (addresses c)])
    end
}.

#[export] Instance sample_hooks : RawHookManager Chain Change unit := {
  readHook _ a := m ← look (fun s => the_hooks s !! a); mret (Build_Deployed m a);
  createHook _ c := make Hooks c c;
  updateHook _ d := mret [change Hooks (deployed d) (config d)]
}.

#[export] Instance sample_fees : RawFeeManager Chain Change unit := {
  supports_fees := true;
  readFee _ a := m ← look (fun s => the_fees s !! a); mret (Build_Deployed m a);
  createFee _ c := make Fees c c;
  updateFee _ d := mret [change Fees (deployed d) (config d)]
}.

(** Routers are not empty. *)
Definition no_router_empty (c : RawWarpArtifactConfig) : bool :=
  forallb (fun r => negb (String.eqb r EmptyString)) (remoteRouters c).*2.

#[export] Instance sample_ethers : Ethers := plain_ethers.

#[export] Instance sample_routes : RawWarpManager Chain Change unit := {
  readWarpToken a := m ← look (fun s => the_routes s !! a); mret (Build_Deployed (warp_references m) a);
  createWarpToken c := fun s =>
    match router_recipient (warpRouterContext (free Routes s)), js_assert (no_router_empty c) "empty router" with
    | Ok _, Ok _ => make Routes (warp_addresses c) c s
    | Throw e, _ | _, Throw e => (s, Throw e)
    end;
  updateWarpToken d :=
    _ ← lift (js_assert (no_router_empty (config d)) "empty router");
    mret [change Routes (deployed d) (warp_addresses (config d))];
  supportsHookUpdates := true
}.

Definition mailbox_addresses (c : MailboxOnChain) : OnChainMailbox := {|
  m_owner := m_owner c; defaultIsm := on_chain_address (defaultIsm c); defaultHook := on_chain_address (defaultHook c);
  requiredHook := on_chain_address (requiredHook c); m_contractVersion := m_contractVersion c
|}.

#[export] Instance sample_mailboxes : RawMailboxManager Chain Change unit := {
  readMailbox a := m ← look (fun s => the_mailboxes s !! a); mret (Build_Deployed (mailbox_references m) a);
  createMailbox c := make Mailboxes (mailbox_addresses c) c;
  updateMailbox d := mret [change Mailboxes (deployed d) (mailbox_addresses (config d))];
  supports_announce := true;
  createAnnounce mailbox := make Announcements mailbox mailbox
}.

(** ** The promises are kept *)

Lemma part_set p m s : part p (set_part p m s) = m.
Proof. by destruct p. Qed.

Lemma part_set_ne p q m s : q <> p -> part q (set_part p m s) = part q s.
Proof. by destruct p, q. Qed.

Lemma part_at_lookup p s a : part_at p s a = part p s !! a.
Proof. by destruct p. Qed.

Lemma write_at p a x s : part_at p (write p a x s) a = Some x.
Proof. rewrite part_at_lookup. unfold write. rewrite part_set. apply lookup_insert_eq. Qed.

Lemma write_other p a x s b : b <> a -> part_at p (write p a x s) b = part_at p s b.
Proof. intros Hb. rewrite !part_at_lookup. unfold write. rewrite part_set. by apply lookup_insert_ne. Qed.

Lemma write_only p a x s : only p s (write p a x s).
Proof. intros q Hq b. rewrite !part_at_lookup. unfold write. by rewrite part_set_ne. Qed.

Lemma free_is_free p s : part_at p s (free p s) = None.
Proof.
  rewrite part_at_lookup. apply not_elem_of_dom. pose proof (is_fresh ({["0"; "1"]} ∪ dom (part p s) : gset string)). set_solver.
Qed.

Lemma make_creates {C} p x (c : C) s s' d r :
  make p x c s = (s', Ok (d, r)) -> config d = c /\ creates_part p s s' (deployed d) x.
Proof.
  intros [= <- <- _]. split; [done|]. split_and!; [apply free_is_free|apply write_at| |apply write_only].
  intros b. apply write_other.
Qed.

Lemma change_updates p s a x (good : content p -> Prop) : good x -> updates_part p s a good [change p a x].
Proof.
  intros Hx s1 _. cbn. split_and!; [exists x; by rewrite write_at|intros b; apply write_other|apply write_only].
Qed.

Lemma look_inv {A} (f : Chain -> option A) s s' x : look f s = (s', Ok x) -> s' = s /\ f s = Some x.
Proof. unfold look. destruct (f s); [by intros [= <- <-]|done]. Qed.

Lemma look_is_some {A B} (f : Chain -> option A) (g : A -> eff Chain B) s s' d : (m ← look f; g m) s = (s', Ok d) -> is_Some (f s).
Proof. intros (s1 & x & [_ Hx]%look_inv & _)%eff_bind_inv. by exists x. Qed.

Lemma look_ok {A B} (f : Chain -> option A) (g : A -> B) s x : f s = Some x -> (m ← look f; mret (g m)) s = (s, Ok (g x)).
Proof. intros Hx. erewrite eff_bind_ok; [reflexivity|]. unfold look. by rewrite Hx. Qed.

Lemma look_only {A B} (f : Chain -> option A) (g : A -> B) p : preserves (only p) (m ← look f; mret (g m)).
Proof.
  apply preserves_bind; [exact _| |intros x; apply preserves_ret; exact _]. intros s. unfold look. by destruct (f s).
Qed.

Lemma make_only {C} p x (c : C) : preserves (only p) (make p x c).
Proof. intros s. apply write_only. Qed.

#[export] Instance sample_ism_laws : IsmChainLaws Chain Change unit.
Proof.
  split.
  - intros s a m Ha. by apply (look_ok (fun s => the_isms s !! a) (fun m => Build_Deployed (with_nested AddressOnly m) a)).
  - intros s a s' d. apply (look_is_some (fun s => the_isms s !! a)).
  - intros c s s' d r [Hc (? & ? & ? & _)]%make_creates. by split_and!.
  - intros c s s' d r [Hc (? & ? & ? & _)]%make_creates. by split_and!.
  - intros c a s s' txs owner ds [= <- <-] _. split; [done|]. intros s1 _.
    destruct (change_updates Isms s1 a (routing_addresses c) (eq (routing_addresses c)) eq_refl s1 eq_refl) as (? & ? & _).
    by split.
  - intros c a s s' txs m Hrun Ha Ht Hst. cbn [updateRaw sample_isms config deployed] in Hrun.
    destruct (is_static (ism_type c)) eqn:Est.
    + assert (txs = [] /\ s' = s) as [-> ->] by (by destruct c; try done; rewrite Est in Hrun; injection Hrun as <- <-).
      split; [done|]. intros s1 Hs1. split; [|done]. exists m. split; [cbn in *; congruence|by apply Hst].
    + assert (txs = [change Isms a (addresses c)] /\ s' = s /\ leaf c = Some (addresses c)) as (-> & -> & Hl).
      { destruct c; try done; rewrite Est in Hrun; by injection Hrun as <- <-. }
      split; [done|]. intros s1 _.
      destruct (change_updates Isms s1 a (addresses c) (fun m' => leaf_serves m' c)) with s1 as (? & ? & _); [by destruct c|done|].
      by split.
  - intros t1 t2 s. apply foldl_app.
  - done.
Qed.

#[export] Instance sample_frames : IsmFrames Chain Change unit.
Proof.
  split.
  - intros a. apply look_only.
  - intros c. apply make_only.
  - intros c. apply make_only.
  - intros d s s' txs [= <- <-]. split; [done|]. intros s1. apply write_only.
  - intros d s s' txs Hrun. cbn in Hrun.
    assert (s' = s /\ (txs = [] \/ exists x, txs = [change Isms (deployed d) x])) as [-> [->|[x ->]]].
    { destruct (config d); try done; destruct (is_static _); injection Hrun as <- <-; eauto. }
    + by split.
    + split; [done|]. intros s1. apply write_only.
Qed.

#[export] Instance sample_hook_laws : HookLaws Chain Change unit.
Proof.
  split.
  - intros m a s c Hc. by apply (look_ok (fun s => the_hooks s !! a) (fun m => Build_Deployed m a)).
  - intros m a s s' d. apply (look_is_some (fun s => the_hooks s !! a)).
  - intros m c s s' d r. apply make_creates.
  - intros m c a s s' txs c0 [= <- <-] _ _. split; [done|]. by apply change_updates.
Qed.

Lemma fee_serves_itself c : fee_serves c c.
Proof.
  split_and!; [|done|done|by destruct c]. unfold shouldDeployNewFee. rewrite decide_False by (by intros []).
  destruct c as [t b p|b p q|b r|b r]; cbn; [..|done|done];
    (destruct p; cbn; [by rewrite (proj2 (Qeq_bool_iff _ _) (Qeq_refl _))|by rewrite !String.eqb_refl]).
Qed.

#[export] Instance sample_fee_laws : FeeLaws Chain Change unit.
Proof.
  split.
  - intros context a s s' d (s1 & x & [-> Hx]%look_inv & [= <- <-])%eff_bind_inv. split_and!; [done..|]. by exists x.
  - intros context c s s' d r [_ Hc]%make_creates. exists c. split; [done|apply fee_serves_itself].
  - intros context c a s s' txs c0 [= <- <-] _ _. split; [done|]. apply change_updates, fee_serves_itself.
Qed.

(** The chain writes addresses as they are given, and every address is proper. *)
Lemma route_serves_itself i h f c :
  no_router_empty c = true -> route_serves (Receipt := unit) String.eqb (fun _ => True) i h f (warp_addresses c) c.
Proof.
  assert (forall kept (o : option string), refers (fun _ => True) kept o o) as Hself by (by intros kept [a|]; [|left]).
  intros Hr. split; [done|done|apply Hself..|]. intros k router Hk. exists router.
  assert (router <> EmptyString) as Hne.
  { unfold no_router_empty in Hr. rewrite forallb_forall in Hr. intros ->. apply map_get_elem in Hk.
    assert (List.In EmptyString (remoteRouters c).*2) as Hin.
    { apply list_elem_of_In, list_elem_of_fmap. by exists (k, EmptyString). }
    by specialize (Hr _ Hin). }
  split_and!; [done|done|apply String.eqb_refl|]. unfold gas_expected, enrolled, gas_of. cbn. rewrite Hk.
  destruct router; [done|]. cbn. by destruct (map_get k (destinationGas c)).
Qed.

Lemma owner_sends p a x (s : Chain) :
  may_send SIGNER (change p a x) s = true -> exists receipts, send_all [change p a x] s = (submit [change p a x] s, Ok receipts).
Proof.
  intros Hs. exists [()]. unfold send_all. cbn [mapM]. unfold sendAndConfirmTransaction, sample_signer.
  cbv beta delta [mbind eff_bind] iota. cbn [foldl submit sample_ism_chain]. by rewrite Hs.
Qed.

#[export] Instance sample_route_laws : RouteLaws Chain Change unit.
Proof.
  refine {| compare_routers := String.eqb; proper := fun _ => True |}.
  - done.
  - intros a s m Hm. by apply (look_ok (fun s => the_routes s !! a) (fun m => Build_Deployed (warp_references m) a)).
  - intros a s s' d. apply (look_is_some (fun s => the_routes s !! a)).
  - intros c s s' d r. cbn [createWarpToken sample_routes].
    destruct (router_recipient _) as [rr|e] eqn:Hr; [|done].
    destruct (js_assert (no_router_empty c) _) as [[]|e] eqn:Hn; [|done]. apply js_assert_ok in Hn.
    intros Hm _. pose proof Hm as [Hc Hcreates]%make_creates. rewrite Hc. split_and!; [done| |].
    + exists (warp_addresses c). split; [done|by apply route_serves_itself].
    + exists rr. by injection Hm as _ <- _.
  - intros c a s s' txs m Hrun Hm _. cbn [updateWarpToken sample_routes config deployed] in Hrun.
    apply eff_bind_inv in Hrun as (s1 & [] & [= <- Hr%js_assert_ok] & [= <- <-]). split_and!; [done| |].
    + by apply change_updates, route_serves_itself.
    + intros Ho s1 Hs1. apply owner_sends. cbn in *. rewrite Hs1. cbn. apply bool_decide_eq_true. by f_equal.
Defined.

#[export] Instance sample_mailbox_laws : MailboxLaws Chain Change unit.
Proof.
  split.
  - intros a s m Hm. by apply (look_ok (fun s => the_mailboxes s !! a) (fun m => Build_Deployed (mailbox_references m) a)).
  - intros a s s' d. apply (look_is_some (fun s => the_mailboxes s !! a)).
  - intros c s s' d r [_ Hc]%make_creates. by exists (mailbox_addresses c).
  - intros c a s s' txs m [= <- <-] Hm. split_and!; [done|by apply change_updates|].
    intros Ho s1 Hs1. apply owner_sends. cbn in *. rewrite Hs1. cbn. apply bool_decide_eq_true. by f_equal.
  - intros mailbox s s' d r [_ Hc]%make_creates. done.
Qed.

(** ** Concrete deployments *)

Definition empty_chain : Chain := Build_Chain ∅ ∅ ∅ ∅ ∅ ∅.
Definition lookup : ChainLookup := {|
  getChainName d := if d =? 1 then Some "one" else if d =? 2 then Some "two" else None;
  getDomainId n := if String.eqb n "one" then Some 1 else if String.eqb n "two" then Some 2 else None
|}.
Definition OWNER : string := "0x0e0e0e0e0e0e0e0e0e0e0e0e0e0e0e0e0e0e0e0e".

(** A route with a hook, a rate limit and a fee of its own. *)
Definition rate_limit : IsmArtifactConfig := ArtifactConfig (CompositeIsm OWNER (RateLimitedNode "100" "mailbox" None)).
Definition linear_fee : FeeArtifactConfig :=
  LeafFee LinearFee {| fee_owner := OWNER; fee_beneficiary := OWNER; fee_token := None |} (RawParams "100" "50").
Definition route : WarpArtifactConfig := {|
  w_owner := OWNER; w_mailbox := "mailbox"; interchainSecurityModule := Some (NEW rate_limit);
  hook := Some (NEW MerkleTreeHook); fee := Some (NEW linear_fee); remoteRouters := [(2, "router")];
  destinationGas := []; w_name := None; w_symbol := None; w_decimals := None; w_scale := None;
  w_contractVersion := None; kind := CollateralWarp "token"
|}.

Definition route_run := create_route (S := Chain) (Tx := Change) (Receipt := unit) "one" lookup 0 route empty_chain.
Definition route_chain : Chain := fst route_run.
(** The route as a recipient. *)
Definition ROUTER : string := "0x0000000000000000000000000000000000000000000000000000000000000000".
Definition route_returned : RawWarpArtifactConfig :=
  with_nested_artifacts (N := Artifact) (M := ArtifactOnChain) route OWNER
    (Some (OnChain (Build_Deployed (protect_new ROUTER rate_limit) "2")))
    (Some (OnChain (Build_Deployed MerkleTreeHook "2")))
    (Some (OnChain (Build_Deployed (withFeeAssetConfig linear_fee (Some "token")) "2"))).

Example route_is_created : exists r, route_run = (route_chain, Ok (Build_Deployed route_returned "2", r)).
Proof. eexists. vm_compute. reflexivity. Qed.

(** The core of a chain. *)
Definition protocol_fee (beneficiary : string) : HookArtifactConfig :=
  ProtocolFeeHook {| pf_owner := OWNER; pf_beneficiary := beneficiary; maxProtocolFee := "9"; protocolFee := "1";
                     maxProtocolFeeUnknown := false |}.
Definition validators : IsmArtifactConfig := ArtifactConfig (MultisigIsm MessageId ["0xA"; "0xB"] 1).
Definition core : MailboxArtifactConfig := {|
  m_owner := OWNER; defaultIsm := NEW validators; defaultHook := NEW MerkleTreeHook; requiredHook := NEW (protocol_fee OWNER);
  m_contractVersion := None
|}.

Definition core_run := create_core (S := Chain) (Tx := Change) (Receipt := unit) "one" false core empty_chain.
Definition core_chain : Chain := fst core_run.
Definition core_returned : MailboxOnChain := {|
  m_owner := OWNER; defaultIsm := OnChain (Build_Deployed validators "2");
  defaultHook := OnChain (Build_Deployed MerkleTreeHook "2"); requiredHook := OnChain (Build_Deployed (protocol_fee OWNER) "3"); m_contractVersion := None
|}.

Example core_is_created :
  exists r, core_run = (core_chain, Ok (Build_Deployed core_returned "2", Some (Build_Deployed "2" "2"), r)).
Proof. eexists. vm_compute. reflexivity. Qed.

(** What is asked for afterwards: other validators, another beneficiary and another owner; and of the route
    another capacity, another owner of its fee, and another router. *)
Definition NEXT_OWNER : string := "0x0f0f0f0f0f0f0f0f0f0f0f0f0f0f0f0f0f0f0f0f".
Definition next_validators : IsmArtifactConfig := ArtifactConfig (MultisigIsm MessageId ["0xA"; "0xC"] 2).
Definition next_core : MailboxArtifactConfig := {|
  m_owner := NEXT_OWNER; defaultIsm := NEW next_validators; defaultHook := NEW MerkleTreeHook;
  requiredHook := NEW (protocol_fee NEXT_OWNER); m_contractVersion := None
|}.
Definition core_update := update_core (S := Chain) (Tx := Change) (Receipt := unit) "one" lookup 1 (Build_Deployed next_core "2") core_chain.
Definition core_txs : list Change :=
  [change Hooks "3" (protocol_fee NEXT_OWNER);
   change Mailboxes "2" {| m_owner := NEXT_OWNER; defaultIsm := "3"; defaultHook := "2"; requiredHook := "3"; m_contractVersion := None |}].
Example core_is_updated : core_update = (fst core_update, Ok core_txs).
Proof. vm_compute. reflexivity. Qed.

Definition next_limit : IsmArtifactConfig := ArtifactConfig (CompositeIsm OWNER (RateLimitedNode "200" "mailbox" None)).
Definition next_fee : FeeArtifactConfig :=
  LeafFee LinearFee {| fee_owner := NEXT_OWNER; fee_beneficiary := OWNER; fee_token := None |} (RawParams "100" "50").
Definition next_route : WarpArtifactConfig := {|
  w_owner := NEXT_OWNER; w_mailbox := "mailbox"; interchainSecurityModule := Some (NEW next_limit);
  hook := Some (NEW MerkleTreeHook); fee := Some (NEW next_fee); remoteRouters := [(1, "another")];
  destinationGas := []; w_name := None; w_symbol := None; w_decimals := None; w_scale := None;
  w_contractVersion := None; kind := CollateralWarp "token"
|}.
Definition route_update := update_route (S := Chain) (Tx := Change) (Receipt := unit) "one" lookup 1 (Build_Deployed next_route "2") route_chain.
Definition route_txs : list Change := match snd route_update with Ok txs => txs | Throw _ => [] end.
Example route_is_updated : route_update = (fst route_update, Ok route_txs) /\ length route_txs = 3%nat.
Proof. vm_compute. by split. Qed.

(** Chains without modules that route. *)
Lemma known_leaves (s : Chain) :
  map_Forall (fun _ m => match m with RoutingIsm _ _ => False | _ => True end) (the_isms s) -> known_chain lookup s.
Proof. intros Hs a owner ds Ha. by apply (map_Forall_lookup_1 _ _ _ _ Hs) in Ha. Qed.

Lemma core_known : known_chain lookup core_chain.
Proof. apply known_leaves. apply (map_Forall_insert_2 _ ∅ "2" (MultisigIsm MessageId ["0xA"; "0xB"] 1)); [exact I|apply map_Forall_empty]. Qed.

Lemma route_known : known_chain lookup route_chain.
Proof.
  apply known_leaves. apply (map_Forall_insert_2 _ ∅ "2" (CompositeIsm OWNER (RateLimitedNode "100" "mailbox" (Some ROUTER))));
    [exact I|apply map_Forall_empty].
Qed.

(** ** Witnesses *)

Lemma created_route_is_configured_witness :
  (exists m : OnChainWarp, route_at route_chain "2" = Some m /\ w_owner m = OWNER /\
    map_get 2 (remoteRouters m) = Some "router") /\
  part_at Routes empty_chain "2" = None.
Proof.
  destruct route_is_created as [r Hr].
  destruct (created_route_is_configured (S := Chain) (Tx := Change) (Receipt := unit) "one" lookup 0 route
    empty_chain route_chain (Build_Deployed route_returned "2") r) as (Hfree & (m & b & Hm & _ & Ho & _ & _ & _ & _ & Hrr & _) & _).
  - exact I.
  - exact I.
  - exact I.
  - exact I.
  - exact I.
  - exact I.
  - exact Hr.
  - split; [|exact Hfree]. exists m. split_and!; [exact Hm| |].
    + destruct Ho as [Ho|[_ Ho]]; [exact Ho|discriminate Ho].
    + destruct (Hrr 2 "router" eq_refl) as (x & Hx & E%String.eqb_eq). by rewrite E in Hx.
Defined.


Lemma updated_core_is_configured_witness :
  exists m : OnChainMailbox, mailbox_at (submit core_txs (fst core_update)) "2" = Some m /\ m_owner m = NEXT_OWNER /\
    ism_applied (at_address (submit core_txs (fst core_update))) (NEW next_validators) (defaultIsm m) /\
    hook_applied (hook_at (submit core_txs (fst core_update))) (NEW (protocol_fee NEXT_OWNER)) (requiredHook m).
Proof.
  destruct (updated_core_is_configured (S := Chain) (Tx := Change) (Receipt := unit) "one" lookup 1 next_core "2"
    {| m_owner := OWNER; defaultIsm := "2"; defaultHook := "2"; requiredHook := "3"; m_contractVersion := None |}
    core_chain (fst core_update) core_txs) as (_ & (m & Hm & Ho & Hi & _ & Hr) & _).
  - vm_compute. reflexivity.
  - apply core_known.
  - intros cur Hcur. vm_compute in Hcur. injection Hcur as <-. apply (bool_decide_unpack _). vm_compute. exact I.
  - intros E. discriminate E.
  - reflexivity.
  - by repeat split.
  - reflexivity.
  - reflexivity.
  - exact core_is_updated.
  - exists m. split; [exact Hm|]. split; [exact Ho|]. split; [exact Hi|exact Hr].
Defined.

Lemma updated_route_is_configured_witness :
  exists m : OnChainWarp, route_at (submit route_txs (fst route_update)) "2" = Some m /\ w_owner m = NEXT_OWNER /\
    ism_now (at_address (submit route_txs (fst route_update))) ROUTER (Some "2") (Some (NEW next_limit)) (interchainSecurityModule m) /\
    settled_router String.eqb (routers_config m) (routers_config next_route) 1 "another".
Proof.
  destruct (updated_route_is_configured (S := Chain) (Tx := Change) (Receipt := unit) "one" lookup 1 next_route "2" ROUTER
    (with_nested_artifacts (M := fun _ => string) route OWNER (Some "2") (Some "2") (Some "2"))
    route_chain (fst route_update) route_txs) as (_ & _ & (m & Hm & Ho & _ & Hi & _ & _ & Hr) & _).
  - vm_compute. reflexivity.
  - apply route_known.
  - intros b cur [= <-] Hcur. vm_compute in Hcur. injection Hcur as <-. apply (bool_decide_unpack _). vm_compute. exact I.
  - vm_compute. reflexivity.
  - reflexivity.
  - reflexivity.
  - reflexivity.
  - by repeat split.
  - exact I.
  - exact I.
  - exact I.
  - exact I.
  - apply route_is_updated.
  - exists m. split; [exact Hm|]. split; [exact Ho|]. split; [exact Hi|exact (Hr 1 "another" eq_refl)].
Defined.

Definition routers_now : RemoteRoutersConfig :=
  {| rr_remoteRouters := [(1, "a"); (2, "b")]; rr_destinationGas := [(2, "7")] |}.
Definition routers_wanted : RemoteRoutersConfig :=
  {| rr_remoteRouters := [(2, "c"); (3, "d")]; rr_destinationGas := [(3, "9")] |}.
Definition routers_then : RemoteRoutersConfig :=
  {| rr_remoteRouters := [(2, "c"); (3, "d")]; rr_destinationGas := [(2, "7"); (3, "9")] |}.

Lemma remote_routers_converge_witness :
  computeRemoteRoutersUpdates routers_now routers_wanted String.eqb =
    {| toEnroll := [{| e_domainId := 2; e_routerAddress := "c"; e_gas := "7" |};
                    {| e_domainId := 3; e_routerAddress := "d"; e_gas := "9" |}]; toUnenroll := [1] |} /\
  computeRemoteRoutersUpdates routers_then routers_wanted String.eqb = Build_WarpRouterDiff [] [].
Proof.
  split; [vm_compute; reflexivity|].
  apply (remote_routers_converge String.eqb routers_now routers_wanted).
  - apply (bool_decide_unpack _). vm_compute. exact I.
  - intros k router Hk. cbn in Hk. repeat case_decide; simplify_eq; by split.
  - split_and!.
    + intros k Hk. assert (k = 1) as -> by (vm_compute in Hk; set_solver). reflexivity.
    + intros e He. vm_compute in He. repeat (apply elem_of_cons in He as [->|He]; [by split|]). by apply elem_of_nil in He.
    + intros k H1 H2. cbn. assert (k <> 1) as N1 by (intros ->; apply H1; vm_compute; left).
      assert (k <> 2) as N2 by (intros ->; apply H2; vm_compute; left).
      assert (k <> 3) as N3 by (intros ->; apply H2; vm_compute; right; left).
      repeat case_decide; congruence || done.
Defined.

Definition ROUTER_A : string := "0x00000000000000000000000000000000000000000000000000000000000000aa".
Definition ROUTER_B : string := "0x00000000000000000000000000000000000000000000000000000000000000bb".
Definition ROUTER_C : string := "0x00000000000000000000000000000000000000000000000000000000000000CC".

Lemma cross_collateral_routers_converge_witness :
  exists d, computeCrossCollateralRouterUpdates [(1, [ROUTER_A; ROUTER_B]); (2, [ROUTER_A])] [(1, [ROUTER_B; ROUTER_C])] = Ok d /\
    d = {| cc_toEnroll := [(1, [to_lower ROUTER_C])]; cc_toUnenroll := [(1, Some [ROUTER_A]); (2, None)] |} /\
    forall after, cc_applied [(1, [ROUTER_A; ROUTER_B]); (2, [ROUTER_A])] after d -> sorted_domains after ->
      forall r, r ∈ routers_of after 1 <-> r ∈ [ROUTER_B; to_lower ROUTER_C].
Proof.
  eexists. split; [vm_compute; reflexivity|]. split; [vm_compute; reflexivity|].
  destruct (cross_collateral_routers_converge [(1, [ROUTER_A; ROUTER_B]); (2, [ROUTER_A])] [(1, [ROUTER_B; ROUTER_C])]
    {| cc_toEnroll := [(1, [to_lower ROUTER_C])]; cc_toUnenroll := [(1, Some [ROUTER_A]); (2, None)] |})
    as (cur & expd & Hc & He & _ & _ & Hafter).
  - repeat constructor; lia.
  - repeat constructor; lia.
  - vm_compute. reflexivity.
  - vm_compute in Hc, He. injection Hc as <-. injection He as <-.
    intros after Ha Hs r. destruct (Hafter after Ha Hs) as (Hr & _). exact (Hr 1 r).
Defined.

End DeploySample.
